(* ===== verification/_CoqProject ===== *)
-Q . S2P
Prelude.v
F64.v
LatencyHistogram.v
Types.v
Events.v
RateCounter.v
RateLimit.v
RateBudget.v
Knobs.v
Errors.v
Auth.v
Rest.v
ConfigResolver.v
ConfigProps.v
Dispatch.v
WireTime.v
TradeError.v
OrderTypes.v
Book.v
Connection.v
ConnectionWp.v
ConnectionInv.v
ConnectionTrace.v
ConnectionWaiters.v
ConnectionDials.v
ConnectionProps.v
TokenLifecycle.v
Registry.v
RegistryInv.v
RegistryProps.v
Replay.v
RegistryBook.v
Handlers.v
EventBus.v
EventBusProps.v
Teardowns.v
Task.v
TaskLogic.v
RestSurface.v
Sample.v
RestSurfaceProps.v
WsCompose.v
OrderProps.v
Reactor.v
WsSurface.v
Trade.v
TradeNamespace.v
TradeProps.v
TradeSafe.v
ClientBuilder.v
ClientProps.v
FrameRouting.v
ReactorLoop.v
ReactorInv.v
ReactorRuns.v
ReactorProps.v
ReactorRegistry.v
SubscriptionSurface.v
SubscriptionProps.v
Correlated.v
CorrelatedInv.v
CorrelatedProps.v
ReadErrors.v
Reads.v
Market.v
Account.v
ReadProps.v
MarketProps.v
AccountProps.v
Streams.v
Lifecycle.v
LifecycleProps.v
Supervisor.v
Transport.v
Socket.v
SocketProps.v
