(* ===== verification/Prelude.v ===== *)
(** * Verification of the Kraken Unified SDK (the Rust crate under rust/)

    Source paths below are relative to the crate, [rust/].

    The SDK keeps authenticated and public WebSocket connections to an exchange,
    sends REST and WebSocket orders, and reports everything that happens to its
    user as typed envelopes on a dispatch bus.  This development models the parts
    that decide: what a connection does on every event and what the reactor does with
    it, which subscriptions live and how they are replayed, how frames are routed and
    events delivered, when a dial is allowed, what a request costs, how knobs are
    changed, which strings are accepted.

    ** How the program fits together

    A caller's operation ends up as a call event ([CallStartConnect], [CallClose],
    [CallForceReconnect]) or a frame for the I/O reactor
    ([src/dispatch/io_reactor]).  The reactor is one task: it is the only writer of
    every [ManagedConnection] ([src/conn/managed_connection]), turns socket activity
    and due timers into [FsmEvent]s and hands them to [handle_event].  It also owns the
    registry of subscriptions ([src/conn/subscription_registry.rs]), the handlers of data
    ([src/dispatch/handler_registry.rs]) and the maintained books ([src/book]), routes
    inbound frames to them ([frame_routing.rs]), and asks the token lifecycle
    ([src/auth/token_lifecycle.rs]) for the tokens of the authenticated endpoint.  A
    transition may consult the host's rate budget ([src/conn/rate_budget.rs]), open a socket
    through a factory, resolve pending requests and publish envelopes
    ([src/dispatch/event_bus]); the bus queues them in a ring that a second task drains
    towards subscribers, while correlated envelopes answer the awaits of callers
    directly.  REST and order calls are charged to the
    rate-limit trackers ([src/rate_limit]) before they are sent.  All tunables live
    in [Knobs] ([src/build/knobs.rs]), a subset of them mutable while running.

    ** The files

    - [Prelude]: machine integers of the crate with their overflow behaviour, shared
      lemmas on strings and lists, and this header.
    - [F64]: binary64 arithmetic on the Standard Library's [spec_float] with the
      monotonicity and range lemmas the counters and delays need, [Duration]
      conversions of the Rust standard library ([as_secs_f64],
      [try_from_secs_f64]), and saturating [as u64] casts.
    - [Types]: [src/types]: channels, assets, symbols, client order ids, connection
      states, with their constructors and wire strings.
    - [Events]: event types and payloads of the bus, for the modelled components.
    - [RateCounter], [RateLimit]: [src/rate_limit]: the decaying counter, the API and
      trading trackers, the LRU order-id index.  A tracker is its locked state; an
      operation returns its result, the new state and the published envelopes, and
      [None] where the code panics.
    - [RateBudget]: [src/conn/rate_budget.rs], the sliding window of dials.
    - [Knobs]: [src/build/knobs.rs].
    - [ConfigResolver], [ConfigProps]: [src/build/config_resolver.rs]: the layers of a
      configuration, the typed parses, interpolation; the TOML parser is a parameter.
    - [ClientBuilder], [ClientProps]: [src/build/client/builder.rs] and the knobs of
      [accessors.rs]: [build] from checks to wired components, [set_knob].
    - [LatencyHistogram]: [src/dispatch/io_reactor/latency_histogram.rs].
    - [Errors]: the error enums the connection branches on ([src/auth/mod.rs],
      [src/transport/mod.rs]) and the text helpers of its messages.
    - [Auth]: [src/auth]: the nonce source as interleaved atomic steps, the form encoder
      with a decoder as its specification, the signer and [sign_form].
    - [Rest]: [src/rest]: classification of failures, backoff, the retry loop over an
      environment of answers ([RetryEnv]), envelope parsing.
    - [Dispatch]: [src/dispatch/dispatch_table.rs]; [WireTime], [OrderTypes], [TradeError],
      [WsCompose]: [src/api/trade]: wire times, requests with their validation and forms,
      errors, WebSocket parameters and replies.  [Decimal] is a class of operations.
    - [Task]: programs of one caller's task over the shared trackers, index and ids
      ([Shared]): each shared operation is one critical section, the environment
      ([TaskEnv]) answers every read and changes the shared state at every [await], where
      the task may also be dropped.  An outcome is done, dropped or panicked; [Act] is the
      log of what left the task, with the request ids it minted and the answers it heard, so
      that a result can be held against the answers it comes from.  [TaskLogic]: rules for
      what a program logs.
    - [RestSurface]: [src/rest/surface.rs]: an attempt, the retry loop around it, the
      reconciliation walk; [RestSurfaceProps] its properties.
    - [WsSurface]: [src/api/ws_surface]: the bring-up before an order, the charged post of
      a request frame, its reply.
    - [Trade], [TradeNamespace]: [src/api/trade]: every order operation on both
      transports, and the deferred calls that build them.  [OrderProps], [TradeProps] and
      [TradeSafe] hold their properties, [Sample] the environment of the witnesses.
    - [Book]: [src/book]: the maintained order book over a sorted-map model of
      [BTreeMap], its checksum, frame decoding.
    - [Connection]: [src/conn/managed_connection] and the timer part of the reactor.
      A transition is a program in the state monad [M] over a [World]: the
      connection, the budget, counters of clock readings and jitter draws, the next
      socket number and the effects so far.  [handle_idle] to [handle_failed] are
      the arms of [handle_event] by source state, each arm's statements in the
      source's order; every field assignment, emission and early return is kept,
      tracing is not.
    - [ConnectionWp]: weakest preconditions of these programs, with the clock, the
      jitter, the budget's answer and socket numbers left arbitrary.
    - [ConnectionInv]: the invariant [conn_inv], the abstract machine [spec_next],
      the reactor's operations on a connection ([ConnOp], [run_op]) with the
      states it performs them in ([op_admitted]), and reachability.
    - [ConnectionTrace]: what a step emits and which requests it resolves.
    - [ConnectionWaiters]: whom a step answers.
    - [ConnectionDials]: the attempt cap and the timers.
    - [ConnectionProps]: the properties, with concrete runs as witnesses.
    - [TokenLifecycle]: [src/auth/token_lifecycle.rs]: the cached token and the refresh
      tasks, whose stages interleave ([token_op]); [token_note] is what a step of them
      did.
    - [Registry]: [src/conn/subscription_registry.rs] with its mirror, credits,
      generations, tombstones, sequence tracker and book drive; [RegistryInv] its
      invariant and the ledger of bare releases, [RegistryProps] the properties;
      [Replay] the frames replayed on a reconnect, [RegistryBook] book gaps and
      sequence gaps.
    - [Handlers]: [src/dispatch/handler_registry.rs], with registration from callers as
      interleaved steps.
    - [EventBus], [EventBusProps], [Teardowns]: [src/dispatch/event_bus/mod.rs]: the
      drop-oldest ring, the subscribers and the dispatch loop, the queue of teardowns, whose
      calls are machines of single accesses ([flush_step], [Teardowns.call_step]).
    - [Correlated], [CorrelatedInv], [CorrelatedProps]: the correlated waiters of the bus,
      with the awaits of [src/api/await_handle.rs] and [src/build/client/completion.rs];
      tasks are programs of critical sections that interleave freely.
    - [Reactor]: the reactor's state ([Reactor.Reactor], the locals of [run]) and its
      monad [RM]; subscribe sends, sockets, mirrors, the send-ready flag.  [conn] runs a
      connection's program inside.
    - [FrameRouting]: [frame_routing.rs]: request responses, subscribe acks, data frames
      and their fan-out, book recovery, socket closes.
    - [ReactorLoop]: [inbound_dispatch.rs] and the arms of the loop in [mod.rs] and
      [timer.rs]; [reactor_turn] is one iteration, [run_turns] any sequence of them.
    - [ReactorInv]: every turn but a request's is made of primitive steps ([rstep]): quiet
      changes, effects, subscription frames, connection operations ([run_op]).
    - [ReactorRuns]: turns as runs of steps labelled with the requests they serve.
    - [ReactorProps]: the invariants of labelled steps and the properties of any turns.
    - [ReactorRegistry]: the turns as operations of the registry: what a program of the
      reactor may change in it ([settles]) and what a message of a caller makes it do
      ([message_served]).
    - [SubscriptionSurface], [SubscriptionProps]: the subscription calls of
      [src/api/ws_surface/mod.rs], [subscription_namespace.rs], [market/ws.rs] and
      [account/ws.rs], guards and handles, and the listings.  A call is a program of
      critical sections, between which the reactor and other callers do anything.
    - [ReadErrors]: the market and account errors; the macros of [src/error.rs] that build
      both are written once over the class [NamespaceError] with its laws.  [Reads]: what
      the REST reads share; [Market] and [Account]: [src/api/market] and
      [src/api/account], every read with its request, its form and its decoding.
      [ReadProps] holds the contracts ([public_contract], [signed_contract]) that
      [MarketProps] and [AccountProps] prove of each read.
    - [Streams]: [src/api/ws_decode.rs] and the payloads of the data channels.
    - [Lifecycle], [LifecycleProps]: [ready], [close] and the destructor of a client
      ([src/build/client/{accessors,completion}.rs]) as step machines beside [Correlated].
    - [Supervisor]: [src/conn/supervisor.rs], with [src/api/events.rs] and its errors; the
      draw and the post of a connect are steps of their own.
    - [Transport]: [src/transport/{mod,http}.rs]: the socket factory, the requests, headers
      and failures of the HTTP transport.  [Socket], [SocketProps]: [src/transport/ws.rs]:
      the owner of a socket and its opener, reader and writer tasks as machines that
      interleave freely over two bounded queues.

    ** What is shown

    - Reactor, for any sequence of turns: its connections stay reachable in the sense of
      [ConnectionInv], so that every property of a connection is one of the running
      program ([connections_stay_reachable]); requests are answered once or pending
      ([requests_accounted]), orders go out at most once and never after a refusal
      ([orders_offered_once]); tokens stay off the public endpoint and orders off a
      connection that is neither open nor authenticating ([frames_guarded]); a success
      is what a frame said ([successes_reported]).  The exception in the first is real:
      a full queue while closing makes a closing connection dial again
      ([closing_interrupted]).  [stale_probe_not_refreshed] runs the order that
      authenticates with a stale token, which nothing refreshes.
    - Connection: every operation preserves the invariant ([reachable_invariant]) and
      every event refines a small abstract machine ([step_refines_spec]); the
      requests recorded are exactly those resolved once and those pending
      ([every_request_resolved_once]), resolved before any lifecycle envelope
      ([requests_resolved_before_announcement]); connect and close callers are
      accounted for ([waiters_accounted]), with the one way to lose a caller as a
      concrete run ([reconnect_strands_connect_waiter]); a connection not at rest
      always has a deadline that moves it on ([never_stuck], [next_timer_is_earliest]);
      the attempt cap bounds the dials and ends in a failed connection
      ([cap_bounds_dials], [cap_reached_gives_up]).
    - Registry: mirror, buckets and guards stay consistent ([registry_invariant]) and bare
      releases follow a ledger ([release_ledger]), which a removal forgets
      ([removal_forgets_credits]); a reconnect replays every live subscription once
      ([replay_exactly_once]); gaps in the sequence are exact and book recovery is
      bounded ([sequence_gaps_exact], [gap_recovery_bounded]).
      All this holds of the running reactor ([running_registry_wellformed]), whose callers
      post what the invariant asks for: a guarded subscription happens whole or not at all
      and its drop releases just what it registered ([guarded_subscription_whole],
      [gated_whole]).  The listings of a running client are its registry
      ([listed_subscriptions_exact]).
    - Configuration: it resolves exactly when every file entry, variable and override is one
      a knob takes, and a knob has the value of the highest source that gives one
      ([resolved_knobs_layered]); interpolation reads only variables of the SDK's prefix
      ([interpolation_confined]) but scans past quotes it should not
      ([comment_after_quotes_scanned]); a client is built exactly over sound inputs,
      and each of its components starts with the resolved knobs and the builder's inputs
      ([built_client_sound]); a changed knob is announced ([set_knob_announced]).
      Percentiles of latencies are within one thirty-second ([percentile_accurate]).
    - Tokens: reactive refreshes have ids of their own, proactive ones are single-flight, an
      outcome handed over is the result of its refresh's fetch, and the cached token is the
      last one fetched since an invalidation ([refreshes_accounted]).  Handlers: the
      presence mirror is exact ([presence_exact]).
    - Bus: everything published is received in order, counted as dropped or queued
      ([event_bus_accounting]); a delivery adds one report per subscriber and reports
      add none ([dispatch_reports]); no teardown is lost or duplicated under any
      interleaving of posts and flushes, and calls nothing interrupts keep their order
      ([teardowns_accounted]), which concurrent ones need not
      ([concurrent_post_overtakes]).
    - Correlated awaits: completions are conserved, and one that an await accepted is done
      with ([completions_conserved]); no await is left without its outcome
      ([no_await_stranded]), except when a death of the dispatch loop races a close
      ([death_racing_close_strands_await]).
    - Budget: no window holds more granted dials than the budget
      ([granted_within_budget]); the announced retry instant is one tick early
      ([throttle_until_one_late]).
    - Rate limits: exact accounting of charges on every branch, absence of panics
      and invariants over whole histories, the LRU cap and its exception.
    - REST: a placement is sent once ([placement_never_resent]); the loop always finishes
      within its budget and one nonce re-sign ([retry_loop_outcome]) and its sleeps are
      bounded ([retry_backoff_bounded]).
    - Authentication: forms decode to exactly what was encoded ([form_roundtrip]), so no
      value can forge a field; nonces strictly increase under every interleaving
      ([nonces_strictly_increase]); signatures cover the sent body.
    - Book: last write wins per price, sides stay sorted and trimmed, checksum
      validation is equivalent to the unbuffered digest, the best levels are shown.
    - Knobs and types: updates and constructors round-trip.
    - Orders: whatever the environment answers, and wherever the call is dropped, a call
      publishes at most one event about its order, and a dropped call whose order was sent
      its cancellation ([order_calls_reported]); one order goes out once
      ([orders_sent_once]); no call panics and the shared state stays well-formed
      ([order_calls_safe]); a charge is kept or refunded with its frame
      ([ws_charge_settled]).  Validation is a specification ([order_validate_exact]), a form
      holds exactly the fields of the request ([order_form_faithful]), times are calendar times
      ([wire_time_is_calendar_time]).  Two runs show where the code departs from its
      documentation ([in_flight_drop_is_retryable], [validated_order_is_indexed]).
    - REST: every post follows the nonce it is signed with and stays within the budget
      ([signed_post_discipline]); a reconciliation's outcome has its grounds in the
      answers heard to its own queries ([reconciliation_grounded]).
    - Reads: a public read asks only its endpoint and touches nothing requests share
      ([market_reads_public]), a private one posts only its signed form
      ([account_reads_signed]), whose fields are exactly those of the request
      ([account_requests_faithful]); results decode the last answer heard, failures carry
      the id minted for their call.  The tickers of all pairs have their modern keys,
      whatever the order of the rows ([rekeyed_tickers_exact]).  A handler for some pairs sees exactly their updates
      ([stream_updates_faithful]).
    - Lifecycle: calls of [ready] and [close] are answered under every interleaving, each
      with an outcome of its own ([lifecycle_calls_told]); the reactor is spawned once and
      a close is latched before it is announced ([lifecycle_ordered]).  Connects reach the
      reactor under the endpoint and the id of their handle ([supervisor_sound]).
    - Sockets: the owner receives the frames of the stream in order and complete with a
      failure last, what goes out is what was queued, with nothing after a close
      ([socket_faithful]); the tasks of a dropped socket end ([dropped_socket_ends]).
      Requests carry the identity of the SDK whatever headers a caller adds
      ([identity_headers]).

    ** Conventions and bounds

    Integers are [N]; a result that may leave its type is written with the
    source's saturating, wrapping or truncating operation.  Instants and durations
    are nanoseconds in [N]; [Instant + Duration] is unbounded, as an overflow would
    need centuries of uptime, and so is the counter of subscriber handles.  Locks are the order of the calls, since a
    critical section is one call or one step of a machine.  Hash maps are [gmap]; where the source
    iterates one, the model uses its canonical order and the theorems do not depend
    on it.  Loops are structural, except the retry
    loop, whose fuel is its attempt budget plus two ([retry_loop_outcome] shows it is
    enough), the flush of teardowns, whose fuel is two accesses an item and five
    ([flush_step_left] counts them down), and the trimming loops of [Rest] and [Book],
    bounded by the length of what they shorten.  The clock, the
    system clock, the jitter source, [f64::powi] (whose precision the standard
    library leaves open) and the derived [Debug] text of a transport error are
    fields of the environment [Env], arbitrary in every theorem.  Sockets and
    oneshot senders are identified by numbers; resolving a sender is an effect.

    The reactor's environment [ReactorEnv] adds whether a socket accepts a frame and what
    a handler's decoder makes of one.  Text frames arrive as parsed JSON.  A turn serves
    the arm the environment chooses: the priorities of the biased [select!] are left out,
    so the theorems hold for every priority.  A frame is logged with the state its
    connection was in.  [ClientReady] at the start of [run] and the flush of pending
    teardowns at the start of an iteration belong to [Correlated] and [Teardowns].

    ** Not modelled

    The network, the WebSocket and HTTP libraries, the runtime and its channels, serde, the
    TOML parser, hashes and tracing are I/O or third-party code: what they answer is the
    choice of the environment, and the decoders serde derives for the rows of a reply are parameters
    ([MarketDecoders], [AccountDecoders], [StreamDecoders]), and so are decimals and their
    parser.  The clock, the jitter source, mocks and the crate root hold no logic of their
    own.  The lines of [cancel_batch] run
    concurrently: each is a program of its own, related to the rows they end with. *)

From stdpp Require Export base gmap sets list strings.
From Stdlib Require Export NArith ZArith Lia.
From Stdlib Require Import Ascii Sorted.

#[export] Set Default Proof Using "Type".

(** ** Machine integers

    The crate's [u32] and [u64] are values of [N] below the type's bound; the
    operations below write out the overflow behaviour the source asks for. *)

Definition u32_max : N := 4294967295%N.
Definition u64_max : N := 18446744073709551615%N.

(** [u32::saturating_add] *)
Definition u32_saturating_add (a b : N) : N := N.min (a + b)%N u32_max.

(** [u64::saturating_add] *)
Definition u64_saturating_add (a b : N) : N := N.min (a + b)%N u64_max.

(** [+=] on a [u32] / [u64] under the release profile (wraps). *)
Definition u32_wrapping_add (a b : N) : N := ((a + b) mod (u32_max + 1))%N.
Definition u64_wrapping_add (a b : N) : N := ((a + b) mod (u64_max + 1))%N.

Lemma u32_saturating_add_le (a b : N) :
  (u32_saturating_add a b ≤ u32_max)%N.
Proof. unfold u32_saturating_add. lia. Qed.

(** ** Strings *)

Section Strings.
Local Open Scope string_scope.

Lemma str_app_cons (x : ascii) (a b : string) : String x a ++ b = String x (a ++ b).
Proof. done. Qed.

Lemma str_app_empty (b : string) : EmptyString ++ b = b.
Proof. done. Qed.

Lemma str_app_assoc (a b c : string) : (a ++ b) ++ c = a ++ (b ++ c).
Proof. induction a as [|x a IH]; [done|]. by rewrite !str_app_cons, IH. Qed.

Lemma str_app_nil (a : string) : a ++ "" = a.
Proof. induction a as [|x a IH]; [done|]. by rewrite str_app_cons, IH. Qed.

Lemma str_length_app (a b : string) :
  String.length (a ++ b) = (String.length a + String.length b)%nat.
Proof. induction a as [|x a IH]; [done|]. rewrite str_app_cons. simpl. by rewrite IH. Qed.

End Strings.

(** ** Lists *)

Lemma Forall_filter_weaken {A} (P Q : A → Prop) `{∀ x, Decision (P x)} (l : list A) :
  Forall Q l → Forall Q (filter P l).
Proof. rewrite !Forall_forall. intros Hl x [_ Hx]%list_elem_of_filter. auto. Qed.


Lemma StronglySorted_filter {A} (R : relation A) (P : A → Prop) `{!∀ x, Decision (P x)} l :
  StronglySorted R l → StronglySorted R (filter P l).
Proof.
  induction 1 as [|a l Hs IH Hall]; [constructor|]. rewrite filter_cons.
  case_decide; [|done]. constructor; [done|]. by apply Forall_filter_weaken.
Qed.

(** How many satisfy a test. *)
Section Counting.
Local Open Scope N_scope.

Definition counted {A} (P : A → bool) (l : list A) : N := N.of_nat (length (filter P l)).

Lemma counted_cons {A} (P : A → bool) x l : counted P (x :: l) = (if P x then 1 else 0) + counted P l.
Proof.
  unfold counted. rewrite filter_cons.
  destruct (decide (P x)) as [HP|HP];
    [apply Is_true_true in HP as ->|apply Is_true_false in HP as ->]; cbn [length]; lia.
Qed.

Lemma counted_mono {A} (P Q : A → bool) l :
  (∀ x, x ∈ l → P x = true → Q x = true) → counted P l <= counted Q l.
Proof.
  unfold counted. induction l as [|x l IH]; intros H; [done|]. rewrite !filter_cons.
  assert (length (filter P l) ≤ length (filter Q l))%nat.
  { enough (N.of_nat (length (filter P l)) <= N.of_nat (length (filter Q l))) by lia.
    apply IH. intros y Hy. apply H. by right. }
  specialize (H x ltac:(by left)).
  destruct (decide (P x)) as [HP|], (decide (Q x)) as [|HQ]; cbn [length]; try lia.
  apply Is_true_true in HP. destruct HQ. by apply Is_true_true, H.
Qed.

Lemma counted_app {A} (P : A → bool) l l' : counted P (l ++ l') = counted P l + counted P l'.
Proof. unfold counted. rewrite filter_app, length_app. lia. Qed.

Lemma counted_le {A} (P : A → bool) l : counted P l <= N.of_nat (length l).
Proof. unfold counted. pose proof (length_filter P l). lia. Qed.

Lemma counted_all {A} (P : A → bool) l : (∀ x, x ∈ l → P x = true) → counted P l = N.of_nat (length l).
Proof.
  unfold counted. induction l as [|x l IH]; intros H; [done|]. rewrite filter_cons.
  rewrite decide_True by (apply Is_true_true, H; by left). cbn [length].
  rewrite !Nat2N.inj_succ, IH; [done|]. intros y Hy. apply H. by right.
Qed.

Lemma counted_none {A} (P : A → bool) l : (∀ x, x ∈ l → P x = false) → counted P l = 0.
Proof.
  unfold counted. induction l as [|x l IH]; intros H; [done|]. rewrite filter_cons.
  rewrite decide_False.
  - apply IH. intros y Hy. apply H. by right.
  - rewrite (H x) by (by left). by intros [].
Qed.

Lemma counted_perm {A} (P : A → bool) l l' : l ≡ₚ l' → counted P l = counted P l'.
Proof. intros H. unfold counted. by rewrite H. Qed.

#[export] Instance counted_proper {A} (P : A → bool) : Proper ((≡ₚ) ==> (=)) (counted P).
Proof. intros l l' H. by apply counted_perm. Qed.

Lemma counted_nil {A} (p : A → bool) : counted p [] = 0.
Proof. done. Qed.

Lemma counted_map {A B} (f : A → B) (p : B → bool) l : counted p (map f l) = counted (p ∘ f) l.
Proof. induction l as [|a l IH]; [done|]. cbn [map]. by rewrite !counted_cons, IH. Qed.

End Counting.
