(* ===== verification/F64.v ===== *)
(** * f64: the IEEE-754 binary64 values the crate computes with

    Rust's [f64] is modelled by the Standard Library's executable
    specification of binary64 ([SpecFloat], precision 53, largest exponent
    1024, round to nearest even).  The first part defines the operations the
    source uses; the second part proves the order and rounding facts the rate
    limiters and the backoff computations rely on. *)

From S2P Require Import Prelude.
From Stdlib Require Import SpecFloat.
Local Open Scope Z_scope.

Abbreviation f64 := spec_float.

Definition prec : Z := 53.
Definition emax : Z := 1024.

(** ** Operations *)

Definition f64_add (x y : f64) : f64 := SFadd prec emax x y.
Definition f64_sub (x y : f64) : f64 := SFsub prec emax x y.
Definition f64_mul (x y : f64) : f64 := SFmul prec emax x y.
Definition f64_div (x y : f64) : f64 := SFdiv prec emax x y.
Definition f64_lt (x y : f64) : bool := SFltb x y.
Definition f64_le (x y : f64) : bool := SFleb x y.
Definition f64_gt (x y : f64) : bool := SFltb y x.
Definition f64_ge (x y : f64) : bool := SFleb y x.

(** [f64::is_nan], [f64::is_finite] *)
Definition f64_is_nan (x : f64) : bool :=
  match x with S754_nan => true | _ => false end.
Definition f64_is_finite (x : f64) : bool :=
  match x with S754_zero _ | S754_finite _ _ _ => true | _ => false end.

Definition f64_zero : f64 := S754_zero false.
Definition f64_infinity : f64 := S754_infinity false.

(** Conversion of an integer ([as f64], [f64::from]): nearest, ties to even. *)
Definition f64_of_Z (z : Z) : f64 := binary_normalize prec emax z 0 false.
Definition f64_of_N (n : N) : f64 := f64_of_Z (Z.of_N n).
Definition f64_one : f64 := Eval vm_compute in f64_of_Z 1.
Definition f64_two : f64 := Eval vm_compute in f64_of_Z 2.

(** A decimal literal [num / 10^k]: the correctly rounded quotient. *)
Definition f64_dec (num : Z) (k : Z) : f64 :=
  f64_div (f64_of_Z num) (f64_of_Z (10 ^ k)).

(** [f64::max] and [f64::min]: a NaN operand is ignored. *)
Definition f64_max (x y : f64) : f64 :=
  if f64_is_nan x then y
  else if f64_is_nan y then x
  else if f64_lt x y then y else x.
Definition f64_min (x y : f64) : f64 :=
  if f64_is_nan x then y
  else if f64_is_nan y then x
  else if f64_lt y x then y else x.

(** [f64::clamp] *)
Definition f64_clamp (x lo hi : f64) : f64 :=
  if f64_lt x lo then lo else if f64_lt hi x then hi else x.

(** [x as u64]: truncation towards zero, saturating; NaN is 0. *)
Definition f64_to_u64 (x : f64) : N :=
  match x with
  | S754_finite false m e =>
      N.min (Z.to_N (if 0 <=? e then Z.pos m * 2 ^ e else Z.pos m / 2 ^ (- e)))
            u64_max
  | S754_infinity false => u64_max
  | _ => 0%N
  end.

(** ** Durations and [f64]

    A [Duration] is its number of nanoseconds. *)

Abbreviation Duration := N.
Definition nanos_per_sec : N := 1000000000%N.
Definition duration_max : Duration := (u64_max * nanos_per_sec + 999999999)%N.

Definition from_secs (s : N) : Duration := (s * nanos_per_sec)%N.
Definition from_millis (ms : N) : Duration := (ms * 1000000)%N.
Definition duration_saturating_add (a b : Duration) : Duration :=
  N.min (a + b)%N duration_max.

(** [Duration::as_secs_f64]: whole seconds plus the nanosecond fraction. *)
Definition as_secs_f64 (d : Duration) : f64 :=
  f64_add (f64_of_N (d / nanos_per_sec)%N)
          (f64_div (f64_of_N (d mod nanos_per_sec)%N) (f64_of_N nanos_per_sec)).

(** Nearest integer, ties to even, of [m * 2^e] for a non-negative [m]. *)
Definition round_half_even (m e : Z) : Z :=
  if 0 <=? e then m * 2 ^ e
  else
    let q := m / 2 ^ (- e) in
    let r := m mod 2 ^ (- e) in
    match Z.compare (2 * r) (2 ^ (- e)) with
    | Lt => q
    | Gt => q + 1
    | Eq => if Z.even q then q else q + 1
    end.

(** [Duration::try_from_secs_f64]: [None] for negative, NaN or too large
    inputs, otherwise the nearest number of nanoseconds. *)
Definition try_from_secs_f64 (x : f64) : option Duration :=
  match x with
  | S754_zero _ => Some 0%N
  | S754_finite false m e =>
      let ns := Z.to_N (round_half_even (Z.pos m * Z.of_N nanos_per_sec) e) in
      if (ns <=? duration_max)%N then Some ns else None
  | _ => None
  end.

(** ** Rounding

    [shr] keeps the quotient and remembers whether the shifted-out part was
    zero; the rounded mantissa therefore lies between every integer below and
    every integer above the exact quotient. *)

Lemma digits2_pos_bounds (p : positive) :
  2 ^ (Z.pos (digits2_pos p) - 1) ≤ Z.pos p < 2 ^ Z.pos (digits2_pos p).
Proof.
  induction p as [p IH|p IH|]; cbn [digits2_pos]; [| |by vm_compute].
  all: rewrite Pos2Z.inj_succ; replace (Z.succ _ - 1) with
    (Z.succ (Z.pos (digits2_pos p) - 1)) by lia.
  all: rewrite !Z.pow_succ_r by lia; lia.
Qed.

Lemma Zdigits2_bounds (m : Z) :
  0 < m → 2 ^ (Zdigits2 m - 1) ≤ m < 2 ^ Zdigits2 m.
Proof. destruct m; [lia|intros _; apply digits2_pos_bounds|lia]. Qed.

Lemma Zdigits2_nonneg (m : Z) : 0 ≤ Zdigits2 m.
Proof. destruct m; simpl; lia. Qed.

Lemma Zdigits2_unique (m d : Z) :
  0 < d → 2 ^ (d - 1) ≤ m < 2 ^ d → Zdigits2 m = d.
Proof.
  intros Hd [Hl Hu].
  assert (0 < m) as Hm by (pose proof (Z.pow_pos_nonneg 2 (d - 1)); lia).
  destruct (Zdigits2_bounds m Hm) as [Hl' Hu'].
  pose proof (Zdigits2_nonneg m).
  assert (Zdigits2 m - 1 < d) by (apply (Z.pow_lt_mono_r_iff 2); lia).
  assert (d - 1 < Zdigits2 m) by (apply (Z.pow_lt_mono_r_iff 2); lia).
  lia.
Qed.

Lemma Zdigits2_mono (a b : Z) : 0 < a → a ≤ b → Zdigits2 a ≤ Zdigits2 b.
Proof.
  intros Ha Hab.
  destruct (Zdigits2_bounds a Ha) as [Hl _].
  destruct (Zdigits2_bounds b ltac:(lia)) as [_ Hu].
  pose proof (Zdigits2_nonneg b).
  assert (Zdigits2 a - 1 < Zdigits2 b); [|lia].
  apply (Z.pow_lt_mono_r_iff 2); lia.
Qed.

Lemma Zdigits2_shift (m k : Z) :
  0 < m → 0 ≤ k → Zdigits2 (m * 2 ^ k) = Zdigits2 m + k.
Proof.
  intros Hm Hk. pose proof (Zdigits2_bounds m Hm).
  pose proof (Zdigits2_nonneg m).
  assert (0 < Zdigits2 m) by (destruct m; simpl; lia).
  apply Zdigits2_unique; [lia|].
  replace (Zdigits2 m + k - 1) with ((Zdigits2 m - 1) + k) by lia.
  rewrite !Z.pow_add_r by lia. pose proof (Z.pow_pos_nonneg 2 k). nia.
Qed.

Lemma iter_pos_nat {A} (f : A → A) (p : positive) (x : A) :
  iter_pos f p x = Nat.iter (Pos.to_nat p) f x.
Proof.
  revert x. induction p as [p IH|p IH|]; intros x; cbn [iter_pos].
  - rewrite !IH, Pos2Nat.inj_xI, Nat.iter_succ_r.
    replace (2 * Pos.to_nat p)%nat with (Pos.to_nat p + Pos.to_nat p)%nat by lia.
    by rewrite Nat.iter_add.
  - rewrite !IH, Pos2Nat.inj_xO. simpl.
    by rewrite Nat.add_0_r, Nat.iter_add.
  - done.
Qed.

(** What [shr] knows after shifting [m] right by [n] bits; [x] tells whether
    the value before the shift was exactly [m] or strictly inside
    [m .. m + 1]. *)
Definition shr_ok (x : bool) (m n : Z) (mrs : shr_record) : Prop :=
  shr_m mrs = m / 2 ^ n ∧
  ((shr_r mrs || shr_s mrs = false) ↔ (x = true ∧ m mod 2 ^ n = 0)).

Lemma shr_1_ok (x : bool) (m n : Z) (mrs : shr_record) :
  0 ≤ m → 0 ≤ n → shr_ok x m n mrs → shr_ok x m (n + 1) (shr_1 mrs).
Proof.
  intros Hm Hn [Hq Hrs]. destruct mrs as [q r s]; simpl in *.
  pose proof (Z.pow_pos_nonneg 2 n ltac:(lia) Hn).
  assert (0 ≤ q) by (subst; apply Z.div_pos; lia).
  assert (m mod 2 ^ (n + 1) = m mod 2 ^ n + 2 ^ n * (q mod 2)) as Hmod.
  { rewrite Z.pow_add_r, Z.pow_1_r, Z.rem_mul_r by lia. by rewrite Hq. }
  assert (m / 2 ^ (n + 1) = q / 2) as Hdiv.
  { rewrite Z.pow_add_r, Z.pow_1_r by lia.
    rewrite <-Z.div_div by lia. by rewrite Hq. }
  unfold shr_ok. rewrite Hmod, Hdiv.
  pose proof (Z.mod_pos_bound m (2 ^ n)).
  destruct q as [|[p|p|]|]; [| | | |lia]; simpl.
  - rewrite Zmod_0_l, Z.div_0_l by lia. split; [done|]. rewrite Hrs.
    rewrite Z.mul_0_r, Z.add_0_r. done.
  - rewrite Pos2Z.inj_xI. split; [Z.div_mod_to_equations; lia|].
    split; [done|]. intros [_ ?]. Z.div_mod_to_equations; nia.
  - rewrite Pos2Z.inj_xO. split; [Z.div_mod_to_equations; lia|].
    rewrite Hrs. rewrite (Z.mul_comm 2), Z_mod_mult.
    rewrite Z.mul_0_r, Z.add_0_r. done.
  - split; [done|]. split; [done|]. change (1 mod 2) with 1. lia.
Qed.

Lemma shr_iter_ok (x : bool) (m : Z) (mrs : shr_record) (k : nat) :
  0 ≤ m → shr_ok x m 0 mrs → shr_ok x m (Z.of_nat k) (Nat.iter k shr_1 mrs).
Proof.
  intros Hm H0. induction k as [|k IH]; [done|].
  rewrite Nat2Z.inj_succ. rewrite Nat.iter_succ. apply shr_1_ok; [done|lia|done].
Qed.

Definition loc_is_exact (l : location) : bool :=
  match l with loc_Exact => true | loc_Inexact _ => false end.

Lemma shr_record_of_loc_ok (m : Z) (l : location) :
  shr_ok (loc_is_exact l) m 0 (shr_record_of_loc m l).
Proof.
  destruct l as [|[]]; split; simpl; rewrite ?Z.div_1_r, ?Z.mod_1_r; by intuition.
Qed.

(** The least integer that is not below the value. *)
Definition upper (x : bool) (m : Z) : Z := if x then m else m + 1.

(** The rounded mantissa of a value at [m / 2^n]. *)
Lemma round_nearest_even_bounds (x : bool) (m n : Z) (mrs : shr_record) (k lo hi : Z) :
  0 ≤ m → 0 ≤ n → shr_ok x m n mrs →
  k = round_nearest_even (shr_m mrs) (loc_of_shr_record mrs) →
  lo * 2 ^ n ≤ m → upper x m ≤ hi * 2 ^ n → lo ≤ k ≤ hi.
Proof.
  intros Hm Hn [Hq Hrs] -> Hlo Hhi.
  pose proof (Z.pow_pos_nonneg 2 n ltac:(lia) Hn).
  pose proof (Z.div_mod m (2 ^ n) ltac:(lia)) as Hdm.
  pose proof (Z.mod_pos_bound m (2 ^ n) ltac:(lia)).
  rewrite <-Hq in Hdm.
  assert (lo ≤ shr_m mrs) by nia.
  assert (shr_m mrs ≤ hi ∧
    (¬ (x = true ∧ m mod 2 ^ n = 0) → shr_m mrs + 1 ≤ hi)) as [Hup Hup1].
  { unfold upper in Hhi. destruct x.
    - split; [nia|]. intros Hne. assert (m mod 2 ^ n ≠ 0) by tauto. nia.
    - assert (shr_m mrs + 1 ≤ hi) by nia. split; [lia|done]. }
  destruct mrs as [q [] []]; simpl in *; destruct Hrs as [Hrs1 Hrs2];
    try (assert (¬ (x = true ∧ m mod 2 ^ n = 0)) as Hne
           by (intros Hz; by specialize (Hrs2 Hz)); specialize (Hup1 Hne));
    try (destruct (Z.even q)); lia.
Qed.

(** The rounding exponent of a mantissa with [d] digits at exponent [e]. *)
Definition fexp64 (e : Z) : Z := fexp prec emax e.

Lemma fexp64_eq (e : Z) : fexp64 e = Z.max (e - 53) (-1074).
Proof. done. Qed.

Lemma fexp64_mono (a b : Z) : a ≤ b → fexp64 a ≤ fexp64 b.
Proof. rewrite !fexp64_eq. lia. Qed.

Definition canonical (m e : Z) : Prop := fexp64 (Zdigits2 m + e) = e.

(** [shr_fexp], when no left shift is needed. *)
Lemma shr_fexp_ok (m e : Z) (l : location) :
  0 ≤ m → e ≤ fexp64 (Zdigits2 m + e) →
  ∃ mrs, shr_fexp prec emax m e l = (mrs, fexp64 (Zdigits2 m + e)) ∧
         shr_ok (loc_is_exact l) m (fexp64 (Zdigits2 m + e) - e) mrs.
Proof.
  intros Hm He. unfold shr_fexp, shr.
  fold (fexp64 (Zdigits2 m + e)).
  change (Z.add (Zdigits2 m) e) with (Zdigits2 m + e).
  destruct (fexp64 (Zdigits2 m + e) - e) as [|p|p] eqn:Hd; [| |lia].
  - eexists; split; [f_equal; lia|]. apply shr_record_of_loc_ok.
  - eexists; split; [f_equal; lia|].
    rewrite iter_pos_nat. rewrite <-positive_nat_Z.
    apply shr_iter_ok; [done|apply shr_record_of_loc_ok].
Qed.

(** [binary_round_aux]: the result carries a rounded mantissa [k] at the
    rounding exponent, in canonical form. *)
Lemma binary_round_aux_spec (sx : bool) (mx ex : Z) (l : location) :
  0 ≤ mx → ex ≤ fexp64 (Zdigits2 mx + ex) →
  let E := fexp64 (Zdigits2 mx + ex) in
  ∃ m e k : Z,
    binary_round_aux prec emax sx mx ex l =
      (match m with
       | Z0 => S754_zero sx
       | Z.pos p => if e <=? emax - prec then S754_finite sx p e
                    else S754_infinity sx
       | Z.neg _ => S754_nan end) ∧
    0 ≤ m ∧ E ≤ e ∧ m * 2 ^ (e - E) = k ∧ (0 < m → canonical m e) ∧
    (∀ lo hi, lo * 2 ^ (E - ex) ≤ mx →
       upper (loc_is_exact l) mx ≤ hi * 2 ^ (E - ex) → lo ≤ k ≤ hi).
Proof.
  intros Hmx HE E. unfold binary_round_aux.
  destruct (shr_fexp_ok mx ex l Hmx HE) as (mrs & -> & Hok). fold E in Hok |- *.
  set (k := round_nearest_even _ _).
  assert (∀ lo hi, lo * 2 ^ (E - ex) ≤ mx →
            upper (loc_is_exact l) mx ≤ hi * 2 ^ (E - ex) → lo ≤ k ≤ hi) as Hk.
  { intros lo hi. eapply round_nearest_even_bounds; [..|done]; [lia| |done].
    fold E in HE. lia. }
  assert (upper (loc_is_exact l) mx ≤ 2 ^ Zdigits2 mx) as Hdu.
  { destruct (Z.eq_dec mx 0) as [->|]; [by destruct l|].
    pose proof (Zdigits2_bounds mx ltac:(lia)). destruct l; simpl; lia. }
  assert (0 < mx → 2 ^ (Zdigits2 mx - 1) ≤ mx) as Hdl.
  { intros Hp. by apply Zdigits2_bounds in Hp as [? _]. }
  pose proof (Zdigits2_nonneg mx) as Hd0.
  assert (E = Z.max (Zdigits2 mx + ex - 53) (-1074)) as HEeq by done.
  (* the rounded mantissa has at most 53 digits, or is 2^53 *)
  assert (0 ≤ k ≤ 2 ^ 53) as [Hk0 Hk1].
  { apply Hk; [lia|]. rewrite <-Z.pow_add_r by (fold E in HE; lia).
    etransitivity; [exact Hdu|]. apply Z.pow_le_mono_r; lia. }
  assert (E = -1074 ∨ 2 ^ 52 ≤ k) as Hk2.
  { destruct (Z.eq_dec E (-1074)); [by left|right].
    assert (2 ^ 52 ≤ k ≤ 2 ^ 53); [|lia]. apply Hk.
    - assert (0 < mx) by (destruct (Z.eq_dec mx 0) as [->|]; [simpl in *; fold E in HE; lia|lia]).
      rewrite <-Z.pow_add_r by (fold E in HE; lia).
      etransitivity; [|by apply Hdl]. apply Z.pow_le_mono_r; lia.
    - rewrite <-Z.pow_add_r by (fold E in HE; lia).
      etransitivity; [exact Hdu|]. apply Z.pow_le_mono_r; lia. }
  assert (E ≤ fexp64 (Zdigits2 k + E)) as HE2.
  { rewrite fexp64_eq. destruct Hk2 as [->|Hk2]; [lia|].
    assert (53 ≤ Zdigits2 k); [|lia].
    change 53 with (Zdigits2 (2 ^ 52)). apply Zdigits2_mono; lia. }
  destruct (shr_fexp_ok k E loc_Exact Hk0 HE2) as (mrs2 & -> & [Hm2 _]).
  set (E2 := fexp64 (Zdigits2 k + E)) in *.
  assert (E2 = Z.max (Zdigits2 k + E - 53) (-1074)) as HE2eq by done.
  assert (-1074 ≤ E) as HEmin by lia.
  exists (shr_m mrs2), E2, k. split; [done|].
  destruct (Z.eq_dec k (2 ^ 53)) as [Hk53|Hk53].
  - (* carry into the next binade *)
    assert (Zdigits2 k = 54) as Hdk by (rewrite Hk53; done).
    assert (E2 = E + 1) as HE2' by lia.
    rewrite HE2', Z.add_simpl_l in Hm2. rewrite Hk53 in Hm2.
    change (2 ^ 53 / 2 ^ 1) with (2 ^ 52) in Hm2. rewrite Hm2, HE2', Z.add_simpl_l, Hk53.
    split_and!; [lia|lia|done| |rewrite <-Hk53; done].
    intros _. unfold canonical. rewrite fexp64_eq. change (Zdigits2 (2^52)) with 53. lia.
  - assert (Zdigits2 k ≤ 53) as Hdk.
    { destruct (Z.eq_dec k 0) as [->|]; [simpl; lia|].
      change 53 with (Zdigits2 (2 ^ 53 - 1)). apply Zdigits2_mono; lia. }
    assert (E2 = E) as HE2' by lia.
    rewrite HE2', Z.sub_diag, Z.pow_0_r, Z.div_1_r in Hm2.
    rewrite Hm2, HE2', Z.sub_diag, Z.pow_0_r, Z.mul_1_r.
    split_and!; [lia|lia|done| |done].
    intros _. unfold canonical. fold E2. lia.
Qed.

(** ** Order *)

Lemma SFcompare_refl (x : f64) :
  f64_is_nan x = false → SFcompare x x = Some Eq.
Proof.
  destruct x as [[]|[]| |[] m e]; simpl; try done; intros _;
    rewrite Z.compare_refl; change (Pos.compare_cont Eq m m) with (Pos.compare m m);
    by rewrite Pos.compare_refl.
Qed.

Lemma SFcompare_swap (x y : f64) :
  SFcompare y x = CompOpp <$> SFcompare x y.
Proof.
  destruct x as [[]|[]| |[] m e], y as [[]|[]| |[] m' e']; simpl; try done;
    rewrite (Z.compare_antisym e e'); destruct (Z.compare e e'); simpl; try done;
    change (Pos.compare_cont Eq m' m) with (Pos.compare m' m);
    change (Pos.compare_cont Eq m m') with (Pos.compare m m');
    rewrite (Pos.compare_antisym m m'); by destruct (Pos.compare m m').
Qed.

Lemma f64_le_refl (x : f64) : f64_is_nan x = false → f64_le x x = true.
Proof. intros H. unfold f64_le, SFleb. by rewrite SFcompare_refl. Qed.

(** On comparable values, [<] is the negation of the swapped [<=]. *)
Lemma f64_lt_ge (x y : f64) :
  f64_is_nan x = false → f64_is_nan y = false → f64_lt x y = negb (f64_le y x).
Proof.
  intros Hx Hy. unfold f64_lt, f64_le, SFltb, SFleb.
  rewrite (SFcompare_swap x y).
  destruct (SFcompare x y) as [[]|] eqn:E; try done.
  destruct x as [[]|[]| |[] m e], y as [[]|[]| |[] m' e']; done.
Qed.

Lemma f64_lt_le (x y : f64) : f64_lt x y = true → f64_le x y = true.
Proof.
  unfold f64_lt, f64_le, SFltb, SFleb. by destruct (SFcompare x y) as [[]|].
Qed.

Lemma f64_le_trans (x y z : f64) :
  f64_le x y = true → f64_le y z = true → f64_le x z = true.
Proof.
  unfold f64_le, SFleb.
  destruct x as [[]|[]| |[] m e], y as [[]|[]| |[] m' e'], z as [[]|[]| |[] m'' e''];
    simpl; try done;
    change (Pos.compare_cont Eq ?a ?b) with (Pos.compare a b) in *;
    repeat (match goal with |- context [Z.compare ?a ?b] =>
              destruct (Z.compare_spec a b); subst; simpl; try done; try lia end);
    repeat (match goal with |- context [Pos.compare ?a ?b] =>
              destruct (Pos.compare_spec a b); subst; simpl; try done; try lia end).
Qed.

Lemma f64_le_not_nan (x y : f64) :
  f64_le x y = true → f64_is_nan x = false ∧ f64_is_nan y = false.
Proof. destruct x as [[]|[]| |[] m e], y as [[]|[]| |[] m' e']; done. Qed.

Lemma f64_lt_irrefl (x : f64) : f64_lt x x = false.
Proof.
  unfold f64_lt, SFltb. destruct (f64_is_nan x) eqn:E; [by destruct x as [[]|[]| |[]]|].
  by rewrite SFcompare_refl.
Qed.

Lemma f64_not_lt_le (x y : f64) :
  f64_is_nan x = false → f64_is_nan y = false →
  f64_lt x y = false → f64_le y x = true.
Proof.
  intros Hx Hy H. rewrite f64_lt_ge in H by done. by destruct (f64_le y x).
Qed.

(** ** max, min, clamp *)

Lemma f64_max_ge_r (x y : f64) :
  f64_is_nan y = false → f64_le y (f64_max x y) = true.
Proof.
  intros Hy. unfold f64_max. rewrite Hy.
  destruct (f64_is_nan x) eqn:Hx; [by apply f64_le_refl|].
  destruct (f64_lt x y) eqn:Hl; [by apply f64_le_refl|by apply f64_not_lt_le].
Qed.

Lemma f64_max_le (x y z : f64) :
  f64_is_nan x = false → f64_le x z = true → f64_le y z = true →
  f64_le (f64_max x y) z = true.
Proof.
  intros Hx Hxz Hyz. unfold f64_max. rewrite Hx.
  by destruct (f64_is_nan y), (f64_lt x y).
Qed.

Lemma f64_min_le_r (x y : f64) :
  f64_is_nan y = false → f64_le (f64_min x y) y = true.
Proof.
  intros Hy. unfold f64_min. rewrite Hy.
  destruct (f64_is_nan x) eqn:Hx; [by apply f64_le_refl|].
  destruct (f64_lt y x) eqn:Hl; [by apply f64_le_refl|by apply f64_not_lt_le].
Qed.

Lemma f64_min_ge (x y z : f64) :
  f64_is_nan x = false → f64_le z x = true → f64_le z y = true →
  f64_le z (f64_min x y) = true.
Proof.
  intros Hx Hxz Hyz. unfold f64_min. rewrite Hx.
  by destruct (f64_is_nan y), (f64_lt y x).
Qed.

Lemma f64_clamp_bounds (x lo hi : f64) :
  f64_is_nan x = false → f64_le lo hi = true →
  f64_le lo (f64_clamp x lo hi) = true ∧ f64_le (f64_clamp x lo hi) hi = true.
Proof.
  intros Hx Hlh. destruct (f64_le_not_nan _ _ Hlh) as [Hlo Hhi].
  unfold f64_clamp. destruct (f64_lt x lo) eqn:H1; [by split; [apply f64_le_refl|]|].
  destruct (f64_lt hi x) eqn:H2; [by split; [|apply f64_le_refl]|].
  split; by apply f64_not_lt_le.
Qed.

(** Canonical mantissas compare by exponent first. *)
Lemma canonical_le (m1 e1 m2 e2 z : Z) :
  0 < m1 → 0 < m2 → canonical m1 e1 → canonical m2 e2 → z ≤ e1 → z ≤ e2 →
  m1 * 2 ^ (e1 - z) ≤ m2 * 2 ^ (e2 - z) → e1 < e2 ∨ (e1 = e2 ∧ m1 ≤ m2).
Proof.
  intros H1 H2 Hc1 Hc2 Hz1 Hz2 Hle.
  pose proof (Z.pow_pos_nonneg 2 (e1 - z) ltac:(lia) ltac:(lia)).
  pose proof (Z.pow_pos_nonneg 2 (e2 - z) ltac:(lia) ltac:(lia)).
  pose proof (Zdigits2_mono _ _ (Z.mul_pos_pos _ _ H1 H) Hle) as Hd.
  rewrite !Zdigits2_shift in Hd by lia.
  assert (fexp64 (Zdigits2 m1 + e1) ≤ fexp64 (Zdigits2 m2 + e2)) as Hf
    by (apply fexp64_mono; lia).
  rewrite Hc1, Hc2 in Hf.
  destruct (Z.eq_dec e1 e2) as [->|]; [right|left; lia].
  split; [done|]. by apply Z.mul_le_mono_pos_r in Hle.
Qed.

Lemma f64_le_pos (m1 m2 : positive) (e1 e2 : Z) :
  e1 < e2 ∨ (e1 = e2 ∧ Z.pos m1 ≤ Z.pos m2) →
  f64_le (S754_finite false m1 e1) (S754_finite false m2 e2) = true.
Proof.
  unfold f64_le, SFleb. simpl. intros [H| [-> H]].
  - by rewrite (proj2 (Z.compare_lt_iff _ _) H).
  - rewrite Z.compare_refl. change (Pos.compare_cont Eq m1 m2) with (Pos.compare m1 m2).
    destruct (Pos.compare_spec m1 m2); [done|done|lia].
Qed.

Lemma f64_le_pos_inv (m1 m2 : positive) (e1 e2 : Z) :
  f64_le (S754_finite false m1 e1) (S754_finite false m2 e2) = true →
  e1 < e2 ∨ (e1 = e2 ∧ Z.pos m1 ≤ Z.pos m2).
Proof.
  unfold f64_le, SFleb, SFcompare.
  destruct (Z.compare_spec e1 e2); [|by left|done].
  change (Pos.compare_cont Eq m1 m2) with (Pos.compare m1 m2).
  destruct (Pos.compare_spec m1 m2); [by right; subst|by right; split; [|lia]|done].
Qed.

(** ** Rounding inequalities

    Rounding never crosses a representable value: the rounded result of an
    exact value below (above) a float is below (above) that float. *)

Definition valid (x : f64) : Prop := valid_binary prec emax x = true.

Lemma valid_finite (s : bool) (m : positive) (e : Z) :
  valid (S754_finite s m e) ↔ canonical (Z.pos m) e ∧ e ≤ emax - prec.
Proof.
  unfold valid, valid_binary, bounded, canonical_mantissa, canonical, fexp64.
  rewrite andb_true_iff, Z.eqb_eq, Z.leb_le. done.
Qed.

(** [m1 * 2^e1 <= m2 * 2^e2] *)
Definition scaled_le (m1 e1 m2 e2 : Z) : Prop :=
  ∃ z, z ≤ e1 ∧ z ≤ e2 ∧ m1 * 2 ^ (e1 - z) ≤ m2 * 2 ^ (e2 - z).

Lemma scaled_le_rebase (m1 e1 m2 e2 z : Z) :
  scaled_le m1 e1 m2 e2 → z ≤ e1 → z ≤ e2 →
  m1 * 2 ^ (e1 - z) ≤ m2 * 2 ^ (e2 - z).
Proof.
  intros (w & H1 & H2 & H) Hz1 Hz2.
  pose proof (Z.pow_pos_nonneg 2 (w - Z.min w z) ltac:(lia) ltac:(lia)).
  pose proof (Z.pow_pos_nonneg 2 (z - Z.min w z) ltac:(lia) ltac:(lia)).
  apply (Z.mul_le_mono_pos_r _ _ (2 ^ (w - Z.min w z))) in H; [|done].
  apply (Z.mul_le_mono_pos_r _ _ (2 ^ (z - Z.min w z))); [done|].
  rewrite <-!Z.mul_assoc, <-!Z.pow_add_r in H |- * by lia.
  by replace (e1 - z + (z - Z.min w z)) with (e1 - w + (w - Z.min w z)) by lia;
     replace (e2 - z + (z - Z.min w z)) with (e2 - w + (w - Z.min w z)) by lia.
Qed.

Lemma scaled_le_digits (m1 e1 m2 e2 : Z) :
  0 < m1 → scaled_le m1 e1 m2 e2 → Zdigits2 m1 + e1 ≤ Zdigits2 m2 + e2.
Proof.
  intros Hm (z & H1 & H2 & H).
  pose proof (Z.pow_pos_nonneg 2 (e1 - z) ltac:(lia) ltac:(lia)) as Hp1.
  pose proof (Z.pow_pos_nonneg 2 (e2 - z) ltac:(lia) ltac:(lia)) as Hp2.
  pose proof (Z.mul_pos_pos _ _ Hm Hp1) as Hp.
  pose proof (Zdigits2_mono _ _ Hp H) as Hd.
  assert (0 < m2) by (apply (Z.mul_pos_cancel_r _ _ Hp2); lia).
  rewrite !Zdigits2_shift in Hd; lia.
Qed.

(** The rounding exponent of a value below a float does not exceed the
    float's exponent. *)
Lemma rounding_exponent_le (mx ex m e : Z) :
  0 ≤ mx → ex ≤ fexp64 (Zdigits2 mx + ex) → canonical m e →
  scaled_le mx ex m e → fexp64 (Zdigits2 mx + ex) ≤ e.
Proof.
  intros Hmx HE Hc Hle. destruct (Z.eq_dec mx 0) as [->|].
  - unfold canonical in Hc. rewrite fexp64_eq in *. simpl in *. lia.
  - apply scaled_le_digits in Hle; [|lia]. apply fexp64_mono in Hle. by rewrite Hc in Hle.
Qed.

Lemma scaled_le_weaken (a m1 e1 m2 e2 : Z) :
  a ≤ m1 → scaled_le m1 e1 m2 e2 → scaled_le a e1 m2 e2.
Proof.
  intros Ha (z & H1 & H2 & H). exists z. split_and!; [done|done|].
  etransitivity; [|exact H]. apply Z.mul_le_mono_nonneg_r; [|done].
  apply Z.pow_nonneg. lia.
Qed.

Lemma binary_round_aux_le (mx ex : Z) (l : location) (m : positive) (e : Z) :
  0 ≤ mx → ex ≤ fexp64 (Zdigits2 mx + ex) →
  valid (S754_finite false m e) →
  scaled_le (upper (loc_is_exact l) mx) ex (Z.pos m) e →
  f64_le (binary_round_aux prec emax false mx ex l)
         (S754_finite false m e) = true.
Proof.
  intros Hmx HE [Hc He]%valid_finite Hle.
  assert (scaled_le mx ex (Z.pos m) e) as Hle'.
  { eapply scaled_le_weaken; [|exact Hle]. destruct l; simpl; lia. }
  pose proof (rounding_exponent_le _ _ _ _ Hmx HE Hc Hle') as HEe.
  destruct (binary_round_aux_spec false mx ex l Hmx HE)
    as (m' & e' & k & -> & Hm' & Hee' & Hk & Hc' & Hb).
  set (E := fexp64 (Zdigits2 mx + ex)) in *.
  destruct m' as [|p|p]; [done| |lia].
  assert (k ≤ Z.pos m * 2 ^ (e - E)) as Hkle.
  { eapply (Hb 0). { lia. }
    rewrite <-Z.mul_assoc, <-Z.pow_add_r by lia.
    apply (scaled_le_rebase _ _ _ _ ex) in Hle as Hr; [|lia|lia].
    rewrite Z.sub_diag, Z.pow_0_r, Z.mul_1_r in Hr.
    by replace (e - E + (E - ex)) with (e - ex) by lia. }
  rewrite <-Hk in Hkle.
  apply canonical_le in Hkle as Hcan; [|lia|lia|by apply Hc'|done|lia|lia].
  rewrite (proj2 (Z.leb_le e' (emax - prec))) by lia.
  apply f64_le_pos. lia.
Qed.

Lemma binary_round_aux_ge (mx ex : Z) (l : location) (m : positive) (e : Z) :
  0 < mx → ex ≤ fexp64 (Zdigits2 mx + ex) →
  valid (S754_finite false m e) → scaled_le (Z.pos m) e mx ex →
  f64_le (S754_finite false m e)
         (binary_round_aux prec emax false mx ex l) = true.
Proof.
  intros Hmx HE [Hc He]%valid_finite Hle.
  apply scaled_le_digits in Hle as Hd; [|lia].
  apply fexp64_mono in Hd as HEe. rewrite Hc in HEe.
  destruct (binary_round_aux_spec false mx ex l ltac:(lia) HE)
    as (m' & e' & k & -> & Hm' & Hee' & Hk & Hc' & Hb).
  pose proof (Zdigits2_bounds mx Hmx) as [Hdl Hdu].
  pose proof (fexp64_eq (Zdigits2 mx + ex)) as HEeq.
  set (E := fexp64 (Zdigits2 mx + ex)) in *.
  assert (upper (loc_is_exact l) mx ≤ (mx + 1) * 2 ^ (E - ex)) as Hup.
  { pose proof (Z.pow_pos_nonneg 2 (E - ex)). destruct l; simpl; nia. }
  assert (0 < k ∧ (e < E ∨ (E = e ∧ Z.pos m ≤ k))) as [Hk0 HkE].
  { destruct (Z.eq_dec E e) as [HEE|HEE].
    - assert (Z.pos m ≤ k); [|lia]. refine (proj1 (Hb (Z.pos m) (mx + 1) _ Hup)).
      apply (scaled_le_rebase _ _ _ _ ex) in Hle as Hr; [|lia|lia].
      rewrite Z.sub_diag, Z.pow_0_r, Z.mul_1_r in Hr. by rewrite HEE.
    - pose proof (fexp64_eq (Zdigits2 (Z.pos m) + e)) as Hceq. rewrite Hc in Hceq.
      assert (2 ^ 52 ≤ k); [|lia]. refine (proj1 (Hb (2 ^ 52) (mx + 1) _ Hup)).
      rewrite <-Z.pow_add_r by lia. etransitivity; [|apply Hdl].
      apply Z.pow_le_mono_r; lia. }
  destruct m' as [|p|p]; [lia| |lia].
  destruct (e' <=? emax - prec) eqn:Hov; [|done].
  apply f64_le_pos. destruct HkE as [|[HEE Hmk]]; [lia|].
  destruct (Z.eq_dec e' E) as [->|]; [right|lia].
  rewrite Z.sub_diag, Z.pow_0_r in Hk. lia.
Qed.

Lemma binary_round_aux_valid (sx : bool) (mx ex : Z) (l : location) :
  0 ≤ mx → ex ≤ fexp64 (Zdigits2 mx + ex) →
  let z := binary_round_aux prec emax sx mx ex l in
  valid z ∧ f64_is_nan z = false ∧
  (if sx then f64_le z f64_zero = true else f64_le f64_zero z = true).
Proof.
  intros Hmx HE.
  destruct (binary_round_aux_spec sx mx ex l Hmx HE)
    as (m' & e' & k & -> & Hm' & _ & _ & Hc' & _).
  destruct m' as [|p|p]; [by destruct sx| |lia].
  destruct (e' <=? emax - prec) eqn:Hov; [|by destruct sx].
  apply Z.leb_le in Hov. split_and!; [|done|by destruct sx].
  apply valid_finite. split; [by apply Hc'|done].
Qed.

(** ** Operations *)

Lemma pos_iter_xO (p d : positive) :
  Z.pos (Pos.iter xO p d) = Z.pos p * 2 ^ Z.pos d.
Proof.
  induction d as [|d IH] using Pos.peano_ind; [simpl; lia|].
  rewrite Pos.iter_succ, Pos2Z.inj_succ, Z.pow_succ_r by lia.
  rewrite Pos2Z.inj_xO, IH. lia.
Qed.

Lemma shl_align_fst (p : positive) (e z : Z) :
  z ≤ e → Z.pos (fst (shl_align p e z)) = Z.pos p * 2 ^ (e - z).
Proof.
  intros Hz. unfold shl_align. change (Z.sub z e) with (z - e).
  destruct (z - e) as [|d|d] eqn:Hd; simpl; [|lia|].
  - replace (e - z) with 0 by lia. lia.
  - rewrite pos_iter_xO. by replace (e - z) with (Z.pos d) by lia.
Qed.

Lemma binary_round_aligned (sx : bool) (p : positive) (e : Z) :
  ∃ mx ex, binary_round prec emax sx p e =
             binary_round_aux prec emax sx mx ex loc_Exact ∧
    0 < mx ∧ ex ≤ fexp64 (Zdigits2 mx + ex) ∧ ex ≤ e ∧
    mx = Z.pos p * 2 ^ (e - ex).
Proof.
  unfold binary_round. fold (fexp64 (Z.pos (digits2_pos p) + e)).
  change (Z.pos (digits2_pos p)) with (Zdigits2 (Z.pos p)).
  unfold shl_align. set (E := fexp64 (Zdigits2 (Z.pos p) + e)).
  change (Z.sub E e) with (E - e).
  destruct (E - e) as [|d|d] eqn:Hd.
  - exists (Z.pos p), e. split_and!; [done|lia|fold E; lia|lia|].
    rewrite Z.sub_diag. lia.
  - exists (Z.pos p), e. split_and!; [done|lia|fold E; lia|lia|].
    rewrite Z.sub_diag. lia.
  - exists (Z.pos (Pos.iter xO p d)), E.
    assert (Z.pos (Pos.iter xO p d) = Z.pos p * 2 ^ (e - E)) as Heq.
    { rewrite pos_iter_xO. by replace (e - E) with (Z.pos d) by lia. }
    split_and!; [done|lia| |lia|done].
    rewrite Heq, Zdigits2_shift by lia.
    replace (Zdigits2 (Z.pos p) + (e - E) + E) with (Zdigits2 (Z.pos p) + e) by lia.
    fold E. lia.
Qed.

(** Finite, representable and not negative. *)
Definition nonneg (x : f64) : Prop :=
  valid x ∧ f64_is_finite x = true ∧ f64_le f64_zero x = true.

Lemma nonneg_cases (x : f64) :
  nonneg x →
  (∃ s, x = S754_zero s) ∨
  (∃ m e, x = S754_finite false m e ∧ canonical (Z.pos m) e ∧ e ≤ emax - prec).
Proof.
  intros (Hv & Hf & Hp). destruct x as [s|[]| |[] m e]; try done; [by eauto|].
  right. exists m, e. by apply valid_finite in Hv as [??].
Qed.

Lemma nonneg_not_nan (x : f64) : nonneg x → f64_is_nan x = false.
Proof. intros (_ & _ & H). by apply f64_le_not_nan in H as [_ ?]. Qed.

Lemma nonneg_zero (s : bool) : nonneg (S754_zero s).
Proof. by destruct s. Qed.

(** A difference of non-negative numbers does not exceed the minuend. *)
Lemma f64_sub_le (x y : f64) :
  nonneg x → nonneg y →
  valid (f64_sub x y) ∧ f64_is_nan (f64_sub x y) = false ∧
  f64_le (f64_sub x y) x = true.
Proof.
  intros Hx Hy. unfold f64_sub.
  destruct (nonneg_cases x Hx) as [[s ->]|(m & e & -> & Hc & He)],
           (nonneg_cases y Hy) as [[s' ->]|(m' & e' & -> & Hc' & He')];
    cbn [SFsub].
  - by destruct s, s'.
  - split_and!; [by apply valid_finite|done|by destruct s].
  - split_and!; [by apply valid_finite|done|by apply f64_le_refl].
  - change (Z.min e e') with (e `min` e'). set (z := e `min` e').
    cbn [cond_Zopp]. rewrite !shl_align_fst by lia.
    match goal with |- context [binary_normalize _ _ ?d _ _] =>
      destruct d as [|p|p] eqn:Hd end; cbn [binary_normalize].
    + done.
    + destruct (binary_round_aligned false p z) as (mx & ex & -> & Hmx & HE & Hez & Heq).
      destruct (binary_round_aux_valid false mx ex loc_Exact ltac:(lia) HE) as (Hv & Hn & _).
      split_and!; [done|done|].
      apply binary_round_aux_le; [lia|done|by apply valid_finite|].
      cbn [loc_is_exact upper].
      exists ex. split_and!; [lia|lia|]. rewrite Z.sub_diag, Z.pow_0_r, Z.mul_1_r, Heq.
      pose proof (Z.pow_pos_nonneg 2 (e' - z)).
      pose proof (Z.pow_pos_nonneg 2 (z - ex)).
      replace (e - ex) with ((e - z) + (z - ex)) by lia.
      rewrite Z.pow_add_r, Z.mul_assoc by lia. apply Z.mul_le_mono_nonneg_r; nia.
    + destruct (binary_round_aligned true p z) as (mx & ex & -> & Hmx & HE & Hez & Heq).
      destruct (binary_round_aux_valid true mx ex loc_Exact ltac:(lia) HE) as (Hv & Hn & Hs).
      split_and!; [done|done|]. eapply f64_le_trans; [exact Hs|done].
Qed.

(** A sum of non-negative numbers is at least each summand (it may overflow
    to infinity, but is never NaN). *)
Lemma f64_add_ge (x y : f64) :
  nonneg x → nonneg y →
  valid (f64_add x y) ∧ f64_is_nan (f64_add x y) = false ∧
  f64_le x (f64_add x y) = true.
Proof.
  intros Hx Hy. unfold f64_add.
  destruct (nonneg_cases x Hx) as [[s ->]|(m & e & -> & Hc & He)],
           (nonneg_cases y Hy) as [[s' ->]|(m' & e' & -> & Hc' & He')];
    cbn [SFadd].
  - by destruct s, s'.
  - split_and!; [by apply valid_finite|done|by destruct s].
  - split_and!; [by apply valid_finite|done|by apply f64_le_refl].
  - change (Z.min e e') with (e `min` e'). set (z := e `min` e').
    cbn [cond_Zopp]. rewrite !shl_align_fst by lia.
    pose proof (Z.pow_pos_nonneg 2 (e - z)).
    pose proof (Z.pow_pos_nonneg 2 (e' - z)).
    match goal with |- context [binary_normalize _ _ ?d _ _] =>
      destruct d as [|p|p] eqn:Hd end; cbn [binary_normalize]; [nia| |nia].
    destruct (binary_round_aligned false p z) as (mx & ex & -> & Hmx & HE & Hez & Heq).
    destruct (binary_round_aux_valid false mx ex loc_Exact ltac:(lia) HE) as (Hv & Hn & _).
    split_and!; [done|done|].
    apply binary_round_aux_ge; [done|done|by apply valid_finite|].
    exists ex. split_and!; [lia|lia|]. rewrite Z.sub_diag, Z.pow_0_r, Z.mul_1_r, Heq.
    pose proof (Z.pow_pos_nonneg 2 (z - ex)).
    replace (e - ex) with ((e - z) + (z - ex)) by lia.
    rewrite Z.pow_add_r, Z.mul_assoc by lia. apply Z.mul_le_mono_nonneg_r; nia.
Qed.

Lemma f64_add_nonneg (x y : f64) :
  nonneg x → nonneg y → f64_le f64_zero (f64_add x y) = true.
Proof.
  intros Hx Hy. destruct (f64_add_ge x y Hx Hy) as (_ & _ & H).
  eapply f64_le_trans; [|exact H]. by destruct Hx as (_ & _ & ?).
Qed.

(** A valid value between two non-negative finite ones is itself one. *)
Lemma nonneg_between (x hi : f64) :
  valid x → f64_le f64_zero x = true → f64_le x hi = true → nonneg hi → nonneg x.
Proof.
  intros Hv H0 Hle (_ & Hf & _). split_and!; [done| |done].
  destruct x as [[]|[]| |[] m e], hi as [[]|[]| |[] m' e']; done.
Qed.

Lemma f64_max_zero_nonneg (x hi : f64) :
  valid x → f64_is_nan x = false → f64_le x hi = true → nonneg hi →
  nonneg (f64_max x f64_zero) ∧ f64_le (f64_max x f64_zero) hi = true.
Proof.
  intros Hv Hn Hle Hhi.
  assert (f64_le (f64_max x f64_zero) hi = true) as Hm.
  { apply f64_max_le; [done|done|]. by destruct Hhi as (_ & _ & ?). }
  split; [|done]. eapply nonneg_between; [|by apply f64_max_ge_r|exact Hm|done].
  unfold f64_max. rewrite Hn. cbn [f64_is_nan f64_zero].
  by destruct (f64_lt x f64_zero).
Qed.

Lemma canonical_digits (m e : Z) :
  canonical m e → (Zdigits2 m = 53 ∧ -1074 ≤ e) ∨ (Zdigits2 m ≤ 53 ∧ e = -1074).
Proof. unfold canonical. rewrite fexp64_eq. lia. Qed.

(** Multiplying by a factor of at most one does not increase the value. *)
Lemma f64_mul_le (x y : f64) :
  nonneg x → nonneg y → f64_le y f64_one = true →
  nonneg (f64_mul x y) ∧ f64_le (f64_mul x y) x = true.
Proof.
  intros Hx Hy Hy1. unfold f64_mul.
  destruct (nonneg_cases x Hx) as [[s ->]|(m & e & -> & Hc & He)],
           (nonneg_cases y Hy) as [[s' ->]|(m' & e' & -> & Hc' & He')];
    cbn [SFmul xorb].
  - by destruct s, s'.
  - by destruct s.
  - by destruct s'.
  - change (Z.pos (m * m')) with (Z.pos m * Z.pos m').
    change (Z.add e e') with (e + e').
    pose proof (Zdigits2_bounds (Z.pos m) ltac:(lia)) as [Hl _].
    pose proof (Zdigits2_bounds (Z.pos m') ltac:(lia)) as [Hl' Hu'].
    apply canonical_digits in Hc as Hd. apply canonical_digits in Hc' as Hd'.
    pose proof (Zdigits2_nonneg (Z.pos m')).
    (* the factor is at most 2^0 *)
    assert (e' ≤ -52 ∧ Z.pos m' ≤ 2 ^ (- e')) as [He1 Hm1].
    { apply f64_le_pos_inv in Hy1 as [Hlt|[-> Hm]]; [|split; [lia|]; by etransitivity].
      split; [lia|]. transitivity (2 ^ 53).
        + etransitivity; [apply Z.lt_le_incl, Hu'|]. apply Z.pow_le_mono_r; lia.
        + apply Z.pow_le_mono_r; lia. }
    assert (0 < Z.pos m * Z.pos m') as Hpos by lia.
    assert (1 ≤ Zdigits2 (Z.pos m) ∧ 1 ≤ Zdigits2 (Z.pos m')) as [??]
      by (simpl; lia).
    assert (Zdigits2 (Z.pos m) + Zdigits2 (Z.pos m') - 1 ≤
            Zdigits2 (Z.pos m * Z.pos m')) as Hdd.
    { pose proof (Zdigits2_bounds _ Hpos) as [_ Hu].
      pose proof (Zdigits2_nonneg (Z.pos m * Z.pos m')).
      assert (2 ^ (Zdigits2 (Z.pos m) - 1 + (Zdigits2 (Z.pos m') - 1)) <
              2 ^ Zdigits2 (Z.pos m * Z.pos m')) as Hp.
      { eapply Z.le_lt_trans; [|exact Hu]. rewrite Z.pow_add_r by lia.
        apply Z.mul_le_mono_nonneg; lia. }
      apply Z.pow_lt_mono_r_iff in Hp; lia. }
    assert (e + e' ≤ fexp64 (Zdigits2 (Z.pos m * Z.pos m') + (e + e'))) as HE.
    { rewrite fexp64_eq. lia. }
    destruct (binary_round_aux_valid false (Z.pos m * Z.pos m') (e + e') loc_Exact (Z.lt_le_incl _ _ Hpos) HE) as (Hv & _ & Hs).
    assert (f64_le (binary_round_aux prec emax false (Z.pos m * Z.pos m') (e + e')
              loc_Exact) (S754_finite false m e) = true) as Hle.
    { apply binary_round_aux_le; [lia|done|by apply valid_finite|].
      cbn [loc_is_exact upper].
      exists (e + e'). split_and!; [lia|lia|].
      rewrite Z.sub_diag, Z.pow_0_r, Z.mul_1_r.
      replace (e - (e + e')) with (- e') by lia. nia. }
    split; [|done]. by eapply nonneg_between.
Qed.

Lemma f64_le_antisym_cases (x y : f64) :
  f64_lt x y = true → f64_le y x = false.
Proof.
  unfold f64_lt, f64_le, SFltb, SFleb. rewrite (SFcompare_swap x y).
  by destruct (SFcompare x y) as [[]|].
Qed.

(** Truncation to an integer is monotone on non-negative values. *)
Lemma f64_to_u64_mono (x y : f64) :
  nonneg x → nonneg y → f64_le x y = true → (f64_to_u64 x ≤ f64_to_u64 y)%N.
Proof.
  intros Hx Hy Hle.
  destruct (nonneg_cases x Hx) as [[s ->]|(m & e & -> & Hc & He)];
    [by destruct s; simpl; lia|].
  destruct (nonneg_cases y Hy) as [[s' ->]|(m' & e' & -> & Hc' & He')]; [done|].
  assert (e < e' ∨ (e = e' ∧ Z.pos m ≤ Z.pos m')) as Hcmp.
  { by apply f64_le_pos_inv. }
  assert (scaled_le (Z.pos m) e (Z.pos m') e') as Hs.
  { destruct Hcmp as [Hlt|[-> Hm]]; [|exists e'; rewrite Z.sub_diag; lia].
    exists e. split_and!; [lia|lia|]. rewrite Z.sub_diag.
    apply canonical_digits in Hc. apply canonical_digits in Hc'.
    pose proof (Zdigits2_bounds (Z.pos m) ltac:(lia)) as [_ Hu].
    pose proof (Zdigits2_bounds (Z.pos m') ltac:(lia)) as [Hl _].
    assert (Zdigits2 (Z.pos m') = 53) as Hd by lia. rewrite Hd in Hl.
    assert (Z.pos m < 2 ^ 53).
    { eapply Z.lt_le_trans; [exact Hu|]. apply Z.pow_le_mono_r; lia. }
    pose proof (Z.pow_le_mono_r 2 1 (e' - e)). change (2 ^ 53) with (2 * 2 ^ (53 - 1)) in *.
    nia. }
  unfold f64_to_u64. apply N.min_le_compat_r. 
  apply Z2N.inj_le.
  1,2: case_match; [apply Z.mul_nonneg_nonneg; lia|apply Z.div_pos; lia].
  set (z := Z.min (Z.min e e') 0).
  apply (scaled_le_rebase _ _ _ _ z) in Hs; [|lia|lia].
  assert (∀ p w, z ≤ w → (if 0 <=? w then Z.pos p * 2 ^ w else Z.pos p / 2 ^ (- w)) =
                  (Z.pos p * 2 ^ (w - z)) / 2 ^ (- z)) as Hform.
  { intros p w Hw. destruct (Z.leb_spec 0 w).
    - replace (w - z) with (w + - z) by lia. rewrite Z.pow_add_r, Z.mul_assoc by lia.
      rewrite Z.div_mul; [done|]. pose proof (Z.pow_pos_nonneg 2 (- z)). lia.
    - replace (2 ^ (- z)) with (2 ^ (- w) * 2 ^ (w - z))
        by (rewrite <-Z.pow_add_r by lia; f_equal; lia).
      pose proof (Z.pow_pos_nonneg 2 (- w)). pose proof (Z.pow_pos_nonneg 2 (w - z)).
      rewrite Z.div_mul_cancel_r; lia. }
  rewrite !Hform by lia. apply Z.div_le_mono; [|done].
  apply Z.pow_pos_nonneg; lia.
Qed.

Lemma f64_of_Z_nonneg (z : Z) :
  0 ≤ z → f64_is_finite (f64_of_Z z) = true → nonneg (f64_of_Z z).
Proof.
  intros Hz Hf. unfold f64_of_Z, binary_normalize in *.
  destruct z as [|p|p]; [done| |lia].
  destruct (binary_round_aligned false p 0) as (mx & ex & Heq & Hmx & HE & _).
  rewrite Heq in *. destruct (binary_round_aux_valid false mx ex loc_Exact ltac:(lia) HE) as (? & _ & ?).
  by split_and!.
Qed.

(** ** Non-negative values that may be infinite *)

Definition nonneg_inf (x : f64) : Prop :=
  valid x ∧ f64_is_nan x = false ∧ f64_le f64_zero x = true.

Lemma nonneg_weaken (x : f64) : nonneg x → nonneg_inf x.
Proof.
  intros Hx. split_and!; [by destruct Hx|by apply nonneg_not_nan|by destruct Hx as (_&_&?)].
Qed.

Lemma nonneg_inf_cases (x : f64) :
  nonneg_inf x → nonneg x ∨ x = f64_infinity.
Proof.
  intros (Hv & Hn & H0). destruct x as [s|[]| |[] m e]; try done; [|by right|].
  - left. apply nonneg_zero.
  - by left.
Qed.

Lemma nonneg_inf_infinity : nonneg_inf f64_infinity.
Proof. done. Qed.

Lemma binary_round_aux_nonneg_inf (mx ex : Z) (l : location) :
  0 ≤ mx → ex ≤ fexp64 (Zdigits2 mx + ex) →
  nonneg_inf (binary_round_aux prec emax false mx ex l).
Proof.
  intros Hm HE. by destruct (binary_round_aux_valid false mx ex l Hm HE) as (? & ? & ?).
Qed.

Lemma f64_of_Z_nonneg_inf (z : Z) : 0 ≤ z → nonneg_inf (f64_of_Z z).
Proof.
  intros Hz. unfold f64_of_Z, binary_normalize. destruct z as [|p|p]; [done| |lia].
  destruct (binary_round_aligned false p 0) as (mx & ex & -> & Hmx & HE & _).
  apply binary_round_aux_nonneg_inf; lia.
Qed.

Lemma f64_add_nonneg_inf (x y : f64) :
  nonneg_inf x → nonneg_inf y → nonneg_inf (f64_add x y).
Proof.
  intros Hx Hy.
  destruct (nonneg_inf_cases x Hx) as [Hx' | ->], (nonneg_inf_cases y Hy) as [Hy' | ->].
  - destruct (f64_add_ge x y Hx' Hy') as (? & ? & ?).
    split_and!; [done|done|]. by apply f64_add_nonneg.
  - destruct (nonneg_cases x Hx') as [[[] ->]|(? & ? & -> & _)]; done.
  - destruct (nonneg_cases y Hy') as [[[] ->]|(? & ? & -> & _)]; done.
  - done.
Qed.

(** A product of non-negative values is non-negative unless it is the NaN of
    zero times infinity. *)
Lemma f64_mul_nonneg_inf (x y : f64) :
  nonneg_inf x → nonneg_inf y → f64_mul x y = S754_nan ∨ nonneg_inf (f64_mul x y).
Proof.
  intros Hx Hy.
  destruct (nonneg_inf_cases x Hx) as [Hx' | ->], (nonneg_inf_cases y Hy) as [Hy' | ->];
    [| destruct (nonneg_cases x Hx') as [[[] ->]|(? & ? & -> & _)]; auto
     | destruct (nonneg_cases y Hy') as [[[] ->]|(? & ? & -> & _)]; auto | by right].
  right.
  destruct (nonneg_cases x Hx') as [[s ->]|(m & e & -> & Hc & He)],
           (nonneg_cases y Hy') as [[s' ->]|(m' & e' & -> & Hc' & He')];
    [by destruct s, s'|by destruct s|by destruct s'|].
  unfold f64_mul. cbn [SFmul xorb].
  change (Z.pos (m * m')) with (Z.pos m * Z.pos m').
  change (Z.add e e') with (e + e').
  apply binary_round_aux_nonneg_inf; [lia|].
  pose proof (Zdigits2_bounds (Z.pos m) ltac:(lia)) as [Hl _].
  pose proof (Zdigits2_bounds (Z.pos m') ltac:(lia)) as [Hl' _].
  pose proof (Zdigits2_bounds (Z.pos m * Z.pos m') ltac:(lia)) as [_ Hu].
  pose proof (Zdigits2_nonneg (Z.pos m * Z.pos m')).
  apply canonical_digits in Hc as Hd. apply canonical_digits in Hc' as Hd'.
  assert (1 ≤ Zdigits2 (Z.pos m) ∧ 1 ≤ Zdigits2 (Z.pos m')) as [??] by (simpl; lia).
  assert (2 ^ (Zdigits2 (Z.pos m) - 1 + (Zdigits2 (Z.pos m') - 1)) <
          2 ^ Zdigits2 (Z.pos m * Z.pos m')) as Hp.
  { eapply Z.le_lt_trans; [|exact Hu]. rewrite Z.pow_add_r by lia.
    apply Z.mul_le_mono_nonneg; lia. }
  apply Z.pow_lt_mono_r_iff in Hp; [|lia|lia].
  rewrite fexp64_eq. lia.
Qed.

Lemma div_digits (m1 m2 s : Z) :
  0 < m1 → 0 < m2 → 0 ≤ s →
  Zdigits2 m1 + s - Zdigits2 m2 ≤ Zdigits2 (m1 * 2 ^ s / m2).
Proof.
  intros H1 H2 Hs. set (q := m1 * 2 ^ s / m2).
  pose proof (Zdigits2_nonneg q) as Hq0.
  destruct (Z.le_gt_cases (Zdigits2 m1 + s - Zdigits2 m2) 0) as [|Hpos]; [lia|].
  pose proof (Zdigits2_bounds m1 H1) as [Hl _].
  pose proof (Zdigits2_bounds m2 H2) as [_ Hu].
  pose proof (Zdigits2_nonneg m2). pose proof (Z.pow_pos_nonneg 2 s ltac:(lia) Hs).
  assert (1 ≤ Zdigits2 m1) by (destruct m1; simpl; lia).
  assert (2 ^ (Zdigits2 m1 + s - Zdigits2 m2 - 1) ≤ q) as Hq.
  { apply Z.div_le_lower_bound; [done|].
    transitivity (2 ^ Zdigits2 m2 * 2 ^ (Zdigits2 m1 + s - Zdigits2 m2 - 1)).
    - apply Z.mul_le_mono_nonneg_r; [apply Z.pow_nonneg|]; lia.
    - rewrite <-Z.pow_add_r by lia.
      replace (Zdigits2 m2 + _) with (Zdigits2 m1 - 1 + s) by lia.
      rewrite Z.pow_add_r by lia. apply Z.mul_le_mono_nonneg_r; lia. }
  assert (0 < q) as Hqp by (pose proof (Z.pow_pos_nonneg 2
    (Zdigits2 m1 + s - Zdigits2 m2 - 1)); lia).
  pose proof (Zdigits2_bounds q Hqp) as [_ Hqu].
  assert (Zdigits2 m1 + s - Zdigits2 m2 - 1 < Zdigits2 q); [|lia].
  apply (Z.pow_lt_mono_r_iff 2); lia.
Qed.

(** A quotient by a positive finite value is non-negative and never NaN. *)
Lemma f64_div_nonneg_inf (x y : f64) :
  nonneg_inf x → nonneg y → f64_lt f64_zero y = true → nonneg_inf (f64_div x y).
Proof.
  intros Hx Hy Hy0.
  destruct (nonneg_cases y Hy) as [[[] ->]|(m2 & e2 & -> & Hc2 & He2)]; [done|done|].
  apply nonneg_inf_cases in Hx as [Hx| ->]; [|done].
  destruct (nonneg_cases x Hx) as [[[] ->]|(m1 & e1 & -> & Hc1 & He1)]; [done|done|].
  unfold f64_div. cbn [SFdiv xorb]. unfold SFdiv_core_binary.
  set (e' := Z.min _ _). set (s := Z.sub (Z.sub e1 e2) e').
  assert (0 ≤ s) as Hs by (unfold s, e'; lia).
  assert ((match s with Z0 => Z.pos m1 | Z.pos _ => Z.shiftl (Z.pos m1) s
           | Z.neg _ => 0 end) = Z.pos m1 * 2 ^ s) as ->.
  { destruct s as [|p|p] eqn:E; [lia| |lia]. by rewrite Z.shiftl_mul_pow2 by lia. }
  pose proof (Z.div_eucl_eq (Z.pos m1 * 2 ^ s) (Z.pos m2)) as _.
  destruct (Z.div_eucl (Z.pos m1 * 2 ^ s) (Z.pos m2)) as [q r] eqn:Hqr.
  assert (q = Z.pos m1 * 2 ^ s / Z.pos m2) as Hq by (unfold Z.div; by rewrite Hqr).
  pose proof (Z.pow_pos_nonneg 2 s ltac:(lia) Hs).
  apply binary_round_aux_nonneg_inf.
  - rewrite Hq. apply Z.div_pos; lia.
  - pose proof (div_digits (Z.pos m1) (Z.pos m2) s ltac:(lia) ltac:(lia) Hs) as Hd.
    rewrite <-Hq in Hd.
    transitivity (fexp64 (Zdigits2 (Z.pos m1) + e1 - (Zdigits2 (Z.pos m2) + e2))).
    + unfold e', fexp64. lia.
    + apply fexp64_mono. unfold s in Hd. lia.
Qed.

Lemma f64_of_Z_finite_pow (z : Z) :
  0 ≤ z ≤ 2 ^ 64 → nonneg (f64_of_Z z).
Proof.
  intros Hz. destruct (f64_of_Z_nonneg_inf z ltac:(lia)) as (Hv & _ & H0).
  eapply (nonneg_between _ (f64_of_Z (2 ^ 64))); [done|done| |by vm_compute].
  replace (f64_of_Z (2 ^ 64)) with (S754_finite false 4503599627370496 12)
    by by vm_compute.
  unfold f64_of_Z, binary_normalize. destruct z as [|p|p]; [done| |lia].
  destruct (binary_round_aligned false p 0) as (mx & ex & -> & Hmx & HE & Hex & Heq).
  apply binary_round_aux_le; [lia|done|by vm_compute|].
  cbn [loc_is_exact upper]. exists ex. split_and!; [lia|lia|]. rewrite Z.sub_diag, Z.pow_0_r, Z.mul_1_r, Heq.
  replace (12 - ex) with (12 + (0 - ex)) by lia.
  rewrite Z.pow_add_r, Z.mul_assoc by lia.
  apply Z.mul_le_mono_nonneg_r; [apply Z.pow_nonneg; lia|].
  exact (proj2 Hz).
Qed.

(** Elapsed time in seconds is never negative and never NaN. *)
Lemma as_secs_f64_nonneg_inf (d : Duration) : nonneg_inf (as_secs_f64 d).
Proof.
  unfold as_secs_f64. apply f64_add_nonneg_inf.
  - unfold f64_of_N. apply f64_of_Z_nonneg_inf. apply N2Z.is_nonneg.
  - apply f64_div_nonneg_inf; [|by vm_compute|by vm_compute].
    apply nonneg_weaken. unfold f64_of_N. apply f64_of_Z_finite_pow. unfold nanos_per_sec.
    pose proof (N.mod_lt d 1000000000 ltac:(done)) as Hr.
    split; [apply N2Z.is_nonneg|]. change (2 ^ 64) with 18446744073709551616. lia.
Qed.

(** Decaying a non-negative value by a non-negative rate for any time keeps it
    between zero and where it was. *)
Lemma f64_decay_between (x rate t : f64) :
  nonneg x → nonneg_inf rate → nonneg_inf t →
  let y := f64_max (f64_sub x (f64_mul rate t)) f64_zero in
  nonneg y ∧ f64_le y x = true.
Proof.
  intros Hx Hr Ht. cbv zeta.
  assert (f64_is_nan x = false) as Hn by by apply nonneg_not_nan.
  destruct (f64_mul_nonneg_inf rate t Hr Ht) as [->|Hm].
  { assert (f64_sub x S754_nan = S754_nan) as -> by by destruct x.
    split; [apply nonneg_zero|]. by destruct Hx as (_ & _ & ?). }
  destruct (nonneg_inf_cases _ Hm) as [Hm'| ->].
  - destruct (f64_sub_le x _ Hx Hm') as (? & ? & ?). by apply f64_max_zero_nonneg.
  - assert (f64_sub x f64_infinity = S754_infinity true) as ->.
    { by destruct (nonneg_cases x Hx) as [[s ->]|(? & ? & -> & _)]. }
    split; [apply nonneg_zero|]. by destruct Hx as (_ & _ & ?).
Qed.

Lemma binary_normalize_ok (m e : Z) (sz : bool) :
  valid (binary_normalize prec emax m e sz) ∧
  f64_is_nan (binary_normalize prec emax m e sz) = false.
Proof.
  destruct m as [|p|p]; cbn [binary_normalize]; [done|..].
  - destruct (binary_round_aligned false p e) as (mx & ex & -> & Hmx & HE & _).
    by destruct (binary_round_aux_valid false mx ex loc_Exact ltac:(lia) HE) as (?&?&_).
  - destruct (binary_round_aligned true p e) as (mx & ex & -> & Hmx & HE & _).
    by destruct (binary_round_aux_valid true mx ex loc_Exact ltac:(lia) HE) as (?&?&_).
Qed.

(** Subtracting any number from a finite one gives a number. *)
Lemma f64_sub_ok (x y : f64) :
  valid x → f64_is_finite x = true → valid y → f64_is_nan y = false →
  valid (f64_sub x y) ∧ f64_is_nan (f64_sub x y) = false.
Proof.
  intros Hvx Hx Hvy Hy. unfold f64_sub.
  destruct x as [sx|[]| |sx m e], y as [sy|sy| |sy m' e']; try done; cbn [SFsub].
  - by destruct sx, sy.
  - apply binary_normalize_ok.
Qed.

Lemma f64_max_zero_nonneg_inf (x : f64) :
  valid x → f64_is_nan x = false → nonneg_inf (f64_max x f64_zero).
Proof.
  intros Hv Hn. split_and!; [|unfold f64_max|by apply f64_max_ge_r];
  unfold f64_max; rewrite Hn; cbn [f64_is_nan f64_zero]; by destruct (f64_lt x f64_zero).
Qed.

(** ** Seconds to nanoseconds *)

Lemma round_half_even_le (m e K : Z) :
  0 ≤ m → scaled_le m e K 0 → round_half_even m e ≤ K.
Proof.
  intros Hm Hs. unfold round_half_even. destruct (Z.leb_spec 0 e).
  - apply (scaled_le_rebase _ _ _ _ 0) in Hs; [|lia|lia].
    rewrite !Z.sub_0_r, Z.pow_0_r in Hs. lia.
  - apply (scaled_le_rebase _ _ _ _ e) in Hs; [|lia|lia].
    rewrite Z.sub_diag, Z.pow_0_r, Z.mul_1_r in Hs.
    replace (0 - e) with (- e) in Hs by lia.
    pose proof (Z.pow_pos_nonneg 2 (- e) ltac:(lia) ltac:(lia)) as Hp.
    pose proof (Z.div_mod m (2 ^ (- e)) ltac:(lia)).
    pose proof (Z.mod_pos_bound m (2 ^ (- e)) Hp).
    set (q := m / 2 ^ (- e)) in *. set (r := m mod 2 ^ (- e)) in *.
    destruct (Z.compare_spec (2 * r) (2 ^ (- e))); [destruct (Z.even q)|..]; nia.
Qed.

(** A value between 0 and [k] seconds converts to at most [k] seconds. *)
Lemma try_from_secs_f64_le (x : f64) (k : positive) :
  Z.pos k ≤ 2 ^ 53 →
  nonneg x → nonneg (f64_of_Z (Z.pos k)) →
  (∃ m e, f64_of_Z (Z.pos k) = S754_finite false m e ∧ e ≤ 0 ∧
          Z.pos m = Z.pos k * 2 ^ (- e)) →
  f64_le x (f64_of_Z (Z.pos k)) = true →
  ∃ d, try_from_secs_f64 x = Some d ∧ (d ≤ from_secs (N.pos k))%N.
Proof.
  intros Hk Hx Hkn (mk & ek & Hfk & Hek & Hmk) Hle.
  destruct (nonneg_cases x Hx) as [[s ->]|(m & e & -> & Hc & He)].
  { exists 0%N. split; [done|lia]. }
  rewrite Hfk in *.
  destruct (nonneg_cases _ Hkn) as [[??]|(? & ? & [= <- <-] & Hc' & He')]; [done|].
  assert (scaled_le (Z.pos m * Z.of_N nanos_per_sec) e (Z.pos k * Z.of_N nanos_per_sec) 0)
    as Hs.
  { assert (e < ek ∨ (e = ek ∧ Z.pos m ≤ Z.pos mk)) as Hcmp by by apply f64_le_pos_inv.
    exists e. split_and!; [lia|lia|]. rewrite Z.sub_diag, Z.pow_0_r, Z.mul_1_r.
    replace (Z.pos k * _ * _) with (Z.pos k * 2 ^ (0 - e) * Z.of_N nanos_per_sec) by lia.
    apply Z.mul_le_mono_nonneg_r; [lia|].
    destruct Hcmp as [Hlt|[-> Hm]]; [|replace (0 - ek) with (- ek) by lia; lia].
    replace (0 - e) with (- ek + (ek - e)) by lia.
    rewrite Z.pow_add_r, Z.mul_assoc, <-Hmk by lia.
    pose proof (canonical_digits _ _ Hc) as Hd. pose proof (canonical_digits _ _ Hc') as Hd'.
    pose proof (Zdigits2_bounds (Z.pos m) ltac:(lia)) as [_ Hu].
    pose proof (Zdigits2_bounds (Z.pos mk) ltac:(lia)) as [Hl _].
    assert (Zdigits2 (Z.pos mk) = 53) as Hd53 by lia. rewrite Hd53 in Hl.
    assert (2 ^ Zdigits2 (Z.pos m) ≤ 2 ^ 53) by (apply Z.pow_le_mono_r; lia).
    assert (2 ^ 1 ≤ 2 ^ (ek - e)) by (apply Z.pow_le_mono_r; lia).
    change (2 ^ 53) with (2 * 2 ^ (53 - 1)) in *. nia. }
  apply round_half_even_le in Hs; [|unfold nanos_per_sec; lia].
  unfold try_from_secs_f64, from_secs.
  set (ns := Z.to_N _). assert (ns ≤ N.pos k * nanos_per_sec)%N by (unfold ns; lia).
  exists ns. split; [|done].
  destruct (N.leb_spec ns duration_max) as [|Hgt]; [done|].
  exfalso. unfold duration_max, u64_max, nanos_per_sec in *. lia.
Qed.

(** ** Small integers convert exactly (from above) *)

(** The canonical form of an integer of at most 53 bits. *)
Lemma small_canonical (p : positive) :
  Zdigits2 (Z.pos p) ≤ 53 →
  ∃ m, Z.pos m = Z.pos p * 2 ^ (53 - Zdigits2 (Z.pos p)) ∧
       valid (S754_finite false m (Zdigits2 (Z.pos p) - 53)).
Proof.
  intros Hd. set (d := Zdigits2 (Z.pos p)) in *.
  assert (1 ≤ d) by (unfold d; simpl; lia).
  assert (0 < 2 ^ (53 - d)) by (apply Z.pow_pos_nonneg; lia).
  exists (p * Z.to_pos (2 ^ (53 - d)))%positive.
  assert (Z.pos (p * Z.to_pos (2 ^ (53 - d))) = Z.pos p * 2 ^ (53 - d)) as Heq
    by (rewrite Pos2Z.inj_mul, Z2Pos.id; lia).
  split; [done|]. apply valid_finite. split; [|unfold emax, prec; lia].
  unfold canonical. rewrite Heq, Zdigits2_shift by lia. fold d. rewrite fexp64_eq. lia.
Qed.

Lemma f64_of_N_le (n : N) :
  (n < 9007199254740992)%N → nonneg (f64_of_N n) ∧ (f64_to_u64 (f64_of_N n) ≤ n)%N.
Proof.
  intros Hn. destruct n as [|p]; [done|].
  unfold f64_of_N, f64_of_Z, binary_normalize. simpl Z.of_N.
  assert (Zdigits2 (Z.pos p) ≤ 53) as Hd.
  { pose proof (Zdigits2_bounds (Z.pos p) ltac:(lia)) as [Hl _].
    assert (2 ^ (Zdigits2 (Z.pos p) - 1) < 2 ^ 53) as Hlt
      by (change (2 ^ 53) with 9007199254740992; lia).
    apply Z.pow_lt_mono_r_iff in Hlt; lia. }
  destruct (small_canonical p Hd) as (m & Hm & Hv).
  destruct (binary_round_aligned false p 0) as (mx & ex & -> & Hmx & HE & Hex & Heq).
  set (d := Zdigits2 (Z.pos p)) in *.
  assert (1 ≤ d) by (unfold d; simpl; lia).
  assert (f64_le (binary_round_aux prec emax false mx ex loc_Exact)
            (S754_finite false m (d - 53)) = true) as Hle.
  { apply binary_round_aux_le; [lia|done|done|]. cbn [loc_is_exact upper].
    exists (Z.min ex (d - 53)). split_and!; [lia|lia|].
    rewrite Heq, Hm, <-!Z.mul_assoc, <-!Z.pow_add_r by lia.
    apply Z.mul_le_mono_nonneg_l; [lia|]. apply Z.pow_le_mono_r; lia. }
  destruct (binary_round_aux_valid false mx ex loc_Exact ltac:(lia) HE) as (Hvx & Hnan & Hpos).
  assert (nonneg (S754_finite false m (d - 53))) as Hnm by by split_and!.
  assert (nonneg (binary_round_aux prec emax false mx ex loc_Exact)) as Hnx.
  { eapply nonneg_between; [exact Hvx| |exact Hle|exact Hnm]. by apply Hpos. }
  split; [done|]. etransitivity; [exact (f64_to_u64_mono _ _ Hnx Hnm Hle)|].
  cbn [f64_to_u64]. etransitivity; [apply N.le_min_l|].
  destruct (Z.leb_spec 0 (d - 53)).
  - replace (d - 53) with 0 by lia. rewrite Z.pow_0_r, Z.mul_1_r, Hm.
    replace (53 - d) with 0 by lia. rewrite Z.pow_0_r, Z.mul_1_r. simpl. lia.
  - rewrite Hm. replace (- (d - 53)) with (53 - d) by lia.
    rewrite Z.div_mul by (apply Z.pow_nonzero; lia). simpl. lia.
Qed.
