(* ===== verification/LatencyHistogram.v ===== *)
(** * LatencyHistogram: the latency probes

    [rust/src/dispatch/io_reactor/latency_histogram.rs]: values in power-of-two bands of linear
    sub-buckets, and the percentile read back from them.  The printed report is left out. *)

From Stdlib Require Import SpecFloat.
From stdpp Require Import sorting.
From S2P Require Import Prelude F64.
Local Open Scope N_scope.

Definition SUB_BITS : N := 4.
Definition SUB_BUCKETS : N := N.shiftl 1 SUB_BITS.
Definition NUM_BUCKETS : N := SUB_BUCKETS + (64 - SUB_BITS) * SUB_BUCKETS.

Record LatencyHistogram := mkHistogram {
  counts : list N;
  total : N;
  hist_min : N;
  hist_max : N;
}.

Definition histogram_new : LatencyHistogram :=
  mkHistogram (replicate (N.to_nat NUM_BUCKETS) 0) 0 u64_max 0.

(** [64 - leading_zeros] is the size of the number. *)
Definition bucket_of (ns : N) : N :=
  let magnitude := N.size ns in
  if magnitude <=? SUB_BITS then ns
  else
    let band := magnitude - SUB_BITS in
    let shift := magnitude - SUB_BITS - 1 in
    let sub := N.land (N.shiftr ns shift) (SUB_BUCKETS - 1) in
    SUB_BUCKETS * band + sub.

Definition bucket_midpoint (bucket : N) : N :=
  if bucket <? SUB_BUCKETS then bucket
  else
    let band := bucket / SUB_BUCKETS in
    let sub := bucket mod SUB_BUCKETS in
    let shift := band - 1 in
    let low := N.shiftl (SUB_BUCKETS + sub) shift in
    let width := N.shiftl 1 shift in
    low + width / 2.

(** [None] where the index is out of bounds. *)
Definition record (ns : N) (h : LatencyHistogram) : option LatencyHistogram :=
  c ← counts h !! N.to_nat (bucket_of ns);
  Some (mkHistogram (<[N.to_nat (bucket_of ns) := u64_wrapping_add c 1]> (counts h))
          (u64_wrapping_add (total h) 1)
          (if ns <? hist_min h then ns else hist_min h)
          (if hist_max h <? ns then ns else hist_max h)).

Fixpoint record_all (l : list N) (h : LatencyHistogram) : option LatencyHistogram :=
  match l with [] => Some h | ns :: l => h ← record ns h; record_all l h end.

Definition histogram_count (h : LatencyHistogram) : N := total h.
Definition histogram_min (h : LatencyHistogram) : N := if total h =? 0 then 0 else hist_min h.
Definition histogram_max (h : LatencyHistogram) : N := hist_max h.

(** [x.ceil() as u64] *)
Definition f64_ceil_to_u64 (x : f64) : N :=
  match x with
  | S754_finite false m e =>
      N.min (Z.to_N (if (0 <=? e)%Z then Z.pos m * 2 ^ e else - (- Z.pos m / 2 ^ (- e)))) u64_max
  | S754_infinity false => u64_max
  | _ => 0
  end.

Definition rank_of (p : f64) (total : N) : N :=
  N.max (f64_ceil_to_u64 (f64_mul (f64_div p (f64_of_Z 100)) (f64_of_N total))) 1.

(** The scan from a bucket on, [cum] counted before it. *)
Fixpoint scan (rank cum : N) (bucket : nat) (cs : list N) : option nat :=
  match cs with
  | [] => None
  | c :: cs =>
      let cum := u64_wrapping_add cum c in
      if rank <=? cum then Some bucket else scan rank cum (S bucket) cs
  end.

Definition percentile (p : f64) (h : LatencyHistogram) : N :=
  if total h =? 0 then 0
  else
    match scan (rank_of p (total h)) 0 0 (counts h) with
    | Some bucket => bucket_midpoint (N.of_nat bucket)
    | None => hist_max h
    end.

(** ** The probes: a slot holds a histogram while recording is on *)

Definition arm : option LatencyHistogram := Some histogram_new.
Definition record_value (ns : N) (slot : option LatencyHistogram) : option (option LatencyHistogram) :=
  match slot with None => Some None | Some h => Some <$> record ns h end.
Definition record_since (now start : N) : option LatencyHistogram → option (option LatencyHistogram) :=
  record_value (now - start).
Definition take_slot (slot : option LatencyHistogram)
  : option LatencyHistogram * option LatencyHistogram := (slot, None).

Example percentile_sample :
  (percentile (f64_of_Z 50) <$> record_all [100; 7; 1000000; 900; 5] histogram_new) = Some 102.
Proof. vm_compute. reflexivity. Qed.

(** ** Buckets *)

(** The band of a value of at least 16: its shift, and its sub-bucket. *)
Lemma bucket_of_small ns : ns < 16 → bucket_of ns = ns.
Proof.
  intros H. unfold bucket_of.
  assert (N.size ns <= SUB_BITS) as Hs.
  { unfold SUB_BITS. destruct (N.eq_dec ns 0) as [->|]; [done|].
    rewrite N.size_log2 by done. assert (N.log2 ns < 4); [|lia].
    apply N.log2_lt_pow2; [lia|done]. }
  by apply N.leb_le in Hs as ->.
Qed.

Lemma bucket_of_large ns :
  16 <= ns →
  ∃ shift sub, ns < 2 ^ (shift + 5) ∧ 16 * 2 ^ shift <= ns ∧ sub < 16 ∧
    bucket_of ns = 16 * (shift + 1) + sub ∧
    (16 + sub) * 2 ^ shift <= ns < (16 + sub + 1) * 2 ^ shift.
Proof.
  intros H. assert (4 <= N.log2 ns) as Hl by (apply N.log2_le_pow2; [lia|done]).
  destruct (N.log2_spec ns ltac:(lia)) as [Hlo Hhi].
  set (shift := N.log2 ns - 4).
  assert (N.log2 ns = shift + 4) as Hs by lia.
  rewrite Hs in Hlo, Hhi.
  assert (2 ^ (shift + 4) = 16 * 2 ^ shift) as E4 by (rewrite N.pow_add_r; lia).
  assert (2 ^ N.succ (shift + 4) = 32 * 2 ^ shift) as E5.
  { replace (N.succ (shift + 4)) with (shift + 5) by lia. rewrite N.pow_add_r. lia. }
  assert (0 < 2 ^ shift) as Hp by (apply N.neq_0_lt_0, N.pow_nonzero; lia).
  set (q := ns / 2 ^ shift).
  assert (16 <= q < 32) as [Hq1 Hq2].
  { subst q. split; [apply N.div_le_lower_bound; lia|apply N.Div0.div_lt_upper_bound; lia]. }
  exists shift, (q - 16). split_and!.
  - replace (shift + 5) with (N.succ (shift + 4)) by lia. lia.
  - lia.
  - lia.
  - unfold bucket_of. rewrite N.size_log2 by lia. rewrite Hs.
    change SUB_BITS with 4. change SUB_BUCKETS with 16.
    destruct (N.leb_spec (N.succ (shift + 4)) 4); [lia|].
    replace (N.succ (shift + 4) - 4) with (shift + 1) by lia.
    replace (shift + 1 - 1) with shift by lia.
    rewrite N.shiftr_div_pow2. fold q. change (16 - 1) with (N.ones 4).
    rewrite N.land_ones. change (2 ^ 4) with 16.
    replace q with (q - 16 + 1 * 16) at 1 by lia. rewrite N.Div0.mod_add, N.mod_small by lia. lia.
  - replace (16 + (q - 16)) with q by lia. subst q. rewrite (N.mul_comm _ (2 ^ shift)).
    apply N.Div0.mul_div_le.
  - replace (16 + (q - 16)) with q by lia. subst q. rewrite (N.mul_comm _ (2 ^ shift)).
    pose proof (N.mul_succ_div_gt ns (2 ^ shift) ltac:(lia)). lia.
Qed.

Lemma bucket_of_cases ns :
  ns < 16 ∧ bucket_of ns = ns ∨
  ∃ shift sub, 16 * 2 ^ shift <= ns < 2 ^ (shift + 5) ∧ sub < 16 ∧
    bucket_of ns = 16 * (shift + 1) + sub ∧
    (16 + sub) * 2 ^ shift <= ns < (16 + sub + 1) * 2 ^ shift.
Proof.
  destruct (N.lt_ge_cases ns 16) as [H|H]; [left; by rewrite bucket_of_small|right].
  destruct (bucket_of_large ns H) as (shift & sub & ? & ? & ? & ? & ?). by exists shift, sub.
Qed.

Lemma pow_pos s : 0 < 2 ^ s.
Proof. apply N.neq_0_lt_0, N.pow_nonzero. lia. Qed.

Lemma bucket_of_bound ns : ns <= u64_max → bucket_of ns < NUM_BUCKETS.
Proof.
  intros Hns. change NUM_BUCKETS with 976.
  destruct (bucket_of_cases ns) as [[? ->]|(shift & sub & [Hlo _] & Hsub & -> & _)]; [lia|].
  assert (shift < 60); [|lia]. apply (N.pow_lt_mono_r_iff 2); [lia|].
  apply (N.mul_lt_mono_pos_l 16); [lia|]. change (16 * 2 ^ 60) with (u64_max + 1). lia.
Qed.

Lemma bucket_of_mono a b : a <= b → bucket_of a <= bucket_of b.
Proof.
  intros Hab.
  destruct (bucket_of_cases a) as [[Ha ->]|(sa & ua & [Ha1 Ha2] & Hua & -> & Ha3 & Ha4)];
    destruct (bucket_of_cases b) as [[Hb ->]|(sb & ub & [Hb1 Hb2] & Hub & -> & Hb3 & Hb4)];
    [lia|lia|pose proof (pow_pos sa); lia|].
  assert (sa <= sb) as Hs.
  { enough (sa + 4 < sb + 5) by lia. apply (N.pow_lt_mono_r_iff 2); [lia|].
    rewrite (N.pow_add_r 2 sa 4). change (2 ^ 4) with 16. lia. }
  destruct (N.lt_ge_cases sa sb) as [|Hge]; [lia|]. replace sb with sa in * by lia.
  enough (16 + ua < 16 + ub + 1) by lia. apply (N.mul_lt_mono_pos_r (2 ^ sa)); [apply pow_pos|lia].
Qed.

(** A bucket's midpoint is within a 32nd of each of its values. *)
Definition close (v s : N) : Prop := 31 * s <= 32 * v ∧ 32 * v <= 33 * s.

Lemma bucket_midpoint_close ns : close (bucket_midpoint (bucket_of ns)) ns.
Proof.
  unfold close, bucket_midpoint. change SUB_BUCKETS with 16.
  destruct (bucket_of_cases ns) as [[H ->]|(shift & sub & _ & Hsub & -> & Hlo & Hhi)].
  { apply N.ltb_lt in H as ->. lia. }
  destruct (N.ltb_spec (16 * (shift + 1) + sub) 16); [lia|].
  replace ((16 * (shift + 1) + sub) / 16) with (shift + 1).
  2: { rewrite (N.mul_comm 16), N.div_add_l by lia. rewrite N.div_small by lia. lia. }
  replace ((16 * (shift + 1) + sub) mod 16) with sub.
  2: { rewrite N.add_comm, (N.mul_comm 16), N.Div0.mod_add, N.mod_small by lia. done. }
  replace (shift + 1 - 1) with shift by lia.
  rewrite !N.shiftl_mul_pow2, N.mul_1_l.
  set (w := 2 ^ shift) in *. pose proof (pow_pos shift) as Hw. fold w in Hw.
  pose proof (N.Div0.mul_div_le w 2). pose proof (N.mul_succ_div_gt w 2 ltac:(lia)).
  rewrite N.mul_add_distr_r in *. lia.
Qed.

(** ** Counting *)

Definition below (l : list N) (b : nat) : N := counted (λ x, bucket_of x <? N.of_nat b) l.
Definition at_bucket (l : list N) (b : nat) : N := counted (λ x, bucket_of x =? N.of_nat b) l.

Lemma below_succ l b : below l (S b) = below l b + at_bucket l b.
Proof.
  unfold below, at_bucket. induction l as [|x l IH]; [done|]. rewrite !counted_cons.
  destruct (N.ltb_spec (bucket_of x) (N.of_nat (S b))), (N.ltb_spec (bucket_of x) (N.of_nat b)),
    (N.eqb_spec (bucket_of x) (N.of_nat b)); lia.
Qed.

Lemma below_mono l a b : (a <= b)%nat → below l a <= below l b.
Proof.
  intros H. apply counted_mono. intros x _ Hx%N.ltb_lt. apply N.ltb_lt. lia.
Qed.

Lemma below_le l b : below l b <= N.of_nat (length l).
Proof. apply counted_le. Qed.

(** A histogram that recorded exactly these samples. *)
Record describes (h : LatencyHistogram) (l : list N) : Prop := {
  counts_length : length (counts h) = N.to_nat NUM_BUCKETS;
  counts_exact : ∀ b, (b < N.to_nat NUM_BUCKETS)%nat → counts h !! b = Some (at_bucket l b);
  total_exact : total h = N.of_nat (length l);
  min_max_exact : if decide (l = []) then hist_min h = u64_max ∧ hist_max h = 0
                  else hist_min h ∈ l ∧ hist_max h ∈ l;
  min_max_bound : ∀ x, x ∈ l → hist_min h <= x <= hist_max h;
}.

Lemma describes_new : describes histogram_new [].
Proof.
  split; [apply length_replicate| |done|done|by intros x ?%elem_of_nil].
  intros b Hb. apply lookup_replicate. split; [done|exact Hb].
Qed.

Lemma wrapping_small a : a < u64_max → u64_wrapping_add a 1 = a + 1.
Proof. intros H. unfold u64_wrapping_add. apply N.mod_small. lia. Qed.

Lemma at_bucket_snoc l x b :
  at_bucket (l ++ [x]) b = at_bucket l b + (if decide (bucket_of x = N.of_nat b) then 1 else 0).
Proof.
  unfold at_bucket. rewrite counted_app, counted_cons. change (counted _ []) with 0.
  destruct (N.eqb_spec (bucket_of x) (N.of_nat b)); case_decide; lia.
Qed.

Lemma record_describes h l x :
  describes h l → x <= u64_max → N.of_nat (length l) < u64_max →
  ∃ h', record x h = Some h' ∧ describes h' (l ++ [x]).
Proof.
  intros [Hlen Hcounts Htotal Hmm Hbound] Hx Hl. unfold record.
  pose proof (bucket_of_bound x Hx) as Hb.
  assert (at_bucket l (N.to_nat (bucket_of x)) <= N.of_nat (length l)) as Hat
    by apply counted_le.
  rewrite Hcounts by lia. cbn [mbind option_bind]. eexists. split; [done|]. split; cbn.
  - by rewrite length_insert.
  - intros b Hb'. rewrite at_bucket_snoc. destruct (decide (bucket_of x = N.of_nat b)) as [E|Hne].
    + rewrite E, Nat2N.id in *. rewrite list_lookup_insert_eq by lia. by rewrite wrapping_small by lia.
    + rewrite list_lookup_insert_ne by lia. rewrite Hcounts by done. f_equal. lia.
  - rewrite Htotal, wrapping_small, length_app by done. cbn. lia.
  - rewrite decide_False by (by intros [_ [=]]%app_eq_nil). rewrite !elem_of_app, !list_elem_of_singleton.
    destruct (decide (l = [])) as [->|].
    + destruct Hmm as [-> ->]. destruct (N.ltb_spec x u64_max), (N.ltb_spec 0 x); lia.
    + destruct Hmm. destruct (x <? hist_min h), (hist_max h <? x); tauto.
  - intros y. rewrite elem_of_app, list_elem_of_singleton.
    destruct (decide (l = [])) as [->|].
    + destruct Hmm as [-> ->]. intros [?%elem_of_nil| ->]; [done|].
      destruct (N.ltb_spec x u64_max), (N.ltb_spec 0 x); lia.
    + intros [Hy| ->]; [specialize (Hbound y Hy)|specialize (Hbound _ (proj1 Hmm))];
        destruct (N.ltb_spec x (hist_min h)), (N.ltb_spec (hist_max h) x); lia.
Qed.

Lemma record_all_describes l h pre :
  describes h pre → Forall (λ x, x <= u64_max) l → N.of_nat (length (pre ++ l)) <= u64_max →
  ∃ h', record_all l h = Some h' ∧ describes h' (pre ++ l).
Proof.
  revert h pre. induction l as [|x l IH]; intros h pre Hd Hl Hlen.
  { exists h. by rewrite app_nil_r. }
  apply Forall_cons in Hl as [Hx Hl]. rewrite length_app in Hlen. cbn in Hlen.
  destruct (record_describes h pre x Hd Hx ltac:(lia)) as (h1 & E & Hd1).
  cbn [record_all]. rewrite E. cbn [mbind option_bind].
  replace (pre ++ x :: l) with ((pre ++ [x]) ++ l) by by rewrite <- app_assoc.
  apply IH; [done..|]. rewrite !length_app. cbn. lia.
Qed.

(** The scan stops at the first bucket that brings the count to the rank. *)
Lemma scan_spec l rank cs b :
  N.of_nat (length l) <= u64_max →
  (∀ i, cs !! i = if decide (i < length cs)%nat then Some (at_bucket l (b + i)) else None) →
  below l b < rank →
  match scan rank (below l b) b cs with
  | Some k => below l k < rank ∧ rank <= below l (S k)
  | None => below l (b + length cs) < rank
  end.
Proof.
  intros Hl. revert b. induction cs as [|c cs IH]; intros b Hcs Hb; cbn [scan].
  { by rewrite Nat.add_0_r. }
  pose proof (Hcs 0%nat) as Hc. rewrite decide_True in Hc by (cbn; lia).
  rewrite Nat.add_0_r in Hc. injection Hc as ->.
  assert (u64_wrapping_add (below l b) (at_bucket l b) = below l (S b)) as ->.
  { unfold u64_wrapping_add. rewrite <- below_succ. apply N.mod_small.
    pose proof (below_le l (S b)). lia. }
  destruct (N.leb_spec rank (below l (S b))); [done|].
  replace (b + length (at_bucket l b :: cs))%nat with (S b + length cs)%nat by (cbn; lia).
  apply IH; [|done]. intros i.
  change (cs !! i) with ((at_bucket l b :: cs) !! S i). rewrite Hcs. cbn [length].
  replace (b + S i)%nat with (S (b + i)) by lia. repeat case_decide; done || lia.
Qed.

(** ** Order statistics *)

Definition sorted (l : list N) : list N := merge_sort N.le l.

(** Fewer than [r] samples are below the [r]-th smallest, and [r] are not above it. *)
Lemma order_statistic l (r : nat) s :
  (1 <= r)%nat → sorted l !! (r - 1)%nat = Some s →
  counted (λ x, x <? s) l < N.of_nat r ∧ N.of_nat r <= counted (λ x, x <=? s) l.
Proof.
  intros Hr Hs. rewrite <- !(counted_perm _ (sorted l) l) by apply merge_sort_Permutation.
  pose proof (StronglySorted_merge_sort N.le l) as Hsort. fold (sorted l) in Hsort.
  pose proof (take_drop_middle _ _ _ Hs) as E.
  assert (length (take (r - 1) (sorted l)) = (r - 1)%nat) as Hlen.
  { apply length_take_le. apply lookup_lt_Some in Hs. lia. }
  rewrite <- E in Hsort |- *. rewrite !counted_app.
  assert (∀ x y, x ∈ take (r - 1) (sorted l) → y ∈ s :: drop (S (r - 1)) (sorted l) → x <= y) as Hx.
  { intros x y Hx Hy. exact (StronglySorted_app_1_elem_of _ _ _ _ _ Hsort Hx Hy). }
  assert (∀ y, y ∈ s :: drop (S (r - 1)) (sorted l) → s <= y) as Hy.
  { apply StronglySorted_app_1_r in Hsort. apply StronglySorted_inv in Hsort as [_ Hf].
    rewrite Forall_forall in Hf. intros y [->|Hin]%elem_of_cons; [lia|by apply Hf]. }
  split.
  - rewrite (counted_none _ (s :: _)) by (intros y ?%Hy; by apply N.ltb_ge).
    pose proof (counted_le (λ x, x <? s) (take (r - 1) (sorted l))). lia.
  - rewrite (counted_all _ (take (r - 1) (sorted l))).
    2: { intros x Hin. apply N.leb_le, Hx; [done|by left]. }
    assert (counted (λ x, x <=? s) [s] <= counted (λ x, x <=? s) (s :: drop (S (r - 1)) (sorted l))).
    { rewrite !counted_cons. change (counted _ []) with 0. lia. }
    rewrite (counted_all _ [s]) in * by (intros x ->%list_elem_of_singleton; by apply N.leb_le).
    cbn [length] in *. lia.
Qed.

(** The bucket of the sample of a rank is where the count reaches the rank. *)
Lemma rank_bucket l r s :
  1 <= r → sorted l !! (N.to_nat r - 1)%nat = Some s →
  s ∈ l ∧ below l (N.to_nat (bucket_of s)) < r ∧ r <= below l (S (N.to_nat (bucket_of s))).
Proof.
  intros Hr Hs.
  destruct (order_statistic l (N.to_nat r) s ltac:(lia) Hs) as [Hlt Hle].
  rewrite N2Nat.id in Hlt, Hle. split_and!.
  - rewrite <- (merge_sort_Permutation N.le l). by eapply list_elem_of_lookup_2.
  - eapply N.le_lt_trans; [|exact Hlt]. unfold below. rewrite N2Nat.id.
    apply counted_mono. intros x _ Hx%N.ltb_lt. apply N.ltb_lt.
    destruct (N.lt_ge_cases x s) as [|Hge%bucket_of_mono]; [done|lia].
  - etrans; [exact Hle|]. unfold below. rewrite Nat2N.inj_succ, N2Nat.id.
    apply counted_mono. intros x _ Hx%N.leb_le%bucket_of_mono. apply N.ltb_lt. lia.
Qed.

(** ** The property *)

(** After any samples, the histogram has counted them all, knows the least and the greatest,
    and every percentile read back is within a 32nd of the sample of that rank in sorted order
    (the smallest of rank one), whatever the percentile; a rank past the end reads the greatest
    sample.  Recording never goes out of bounds. *)
Theorem percentile_accurate (l : list N) (p : f64) :
  Forall (λ x, x <= u64_max) l → N.of_nat (length l) <= u64_max →
  ∃ h, record_all l histogram_new = Some h ∧
    histogram_count h = N.of_nat (length l) ∧
    (∀ x, x ∈ l → histogram_min h <= x <= histogram_max h) ∧
    (l ≠ [] → histogram_min h ∈ l ∧ histogram_max h ∈ l) ∧
    (l = [] → percentile p h = 0) ∧
    (l ≠ [] →
     match sorted l !! (N.to_nat (rank_of p (N.of_nat (length l))) - 1)%nat with
     | Some s => close (percentile p h) s
     | None => percentile p h = histogram_max h
     end).
Proof.
  intros Hl Hlen.
  destruct (record_all_describes l histogram_new [] describes_new Hl Hlen) as (h & Hh & Hd).
  cbn [app] in Hd. exists h. split; [done|].
  destruct Hd as [Hcl Hce Ht Hmm Hb].
  assert (l ≠ [] → total h ≠ 0) as Hne by (intros ?; rewrite Ht; by destruct l).
  unfold histogram_count, histogram_min, histogram_max.
  split; [done|]. split; [|split; [|split]].
  - intros x Hx. specialize (Hb x Hx). destruct (N.eqb_spec (total h) 0); lia.
  - intros Hl'. rewrite decide_False in Hmm by done.
    destruct (N.eqb_spec (total h) 0) as [E|]; [by destruct (Hne Hl')|done].
  - intros ->. unfold percentile. by rewrite Ht.
  - intros Hl'. unfold percentile. destruct (N.eqb_spec (total h) 0) as [E|_]; [by destruct (Hne Hl')|].
    rewrite Ht. set (r := rank_of p (N.of_nat (length l))).
    assert (1 <= r) as Hr by (subst r; unfold rank_of; lia).
    assert (below l 0 = 0) as H0.
    { apply counted_none. intros x _. apply N.ltb_ge. lia. }
    pose proof (scan_spec l r (counts h) 0 Hlen) as Hscan. rewrite H0 in Hscan.
    assert (∀ i, counts h !! i =
              if decide (i < length (counts h))%nat then Some (at_bucket l (0 + i)) else None) as Hlook.
    { intros i. destruct (decide (i < length (counts h))%nat) as [Hi|Hi].
      - apply Hce. by rewrite <- Hcl.
      - apply lookup_ge_None_2. lia. }
    specialize (Hscan Hlook ltac:(lia)).
    destruct (sorted l !! (N.to_nat r - 1)%nat) as [s|] eqn:Hs.
    + destruct (rank_bucket l r s Hr Hs) as (Hin & B1 & B2).
      rewrite Forall_forall in Hl. pose proof (bucket_of_bound s (Hl s Hin)) as Hbs.
      destruct (scan r 0 0 (counts h)) as [k|].
      * destruct Hscan as [K1 K2]. replace k with (N.to_nat (bucket_of s)).
        { rewrite N2Nat.id. apply bucket_midpoint_close. }
        destruct (Nat.lt_trichotomy k (N.to_nat (bucket_of s))) as [Hk|[->|Hk]]; [|done|].
        -- pose proof (below_mono l (S k) _ Hk). lia.
        -- pose proof (below_mono l _ _ Hk). lia.
      * pose proof (below_mono l (S (N.to_nat (bucket_of s))) (0 + length (counts h)) ltac:(lia)).
        lia.
    + apply lookup_ge_None_1 in Hs. unfold sorted in Hs. rewrite merge_sort_Permutation in Hs.
      destruct (scan r 0 0 (counts h)) as [k|]; [|done].
      pose proof (below_le l (S k)). lia.
Qed.

Lemma percentile_accurate_witness :
  ∃ h, record_all [100; 7; 1000000; 900; 5] histogram_new = Some h ∧
    close (percentile (f64_of_Z 50) h) 100 ∧ histogram_max h = 1000000.
Proof.
  destruct (percentile_accurate [100; 7; 1000000; 900; 5] (f64_of_Z 50))
    as (h & Hh & _ & Hb & Hm & _ & Hp).
  - repeat constructor; vm_compute; discriminate.
  - vm_compute. discriminate.
  - exists h. split; [exact Hh|]. split.
    + apply Hp. discriminate.
    + assert (hist_max <$> record_all [100; 7; 1000000; 900; 5] histogram_new = Some 1000000) as Hmax
        by (vm_compute; reflexivity).
      rewrite Hh in Hmax. injection Hmax as Hmax. exact Hmax.
Defined.
