(* ===== verification/Types.v ===== *)
(** * Types: the crate's closed vocabularies and validated newtypes

    [rust/src/types]: WebSocket endpoints, channels, book depths, OHLC
    intervals, the connection states with their [AtomicU8] encoding, and the
    validating constructors of trading pairs, asset codes and client order
    ids.  Strings are byte strings, as in Rust. *)

From S2P Require Import Prelude F64.
From Stdlib Require Import Ascii String.
Local Open Scope string_scope.
Local Open Scope N_scope.

(** ** [types/channel.rs] *)

Inductive WsUrl := Public | Auth.

#[export] Instance WsUrl_eq_dec : EqDecision WsUrl.
Proof. solve_decision. Defined.

Definition as_wire_url (u : WsUrl) : string :=
  match u with
  | Public => "wss://ws.kraken.com/v2"
  | Auth => "wss://ws-auth.kraken.com/v2"
  end.

Inductive ChannelName :=
  | Ticker | Book | BookRaw | Trade | Ohlc | Status | Executions | Balances
  | Heartbeat.

#[export] Instance ChannelName_eq_dec : EqDecision ChannelName.
Proof. solve_decision. Defined.

Definition channel_code (c : ChannelName) : positive :=
  match c with
  | Ticker => 1 | Book => 2 | BookRaw => 3 | Trade => 4 | Ohlc => 5
  | Status => 6 | Executions => 7 | Balances => 8 | Heartbeat => 9
  end.

#[export] Instance ChannelName_countable : Countable ChannelName.
Proof.
  refine {| encode := channel_code;
            decode p := match p with
                        | 1 => Some Ticker | 2 => Some Book | 3 => Some BookRaw
                        | 4 => Some Trade | 5 => Some Ohlc | 6 => Some Status
                        | 7 => Some Executions | 8 => Some Balances
                        | 9 => Some Heartbeat | _ => None
                        end%positive |}; by intros [].
Defined.

(** The strum string form ([Display], [<&str>::from]). *)
Definition channel_str (c : ChannelName) : string :=
  match c with
  | Ticker => "ticker" | Book => "book" | BookRaw => "book" | Trade => "trade"
  | Ohlc => "ohlc" | Status => "status" | Executions => "executions"
  | Balances => "balances" | Heartbeat => "heartbeat"
  end.

Definition wire_channel (c : ChannelName) : ChannelName :=
  match c with BookRaw => Book | other => other end.

Definition channel_from_wire_str (s : string) : option ChannelName :=
  if decide (s = "ticker") then Some Ticker
  else if decide (s = "book") then Some Book
  else if decide (s = "trade") then Some Trade
  else if decide (s = "ohlc") then Some Ohlc
  else if decide (s = "status") then Some Status
  else if decide (s = "executions") then Some Executions
  else if decide (s = "balances") then Some Balances
  else if decide (s = "heartbeat") then Some Heartbeat
  else None.

Inductive BookDepth := D10 | D25 | D100 | D500 | D1000.

#[export] Instance BookDepth_eq_dec : EqDecision BookDepth.
Proof. solve_decision. Defined.

Definition as_wire_u32 (d : BookDepth) : N :=
  match d with
  | D10 => 10 | D25 => 25 | D100 => 100 | D500 => 500 | D1000 => 1000
  end.

Definition wire_depth (d : BookDepth) : BookDepth :=
  match d with
  | D10 => D25 | D25 => D25 | D100 => D100 | D500 => D500 | D1000 => D1000
  end.

Inductive OhlcInterval := M1 | M5 | M15 | M30 | H1 | H4 | D1 | D7 | D15.

#[export] Instance OhlcInterval_eq_dec : EqDecision OhlcInterval.
Proof. solve_decision. Defined.

(** The discriminant: minutes on the wire. *)
Definition ohlc_minutes (i : OhlcInterval) : N :=
  match i with
  | M1 => 1 | M5 => 5 | M15 => 15 | M30 => 30 | H1 => 60 | H4 => 240
  | D1 => 1440 | D7 => 10080 | D15 => 21600
  end.

Inductive TickerTrigger := Trades | Bbo.

#[export] Instance TickerTrigger_eq_dec : EqDecision TickerTrigger.
Proof. solve_decision. Defined.

Definition ticker_trigger_str (t : TickerTrigger) : string :=
  match t with Trades => "trades" | Bbo => "bbo" end.

(** ** [types/connection.rs] *)

Inductive ConnectionState :=
  | Idle | Connecting | Authenticating | Resubscribing | Open | BackingOff
  | Closing | Closed | Failed.

#[export] Instance ConnectionState_eq_dec : EqDecision ConnectionState.
Proof. solve_decision. Defined.

Definition state_as_u8 (s : ConnectionState) : N :=
  match s with
  | Idle => 0 | Connecting => 1 | Authenticating => 2 | Resubscribing => 3
  | Open => 4 | BackingOff => 5 | Closing => 6 | Closed => 7 | Failed => 8
  end.

Definition state_from_u8 (b : N) : option ConnectionState :=
  match b with
  | 0 => Some Idle | 1 => Some Connecting | 2 => Some Authenticating
  | 3 => Some Resubscribing | 4 => Some Open | 5 => Some BackingOff
  | 6 => Some Closing | 7 => Some Closed | 8 => Some Failed
  | _ => None
  end.

(** ** [types/asset.rs] *)

(** The legacy codes the table of [normalise_asset] rewrites. *)
Definition asset_table : list (string * string) :=
  [("XXBT", "BTC"); ("XBT", "BTC"); ("XETC", "ETC"); ("XETH", "ETH");
   ("XLTC", "LTC"); ("XMLN", "MLN"); ("XREP", "REP"); ("XXDG", "XDG");
   ("XXLM", "XLM"); ("XXMR", "XMR"); ("XXRP", "XRP"); ("XZEC", "ZEC");
   ("ZARS", "ARS"); ("ZAUD", "AUD"); ("ZCAD", "CAD"); ("ZCLP", "CLP");
   ("ZCOP", "COP"); ("ZDKK", "DKK"); ("ZEUR", "EUR"); ("ZGBP", "GBP");
   ("ZGEL", "GEL"); ("ZGHS", "GHS"); ("ZJPY", "JPY"); ("ZLKR", "LKR");
   ("ZMXN", "MXN"); ("ZPLN", "PLN"); ("ZSEK", "SEK"); ("ZUGX", "UGX");
   ("ZUSD", "USD"); ("ZVND", "VND"); ("ZXOF", "XOF"); ("KFEE", "FEE")].

Fixpoint assoc_or (raw : string) (t : list (string * string)) : string :=
  match t with
  | [] => raw
  | (k, v) :: t => if decide (raw = k) then v else assoc_or raw t
  end.

Definition normalise_asset (raw : string) : string := assoc_or raw asset_table.

(** ASCII classes and case on bytes ([u8::is_ascii_*], [to_ascii_uppercase]). *)
Definition byte (c : ascii) : N := N_of_ascii c.
Definition is_ascii_digit (c : ascii) : bool :=
  (48 <=? byte c) && (byte c <=? 57).
Definition is_ascii_lower (c : ascii) : bool :=
  (97 <=? byte c) && (byte c <=? 122).
Definition is_ascii_upper (c : ascii) : bool :=
  (65 <=? byte c) && (byte c <=? 90).
Definition is_ascii_alphabetic (c : ascii) : bool :=
  is_ascii_lower c || is_ascii_upper c.
Definition is_ascii_alphanumeric (c : ascii) : bool :=
  is_ascii_alphabetic c || is_ascii_digit c.
Definition is_ascii_hexdigit (c : ascii) : bool :=
  is_ascii_digit c || ((97 <=? byte c) && (byte c <=? 102))
  || ((65 <=? byte c) && (byte c <=? 70)).
Definition ascii_upper (c : ascii) : ascii :=
  if is_ascii_lower c then ascii_of_N (byte c - 32) else c.

Fixpoint to_ascii_uppercase (s : string) : string :=
  match s with
  | EmptyString => EmptyString
  | String c s => String (ascii_upper c) (to_ascii_uppercase s)
  end.

Fixpoint all_bytes (p : ascii → bool) (s : string) : bool :=
  match s with
  | EmptyString => true
  | String c s => p c && all_bytes p s
  end.

(** ** [types/symbol.rs] *)

Inductive SymbolError :=
  | Empty | LegacyPrefix | NonAlphanumeric | NonAlphabetic | MissingSeparator.

Abbreviation Symbol := string.

(** [str::split_once('/')] *)
Fixpoint split_once (sep : ascii) (s : string) : option (string * string) :=
  match s with
  | EmptyString => None
  | String c s' =>
      if decide (c = sep) then Some (EmptyString, s')
      else match split_once sep s' with
           | Some (a, b) => Some (String c a, b)
           | None => None
           end
  end.

Definition validate_leg (leg : string) : SymbolError + unit :=
  if decide (leg = "") then inl Empty
  else if negb (all_bytes is_ascii_alphanumeric leg) then inl NonAlphanumeric
  else
    let upper := to_ascii_uppercase leg in
    if decide (normalise_asset upper = upper) then inr tt else inl LegacyPrefix.

Definition symbol_new (s : string) : SymbolError + Symbol :=
  if decide (s = "") then inl Empty
  else if String.prefix "XX" s || String.prefix "ZZ" s then inl LegacyPrefix
  else
    match split_once "/" s with
    | None => inl MissingSeparator
    | Some (base, quote) =>
        match validate_leg base with
        | inl e => inl e
        | inr _ =>
            match validate_leg quote with
            | inl e => inl e
            | inr _ => inr (to_ascii_uppercase s)
            end
        end
    end.

Definition asset_code_new (s : string) : SymbolError + string :=
  if decide (s = "") then inl Empty
  else if negb (all_bytes is_ascii_alphabetic s) then inl NonAlphabetic
  else
    let s := to_ascii_uppercase s in
    if decide (normalise_asset s = s) then inr s else inl LegacyPrefix.

Definition asset_code_from_wire (raw : string) : string := normalise_asset raw.

(** ** [types/ids.rs] *)

Inductive ClOrdIdError := ClOrdIdEmpty | InvalidFormat.

Section ClOrdId.
(** [uuid::Uuid::parse_str(s).is_ok()], from the uuid crate. *)
Variable uuid_parses : string → bool.

Definition is_cl_ord_char (c : ascii) : bool :=
  is_ascii_alphanumeric c || (byte c =? 95) || (byte c =? 45).

Definition cl_ord_id_new (s : string) : ClOrdIdError + string :=
  let len := N.of_nat (String.length s) in
  if decide (s = "") then inl ClOrdIdEmpty
  else if (len =? 36) && uuid_parses s then inr s
  else if (len =? 32) && all_bytes is_ascii_hexdigit s then inr s
  else if (len <=? 18) && all_bytes is_cl_ord_char s then inr s
  else inl InvalidFormat.
End ClOrdId.

Definition MAX_WIRE_CL_ORD_ID_LEN : N := 128.

(** The permissive deserializer of a server-echoed id ([None]: an error). *)
Definition cl_ord_id_deserialize (s : string) : option string :=
  if decide (s = "") then None
  else if MAX_WIRE_CL_ORD_ID_LEN <? N.of_nat (String.length s) then None
  else Some s.

(** ** Lemmas *)

Lemma state_u8_roundtrip (s : ConnectionState) :
  state_from_u8 (state_as_u8 s) = Some s.
Proof. by destruct s. Qed.

Lemma ascii_upper_idemp (c : ascii) : ascii_upper (ascii_upper c) = ascii_upper c.
Proof. by destruct c as [[] [] [] [] [] [] [] []]. Qed.

Lemma ascii_upper_alnum (c : ascii) :
  is_ascii_alphanumeric (ascii_upper c) = is_ascii_alphanumeric c.
Proof. by destruct c as [[] [] [] [] [] [] [] []]. Qed.

Lemma ascii_upper_alpha (c : ascii) :
  is_ascii_alphabetic (ascii_upper c) = is_ascii_alphabetic c.
Proof. by destruct c as [[] [] [] [] [] [] [] []]. Qed.

Lemma ascii_upper_slash (c : ascii) : ascii_upper c = "/"%char ↔ c = "/"%char.
Proof. by destruct c as [[] [] [] [] [] [] [] []]. Qed.

Lemma to_ascii_uppercase_idemp (s : string) :
  to_ascii_uppercase (to_ascii_uppercase s) = to_ascii_uppercase s.
Proof. induction s as [|c s IH]; simpl; [done|]. by rewrite ascii_upper_idemp, IH. Qed.

Lemma all_bytes_upper (p : ascii → bool) (s : string) :
  (∀ c, p (ascii_upper c) = p c) →
  all_bytes p (to_ascii_uppercase s) = all_bytes p s.
Proof. intros Hp. induction s as [|c s IH]; simpl; [done|]. by rewrite Hp, IH. Qed.

Lemma to_ascii_uppercase_empty (s : string) :
  to_ascii_uppercase s = "" ↔ s = "".
Proof. by destruct s. Qed.

Lemma split_once_upper (s : string) :
  split_once "/" (to_ascii_uppercase s) =
  match split_once "/" s with
  | Some (a, b) => Some (to_ascii_uppercase a, to_ascii_uppercase b)
  | None => None
  end.
Proof.
  induction s as [|c s IH]; simpl; [done|].
  destruct (decide (c = "/"%char)) as [->|Hc].
  - by rewrite decide_True.
  - rewrite decide_False by (by rewrite ascii_upper_slash). rewrite IH.
    by destruct (split_once "/" s) as [[]|].
Qed.

Lemma validate_leg_upper (leg : string) :
  validate_leg leg = inr tt → validate_leg (to_ascii_uppercase leg) = inr tt.
Proof.
  unfold validate_leg. intros H.
  destruct (decide (leg = "")) as [|He]; [done|].
  rewrite decide_False by (by rewrite to_ascii_uppercase_empty).
  rewrite (all_bytes_upper _ _ ascii_upper_alnum).
  destruct (negb _); [done|]. by rewrite to_ascii_uppercase_idemp.
Qed.

(** ** Theorems *)

(** Accepting a pair is canonical: the stored text, if it does not start with
    one of the concatenated legacy prefixes, is accepted again and is its own
    canonical form. *)
Theorem symbol_new_idempotent (s t : string) :
  symbol_new s = inr t →
  String.prefix "XX" t || String.prefix "ZZ" t = false →
  symbol_new t = inr t.
Proof.
  unfold symbol_new. intros H Ht.
  destruct (decide (s = "")) as [|Hs]; [done|].
  destruct (String.prefix "XX" s || String.prefix "ZZ" s); [done|].
  destruct (split_once "/" s) as [[base quote]|] eqn:Hsp; [|done].
  destruct (validate_leg base) as [|[]] eqn:Hb; [done|].
  destruct (validate_leg quote) as [|[]] eqn:Hq; [done|]. simplify_eq.
  rewrite decide_False by (by rewrite to_ascii_uppercase_empty).
  rewrite Ht, split_once_upper, Hsp.
  by rewrite !validate_leg_upper, to_ascii_uppercase_idemp.
Qed.

Lemma symbol_new_idempotent_witness :
  symbol_new "BTC/USD" = inr "BTC/USD".
Proof. apply (symbol_new_idempotent "btc/usd"); reflexivity. Defined.

(** The legacy-prefix test reads the caller's spelling, not the canonical
    one: a lower-case pair passes whose canonical form is itself rejected. *)
Theorem symbol_new_prefix_is_case_sensitive :
  symbol_new "xxyz/usd" = inr "XXYZ/USD" ∧
  symbol_new "XXYZ/USD" = inl LegacyPrefix.
Proof. done. Qed.
