(* ===== verification/Events.v ===== *)
(** * Events: what the components publish on the dispatch event bus

    [rust/src/dispatch/event_bus/events.rs]: the event discriminator, the
    enums carried by payloads, the payloads the modelled components publish,
    and the envelope.  Variants whose Rust names collide with a name of
    another enum carry a short prefix ([ErrAuth] for [ErrorClass::Auth],
    [OpAddOrder] for [WsOp::AddOrder], and so on). *)

From S2P Require Import Prelude F64 Types.
Local Open Scope N_scope.

(** A monotonic instant: nanoseconds since the process epoch. *)
Abbreviation MonotonicInstant := Duration.

Inductive EventType :=
  | ClientReady | ClientClosedEvent | ClientFailed | DeadmanDisarmFailedEvent
  | ConnectionConnectingEvent | ConnectionOpenEvent | ConnectionSendReadyEvent
  | ConnectionClosedEvent | ConnectionReopenedEvent | ConnectionFailedEvent
  | ConnectionDroppedEvent | ConnectionRateThrottledEvent
  | ConnectionAttemptFailedEvent | WebsocketStaleEvent
  | AuthenticationFailedEvent | AuthHandshakeFailedEvent
  | CredentialRefreshedEvent | CredentialRefreshFailedEvent
  | NoncePoisonedEvent | WsUpgradeOk | WsUpgradeFailed | WsClosed
  | QueueFullWarning | LoopFailedEvent | SlowCallbackWarning
  | QueueDepthSample | CallbackLatency | RateLimitWarning
  | RateLimitExceededEvent | RateLimitCacheEvictionEvent
  | SubscriptionGapEvent | OrderBookGapEvent | ChannelGapEvent
  | SubscriptionTerminatedEvent | HandlerPanicWarning
  | MessageDroppedNoHandler | WsRequestFailedEvent | ConfigChangedEvent
  | ConfigResolved | OrderReconciliationEvent | OrderSubmittedEvent
  | OrderPlacementAmbiguousEvent | OrderCancellationAttempted
  | RestRetryAttempt.

#[export] Instance EventType_eq_dec : EqDecision EventType.
Proof. solve_decision. Defined.

Inductive ClosedReason := ClientInitiated | Forced.
Inductive AckSource := AckServer | SocketDropped | CloseTimeout | NeverOpened.
Inductive NonTransientClass :=
  | BadCreds | PermissionDenied | ClientError | RetryCapExhausted.
Inductive TransientClass :=
  | HttpTransient | ConnectError | UpgradeTimeout | AuthHandshakeTransient
  | ClosedDuringHandshake | SubscribeBudgetExhausted | TokenRefreshTransient.
Inductive ErrorClass := ErrAuth | ErrClientClosed | ErrNetwork | ErrUnknown.
Inductive RefreshReasonPayload := Proactive | Reactive | ManualRefresh.
Inductive QueueName := CallerToIo | IoToDispatch.
Inductive WsOp :=
  | OpAddOrder | OpAmendOrder | OpCancelOrder | OpCancelAll
  | OpCancelAllOrdersAfter | OpBatchAdd.
Inductive WsFailReason := FailConnectionLost | FailClientClosed.

Inductive ReactorName := LoopIo | LoopDispatch.

#[export] Instance ReactorName_eq_dec : EqDecision ReactorName.
Proof. solve_decision. Defined.

Inductive LoopFailureCause := CausePanic | CauseUnhandledError | CauseCancelled.

#[export] Instance LoopFailureCause_eq_dec : EqDecision LoopFailureCause.
Proof. solve_decision. Defined.

Inductive ClientFailureCause :=
  | ReactorSpawnFailed | ConfigValidationFailed | BusInitFailed | ClientLoopFailed.
Inductive DeadmanDisarmCause :=
  | DisarmNetworkError | DisarmRateLimitExceeded | DisarmAuthConnectionFailed | DisarmTimeout.

(** [types/handles.rs]; a [HashSet] is the list of its elements, and what is discovered at
    first use is empty when the client is ready. *)
Inductive NamespaceName :=
  | NsMarket | NsAccount | NsTrade | NsFunding | NsEarn | NsSubaccount | NsWs | NsFutures.

Record CapabilitySnapshot := mkCapabilities {
  declared_namespaces : list NamespaceName;
  declared_ws_urls : list WsUrl;
}.

Inductive CallbackSource :=
  | SourceEvent (t : EventType)
  | SourceDataChannel (channel : ChannelName).

(** [api/subscription.rs] *)
Inductive TerminationCause :=
  | SubscribeAckBudgetExhausted | NonTransientWireRejection
  | CapabilityRevoked | TermClientClosed.

(** [conn/subscribe_error.rs] *)
Inductive SubscribeErrorKind :=
  | SubscribeRejected (kraken_code : string) (transient : bool).

(** [rest/retry.rs] *)
Inductive RetryReason :=
  | RrTransportError | RrHttpServerError | RrRateLimitExceeded | RrServiceThrottled
  | RrServiceUnavailable | RrInvalidNonce.

#[export] Instance RetryReason_eq_dec : EqDecision RetryReason.
Proof. solve_decision. Defined.

Inductive GapCause :=
  | FrameDropDueToQueueFull | OrderBookCrcMismatch | SequenceGapDetected | MalformedFrame.

Inductive ClientCloseReason := UserClose | FatalError.

(** The order operations; the constructors carry the suffix [Op], because the trackers
    also name an amend and a cancel. *)
Inductive OrderOp :=
  | AddOrderOp | AmendOrderOp | CancelOrderOp | CancelAllOp | CancelAllOrdersAfterOp
  | OrderBatchOp.

#[export] Instance OrderOp_eq_dec : EqDecision OrderOp.
Proof. solve_decision. Defined.

(** A transaction id and an amend id are opaque text. *)
Inductive OrderSubmitStatus :=
  | WireSent (txid : string)
  | WireAccepted
  | WireError (code : string).

(** [api/account/types.rs] *)
Inductive OrderStatus := StPending | StOpen | StClosed | StCanceled | StExpired | StUnknown.
Inductive LifecyclePosition := LifeOpen | LifeClosed.
Inductive ReconciliationOutcome :=
  | OrderFound (txid : string) (status : OrderStatus) (lifecycle : LifecyclePosition)
  | OrderNotPlaced
  | OutcomeUnknown.

(** The payloads published by the modelled components, with the Rust fields in
    order. *)
Inductive EventPayload :=
  | PConnectionConnecting (url : WsUrl) (attempt_count : N)
  | PConnectionOpen (url : WsUrl) (opened_at : MonotonicInstant)
      (server_connection_id : option string)
  | PConnectionClosed (url : WsUrl) (closed_at : MonotonicInstant)
      (reason : ClosedReason) (ack : AckSource)
      (server_connection_id : option string)
  | PConnectionReopened (url : WsUrl) (reopened_at : MonotonicInstant)
      (attempt_count : N)
  | PConnectionFailed (url : WsUrl) (attempt_count : N) (last_error : string)
      (transient : bool) (non_transient_class : option NonTransientClass)
  | PConnectionDropped (url : WsUrl) (dropped_at : MonotonicInstant)
      (close_code : option N) (reason : option string)
  | PConnectionRateThrottled (url : WsUrl) (attempts_used : N)
      (window_seconds : N) (window_remaining_attempts : N)
      (throttle_until : MonotonicInstant)
  | PConnectionAttemptFailed (url : WsUrl) (attempt : N)
      (transient_class : TransientClass) (kraken_error : option string)
      (http_status : option N) (close_code : option N) (backoff_ms : N)
      (failed_at : MonotonicInstant)
  | PWebsocketStale (url : WsUrl) (last_inbound_at : MonotonicInstant)
      (configured_window_ms : N)
  | PAuthenticationFailed (url : WsUrl) (non_transient_class : NonTransientClass)
      (kraken_response : option string)
  | PCredentialRefreshed (key_id_fingerprint : string)
      (token_expires_at : MonotonicInstant)
      (refresh_reason : RefreshReasonPayload)
  | PCredentialRefreshFailed (key_id_fingerprint : string) (attempt : N)
      (error_class : ErrorClass) (retry_in_ms : option N)
  | PQueueFullWarning (queue : QueueName) (dropped_count : N) (capacity : N)
  | PRateLimitWarning (tracker : string) (key_id_fingerprint : string)
      (pair : option Symbol) (used cap pct decay_per_sec seconds_to_drain : f64)
  | PRateLimitExceeded (tracker : string) (key_id_fingerprint : string)
      (pair : option Symbol) (kraken_error : string)
      (observed_at : MonotonicInstant)
  | PRateLimitCacheEviction (key_id_fingerprint : string)
      (pair : option Symbol) (evicted_at : MonotonicInstant) (reason : string)
  | PSubscriptionTerminated (channel : ChannelName) (pair : option Symbol)
      (cause : TerminationCause) (last_error : option string)
      (terminated_at : MonotonicInstant)
  | PWsRequestFailed (req_id : N) (op : WsOp) (reason : WsFailReason)
  | PClientReady (capability_snapshot : CapabilitySnapshot)
  | PClientFailed (cause : ClientFailureCause)
  | PDeadmanDisarmFailed (cause : DeadmanDisarmCause) (retry_at_monotonic : option MonotonicInstant)
      (monotonic_ts : MonotonicInstant)
  | PLoopFailed (loop_name : ReactorName) (cause : LoopFailureCause)
      (failed_at : MonotonicInstant)
  | PSlowCallbackWarning (slow_event_type : CallbackSource) (latency_us threshold_ms : N)
  | PQueueDepthSample (queue : QueueName) (depth capacity : N)
      (sampled_at : MonotonicInstant)
  | PCallbackLatency (callback_event_type : CallbackSource) (handler_id : option N)
      (latency_us : N)
  | PHandlerPanicWarning (source : CallbackSource) (handler_id : N)
      (panic_message : string)
  | PNoncePoisoned (key_id_fingerprint : string) (endpoint : string)
  | PConnectionSendReady (url : WsUrl) (ready_at : MonotonicInstant)
  | PAuthHandshakeFailed (url : WsUrl) (attempt : N) (transient : bool)
      (kraken_error : option string)
  | PSubscriptionGap (channel : ChannelName) (symbol : Symbol) (dropped_count : N)
      (cause : GapCause)
  | POrderBookGap (channel : ChannelName) (symbol : Symbol) (cause : GapCause)
  | PChannelGap (channel : ChannelName) (dropped_count : N) (cause : GapCause)
  | PMessageDropped (channel : ChannelName) (count : N) (period : Duration)
  | PClientClosed (reason : ClientCloseReason) (initiated_at : MonotonicInstant)
  | PRestRetryAttempt (endpoint : string) (request_id : option string) (attempt : N)
      (backoff_ms : N) (reason : RetryReason)
  | POrderReconciliation (cl_ord_id : string) (outcome : ReconciliationOutcome)
  | POrderSubmitted (cl_ord_id : string) (amend_id : option string) (op : OrderOp)
      (status : OrderSubmitStatus) (request_id : option string)
  | POrderPlacementAmbiguous (cl_ord_id : string) (amend_id : option string)
      (op : OrderOp) (sent_at : MonotonicInstant) (request_id : option string)
  | POrderCancellationAttempted (cl_ord_id : string) (op : OrderOp)
      (request_id : option string).

Record EventEnvelope := mkEnvelope {
  event_type : EventType;
  event_version : N;
  timestamp_monotonic : MonotonicInstant;
  request_id : option N;
  payload : EventPayload;
}.

(** ** [error.rs]: the failures handed to in-flight WebSocket requests *)

Inductive ConnectionErrorKind :=
  | NotOpen | RequestInFlightWhenDropped | CEClientClosed | LoopClosed
  | CEQueueFull | ResponseTimeout.

#[export] Instance ConnectionErrorKind_eq_dec : EqDecision ConnectionErrorKind.
Proof. solve_decision. Defined.

Definition is_definitely_not_sent (k : ConnectionErrorKind) : bool :=
  match k with NotOpen | CEQueueFull => true | _ => false end.
