(* ===== verification/RateCounter.v ===== *)
(** * RateCounter: the decaying rate-limit counter and its cost tables

    [rust/src/rate_limit/{counter,mod,tier,order_age_cost,snap_classify}.rs]:
    the per-scope counter with its charge, credit, saturating charge and
    snap-to-cap operations, the retry projection, the tier tables, the
    age-decaying trading costs and the wire-error classifier. *)

From S2P Require Import Prelude F64 Types Events.
Local Open Scope string_scope.
Local Open Scope N_scope.

(** ** [counter.rs] *)

Definition WARNING_DEBOUNCE : Duration := from_secs 1.

Inductive ChargeOutcome := Charged | Exceeded.

Record RateLimitCounter := mkCounter {
  current : f64;
  cap : f64;
  decay_per_sec : f64;
  last_updated : MonotonicInstant;
  last_warning_at : option MonotonicInstant;
}.

Definition counter_new (cap decay_per_sec : f64) (now : MonotonicInstant)
  : RateLimitCounter :=
  mkCounter f64_zero cap decay_per_sec now None.

Definition set_current (v : f64) (at_ : MonotonicInstant) (c : RateLimitCounter)
  : RateLimitCounter :=
  mkCounter v (cap c) (decay_per_sec c) at_ (last_warning_at c).

Definition set_last_warning_at (w : option MonotonicInstant)
  (c : RateLimitCounter) : RateLimitCounter :=
  mkCounter (current c) (cap c) (decay_per_sec c) (last_updated c) w.

Definition should_emit_warning (now : MonotonicInstant) (warning_pct : f64)
  (c : RateLimitCounter) : bool * RateLimitCounter :=
  let pct := f64_div (current c) (cap c) in
  if f64_lt pct warning_pct then (false, set_last_warning_at None c)
  else
    match last_warning_at c with
    | Some prev =>
        if now - prev <? WARNING_DEBOUNCE then (false, c)
        else (true, set_last_warning_at (Some now) c)
    | None => (true, set_last_warning_at (Some now) c)
    end.

Definition peek_current (now : MonotonicInstant) (c : RateLimitCounter) : f64 :=
  let elapsed := as_secs_f64 (now - last_updated c) in
  f64_max (f64_sub (current c) (f64_mul (decay_per_sec c) elapsed)) f64_zero.

Definition charge (cost : f64) (now : MonotonicInstant) (c : RateLimitCounter)
  : ChargeOutcome * RateLimitCounter :=
  let decayed := peek_current now c in
  if f64_gt (f64_add decayed cost) (cap c)
  then (Exceeded, set_current decayed (N.max now (last_updated c)) c)
  else (Charged, set_current (f64_add decayed cost) (N.max now (last_updated c)) c).

Definition credit (cost : f64) (now : MonotonicInstant) (c : RateLimitCounter)
  : RateLimitCounter :=
  let decayed := peek_current now c in
  set_current (f64_max (f64_sub decayed cost) f64_zero)
              (N.max now (last_updated c)) c.

Definition charge_saturating (cost : f64) (now : MonotonicInstant)
  (c : RateLimitCounter) : RateLimitCounter :=
  let decayed := peek_current now c in
  set_current (f64_min (f64_add decayed cost) (cap c))
              (N.max now (last_updated c)) c.

Definition counter_snap_to_cap (now : MonotonicInstant) (c : RateLimitCounter)
  : RateLimitCounter :=
  set_current (cap c) (N.max now (last_updated c)) c.

(** ** [mod.rs]: the retry projection *)

Definition MAX_RETRY_PROJECTION_SECS : f64 := f64_of_Z 86400.

(** [None] stands for the panic of [Duration::from_secs_f64]. *)
Definition compute_retry_at (current cap decay_per_sec : f64)
  (now : MonotonicInstant) : option MonotonicInstant :=
  if f64_is_nan decay_per_sec || f64_le decay_per_sec f64_zero then Some now
  else
    let needed := f64_max (f64_sub current (f64_sub cap f64_one)) f64_zero in
    let secs := f64_clamp (f64_div needed decay_per_sec) f64_zero
                          MAX_RETRY_PROJECTION_SECS in
    match try_from_secs_f64 secs with
    | Some d => Some (duration_saturating_add now d)
    | None => None
    end.

(** ** [tier.rs] *)

Inductive Tier := Starter | Intermediate | Pro.

Definition api_cap (t : Tier) : f64 :=
  match t with
  | Starter => f64_of_Z 15 | Intermediate => f64_of_Z 20 | Pro => f64_of_Z 20
  end.

Definition api_decay_per_sec (t : Tier) : f64 :=
  match t with
  | Starter => f64_dec 33 2 | Intermediate => f64_dec 50 2 | Pro => f64_dec 100 2
  end.

Definition trading_cap (t : Tier) : f64 :=
  match t with
  | Starter => f64_of_Z 60 | Intermediate => f64_of_Z 125 | Pro => f64_of_Z 180
  end.

Definition trading_decay_per_sec (t : Tier) : f64 :=
  match t with
  | Starter => f64_dec 100 2 | Intermediate => f64_dec 234 2 | Pro => f64_dec 375 2
  end.

(** ** [order_age_cost.rs] *)

Inductive DynamicCostOp := AmendOrder | CancelOrder.

Definition order_age_cost (op : DynamicCostOp) (age : Duration) : f64 :=
  let s := as_secs_f64 age in
  match op with
  | AmendOrder =>
      f64_add (f64_of_Z 1)
        (if f64_lt s (f64_of_Z 5) then f64_of_Z 3
         else if f64_lt s (f64_of_Z 10) then f64_of_Z 2
         else if f64_lt s (f64_of_Z 15) then f64_of_Z 1
         else f64_of_Z 0)
  | CancelOrder =>
      if f64_lt s (f64_of_Z 5) then f64_of_Z 8
      else if f64_lt s (f64_of_Z 10) then f64_of_Z 6
      else if f64_lt s (f64_of_Z 15) then f64_of_Z 5
      else if f64_lt s (f64_of_Z 45) then f64_of_Z 4
      else if f64_lt s (f64_of_Z 90) then f64_of_Z 2
      else if f64_lt s (f64_of_Z 300) then f64_of_Z 1
      else f64_of_Z 0
  end.

(** ** [snap_classify.rs] *)

Inductive SnapTarget := TradingPair | TradingDomain | Api.

Definition classify_rate_limit_snap (code : string) : option SnapTarget :=
  if decide (code = "EOrder:Rate limit exceeded") then Some TradingPair
  else if decide (code = "EOrder:Domain rate limit exceeded") then Some TradingDomain
  else if String.prefix "EAPI:Rate limit exceeded" code
       || String.prefix "EAuth:Rate limit exceeded" code
       || String.prefix "EGeneral:Too many requests" code
       || String.prefix "EService:Throttled" code
  then Some Api
  else None.

(** ** Lemmas *)

Create HintDb counter.

(** The counter never leaves [0 <= current <= cap]. *)
Definition counter_wf (c : RateLimitCounter) : Prop :=
  nonneg (current c) ∧ nonneg (cap c) ∧ nonneg (decay_per_sec c) ∧
  f64_le (current c) (cap c) = true.

Lemma f64_add_between (x y hi : f64) :
  nonneg x → nonneg y → nonneg hi → f64_le (f64_add x y) hi = true →
  nonneg (f64_add x y).
Proof.
  intros Hx Hy Hhi Hle. destruct (f64_add_ge x y Hx Hy) as (Hv & _ & _).
  eapply nonneg_between; [done|by apply f64_add_nonneg|done|done].
Qed.

Lemma peek_current_wf (now : MonotonicInstant) (c : RateLimitCounter) :
  counter_wf c →
  nonneg (peek_current now c) ∧ f64_le (peek_current now c) (current c) = true.
Proof.
  intros (Hc & _ & Hd & _). unfold peek_current.
  apply f64_decay_between; [done|by apply nonneg_weaken|apply as_secs_f64_nonneg_inf].
Qed.

Lemma set_current_wf (v : f64) (at_ : MonotonicInstant) (c : RateLimitCounter) :
  counter_wf c → nonneg v → f64_le v (cap c) = true → counter_wf (set_current v at_ c).
Proof. by intros (? & ? & ? & ?) ? ?. Qed.

Lemma counter_new_wf (k d : f64) (now : MonotonicInstant) :
  nonneg k → nonneg d → counter_wf (counter_new k d now).
Proof. intros Hk Hd. split_and!; [apply nonneg_zero|done|done|by destruct Hk as (_&_&?)]. Qed.

Lemma peek_current_le_cap (now : MonotonicInstant) (c : RateLimitCounter) :
  counter_wf c → f64_le (peek_current now c) (cap c) = true.
Proof.
  intros Hwf. destruct (peek_current_wf now c Hwf) as [_ Hle].
  eapply f64_le_trans; [exact Hle|]. by destruct Hwf as (_ & _ & _ & ?).
Qed.

(** A charge on a well-formed counter is refused exactly when the decayed
    value plus the cost exceeds the cap; a refused charge costs nothing. *)
Lemma charge_wf (cost : f64) (now : MonotonicInstant) (c : RateLimitCounter) :
  counter_wf c → nonneg cost → counter_wf (charge cost now c).2.
Proof.
  intros Hwf Hcost. destruct (peek_current_wf now c Hwf) as [Hp _].
  unfold charge. destruct (f64_gt _ _) eqn:Hgt; cbn [snd].
  - apply set_current_wf; [done|done|by apply peek_current_le_cap].
  - destruct Hwf as (Hc & Hk & Hd & Hle).
    assert (f64_le (f64_add (peek_current now c) cost) (cap c) = true) as Hle'.
    { destruct (f64_add_ge _ _ Hp Hcost) as (_ & Hn & _).
      apply f64_not_lt_le; [by apply nonneg_not_nan|done|exact Hgt]. }
    apply set_current_wf; [by split_and!| |done]. by apply f64_add_between with (cap c).
Qed.

Lemma charge_saturating_wf (cost : f64) (now : MonotonicInstant) (c : RateLimitCounter) :
  counter_wf c → nonneg cost → counter_wf (charge_saturating cost now c).
Proof.
  intros Hwf Hcost. destruct (peek_current_wf now c Hwf) as [Hp _].
  pose proof Hwf as (_ & Hk & _ & _). apply nonneg_not_nan in Hk as Hkn.
  destruct (f64_add_ge _ _ Hp Hcost) as (Hv & Hn & _).
  pose proof (f64_add_nonneg _ _ Hp Hcost) as H0.
  unfold charge_saturating. set (s := f64_add _ _) in *.
  assert (f64_le (f64_min s (cap c)) (cap c) = true) as Hle by by apply f64_min_le_r.
  apply set_current_wf; [done| |done].
  eapply nonneg_between; [| |exact Hle|done].
  - unfold f64_min. rewrite Hn, Hkn. destruct (f64_lt _ _); [by destruct Hk|done].
  - apply f64_min_ge; [done|done|]. by destruct Hk as (_ & _ & ?).
Qed.

Lemma credit_wf (cost : f64) (now : MonotonicInstant) (c : RateLimitCounter) :
  counter_wf c → nonneg cost → counter_wf (credit cost now c).
Proof.
  intros Hwf Hcost. destruct (peek_current_wf now c Hwf) as [Hp _].
  destruct (f64_sub_le _ _ Hp Hcost) as (Hv & Hn & Hle).
  destruct (f64_max_zero_nonneg _ _ Hv Hn Hle Hp) as [H0 Hle'].
  apply set_current_wf; [done|done|].
  eapply f64_le_trans; [exact Hle'|by apply peek_current_le_cap].
Qed.

Lemma snap_wf (now : MonotonicInstant) (c : RateLimitCounter) :
  counter_wf c → counter_wf (counter_snap_to_cap now c).
Proof.
  intros Hwf. pose proof Hwf as (_ & Hk & _ & _).
  apply set_current_wf; [done|done|]. by apply f64_le_refl, nonneg_not_nan.
Qed.

Lemma should_emit_warning_wf (now : MonotonicInstant) (pct : f64) (c : RateLimitCounter) :
  counter_wf c → counter_wf (should_emit_warning now pct c).2.
Proof.
  unfold should_emit_warning, counter_wf. intros H.
  repeat case_match; by subst.
Qed.

(** The timestamp a counter decays from never moves backwards. *)
Lemma charge_last_updated (cost : f64) (now : MonotonicInstant) (c : RateLimitCounter) :
  last_updated c ≤ last_updated (charge cost now c).2.
Proof. unfold charge. case_match; simpl; lia. Qed.

#[export] Hint Resolve charge_wf charge_saturating_wf credit_wf snap_wf
  should_emit_warning_wf counter_new_wf : counter.

Lemma tier_caps_nonneg (t : Tier) :
  nonneg (api_cap t) ∧ nonneg (api_decay_per_sec t) ∧
  nonneg (trading_cap t) ∧ nonneg (trading_decay_per_sec t).
Proof. destruct t; split_and!; vm_compute; done. Qed.

(** The projection is computed without panicking and lies within a day. *)
Lemma compute_retry_at_within (cur k d : f64) (now : MonotonicInstant) :
  nonneg cur → nonneg k → nonneg d → now ≤ duration_max →
  ∃ r, compute_retry_at cur k d now = Some r ∧ now ≤ r ≤ now + from_secs 86400.
Proof.
  intros Hcur Hk Hd Hnow. unfold compute_retry_at.
  rewrite (nonneg_not_nan _ Hd). cbn [orb].
  destruct (f64_le d f64_zero) eqn:Hd0; [by exists now; split; [done|lia]|].
  assert (f64_lt f64_zero d = true) as Hpos.
  { rewrite f64_lt_ge; [by rewrite Hd0|done|by apply nonneg_not_nan]. }
  destruct (f64_sub_ok k f64_one) as [Hv1 Hn1];
    [by destruct Hk|by destruct Hk as (_&?&_)|by vm_compute|done|].
  destruct (f64_sub_ok cur _ ltac:(by destruct Hcur) ltac:(by destruct Hcur as (_&?&_))
    Hv1 Hn1) as [Hv2 Hn2].
  pose proof (f64_div_nonneg_inf _ _ (f64_max_zero_nonneg_inf _ Hv2 Hn2) Hd Hpos)
    as (Hvq & Hnq & H0q).
  set (q := f64_div _ _) in *.
  assert (nonneg MAX_RETRY_PROJECTION_SECS) as Hmax by by vm_compute.
  destruct (f64_clamp_bounds q f64_zero MAX_RETRY_PROJECTION_SECS Hnq ltac:(by vm_compute))
    as [Hlo Hhi].
  assert (nonneg (f64_clamp q f64_zero MAX_RETRY_PROJECTION_SECS)) as Hs.
  { eapply nonneg_between; [|exact Hlo|exact Hhi|done].
    unfold f64_clamp. repeat case_match; done. }
  destruct (try_from_secs_f64_le _ 86400 ltac:(done) Hs Hmax) as (dur & -> & Hdur);
    [|exact Hhi|].
  { exists 5937362789990400%positive, (-36)%Z. by vm_compute. }
  exists (duration_saturating_add now dur). split; [done|].
  unfold duration_saturating_add. lia.
Qed.
