(* ===== verification/RateLimit.v ===== *)
(** * RateLimit: the two rate-limit trackers and the order-id index

    [rust/src/rate_limit/{scope,api,trading,cl_ord_id_index}.rs].  A tracker
    is its lock-protected state; each operation takes the instant the caller
    passes ([now]), the readings of the tracker's own clock made while
    publishing, and returns the result, the new state and the envelopes it
    publishes, in order.  An [option] result is [None] where the code panics. *)

From Stdlib Require Import Ascii String.
From S2P Require Import Prelude F64 Types Events RateCounter.
Local Open Scope string_scope.
Local Open Scope N_scope.

Abbreviation ApiKey := string.
Abbreviation TradingKey := (ApiKey * Symbol)%type.

(** ** [scope.rs] *)

Inductive Scope :=
  | ScopeApiKey (k : ApiKey)
  | ScopePair (k : ApiKey) (p : Symbol).

Record RateLimitExceeded := mkExceeded {
  ex_tracker : string;
  ex_scope : Scope;
  ex_current : f64;
  ex_cap : f64;
  ex_retry_at : MonotonicInstant;
}.

(** [Result<(), RateLimitExceeded>] *)
Abbreviation ConsumeResult := (RateLimitExceeded + unit)%type.

Section Trackers.

(** SHA-256, from the [sha2] crate. *)
Variable sha256 : list ascii → list N.

Definition hex_digit (n : N) : ascii :=
  ascii_of_N (if n <? 10 then 48 + n else 87 + n).

Definition hex_byte (b : N) : string :=
  String (hex_digit (b / 16)) (String (hex_digit (b mod 16)) EmptyString).

Definition derive_key_fingerprint (k : ApiKey) : string :=
  String.concat "" (map hex_byte (take 8 (sha256 (list_ascii_of_string k)))).

Definition redacted_id (s : Scope) : string * option Symbol :=
  match s with
  | ScopeApiKey k => (derive_key_fingerprint k, None)
  | ScopePair k p => (derive_key_fingerprint k, Some p)
  end.

(** ** [mod.rs]: the two publishers *)

Definition publish_rate_limit_warning (clock_now : MonotonicInstant)
  (tracker : string) (scope : Scope) (used cap pct decay secs : f64)
  : EventEnvelope :=
  let '(fp, pr) := redacted_id scope in
  mkEnvelope RateLimitWarning 1 clock_now None
    (PRateLimitWarning tracker fp pr used cap pct decay secs).

Definition publish_rate_limit_exceeded (clock_now : MonotonicInstant)
  (tracker : string) (scope : Scope) (kraken_error : string)
  (now : MonotonicInstant) : EventEnvelope :=
  let '(fp, pr) := redacted_id scope in
  mkEnvelope RateLimitExceededEvent 1 clock_now None
    (PRateLimitExceeded tracker fp pr kraken_error now).

(** ** [api.rs] *)

Record ApiTracker := mkApi {
  api_tier : Tier;
  api_counter : gmap ApiKey RateLimitCounter;
}.

Definition api_new (t : Tier) : ApiTracker := mkApi t ∅.

Definition seconds_to_drain (c : RateLimitCounter) : f64 :=
  if f64_is_finite (decay_per_sec c) && f64_gt (decay_per_sec c) f64_zero
  then f64_div (current c) (decay_per_sec c)
  else f64_infinity.

(** The part of [consume] both trackers share: charge the counter, then the
    warning when charged, or the projected retry when refused. *)
Definition charge_and_report (tracker : string) (scope : Scope)
  (cap_ warning_pct cost : f64) (now warned_at : MonotonicInstant)
  (c : RateLimitCounter)
  : option (ConsumeResult * RateLimitCounter * list EventEnvelope) :=
  match charge cost now c with
  | (Charged, c1) =>
      let new_pct := f64_div (current c1) cap_ in
      let '(warn, c2) := should_emit_warning now warning_pct c1 in
      Some (inr tt, c2,
            if warn then
              [publish_rate_limit_warning warned_at tracker scope (current c2)
                 cap_ new_pct (decay_per_sec c2) (seconds_to_drain c2)]
            else [])
  | (Exceeded, c1) =>
      retry ← compute_retry_at (current c1) (cap c1) (decay_per_sec c1) now;
      Some (inl (mkExceeded tracker scope (current c1) (cap c1) retry), c1, [])
  end.

Definition api_consume (warning_pct : f64) (scope : Scope) (cost : f64)
  (now warned_at : MonotonicInstant) (t : ApiTracker)
  : option (ConsumeResult * ApiTracker * list EventEnvelope) :=
  match scope with
  | ScopePair _ _ =>
      Some (inl (mkExceeded "api" scope f64_zero f64_zero now), t, [])
  | ScopeApiKey k =>
      let cap_ := api_cap (api_tier t) in
      let decay := api_decay_per_sec (api_tier t) in
      let c := default (counter_new cap_ decay now) (api_counter t !! k) in
      '(r, c', evs) ← charge_and_report "api" scope cap_ warning_pct cost now warned_at c;
      Some (r, mkApi (api_tier t) (<[k := c']> (api_counter t)), evs)
  end.

Definition api_headroom (scope : Scope) (now : MonotonicInstant) (t : ApiTracker)
  : option f64 :=
  match scope with
  | ScopePair _ _ => None
  | ScopeApiKey k =>
      let cap_ := api_cap (api_tier t) in
      Some (match api_counter t !! k with
            | Some c => f64_max (f64_sub cap_ (peek_current now c)) f64_zero
            | None => cap_
            end)
  end.

Definition api_time_until_headroom (scope : Scope) (cost : f64)
  (now : MonotonicInstant) (t : ApiTracker) : option Duration :=
  h ← api_headroom scope now t;
  if f64_ge h cost then Some 0
  else
    let decay := api_decay_per_sec (api_tier t) in
    if negb (f64_is_finite decay) || f64_le decay f64_zero then None
    else Some (default 0 (try_from_secs_f64 (f64_div (f64_sub cost h) decay))).

Definition api_snap_to_cap (scope : Scope) (kraken_error : string)
  (now clock_now : MonotonicInstant) (t : ApiTracker)
  : ApiTracker * list EventEnvelope :=
  match scope with
  | ScopePair _ _ => (t, [])
  | ScopeApiKey k =>
      let c := default (counter_new (api_cap (api_tier t))
                          (api_decay_per_sec (api_tier t)) now)
                       (api_counter t !! k) in
      (mkApi (api_tier t) (<[k := counter_snap_to_cap now c]> (api_counter t)),
       [publish_rate_limit_exceeded clock_now "api" scope kraken_error now])
  end.

(** ** [trading.rs] *)

Record TradingTracker := mkTrading {
  trading_tier : Tier;
  lru_cap : N;
  trading_counter : gmap TradingKey RateLimitCounter;
  access_order : list TradingKey;
}.

Definition trading_with_lru_cap (t : Tier) (lru : N) : TradingTracker :=
  mkTrading t (N.max lru 1) ∅ [].

(** [position] + [VecDeque::remove]: drop the first occurrence. *)
Fixpoint remove_first (p : TradingKey → bool) (l : list TradingKey)
  : list TradingKey :=
  match l with
  | [] => []
  | x :: l' => if p x then l' else x :: remove_first p l'
  end.

Definition promote (key : TradingKey) (order : list TradingKey) : list TradingKey :=
  (remove_first (λ x, bool_decide (x = key)) order ++ [key])%list.

Definition touch_lru (key : TradingKey) (cap_ decay : f64)
  (now : MonotonicInstant) (t : TradingTracker) : option Scope * TradingTracker :=
  let order := promote key (access_order t) in
  match trading_counter t !! key with
  | Some _ => (None, mkTrading (trading_tier t) (lru_cap t) (trading_counter t) order)
  | None =>
      let fresh := counter_new cap_ decay now in
      match (if lru_cap t <=? N.of_nat (size (trading_counter t))
             then List.find (λ x, bool_decide (x ≠ key)) order else None) with
      | Some oldest =>
          (Some (ScopePair oldest.1 oldest.2),
           mkTrading (trading_tier t) (lru_cap t)
             (<[key := fresh]> (delete oldest (trading_counter t)))
             (remove_first (λ x, bool_decide (x ≠ key)) order))
      | None =>
          (None, mkTrading (trading_tier t) (lru_cap t)
                   (<[key := fresh]> (trading_counter t)) order)
      end
  end.

Definition publish_eviction (evicted_at : MonotonicInstant) (s : Scope)
  : EventEnvelope :=
  let '(fp, pr) := redacted_id s in
  mkEnvelope RateLimitCacheEvictionEvent 1 evicted_at None
    (PRateLimitCacheEviction fp pr evicted_at "lru_cap_exceeded").

Definition trading_consume (warning_pct : f64) (scope : Scope) (cost : f64)
  (now evicted_at warned_at : MonotonicInstant) (t : TradingTracker)
  : option (ConsumeResult * TradingTracker * list EventEnvelope) :=
  match scope with
  | ScopeApiKey _ =>
      Some (inl (mkExceeded "trading" scope f64_zero f64_zero now), t, [])
  | ScopePair k p =>
      let cap_ := trading_cap (trading_tier t) in
      let decay := trading_decay_per_sec (trading_tier t) in
      let '(evicted, t1) := touch_lru (k, p) cap_ decay now t in
      c ← trading_counter t1 !! (k, p);
      '(r, c', warns) ←
        charge_and_report "trading" scope cap_ warning_pct cost now warned_at c;
      Some (r,
            mkTrading (trading_tier t1) (lru_cap t1)
              (<[(k, p) := c']> (trading_counter t1)) (access_order t1),
            (match evicted with
             | Some s => [publish_eviction evicted_at s]
             | None => [] end ++ warns)%list)
  end.

Definition trading_headroom (scope : Scope) (now : MonotonicInstant)
  (t : TradingTracker) : option f64 :=
  match scope with
  | ScopeApiKey _ => None
  | ScopePair k p =>
      let cap_ := trading_cap (trading_tier t) in
      Some (match trading_counter t !! (k, p) with
            | Some c => f64_max (f64_sub cap_ (peek_current now c)) f64_zero
            | None => cap_
            end)
  end.

Definition trading_credit (scope : Scope) (cost : f64) (now : MonotonicInstant)
  (t : TradingTracker) : TradingTracker :=
  match scope with
  | ScopeApiKey _ => t
  | ScopePair k p =>
      mkTrading (trading_tier t) (lru_cap t)
        (alter (credit cost now) (k, p) (trading_counter t)) (access_order t)
  end.

(** Apply [f] to every counter of [api_key]. *)
Definition map_account (api_key : ApiKey) (f : RateLimitCounter → RateLimitCounter)
  (m : gmap TradingKey RateLimitCounter) : gmap TradingKey RateLimitCounter :=
  map_imap (λ key c, Some (if bool_decide (key.1 = api_key) then f c else c)) m.

Definition charge_account_wide (scope : Scope) (cost : f64)
  (now : MonotonicInstant) (t : TradingTracker) : TradingTracker :=
  match scope with
  | ScopePair _ _ => t
  | ScopeApiKey k =>
      mkTrading (trading_tier t) (lru_cap t)
        (map_account k (charge_saturating cost now) (trading_counter t))
        (access_order t)
  end.

(** The unspecified iteration order of [HashMap::keys]. *)
Variable hash_order : list TradingKey → list TradingKey.

Definition trading_snap_to_cap (scope : Scope) (kraken_error : string)
  (now clock_now : MonotonicInstant) (t : TradingTracker)
  : TradingTracker * list EventEnvelope :=
  let ev := [publish_rate_limit_exceeded clock_now "trading" scope kraken_error now] in
  match scope with
  | ScopePair k p =>
      let c := default (counter_new (trading_cap (trading_tier t))
                          (trading_decay_per_sec (trading_tier t)) now)
                       (trading_counter t !! (k, p)) in
      (mkTrading (trading_tier t) (lru_cap t)
         (<[(k, p) := counter_snap_to_cap now c]> (trading_counter t))
         (promote (k, p) (access_order t)), ev)
  | ScopeApiKey k =>
      let keys := hash_order (elements (dom (trading_counter t))) in
      let to_promote := filter (λ x : TradingKey, x.1 = k) keys in
      (mkTrading (trading_tier t) (lru_cap t)
         (map_account k (counter_snap_to_cap now) (trading_counter t))
         (fold_left (λ order key, promote key order) to_promote (access_order t)), ev)
  end.

(** One call on the trading tracker. *)
Inductive TradingOp :=
  | DoConsume (scope : Scope) (cost : f64) (now evicted_at warned_at : MonotonicInstant)
  | DoCredit (scope : Scope) (cost : f64) (now : MonotonicInstant)
  | DoChargeAccountWide (scope : Scope) (cost : f64) (now : MonotonicInstant)
  | DoSnapToCap (scope : Scope) (kraken_error : string) (now clock_now : MonotonicInstant).

Definition trading_op (warning_pct : f64) (op : TradingOp) (t : TradingTracker)
  : option TradingTracker :=
  match op with
  | DoConsume s c n e w =>
      '(_, t', _) ← trading_consume warning_pct s c n e w t; Some t'
  | DoCredit s c n => Some (trading_credit s c n t)
  | DoChargeAccountWide s c n => Some (charge_account_wide s c n t)
  | DoSnapToCap s err n cn => Some (trading_snap_to_cap s err n cn t).1
  end.

Fixpoint trading_run (warning_pct : f64) (ops : list TradingOp) (t : TradingTracker)
  : option TradingTracker :=
  match ops with
  | [] => Some t
  | op :: ops' => t' ← trading_op warning_pct op t; trading_run warning_pct ops' t'
  end.

End Trackers.

(** ** [cl_ord_id_index.rs]

    The [lru] crate's unbounded cache is its documented behaviour: entries from
    least to most recently used; [put] replaces and promotes, [get] promotes,
    [pop_lru] drops the least recently used. *)

Record IndexEntry := mkIndexEntry { ie_pair : Symbol; ie_sent_at : MonotonicInstant }.

Record ClOrdIdPairIndex := mkIndex {
  index_entries : list (string * IndexEntry);
  index_cap : N;
}.

Definition index_new (cap_ : N) : ClOrdIdPairIndex := mkIndex [] (N.max cap_ 1).

Definition without (id : string) (l : list (string * IndexEntry)) :=
  filter (λ e : string * IndexEntry, e.1 ≠ id) l.

Definition index_insert (id : string) (pair : Symbol) (sent_at : MonotonicInstant)
  (ix : ClOrdIdPairIndex) : ClOrdIdPairIndex :=
  let es := (without id (index_entries ix) ++ [(id, mkIndexEntry pair sent_at)])%list in
  mkIndex (if index_cap ix <? N.of_nat (List.length es) then tail es else es)
          (index_cap ix).

Definition lookup_and_promote (id : string) (ix : ClOrdIdPairIndex)
  : option IndexEntry * ClOrdIdPairIndex :=
  match List.find (λ e, bool_decide (e.1 = id)) (index_entries ix) with
  | Some (i, e) => (Some e, mkIndex (without id (index_entries ix) ++ [(i, e)])%list (index_cap ix))
  | None => (None, ix)
  end.

(** ** Access order *)

Lemma elem_of_remove_first_eq (key x : TradingKey) (l : list TradingKey) :
  NoDup l → x ∈ remove_first (λ y, bool_decide (y = key)) l ↔ x ∈ l ∧ x ≠ key.
Proof.
  induction 1 as [|y l Hy Hnd IH]; simpl; [set_solver|].
  case_bool_decide as Hd; [subst; set_solver|].
  rewrite !elem_of_cons, IH. naive_solver.
Qed.

Lemma remove_first_sublist (p : TradingKey → bool) (l : list TradingKey) :
  remove_first p l `sublist_of` l.
Proof.
  induction l as [|y l IH]; simpl; [done|].
  destruct (p y); [by constructor|by apply sublist_skip].
Qed.

Lemma remove_first_find (p : TradingKey → bool) (l : list TradingKey) (x : TradingKey) :
  NoDup l → List.find p l = Some x →
  x ∈ l ∧ p x = true ∧ ∀ y, y ∈ remove_first p l ↔ y ∈ l ∧ y ≠ x.
Proof.
  induction 1 as [|z l Hz Hnd IH]; simpl; [done|].
  destruct (p z) eqn:Hp; [intros [= <-]; set_solver|].
  intros Hf. destruct (IH Hf) as (Hin & Hpx & Hiff).
  split_and!; [set_solver|done|]. intros y. rewrite !elem_of_cons, Hiff.
  split; [intros [->|[? ?]]; set_solver|naive_solver].
Qed.

Lemma promote_NoDup (key : TradingKey) (l : list TradingKey) :
  NoDup l → NoDup (promote key l).
Proof.
  intros Hnd. unfold promote. apply NoDup_app. split_and!.
  - by eapply sublist_NoDup, remove_first_sublist.
  - intros x Hx%elem_of_remove_first_eq; [|done]. set_solver.
  - apply NoDup_singleton.
Qed.

Lemma elem_of_promote (key x : TradingKey) (l : list TradingKey) :
  NoDup l → x ∈ promote key l ↔ x = key ∨ x ∈ l.
Proof.
  intros Hnd. unfold promote. rewrite elem_of_app, elem_of_remove_first_eq by done.
  destruct (decide (x = key)); set_solver.
Qed.

Lemma promote_all (keys l : list TradingKey) :
  NoDup l →
  NoDup (fold_left (λ order key, promote key order) keys l) ∧
  ∀ x, x ∈ fold_left (λ order key, promote key order) keys l ↔ x ∈ keys ∨ x ∈ l.
Proof.
  revert l. induction keys as [|k keys IH]; intros l Hnd; simpl; [set_solver|].
  destruct (IH (promote k l) (promote_NoDup k l Hnd)) as [? Hiff].
  split; [done|]. intros x. rewrite Hiff, elem_of_promote by done. set_solver.
Qed.

(** ** The trading tracker's invariant *)

Definition trading_counter_ok (t : Tier) (c : RateLimitCounter) : Prop :=
  counter_wf c ∧ cap c = trading_cap t ∧ decay_per_sec c = trading_decay_per_sec t.

Definition trading_wf (t : TradingTracker) : Prop :=
  map_Forall (λ _, trading_counter_ok (trading_tier t)) (trading_counter t) ∧
  NoDup (access_order t) ∧
  (∀ key, key ∈ access_order t ↔ key ∈ dom (trading_counter t)) ∧
  1 ≤ lru_cap t.

Lemma trading_with_lru_cap_wf (tr : Tier) (n : N) : trading_wf (trading_with_lru_cap tr n).
Proof.
  split_and!; [done|by constructor| |simpl; lia].
  intros key. simpl. rewrite dom_empty. set_solver.
Qed.

Lemma fresh_counter_ok (tr : Tier) (now : MonotonicInstant) :
  trading_counter_ok tr (counter_new (trading_cap tr) (trading_decay_per_sec tr) now).
Proof.
  destruct (tier_caps_nonneg tr) as (_ & _ & ? & ?).
  split_and!; [by apply counter_new_wf|done|done].
Qed.

Lemma find_other (key : TradingKey) (l : list TradingKey) (x : TradingKey) :
  x ∈ l → x ≠ key → is_Some (List.find (λ y, bool_decide (y ≠ key)) l).
Proof.
  intros Hin Hne. destruct (List.find _ l) eqn:Hf; [by eexists|].
  apply list_elem_of_In in Hin.
  pose proof (List.find_none _ _ Hf x Hin) as Hx. by rewrite bool_decide_eq_false in Hx.
Qed.

Lemma touch_lru_spec (key : TradingKey) (now : MonotonicInstant) (t : TradingTracker)
  (k d : f64) :
  k = trading_cap (trading_tier t) → d = trading_decay_per_sec (trading_tier t) →
  trading_wf t →
  let '(evicted, t1) := touch_lru key k d now t in
  trading_wf t1 ∧ trading_tier t1 = trading_tier t ∧ lru_cap t1 = lru_cap t ∧
  trading_counter t1 !! key
    = Some (default (counter_new k d now) (trading_counter t !! key)) ∧
  (N.of_nat (size (trading_counter t)) ≤ lru_cap t →
   N.of_nat (size (trading_counter t1)) ≤ lru_cap t) ∧
  (∀ key', key' ≠ key →
     trading_counter t1 !! key' = trading_counter t !! key' ∨
     (evicted = Some (ScopePair key'.1 key'.2) ∧ trading_counter t1 !! key' = None)).
Proof.
  intros -> -> (Hok & Hnd & Hdom & Hlru). unfold touch_lru.
  pose proof (fresh_counter_ok (trading_tier t) now) as Hfresh.
  pose proof (promote_NoDup key _ Hnd) as Hnd'.
  destruct (trading_counter t !! key) as [c|] eqn:Hc.
  { split_and!; [|done|done|done|done|by auto].
    split_and!; [done|done| |done]. simpl. intros x. rewrite elem_of_promote, Hdom by done.
    split; [intros [->|?]; [by apply elem_of_dom_2 in Hc|done]|by auto]. }
  destruct (if _ <=? _ then _ else _) as [old|] eqn:Hfind.
  - destruct (_ <=? _) eqn:Hfull; [|done].
    destruct (remove_first_find _ _ _ Hnd' Hfind) as (Hin & Hne & Hrm).
    rewrite bool_decide_eq_true in Hne.
    apply elem_of_promote in Hin as [?|Hin]; [done| |done].
    apply Hdom in Hin as Hold. apply elem_of_dom in Hold as [co Hco].
    split_and!; [|done|done|by cbn; rewrite lookup_insert_eq| |].
    + split_and!; simpl; [| | |done].
      * apply map_Forall_insert_2; [done|]. by apply map_Forall_delete.
      * by eapply sublist_NoDup, remove_first_sublist.
      * intros x. rewrite Hrm, elem_of_promote, Hdom, dom_insert, dom_delete by done.
        set_solver.
    + simpl. rewrite map_size_insert_None, map_size_delete, Hco by
        by rewrite lookup_delete_ne.
      intros. enough (size (trading_counter t) ≠ 0%nat) by (simpl in *; lia).
      intros Hz%map_size_empty_inv. by rewrite Hz in Hco.
    + intros key' Hne'. simpl. rewrite lookup_insert_ne by done.
      destruct (decide (old = key')) as [->|]; [right|left]; [by rewrite lookup_delete_eq|].
      by rewrite lookup_delete_ne.
  - split_and!; [|done|done|by cbn; rewrite lookup_insert_eq| |].
    + split_and!; simpl; [by apply map_Forall_insert_2|done| |done].
      intros x. rewrite elem_of_promote, Hdom, dom_insert by done. set_solver.
    + simpl. intros Hsz. rewrite map_size_insert_None by done.
      destruct (N.leb_spec (lru_cap t) (N.of_nat (size (trading_counter t)))); [|lia].
      exfalso. assert (size (trading_counter t) ≠ 0%nat) as Hz by lia.
      apply map_size_ne_0_lookup in Hz as (x & ? & Hx).
      apply elem_of_dom_2 in Hx as Hx'. apply Hdom in Hx'.
      assert (x ≠ key) as Hxk by congruence.
      destruct (find_other key (promote key (access_order t)) x) as [? Hs];
        [apply elem_of_promote; auto|done|by rewrite Hs in Hfind].
    + intros. left. simpl. by rewrite lookup_insert_ne.
Qed.

(** ** One charge *)

(** What a charge of [cost] against [c] at [now] must do: admitted exactly when
    the decayed value plus the cost fits under the cap, and then recorded;
    otherwise only the decay is recorded and the caller is told a retry
    instant within a day. *)
Definition charge_contract (tracker : string) (scope : Scope) (cost : f64)
  (now : MonotonicInstant) (c : RateLimitCounter) (r : ConsumeResult)
  (c' : RateLimitCounter) : Prop :=
  counter_wf c' ∧ cap c' = cap c ∧ decay_per_sec c' = decay_per_sec c ∧
  match r with
  | inr _ => f64_le (f64_add (peek_current now c) cost) (cap c) = true ∧
             current c' = f64_add (peek_current now c) cost
  | inl e => f64_lt (cap c) (f64_add (peek_current now c) cost) = true ∧
             current c' = peek_current now c ∧
             ex_tracker e = tracker ∧ ex_scope e = scope ∧
             ex_current e = current c' ∧ ex_cap e = cap c ∧
             now ≤ ex_retry_at e ≤ now + from_secs 86400
  end.

Lemma should_emit_warning_same (now : MonotonicInstant) (pct : f64) (c : RateLimitCounter) :
  let c' := (should_emit_warning now pct c).2 in
  current c' = current c ∧ cap c' = cap c ∧ decay_per_sec c' = decay_per_sec c.
Proof. unfold should_emit_warning. repeat case_match; done. Qed.

Lemma charge_and_report_contract sha256 (tracker : string) (scope : Scope)
  (k pct cost : f64) (now warned_at : MonotonicInstant) (c : RateLimitCounter) :
  counter_wf c → nonneg cost → now ≤ duration_max →
  ∃ r c' evs,
    charge_and_report sha256 tracker scope k pct cost now warned_at c = Some (r, c', evs) ∧
    charge_contract tracker scope cost now c r c'.
Proof.
  intros Hwf Hcost Hnow. pose proof (charge_wf cost now c Hwf Hcost) as Hwf1.
  destruct (peek_current_wf now c Hwf) as [Hp _].
  destruct (f64_add_ge _ _ Hp Hcost) as (_ & Hn & _).
  pose proof Hwf as (_ & Hk & Hd & _).
  unfold charge_and_report. unfold charge in *.
  change (f64_gt ?a ?b) with (f64_lt b a) in *.
  destruct (f64_lt (cap c) (f64_add (peek_current now c) cost)) eqn:Hlt; cbn [snd] in Hwf1.
  - destruct (compute_retry_at_within (peek_current now c) (cap c) (decay_per_sec c) now)
      as (r & Hr & Hb); [done..|].
    cbn [current cap decay_per_sec set_current]. rewrite Hr. simpl.
    do 3 eexists; split; [done|]. split_and!; try done; apply Hb.
  - set (c1 := set_current _ _ c) in *.
    pose proof (should_emit_warning_wf now pct c1 Hwf1) as Hwf2.
    destruct (should_emit_warning_same now pct c1) as (Hc & Hk2 & Hd2).
    destruct (should_emit_warning now pct c1) as [w c2]. simpl in *.
    do 3 eexists; split; [done|]. split_and!; [done|done|done| |by rewrite Hc].
    apply f64_not_lt_le; [by apply nonneg_not_nan|done|done].
Qed.

(** ** Account-wide updates and histories *)

Lemma lookup_map_account (a : ApiKey) f m key :
  map_account a f m !! key
    = (λ c, if bool_decide (key.1 = a) then f c else c) <$> m !! key.
Proof. unfold map_account. rewrite map_lookup_imap. by destruct (m !! key). Qed.

Lemma dom_map_account (a : ApiKey) f m : dom (map_account a f m) = dom m.
Proof.
  apply set_eq. intros x. rewrite !elem_of_dom, lookup_map_account.
  by destruct (m !! x).
Qed.

Lemma map_account_ok (tr : Tier) (a : ApiKey) f m :
  (∀ c, trading_counter_ok tr c → trading_counter_ok tr (f c)) →
  map_Forall (λ _, trading_counter_ok tr) m →
  map_Forall (λ _, trading_counter_ok tr) (map_account a f m).
Proof.
  intros Hf Hm key c. rewrite lookup_map_account.
  destruct (m !! key) as [c0|] eqn:Hc; [|done]. intros [= <-].
  specialize (Hm _ _ Hc). case_bool_decide; auto.
Qed.

Definition op_ok (op : TradingOp) : Prop :=
  match op with
  | DoConsume _ c n _ _ => nonneg c ∧ n ≤ duration_max
  | DoCredit _ c _ | DoChargeAccountWide _ c _ => nonneg c
  | DoSnapToCap _ _ _ _ => True
  end.

(** Not the snap of a single pair. *)
Definition op_bounded (op : TradingOp) : bool :=
  match op with DoSnapToCap (ScopePair _ _) _ _ _ => false | _ => true end.

Lemma trading_wf_counters (t : TradingTracker) m order :
  trading_wf t →
  map_Forall (λ _, trading_counter_ok (trading_tier t)) m →
  NoDup order → (∀ x, x ∈ order ↔ x ∈ dom m) →
  trading_wf (mkTrading (trading_tier t) (lru_cap t) m order).
Proof. by intros (_ & _ & _ & ?) ? ? ?. Qed.

Lemma size_dom_eq (m m' : gmap TradingKey RateLimitCounter) :
  dom m = dom m' → size m = size m'.
Proof. intros H. by rewrite <-!size_dom, H. Qed.

Lemma credit_ok (tr : Tier) (cost : f64) (now : MonotonicInstant) (c : RateLimitCounter) :
  nonneg cost → trading_counter_ok tr c → trading_counter_ok tr (credit cost now c).
Proof. intros ? (? & ? & ?). split_and!; [by apply credit_wf|done|done]. Qed.

Lemma trading_credit_step scope cost now (t : TradingTracker) :
  nonneg cost → trading_wf t →
  trading_wf (trading_credit scope cost now t) ∧
  size (trading_counter (trading_credit scope cost now t)) = size (trading_counter t).
Proof.
  intros Hc Hwf. destruct scope as [k|k p]; [done|]. cbn.
  pose proof Hwf as (Hok & Hnd & Hdom & _).
  assert (dom (alter (credit cost now) (k, p) (trading_counter t)) = dom (trading_counter t))
    as Hd by apply dom_alter_L.
  split; [|by apply size_dom_eq].
  apply trading_wf_counters; [done| |done|by rewrite Hd].
  intros key c. destruct (decide (key = (k, p))) as [->|Hne].
  - rewrite lookup_alter_eq. destruct (trading_counter t !! (k, p)) as [c0|] eqn:Hc0; [|done].
    intros [= <-]. apply credit_ok; [done|]. exact (Hok _ _ Hc0).
  - rewrite lookup_alter_ne by done. apply Hok.
Qed.

Section Histories.
Variable sha256 : list ascii → list N.
Variable hash_order : list TradingKey → list TradingKey.
Hypothesis hash_order_perm : ∀ l, hash_order l ≡ₚ l.

Lemma trading_snap_step scope err now clk (t : TradingTracker) :
  trading_wf t →
  let t' := (trading_snap_to_cap sha256 hash_order scope err now clk t).1 in
  trading_wf t' ∧ trading_tier t' = trading_tier t ∧ lru_cap t' = lru_cap t ∧
  (op_bounded (DoSnapToCap scope err now clk) →
   size (trading_counter t') = size (trading_counter t)).
Proof using hash_order_perm.
  intros Hwf. pose proof Hwf as (Hok & Hnd & Hdom & _).
  destruct scope as [k|k p]; cbn.
  - set (ks := filter _ _).
    destruct (promote_all ks _ Hnd) as [Hnd' Hin].
    assert (∀ c, trading_counter_ok (trading_tier t) c →
      trading_counter_ok (trading_tier t) (counter_snap_to_cap now c)) as Hs.
    { intros c (? & ? & ?). split_and!; [by apply snap_wf|done|done]. }
    split_and!; [|done|done|intros _; by apply size_dom_eq, dom_map_account].
    apply trading_wf_counters; [done|by apply map_account_ok|done|].
    intros x. rewrite Hin, dom_map_account, Hdom. unfold ks.
    rewrite list_elem_of_filter, hash_order_perm, elem_of_elements. naive_solver.
  - split_and!; [|done|done|done].
    apply trading_wf_counters; [done| |by apply promote_NoDup|].
    + apply map_Forall_insert_2; [|done].
      assert (trading_counter_ok (trading_tier t) (default
        (counter_new (trading_cap (trading_tier t))
           (trading_decay_per_sec (trading_tier t)) now) (trading_counter t !! (k, p))))
        as (? & ? & ?).
      { destruct (trading_counter t !! (k, p)) eqn:Hc; [by apply Hok in Hc|].
        apply fresh_counter_ok. }
      split_and!; [by apply snap_wf|done|done].
    + intros x. rewrite elem_of_promote, Hdom, dom_insert by done. set_solver.
Qed.

Lemma trading_charge_step scope cost now (t : TradingTracker) :
  nonneg cost → trading_wf t →
  trading_wf (charge_account_wide scope cost now t) ∧
  size (trading_counter (charge_account_wide scope cost now t)) = size (trading_counter t).
Proof.
  intros Hc Hwf. pose proof Hwf as (Hok & Hnd & Hdom & _).
  destruct scope as [k|k p]; [|done]. cbn.
  split; [|by apply size_dom_eq, dom_map_account].
  apply trading_wf_counters; [done| |done|by rewrite dom_map_account].
  apply map_account_ok; [|done].
  intros c (? & ? & ?). split_and!; [by apply charge_saturating_wf|done|done].
Qed.

Lemma trading_consume_step (pct : f64) (k : ApiKey) (p : Symbol) (cost : f64)
  (now evicted_at warned_at : MonotonicInstant) (t : TradingTracker) :
  trading_wf t → nonneg cost → now ≤ duration_max →
  ∃ r t' evs,
    trading_consume sha256 pct (ScopePair k p) cost now evicted_at warned_at t
      = Some (r, t', evs) ∧
    trading_wf t' ∧ trading_tier t' = trading_tier t ∧ lru_cap t' = lru_cap t ∧
    (N.of_nat (size (trading_counter t)) ≤ lru_cap t →
     N.of_nat (size (trading_counter t')) ≤ lru_cap t') ∧
    (∃ c', trading_counter t' !! (k, p) = Some c' ∧
      charge_contract "trading" (ScopePair k p) cost now
        (default (counter_new (trading_cap (trading_tier t))
                   (trading_decay_per_sec (trading_tier t)) now)
                 (trading_counter t !! (k, p))) r c') ∧
    (∀ key', key' ≠ (k, p) →
       trading_counter t' !! key' = trading_counter t !! key' ∨
       (trading_counter t' !! key' = None ∧
        publish_eviction sha256 evicted_at (ScopePair key'.1 key'.2) ∈ evs)).
Proof.
  clear hash_order_perm hash_order.
  intros Hwf Hcost Hnow.
  pose proof (touch_lru_spec (k, p) now t _ _ eq_refl eq_refl Hwf) as Htouch.
  unfold trading_consume.
  destruct (touch_lru (k, p) _ _ now t) as [ev t1].
  destruct Htouch as (Hwf1 & Ht & Hl & Hc & Hsz & Hoth). rewrite Hc. cbn [mbind option_bind].
  destruct Hwf1 as (Hok1 & Hnd1 & Hdom1 & Hlru1).
  pose proof (Hok1 _ _ Hc) as (Hcwf & Hccap & Hcd).
  destruct (charge_and_report_contract sha256 "trading" (ScopePair k p)
    (trading_cap (trading_tier t)) pct cost now warned_at _ Hcwf Hcost Hnow)
    as (r & c' & evs & -> & Hcon). cbn [mbind option_bind].
  do 3 eexists; split; [done|]. split; [|split; [done|split; [done|split_and!]]].
  - split_and!; [|done| |done]; cbn.
    + apply map_Forall_insert_2; [|done]. rewrite Ht.
      destruct Hcon as (? & Hk' & Hd' & _). rewrite Ht in *.
      split_and!; [done|congruence|congruence].
    + intros x. rewrite Hdom1, dom_insert. apply elem_of_dom_2 in Hc. set_solver.
  - cbn. rewrite Hl. intros Hle. rewrite map_size_insert_Some by by eexists. auto.
  - exists c'. split; [by cbn; rewrite lookup_insert_eq|done].
  - intros key' Hne. cbn. rewrite lookup_insert_ne by done.
    destruct (Hoth key' Hne) as [?|[-> ?]]; [by left|right].
    split; [done|]. apply elem_of_cons. by left.
Qed.

Lemma trading_op_step (pct : f64) (op : TradingOp) (t : TradingTracker) :
  op_ok op → trading_wf t →
  ∃ t', trading_op sha256 hash_order pct op t = Some t' ∧ trading_wf t' ∧
    trading_tier t' = trading_tier t ∧ lru_cap t' = lru_cap t ∧
    (op_bounded op → N.of_nat (size (trading_counter t)) ≤ lru_cap t →
     N.of_nat (size (trading_counter t')) ≤ lru_cap t').
Proof using hash_order_perm.
  intros Hop Hwf. destruct op as [s c n e w|s c n|s c n|s err n clk]; simpl in Hop.
  - destruct s as [k|k p]; [by exists t|].
    destruct (trading_consume_step pct k p c n e w t) as (r & t' & evs & Hc & ? & ? & ? & ? & _);
      [tauto..|].
    exists t'. unfold trading_op. rewrite Hc. by split_and!.
  - destruct (trading_credit_step s c n t Hop Hwf) as [? Hsz].
    eexists; split; [done|]. split_and!; [done|by destruct s|by destruct s|].
    rewrite Hsz. by destruct s.
  - destruct (trading_charge_step s c n t Hop Hwf) as [? Hsz].
    eexists; split; [done|]. split_and!; [done|by destruct s|by destruct s|].
    rewrite Hsz. by destruct s.
  - destruct (trading_snap_step s err n clk t Hwf) as (? & ? & Hl & Hsz).
    eexists; split; [done|]. split_and!; [done|done|done|].
    intros Hb. by rewrite Hsz, Hl.
Qed.

Lemma trading_run_step (pct : f64) (ops : list TradingOp) (t : TradingTracker) :
  Forall op_ok ops → trading_wf t →
  ∃ t', trading_run sha256 hash_order pct ops t = Some t' ∧ trading_wf t' ∧
    trading_tier t' = trading_tier t ∧ lru_cap t' = lru_cap t ∧
    (Forall (λ op, op_bounded op) ops →
     N.of_nat (size (trading_counter t)) ≤ lru_cap t →
     N.of_nat (size (trading_counter t')) ≤ lru_cap t').
Proof using hash_order_perm.
  revert t. induction ops as [|op ops IH]; intros t Hops Hwf; [by exists t|].
  apply Forall_cons in Hops as [Hop Hops].
  destruct (trading_op_step pct op t Hop Hwf) as (t1 & Ht1 & Hwf1 & Htr & Hl & Hb).
  destruct (IH t1 Hops Hwf1) as (t2 & Ht2 & ? & ? & Hl2 & Hb2).
  exists t2. simpl. rewrite Ht1. simpl. split_and!; [done|done|congruence|congruence|].
  intros [Hb1 Hbs]%Forall_cons Hsz. apply Hb2; [done|]. rewrite Hl. rewrite <-Hl. auto.
Qed.

End Histories.

(** ** API tracker *)

Definition api_counter_ok (t : Tier) (c : RateLimitCounter) : Prop :=
  counter_wf c ∧ cap c = api_cap t ∧ decay_per_sec c = api_decay_per_sec t.

Definition api_wf (t : ApiTracker) : Prop :=
  map_Forall (λ _, api_counter_ok (api_tier t)) (api_counter t).

Lemma api_counter_or_fresh_ok (t : ApiTracker) (k : ApiKey) (now : MonotonicInstant) :
  api_wf t →
  api_counter_ok (api_tier t)
    (default (counter_new (api_cap (api_tier t)) (api_decay_per_sec (api_tier t)) now)
             (api_counter t !! k)).
Proof.
  intros Hwf. destruct (api_counter t !! k) as [c|] eqn:Hc; [exact (Hwf _ _ Hc)|].
  destruct (tier_caps_nonneg (api_tier t)) as (? & ? & _).
  split_and!; [by apply counter_new_wf|done|done].
Qed.

Lemma api_snap_wf sha256 scope err now clk (t : ApiTracker) :
  api_wf t → api_wf (api_snap_to_cap sha256 scope err now clk t).1.
Proof.
  intros Hwf. destruct scope as [k|k p]; [|done]. cbn.
  apply map_Forall_insert_2; [|done].
  destruct (api_counter_or_fresh_ok t k now Hwf) as (? & ? & ?).
  split_and!; [by apply snap_wf|done|done].
Qed.

(** ** The order-id index *)

Definition index_wf (ix : ClOrdIdPairIndex) : Prop :=
  NoDup (index_entries ix).*1 ∧ 1 ≤ index_cap ix ∧
  N.of_nat (List.length (index_entries ix)) ≤ index_cap ix.

Lemma without_sublist (id : string) (l : list (string * IndexEntry)) :
  without id l `sublist_of` l.
Proof. apply sublist_filter. Qed.

Lemma without_NoDup (id : string) (l : list (string * IndexEntry)) :
  NoDup l.*1 → NoDup (without id l).*1.
Proof. intros H. by eapply sublist_NoDup, fmap_sublist, without_sublist. Qed.

Lemma elem_of_without (id : string) (e : string * IndexEntry) (l : list (string * IndexEntry)) :
  e ∈ without id l ↔ e ∈ l ∧ e.1 ≠ id.
Proof. unfold without. rewrite list_elem_of_filter. naive_solver. Qed.

Lemma without_snoc_NoDup (id : string) (e : IndexEntry) (l : list (string * IndexEntry)) :
  NoDup l.*1 → NoDup (without id l ++ [(id, e)])%list.*1.
Proof.
  intros H. rewrite fmap_app. apply NoDup_app. split_and!.
  - by apply without_NoDup.
  - intros x Hx. apply list_elem_of_fmap in Hx as (y & -> & Hy).
    apply elem_of_without in Hy as [_ Hy]. set_solver.
  - apply NoDup_singleton.
Qed.

Lemma without_length (id : string) (l : list (string * IndexEntry)) :
  (List.length (without id l) ≤ List.length l)%nat ∧
  (id ∈ l.*1 → List.length (without id l) < List.length l)%nat.
Proof.
  induction l as [|[i e] l [IH1 IH2]]; simpl; [set_solver|].
  unfold without in *. rewrite filter_cons. simpl.
  case_decide; simpl; [split; [lia|]|split; [lia|lia]].
  intros [?|Hin]%elem_of_cons; [congruence|]. specialize (IH2 Hin). lia.
Qed.

(** What a lookup would return. *)
Definition index_find (id : string) (ix : ClOrdIdPairIndex) : option IndexEntry :=
  (lookup_and_promote id ix).1.

Lemma find_entry (id : string) (e : IndexEntry) (l : list (string * IndexEntry)) :
  NoDup l.*1 →
  List.find (λ x : string * IndexEntry, bool_decide (x.1 = id)) l = Some (id, e)
    ↔ (id, e) ∈ l.
Proof.
  induction l as [|[i x] l IH]; simpl; [set_solver|].
  intros [Hi Hnd]%NoDup_cons. case_bool_decide as Hid; simpl in *.
  - subst. split; [intros [= ->]; set_solver|].
    intros [[= ->]|Hin]%elem_of_cons; [done|].
    exfalso. apply Hi, list_elem_of_fmap. by exists (id, e).
  - rewrite IH by done. split; [set_solver|]. by intros [[= -> ->]|?]%elem_of_cons.
Qed.

Lemma index_find_Some (id : string) (e : IndexEntry) (ix : ClOrdIdPairIndex) :
  NoDup (index_entries ix).*1 →
  index_find id ix = Some e ↔ (id, e) ∈ index_entries ix.
Proof.
  intros Hnd. unfold index_find, lookup_and_promote.
  rewrite <-find_entry by done.
  destruct (List.find _ _) as [[i x]|] eqn:Hf; simpl; [|done].
  apply List.find_some in Hf as [_ Hi]. simpl in Hi.
  apply bool_decide_eq_true in Hi. naive_solver.
Qed.

Lemma index_insert_wf (id : string) (p : Symbol) (at_ : MonotonicInstant)
  (ix : ClOrdIdPairIndex) : index_wf ix → index_wf (index_insert id p at_ ix).
Proof.
  intros (Hnd & Hcap & Hlen). unfold index_insert, index_wf. cbn [index_entries index_cap].
  pose proof (without_snoc_NoDup id (mkIndexEntry p at_) _ Hnd) as Hnd'.
  destruct (without_length id (index_entries ix)) as [Hw _].
  set (es := (without id (index_entries ix) ++ [_])%list) in *.
  assert (List.length es = S (List.length (without id (index_entries ix)))) as Hes.
  { unfold es. rewrite length_app. simpl. lia. }
  destruct (N.ltb_spec (index_cap ix) (N.of_nat (List.length es))).
  - destruct es as [|e es']; [done|]. simpl in *. apply NoDup_cons in Hnd' as [_ ?].
    split_and!; [done|done|lia].
  - split_and!; [done|done|lia].
Qed.

Lemma lookup_and_promote_wf (id : string) (ix : ClOrdIdPairIndex) :
  index_wf ix → index_wf (lookup_and_promote id ix).2.
Proof.
  intros (Hnd & Hcap & Hlen). unfold lookup_and_promote.
  destruct (List.find _ _) as [[i e]|] eqn:Hf; [|done].
  apply List.find_some in Hf as [Hin Hi]. simpl in Hi.
  apply bool_decide_eq_true in Hi as ->. apply list_elem_of_In in Hin.
  split_and!; cbn [index_entries index_cap snd]; [by apply without_snoc_NoDup|done|].
  destruct (without_length id (index_entries ix)) as [_ Hw].
  rewrite length_app. simpl. specialize (Hw ltac:(apply list_elem_of_fmap; by exists (id, e))).
  lia.
Qed.

(** ** The properties *)

(** a trading charge never panics; it is admitted exactly when the decayed
    usage plus the cost stays within the tier's cap, a refusal records no
    charge and names a retry instant at most a day away, the tracker keeps its
    invariant and its LRU bound, and the counters of other scopes are untouched
    or evicted with an event. *)
Theorem trading_consume_accounting sha256 (pct : f64) (k : ApiKey) (p : Symbol)
  (cost : f64) (now evicted_at warned_at : MonotonicInstant) (t : TradingTracker) :
  trading_wf t → nonneg cost → now ≤ duration_max →
  ∃ r t' evs,
    trading_consume sha256 pct (ScopePair k p) cost now evicted_at warned_at t
      = Some (r, t', evs) ∧
    trading_wf t' ∧ trading_tier t' = trading_tier t ∧ lru_cap t' = lru_cap t ∧
    (N.of_nat (size (trading_counter t)) ≤ lru_cap t →
     N.of_nat (size (trading_counter t')) ≤ lru_cap t') ∧
    (∃ c', trading_counter t' !! (k, p) = Some c' ∧
      charge_contract "trading" (ScopePair k p) cost now
        (default (counter_new (trading_cap (trading_tier t))
                   (trading_decay_per_sec (trading_tier t)) now)
                 (trading_counter t !! (k, p))) r c') ∧
    (∀ key', key' ≠ (k, p) →
       trading_counter t' !! key' = trading_counter t !! key' ∨
       (trading_counter t' !! key' = None ∧
        publish_eviction sha256 evicted_at (ScopePair key'.1 key'.2) ∈ evs)).
Proof. apply trading_consume_step. Qed.

Lemma trading_consume_accounting_witness :
  ∃ r t' evs,
    trading_consume (λ _, []) f64_one (ScopePair "k" "BTC/USD") (f64_of_Z 61) 7 7 7
      (trading_with_lru_cap Starter 2) = Some (inl r, t', evs) ∧
    7 ≤ ex_retry_at r ≤ 7 + from_secs 86400.
Proof.
  destruct (trading_consume_accounting (λ _, []) f64_one "k" "BTC/USD" (f64_of_Z 61) 7 7 7
    (trading_with_lru_cap Starter 2)) as (r & t' & evs & He & _ & _ & _ & _ & (c' & _ & Hc) & _).
  - apply trading_with_lru_cap_wf.
  - vm_compute. done.
  - vm_compute. discriminate.
  - destruct r as [r|u].
    + exists r, t', evs. split; [exact He|]. apply Hc.
    + destruct Hc as (_ & _ & _ & H & _). vm_compute in H. discriminate H.
Defined.

(** Whatever the calls made on a fresh trading tracker, none panics, every
    counter stays between zero and the tier's cap with the access order listing
    exactly the tracked scopes, and without single-pair snaps the tracker never
    holds more scopes than its LRU capacity. *)
Theorem trading_history_safe sha256 (hash_order : list TradingKey → list TradingKey)
  (pct : f64) (tr : Tier) (n : N) (ops : list TradingOp) :
  (∀ l, hash_order l ≡ₚ l) → Forall op_ok ops →
  ∃ t, trading_run sha256 hash_order pct ops (trading_with_lru_cap tr n) = Some t ∧
    trading_wf t ∧
    (Forall (λ op, op_bounded op) ops →
     N.of_nat (size (trading_counter t)) ≤ N.max n 1).
Proof.
  intros Hperm Hops.
  destruct (trading_run_step sha256 hash_order Hperm pct ops _ Hops
    (trading_with_lru_cap_wf tr n)) as (t & Hrun & Hwf & _ & Hl & Hb).
  exists t. split_and!; [done|done|]. intros Hbs. rewrite Hl in Hb.
  apply Hb; [done|]. unfold trading_with_lru_cap. cbn [trading_counter lru_cap].
  rewrite map_size_empty. lia.
Qed.

Lemma trading_history_safe_witness :
  ∃ t, trading_run (λ _, []) (λ l, l) f64_one
         [DoConsume (ScopePair "k" "BTC/USD") f64_one 0 0 0;
          DoConsume (ScopePair "k" "ETH/USD") f64_one 1 1 1;
          DoChargeAccountWide (ScopeApiKey "k") f64_one 2;
          DoSnapToCap (ScopeApiKey "k") "e" 3 3]
         (trading_with_lru_cap Starter 1) = Some t ∧
       N.of_nat (size (trading_counter t)) ≤ 1.
Proof.
  destruct (trading_history_safe (λ _, []) (λ l, l) f64_one Starter 1
    [DoConsume (ScopePair "k" "BTC/USD") f64_one 0 0 0;
     DoConsume (ScopePair "k" "ETH/USD") f64_one 1 1 1;
     DoChargeAccountWide (ScopeApiKey "k") f64_one 2;
     DoSnapToCap (ScopeApiKey "k") "e" 3 3]) as (t & Ht & _ & Hb).
  - done.
  - repeat constructor; vm_compute; done.
  - exists t. split; [exact Ht|]. apply Hb. repeat constructor.
Defined.

(** a single-pair snap inserts a missing scope without evicting, so it
    takes a full tracker over its LRU capacity, and later charges never bring
    it back. *)
Theorem trading_snap_pair_exceeds_lru_cap :
  ∃ t, trading_run (λ _, []) (λ l, l) f64_one
         [DoConsume (ScopePair "k" "BTC/USD") f64_one 0 0 0;
          DoSnapToCap (ScopePair "k" "ETH/USD") "EOrder:Rate limit exceeded" 1 1;
          DoConsume (ScopePair "k" "SOL/USD") f64_one 2 2 2]
         (trading_with_lru_cap Starter 1) = Some t ∧
       lru_cap t < N.of_nat (size (trading_counter t)).
Proof. eexists. split; [vm_compute; reflexivity|by vm_compute]. Qed.

(** a non-trading charge never panics, follows the charge contract for the
    tier's cap and decay, keeps every counter within its bounds and touches no
    other key; the wrong kind of scope is refused without any effect. *)
Theorem api_consume_accounting sha256 (pct : f64) (scope : Scope) (cost : f64)
  (now warned_at : MonotonicInstant) (t : ApiTracker) :
  api_wf t → nonneg cost → now ≤ duration_max →
  ∃ r t' evs,
    api_consume sha256 pct scope cost now warned_at t = Some (r, t', evs) ∧ api_wf t' ∧
    match scope with
    | ScopeApiKey k =>
        (∃ c', api_counter t' !! k = Some c' ∧
          charge_contract "api" scope cost now
            (default (counter_new (api_cap (api_tier t)) (api_decay_per_sec (api_tier t)) now)
                     (api_counter t !! k)) r c') ∧
        ∀ k', k' ≠ k → api_counter t' !! k' = api_counter t !! k'
    | ScopePair _ _ => t' = t ∧ evs = [] ∧ ∃ e, r = inl e ∧ ex_retry_at e = now
    end.
Proof.
  intros Hwf Hcost Hnow. destruct scope as [k|k p].
  2: { do 3 eexists; split; [done|]. split_and!; [done|done|done|by eexists]. }
  destruct (api_counter_or_fresh_ok t k now Hwf) as (Hc & Hk & Hd).
  destruct (charge_and_report_contract sha256 "api" (ScopeApiKey k)
    (api_cap (api_tier t)) pct cost now warned_at _ Hc Hcost Hnow)
    as (r & c' & evs & Hr & Hcon).
  unfold api_consume. rewrite Hr. cbn [mbind option_bind].
  do 3 eexists; split; [done|]. split; [|split].
  - apply map_Forall_insert_2; [|done].
    destruct Hcon as (? & Hk' & Hd' & _). split_and!; [done|by rewrite Hk', Hk|by rewrite Hd', Hd].
  - exists c'. split; [by cbn; rewrite lookup_insert_eq|done].
  - intros k' Hne. cbn. by rewrite lookup_insert_ne.
Qed.

Lemma api_consume_accounting_witness :
  ∃ r t' evs,
    api_consume (λ _, []) f64_one (ScopeApiKey "k") (f64_of_Z 3) 7 7 (api_new Pro)
      = Some (r, t', evs) ∧ api_wf t'.
Proof.
  destruct (api_consume_accounting (λ _, []) f64_one (ScopeApiKey "k") (f64_of_Z 3) 7 7
    (api_new Pro)) as (r & t' & evs & He & Hwf & _).
  - intros ? ? H. discriminate H.
  - vm_compute. done.
  - vm_compute. discriminate.
  - exists r, t', evs. split; [exact He|exact Hwf].
Defined.

(** What an insert does to the list behind the index: it forgets the id's old entry,
    appends the new one, and drops the head when that overflows. *)
Lemma index_insert_entries id p at_ ix :
  index_wf ix →
  let e := mkIndexEntry p at_ in
  let es := (without id (index_entries ix) ++ [(id, e)])%list in
  NoDup es.*1 ∧
  (∀ id' x, (id', x) ∈ es ↔ (id', x) ∈ index_entries ix ∧ id' ≠ id ∨ (id', x) = (id, e)) ∧
  (index_entries (index_insert id p at_ ix) = es ∨
   ∃ i0 x0 rest, index_entries ix = (i0, x0) :: rest ∧ i0 ≠ id ∧
     index_find id ix = None ∧
     N.of_nat (List.length (index_entries ix)) = index_cap ix ∧
     es = (i0, x0) :: index_entries (index_insert id p at_ ix)).
Proof.
  intros Hwf e es. pose proof Hwf as (Hnd & Hcap & Hlen).
  assert (NoDup es.*1) as Hndes by by apply without_snoc_NoDup.
  split_and!; [done| |].
  { intros id' x. unfold es. rewrite elem_of_app, elem_of_without. set_solver. }
  destruct (without_length id (index_entries ix)) as [Hw1 Hw2].
  assert (index_entries (index_insert id p at_ ix) =
          if index_cap ix <? N.of_nat (List.length es) then tail es else es) as -> by done.
  assert (List.length es = S (List.length (without id (index_entries ix)))) as Hes.
  { unfold es. rewrite length_app. simpl. lia. }
  destruct (N.ltb_spec (index_cap ix) (N.of_nat (List.length es))) as [Hfull|]; [right|by left].
  assert (id ∉ (index_entries ix).*1) as Hnot by (intros Hi; apply Hw2 in Hi; lia).
  destruct (index_entries ix) as [|[i0 x0] rest] eqn:Hix; [simpl in *; lia|].
  assert (i0 ≠ id) as Hi0 by (intros ->; apply Hnot; by left).
  exists i0, x0, rest. split_and!; [done|done| |simpl in *; lia|].
  - destruct (index_find id ix) as [x|] eqn:Hf; [|done]. exfalso. apply Hnot.
    apply index_find_Some in Hf; [|by rewrite Hix]. rewrite Hix in Hf.
    apply list_elem_of_fmap. by exists (id, x).
  - unfold es, without. rewrite filter_cons. by rewrite decide_True.
Qed.

(** after an insert the order id maps to the inserted pair and send
    instant, the index never exceeds its capacity, and every other id keeps its
    entry except, when the index was full and the id is new, the least recently
    used one. *)
Theorem index_insert_lookup (id : string) (p : Symbol) (at_ : MonotonicInstant)
  (ix : ClOrdIdPairIndex) :
  index_wf ix →
  let ix' := index_insert id p at_ ix in
  index_wf ix' ∧ index_find id ix' = Some (mkIndexEntry p at_) ∧
  (∀ id', id' ≠ id →
     index_find id' ix' = index_find id' ix ∨
     (index_find id' ix' = None ∧ index_find id ix = None ∧
      N.of_nat (List.length (index_entries ix)) = index_cap ix ∧
      head (index_entries ix).*1 = Some id')).
Proof.
  intros Hwf ix'. pose proof (index_insert_wf id p at_ ix Hwf) as Hwf'.
  pose proof Hwf as (Hnd & _). pose proof Hwf' as (Hnd' & _). fold ix' in Hwf', Hnd'.
  destruct (index_insert_entries id p at_ ix Hwf)
    as (Hndes & Hin & [Hent|(i0 & x0 & rest & Hix & Hi0 & Hnone & Hlen & Hes)]);
    fold ix' in Hent || fold ix' in Hes; (split; [done|]); split.
  - apply index_find_Some; [done|]. rewrite Hent. apply Hin. by right.
  - intros id' Hne. left. apply option_eq. intros x.
    rewrite !index_find_Some, Hent, Hin by done. naive_solver.
  - apply index_find_Some; [done|].
    assert ((id, mkIndexEntry p at_) ∈ (i0, x0) :: index_entries ix') as Hi
      by (rewrite <-Hes; apply Hin; by right).
    set_solver.
  - intros id' Hne. rewrite Hes in Hndes, Hin. destruct (decide (id' = i0)) as [->|Hne0].
    + right. rewrite Hix. split_and!; [|done|by rewrite <-Hix|done].
      destruct (index_find i0 ix') as [x|] eqn:Hf; [|done].
      apply index_find_Some in Hf; [|done]. exfalso.
      apply NoDup_cons in Hndes as [Hn _]. apply Hn, list_elem_of_fmap. by exists (i0, x).
    + left. apply option_eq. intros x. rewrite !index_find_Some by done.
      specialize (Hin id' x). set_solver.
Qed.

Lemma index_insert_lookup_witness :
  index_find "b" (index_insert "b" "ETH/USD" 5
    (index_insert "a" "BTC/USD" 3 (index_new 1))) = Some (mkIndexEntry "ETH/USD" 5).
Proof.
  apply (index_insert_lookup "b" "ETH/USD" 5 (index_insert "a" "BTC/USD" 3 (index_new 1))).
  apply index_insert_wf. split; [constructor|split; vm_compute; discriminate].
Defined.
