(* ===== verification/RateBudget.v ===== *)
(** * RateBudget: the sliding-window budget of connection attempts

    [rust/src/conn/rate_budget.rs].  The budget is shared by the connections to
    one host and consulted before every connection attempt. *)

From Stdlib Require Import Sorted.
From S2P Require Import Prelude F64 Types Events.
Local Open Scope N_scope.

Record ConnectionRateThrottled := mkThrottled {
  attempts_used : N;
  th_budget : N;
  throttle_until_monotonic : MonotonicInstant;
}.

(** [attempts] is the deque, oldest first. *)
Record ConnectionRateBudget := mkBudget {
  attempts : list MonotonicInstant;
  window : Duration;
  budget : N;
}.

Definition with_knobs (budget : N) (window : Duration) : ConnectionRateBudget :=
  mkBudget [] window budget.

(** The [while let] loop popping the front. *)
Fixpoint drop_while_before (cutoff : MonotonicInstant) (l : list MonotonicInstant)
  : list MonotonicInstant :=
  match l with
  | [] => []
  | front :: rest =>
      if front <? cutoff then drop_while_before cutoff rest else front :: rest
  end.

Definition prune (now : MonotonicInstant) (b : ConnectionRateBudget)
  : ConnectionRateBudget :=
  let cutoff := now - window b in
  mkBudget (drop_while_before cutoff (attempts b)) (window b) (budget b).

(** [len() as u32] *)
Definition attempts_len (b : ConnectionRateBudget) : N :=
  N.of_nat (length (attempts b)) mod (u32_max + 1).

Definition try_consume (now : MonotonicInstant) (b : ConnectionRateBudget)
  : (ConnectionRateThrottled + unit) * ConnectionRateBudget :=
  let b := prune now b in
  match (if budget b <=? attempts_len b then head (attempts b) else None) with
  | Some oldest =>
      (inl (mkThrottled (attempts_len b) (budget b) (oldest + window b)), b)
  | None =>
      (inr tt, mkBudget (attempts b ++ [now]) (window b) (budget b))
  end.

Definition window_seconds (b : ConnectionRateBudget) : N :=
  (window b / nanos_per_sec) mod (u32_max + 1).

(** ** A run of attempts

    [granted b ts] are the instants of [ts] at which an attempt was granted. *)
Fixpoint granted (b : ConnectionRateBudget) (ts : list MonotonicInstant)
  : list MonotonicInstant :=
  match ts with
  | [] => []
  | t :: ts =>
      match try_consume t b with
      | (inr _, b') => t :: granted b' ts
      | (inl _, b') => granted b' ts
      end
  end.

(** How many instants of [l] lie in the closed window ending at [t]. *)
Definition in_window (w : Duration) (t : MonotonicInstant) (l : list MonotonicInstant)
  : nat := length (filter (λ g, t - w ≤ g ∧ g ≤ t) l).

(** ** Lemmas *)

(** The deque is in time order, nothing in it lies in the future, and it never
    holds more than the budget. *)
Definition budget_wf (now : MonotonicInstant) (b : ConnectionRateBudget) : Prop :=
  StronglySorted N.le (attempts b) ∧ Forall (λ a, a ≤ now) (attempts b) ∧
  1 ≤ budget b ≤ u32_max ∧ N.of_nat (length (attempts b)) ≤ budget b.

Lemma drop_while_before_suffix (c : MonotonicInstant) (l : list MonotonicInstant) :
  drop_while_before c l `suffix_of` l.
Proof.
  induction l as [|a l IH]; simpl; [done|].
  destruct (a <? c); [by apply suffix_cons_r|done].
Qed.

Lemma filter_all_id {A} (P : A → Prop) `{∀ x, Decision (P x)} (l : list A) :
  Forall P l → filter P l = l.
Proof.
  induction 1 as [|a l Ha Hl IH]; [done|]. rewrite filter_cons, decide_True by done.
  by rewrite IH.
Qed.

Lemma drop_while_before_filter (c : MonotonicInstant) (l : list MonotonicInstant) :
  StronglySorted N.le l → drop_while_before c l = filter (λ a, c ≤ a) l.
Proof.
  induction 1 as [|a l Hs IH Hall]; [done|]. simpl. rewrite filter_cons.
  destruct (N.ltb_spec a c); [by rewrite decide_False by lia|].
  rewrite decide_True by lia. f_equal. symmetry. apply filter_all_id.
  eapply Forall_impl; [exact Hall|]. simpl. lia.
Qed.

Lemma StronglySorted_snoc (l : list N) (x : N) :
  StronglySorted N.le l → Forall (λ a, a ≤ x) l → StronglySorted N.le (l ++ [x]).
Proof.
  induction 1 as [|a l Hs IH Hall]; simpl; [repeat constructor|].
  intros [? ?]%Forall_cons. constructor; [auto|].
  apply Forall_app. split; [done|]. by repeat constructor.
Qed.

Lemma attempts_len_exact (now : MonotonicInstant) (b : ConnectionRateBudget) :
  budget_wf now b → attempts_len b = N.of_nat (length (attempts b)).
Proof. intros (_ & _ & ? & ?). unfold attempts_len. apply N.mod_small. lia. Qed.

Lemma prune_wf (t now : MonotonicInstant) (b : ConnectionRateBudget) :
  budget_wf t b → t ≤ now → budget_wf now (prune now b).
Proof.
  intros (Hs & Hf & Hb & Hl) Ht. unfold budget_wf, prune. cbn.
  pose proof (drop_while_before_filter (now - window b) _ Hs) as Heq.
  rewrite Heq. split_and!; [by apply StronglySorted_filter| |lia|lia|].
  - apply Forall_filter_weaken. eapply Forall_impl; [exact Hf|]. simpl. lia.
  - pose proof (length_filter (λ a, now - window b ≤ a) (attempts b)). lia.
Qed.

Lemma try_consume_wf (t now : MonotonicInstant) (b : ConnectionRateBudget) :
  budget_wf t b → t ≤ now → budget_wf now (try_consume now b).2.
Proof.
  intros Hwf Ht. pose proof (prune_wf t now b Hwf Ht) as Hp.
  unfold try_consume. rewrite (attempts_len_exact now) by done.
  destruct (N.leb_spec (budget (prune now b)) (N.of_nat (length (attempts (prune now b)))))
    as [Hfull|Hroom]; [|destruct Hp as (Hs & Hf & Hb & Hl)].
  - destruct (head (attempts (prune now b))) eqn:Hh; [done|].
    destruct Hp as (_ & _ & ? & _), (attempts (prune now b)); simpl in *; [lia|done].
  - unfold budget_wf. cbn [attempts budget snd]. rewrite length_app.
    change (length [now]) with 1%nat.
    split_and!; [by apply StronglySorted_snoc| |apply Hb|apply Hb|lia].
    apply Forall_app. split; [done|]. apply Forall_singleton. lia.
Qed.

Lemma try_consume_config (now : MonotonicInstant) (b : ConnectionRateBudget) :
  window (try_consume now b).2 = window b ∧ budget (try_consume now b).2 = budget b.
Proof. unfold try_consume. by repeat case_match. Qed.

Lemma length_filter_mono {A} (P Q : A → Prop) `{∀ x, Decision (P x)}
  `{∀ x, Decision (Q x)} (l : list A) :
  (∀ x, P x → Q x) → (length (filter P l) ≤ length (filter Q l))%nat.
Proof.
  intros HPQ. induction l as [|a l IH]; [done|]. rewrite !filter_cons.
  repeat case_decide; simpl; [lia|naive_solver|lia|lia].
Qed.

Lemma in_window_snoc (w : Duration) (t g : MonotonicInstant) (l : list MonotonicInstant) :
  in_window w t (l ++ [g])
    = (in_window w t l + (if decide (t - w ≤ g ∧ g ≤ t)%N then 1 else 0))%nat.
Proof.
  unfold in_window. rewrite filter_app, length_app. f_equal.
  rewrite filter_cons. by case_decide.
Qed.

(** [H] is every grant so far, [t] the last instant: the deque is what pruning
    keeps of [H], and no window of [H] is over budget. *)
Definition history_ok (H : list MonotonicInstant) (t : MonotonicInstant)
  (b : ConnectionRateBudget) : Prop :=
  budget_wf t b ∧
  (∃ c, c ≤ t - window b ∧ attempts b = filter (λ a, c ≤ a) H) ∧
  ∀ u, (N.of_nat (in_window (window b) u H) ≤ budget b).

Lemma prune_history (H : list MonotonicInstant) (t now : MonotonicInstant)
  (b : ConnectionRateBudget) :
  history_ok H t b → t ≤ now →
  attempts (prune now b) = filter (λ a, now - window b ≤ a) H.
Proof.
  intros ((Hs & _) & (c & Hc & Ha) & _) Ht. cbn.
  rewrite drop_while_before_filter, Ha, list_filter_filter by (by rewrite <-?Ha).
  apply list_filter_iff. intros a. lia.
Qed.

Lemma history_ok_step (H : list MonotonicInstant) (t now : MonotonicInstant)
  (b : ConnectionRateBudget) :
  history_ok H t b → t ≤ now →
  history_ok (match (try_consume now b).1 with inl _ => H | inr _ => H ++ [now] end) now (try_consume now b).2.
Proof.
  intros Hok Ht. pose proof (prune_history H t now b Hok Ht) as Hpr.
  destruct Hok as (Hwf & _ & Hall).
  pose proof (try_consume_wf t now b Hwf Ht) as Hwf'.
  destruct (try_consume_config now b) as [Hw Hb].
  unfold history_ok. rewrite Hw, Hb. split; [done|].
  pose proof (prune_wf t now b Hwf Ht) as Hpwf.
  unfold try_consume. rewrite (attempts_len_exact now) by done.
  destruct (N.leb_spec (budget (prune now b)) (N.of_nat (length (attempts (prune now b)))))
    as [Hfull|Hroom].
  - destruct (head (attempts (prune now b))) eqn:Hh.
    + simpl. split; [|done]. exists (now - window b). split; [lia|done].
    + destruct Hpwf as (_ & _ & ? & _). destruct (attempts (prune now b)); simpl in *; [lia|done].
  - cbn [fst snd]. split.
    + exists (now - window b). split; [lia|].
      rewrite filter_app, <-Hpr. cbn [attempts]. f_equal.
      rewrite filter_cons, decide_True by lia. done.
    + intros u. rewrite in_window_snoc. case_decide as Hd; [|specialize (Hall u); lia].
      assert (in_window (window b) u H ≤ length (attempts (prune now b)))%nat; [|simpl in *; lia].
      rewrite Hpr. apply length_filter_mono. lia.
Qed.

Lemma granted_history (ts : list MonotonicInstant) (H : list MonotonicInstant)
  (t : MonotonicInstant) (b : ConnectionRateBudget) :
  history_ok H t b → StronglySorted N.le (t :: ts) →
  ∀ u, N.of_nat (in_window (window b) u (H ++ granted b ts)) ≤ budget b.
Proof.
  revert H t b. induction ts as [|now ts IH]; intros H t b Hok Hs u; simpl.
  - rewrite app_nil_r. by destruct Hok as (_ & _ & Hall).
  - apply StronglySorted_inv in Hs as [Hs Hall]. apply Forall_cons in Hall as [Ht Hts].
    pose proof (history_ok_step H t now b Hok Ht) as Hok'.
    destruct (try_consume_config now b) as [Hw Hb].
    destruct (try_consume now b) as [[th|[]] b']; simpl in *; rewrite <-Hw, <-Hb.
    + by eapply IH.
    + specialize (IH _ _ _ Hok' Hs u). by rewrite <-app_assoc in IH.
Qed.

(** ** The properties *)

(** whatever the non-decreasing instants of the connection attempts, every
    time window of the configured length contains at most [budget] granted
    attempts. *)
Theorem granted_within_budget (n : N) (w : Duration) (ts : list MonotonicInstant) :
  1 ≤ n ≤ u32_max → StronglySorted N.le ts →
  ∀ u, N.of_nat (in_window w u (granted (with_knobs n w) ts)) ≤ n.
Proof.
  intros Hn Hs u.
  apply (granted_history ts [] 0 (with_knobs n w)); [|constructor; [done|]].
  - split; [|split; [exists 0; split; [lia|done]|intros u'; cbn; lia]].
    split; [constructor|]. split; [constructor|]. cbn. lia.
  - apply Forall_forall. intros. lia.
Qed.

Lemma granted_within_budget_witness :
  N.of_nat (in_window 10 12 (granted (with_knobs 2 10) [1; 3; 5; 12; 13])) ≤ 2.
Proof.
  apply (granted_within_budget 2 10 [1; 3; 5; 12; 13]).
  - split; vm_compute; discriminate.
  - repeat constructor; vm_compute; discriminate.
Defined.

(** a refusal happens only with the window full, and names an instant at or
    after the refused one at which the budget still refuses, while one
    nanosecond later the attempt is granted. *)
Theorem throttle_until_one_late (t now : MonotonicInstant) (b b' : ConnectionRateBudget)
  (th : ConnectionRateThrottled) :
  budget_wf t b → t ≤ now → window b ≤ now →
  try_consume now b = (inl th, b') →
  attempts_used th = budget b ∧ now ≤ throttle_until_monotonic th ∧
  try_consume (throttle_until_monotonic th) b' = (inl th, b') ∧
  (try_consume (throttle_until_monotonic th + 1) b').1 = inr tt.
Proof.
  intros Hwf Ht Hnow Htry.
  pose proof (prune_wf t now b Hwf Ht) as Hp.
  unfold try_consume in Htry. rewrite (attempts_len_exact now) in Htry by done.
  destruct (N.leb_spec (budget (prune now b)) (N.of_nat (length (attempts (prune now b)))))
    as [Hfull|]; [|done].
  destruct (attempts (prune now b)) as [|o rest] eqn:Ha; [done|].
  cbn [head] in Htry. injection Htry as <- <-.
  pose proof Hp as (Hs & Hf & Hb & Hl). rewrite Ha in *. cbn [length] in *.
  assert (now - window b ≤ o) as Ho.
  { pose proof (drop_while_before_filter (now - window b) (attempts b)) as Hd.
    destruct Hwf as (Hsb & _). cbn in Ha. rewrite Hd in Ha by done.
    assert (o ∈ filter (λ a, now - window b ≤ a) (attempts b)) as Hin
      by (rewrite Ha; by left). by apply list_elem_of_filter in Hin as [? _]. }
  cbn [attempts_used throttle_until_monotonic window prune budget] in *.
  split_and!; [lia|lia| |].
  - unfold try_consume at 1.
    assert (prune (o + window b) (prune now b) = prune now b) as ->.
    { unfold prune at 1. rewrite Ha. cbn [window prune budget drop_while_before].
      destruct (N.ltb_spec o (o + window b - window b)); [lia|].
      rewrite <-Ha. by destruct b. }
    rewrite (attempts_len_exact now) by done.
    rewrite Ha. cbn [head length budget prune window].
    destruct (N.leb_spec (budget b) (N.of_nat (S (length rest)))); [done|lia].
  - unfold try_consume.
    set (p := prune (o + window b + 1) (prune now b)).
    assert (length (attempts p) ≤ length rest)%nat as Hlen.
    { unfold p, prune at 1. cbn [attempts window prune]. cbn in Ha. rewrite Ha.
      cbn [drop_while_before].
      destruct (N.ltb_spec o (o + window b + 1 - window b)); [|lia].
      by apply suffix_length, drop_while_before_suffix. }
    assert (attempts_len p = N.of_nat (length (attempts p))) as ->.
    { unfold attempts_len. apply N.mod_small. lia. }
    destruct (N.leb_spec (budget p) (N.of_nat (length (attempts p)))) as [Hle|]; [|done].
    change (budget p) with (budget b) in Hle. lia.
Qed.

Lemma throttle_until_one_late_witness :
  (try_consume 11 (try_consume 6 (try_consume 1 (with_knobs 1 10)).2).2).1
    = inl (mkThrottled 1 1 11).
Proof.
  destruct (throttle_until_one_late 1 10 (try_consume 1 (with_knobs 1 10)).2
    (try_consume 1 (with_knobs 1 10)).2 (mkThrottled 1 1 11)) as (_ & _ & H & _).
  - split_and!; repeat constructor; vm_compute; discriminate.
  - vm_compute. discriminate.
  - vm_compute. discriminate.
  - vm_compute. reflexivity.
  - vm_compute in H |- *. reflexivity.
Defined.
