(* ===== verification/Knobs.v ===== *)
(** * Knobs: the tunable values

    [rust/src/build/knobs.rs]: the knob names, the packed optional integer of
    an atomic knob, the record of all knobs with its defaults, and the two
    operations on it, the snapshot and the runtime update.  An atomic field is
    its current value; [reconnect_attempts] keeps its packed encoding. *)

From Stdlib Require Import String.
From S2P Require Import Prelude F64 Types.
Local Open Scope string_scope.
Local Open Scope N_scope.

(** ** [AtomicOptU32] *)

Definition PRESENT : N := N.shiftl 1 32.
Definition VALUE_MASK : N := 4294967295.

Definition opt_u32_encode (v : option N) : N :=
  match v with None => 0 | Some n => N.lor PRESENT n end.

Definition opt_u32_decode (bits : N) : option N :=
  if N.land bits PRESENT =? 0 then None else Some (N.land bits VALUE_MASK).

(** ** Names and values *)

Inductive KnobValue :=
  | U32 (n : N) | OptU32 (v : option N) | Usize (n : N) | KF64 (v : f64)
  | KBool (b : bool) | KStr (s : string).

Inductive KnobName :=
  | BackoffBaseMs | BackoffMaxMs | BackoffJitter
  | BackoffFactor | ReconnectAttempts | WsOrderResponseDeadlineMs
  | StalenessWindowMs | SubscribeAckAttempts | SubscribeAckTimeoutMs
  | MaxAuthHandshakeFailures | CloseTimeoutMs | UpgradeTimeoutMs
  | ConnectionRateBudget | ConnectionRateWindowSecs | PreferRestForOrders
  | SlowCallbackThresholdMs | RequestTimeoutMs | RestRetryMaxAttempts
  | RestRetryBaseMs | RestRetryMaxMs | RestRetryFactor
  | NonceRecovery | RateLimitApiWarningPct | RateLimitTradingWarningPct
  | RateLimitTradingScopeCap | ClOrdIdIndexCap | CallerToIoCapacity
  | IoToDispatchCapacity | RestBaseUrl | WsPublicUrl
  | WsAuthUrl.

#[export] Instance KnobName_eq_dec : EqDecision KnobName.
Proof. solve_decision. Defined.

Definition knob_as_str (k : KnobName) : string :=
  match k with
  | BackoffBaseMs => "backoff_base_ms"
  | BackoffMaxMs => "backoff_max_ms"
  | BackoffJitter => "backoff_jitter"
  | BackoffFactor => "backoff_factor"
  | ReconnectAttempts => "reconnect_attempts"
  | WsOrderResponseDeadlineMs => "ws_order_response_deadline_ms"
  | StalenessWindowMs => "staleness_window_ms"
  | SubscribeAckAttempts => "subscribe_ack_attempts"
  | SubscribeAckTimeoutMs => "subscribe_ack_timeout_ms"
  | MaxAuthHandshakeFailures => "max_auth_handshake_failures"
  | CloseTimeoutMs => "close_timeout_ms"
  | UpgradeTimeoutMs => "upgrade_timeout_ms"
  | ConnectionRateBudget => "connection_rate_budget"
  | ConnectionRateWindowSecs => "connection_rate_window_secs"
  | PreferRestForOrders => "prefer_rest_for_orders"
  | SlowCallbackThresholdMs => "slow_callback_threshold_ms"
  | RequestTimeoutMs => "request_timeout_ms"
  | RestRetryMaxAttempts => "rest_retry_max_attempts"
  | RestRetryBaseMs => "rest_retry_base_ms"
  | RestRetryMaxMs => "rest_retry_max_ms"
  | RestRetryFactor => "rest_retry_factor"
  | NonceRecovery => "nonce_recovery"
  | RateLimitApiWarningPct => "rate_limit_api_warning_pct"
  | RateLimitTradingWarningPct => "rate_limit_trading_warning_pct"
  | RateLimitTradingScopeCap => "rate_limit_trading_scope_cap"
  | ClOrdIdIndexCap => "cl_ord_id_index_cap"
  | CallerToIoCapacity => "caller_to_io_capacity"
  | IoToDispatchCapacity => "io_to_dispatch_capacity"
  | RestBaseUrl => "rest_base_url"
  | WsPublicUrl => "ws_public_url"
  | WsAuthUrl => "ws_auth_url"
  end.

Definition all_knobs : list KnobName :=
  [BackoffBaseMs; BackoffMaxMs; BackoffJitter;
   BackoffFactor; ReconnectAttempts; WsOrderResponseDeadlineMs;
   StalenessWindowMs; SubscribeAckAttempts; SubscribeAckTimeoutMs;
   MaxAuthHandshakeFailures; CloseTimeoutMs; UpgradeTimeoutMs;
   ConnectionRateBudget; ConnectionRateWindowSecs; PreferRestForOrders;
   SlowCallbackThresholdMs; RequestTimeoutMs; RestRetryMaxAttempts;
   RestRetryBaseMs; RestRetryMaxMs; RestRetryFactor;
   NonceRecovery; RateLimitApiWarningPct; RateLimitTradingWarningPct;
   RateLimitTradingScopeCap; ClOrdIdIndexCap; CallerToIoCapacity;
   IoToDispatchCapacity; RestBaseUrl; WsPublicUrl;
   WsAuthUrl].

(** strum's [EnumString]: the inverse of the name table. *)
Definition knob_from_str (s : string) : option KnobName :=
  List.find (λ k, bool_decide (knob_as_str k = s)) all_knobs.

Definition is_runtime_mutable (k : KnobName) : bool :=
  match k with
  | ReconnectAttempts | SubscribeAckAttempts | SubscribeAckTimeoutMs
  | MaxAuthHandshakeFailures | SlowCallbackThresholdMs
  | RateLimitApiWarningPct | RateLimitTradingWarningPct => true
  | _ => false
  end.

Definition is_construction_only (k : KnobName) : bool := negb (is_runtime_mutable k).

Definition is_string_knob (k : KnobName) : bool :=
  match k with RestBaseUrl | WsPublicUrl | WsAuthUrl => true | _ => false end.

(** ** The knobs *)

Record Knobs := mkKnobs {
  backoff_base_ms : N;
  backoff_max_ms : N;
  backoff_jitter : f64;
  backoff_factor : f64;
  reconnect_attempts : N;
  staleness_window_ms : N;
  subscribe_ack_attempts : N;
  subscribe_ack_timeout_ms : N;
  max_auth_handshake_failures : N;
  close_timeout_ms : N;
  upgrade_timeout_ms : N;
  connection_rate_budget : N;
  connection_rate_window_secs : N;
  slow_callback_threshold_ms : N;
  ws_order_response_deadline_ms : option N;
  prefer_rest_for_orders : bool;
  request_timeout_ms : N;
  rest_retry_max_attempts : N;
  rest_retry_base_ms : N;
  rest_retry_max_ms : N;
  rest_retry_factor : f64;
  nonce_recovery : bool;
  rate_limit_api_warning_pct : f64;
  rate_limit_trading_warning_pct : f64;
  rate_limit_trading_scope_cap : N;
  cl_ord_id_index_cap : N;
  caller_to_io_capacity : N;
  io_to_dispatch_capacity : N;
  rest_base_url : string;
  ws_public_url : string;
  ws_auth_url : string;
}.

Definition defaults : Knobs := {|
  backoff_base_ms := 500;
  backoff_max_ms := 30000;
  backoff_jitter := f64_one;
  backoff_factor := f64_two;
  reconnect_attempts := opt_u32_encode None;
  staleness_window_ms := 30000;
  subscribe_ack_attempts := 3;
  subscribe_ack_timeout_ms := 5000;
  max_auth_handshake_failures := 3;
  close_timeout_ms := 2000;
  upgrade_timeout_ms := 10000;
  connection_rate_budget := 120;
  connection_rate_window_secs := 600;
  slow_callback_threshold_ms := 50;
  ws_order_response_deadline_ms := None;
  prefer_rest_for_orders := false;
  request_timeout_ms := 30000;
  rest_retry_max_attempts := 3;
  rest_retry_base_ms := 500;
  rest_retry_max_ms := 30000;
  rest_retry_factor := f64_two;
  nonce_recovery := false;
  rate_limit_api_warning_pct := f64_dec 80 2;
  rate_limit_trading_warning_pct := f64_dec 80 2;
  rate_limit_trading_scope_cap := 256;
  cl_ord_id_index_cap := 1024;
  caller_to_io_capacity := 2048;
  io_to_dispatch_capacity := 8192;
  rest_base_url := "https://api.kraken.com";
  ws_public_url := as_wire_url Public;
  ws_auth_url := as_wire_url Auth;
|}.

Definition close_timeout (k : Knobs) : Duration := from_millis (close_timeout_ms k).
Definition upgrade_timeout (k : Knobs) : Duration := from_millis (upgrade_timeout_ms k).
Definition connection_rate_window (k : Knobs) : Duration :=
  from_secs (connection_rate_window_secs k).
Definition request_timeout (k : Knobs) : Duration := from_millis (request_timeout_ms k).
Definition staleness_window (k : Knobs) : Duration := from_millis (staleness_window_ms k).

Definition snapshot_knob (knob : KnobName) (k : Knobs) : KnobValue :=
  match knob with
  | BackoffBaseMs => U32 (backoff_base_ms k)
  | BackoffMaxMs => U32 (backoff_max_ms k)
  | BackoffJitter => KF64 (backoff_jitter k)
  | BackoffFactor => KF64 (backoff_factor k)
  | ReconnectAttempts => OptU32 (opt_u32_decode (reconnect_attempts k))
  | WsOrderResponseDeadlineMs => OptU32 (ws_order_response_deadline_ms k)
  | StalenessWindowMs => U32 (staleness_window_ms k)
  | SubscribeAckAttempts => U32 (subscribe_ack_attempts k)
  | SubscribeAckTimeoutMs => U32 (subscribe_ack_timeout_ms k)
  | MaxAuthHandshakeFailures => U32 (max_auth_handshake_failures k)
  | CloseTimeoutMs => U32 (close_timeout_ms k)
  | UpgradeTimeoutMs => U32 (upgrade_timeout_ms k)
  | ConnectionRateBudget => U32 (connection_rate_budget k)
  | ConnectionRateWindowSecs => U32 (connection_rate_window_secs k)
  | PreferRestForOrders => KBool (prefer_rest_for_orders k)
  | SlowCallbackThresholdMs => U32 (slow_callback_threshold_ms k)
  | RequestTimeoutMs => U32 (request_timeout_ms k)
  | RestRetryMaxAttempts => U32 (rest_retry_max_attempts k)
  | RestRetryBaseMs => U32 (rest_retry_base_ms k)
  | RestRetryMaxMs => U32 (rest_retry_max_ms k)
  | RestRetryFactor => KF64 (rest_retry_factor k)
  | NonceRecovery => KBool (nonce_recovery k)
  | RateLimitApiWarningPct => KF64 (rate_limit_api_warning_pct k)
  | RateLimitTradingWarningPct => KF64 (rate_limit_trading_warning_pct k)
  | RateLimitTradingScopeCap => Usize (rate_limit_trading_scope_cap k)
  | ClOrdIdIndexCap => Usize (cl_ord_id_index_cap k)
  | CallerToIoCapacity => U32 (caller_to_io_capacity k)
  | IoToDispatchCapacity => U32 (io_to_dispatch_capacity k)
  | RestBaseUrl => KStr (rest_base_url k)
  | WsPublicUrl => KStr (ws_public_url k)
  | WsAuthUrl => KStr (ws_auth_url k)
  end.

Definition set_reconnect_attempts (v : N) (k : Knobs) : Knobs := {|
  backoff_base_ms := backoff_base_ms k;
  backoff_max_ms := backoff_max_ms k;
  backoff_jitter := backoff_jitter k;
  backoff_factor := backoff_factor k;
  reconnect_attempts := v;
  staleness_window_ms := staleness_window_ms k;
  subscribe_ack_attempts := subscribe_ack_attempts k;
  subscribe_ack_timeout_ms := subscribe_ack_timeout_ms k;
  max_auth_handshake_failures := max_auth_handshake_failures k;
  close_timeout_ms := close_timeout_ms k;
  upgrade_timeout_ms := upgrade_timeout_ms k;
  connection_rate_budget := connection_rate_budget k;
  connection_rate_window_secs := connection_rate_window_secs k;
  slow_callback_threshold_ms := slow_callback_threshold_ms k;
  ws_order_response_deadline_ms := ws_order_response_deadline_ms k;
  prefer_rest_for_orders := prefer_rest_for_orders k;
  request_timeout_ms := request_timeout_ms k;
  rest_retry_max_attempts := rest_retry_max_attempts k;
  rest_retry_base_ms := rest_retry_base_ms k;
  rest_retry_max_ms := rest_retry_max_ms k;
  rest_retry_factor := rest_retry_factor k;
  nonce_recovery := nonce_recovery k;
  rate_limit_api_warning_pct := rate_limit_api_warning_pct k;
  rate_limit_trading_warning_pct := rate_limit_trading_warning_pct k;
  rate_limit_trading_scope_cap := rate_limit_trading_scope_cap k;
  cl_ord_id_index_cap := cl_ord_id_index_cap k;
  caller_to_io_capacity := caller_to_io_capacity k;
  io_to_dispatch_capacity := io_to_dispatch_capacity k;
  rest_base_url := rest_base_url k;
  ws_public_url := ws_public_url k;
  ws_auth_url := ws_auth_url k;
|}.

Definition set_subscribe_ack_attempts (v : N) (k : Knobs) : Knobs := {|
  backoff_base_ms := backoff_base_ms k;
  backoff_max_ms := backoff_max_ms k;
  backoff_jitter := backoff_jitter k;
  backoff_factor := backoff_factor k;
  reconnect_attempts := reconnect_attempts k;
  staleness_window_ms := staleness_window_ms k;
  subscribe_ack_attempts := v;
  subscribe_ack_timeout_ms := subscribe_ack_timeout_ms k;
  max_auth_handshake_failures := max_auth_handshake_failures k;
  close_timeout_ms := close_timeout_ms k;
  upgrade_timeout_ms := upgrade_timeout_ms k;
  connection_rate_budget := connection_rate_budget k;
  connection_rate_window_secs := connection_rate_window_secs k;
  slow_callback_threshold_ms := slow_callback_threshold_ms k;
  ws_order_response_deadline_ms := ws_order_response_deadline_ms k;
  prefer_rest_for_orders := prefer_rest_for_orders k;
  request_timeout_ms := request_timeout_ms k;
  rest_retry_max_attempts := rest_retry_max_attempts k;
  rest_retry_base_ms := rest_retry_base_ms k;
  rest_retry_max_ms := rest_retry_max_ms k;
  rest_retry_factor := rest_retry_factor k;
  nonce_recovery := nonce_recovery k;
  rate_limit_api_warning_pct := rate_limit_api_warning_pct k;
  rate_limit_trading_warning_pct := rate_limit_trading_warning_pct k;
  rate_limit_trading_scope_cap := rate_limit_trading_scope_cap k;
  cl_ord_id_index_cap := cl_ord_id_index_cap k;
  caller_to_io_capacity := caller_to_io_capacity k;
  io_to_dispatch_capacity := io_to_dispatch_capacity k;
  rest_base_url := rest_base_url k;
  ws_public_url := ws_public_url k;
  ws_auth_url := ws_auth_url k;
|}.

Definition set_subscribe_ack_timeout_ms (v : N) (k : Knobs) : Knobs := {|
  backoff_base_ms := backoff_base_ms k;
  backoff_max_ms := backoff_max_ms k;
  backoff_jitter := backoff_jitter k;
  backoff_factor := backoff_factor k;
  reconnect_attempts := reconnect_attempts k;
  staleness_window_ms := staleness_window_ms k;
  subscribe_ack_attempts := subscribe_ack_attempts k;
  subscribe_ack_timeout_ms := v;
  max_auth_handshake_failures := max_auth_handshake_failures k;
  close_timeout_ms := close_timeout_ms k;
  upgrade_timeout_ms := upgrade_timeout_ms k;
  connection_rate_budget := connection_rate_budget k;
  connection_rate_window_secs := connection_rate_window_secs k;
  slow_callback_threshold_ms := slow_callback_threshold_ms k;
  ws_order_response_deadline_ms := ws_order_response_deadline_ms k;
  prefer_rest_for_orders := prefer_rest_for_orders k;
  request_timeout_ms := request_timeout_ms k;
  rest_retry_max_attempts := rest_retry_max_attempts k;
  rest_retry_base_ms := rest_retry_base_ms k;
  rest_retry_max_ms := rest_retry_max_ms k;
  rest_retry_factor := rest_retry_factor k;
  nonce_recovery := nonce_recovery k;
  rate_limit_api_warning_pct := rate_limit_api_warning_pct k;
  rate_limit_trading_warning_pct := rate_limit_trading_warning_pct k;
  rate_limit_trading_scope_cap := rate_limit_trading_scope_cap k;
  cl_ord_id_index_cap := cl_ord_id_index_cap k;
  caller_to_io_capacity := caller_to_io_capacity k;
  io_to_dispatch_capacity := io_to_dispatch_capacity k;
  rest_base_url := rest_base_url k;
  ws_public_url := ws_public_url k;
  ws_auth_url := ws_auth_url k;
|}.

Definition set_max_auth_handshake_failures (v : N) (k : Knobs) : Knobs := {|
  backoff_base_ms := backoff_base_ms k;
  backoff_max_ms := backoff_max_ms k;
  backoff_jitter := backoff_jitter k;
  backoff_factor := backoff_factor k;
  reconnect_attempts := reconnect_attempts k;
  staleness_window_ms := staleness_window_ms k;
  subscribe_ack_attempts := subscribe_ack_attempts k;
  subscribe_ack_timeout_ms := subscribe_ack_timeout_ms k;
  max_auth_handshake_failures := v;
  close_timeout_ms := close_timeout_ms k;
  upgrade_timeout_ms := upgrade_timeout_ms k;
  connection_rate_budget := connection_rate_budget k;
  connection_rate_window_secs := connection_rate_window_secs k;
  slow_callback_threshold_ms := slow_callback_threshold_ms k;
  ws_order_response_deadline_ms := ws_order_response_deadline_ms k;
  prefer_rest_for_orders := prefer_rest_for_orders k;
  request_timeout_ms := request_timeout_ms k;
  rest_retry_max_attempts := rest_retry_max_attempts k;
  rest_retry_base_ms := rest_retry_base_ms k;
  rest_retry_max_ms := rest_retry_max_ms k;
  rest_retry_factor := rest_retry_factor k;
  nonce_recovery := nonce_recovery k;
  rate_limit_api_warning_pct := rate_limit_api_warning_pct k;
  rate_limit_trading_warning_pct := rate_limit_trading_warning_pct k;
  rate_limit_trading_scope_cap := rate_limit_trading_scope_cap k;
  cl_ord_id_index_cap := cl_ord_id_index_cap k;
  caller_to_io_capacity := caller_to_io_capacity k;
  io_to_dispatch_capacity := io_to_dispatch_capacity k;
  rest_base_url := rest_base_url k;
  ws_public_url := ws_public_url k;
  ws_auth_url := ws_auth_url k;
|}.

Definition set_slow_callback_threshold_ms (v : N) (k : Knobs) : Knobs := {|
  backoff_base_ms := backoff_base_ms k;
  backoff_max_ms := backoff_max_ms k;
  backoff_jitter := backoff_jitter k;
  backoff_factor := backoff_factor k;
  reconnect_attempts := reconnect_attempts k;
  staleness_window_ms := staleness_window_ms k;
  subscribe_ack_attempts := subscribe_ack_attempts k;
  subscribe_ack_timeout_ms := subscribe_ack_timeout_ms k;
  max_auth_handshake_failures := max_auth_handshake_failures k;
  close_timeout_ms := close_timeout_ms k;
  upgrade_timeout_ms := upgrade_timeout_ms k;
  connection_rate_budget := connection_rate_budget k;
  connection_rate_window_secs := connection_rate_window_secs k;
  slow_callback_threshold_ms := v;
  ws_order_response_deadline_ms := ws_order_response_deadline_ms k;
  prefer_rest_for_orders := prefer_rest_for_orders k;
  request_timeout_ms := request_timeout_ms k;
  rest_retry_max_attempts := rest_retry_max_attempts k;
  rest_retry_base_ms := rest_retry_base_ms k;
  rest_retry_max_ms := rest_retry_max_ms k;
  rest_retry_factor := rest_retry_factor k;
  nonce_recovery := nonce_recovery k;
  rate_limit_api_warning_pct := rate_limit_api_warning_pct k;
  rate_limit_trading_warning_pct := rate_limit_trading_warning_pct k;
  rate_limit_trading_scope_cap := rate_limit_trading_scope_cap k;
  cl_ord_id_index_cap := cl_ord_id_index_cap k;
  caller_to_io_capacity := caller_to_io_capacity k;
  io_to_dispatch_capacity := io_to_dispatch_capacity k;
  rest_base_url := rest_base_url k;
  ws_public_url := ws_public_url k;
  ws_auth_url := ws_auth_url k;
|}.

Definition set_rate_limit_api_warning_pct (v : f64) (k : Knobs) : Knobs := {|
  backoff_base_ms := backoff_base_ms k;
  backoff_max_ms := backoff_max_ms k;
  backoff_jitter := backoff_jitter k;
  backoff_factor := backoff_factor k;
  reconnect_attempts := reconnect_attempts k;
  staleness_window_ms := staleness_window_ms k;
  subscribe_ack_attempts := subscribe_ack_attempts k;
  subscribe_ack_timeout_ms := subscribe_ack_timeout_ms k;
  max_auth_handshake_failures := max_auth_handshake_failures k;
  close_timeout_ms := close_timeout_ms k;
  upgrade_timeout_ms := upgrade_timeout_ms k;
  connection_rate_budget := connection_rate_budget k;
  connection_rate_window_secs := connection_rate_window_secs k;
  slow_callback_threshold_ms := slow_callback_threshold_ms k;
  ws_order_response_deadline_ms := ws_order_response_deadline_ms k;
  prefer_rest_for_orders := prefer_rest_for_orders k;
  request_timeout_ms := request_timeout_ms k;
  rest_retry_max_attempts := rest_retry_max_attempts k;
  rest_retry_base_ms := rest_retry_base_ms k;
  rest_retry_max_ms := rest_retry_max_ms k;
  rest_retry_factor := rest_retry_factor k;
  nonce_recovery := nonce_recovery k;
  rate_limit_api_warning_pct := v;
  rate_limit_trading_warning_pct := rate_limit_trading_warning_pct k;
  rate_limit_trading_scope_cap := rate_limit_trading_scope_cap k;
  cl_ord_id_index_cap := cl_ord_id_index_cap k;
  caller_to_io_capacity := caller_to_io_capacity k;
  io_to_dispatch_capacity := io_to_dispatch_capacity k;
  rest_base_url := rest_base_url k;
  ws_public_url := ws_public_url k;
  ws_auth_url := ws_auth_url k;
|}.

Definition set_rate_limit_trading_warning_pct (v : f64) (k : Knobs) : Knobs := {|
  backoff_base_ms := backoff_base_ms k;
  backoff_max_ms := backoff_max_ms k;
  backoff_jitter := backoff_jitter k;
  backoff_factor := backoff_factor k;
  reconnect_attempts := reconnect_attempts k;
  staleness_window_ms := staleness_window_ms k;
  subscribe_ack_attempts := subscribe_ack_attempts k;
  subscribe_ack_timeout_ms := subscribe_ack_timeout_ms k;
  max_auth_handshake_failures := max_auth_handshake_failures k;
  close_timeout_ms := close_timeout_ms k;
  upgrade_timeout_ms := upgrade_timeout_ms k;
  connection_rate_budget := connection_rate_budget k;
  connection_rate_window_secs := connection_rate_window_secs k;
  slow_callback_threshold_ms := slow_callback_threshold_ms k;
  ws_order_response_deadline_ms := ws_order_response_deadline_ms k;
  prefer_rest_for_orders := prefer_rest_for_orders k;
  request_timeout_ms := request_timeout_ms k;
  rest_retry_max_attempts := rest_retry_max_attempts k;
  rest_retry_base_ms := rest_retry_base_ms k;
  rest_retry_max_ms := rest_retry_max_ms k;
  rest_retry_factor := rest_retry_factor k;
  nonce_recovery := nonce_recovery k;
  rate_limit_api_warning_pct := rate_limit_api_warning_pct k;
  rate_limit_trading_warning_pct := v;
  rate_limit_trading_scope_cap := rate_limit_trading_scope_cap k;
  cl_ord_id_index_cap := cl_ord_id_index_cap k;
  caller_to_io_capacity := caller_to_io_capacity k;
  io_to_dispatch_capacity := io_to_dispatch_capacity k;
  rest_base_url := rest_base_url k;
  ws_public_url := ws_public_url k;
  ws_auth_url := ws_auth_url k;
|}.

Definition validate_pct (v : f64) : option f64 :=
  if f64_is_finite v && (f64_le f64_zero v && f64_le v f64_one) then Some v else None.

(** The previous value and the changed knobs; [None] rejects. *)
Definition set_runtime_knob (knob : KnobName) (value : KnobValue) (k : Knobs)
  : option (KnobValue * Knobs) :=
  match knob, value with
  | ReconnectAttempts, OptU32 v =>
      Some (OptU32 (opt_u32_decode (reconnect_attempts k)),
            set_reconnect_attempts (opt_u32_encode v) k)
  | SubscribeAckAttempts, U32 v =>
      Some (U32 (subscribe_ack_attempts k), set_subscribe_ack_attempts v k)
  | SubscribeAckTimeoutMs, U32 v =>
      Some (U32 (subscribe_ack_timeout_ms k), set_subscribe_ack_timeout_ms v k)
  | MaxAuthHandshakeFailures, U32 v =>
      Some (U32 (max_auth_handshake_failures k), set_max_auth_handshake_failures v k)
  | SlowCallbackThresholdMs, U32 v =>
      Some (U32 (slow_callback_threshold_ms k), set_slow_callback_threshold_ms v k)
  | RateLimitApiWarningPct, KF64 v =>
      validated ← validate_pct v;
      Some (KF64 (rate_limit_api_warning_pct k), set_rate_limit_api_warning_pct validated k)
  | RateLimitTradingWarningPct, KF64 v =>
      validated ← validate_pct v;
      Some (KF64 (rate_limit_trading_warning_pct k), set_rate_limit_trading_warning_pct validated k)
  | _, _ => None
  end.

Definition set_runtime (name : string) (value : KnobValue) (k : Knobs)
  : option (KnobValue * Knobs) :=
  knob ← knob_from_str name; set_runtime_knob knob value k.

Definition snapshot (name : string) (k : Knobs) : option KnobValue :=
  knob ← knob_from_str name; Some (snapshot_knob knob k).

(** ** Lemmas *)

Lemma opt_u32_roundtrip (v : option N) :
  (∀ n, v = Some n → n ≤ u32_max) → opt_u32_decode (opt_u32_encode v) = v.
Proof.
  intros Hv. destruct v as [n|]; [|done]. specialize (Hv n eq_refl).
  unfold opt_u32_decode, opt_u32_encode.
  assert (N.land (N.lor PRESENT n) PRESENT = PRESENT) as ->.
  { apply N.bits_inj. intros i. rewrite N.land_spec, N.lor_spec.
    by destruct (N.testbit PRESENT i), (N.testbit n i). }
  change (PRESENT =? 0) with false. cbn match. f_equal.
  rewrite N.land_lor_distr_l.
  change (N.land PRESENT VALUE_MASK) with 0. rewrite N.lor_0_l.
  change VALUE_MASK with (N.ones 32). rewrite N.land_ones. apply N.mod_small.
  unfold u32_max in Hv. change (2 ^ 32) with 4294967296. lia.
Qed.

Lemma knob_name_roundtrip (k : KnobName) : knob_from_str (knob_as_str k) = Some k.
Proof. by destruct k. Qed.

(** A knob value whose integers fit their width. *)
Definition knob_value_ok (v : KnobValue) : Prop :=
  match v with OptU32 (Some n) => n ≤ u32_max | _ => True end.

(** a runtime update accepts only runtime-mutable knobs, returns the value
    it replaces, makes the knob read back as the new value and leaves every
    other knob alone; on a rejected value nothing changes. *)
Theorem set_runtime_roundtrip (knob : KnobName) (v prev : KnobValue) (k k' : Knobs) :
  knob_value_ok v → set_runtime (knob_as_str knob) v k = Some (prev, k') →
  is_runtime_mutable knob = true ∧ prev = snapshot_knob knob k ∧
  snapshot_knob knob k' = v ∧
  ∀ other, other ≠ knob → snapshot_knob other k' = snapshot_knob other k.
Proof.
  intros Hok Hset. unfold set_runtime in Hset. rewrite knob_name_roundtrip in Hset.
  cbn [mbind option_bind] in Hset. unfold set_runtime_knob in Hset.
  destruct knob, v; try discriminate Hset; cbn in Hset;
    try (destruct (validate_pct _) as [w|] eqn:Hv in Hset; [|discriminate Hset];
         unfold validate_pct in Hv; case_match; simplify_eq; cbn in Hset);
    injection Hset as <- <-; (split; [done|]); (split; [done|]);
    (split; [|by intros [] ?]); cbn; try done.
  f_equal. apply opt_u32_roundtrip. intros n ->. exact Hok.
Qed.

Lemma set_runtime_roundtrip_witness :
  snapshot_knob ReconnectAttempts
    (set_reconnect_attempts (opt_u32_encode (Some 5)) defaults) = OptU32 (Some 5).
Proof.
  apply (set_runtime_roundtrip ReconnectAttempts (OptU32 (Some 5)) (OptU32 None) defaults).
  - vm_compute. discriminate.
  - vm_compute. reflexivity.
Defined.
