(* ===== verification/Errors.v ===== *)
(** * Errors: the error vocabularies the components route on

    [rust/src/auth/mod.rs] ([AuthError]), [rust/src/transport/mod.rs]
    ([TransportErrorKind], the upgrade-status rule) and the JSON values
    ([serde_json::Value], from the serde_json crate, as its documented data
    type). *)

From Stdlib Require Import String.
From stdpp Require Import pretty.
From S2P Require Import Prelude F64 Types Events.
Local Open Scope string_scope.
Local Open Scope N_scope.

(** ** JSON values; numbers keep their text *)

Inductive Json :=
  | JNull | JBool (b : bool) | JNumber (text : string) | JString (s : string)
  | JArray (items : list Json) | JObject (fields : list (string * Json)).

(** ** [auth/mod.rs] *)

Inductive AuthError :=
  | InvalidKey | InvalidSignature | InvalidNonce
  | PermissionDeniedError (scope : option string)
  | TemporaryLockout | TokenStaleError | TokenRefreshFailed
  | TokenRefreshTransientError | AuthClientClosed
  | AuthUnknown (kraken_code kraken_message : string).

Inductive ErrorCategory :=
  | CatConfig | CatAuth | CatNetwork | CatExchange | CatClient | CatRateLimit.

Definition auth_error_code (e : AuthError) : string :=
  match e with
  | InvalidKey => "INVALID_KEY"
  | InvalidSignature => "INVALID_SIGNATURE"
  | InvalidNonce => "INVALID_NONCE"
  | PermissionDeniedError _ => "PERMISSION_DENIED"
  | TemporaryLockout => "TEMPORARY_LOCKOUT"
  | TokenStaleError => "AUTH_REFRESH_FAILED"
  | TokenRefreshFailed => "AUTH_REFRESH_FAILED"
  | TokenRefreshTransientError => "AUTH_REFRESH_TRANSIENT"
  | AuthClientClosed => "CLIENT_CLOSED"
  | AuthUnknown _ _ => "UNKNOWN"
  end.

Definition auth_error_category (e : AuthError) : ErrorCategory :=
  match e with
  | InvalidKey | InvalidSignature | InvalidNonce | PermissionDeniedError _
  | TemporaryLockout | TokenStaleError => CatAuth
  | TokenRefreshFailed | TokenRefreshTransientError => CatNetwork
  | AuthClientClosed => CatClient
  | AuthUnknown _ _ => CatExchange
  end.

Definition auth_error_retryable (e : AuthError) : bool :=
  match e with TokenStaleError | TokenRefreshTransientError => true | _ => false end.

(** [Display] *)
Definition auth_error_display (e : AuthError) : string :=
  match e with
  | InvalidKey => "Invalid API key."
  | InvalidSignature => "Invalid signature."
  | InvalidNonce => "Invalid nonce."
  | PermissionDeniedError _ => "Permission denied."
  | TemporaryLockout =>
      "Temporary lockout; too many sequential auth failures "
      ++ String (Ascii.ascii_of_nat 226) (String (Ascii.ascii_of_nat 128)
           (String (Ascii.ascii_of_nat 148) EmptyString))
      ++ " retry after the cooldown (~15 min)."
  | TokenStaleError => "Token stale; refresh required."
  | TokenRefreshFailed => "Token refresh failed."
  | TokenRefreshTransientError =>
      "Transient network failure during token refresh; retrying."
  | AuthClientClosed => "Client is closed; no new operations accepted."
  | AuthUnknown _ m => m
  end.

(** ** [transport/mod.rs] *)

Inductive TransportErrorKind :=
  | TcpConnectTimeout | TcpRefused | DnsFailure | TlsHandshakeFailure
  | SocketReset | RequestSentNoResponse | Ssl
  | CloseFrame (code : N) (reason : string)
  | AbnormalClose (context : string)
  | HttpUpgradeRejected (status : N)
  | HttpStatus (status : N)
  | OtherTransport (s : string).

Definition http_upgrade_status_transient (status : N) : bool :=
  match status with
  | 408 | 409 | 425 | 429 | 503 | 504 | 507 => true
  | _ => false
  end.

Definition is_sent_ambiguous (k : TransportErrorKind) : bool :=
  match k with
  | RequestSentNoResponse | SocketReset | AbnormalClose _ | CloseFrame _ _ => true
  | _ => false
  end.

(** ** [conn/subscription_registry.rs]: the subscription parameters *)

Inductive SubscribeParams :=
  | PTicker (snapshot : option bool) (event_trigger : option TickerTrigger)
  | PBook (depth : BookDepth)
  | PBookRaw (depth : BookDepth) (snapshot : option bool)
  | PTrade (snapshot : option bool)
  | POhlc (interval : OhlcInterval) (snapshot : option bool)
  | PStatus | PExecutions | PBalances.

#[export] Instance SubscribeParams_eq_dec : EqDecision SubscribeParams.
Proof. solve_decision. Defined.

(** A registry key. *)
Abbreviation SubKey := (ChannelName * option Symbol)%type.

(** ** Derived [Debug] text of a key, for messages *)

Definition channel_debug (c : ChannelName) : string :=
  match c with
  | Ticker => "Ticker" | Book => "Book" | BookRaw => "BookRaw" | Trade => "Trade"
  | Ohlc => "Ohlc" | Status => "Status" | Executions => "Executions"
  | Balances => "Balances" | Heartbeat => "Heartbeat"
  end.

Definition quote_char : string := String (Ascii.ascii_of_nat 34) EmptyString.

Definition pair_debug (p : option Symbol) : string :=
  match p with
  | None => "None"
  | Some s => "Some(Symbol(" ++ quote_char ++ s ++ quote_char ++ "))"
  end.

(** Decimal text of an integer. *)
Definition decimal (n : N) : string := pretty n.

Definition opt_decimal (n : option N) : option string := decimal <$> n.

(** ** Text of exchange messages *)

(** [str::contains] *)
Definition str_contains (needle hay : string) : bool :=
  match String.index 0 needle hay with Some _ => true | None => false end.

(** [error.rs] *)
Definition is_kraken_rate_limit (msg : string) : bool :=
  str_contains "Rate limit" msg || str_contains "Throttled" msg
  || str_contains "Too many requests" msg.
