(* ===== verification/Auth.v ===== *)
(** * Auth: nonces and signed forms

    [rust/src/auth/{nonce,mod,signer}.rs]: the lock-free nonce source as threads
    interleaving on one atomic, the form encoder with its decoder as specification,
    the spot signer over third-party hashes, which are parameters, and
    [AuthStack::sign_form] over the table of signers. *)

From Stdlib Require Import Ascii String.
From stdpp Require Import sorting.
From S2P Require Import Prelude F64 Types Events Errors.
Local Open Scope string_scope.
Local Open Scope N_scope.

(** ** [nonce.rs] *)

(** [SystemTime::now] as nanoseconds since the epoch, [None] before it. *)
Definition wall_candidate (since_epoch : option N) : N :=
  N.min (default 0 since_epoch) u64_max.

(** The value a call tries to install over [current]. *)
Definition next_nonce_value (current candidate : N) : N :=
  N.max (u64_saturating_add current 1) candidate.

(** A call in progress: it has read the wall clock, or has also loaded the
    counter. *)
Inductive NonceCall :=
  | Computing (candidate : N)
  | LoadedCounter (candidate current : N).

Record NonceState := mkNonce {
  nonce_counter : N;
  nonce_calls : gmap nat NonceCall;
  nonce_returned : list N;
}.

Definition nonce_init : NonceState := mkNonce 0 ∅ [].

(** The atomic actions of the threads calling [next_nonce].  A weak
    compare-exchange may fail although the counter is unchanged. *)
Inductive NonceAction :=
  | NonceBegin (thread : nat) (since_epoch : option N)
  | NonceLoad (thread : nat)
  | NonceExchange (thread : nat) (spurious_failure : bool).

Definition nonce_step (a : NonceAction) (s : NonceState) : option NonceState :=
  match a with
  | NonceBegin t clock =>
      match nonce_calls s !! t with
      | None => Some (mkNonce (nonce_counter s)
                        (<[t := Computing (wall_candidate clock)]> (nonce_calls s))
                        (nonce_returned s))
      | Some _ => None
      end
  | NonceLoad t =>
      match nonce_calls s !! t with
      | Some (Computing c) =>
          Some (mkNonce (nonce_counter s)
                  (<[t := LoadedCounter c (nonce_counter s)]> (nonce_calls s))
                  (nonce_returned s))
      | _ => None
      end
  | NonceExchange t spurious =>
      match nonce_calls s !! t with
      | Some (LoadedCounter c current) =>
          if (nonce_counter s =? current) && negb spurious then
            let next := next_nonce_value current c in
            Some (mkNonce next (delete t (nonce_calls s)) (nonce_returned s ++ [next]))
          else
            Some (mkNonce (nonce_counter s) (<[t := Computing c]> (nonce_calls s))
                    (nonce_returned s))
      | _ => None
      end
  end.

Fixpoint nonce_run (acts : list NonceAction) (s : NonceState) : option NonceState :=
  match acts with
  | [] => Some s
  | a :: acts => s' ← nonce_step a s; nonce_run acts s'
  end.

(** ** [mod.rs]: the form encoder *)

Definition is_unreserved (b : ascii) : bool :=
  is_ascii_alphanumeric b ||
  existsb (Ascii.eqb b) ["-"; "_"; "."; "~"]%char.

Definition HEX_UPPER : list ascii :=
  ["0"; "1"; "2"; "3"; "4"; "5"; "6"; "7"; "8"; "9"; "A"; "B"; "C"; "D"; "E"; "F"]%char.

Definition hex_upper (n : N) : ascii := nth (N.to_nat n) HEX_UPPER "0"%char.

(** What one byte appends. *)
Definition encode_byte (b : ascii) : string :=
  if is_unreserved b then String b EmptyString
  else
    String "%" (String (hex_upper (N.shiftr (N_of_ascii b) 4))
      (String (hex_upper (N.land (N_of_ascii b) 15)) EmptyString)).

Fixpoint encode_into (out s : string) : string :=
  match s with
  | EmptyString => out
  | String b s => encode_into (out ++ encode_byte b) s
  end.

Fixpoint encoded_len (s : string) : nat :=
  match s with
  | EmptyString => 0
  | String b s => (if is_unreserved b then 1 else 3) + encoded_len s
  end%nat.

(** The loop over the fields, [first] at index 0. *)
Fixpoint encode_fields (first : bool) (out : string) (fields : list (string * string))
  : string :=
  match fields with
  | [] => out
  | (key, value) :: fields =>
      let out := if first then out else out ++ "&" in
      let out := encode_into out key in
      let out := out ++ "=" in
      encode_fields false (encode_into out value) fields
  end.

Definition encode_form (fields : list (string * string)) : string :=
  encode_fields true "" fields.

(** The capacity the encoder reserves. *)
Definition form_capacity (fields : list (string * string)) : nat :=
  list_sum (map (λ kv, encoded_len kv.1 + encoded_len kv.2 + 2)%nat fields).

(** What a signer returns. *)
Record SignedRequest := mkSigned {
  signed_api_key : string;
  signed_api_sign : string;
  signed_nonce : N;
}.

(** ** [signer.rs]: the spot REST signer

    SHA-256, HMAC-SHA512 (which may reject a key) and base64 are third-party. *)
Section Signer.
Context (sha256 : list ascii → list ascii)
  (hmac_sha512 : list ascii → option (list ascii → list ascii))
  (base64 : list ascii → string).

Definition compute_api_sign (secret : list ascii) (nonce : N) (path body : string)
  : option string :=
  let payload :=
    sha256 (list_ascii_of_string (decimal nonce) ++ list_ascii_of_string body)%list in
  mac ← hmac_sha512 secret;
  Some (base64 (mac (list_ascii_of_string path ++ payload)%list)).

(** The left side is the error's text. *)
Definition spot_sign (api_key : string) (secret : list ascii) (nonce : N)
  (path body : string) : string + SignedRequest :=
  match compute_api_sign secret nonce path body with
  | Some api_sign => inr (mkSigned api_key api_sign nonce)
  | None => inl "Invalid HMAC key length."
  end.
End Signer.

(** [AuthProfile], from [types/handles.rs], is the key of the signer table. *)
Section SignForm.
Context {AuthProfile ApiKey Otp : Type} (otp_as_str : Otp → string)
  (profile_debug : AuthProfile → string).

Record SignedForm := mkForm {
  form_body : string;
  api_key_header : string;
  api_sign_header : string;
}.

Record AuthStack := mkAuthStack {
  stack_api_key : option ApiKey;
  stack_otp : option Otp;
  stack_signers : AuthProfile → option (N → string → string → string + SignedRequest);
}.

Definition internal (message : string) : AuthError := AuthUnknown "INTERNAL" message.

(** The caller's fields, the nonce, and the one-time password unless the caller
    already passes one. *)
Definition all_fields (otp : option Otp) (nonce : N) (fields : list (string * string))
  : list (string * string) :=
  let all := (fields ++ [("nonce", decimal nonce)])%list in
  if existsb (λ kv, String.eqb kv.1 "otp") all then all
  else match otp with
       | Some o => (all ++ [("otp", otp_as_str o)])%list
       | None => all
       end.

(** [sign_form]; [next_nonce] is the nonce the source returns if it is asked, and
    the flag tells whether it was. *)
Definition sign_form (stack : AuthStack) (next_nonce : N) (profile : AuthProfile)
  (path : string) (fields : list (string * string)) : (AuthError + SignedForm) * bool :=
  match stack_api_key stack with
  | None => (inl (internal "sign attempted without configured credentials"), false)
  | Some _ =>
      match stack_signers stack profile with
      | None => (inl (internal ("no signer registered for " ++ profile_debug profile)), false)
      | Some sign =>
          let body := encode_form (all_fields (stack_otp stack) next_nonce fields) in
          match sign next_nonce path body with
          | inl e => (inl (internal ("signing failed: " ++ e)), true)
          | inr h => (inr (mkForm body (signed_api_key h) (signed_api_sign h)), true)
          end
      end
  end.
End SignForm.

(** ** Specification: reading a form back *)

Definition hex_value (c : ascii) : option N :=
  (λ x, N.of_nat x.1) <$> list_find (λ d, d = c) HEX_UPPER.

Fixpoint percent_decode (s : string) : option string :=
  match s with
  | EmptyString => Some EmptyString
  | String "%"%char (String h (String l rest)) =>
      hi ← hex_value h;
      lo ← hex_value l;
      String (ascii_of_N (16 * hi + lo)) <$> percent_decode rest
  | String b rest =>
      if is_unreserved b then String b <$> percent_decode rest else None
  end.

(** The parts of [s] between occurrences of [sep]. *)
Fixpoint split_on (sep : ascii) (s : string) : list string :=
  match s with
  | EmptyString => [EmptyString]
  | String b rest =>
      if Ascii.eqb b sep then EmptyString :: split_on sep rest
      else match split_on sep rest with
           | [] => [String b EmptyString]
           | p :: ps => String b p :: ps
           end
  end.

Definition decode_field (s : string) : option (string * string) :=
  match split_on "=" s with
  | [k; v] => k' ← percent_decode k; v' ← percent_decode v; Some (k', v')
  | _ => None
  end.

Definition decode_form (s : string) : option (list (string * string)) :=
  match s with
  | EmptyString => Some []
  | _ => mapM decode_field (split_on "&" s)
  end.

(** ** The encoder *)

Fixpoint encoded (s : string) : string :=
  match s with
  | EmptyString => EmptyString
  | String b s => encode_byte b ++ encoded s
  end.

Fixpoint char_in (c : ascii) (s : string) : bool :=
  match s with
  | EmptyString => false
  | String b s => Ascii.eqb b c || char_in c s
  end.

Lemma char_in_app c a b : char_in c (a ++ b) = char_in c a || char_in c b.
Proof.
  induction a as [|x a IH]; [done|]. rewrite str_app_cons. simpl.
  by rewrite IH, orb_assoc.
Qed.

Lemma encode_into_eq (s out : string) : encode_into out s = out ++ encoded s.
Proof.
  revert out. induction s as [|b s IH]; intros out; simpl; [by rewrite str_app_nil|].
  by rewrite IH, str_app_assoc.
Qed.

Lemma encode_byte_clean (b : ascii) :
  char_in "&" (encode_byte b) = false ∧ char_in "=" (encode_byte b) = false.
Proof. by destruct b as [[] [] [] [] [] [] [] []]. Qed.

Lemma encoded_clean (s : string) :
  char_in "&" (encoded s) = false ∧ char_in "=" (encoded s) = false.
Proof.
  induction s as [|b s [IH1 IH2]]; [done|]. simpl. rewrite !char_in_app, IH1, IH2.
  by destruct (encode_byte_clean b) as [-> ->].
Qed.

Lemma percent_decode_byte (b : ascii) (rest : string) :
  percent_decode (encode_byte b ++ rest) = String b <$> percent_decode rest.
Proof.
  destruct b as [[] [] [] [] [] [] [] []]; reflexivity.
Qed.

Lemma percent_decode_encoded (s : string) : percent_decode (encoded s) = Some s.
Proof.
  induction s as [|b s IH]; [done|]. simpl. by rewrite percent_decode_byte, IH.
Qed.

Lemma encoded_length (s : string) : String.length (encoded s) = encoded_len s.
Proof.
  induction s as [|b s IH]; [done|]. simpl. rewrite str_length_app, IH. f_equal.
  unfold encode_byte. by destruct (is_unreserved b).
Qed.

Lemma split_on_none (sep : ascii) (a : string) :
  char_in sep a = false → split_on sep a = [a].
Proof.
  induction a as [|b a IH]; simpl; [done|]. intros [Hb Ha]%orb_false_iff.
  rewrite Hb, IH; done.
Qed.

Lemma split_on_app (sep : ascii) (a b : string) :
  char_in sep a = false → split_on sep (a ++ String sep b) = a :: split_on sep b.
Proof.
  induction a as [|x a IH]; simpl.
  - by rewrite Ascii.eqb_refl.
  - intros [Hx Ha]%orb_false_iff. by rewrite Hx, IH.
Qed.

Definition encoded_field (kv : string * string) : string :=
  encoded kv.1 ++ String "=" (encoded kv.2).

Lemma decode_encoded_field (kv : string * string) :
  decode_field (encoded_field kv) = Some kv.
Proof.
  unfold decode_field, encoded_field. simpl.
  rewrite split_on_app, (split_on_none _ (encoded kv.2)) by apply encoded_clean.
  rewrite !percent_decode_encoded. by destruct kv.
Qed.

Lemma encoded_field_clean (kv : string * string) : char_in "&" (encoded_field kv) = false.
Proof.
  unfold encoded_field. simpl. rewrite char_in_app. simpl.
  by rewrite (proj1 (encoded_clean kv.1)), (proj1 (encoded_clean kv.2)).
Qed.

(** What the fields after the first append. *)
Fixpoint more_fields (fields : list (string * string)) : string :=
  match fields with
  | [] => EmptyString
  | kv :: fields => String "&" (encoded_field kv ++ more_fields fields)
  end.

Lemma encode_fields_more fields out :
  encode_fields false out fields = out ++ more_fields fields.
Proof.
  revert out. induction fields as [|[k v] fields IH]; intros out; simpl.
  - by rewrite str_app_nil.
  - rewrite IH, !encode_into_eq, !str_app_assoc. unfold encoded_field. simpl.
    by rewrite str_app_assoc.
Qed.

Lemma encode_form_cons kv fields :
  encode_form (kv :: fields) = encoded_field kv ++ more_fields fields.
Proof.
  destruct kv as [k v]. unfold encode_form. simpl.
  rewrite encode_fields_more, !encode_into_eq, !str_app_assoc. unfold encoded_field.
  simpl. by rewrite str_app_assoc.
Qed.

Lemma split_fields kv fields :
  split_on "&" (encoded_field kv ++ more_fields fields) =
  map encoded_field (kv :: fields).
Proof.
  revert kv. induction fields as [|kv' fields IH]; intros kv; cbn [more_fields map].
  - rewrite str_app_nil. apply split_on_none, encoded_field_clean.
  - rewrite split_on_app by apply encoded_field_clean. by rewrite IH.
Qed.

Lemma mapM_decode_fields fields :
  mapM decode_field (map encoded_field fields) = Some fields.
Proof.
  induction fields as [|kv fields IH]; [done|].
  cbn [map mapM]. by rewrite decode_encoded_field, IH.
Qed.

(** C36: Reading an encoded form back gives exactly the fields that were encoded, in
    order, whatever bytes keys and values contain: no value can smuggle in a
    separator, another field or a second nonce. *)
Theorem form_roundtrip (fields : list (string * string)) :
  decode_form (encode_form fields) = Some fields.
Proof.
  destruct fields as [|kv fields]; [done|].
  rewrite encode_form_cons. unfold decode_form.
  assert (∃ c r, encoded_field kv ++ more_fields fields = String c r) as (c & r & E).
  { unfold encoded_field. destruct (encoded kv.1); simpl; by eexists _, _. }
  rewrite E, <-E, split_fields. apply mapM_decode_fields.
Qed.

Lemma more_fields_length fields :
  (String.length (more_fields fields) ≤ form_capacity fields)%nat.
Proof.
  induction fields as [|kv fields IH]; [done|].
  unfold form_capacity in *. simpl in *.
  unfold encoded_field. rewrite !str_length_app. simpl. rewrite !encoded_length. lia.
Qed.

(** The encoded form fits the capacity the encoder reserves up front, so building
    it never reallocates (an abandoned buffer would keep a copy of the one-time
    password). *)
Theorem form_fits_capacity (fields : list (string * string)) :
  (String.length (encode_form fields) ≤ form_capacity fields)%nat.
Proof.
  destruct fields as [|kv fields]; [done|].
  pose proof (more_fields_length fields).
  rewrite encode_form_cons. unfold form_capacity in *. simpl. unfold encoded_field.
  rewrite !str_length_app. simpl. rewrite !encoded_length. lia.
Qed.

(** ** Signed forms *)

Section SignFormProps.
Context {AuthProfile ApiKey Otp : Type} (otp_as_str : Otp → string)
  (profile_debug : AuthProfile → string).
Implicit Types (stack : AuthStack (AuthProfile := AuthProfile) (ApiKey := ApiKey) (Otp := Otp)).

Definition passes_otp (fields : list (string * string)) : bool :=
  existsb (λ kv, String.eqb kv.1 "otp") fields.

(** A signed form carries the caller's fields, then the fresh nonce, then the
    configured one-time password unless the caller passes one; the signature
    headers are the profile's signer's over exactly that body and nonce.  Without
    credentials or a signer the call fails without taking a nonce. *)
Theorem sign_form_covers_body stack n profile path fields :
  match sign_form otp_as_str profile_debug stack n profile path fields with
  | (inr form, asked) =>
      asked = true ∧
      decode_form (form_body form) =
        Some (fields ++ [("nonce", decimal n)] ++
              (if passes_otp fields then []
               else match stack_otp stack with
                    | Some o => [("otp", otp_as_str o)]
                    | None => []
                    end))%list ∧
      ∃ sign h, stack_signers stack profile = Some sign ∧
        sign n path (form_body form) = inr h ∧
        api_key_header form = signed_api_key h ∧ api_sign_header form = signed_api_sign h
  | (inl e, asked) =>
      auth_error_code e = "UNKNOWN" ∧ auth_error_retryable e = false ∧
      (asked = false ↔ stack_api_key stack = None ∨ stack_signers stack profile = None)
  end.
Proof.
  unfold sign_form. destruct (stack_api_key stack) as [k|] eqn:Hk; [|by intuition].
  destruct (stack_signers stack profile) as [sign|] eqn:Hs; [|by intuition].
  destruct (sign n path _) as [e|h] eqn:Hsign; simpl.
  - split_and!; [done|done|]. split; [done|]. by intros [?|?].
  - split; [done|]. split; [|by exists sign, h].
    rewrite form_roundtrip. f_equal. unfold all_fields, passes_otp.
    rewrite existsb_app. simpl. rewrite orb_false_r.
    destruct (existsb _ fields), (stack_otp stack); rewrite <-?(assoc_L (++)); done.
Qed.
End SignFormProps.

(** ** The nonce source *)

Definition call_candidate (c : NonceCall) : N :=
  match c with Computing x => x | LoadedCounter x _ => x end.

(** Everything is a [u64]. *)
Definition nonce_bounded (s : NonceState) : Prop :=
  nonce_counter s ≤ u64_max ∧
  map_Forall (λ _ c, call_candidate c ≤ u64_max) (nonce_calls s).

(** Every nonce returned is at most the counter, in increasing order. *)
Definition nonce_inv (s : NonceState) : Prop :=
  StronglySorted N.lt (nonce_returned s) ∧
  Forall (λ n, n ≤ nonce_counter s) (nonce_returned s).

Ltac nonce_cases Hs :=
  unfold nonce_step in Hs; repeat case_match; simplify_eq/=;
  try match goal with
    | H : _ && _ = true |- _ => apply andb_true_iff in H as [?%N.eqb_eq _]
    end.

Lemma nonce_step_bounded a s s' :
  nonce_step a s = Some s' → nonce_bounded s →
  nonce_bounded s' ∧ nonce_counter s ≤ nonce_counter s'.
Proof.
  intros Hs [Hc Hm]. nonce_cases Hs;
    (split; [|unfold next_nonce_value, u64_saturating_add; lia]).
  all: try match goal with H : nonce_calls _ !! _ = Some _ |- _ =>
    pose proof (Hm _ _ H) as Hcand; simpl in Hcand end.
  all: split; simpl; [try done; unfold next_nonce_value, u64_saturating_add; lia|].
  all: try by apply map_Forall_delete.
  all: apply map_Forall_insert_2; [|done]; simpl; unfold wall_candidate; lia.
Qed.

Lemma nonce_step_inv a s s' :
  nonce_step a s = Some s' → nonce_counter s < u64_max → nonce_inv s → nonce_inv s'.
Proof.
  intros Hs Hm [Hsort Hle]. nonce_cases Hs; try done.
  assert (current < next_nonce_value current candidate) as Hlt.
  { unfold next_nonce_value, u64_saturating_add. lia. }
  split; simpl.
  - apply StronglySorted_app_2; [|done|by repeat constructor].
    intros x y Hx ->%list_elem_of_singleton.
    eapply Forall_forall in Hle; [|exact Hx]. simpl in Hle. lia.
  - apply Forall_app. split; [|by repeat constructor].
    eapply Forall_impl; [exact Hle|]. simpl. lia.
Qed.

Lemma nonce_run_bounded acts s s' :
  nonce_run acts s = Some s' → nonce_bounded s →
  nonce_bounded s' ∧ nonce_counter s ≤ nonce_counter s'.
Proof.
  revert s. induction acts as [|a acts IH]; intros s Hr Hb; cbn [nonce_run] in Hr.
  - by simplify_eq.
  - destruct (nonce_step a s) as [s1|] eqn:Hs; [|done]. simpl in Hr.
    destruct (nonce_step_bounded a s s1 Hs Hb) as [Hb1 ?].
    destruct (IH s1 Hr Hb1). split; [done|lia].
Qed.

Lemma nonce_run_inv acts s s' :
  nonce_run acts s = Some s' → nonce_bounded s → nonce_counter s' < u64_max →
  nonce_inv s → nonce_inv s' ∧ nonce_counter s ≤ nonce_counter s'.
Proof.
  revert s. induction acts as [|a acts IH]; intros s Hr Hb Hm Hi; cbn [nonce_run] in Hr.
  - by simplify_eq.
  - destruct (nonce_step a s) as [s1|] eqn:Hs; [|done]. simpl in Hr.
    destruct (nonce_step_bounded a s s1 Hs Hb) as [Hb1 Hle].
    destruct (nonce_run_bounded acts s1 s' Hr Hb1) as [_ Hle'].
    split; [|lia]. apply (IH s1); try done. eapply nonce_step_inv; try done. lia.
Qed.

(** C37: However the threads' loads and weak compare-exchanges interleave, and
    whatever the wall clock reads, the nonces handed out are strictly increasing in
    the order the exchanges succeed (until the counter reaches the last [u64]). *)
Theorem nonces_strictly_increase acts s :
  nonce_run acts nonce_init = Some s → nonce_counter s < u64_max →
  StronglySorted N.lt (nonce_returned s).
Proof.
  intros Hr Hm. apply (nonce_run_inv acts nonce_init s Hr); [|done|].
  - split; [done|apply map_Forall_empty].
  - split; constructor.
Qed.

(** Two threads race: both load 0, the second fails its exchange and retries; the
    clock then runs backwards. *)
Definition nonce_race : list NonceAction :=
  [NonceBegin 1 (Some 1000); NonceBegin 2 (Some 1000); NonceLoad 1; NonceLoad 2;
   NonceExchange 1 false; NonceExchange 2 false; NonceLoad 2; NonceExchange 2 false;
   NonceBegin 1 (Some 7); NonceLoad 1; NonceExchange 1 true; NonceLoad 1;
   NonceExchange 1 false].

Lemma nonces_strictly_increase_witness :
  ∃ s, nonce_run nonce_race nonce_init = Some s ∧ nonce_returned s = [1000; 1001; 1002] ∧
    StronglySorted N.lt (nonce_returned s).
Proof.
  destruct (nonce_run nonce_race nonce_init) as [s|] eqn:E; [|vm_compute in E; discriminate].
  exists s. split; [done|]. split; [by vm_compute in E; simplify_eq|].
  apply (nonces_strictly_increase nonce_race s E). vm_compute in E. by simplify_eq.
Defined.

(** A call that runs without interference from a state below the last [u64]
    returns at once, with a nonce above every earlier one and not behind the wall
    clock. *)
Theorem nonce_call_completes acts s t candidate :
  nonce_run acts nonce_init = Some s → nonce_counter s < u64_max →
  nonce_calls s !! t = Some (Computing candidate) →
  ∃ s' n, nonce_run [NonceLoad t; NonceExchange t false] s = Some s' ∧
    nonce_returned s' = (nonce_returned s ++ [n])%list ∧ nonce_calls s' !! t = None ∧
    candidate ≤ n ∧ Forall (λ m, m < n) (nonce_returned s).
Proof.
  intros Hr Hm Ht.
  assert (nonce_inv s) as [_ Hle].
  { apply (nonce_run_inv acts nonce_init s Hr); [split; [done|apply map_Forall_empty]|done|].
    split; constructor. }
  eexists _, (next_nonce_value (nonce_counter s) candidate). cbn [nonce_run nonce_step].
  rewrite Ht. simpl. rewrite lookup_insert_eq. simpl. rewrite N.eqb_refl. simpl.
  split; [done|]. simpl. split; [done|]. split; [apply lookup_delete_eq|].
  unfold next_nonce_value, u64_saturating_add. split; [lia|].
  eapply Forall_impl; [exact Hle|]. simpl. lia.
Qed.

Lemma nonce_call_completes_witness :
  ∃ s' n, nonce_run [NonceLoad 1; NonceExchange 1 false]
    (mkNonce 0 {[1%nat := Computing 1000]} []) = Some s' ∧
    nonce_returned s' = [n] ∧ nonce_calls s' !! 1%nat = None ∧ 1000 ≤ n ∧
    Forall (λ m, m < n) [].
Proof.
  apply (nonce_call_completes [NonceBegin 1 (Some 1000)]
           (mkNonce 0 {[1%nat := Computing 1000]} []) 1 1000); by vm_compute.
Defined.
