(* ===== verification/Rest.v ===== *)
(** * Rest: the REST pipeline's retry engine and retry loop

    [rust/src/rest/{retry,surface}.rs] and [parse_throttle_until] of
    [rust/src/error.rs].  The transport's answers, the clocks, the jitter draws and
    the state of the shared rate-limit trackers between attempts are the
    environment of the loop. *)

From Stdlib Require Import Ascii String.
From S2P Require Import Prelude F64 Types Events RateCounter RateLimit Knobs Errors.
Local Open Scope string_scope.
Local Open Scope N_scope.

(** ** [surface.rs]: errors and the response envelope *)

Inductive RestError :=
  | RestTransport (kind : TransportErrorKind) (transient : bool)
  | RestAuth (e : AuthError)
  | RestKraken (codes : list string)
  | RestUnexpectedShape (detail : string)
  | RestRateLimit (e : RateLimitExceeded).

(** [Value::get] on an object; keys are unique. *)
Definition json_get (key : string) (v : Json) : option Json :=
  match v with
  | JObject fields => snd <$> find (λ kv, String.eqb kv.1 key) fields
  | _ => None
  end.

Definition json_as_array (v : Json) : option (list Json) :=
  match v with JArray l => Some l | _ => None end.

Definition json_as_str (v : Json) : option string :=
  match v with JString s => Some s | _ => None end.

(** [values_debug] is the derived [Debug] text of a list of JSON values. *)
Definition parse_kraken_envelope (values_debug : list Json → string) (json : Json)
  : RestError + Json :=
  let result :=
    match json_get "result" json with
    | Some r => inr r
    | None => inl (RestUnexpectedShape "missing `result` field")
    end in
  match json_get "error" json ≫= json_as_array with
  | None | Some [] => result
  | Some errors =>
      match omap json_as_str errors with
      | [] => inl (RestUnexpectedShape
                ("kraken error array contained no string elements: " ++ values_debug errors))
      | strs => inl (RestKraken strs)
      end
  end.

(** ** [retry.rs] *)

Inductive BackoffClass := Exponential | NoBackoff.

Record RetryPolicy := mkPolicy {
  policy_max_attempts : option N;
  policy_transient : bool;
  backoff_class : BackoffClass;
  nonce_heal : bool;
}.

Definition idempotent : RetryPolicy := mkPolicy None true Exponential true.
Definition never_retry : RetryPolicy := mkPolicy (Some 1) false NoBackoff false.
Definition never_retry_except_nonce : RetryPolicy := mkPolicy (Some 1) false NoBackoff true.

Inductive RetryDecision :=
  | Retry (reason : RetryReason)
  | NonTransient
  | AmbiguousOrderPlacement.

Record RetryEngine := mkEngine {
  engine_base_ms : N;
  engine_max_ms : N;
  engine_factor : f64;
  engine_max_attempts : N;
  engine_nonce_recovery : bool;
}.

Definition engine_from_knobs (k : Knobs) : RetryEngine :=
  mkEngine (rest_retry_base_ms k) (rest_retry_max_ms k) (rest_retry_factor k)
    (rest_retry_max_attempts k) (nonce_recovery k).

Definition classify_kraken (first : option string) : RetryDecision :=
  match first with
  | None => NonTransient
  | Some code =>
      if String.prefix "EAPI:Rate limit exceeded" code
         || String.prefix "EAuth:Rate limit exceeded" code then Retry RrRateLimitExceeded
      else if String.prefix "EOrder:Rate limit exceeded" code
         || String.prefix "EOrder:Domain rate limit exceeded" code
      then Retry RrRateLimitExceeded
      else if String.prefix "EGeneral:Too many requests" code then Retry RrRateLimitExceeded
      else if String.prefix "EService:Throttled" code then Retry RrServiceThrottled
      else if String.prefix "EService:Unavailable" code
         || String.prefix "EService:Busy" code then Retry RrServiceUnavailable
      else if String.prefix "EAPI:Invalid nonce" code then Retry RrInvalidNonce
      else NonTransient
  end.

Definition is_http_status_kind (k : TransportErrorKind) : bool :=
  match k with HttpStatus _ => true | _ => false end.

Definition classify (err : RestError) (policy : RetryPolicy) : RetryDecision :=
  if negb (policy_transient policy) then
    if nonce_heal policy then
      match err with
      | RestKraken codes =>
          match classify_kraken (head codes) with
          | Retry RrInvalidNonce => Retry RrInvalidNonce
          | _ => NonTransient
          end
      | _ => NonTransient
      end
    else NonTransient
  else
    match err with
    | RestTransport kind transient =>
        if negb transient then NonTransient
        else if is_http_status_kind kind then Retry RrHttpServerError
        else Retry RrTransportError
    | RestKraken codes => classify_kraken (head codes)
    | RestRateLimit _ => NonTransient
    | RestAuth _ | RestUnexpectedShape _ => NonTransient
    end.

(** Full-jitter backoff of the engine; [powi] is [f64::powi], [unit] the draw. *)
Definition engine_next_backoff (powi : f64 → Z → f64) (e : RetryEngine) (attempt : N)
  (unit : f64) : Duration :=
  let base_ms := f64_of_N (engine_base_ms e) in
  let max_ms := f64_of_N (engine_max_ms e) in
  let factor :=
    if f64_is_finite (engine_factor e) then f64_max (engine_factor e) f64_one
    else f64_two in
  let exp := Z.min (Z.of_N attempt) 2147483647 in
  let scaled := f64_mul base_ms (powi factor exp) in
  let computed := if f64_is_finite scaled then f64_min scaled max_ms else max_ms in
  from_millis (f64_to_u64 (f64_mul computed unit)).

Definition backoff_ceiling (e : RetryEngine) : Duration := from_millis (engine_max_ms e).

(** ** [error.rs]: the throttle timestamp *)

Definition bytes (l : list N) : string := string_of_list_ascii (map ascii_of_N l).

(** A dash of the messages. *)
Definition em_dash : string := bytes [226; 128; 148].

(** The UTF-8 encodings of the characters [char::is_whitespace] accepts. *)
Definition whitespace : list string :=
  (map (λ b, bytes [b]) [9; 10; 11; 12; 13; 32] ++
   [bytes [194; 133]; bytes [194; 160]; bytes [225; 154; 128]] ++
   map (λ b, bytes [226; 128; b])
     [128; 129; 130; 131; 132; 133; 134; 135; 136; 137; 138; 168; 169; 175] ++
   [bytes [226; 129; 159]; bytes [227; 128; 128]])%list.

Definition strip_prefix (p s : string) : option string :=
  if String.prefix p s
  then Some (String.substring (String.length p) (String.length s - String.length p) s)
  else None.

Definition strip_suffix (p s : string) : option string :=
  let n := (String.length s - String.length p)%nat in
  if String.eqb (String.substring n (String.length p) s) p
  then Some (String.substring 0 n s) else None.

(** Strip characters with [strip] while one of them matches; each strips at least a
    byte, so the length of [s] bounds the number of times. *)
Fixpoint strip_all (strip : string → string → option string) (fuel : nat) (s : string)
  : string :=
  match fuel with
  | O => s
  | S fuel =>
      match omap (λ w, strip w s) whitespace with
      | [] => s
      | s' :: _ => strip_all strip fuel s'
      end
  end.

(** [str::trim] *)
Definition trim (s : string) : string :=
  let s := strip_all strip_prefix (String.length s) s in
  strip_all strip_suffix (String.length s) s.

Definition digit_value (c : ascii) : option N :=
  let b := N_of_ascii c in
  if (48 <=? b) && (b <=? 57) then Some (b - 48) else None.

Fixpoint parse_digits (acc : N) (s : string) : option N :=
  match s with
  | EmptyString => Some acc
  | String c s =>
      d ← digit_value c;
      let acc := acc * 10 + d in
      if acc <=? u64_max then parse_digits acc s else None
  end.

(** [str::parse::<u64>]: an optional plus sign, then at least one digit. *)
Definition parse_u64 (s : string) : option N :=
  let digits := match s with String "+"%char rest => rest | _ => s end in
  match digits with EmptyString => None | _ => parse_digits 0 digits end.

(** [Value::as_u64]: a number written as an integer below 2^64. *)
Definition json_as_u64 (v : Json) : option N :=
  match v with
  | JNumber EmptyString => None
  | JNumber text => parse_digits 0 text
  | _ => None
  end.

Definition error_parse_throttle_until (code : string) : option N :=
  suffix ← strip_prefix "EService:Throttled:" code;
  parse_u64 (trim suffix).

(** ** [surface.rs]: the throttle wait and the retry loop *)

Definition parse_throttle_until (codes : list string) : option N :=
  head (omap error_parse_throttle_until codes).

(** [now_secs] is the wall clock in seconds, [None] before the epoch. *)
Definition wall_seconds_until (now_secs : option N) (ts : N) : Duration :=
  match now_secs with
  | Some now => from_secs (ts - now)
  | None => 0
  end.

Inductive RateLimitCost :=
  | CostApi (cost : f64)
  | CostTrading (cost : f64) (pair : Symbol)
  | CostTradingAccountWide (cost : f64)
  | CostNone.

(** What happens outside the loop, by attempt number: the answer of each attempt,
    the shared API tracker and the clocks when the backoff is computed and when an
    envelope is stamped, and the jitter draws. *)
Record RetryEnv := mkRetryEnv {
  re_run_once : N → RestError + Json;
  re_api_tracker : N → ApiTracker;
  re_clock : N → MonotonicInstant;
  re_emit_clock : N → MonotonicInstant;
  re_wall_secs : N → option N;
  re_jitter : N → f64;
  re_powi : f64 → Z → f64;
}.

Section RetryLoop.
Context (env : RetryEnv) (sha256 : list ascii → list N) (engine : RetryEngine)
  (api_key : option ApiKey) (has_bus : bool).

Definition compute_retry_backoff (attempt : N) (reason : RetryReason) (err : RestError)
  (cost : RateLimitCost) : Duration :=
  let base := engine_next_backoff (re_powi env) engine (attempt - 1) (re_jitter env attempt) in
  match reason with
  | RrRateLimitExceeded =>
      match cost, api_key with
      | CostApi units, Some key =>
          match api_time_until_headroom (ScopeApiKey key) units (re_clock env attempt)
                  (re_api_tracker env attempt) with
          | Some t2h => N.max base t2h
          | None => base
          end
      | _, _ => base
      end
  | RrServiceThrottled =>
      match err with
      | RestKraken codes =>
          match parse_throttle_until codes with
          | Some ts =>
              N.max base (N.min (wall_seconds_until (re_wall_secs env attempt) ts)
                            (backoff_ceiling engine))
          | None => base
          end
      | _ => base
      end
  | _ => base
  end.

Inductive RestEffect :=
  | Attempted (attempt : N)
  | Slept (backoff : Duration)
  | RestPublish (e : EventEnvelope).

Definition rest_publish (at_ : MonotonicInstant) (t : EventType) (p : EventPayload)
  : list RestEffect :=
  if has_bus then [RestPublish (mkEnvelope t 1 at_ None p)] else [].

Definition emit_rest_retry_attempt (at_ : MonotonicInstant) (endpoint request_id : string)
  (attempt : N) (backoff : Duration) (reason : RetryReason) : list RestEffect :=
  rest_publish at_ RestRetryAttempt
    (PRestRetryAttempt endpoint (Some request_id) attempt
       ((backoff / 1000000) mod (u64_max + 1)) reason).

Definition emit_nonce_poisoned (at_ : MonotonicInstant) (endpoint : string)
  : list RestEffect :=
  match api_key with
  | Some key => rest_publish at_ NoncePoisonedEvent
                  (PNoncePoisoned (derive_key_fingerprint sha256 key) endpoint)
  | None => []
  end.

(** [unwrap_or_else(default).max(1)] *)
Definition attempt_budget (retry : RetryPolicy) : N :=
  N.max (default (engine_max_attempts engine) (policy_max_attempts retry)) 1.

(** The loop; [attempt] attempts were made.  [None] when the fuel runs out. *)
Fixpoint retry_loop (fuel : nat) (endpoint : string) (cost : RateLimitCost)
  (retry : RetryPolicy) (request_id : string) (attempt nonce_retries : N)
  : option ((RestError + Json) * list RestEffect) :=
  match fuel with
  | O => None
  | S fuel =>
      let attempt := u32_wrapping_add attempt 1 in
      match re_run_once env attempt with
      | inr value => Some (inr value, [Attempted attempt])
      | inl err =>
          match classify err retry with
          | NonTransient | AmbiguousOrderPlacement => Some (inl err, [Attempted attempt])
          | Retry reason =>
              let again nonce_retries :=
                let backoff := compute_retry_backoff attempt reason err cost in
                '(r, effs) ← retry_loop fuel endpoint cost retry request_id attempt
                               nonce_retries;
                Some (r, Attempted attempt :: Slept backoff ::
                         emit_rest_retry_attempt (re_emit_clock env attempt) endpoint
                           request_id (u32_wrapping_add attempt 1) backoff reason ++ effs)%list
              in
              if decide (reason = RrInvalidNonce) then
                if 1 <=? nonce_retries then
                  Some (inl err, Attempted attempt ::
                    (if engine_nonce_recovery engine
                     then emit_nonce_poisoned (re_emit_clock env attempt) endpoint else []))
                else again (nonce_retries + 1)
              else if attempt_budget retry <=? attempt then Some (inl err, [Attempted attempt])
              else again nonce_retries
          end
      end
  end.

(** Enough fuel: every attempt but one consumes the budget. *)
Definition run_retry_loop (endpoint : string) (cost : RateLimitCost) (retry : RetryPolicy)
  (request_id : string) : option ((RestError + Json) * list RestEffect) :=
  retry_loop (S (S (N.to_nat (attempt_budget retry)))) endpoint cost retry request_id 0 0.
End RetryLoop.

(** ** The loop's attempts *)

Section LoopProps.
Context (env : RetryEnv) (sha256 : list ascii → list N) (engine : RetryEngine)
  (api_key : option ApiKey) (has_bus : bool) (endpoint : string) (cost : RateLimitCost)
  (retry : RetryPolicy) (request_id : string).

#[local] Abbreviation budget := (attempt_budget engine retry).
#[local] Abbreviation loop fuel :=
  (retry_loop env sha256 engine api_key has_bus fuel endpoint cost retry request_id).

Definition attempt_number (e : RestEffect) : option N :=
  match e with Attempted n => Some n | _ => None end.

(** The attempts numbered [a + 1] to [n]. *)
Definition numbers (a n : N) : list N :=
  N.of_nat <$> seq (S (N.to_nat a)) (N.to_nat n - N.to_nat a).

(** Attempt [k] failed and its error is retried for [reason]. *)
Definition fails_with (k : N) (reason : RetryReason) : Prop :=
  ∃ err, re_run_once env k = inl err ∧ classify err retry = Retry reason.

(** The attempts made from [a] on end with [n]. *)
Definition ends_at (a n nonce_retries : N) : Prop :=
  a < n ≤ budget + 1 ∧
  (∀ k, a < k < n → ∃ reason, fails_with k reason) ∧
  (∀ j k, a < j < n → a < k < n → fails_with j RrInvalidNonce →
     fails_with k RrInvalidNonce → j = k) ∧
  (nonce_retries = 1 → ∀ k, a < k < n → ¬ fails_with k RrInvalidNonce) ∧
  (∀ reason, fails_with n reason →
     if decide (reason = RrInvalidNonce)
     then nonce_retries = 1 ∨ ∃ k, a < k < n ∧ fails_with k RrInvalidNonce
     else budget ≤ n).

Lemma fails_with_inj k r1 r2 : fails_with k r1 → fails_with k r2 → r1 = r2.
Proof. intros (e1 & H1 & C1) (e2 & H2 & C2). congruence. Qed.

Lemma numbers_one a : numbers a (a + 1) = [a + 1].
Proof. unfold numbers. replace (_ - _)%nat with 1%nat by lia. simpl. f_equal. lia. Qed.

Lemma numbers_cons a n : a + 1 < n → numbers a n = (a + 1) :: numbers (a + 1) n.
Proof.
  intros H. unfold numbers.
  replace (N.to_nat n - N.to_nat a)%nat with (S (N.to_nat n - N.to_nat (a + 1)))%nat by lia.
  replace (N.to_nat (a + 1)) with (S (N.to_nat a)) by lia. simpl. f_equal. lia.
Qed.

Lemma rest_publish_no_attempt at_ t p :
  omap attempt_number (rest_publish has_bus at_ t p) = [].
Proof. unfold rest_publish. by destruct has_bus. Qed.

Lemma ends_here a nr :
  a < budget + nr → nr ≤ 1 →
  (∀ reason, fails_with (a + 1) reason →
     if decide (reason = RrInvalidNonce) then nr = 1 else budget ≤ a + 1) →
  ends_at a (a + 1) nr.
Proof.
  intros Ha Hnr Hstop. split_and!; try lia; try (intros; lia).
  intros reason Hf. specialize (Hstop reason Hf). case_decide; auto.
Qed.

Lemma ends_later a n nr nr' reason :
  a < budget + nr → nr ≤ 1 → fails_with (a + 1) reason →
  (reason = RrInvalidNonce → nr = 0 ∧ nr' = 1) →
  (reason ≠ RrInvalidNonce → nr' = nr) →
  ends_at (a + 1) n nr' → ends_at a n nr.
Proof.
  intros Ha Hnr Hf Hn Ho (Hlt & Hall & Huniq & Hnone & Hstop).
  assert (∀ k, a < k < n → k = a + 1 ∨ a + 1 < k < n) as Hsplit by lia.
  split_and!; try lia.
  - intros k [->|Hk]%Hsplit; [by eexists|auto].
  - intros j k [->|Hj]%Hsplit [->|Hk]%Hsplit Hfj Hfk; try done; try by auto.
    + exfalso. apply (Hnone (proj2 (Hn (fails_with_inj _ _ _ Hf Hfj))) k Hk Hfk).
    + exfalso. apply (Hnone (proj2 (Hn (fails_with_inj _ _ _ Hf Hfk))) j Hj Hfj).
  - intros -> k [->|Hk]%Hsplit Hfk.
    + destruct (Hn (fails_with_inj _ _ _ Hf Hfk)). lia.
    + destruct (decide (reason = RrInvalidNonce)) as [->|Hne]; [destruct Hn; [done|lia]|].
      apply (Hnone (Ho Hne) k Hk Hfk).
  - intros r Hr. specialize (Hstop r Hr). case_decide as Hd; [|done].
    destruct Hstop as [Hs|(k & Hk & Hfk)]; [|right; exists k; split; [lia|done]].
    destruct (decide (reason = RrInvalidNonce)) as [->|Hne].
    + right. exists (a + 1). split; [lia|done].
    + left. by rewrite <-(Ho Hne).
Qed.

Lemma retry_loop_ends fuel a nr :
  nr ≤ 1 → a < budget + nr → budget < u32_max → (N.to_nat (budget + 1 - a) ≤ fuel)%nat →
  ∃ effs n, loop fuel a nr = Some (re_run_once env n, effs) ∧
    ends_at a n nr ∧ omap attempt_number effs = numbers a n.
Proof.
  revert a nr. induction fuel as [|fuel IH]; intros a nr Hnr Ha Hb Hfuel; [lia|].
  cbn [retry_loop].
  replace (u32_wrapping_add a 1) with (a + 1)
    by (unfold u32_wrapping_add; rewrite N.mod_small; unfold u32_max in *; lia).
  assert (∀ reason nr', fails_with (a + 1) reason → nr' ≤ 1 → a + 1 < budget + nr' →
    (reason = RrInvalidNonce → nr = 0 ∧ nr' = 1) → (reason ≠ RrInvalidNonce → nr' = nr) →
    ∃ effs n, loop fuel (a + 1) nr' = Some (re_run_once env n, effs) ∧
      ends_at a n nr ∧ (a + 1) :: omap attempt_number effs = numbers a n) as Hagain.
  { intros reason nr' Hf Hnr' Ha' Hn Ho.
    destruct (IH (a + 1) nr' Hnr' Ha' Hb ltac:(lia)) as (effs & n & Hr & He & Hnum).
    exists effs, n. split; [done|]. split; [by eapply ends_later|].
    destruct He as [Hlt _]. rewrite numbers_cons by lia. by f_equal. }
  destruct (re_run_once env (a + 1)) as [err|v] eqn:Hrun; [destruct (classify err retry) as [reason| |] eqn:Hc|].
  all: try (exists [Attempted (a + 1)], (a + 1); rewrite Hrun, numbers_one; split; [done|];
    split; [|done]; apply ends_here; [done|done|]; intros r (e & He & Hce); congruence).
  assert (fails_with (a + 1) reason) as Hf by by exists err.
  destruct (decide (reason = RrInvalidNonce)) as [Hd|Hd]; [destruct (1 <=? nr) eqn:Hle|destruct (_ <=? _) eqn:Hle].
  - apply N.leb_le in Hle. eexists _, (a + 1). rewrite Hrun, numbers_one. split; [done|].
    split; [apply ends_here; [done|done|]|].
    + intros r Hr. rewrite (fails_with_inj _ _ _ Hr Hf), decide_True by done. lia.
    + simpl. f_equal. unfold emit_nonce_poisoned.
      destruct (engine_nonce_recovery engine), api_key; try done. apply rest_publish_no_attempt.
  - apply N.leb_gt in Hle.
    destruct (Hagain reason (nr + 1) Hf ltac:(lia) ltac:(lia)) as (effs & n & Hr & He & Hnum).
    { lia. } { done. }
    rewrite Hr. simpl. eexists _, n. split; [done|]. split; [done|].
    unfold emit_rest_retry_attempt. simpl. by rewrite omap_app, rest_publish_no_attempt.
  - apply N.leb_le in Hle. exists [Attempted (a + 1)], (a + 1).
    rewrite Hrun, numbers_one. split; [done|]. split; [|done].
    apply ends_here; [done|done|]. intros r Hr.
    rewrite (fails_with_inj _ _ _ Hr Hf), decide_False by done. done.
  - apply N.leb_gt in Hle.
    destruct (Hagain reason nr Hf Hnr ltac:(lia)) as (effs & n & Hr & He & Hnum).
    { done. } { done. }
    rewrite Hr. simpl. eexists _, n. split; [done|]. split; [done|].
    unfold emit_rest_retry_attempt. simpl. by rewrite omap_app, rest_publish_no_attempt.
Qed.
End LoopProps.

(** ** Properties *)

(** The retry loop always finishes, and it makes attempts 1 to [n] where [n] is at
    most the budget plus one fresh-nonce re-sign; its result is attempt [n]'s.  Every
    earlier attempt failed with an error the policy retries, at most one of them for
    an invalid nonce.  It stops on success, on an error not retried, when the budget
    is spent, or at a second invalid nonce. *)
Theorem retry_loop_outcome env sha256 engine api_key has_bus endpoint cost retry request_id :
  attempt_budget engine retry < u32_max →
  ∃ effs n,
    run_retry_loop env sha256 engine api_key has_bus endpoint cost retry request_id =
      Some (re_run_once env n, effs) ∧
    omap attempt_number effs = numbers 0 n ∧
    1 ≤ n ≤ attempt_budget engine retry + 1 ∧
    (∀ k, 0 < k < n → ∃ reason, fails_with env retry k reason) ∧
    (∀ j k, 0 < j < n → 0 < k < n → fails_with env retry j RrInvalidNonce →
       fails_with env retry k RrInvalidNonce → j = k) ∧
    (∀ reason, fails_with env retry n reason →
       if decide (reason = RrInvalidNonce)
       then ∃ k, 0 < k < n ∧ fails_with env retry k RrInvalidNonce
       else attempt_budget engine retry ≤ n).
Proof.
  intros Hb. destruct (retry_loop_ends env sha256 engine api_key has_bus endpoint cost retry
    request_id (S (S (N.to_nat (attempt_budget engine retry)))) 0 0)
    as (effs & n & Hr & (Hn & Hall & Huniq & _ & Hstop) & Hnum); [lia| |done|lia|].
  - unfold attempt_budget. lia.
  - exists effs, n. split_and!; try done; try lia. intros reason Hf.
    specialize (Hstop reason Hf). case_decide; [|done]. by destruct Hstop as [?|?].
Qed.

(** Two throttled answers, then success. *)
Definition flaky_env : RetryEnv :=
  mkRetryEnv
    (λ k, if k <? 3 then inl (RestKraken ["EService:Busy"]) else inr JNull)
    (λ _, api_new Starter) (λ _, 0) (λ _, 0) (λ _, Some 0) (λ _, f64_one) (λ _ _, f64_one).

Lemma retry_loop_outcome_witness :
  attempt_budget (engine_from_knobs defaults) idempotent = 3 ∧
  ∃ effs n,
    run_retry_loop flaky_env (λ _, []) (engine_from_knobs defaults) None false "/0/public/Time"
      CostNone idempotent "r1" = Some (re_run_once flaky_env n, effs) ∧
    omap attempt_number effs = numbers 0 n ∧ 1 ≤ n ≤ 4.
Proof.
  split; [by vm_compute|].
  destruct (retry_loop_outcome flaky_env (λ _, []) (engine_from_knobs defaults) None false
    "/0/public/Time" CostNone idempotent "r1") as (effs & n & Hr & Hnum & Hn & _);
    [by vm_compute|].
  exists effs, n. split; [exact Hr|]. split; [exact Hnum|]. exact Hn.
Defined.

(** A policy that does not retry transients only ever retries an invalid nonce, and
    only with nonce healing. *)
Lemma classify_placement retry err reason :
  policy_transient retry = false → classify err retry = Retry reason →
  reason = RrInvalidNonce ∧ nonce_heal retry = true.
Proof.
  intros Ht. unfold classify. rewrite Ht. simpl.
  destruct (nonce_heal retry); [|done]. destruct err; try done.
  by destruct (classify_kraken _) as [[]| |]; intros [= <-].
Qed.

(** An order placement is never sent twice: under the never-retry policy the loop
    makes exactly one attempt, whatever fails and whatever the knobs say, and returns
    its answer; with nonce healing (validate mode) a second attempt happens only
    after an invalid nonce, and never a third. *)
Theorem placement_never_resent env sha256 engine api_key has_bus endpoint cost request_id :
  run_retry_loop env sha256 engine api_key has_bus endpoint cost never_retry request_id =
    Some (re_run_once env 1, [Attempted 1]) ∧
  ∃ effs n,
    run_retry_loop env sha256 engine api_key has_bus endpoint cost never_retry_except_nonce
      request_id = Some (re_run_once env n, effs) ∧
    omap attempt_number effs = numbers 0 n ∧
    (n = 1 ∨ n = 2 ∧ ∃ codes, re_run_once env 1 = inl (RestKraken codes) ∧
                       classify_kraken (head codes) = Retry RrInvalidNonce).
Proof.
  split.
  - unfold run_retry_loop. cbn [retry_loop]. change (u32_wrapping_add 0 1) with 1.
    by destruct (re_run_once env 1) as [[]|].
  - destruct (retry_loop_ends env sha256 engine api_key has_bus endpoint cost
      never_retry_except_nonce request_id 3 0 0)
      as (effs & n & Hr & (Hn & Hall & Huniq & _) & Hnum);
      [lia|by vm_compute|by vm_compute|vm_compute; lia|].
    exists effs, n. split; [exact Hr|]. split; [done|].
    destruct (decide (n = 1)) as [|Hne]; [by left|right].
    change (attempt_budget engine never_retry_except_nonce) with 1 in Hn.
    split; [lia|]. destruct (Hall 1 ltac:(lia)) as (reason & err & He & Hc).
    unfold classify in Hc. simpl in Hc. destruct err; try done.
    destruct (classify_kraken _) as [[]| |] eqn:Hk; try done. by eexists.
Qed.

Lemma nonneg_min x y : nonneg x → nonneg y → nonneg (f64_min x y).
Proof. intros. unfold f64_min. by repeat case_match. Qed.

Lemma engine_next_backoff_le powi e attempt u :
  (∀ f n, f64_le f64_one f = true → (0 ≤ n)%Z → nonneg_inf (powi f n)) →
  nonneg u → f64_le u f64_one = true →
  engine_base_ms e ≤ u32_max → engine_max_ms e ≤ u32_max →
  engine_next_backoff powi e attempt u ≤ backoff_ceiling e.
Proof.
  intros Hpow Hu Hu1 Hbase Hmax. unfold engine_next_backoff, backoff_ceiling, from_millis.
  apply N.mul_le_mono_r.
  destruct (f64_of_N_le (engine_max_ms e)) as [Hm Hmle]; [unfold u32_max in *; lia|].
  destruct (f64_of_N_le (engine_base_ms e)) as [Hb _]; [unfold u32_max in *; lia|].
  set (factor := if f64_is_finite (engine_factor e) then _ else _).
  assert (f64_le f64_one factor = true) as Hf.
  { unfold factor. destruct (f64_is_finite _); [by apply f64_max_ge_r|done]. }
  specialize (Hpow factor (Z.min (Z.of_N attempt) 2147483647) Hf ltac:(lia)).
  pose proof (f64_mul_nonneg_inf _ _ (nonneg_weaken _ Hb) Hpow) as Hs.
  set (scaled := f64_mul _ (powi _ _)) in *.
  set (computed := if f64_is_finite scaled then _ else _).
  assert (nonneg computed ∧ f64_le computed (f64_of_N (engine_max_ms e)) = true) as [Hc Hcle].
  { unfold computed. destruct (f64_is_finite scaled) eqn:Hfin.
    - assert (nonneg scaled).
      { destruct Hs as [Hs|(? & ? & ?)]; [by rewrite Hs in Hfin|by split_and!]. }
      split; [by apply nonneg_min|]. apply f64_min_le_r. by apply nonneg_not_nan.
    - split; [done|]. apply f64_le_refl. by apply nonneg_not_nan. }
  destruct (f64_mul_le computed u Hc Hu Hu1) as [Hd Hdle].
  etransitivity; [|exact Hmle]. apply f64_to_u64_mono; [done|done|].
  by eapply f64_le_trans.
Qed.

(** Between attempts the loop never sleeps longer than the backoff ceiling
    ([rest_retry_max_ms]), unless it waits for the API counter's headroom: not for a
    huge exponent, nor for a far-future throttle timestamp sent by the exchange. *)
Theorem retry_backoff_bounded env engine api_key attempt reason err cost :
  (∀ f n, f64_le f64_one f = true → (0 ≤ n)%Z → nonneg_inf (re_powi env f n)) →
  nonneg (re_jitter env attempt) → f64_le (re_jitter env attempt) f64_one = true →
  engine_base_ms engine ≤ u32_max → engine_max_ms engine ≤ u32_max →
  reason ≠ RrRateLimitExceeded →
  compute_retry_backoff env engine api_key attempt reason err cost ≤ backoff_ceiling engine.
Proof.
  intros Hpow Hu Hu1 Hb Hm Hr.
  pose proof (engine_next_backoff_le (re_powi env) engine (attempt - 1) _ Hpow Hu Hu1 Hb Hm).
  unfold compute_retry_backoff. destruct reason; try done.
  destruct err; try done. destruct (parse_throttle_until codes); [|done]. lia.
Qed.

Lemma retry_backoff_bounded_witness :
  compute_retry_backoff flaky_env (engine_from_knobs defaults) None 1 RrServiceThrottled
    (RestKraken ["EService:Throttled: 99999999999"]) CostNone
  ≤ backoff_ceiling (engine_from_knobs defaults).
Proof.
  apply retry_backoff_bounded; [|by vm_compute..]. intros f n _ _. by vm_compute.
Defined.
