(* ===== verification/ConfigResolver.v ===== *)
(** * ConfigResolver: the knobs from builder, environment, file and defaults

    [rust/src/build/config_resolver.rs] and the error of [rust/src/build/client/mod.rs].  The
    process environment, the file system and the TOML parser are parameters. *)

From Stdlib Require Import Ascii String SpecFloat.
From S2P Require Import Prelude F64 Types Knobs Errors Rest.
Local Open Scope string_scope.
Local Open Scope N_scope.

(** ** [ConfigError] *)

Inductive ConfigError :=
  | MissingCredentials | InvalidCredentials | WsAuthRequiresCredentials
  | ImmutableKnob (knob : string)
  | InvalidCLOrdId | NonceConflict
  | FeatureDisabled (feature : string)
  | ConfigEmptyAmend | ConfigClientClosed
  | InsecureEndpointScheme (knob scheme : string)
  | HeadersRequireSdkTransport
  | ReservedHeaderName (name : string)
  | InvalidConfig (detail : string)
  | ConfigUnknown (kraken_code kraken_message : string).

Definition config_error_code (e : ConfigError) : string :=
  match e with
  | MissingCredentials | InvalidCredentials | WsAuthRequiresCredentials => "BAD_CREDS"
  | ImmutableKnob _ | ConfigEmptyAmend => "INVALID_ARGUMENTS"
  | HeadersRequireSdkTransport => "HEADERS_REQUIRE_SDK_TRANSPORT"
  | ReservedHeaderName _ => "RESERVED_HEADER_NAME"
  | InvalidCLOrdId => "INVALID_CL_ORD_ID"
  | NonceConflict => "NONCE_CONFLICT"
  | FeatureDisabled _ => "FEATURE_DISABLED"
  | ConfigClientClosed => "CLIENT_CLOSED"
  | InsecureEndpointScheme _ _ => "INSECURE_ENDPOINT_SCHEME"
  | InvalidConfig _ => "INVALID_CONFIG"
  | ConfigUnknown _ _ => "UNKNOWN"
  end.

Definition config_error_category (e : ConfigError) : ErrorCategory :=
  match e with ConfigClientClosed => CatClient | _ => CatConfig end.

(** ** Sources and the outside *)

Inductive ConfigSource := SrcBuilder | SrcEnv | SrcFile | SrcDefault.

#[export] Instance ConfigSource_eq_dec : EqDecision ConfigSource.
Proof. solve_decision. Defined.

Definition source_str (s : ConfigSource) : string :=
  match s with
  | SrcBuilder => "Builder" | SrcEnv => "Env" | SrcFile => "File" | SrcDefault => "Default"
  end.

(** Knob name to source. *)
Abbreviation SourceMap := (gmap string ConfigSource).

Inductive TomlValue :=
  | TomlInteger (i : Z) | TomlFloat (x : f64) | TomlBool (b : bool) | TomlString (s : string)
  | TomlOther.

(** [std::env::var], [read_to_string] with its error's text, and the parse of a table: its
    entries in the table's order, or the start of the error's span. *)
Record ConfigEnv := mkConfigEnv {
  env_var : string → option string;
  read_file : string → string + string;
  toml_parse : string → option nat + list (string * TomlValue);
}.

Record ConfigResolver := mkResolver {
  builder_overrides : list (string * KnobValue);
  config_file : option string;
}.

Definition resolver_new : ConfigResolver := mkResolver [] None.

Definition with_builder_knob (name : string) (value : KnobValue) (r : ConfigResolver)
  : ConfigResolver :=
  mkResolver (builder_overrides r ++ [(name, value)]) (config_file r).

Definition with_config_file (path : string) (r : ConfigResolver) : ConfigResolver :=
  mkResolver (builder_overrides r) (Some path).

(** ** Parsing values *)

Definition parse_u32 (s : string) : option N :=
  v ← parse_u64 s; if v <=? u32_max then Some v else None.

Definition parse_bool (s : string) : option bool :=
  if decide (s = "true") then Some true else if decide (s = "false") then Some false else None.

Definition eq_ignore_ascii_case (a b : string) : bool :=
  String.eqb (to_ascii_uppercase a) (to_ascii_uppercase b).

(** *** [str::parse::<f64>] *)

(** The leading digits: their value, their number and the rest. *)
Fixpoint take_digits (acc : N) (n : nat) (s : string) : N * nat * string :=
  match s with
  | String c rest =>
      match digit_value c with
      | Some d => take_digits (acc * 10 + d) (S n) rest
      | None => (acc, n, s)
      end
  | EmptyString => (acc, n, s)
  end.

Definition take_sign (s : string) : bool * string :=
  match s with
  | String "-"%char rest => (true, rest)
  | String "+"%char rest => (false, rest)
  | _ => (false, s)
  end.

(** The exponent: absent, or [e], a sign and digits up to the end. *)
Definition take_exponent (s : string) : option Z :=
  match s with
  | EmptyString => Some 0%Z
  | String c rest =>
      if Ascii.eqb c "e" || Ascii.eqb c "E" then
        let '(neg, rest) := take_sign rest in
        let '(v, n, rest) := take_digits 0 0 rest in
        if (n =? 0)%nat || negb (String.eqb rest "") then None
        else Some (if neg : bool then - Z.of_N v else Z.of_N v)%Z
      else None
  end.

(** The double nearest to [m * 10^e]. *)
Definition f64_scaled (neg : bool) (m : N) (e : Z) : f64 :=
  match m with
  | 0 => S754_zero neg
  | N.pos p =>
      if (0 <=? e)%Z then
        match (Z.pos p * 10 ^ e)%Z with
        | Z.pos q => SFdiv prec emax (S754_finite neg q 0) (S754_finite false 1 0)
        | _ => S754_zero neg
        end
      else
        match (10 ^ (- e))%Z with
        | Z.pos q => SFdiv prec emax (S754_finite neg p 0) (S754_finite false q 0)
        | _ => S754_zero neg
        end
  end.

Definition parse_f64_number (neg : bool) (s : string) : option f64 :=
  let '(m, n, rest) := take_digits 0 0 s in
  let '(m, n, k, rest) :=
    match rest with
    | String "."%char rest =>
        let '(m', n', rest) := take_digits m 0 rest in (m', (n + n')%nat, n', rest)
    | _ => (m, n, 0%nat, rest)
    end in
  if (n =? 0)%nat then None
  else e ← take_exponent rest; Some (f64_scaled neg m (e - Z.of_nat k)).

Definition parse_f64 (s : string) : option f64 :=
  let '(neg, s) := take_sign s in
  if eq_ignore_ascii_case s "inf" || eq_ignore_ascii_case s "infinity"
  then Some (S754_infinity neg)
  else if eq_ignore_ascii_case s "nan" then Some S754_nan
  else parse_f64_number neg s.

Example parse_f64_samples :
  parse_f64 "0.80" = Some (f64_dec 80 2) ∧ parse_f64 "+2" = Some f64_two ∧
  parse_f64 "1." = Some f64_one ∧ parse_f64 "100e-2" = Some f64_one ∧
  parse_f64 ".5E1" = Some (f64_of_Z 5) ∧ parse_f64 "-Inf" = Some (S754_infinity true) ∧
  parse_f64 "." = None ∧ parse_f64 "1e" = None ∧ parse_f64 "e1" = None ∧ parse_f64 " 1" = None.
Proof. vm_compute. done. Qed.

(** *** Knob values *)

Definition parse_env_value (knob : KnobName) (raw : string) : option KnobValue :=
  let raw := trim raw in
  match knob with
  | BackoffJitter | BackoffFactor | RestRetryFactor
  | RateLimitApiWarningPct | RateLimitTradingWarningPct => KF64 <$> parse_f64 raw
  | RateLimitTradingScopeCap | ClOrdIdIndexCap => Usize <$> parse_u64 raw
  | ReconnectAttempts | WsOrderResponseDeadlineMs =>
      if String.eqb raw "" || eq_ignore_ascii_case raw "none" then Some (OptU32 None)
      else (λ v, OptU32 (Some v)) <$> parse_u32 raw
  | NonceRecovery | PreferRestForOrders => KBool <$> parse_bool raw
  | RestBaseUrl | WsPublicUrl | WsAuthUrl =>
      if String.eqb raw "" then None else Some (KStr raw)
  | _ => U32 <$> parse_u32 raw
  end.

(** [try_from] an [i64]. *)
Definition integer_upto (max : N) (i : Z) : option N :=
  if (0 <=? i)%Z && (i <=? Z.of_N max)%Z then Some (Z.to_N i) else None.

Definition toml_integer (tv : TomlValue) : option Z :=
  match tv with TomlInteger i => Some i | _ => None end.
Definition toml_str (tv : TomlValue) : option string :=
  match tv with TomlString s => Some s | _ => None end.

Definition toml_to_knob_value (knob : KnobName) (tv : TomlValue) : option KnobValue :=
  match knob with
  | BackoffJitter | BackoffFactor | RestRetryFactor
  | RateLimitApiWarningPct | RateLimitTradingWarningPct =>
      match tv with TomlFloat x => Some (KF64 x) | _ => None end
  | RateLimitTradingScopeCap | ClOrdIdIndexCap =>
      i ← toml_integer tv; Usize <$> integer_upto u64_max i
  | ReconnectAttempts | WsOrderResponseDeadlineMs =>
      match tv with
      | TomlInteger i => (λ v, OptU32 (Some v)) <$> integer_upto u32_max i
      | TomlString s => parse_env_value knob s
      | _ => None
      end
  | NonceRecovery | PreferRestForOrders =>
      match tv with TomlBool b => Some (KBool b) | _ => None end
  | RestBaseUrl | WsPublicUrl | WsAuthUrl =>
      s ← toml_str tv;
      let s := trim s in if String.eqb s "" then None else Some (KStr s)
  | _ => i ← toml_integer tv; U32 <$> integer_upto u32_max i
  end.

(** ** Applying an override *)

(** The knobs with one construction-only field replaced. *)
Definition with_field (knob : KnobName) (v : KnobValue) (k : Knobs) : Knobs := {|
  backoff_base_ms := match knob, v with BackoffBaseMs, U32 n => n | _, _ => backoff_base_ms k end;
  backoff_max_ms := match knob, v with BackoffMaxMs, U32 n => n | _, _ => backoff_max_ms k end;
  backoff_jitter := match knob, v with BackoffJitter, KF64 x => x | _, _ => backoff_jitter k end;
  backoff_factor := match knob, v with BackoffFactor, KF64 x => x | _, _ => backoff_factor k end;
  reconnect_attempts := reconnect_attempts k;
  staleness_window_ms :=
    match knob, v with StalenessWindowMs, U32 n => n | _, _ => staleness_window_ms k end;
  subscribe_ack_attempts := subscribe_ack_attempts k;
  subscribe_ack_timeout_ms := subscribe_ack_timeout_ms k;
  max_auth_handshake_failures := max_auth_handshake_failures k;
  close_timeout_ms := match knob, v with CloseTimeoutMs, U32 n => n | _, _ => close_timeout_ms k end;
  upgrade_timeout_ms :=
    match knob, v with UpgradeTimeoutMs, U32 n => n | _, _ => upgrade_timeout_ms k end;
  connection_rate_budget :=
    match knob, v with ConnectionRateBudget, U32 n => n | _, _ => connection_rate_budget k end;
  connection_rate_window_secs :=
    match knob, v with
    | ConnectionRateWindowSecs, U32 n => n | _, _ => connection_rate_window_secs k end;
  slow_callback_threshold_ms := slow_callback_threshold_ms k;
  ws_order_response_deadline_ms :=
    match knob, v with
    | WsOrderResponseDeadlineMs, OptU32 o => o | _, _ => ws_order_response_deadline_ms k end;
  prefer_rest_for_orders :=
    match knob, v with PreferRestForOrders, KBool b => b | _, _ => prefer_rest_for_orders k end;
  request_timeout_ms :=
    match knob, v with RequestTimeoutMs, U32 n => n | _, _ => request_timeout_ms k end;
  rest_retry_max_attempts :=
    match knob, v with RestRetryMaxAttempts, U32 n => n | _, _ => rest_retry_max_attempts k end;
  rest_retry_base_ms :=
    match knob, v with RestRetryBaseMs, U32 n => n | _, _ => rest_retry_base_ms k end;
  rest_retry_max_ms :=
    match knob, v with RestRetryMaxMs, U32 n => n | _, _ => rest_retry_max_ms k end;
  rest_retry_factor :=
    match knob, v with RestRetryFactor, KF64 x => x | _, _ => rest_retry_factor k end;
  nonce_recovery := match knob, v with NonceRecovery, KBool b => b | _, _ => nonce_recovery k end;
  rate_limit_api_warning_pct := rate_limit_api_warning_pct k;
  rate_limit_trading_warning_pct := rate_limit_trading_warning_pct k;
  rate_limit_trading_scope_cap :=
    match knob, v with
    | RateLimitTradingScopeCap, Usize n => n | _, _ => rate_limit_trading_scope_cap k end;
  cl_ord_id_index_cap :=
    match knob, v with ClOrdIdIndexCap, Usize n => n | _, _ => cl_ord_id_index_cap k end;
  caller_to_io_capacity :=
    match knob, v with CallerToIoCapacity, U32 n => n | _, _ => caller_to_io_capacity k end;
  io_to_dispatch_capacity :=
    match knob, v with IoToDispatchCapacity, U32 n => n | _, _ => io_to_dispatch_capacity k end;
  rest_base_url := match knob, v with RestBaseUrl, KStr s => s | _, _ => rest_base_url k end;
  ws_public_url := match knob, v with WsPublicUrl, KStr s => s | _, _ => ws_public_url k end;
  ws_auth_url := match knob, v with WsAuthUrl, KStr s => s | _, _ => ws_auth_url k end;
|}.

(** [apply_value]: [None] on a mismatch of type, or a value a runtime knob refuses. *)
Definition apply_value (k : Knobs) (knob : KnobName) (value : KnobValue) : option Knobs :=
  if is_runtime_mutable knob then snd <$> set_runtime_knob knob value k
  else
    match knob, value with
    | (BackoffBaseMs | BackoffMaxMs | StalenessWindowMs | CloseTimeoutMs | UpgradeTimeoutMs
       | ConnectionRateBudget | ConnectionRateWindowSecs | RequestTimeoutMs
       | RestRetryMaxAttempts | RestRetryBaseMs | RestRetryMaxMs | CallerToIoCapacity
       | IoToDispatchCapacity), U32 _
    | (BackoffJitter | BackoffFactor | RestRetryFactor), KF64 _
    | WsOrderResponseDeadlineMs, OptU32 _
    | (NonceRecovery | PreferRestForOrders), KBool _
    | (RateLimitTradingScopeCap | ClOrdIdIndexCap), Usize _
    | (RestBaseUrl | WsPublicUrl | WsAuthUrl), KStr _ => Some (with_field knob value k)
    | _, _ => None
    end.

Definition apply_knob (knob : KnobName) (value : KnobValue) (source : ConfigSource)
  (st : Knobs * SourceMap) : ConfigError + (Knobs * SourceMap) :=
  match apply_value st.1 knob value with
  | None => inl (InvalidConfig ("unknown or wrong-typed knob `" ++ knob_as_str knob ++
                                "` from " ++ source_str source))
  | Some k => inr (k, <[knob_as_str knob := source]> st.2)
  end.

(** One pass of [resolve] over the items of a source: what an item names and sets is applied
    at once, nothing for an absent one, and the first failure ends the pass. *)
Fixpoint apply_layer {A} (entry : A → ConfigError + option (KnobName * KnobValue))
  (source : ConfigSource) (l : list A) (st : Knobs * SourceMap)
  : ConfigError + (Knobs * SourceMap) :=
  match l with
  | [] => inr st
  | a :: l =>
      match entry a with
      | inl e => inl e
      | inr None => apply_layer entry source l st
      | inr (Some (knob, value)) =>
          match apply_knob knob value source st with
          | inl e => inl e
          | inr st => apply_layer entry source l st
          end
      end
  end.

(** ** Interpolation *)

Fixpoint str_take (n : nat) (s : string) : string :=
  match n, s with S n, String c s => String c (str_take n s) | _, _ => EmptyString end.

Fixpoint str_drop (n : nat) (s : string) : string :=
  match n, s with S n, String _ s => str_drop n s | _, _ => s end.

Definition INTERPOLATION_ENV_PREFIX : string := "KRAKEN_".

(** Where the scanner is. *)
Inductive Ctx := InCode | InComment | InBasic | InLiteral | InBasicMulti | InLiteralMulti.

#[export] Instance Ctx_eq_dec : EqDecision Ctx.
Proof. solve_decision. Defined.

Definition basic_quotes : string := quote_char ++ quote_char ++ quote_char.
Definition literal_quotes : string := "'''".
Definition newline : ascii := "010".

(** The length of the delimiter that ends the string the scanner is in. *)
Definition closing (ctx : Ctx) (s : string) : option nat :=
  match ctx with
  | InBasic => if String.prefix quote_char s then Some 1%nat else None
  | InLiteral => if String.prefix "'" s then Some 1%nat else None
  | InBasicMulti => if String.prefix basic_quotes s then Some 3%nat else None
  | InLiteralMulti => if String.prefix literal_quotes s then Some 3%nat else None
  | InCode | InComment => None
  end.

(** What the next bytes of code open, and how many of them do. *)
Definition opening (s : string) : nat * Ctx :=
  if String.prefix "#" s then (1%nat, InComment)
  else if String.prefix basic_quotes s then (3%nat, InBasicMulti)
  else if String.prefix quote_char s then (1%nat, InBasic)
  else if String.prefix literal_quotes s then (3%nat, InLiteralMulti)
  else if String.prefix "'" s then (1%nat, InLiteral)
  else (1%nat, InCode).

Section Env.
Context (env : ConfigEnv).

(** [expand_interpolation] on a text that starts with the token: the value and what follows. *)
Definition expand_interpolation (s : string) : ConfigError + (string * string) :=
  match split_once "}" (str_drop 2 s) with
  | None => inl (InvalidConfig "config file: unterminated `${` interpolation")
  | Some (var, rest) =>
      if negb (String.prefix INTERPOLATION_ENV_PREFIX var) then
        inl (InvalidConfig ("config file: refusing to interpolate `${" ++ var ++ "}` " ++
               em_dash ++ " only `${" ++ INTERPOLATION_ENV_PREFIX ++
               "*}` env vars may be interpolated"))
      else
        match env_var env var with
        | None => inl (InvalidConfig ("config file: unresolved interpolation `${" ++ var ++ "}`"))
        | Some val => inr (val, rest)
        end
  end.

(** [interpolate_env] from a context: what is left of the text is copied or replaced.  Every
    step consumes a byte, so the length of the text is fuel enough
    ([interpolate_from_fuel]). *)
Fixpoint interpolate_from (fuel : nat) (ctx : Ctx) (s : string) : ConfigError + string :=
  match fuel, s with
  | O, _ | _, EmptyString => inr EmptyString
  | S fuel, String b _ =>
      let copy (n : nat) (ctx : Ctx) :=
        match interpolate_from fuel ctx (str_drop n s) with
        | inl e => inl e
        | inr out => inr (str_take n s ++ out)
        end in
      if decide (ctx = InComment) then copy 1%nat (if Ascii.eqb b newline then InCode else ctx)
      else if bool_decide (ctx = InBasic ∨ ctx = InBasicMulti) && Ascii.eqb b "\" then copy 2%nat ctx
      else
        match closing ctx s with
        | Some n => copy n InCode
        | None =>
            if String.prefix "${" s then
              match expand_interpolation s with
              | inl e => inl e
              | inr (val, rest) =>
                  match interpolate_from fuel ctx rest with
                  | inl e => inl e
                  | inr out => inr (val ++ out)
                  end
              end
            else if decide (ctx = InCode) then let '(n, ctx) := opening s in copy n ctx
            else copy 1%nat ctx
        end
  end.

Definition interpolate_env (raw : string) : ConfigError + string :=
  interpolate_from (String.length raw) InCode raw.

(** ** [resolve] *)

Fixpoint count_byte (c : ascii) (s : string) : nat :=
  match s with
  | EmptyString => O
  | String b s => (if Ascii.eqb b c then 1 else 0) + count_byte c s
  end.

(** The bytes after the last newline. *)
Fixpoint since_newline (n : nat) (s : string) : nat :=
  match s with
  | EmptyString => n
  | String b s => since_newline (if Ascii.eqb b newline then O else S n) s
  end.

(** Where a parse failed: never the text itself. *)
Definition parse_position (text : string) (start : option nat) : string :=
  match start with
  | None => ""
  | Some start =>
      let head := str_take start text in
      " at line " ++ decimal (N.of_nat (count_byte newline head) + 1) ++
      ", column " ++ decimal (N.of_nat (since_newline 0 head) + 1)
  end.

Definition file_table (path : string) : ConfigError + list (string * TomlValue) :=
  match read_file env path with
  | inl e => inl (InvalidConfig ("config file read failed: " ++ e))
  | inr raw =>
      match interpolate_env raw with
      | inl e => inl e
      | inr text =>
          match toml_parse env text with
          | inl start => inl (InvalidConfig ("config file parse failed" ++ parse_position text start))
          | inr table => inr table
          end
      end
  end.

Definition file_entry (e : string * TomlValue) : ConfigError + option (KnobName * KnobValue) :=
  let refuse := inl (InvalidConfig ("config file: unknown or wrong-typed knob `" ++ e.1 ++ "`")) in
  match knob_from_str e.1 with
  | None => refuse
  | Some knob =>
      match toml_to_knob_value knob e.2 with
      | None => refuse
      | Some value => inr (Some (knob, value))
      end
  end.

Definition env_key (knob : KnobName) : string :=
  "KRAKEN_" ++ to_ascii_uppercase (knob_as_str knob).

Definition env_entry (knob : KnobName) : ConfigError + option (KnobName * KnobValue) :=
  match env_var env (env_key knob) with
  | None => inr None
  | Some raw =>
      if String.eqb (trim raw) "" && is_string_knob knob then inr None
      else
        match parse_env_value knob raw with
        | None => inl (InvalidConfig ("env " ++ env_key knob ++ ": cannot parse value for knob `" ++
                                      knob_as_str knob ++ "`"))
        | Some value => inr (Some (knob, value))
        end
  end.

Definition builder_entry (e : string * KnobValue) : ConfigError + option (KnobName * KnobValue) :=
  match knob_from_str e.1 with
  | None => inl (InvalidConfig ("unknown or wrong-typed knob `" ++ e.1 ++ "` from Builder"))
  | Some knob => inr (Some (knob, e.2))
  end.

(** Names without a source came from the defaults. *)
Definition default_source (m : SourceMap) (k : KnobName) : SourceMap :=
  match m !! knob_as_str k with
  | Some _ => m
  | None => <[knob_as_str k := SrcDefault]> m
  end.

Definition default_sources (m : SourceMap) : SourceMap := foldl default_source m all_knobs.

Definition STALENESS_WINDOW_HARD_CAP_MS : N := 55000.

Definition cap_staleness (k : Knobs) : Knobs :=
  if STALENESS_WINDOW_HARD_CAP_MS <? staleness_window_ms k
  then with_field StalenessWindowMs (U32 STALENESS_WINDOW_HARD_CAP_MS) k else k.

Fixpoint reject_zero (l : list (string * N)) : ConfigError + () :=
  match l with
  | [] => inr tt
  | (name, value) :: l =>
      if value =? 0 then inl (InvalidConfig ("knob `" ++ name ++ "` must be >= 1 (got 0)"))
      else reject_zero l
  end.

Definition reject_zero_knobs (k : Knobs) : ConfigError + () :=
  match reject_zero
    [("caller_to_io_capacity", caller_to_io_capacity k);
     ("io_to_dispatch_capacity", io_to_dispatch_capacity k);
     ("connection_rate_budget", connection_rate_budget k);
     ("backoff_base_ms", backoff_base_ms k);
     ("backoff_max_ms", backoff_max_ms k);
     ("rest_retry_base_ms", rest_retry_base_ms k);
     ("rest_retry_max_ms", rest_retry_max_ms k)] with
  | inl e => inl e
  | inr _ =>
      reject_zero
        [("rate_limit_trading_scope_cap", rate_limit_trading_scope_cap k);
         ("cl_ord_id_index_cap", cl_ord_id_index_cap k)]
  end.

(** The entries of the file's table, none without a file. *)
Definition config_table (r : ConfigResolver) : ConfigError + list (string * TomlValue) :=
  match config_file r with None => inr [] | Some path => file_table path end.

Definition resolve_config (r : ConfigResolver) : ConfigError + (Knobs * SourceMap) :=
  match config_table r with
  | inl e => inl e
  | inr table =>
      match apply_layer file_entry SrcFile table (defaults, ∅) with
      | inl e => inl e
      | inr st =>
          match apply_layer env_entry SrcEnv all_knobs st with
          | inl e => inl e
          | inr st =>
              match apply_layer builder_entry SrcBuilder (builder_overrides r) st with
              | inl e => inl e
              | inr (k, m) =>
                  let m := default_sources m in
                  let k := cap_staleness k in
                  match reject_zero_knobs k with
                  | inl e => inl e
                  | inr _ => inr (k, m)
                  end
              end
          end
      end
  end.
End Env.

(** ** [validate_endpoint_schemes] *)

Definition has_scheme (url scheme : string) : bool :=
  eq_ignore_ascii_case (str_take (String.length scheme) url) scheme.

Definition require_scheme (knob : KnobName) (url scheme : string) : ConfigError + () :=
  if has_scheme url scheme then inr tt else inl (InsecureEndpointScheme (knob_as_str knob) scheme).

Definition validate_endpoint_schemes (k : Knobs) (check_rest : bool) : ConfigError + () :=
  match (if check_rest then require_scheme RestBaseUrl (rest_base_url k) "https://" else inr tt) with
  | inl e => inl e
  | inr _ =>
      match require_scheme WsPublicUrl (ws_public_url k) "wss://" with
      | inl e => inl e
      | inr _ => require_scheme WsAuthUrl (ws_auth_url k) "wss://"
      end
  end.
