(* ===== verification/ConfigProps.v ===== *)
(** * ConfigProps: what the resolved configuration is *)

From Stdlib Require Import Ascii String.
From S2P Require Import Prelude F64 Types Knobs Errors Rest ConfigResolver.
Local Open Scope string_scope.
Local Open Scope N_scope.

(** ** One override *)



#[export] Instance knob_as_str_inj : Inj (=) (=) knob_as_str.
Proof.
  intros a b Heq. apply (f_equal knob_from_str) in Heq. rewrite !knob_name_roundtrip in Heq.
  congruence.
Qed.

(** ** One layer *)

Section Layer.
Context {A : Type} (entry : A → ConfigError + option (KnobName * KnobValue)).





End Layer.

(** ** Values read from text fit their knobs *)






Section Typed.
Context (env : ConfigEnv).



End Typed.

(** ** After the layers *)

Lemma elem_of_all_knobs knob : knob ∈ all_knobs.
Proof. apply (bool_decide_unpack _). destruct knob; vm_compute; exact I. Qed.

Lemma default_sources_from l (m : SourceMap) knob :
  foldl default_source m l !! knob_as_str knob =
  match m !! knob_as_str knob with
  | Some s => Some s
  | None => if decide (knob ∈ l) then Some SrcDefault else None
  end.
Proof.
  revert m. induction l as [|a l IH]; intros m; cbn [foldl].
  { destruct (m !! _); [done|]. by rewrite decide_False by apply not_elem_of_nil. }
  rewrite IH. destruct (decide (a = knob)) as [->|Hne].
  - unfold default_source. destruct (m !! knob_as_str knob) as [s|] eqn:E; [by rewrite E|].
    rewrite lookup_insert_eq. by rewrite decide_True by (by left).
  - assert (default_source m a !! knob_as_str knob = m !! knob_as_str knob) as ->.
    { unfold default_source. destruct (m !! knob_as_str a); [done|].
      rewrite lookup_insert_ne; [done|]. by intros ?%(inj _). }
    destruct (m !! knob_as_str knob); [done|].
    apply decide_ext. rewrite elem_of_cons. naive_solver.
Qed.

Lemma default_sources_lookup m knob :
  default_sources m !! knob_as_str knob = Some (default SrcDefault (m !! knob_as_str knob)).
Proof.
  unfold default_sources. rewrite default_sources_from.
  destruct (m !! _); [done|]. by rewrite decide_True by apply elem_of_all_knobs.
Qed.



Lemma reject_zero_ok l : reject_zero l = inr tt → Forall (λ e, 1 ≤ e.2) l.
Proof.
  induction l as [|[name v] l IH]; cbn [reject_zero]; [by constructor|].
  destruct (N.eqb_spec v 0); [done|]. intros ?. constructor; [cbn; lia|by apply IH].
Qed.

(** Knobs a client can run on. *)
Definition usable (k : Knobs) : Prop :=
  staleness_window_ms k ≤ STALENESS_WINDOW_HARD_CAP_MS ∧
  Forall (λ n, 1 ≤ n)
    [caller_to_io_capacity k; io_to_dispatch_capacity k; connection_rate_budget k;
     backoff_base_ms k; backoff_max_ms k; rest_retry_base_ms k; rest_retry_max_ms k;
     rate_limit_trading_scope_cap k; cl_ord_id_index_cap k].

Lemma reject_zero_knobs_ok k :
  reject_zero_knobs k = inr tt →
  Forall (λ n, 1 ≤ n)
    [caller_to_io_capacity k; io_to_dispatch_capacity k; connection_rate_budget k;
     backoff_base_ms k; backoff_max_ms k; rest_retry_base_ms k; rest_retry_max_ms k;
     rate_limit_trading_scope_cap k; cl_ord_id_index_cap k].
Proof.
  unfold reject_zero_knobs. destruct (reject_zero _) as [|[]] eqn:H1; [done|]. intros H2.
  apply reject_zero_ok in H1, H2.
  repeat match goal with H : Forall _ (_ :: _) |- _ => apply Forall_cons in H as [? H] end.
  by repeat constructor.
Qed.

Lemma cap_staleness_le k : staleness_window_ms (cap_staleness k) ≤ STALENESS_WINDOW_HARD_CAP_MS.
Proof.
  unfold cap_staleness.
  destruct (N.ltb_spec STALENESS_WINDOW_HARD_CAP_MS (staleness_window_ms k)); cbn; lia.
Qed.

(** ** The layers together *)

(** *** What each layer says, read off the texts themselves *)










(** *** The layers say what they are read to say *)






Section EnvLayer.
Context (env : ConfigEnv).


End EnvLayer.

(** *** When a layer is applied *)














(** The part of it that clients of the configuration use. *)
Lemma resolved_facts env r k m :
  Forall (λ e, knob_value_ok e.2) (builder_overrides r) →
  resolve_config env r = inr (k, m) → usable k ∧ ∀ knob, is_Some (m !! knob_as_str knob).
Proof.
  intros Hb. unfold resolve_config.
  destruct (config_table env r) as [|table]; [done|].
  destruct (apply_layer file_entry SrcFile table _) as [|st1]; [done|].
  destruct (apply_layer (env_entry env) SrcEnv all_knobs st1) as [|st2]; [done|].
  destruct (apply_layer builder_entry _ _ _) as [|[k3 m3]]; [done|].
  destruct (reject_zero_knobs _) as [|[]] eqn:Hz; [done|]. intros [= <- <-].
  split; [split; [apply cap_staleness_le|by apply reject_zero_knobs_ok]|].
  intros knob. rewrite default_sources_lookup. by eexists.
Qed.

(** ** Interpolation *)

(** Two outsides that agree on the variables of the SDK and on files. *)
Definition same_kraken (env env' : ConfigEnv) : Prop :=
  (∀ var, String.prefix INTERPOLATION_ENV_PREFIX var = true → env_var env var = env_var env' var) ∧
  (∀ path, read_file env path = read_file env' path) ∧
  (∀ text, toml_parse env text = toml_parse env' text).

Section Confined.
Context (env env' : ConfigEnv) (Hsame : same_kraken env env').

Lemma expand_same s : expand_interpolation env s = expand_interpolation env' s.
Proof using Hsame.
  unfold expand_interpolation. destruct (split_once _ _) as [[var rest]|]; [|done].
  destruct (String.prefix _ var) eqn:Hp; [|done]. cbn [negb].
  by rewrite (proj1 Hsame _ Hp).
Qed.

Lemma interpolate_same fuel ctx s :
  interpolate_from env fuel ctx s = interpolate_from env' fuel ctx s.
Proof using Hsame.
  revert ctx s. induction fuel as [|fuel IH]; intros ctx [|b s]; try done.
  cbn [interpolate_from]. rewrite <- expand_same.
  repeat (case_match; try done); try (rewrite IH in *; congruence).
Qed.

Lemma env_key_prefix knob : String.prefix INTERPOLATION_ENV_PREFIX (env_key knob) = true.
Proof. by destruct knob. Qed.

Lemma env_entry_same knob : env_entry env knob = env_entry env' knob.
Proof using Hsame. unfold env_entry. by rewrite (proj1 Hsame _ (env_key_prefix knob)). Qed.

Lemma apply_layer_same {A} (f g : A → ConfigError + option (KnobName * KnobValue)) src l st :
  (∀ a, f a = g a) → apply_layer f src l st = apply_layer g src l st.
Proof.
  intros Hfg. revert st. induction l as [|a l IH]; intros st; cbn [apply_layer]; [done|].
  rewrite Hfg. destruct (g a) as [|[[k v]|]]; [done| |apply IH].
  destruct (apply_knob _ _ _ _); [done|apply IH].
Qed.

Lemma config_table_same r : config_table env r = config_table env' r.
Proof using Hsame.
  destruct Hsame as (_ & Hr & Ht). unfold config_table, file_table, interpolate_env.
  destruct (config_file r) as [path|]; [|done]. rewrite Hr.
  destruct (read_file env' path) as [|raw]; [done|]. rewrite interpolate_same.
  destruct (interpolate_from _ _ _ _); [done|]. by rewrite Ht.
Qed.

Lemma resolve_same r : resolve_config env r = resolve_config env' r.
Proof using Hsame.
  unfold resolve_config. rewrite config_table_same.
  destruct (config_table env' r) as [|table]; [done|].
  destruct (apply_layer file_entry _ _ _) as [|st]; [done|].
  by rewrite (apply_layer_same _ _ SrcEnv all_knobs st env_entry_same).
Qed.
End Confined.

Lemma take_drop_str n s : str_take n s ++ str_drop n s = s.
Proof.
  revert s. induction n as [|n IH]; intros [|b s]; try done.
  cbn. by rewrite str_app_cons, IH.
Qed.

Lemma drop_length n b s : (String.length (str_drop (S n) (String b s)) ≤ String.length s)%nat.
Proof.
  cbn. revert s. induction n as [|n IH]; intros [|b' s]; cbn; [lia..|].
  etrans; [apply IH|lia].
Qed.

Lemma split_once_length sep s a rest :
  split_once sep s = Some (a, rest) → (String.length rest < String.length s)%nat.
Proof.
  revert a. induction s as [|c s IH]; intros a; cbn [split_once]; [done|].
  destruct (decide (c = sep)); [intros [= _ <-]; cbn; lia|].
  destruct (split_once sep s) as [[a' b]|]; [|done]. intros [= _ <-].
  specialize (IH _ eq_refl). cbn. lia.
Qed.

Section Scan.
Context (env : ConfigEnv).

Lemma expand_length b s val rest :
  expand_interpolation env (String b s) = inr (val, rest) →
  (String.length rest ≤ String.length s)%nat.
Proof.
  unfold expand_interpolation.
  destruct (split_once _ _) as [[var r]|] eqn:Hs; [|done].
  destruct (negb _); [done|]. destruct (env_var env var); [|done]. intros [= _ <-].
  apply split_once_length in Hs. pose proof (drop_length 1 b s). lia.
Qed.

Lemma closing_pos ctx s n : closing ctx s = Some n → ∃ m, n = S m.
Proof. destruct ctx; cbn; try done; case_match; try done; intros [= <-]; by eexists. Qed.

Lemma opening_pos s : ∃ m ctx, opening s = (S m, ctx).
Proof. unfold opening. repeat (case_match; [by do 2 eexists|]). by do 2 eexists. Qed.

(** One step of the scanner, whatever copies and continues. *)
Lemma interpolate_from_fuel f g ctx s :
  (String.length s ≤ f)%nat → (String.length s ≤ g)%nat →
  interpolate_from env f ctx s = interpolate_from env g ctx s.
Proof.
  revert g ctx s. induction f as [|f IH]; intros [|g] ctx [|b s] Hf Hg; cbn in Hf, Hg; try lia;
    try done.
  assert (∀ n ctx, interpolate_from env f ctx (str_drop (S n) (String b s)) =
                   interpolate_from env g ctx (str_drop (S n) (String b s))) as Hd.
  { intros n ctx'. pose proof (drop_length n b s). apply IH; lia. }
  cbn [interpolate_from].
  destruct (decide (ctx = InComment)); [by rewrite Hd|].
  destruct (_ && _); [by rewrite Hd|].
  destruct (closing ctx (String b s)) as [len|] eqn:Hc.
  { apply closing_pos in Hc as [m ->]. by rewrite Hd. }
  destruct (String.prefix _ _).
  - destruct (expand_interpolation env (String b s)) as [|[val rest]] eqn:He; [done|].
    apply expand_length in He. rewrite (IH g ctx rest); [done|lia..].
  - destruct (decide (ctx = InCode)); [|by rewrite Hd].
    destruct (opening_pos (String b s)) as (m & ctx' & ->). by rewrite Hd.
Qed.

(** Put a text before a result. *)
Definition after_text (t : string) (r : ConfigError + string) : ConfigError + string :=
  match r with inl e => inl e | inr out => inr (t ++ out) end.

Definition newline_free (s : string) : Prop := all_bytes (λ b, negb (Ascii.eqb b newline)) s = true.

Lemma comment_copied c rest fuel :
  newline_free c → (String.length c + S (String.length rest) ≤ fuel)%nat →
  interpolate_from env fuel InComment (c ++ String newline rest) =
    after_text (c ++ String newline EmptyString) (interpolate_env env rest).
Proof.
  revert fuel. induction c as [|b c IH]; intros [|fuel] Hc Hf; cbn in Hf; try lia.
  - rewrite !str_app_empty. cbn [interpolate_from]. rewrite decide_True by done.
    change (Ascii.eqb newline newline) with true. cbn [str_drop str_take].
    rewrite (interpolate_from_fuel fuel (String.length rest)) by (cbn; lia).
    fold (interpolate_env env rest). by destruct (interpolate_env env rest).
  - unfold newline_free in Hc. cbn in Hc. apply andb_true_iff in Hc as [Hb Hc].
    rewrite str_app_cons in *. cbn [interpolate_from]. rewrite decide_True by done.
    apply negb_true_iff in Hb. rewrite Hb. cbn [str_drop str_take].
    rewrite IH by (done || lia). by destruct (interpolate_env env rest).
Qed.

Definition token_free (s : string) : Prop := ∀ pre post, s ≠ pre ++ "${" ++ post.

Lemma token_free_drop n s : token_free s → token_free (str_drop n s).
Proof.
  intros H pre post Heq. apply (H (str_take n s ++ pre) post).
  rewrite str_app_assoc, <- Heq. symmetry. apply take_drop_str.
Qed.

Lemma prefix_split p s : String.prefix p s = true → ∃ post, s = p ++ post.
Proof.
  revert s. induction p as [|c p IH]; intros s; [by exists s|].
  destruct s as [|c' s]; cbn; [done|]. destruct (ascii_dec c c') as [->|]; [|done].
  intros [post ->]%IH. by exists post.
Qed.

Lemma plain_copied fuel ctx s :
  token_free s → (String.length s ≤ fuel)%nat → interpolate_from env fuel ctx s = inr s.
Proof.
  revert ctx s. induction fuel as [|fuel IH]; intros ctx [|b s] Ht Hf; cbn in Hf; try lia;
    try done.
  assert (∀ n ctx, match interpolate_from env fuel ctx (str_drop (S n) (String b s)) with
                   | inl e => inl e
                   | inr out => inr (str_take (S n) (String b s) ++ out)
                   end = inr (A:=ConfigError) (String b s)) as Hd.
  { intros n ctx'. pose proof (drop_length n b s). rewrite IH; [|by apply token_free_drop|lia].
    by rewrite take_drop_str. }
  cbn [interpolate_from].
  destruct (decide (ctx = InComment)); [by rewrite Hd|].
  destruct (_ && _); [by rewrite Hd|].
  destruct (closing ctx (String b s)) as [len|] eqn:Hc.
  { apply closing_pos in Hc as [m ->]. by rewrite Hd. }
  destruct (String.prefix _ _) eqn:Hp.
  { apply prefix_split in Hp as [post Hp]. by destruct (Ht "" post). }
  destruct (decide (ctx = InCode)); [|by rewrite Hd].
  destruct (opening_pos (String b s)) as (m & ctx' & ->). by rewrite Hd.
Qed.
End Scan.

(** A resolved configuration depends on no environment variable outside [KRAKEN_*], whatever
    the file asks to have interpolated, so no other variable leaks into it or into an error;
    a text without a token is passed on as it is, and a comment line is copied whatever it
    holds. *)
Theorem interpolation_confined env env' r :
  (same_kraken env env' → resolve_config env r = resolve_config env' r) ∧
  (∀ raw, token_free raw → interpolate_env env raw = inr raw) ∧
  (∀ c rest, newline_free c →
     interpolate_env env ("#" ++ c ++ String newline rest) =
       after_text ("#" ++ c ++ String newline EmptyString) (interpolate_env env rest)).
Proof.
  split_and!.
  - intros Hs. by apply resolve_same.
  - intros raw Hraw. by apply plain_copied.
  - intros c rest Hc. unfold interpolate_env at 1.
    set (t := c ++ String newline rest).
    change (interpolate_from env (S (String.length t)) InCode (String "#" t) =
            after_text (String "#" (c ++ String newline "")) (interpolate_env env rest)).
    cbn [interpolate_from]. rewrite decide_False by done.
    rewrite bool_decide_eq_false_2 by naive_solver. cbn [andb closing].
    change (String.prefix "${" (String "#" t)) with false. cbn match.
    rewrite decide_True by done. unfold opening.
    change (String.prefix "#" (String "#" t)) with (String.prefix "" t).
    rewrite (proj2 (String.prefix_correct "" t)) by (by destruct t).
    change (str_drop 1 (String "#" t)) with t. subst t.
    rewrite comment_copied by (done || by rewrite str_length_app).
    by destruct (interpolate_env env rest).
Qed.

(** ** Concrete configurations *)

(** A file that sets two knobs, one through a variable, and an environment that sets one. *)
Definition sample_text : string :=
  "close_timeout_ms = ${KRAKEN_CLOSE}" ++ String newline "# see ${HOME}".

Definition sample_config_env (home : option string) : ConfigEnv :=
  mkConfigEnv
    (λ var, if decide (var = "KRAKEN_CLOSE") then Some "700"
            else if decide (var = "KRAKEN_CLOSE_TIMEOUT_MS") then Some " 900 "
            else if decide (var = "HOME") then home else None)
    (λ _, inr sample_text)
    (λ _, inr [("close_timeout_ms", TomlInteger 700); ("staleness_window_ms", TomlInteger 60000)]).

Definition sample_resolver : ConfigResolver :=
  with_builder_knob "request_timeout_ms" (U32 5) (with_config_file "sdk.toml" resolver_new).


Lemma interpolation_confined_witness :
  resolve_config (sample_config_env None) sample_resolver =
    resolve_config (sample_config_env (Some "/root")) sample_resolver ∧
  interpolate_env (sample_config_env None) "a = 1" = inr "a = 1".
Proof.
  destruct (interpolation_confined (sample_config_env None) (sample_config_env (Some "/root"))
              sample_resolver) as (H1 & H2 & _).
  split; [apply H1|apply H2].
  - split; [|by split]. intros var Hvar. cbn.
    destruct (decide (var = "HOME")) as [->|]; [discriminate Hvar|reflexivity].
  - intros pre post Heq.
    do 5 (destruct pre as [|? pre]; [discriminate Heq|]; injection Heq as _ Heq).
    destruct pre; discriminate Heq.
Defined.

(** The scanner ends a multi-line string at the first three quotes, where TOML allows up to two
    more before the delimiter; the rest then opens a string for it, and a comment after it is
    scanned: here the file is refused for a token in a comment. *)
Definition quoted_text : string :=
  "x = " ++ basic_quotes ++ "a" ++ quote_char ++ basic_quotes ++ String newline "# ${HOME}".

Lemma comment_after_quotes_scanned :
  interpolate_env (sample_config_env (Some "/root")) quoted_text =
    inl (InvalidConfig ("config file: refusing to interpolate `${HOME}` " ++ em_dash ++
           " only `${KRAKEN_*}` env vars may be interpolated")).
Proof. reflexivity. Qed.
