(* ===== verification/Dispatch.v ===== *)
(** * Dispatch: the dispatch table

    [rust/src/dispatch/dispatch_table.rs]: operations, products, transports and the table
    frozen when the client is built.  A [HashMap] is the list of its insertions, the
    latest first. *)

From Stdlib Require Import String.
From S2P Require Import Prelude.
Local Open Scope string_scope.

Inductive Op :=
  | MarketTicker | MarketOrderBook | MarketTrades | MarketOhlc | MarketSpreads
  | MarketAssets | MarketAssetPairs | MarketServerTime | MarketSystemStatus
  | AccountBalance | AccountBalanceEx | AccountTradeBalance | AccountOpenOrders
  | AccountClosedOrders | AccountLedgers | AccountQueryLedgers | AccountTradesHistory
  | AccountOpenPositions | AccountTradeVolume
  | TradeOrder | TradeOrderCancel | TradeOrderAmend | TradeOrderCancelAll
  | TradeOrderCancelAllAfter | TradeOrderBatch | TradeOrderCancelBatch.

Inductive Product := Spot | Futures.

Inductive Transport := Rest | WsV2Public | WsV2Auth | WsV2L3 | FuturesRest | FuturesWs.

#[export] Instance Op_eq_dec : EqDecision Op.
Proof. solve_decision. Defined.
#[export] Instance Product_eq_dec : EqDecision Product.
Proof. solve_decision. Defined.
#[export] Instance Transport_eq_dec : EqDecision Transport.
Proof. solve_decision. Defined.

Record DispatchKey := mkKey { key_op : Op; key_product : Product; key_transport : Transport }.

#[export] Instance DispatchKey_eq_dec : EqDecision DispatchKey.
Proof. solve_decision. Defined.

Record AdapterEntry := mkAdapter { wire_target : string; requires_auth : bool }.

Record DispatchError := mkDispatchError {
  de_op : Op;
  de_product : Product;
  de_transport : Transport;
}.

Record DispatchTable := mkTable { table : list (DispatchKey * AdapterEntry) }.

(** [HashMap::insert] *)
Definition seed (op : Op) (transport : Transport) (target : string) (auth : bool)
  (t : list (DispatchKey * AdapterEntry)) : list (DispatchKey * AdapterEntry) :=
  (mkKey op Spot transport, mkAdapter target auth) :: t.

Definition default_seeds : list (Op * Transport * string * bool) :=
  [(MarketTicker, Rest, "/0/public/Ticker", false);
   (MarketOrderBook, Rest, "/0/public/Depth", false);
   (MarketTrades, Rest, "/0/public/Trades", false);
   (MarketOhlc, Rest, "/0/public/OHLC", false);
   (MarketSpreads, Rest, "/0/public/Spread", false);
   (MarketAssets, Rest, "/0/public/Assets", false);
   (MarketAssetPairs, Rest, "/0/public/AssetPairs", false);
   (MarketServerTime, Rest, "/0/public/Time", false);
   (MarketSystemStatus, Rest, "/0/public/SystemStatus", false);
   (AccountBalance, Rest, "/0/private/Balance", true);
   (AccountBalanceEx, Rest, "/0/private/BalanceEx", true);
   (AccountTradeBalance, Rest, "/0/private/TradeBalance", true);
   (AccountOpenOrders, Rest, "/0/private/OpenOrders", true);
   (AccountClosedOrders, Rest, "/0/private/ClosedOrders", true);
   (AccountLedgers, Rest, "/0/private/Ledgers", true);
   (AccountQueryLedgers, Rest, "/0/private/QueryLedgers", true);
   (AccountTradesHistory, Rest, "/0/private/TradesHistory", true);
   (AccountOpenPositions, Rest, "/0/private/OpenPositions", true);
   (AccountTradeVolume, Rest, "/0/private/TradeVolume", true);
   (TradeOrder, Rest, "/0/private/AddOrder", true);
   (TradeOrder, WsV2Auth, "add_order", true);
   (TradeOrderCancel, Rest, "/0/private/CancelOrder", true);
   (TradeOrderCancel, WsV2Auth, "cancel_order", true);
   (TradeOrderAmend, Rest, "/0/private/AmendOrder", true);
   (TradeOrderAmend, WsV2Auth, "amend_order", true);
   (TradeOrderCancelAll, Rest, "/0/private/CancelAll", true);
   (TradeOrderCancelAll, WsV2Auth, "cancel_all", true);
   (TradeOrderCancelAllAfter, Rest, "/0/private/CancelAllOrdersAfter", true);
   (TradeOrderCancelAllAfter, WsV2Auth, "cancel_all_orders_after", true);
   (TradeOrderBatch, Rest, "/0/private/AddOrderBatch", true);
   (TradeOrderBatch, WsV2Auth, "batch_add", true);
   (TradeOrderCancelBatch, Rest, "/0/private/CancelOrder", true)].

Definition with_default_spot_table : DispatchTable :=
  mkTable (foldl (λ t '(op, transport, target, auth), seed op transport target auth t) []
             default_seeds).

Definition resolve (op : Op) (product : Product) (transport : Transport) (d : DispatchTable)
  : DispatchError + AdapterEntry :=
  match List.find (λ e, bool_decide (e.1 = mkKey op product transport)) (table d) with
  | Some e => inr e.2
  | None => inl (mkDispatchError op product transport)
  end.

(** Derived [Debug] text. *)
Definition op_debug (op : Op) : string :=
  match op with
  | MarketTicker => "MarketTicker" | MarketOrderBook => "MarketOrderBook"
  | MarketTrades => "MarketTrades" | MarketOhlc => "MarketOhlc"
  | MarketSpreads => "MarketSpreads" | MarketAssets => "MarketAssets"
  | MarketAssetPairs => "MarketAssetPairs" | MarketServerTime => "MarketServerTime"
  | MarketSystemStatus => "MarketSystemStatus" | AccountBalance => "AccountBalance"
  | AccountBalanceEx => "AccountBalanceEx" | AccountTradeBalance => "AccountTradeBalance"
  | AccountOpenOrders => "AccountOpenOrders" | AccountClosedOrders => "AccountClosedOrders"
  | AccountLedgers => "AccountLedgers" | AccountQueryLedgers => "AccountQueryLedgers"
  | AccountTradesHistory => "AccountTradesHistory"
  | AccountOpenPositions => "AccountOpenPositions"
  | AccountTradeVolume => "AccountTradeVolume" | TradeOrder => "TradeOrder"
  | TradeOrderCancel => "TradeOrderCancel" | TradeOrderAmend => "TradeOrderAmend"
  | TradeOrderCancelAll => "TradeOrderCancelAll"
  | TradeOrderCancelAllAfter => "TradeOrderCancelAllAfter"
  | TradeOrderBatch => "TradeOrderBatch" | TradeOrderCancelBatch => "TradeOrderCancelBatch"
  end.

Definition product_debug (p : Product) : string :=
  match p with Spot => "Spot" | Futures => "Futures" end.

Definition transport_debug (t : Transport) : string :=
  match t with
  | Rest => "Rest" | WsV2Public => "WsV2Public" | WsV2Auth => "WsV2Auth"
  | WsV2L3 => "WsV2L3" | FuturesRest => "FuturesRest" | FuturesWs => "FuturesWs"
  end.

Definition dispatch_error_display (e : DispatchError) : string :=
  "Dispatch key not in table: op=" ++ op_debug (de_op e) ++ ", product=" ++
  product_debug (de_product e) ++ ", transport=" ++ transport_debug (de_transport e) ++ ".".

(** ** Facts *)

(** A later seed of a key replaces an earlier one; no key of the default table is seeded
    twice, so each seed is what it resolves to. *)
Lemma default_seeds_resolve :
  Forall (λ '(op, transport, target, auth),
            resolve op Spot transport with_default_spot_table = inr (mkAdapter target auth))
    default_seeds.
Proof. repeat constructor. Qed.

(** Public endpoints are exactly those without authentication. *)
Lemma default_auth_is_private op transport e :
  resolve op Spot transport with_default_spot_table = inr e →
  requires_auth e = negb (String.prefix "/0/public/" (wire_target e)).
Proof. destruct op, transport; vm_compute; by intros [= <-]. Qed.

(** Futures resolve to nothing. *)
Lemma futures_unrouted op transport :
  resolve op Futures transport with_default_spot_table =
  inl (mkDispatchError op Futures transport).
Proof. by destruct op, transport. Qed.
