(* ===== verification/WireTime.v ===== *)
(** * WireTime: instants on the wire

    [TimeSpec] of [rust/src/api/trade/types/requests.rs] and its two renderings.  An
    [i64] is a [Z]; [/] and [%] truncate ([Z.quot], [Z.rem]), [div_euclid] and
    [rem_euclid] by a positive divisor are [Z.div] and [Z.modulo].  The specification is
    the Gregorian calendar as the day after a day. *)

From Stdlib Require Import Ascii String.
From stdpp Require Import pretty.
From S2P Require Import Prelude.
Local Open Scope string_scope.
Local Open Scope Z_scope.

Definition i64_max : Z := 9223372036854775807.

(** Seconds since the Unix epoch, not before it. *)
Record TimeSpec := mkTimeSpec { time_secs : Z }.

Definition from_unix_secs (secs : Z) : TimeSpec := mkTimeSpec (Z.max secs 0).

(** [duration_since(UNIX_EPOCH)]: whole seconds, [None] before the epoch. *)
Definition from_system_time (since_epoch : option N) : option TimeSpec :=
  secs ← since_epoch;
  Some (mkTimeSpec (if decide (Z.of_N secs ≤ i64_max) then Z.of_N secs else i64_max)).

(** [civil_from_days]: year, month and day. *)
Definition civil_from_days (days : Z) : Z * Z * Z :=
  let z := days + 719468 in
  let era := z / 146097 in
  let doe := z - era * 146097 in
  let yoe := Z.quot (doe - Z.quot doe 1460 + Z.quot doe 36524 - Z.quot doe 146096) 365 in
  let doy := doe - (365 * yoe + Z.quot yoe 4 - Z.quot yoe 100) in
  let mp := Z.quot (5 * doy + 2) 153 in
  let d := doy - Z.quot (153 * mp + 2) 5 + 1 in
  let m := if mp <? 10 then mp + 3 else mp - 9 in
  let y := yoe + era * 400 + (if m <=? 2 then 1 else 0) in
  (y, m, d).

Fixpoint zeros (n : nat) : string :=
  match n with O => "" | S n => "0" ++ zeros n end.

Definition pad_left (w : nat) (s : string) : string := zeros (w - String.length s) ++ s.

(** [{x:0w}]: the sign counts towards the width. *)
Definition pad_int (w : nat) (x : Z) : string :=
  if x <? 0 then "-" ++ pad_left (w - 1) (pretty (Z.abs_N x)) else pad_left w (pretty (Z.abs_N x)).

Definition render_rfc3339 (date : Z * Z * Z) (hh mi ss : Z) : string :=
  let '(y, m, d) := date in
  pad_int 4 y ++ "-" ++ pad_int 2 m ++ "-" ++ pad_int 2 d ++ "T" ++
  pad_int 2 hh ++ ":" ++ pad_int 2 mi ++ ":" ++ pad_int 2 ss ++ "Z".

Definition unix_secs_to_rfc3339_utc (secs : Z) : string :=
  let days := secs / 86400 in
  let tod := secs mod 86400 in
  let hh := Z.quot tod 3600 in
  let mi := Z.quot (Z.rem tod 3600) 60 in
  let ss := Z.rem tod 60 in
  render_rfc3339 (civil_from_days days) hh mi ss.

Definition time_to_rest_form (t : TimeSpec) : string := pretty (time_secs t).

Definition time_to_ws (t : TimeSpec) : string := unix_secs_to_rfc3339_utc (time_secs t).

Example rfc3339_leap_day : unix_secs_to_rfc3339_utc 1709210096 = "2024-02-29T12:34:56Z".
Proof. reflexivity. Qed.

(** ** The calendar, as a specification *)

Definition is_leap (y : Z) : bool :=
  (y mod 4 =? 0) && negb (y mod 100 =? 0) || (y mod 400 =? 0).

Definition days_in_month (y m : Z) : Z :=
  if m =? 2 then (if is_leap y then 29 else 28)
  else if (m =? 4) || (m =? 6) || (m =? 9) || (m =? 11) then 30 else 31.

Definition next_day (date : Z * Z * Z) : Z * Z * Z :=
  let '(y, m, d) := date in
  if d <? days_in_month y m then (y, m, d + 1)
  else if m <? 12 then (y, m + 1, 1)
  else (y + 1, 1, 1).

(** The date a number of days after 1970-01-01. *)
Definition date_after (days : nat) : Z * Z * Z := Nat.iter days next_day (1970, 1, 1).

(** ** The arithmetic: years start in March, eras have 400 years *)

Definition year_start (yoe : Z) : Z := 365 * yoe + yoe / 4 - yoe / 100.

Definition year_of_era (doe : Z) : Z :=
  (doe - doe / 1460 + doe / 36524 - doe / 146096) / 365.

Definition month_day (doy : Z) : Z * Z * Z :=
  let mp := (5 * doy + 2) / 153 in
  let d := doy - (153 * mp + 2) / 5 + 1 in
  let m := if mp <? 10 then mp + 3 else mp - 9 in
  ((if m <=? 2 then 1 else 0), m, d).

(** The year of January and February of the March-based year [Y] is [Y + 1]. *)
Definition shift (year : Z) (off : Z * Z * Z) : Z * Z * Z :=
  let '(o, m, d) := off in (year + o, m, d).

Definition year_length (yoe : Z) : Z := if is_leap (yoe + 1) then 366 else 365.

Definition years : list Z := Z.of_nat <$> seq 0 400.
Definition year_days : list Z := Z.of_nat <$> seq 0 366.

Lemma elem_of_years z : 0 ≤ z < 400 → z ∈ years.
Proof.
  intros H. apply list_elem_of_fmap. exists (Z.to_nat z).
  split; [lia|]. apply elem_of_seq. lia.
Qed.

Lemma elem_of_year_days z : 0 ≤ z < 366 → z ∈ year_days.
Proof.
  intros H. apply list_elem_of_fmap. exists (Z.to_nat z).
  split; [lia|]. apply elem_of_seq. lia.
Qed.

Lemma forallb_years (p : Z → bool) z :
  forallb p years = true → 0 ≤ z < 400 → p z = true.
Proof.
  intros Hp Hz. rewrite forallb_forall in Hp. apply Hp, list_elem_of_In, elem_of_years, Hz.
Qed.

Lemma forallb_year_days (p : Z → bool) z :
  forallb p year_days = true → 0 ≤ z < 366 → p z = true.
Proof.
  intros Hp Hz. rewrite forallb_forall in Hp.
  apply Hp, list_elem_of_In, elem_of_year_days, Hz.
Qed.

Lemma div_bounds a b : 0 < b → b * (a / b) ≤ a < b * (a / b) + b.
Proof. intros Hb. pose proof (Z.div_mod a b). pose proof (Z.mod_pos_bound a b). lia. Qed.

Lemma year_of_era_mono a b :
  0 ≤ a ≤ b → b < 146097 → year_of_era a ≤ year_of_era b.
Proof.
  intros Ha Hb. apply Z.div_le_mono; [lia|].
  assert (a / 36524 ≤ b / 36524) by (apply Z.div_le_mono; lia).
  pose proof (div_bounds a 1460 ltac:(lia)). pose proof (div_bounds b 1460 ltac:(lia)).
  destruct (decide (b = 146096)) as [->|Hne].
  - destruct (decide (a = 146096)) as [->|Hna]; [lia|].
    rewrite (Z.div_small a 146096) by lia.
    pose proof (div_bounds a 36524 ltac:(lia)).
    change (146096 / 1460) with 100 in *. change (146096 / 36524) with 4 in *.
    change (146096 / 146096) with 1. lia.
  - rewrite !(Z.div_small _ 146096) by lia. lia.
Qed.

(** Every day of an era is in the year the formula says. *)
Lemma year_of_era_correct yoe doe :
  0 ≤ yoe < 400 → year_start yoe ≤ doe < year_start yoe + year_length yoe →
  year_of_era doe = yoe ∧ 0 ≤ year_start yoe.
Proof.
  intros Hy Hd.
  pose proof (forallb_years (λ yoe,
    (year_of_era (year_start yoe) =? yoe) &&
    (year_of_era (year_start yoe + year_length yoe - 1) =? yoe) &&
    (0 <=? year_start yoe) && (year_start yoe + year_length yoe <=? 146097))
    yoe ltac:(by vm_compute) Hy) as Hc. cbv beta in Hc.
  apply andb_true_iff in Hc as [[[H1%Z.eqb_eq H2%Z.eqb_eq]%andb_true_iff
    H3%Z.leb_le]%andb_true_iff H4%Z.leb_le].
  pose proof (year_of_era_mono (year_start yoe) doe).
  pose proof (year_of_era_mono doe (year_start yoe + year_length yoe - 1)). lia.
Qed.

Lemma year_start_next yoe :
  0 ≤ yoe < 400 →
  year_start yoe + year_length yoe = if yoe =? 399 then 146097 else year_start (yoe + 1).
Proof.
  intros Hy. apply Z.eqb_eq.
  exact (forallb_years (λ yoe, year_start yoe + year_length yoe =?
    (if yoe =? 399 then 146097 else year_start (yoe + 1))) yoe ltac:(by vm_compute) Hy).
Qed.

Lemma is_leap_era y era : is_leap (y + era * 400) = is_leap y.
Proof.
  unfold is_leap.
  rewrite (Z.mod_add y era 400) by lia.
  replace (y + era * 400) with (y + (era * 100) * 4) by lia. rewrite Z.mod_add by lia.
  replace (y + era * 100 * 4) with (y + (era * 4) * 100) by lia. by rewrite Z.mod_add by lia.
Qed.

(** *** One day within a March-based year *)

Definition next_off (leap : bool) (off : Z * Z * Z) : Z * Z * Z :=
  let '(o, m, d) := off in
  let len := if m =? 2 then (if leap then 29 else 28) else days_in_month 1 m in
  if d <? len then (o, m, d + 1) else if m <? 12 then (o, m + 1, 1) else (o + 1, 1, 1).

Definition eq_date (a b : Z * Z * Z) : bool :=
  (a.1.1 =? b.1.1) && (a.1.2 =? b.1.2) && (a.2 =? b.2).

Lemma eq_date_eq a b : eq_date a b = true → a = b.
Proof.
  destruct a as [[? ?] ?], b as [[? ?] ?]. unfold eq_date. simpl.
  intros [[?%Z.eqb_eq ?%Z.eqb_eq]%andb_true_iff ?%Z.eqb_eq]%andb_true_iff. by subst.
Qed.

Lemma next_day_shift Y doy :
  0 ≤ doy < 366 →
  next_day (shift Y (month_day doy)) = shift Y (next_off (is_leap (Y + 1)) (month_day doy)).
Proof.
  intros Hd.
  pose proof (forallb_year_days (λ doy, let '(o, m, _) := month_day doy in
    negb (m =? 2) || (o =? 1)) doy ltac:(by vm_compute) Hd) as Hc. cbv beta in Hc.
  destruct (month_day doy) as [[o m] d]. unfold next_day, next_off, shift, days_in_month.
  destruct (m =? 2) eqn:Hm; simpl in Hc; [apply Z.eqb_eq in Hc as ->|].
  all: repeat case_match; rewrite ?Z.add_assoc; done.
Qed.

Lemma month_day_next leap doy :
  0 ≤ doy → doy + 1 < (if leap : bool then 366 else 365) →
  next_off leap (month_day doy) = month_day (doy + 1).
Proof.
  intros H0 H1. apply eq_date_eq.
  assert (forallb (λ doy, if doy + 1 <? (if leap then 366 else 365)
    then eq_date (next_off leap (month_day doy)) (month_day (doy + 1)) else true) year_days
    = true) as Hc by (destruct leap; by vm_compute).
  pose proof (forallb_year_days _ doy Hc ltac:(destruct leap; lia)) as Hd. cbv beta in Hd.
  by rewrite (proj2 (Z.ltb_lt _ _) H1) in Hd.
Qed.

(** The last day of February is followed by the first of March. *)
Lemma month_day_last leap :
  next_off leap (month_day (if leap then 365 else 364)) = (1, 3, 1).
Proof. by destruct leap. Qed.

(** *** Putting a day together *)

(** Day [doy] of the March-based year [yoe] of an era. *)
Definition era_date (era yoe doy : Z) : Z * Z * Z := shift (yoe + era * 400) (month_day doy).

Lemma civil_from_days_eq days era yoe doy :
  0 ≤ yoe < 400 → 0 ≤ doy < year_length yoe →
  days + 719468 = era * 146097 + year_start yoe + doy →
  civil_from_days days = era_date era yoe doy.
Proof.
  intros Hy Hd Hz. unfold civil_from_days. rewrite Hz.
  destruct (year_of_era_correct yoe (year_start yoe + doy) Hy ltac:(lia)) as [Hyoe Hpos].
  pose proof (year_start_next yoe Hy) as Hnext.
  assert (year_start yoe + doy < 146097) as Hlt.
  { pose proof (forallb_years (λ yoe, year_start yoe + year_length yoe <=? 146097) yoe
      ltac:(by vm_compute) Hy) as Hc. apply Z.leb_le in Hc. lia. }
  assert ((era * 146097 + year_start yoe + doy) / 146097 = era) as ->.
  { symmetry. apply (Z.div_unique_pos _ _ _ (year_start yoe + doy)); lia. }
  replace (era * 146097 + year_start yoe + doy - era * 146097)
    with (year_start yoe + doy) by lia.
  rewrite !(Z.quot_div_nonneg (year_start yoe + doy)) by lia.
  rewrite (Z.quot_div_nonneg _ 365); [|pose proof (div_bounds (year_start yoe + doy) 1460);
    pose proof (div_bounds (year_start yoe + doy) 146096);
    pose proof (div_bounds (year_start yoe + doy) 36524); lia|lia].
  fold (year_of_era (year_start yoe + doy)). rewrite Hyoe.
  rewrite !(Z.quot_div_nonneg yoe) by lia.
  replace (year_start yoe + doy - (365 * yoe + yoe / 4 - yoe / 100)) with doy
    by (unfold year_start; lia).
  rewrite (Z.quot_div_nonneg (5 * doy + 2)) by lia.
  rewrite (Z.quot_div_nonneg (153 * _ + 2)); [|pose proof (Z.div_pos (5 * doy + 2) 153); lia|lia].
  unfold era_date, month_day, shift. reflexivity.
Qed.

Lemma year_length_pos yoe : 365 ≤ year_length yoe ≤ 366.
Proof. unfold year_length. destruct (is_leap _); lia. Qed.

Lemma next_era_date era yoe doy :
  0 ≤ yoe < 400 → 0 ≤ doy < year_length yoe →
  next_day (era_date era yoe doy) =
  if doy + 1 <? year_length yoe then era_date era yoe (doy + 1)
  else if yoe =? 399 then era_date (era + 1) 0 0
  else era_date era (yoe + 1) 0.
Proof.
  intros Hy Hd. unfold era_date. pose proof (year_length_pos yoe).
  rewrite next_day_shift by lia.
  replace (yoe + era * 400 + 1) with (yoe + 1 + era * 400) by lia. rewrite is_leap_era.
  unfold year_length in *. destruct (_ + 1 <? _) eqn:Hlt.
  - apply Z.ltb_lt in Hlt. rewrite month_day_next; [done|lia|].
    by destruct (is_leap (yoe + 1)).
  - apply Z.ltb_ge in Hlt. pose proof (month_day_last (is_leap (yoe + 1))) as Hlast.
    replace doy with (if is_leap (yoe + 1) then 365 else 364)
      by (destruct (is_leap (yoe + 1)); lia).
    rewrite Hlast. change (month_day 0) with (0, 3, 1). unfold shift.
    destruct (yoe =? 399) eqn:H399; [apply Z.eqb_eq in H399 as ->|]; do 2 f_equal; lia.
Qed.

(** Every day has its place in a year of an era. *)
Lemma locate_day (n : nat) :
  ∃ era yoe doy, 0 ≤ yoe < 400 ∧ 0 ≤ doy < year_length yoe ∧
    Z.of_nat n + 719468 = era * 146097 + year_start yoe + doy ∧
    date_after n = era_date era yoe doy.
Proof.
  induction n as [|n (era & yoe & doy & Hy & Hd & Hz & He)].
  - exists 4, 369, 306. split_and!; try done; lia.
  - pose proof (next_era_date era yoe doy Hy Hd) as Hn.
    change (date_after (S n)) with (next_day (date_after n)). rewrite He, Hn.
    pose proof (year_start_next yoe Hy) as Hs. pose proof (year_length_pos (yoe + 1)).
    destruct (_ + 1 <? _) eqn:Hlt; [apply Z.ltb_lt in Hlt|apply Z.ltb_ge in Hlt].
    + exists era, yoe, (doy + 1). split_and!; try done; lia.
    + destruct (yoe =? 399) eqn:H399.
      * apply Z.eqb_eq in H399 as ->. exists (era + 1), 0, 0.
        split_and!; try done; change (year_start 0) with 0; lia.
      * apply Z.eqb_neq in H399. exists era, (yoe + 1), 0. split_and!; try done; lia.
Qed.

(** ** Properties *)

(** C40: The text of an instant is its UTC date and time of day: the date is the one reached
    from 1970-01-01 by [days] steps of the Gregorian calendar, and days, hours, minutes and
    seconds add up to the instant.  Instants before the epoch are sent as the epoch. *)
Theorem wire_time_is_calendar_time (secs : Z) :
  ∃ (days : nat) (hh mi ss : Z),
    time_to_ws (from_unix_secs secs) = render_rfc3339 (date_after days) hh mi ss ∧
    86400 * Z.of_nat days + 3600 * hh + 60 * mi + ss = Z.max secs 0 ∧
    0 ≤ hh < 24 ∧ 0 ≤ mi < 60 ∧ 0 ≤ ss < 60.
Proof.
  unfold time_to_ws, from_unix_secs, unix_secs_to_rfc3339_utc. cbn [time_secs].
  set (t := Z.max secs 0). assert (0 ≤ t) by lia.
  pose proof (Z.mod_pos_bound t 86400 ltac:(lia)) as Hm.
  pose proof (Z.div_mod t 86400 ltac:(lia)) as Ht.
  assert (0 ≤ t / 86400) by (apply Z.div_pos; lia).
  rewrite Z.rem_mod_nonneg, Z.rem_mod_nonneg, !Z.quot_div_nonneg; try lia;
    [|apply Z.mod_pos_bound; lia].
  set (tod := t mod 86400) in *.
  destruct (locate_day (Z.to_nat (t / 86400))) as (era & yoe & doy & Hy & Hd & Hz & He).
  exists (Z.to_nat (t / 86400)), (tod / 3600), (tod mod 3600 / 60), (tod mod 60).
  rewrite He, (civil_from_days_eq (t / 86400) era yoe doy) by (done || lia).
  pose proof (div_bounds tod 3600 ltac:(lia)). pose proof (Z.mod_pos_bound tod 60 ltac:(lia)).
  pose proof (Z.div_mod tod 3600 ltac:(lia)). pose proof (Z.mod_pos_bound tod 3600 ltac:(lia)).
  pose proof (Z.div_mod (tod mod 3600) 60 ltac:(lia)).
  assert (tod mod 3600 mod 60 = tod mod 60) as Hmm.
  { rewrite (Z.div_mod tod 3600) at 2 by lia.
    replace (3600 * (tod / 3600) + tod mod 3600) with (tod mod 3600 + tod / 3600 * 60 * 60) by lia.
    by rewrite Z.mod_add by lia. }
  pose proof (div_bounds (tod mod 3600) 60 ltac:(lia)).
  split_and!; try lia. done.
Qed.
