(* ===== verification/TradeError.v ===== *)
(** * TradeError: the failures of order operations

    [rust/src/api/trade/error.rs] with the helpers it takes from [rust/src/error.rs]: the
    error type, its classification into code, category and retryability, and the mapping of
    exchange messages, REST errors and connection errors to it. *)

From Stdlib Require Import Ascii String.
From S2P Require Import Prelude F64 Types Events Errors Rest Dispatch.
Local Open Scope string_scope.

(** [api/market/types.rs] *)
Record SystemStatus := mkSystemStatus { status : string; status_timestamp : string }.

(** Order fields refer to the id of the dispatch, stamped once. *)
Inductive TradeError :=
  | InsufficientFunds (request_id : option string)
  | InsufficientMargin (request_id : option string)
  | InvalidOrder (detail : string) (request_id : option string)
  | ConflictingOrderIdentifiers
  | SettlePositionRequiresLeverage
  | ReduceOnlyRequiresLeverage
  | EmptyAmendRequest
  | NoAmendableParameters (request_id : option string)
  | UnknownOrder (request_id : option string)
  | BatchSizeOutOfRange (min max : N)
  | SystemStatusBlocked (current required : SystemStatus)
  | RateLimited (retry_after_ts : option N) (request_id : option string)
  | TradeTransport (kind : TransportErrorKind) (transient : bool) (request_id : option string)
  | MalformedResponse (detail : string) (request_id : option string)
  | TradeClientClosed
  | LoopDead
  | WsUnsupportedOrderField (field : string)
  | RestUnsupportedOrderField (field : string)
  | UnsupportedTransport (transport : Transport) (legal : list Transport)
  | WsSurfaceUnavailable
  | QueueFull (request_id : option string)
  | TradeUnknown (kraken_code kraken_message : string) (request_id : option string).

(** The macros of [error.rs]: [malformed], the conversion of a dispatch miss, and
    [with_request_id], where the first stamp wins. *)
Definition malformed (detail : string) : TradeError := MalformedResponse detail None.

Definition from_dispatch_error (e : DispatchError) : TradeError :=
  TradeUnknown "INTERNAL" (dispatch_error_display e) None.

Definition stamp (id : string) (rid : option string) : option string :=
  match rid with Some r => Some r | None => Some id end.

Definition with_request_id (id : string) (e : TradeError) : TradeError :=
  match e with
  | InsufficientFunds r => InsufficientFunds (stamp id r)
  | InsufficientMargin r => InsufficientMargin (stamp id r)
  | NoAmendableParameters r => NoAmendableParameters (stamp id r)
  | UnknownOrder r => UnknownOrder (stamp id r)
  | InvalidOrder d r => InvalidOrder d (stamp id r)
  | RateLimited t r => RateLimited t (stamp id r)
  | TradeTransport k t r => TradeTransport k t (stamp id r)
  | MalformedResponse d r => MalformedResponse d (stamp id r)
  | QueueFull r => QueueFull (stamp id r)
  | TradeUnknown c m r => TradeUnknown c m (stamp id r)
  | _ => e
  end.

(** ** Text *)

(** [str::ends_with] and [trim_end_matches] with a dot. *)
Definition ends_with (pat s : string) : bool :=
  match strip_suffix pat s with
  | Some _ => (String.length pat <=? String.length s)%nat
  | None => false
  end.

Fixpoint trim_end_dots (s : string) : string :=
  match s with
  | EmptyString => EmptyString
  | String c s =>
      let rest := trim_end_dots s in
      if String.eqb rest "" && Ascii.eqb c "." then "" else String c rest
  end.

Definition kraken_eclass_code (msg : string) : string :=
  match split_once ":" msg with Some (eclass, _) => eclass | None => msg end.

Definition classify_kraken_error_string (msg : string) : TradeError :=
  if is_kraken_rate_limit msg then RateLimited (error_parse_throttle_until msg) None
  else if str_contains "Insufficient funds" msg then InsufficientFunds None
  else if str_contains "Insufficient" msg && str_contains "margin" msg then InsufficientMargin None
  else if str_contains "No amendable parameters" msg then NoAmendableParameters None
  else if ends_with "Unknown order" (trim_end_dots msg) then UnknownOrder None
  else if str_contains "EOrder" msg || str_contains "Invalid arguments" msg
          || str_contains "price(s) not found" msg || str_contains "Price(s) not found" msg
          || str_contains "Invalid timeout argument" msg
  then InvalidOrder (trim_end_dots msg) None
  else TradeUnknown (kraken_eclass_code msg) msg None.

(** [From<RestError>] *)
Definition from_rest_error (e : RestError) : TradeError :=
  match e with
  | RestTransport kind transient => TradeTransport kind transient None
  | RestUnexpectedShape s => malformed s
  | RestRateLimit _ => RateLimited None None
  | RestAuth a => TradeUnknown "AUTH" (auth_error_display a) None
  | RestKraken strings => classify_kraken_error_string (default "" (head strings))
  end.

(** ** [ApiError] *)

Definition trade_code (e : TradeError) : string :=
  match e with
  | InsufficientFunds _ => "INSUFFICIENT_FUNDS"
  | InsufficientMargin _ => "INSUFFICIENT_MARGIN"
  | InvalidOrder _ _ => "INVALID_ORDER"
  | ConflictingOrderIdentifiers => "INVALID_CL_ORD_ID"
  | SettlePositionRequiresLeverage | ReduceOnlyRequiresLeverage | BatchSizeOutOfRange _ _
  | EmptyAmendRequest | WsUnsupportedOrderField _ | RestUnsupportedOrderField _
  | UnsupportedTransport _ _ | WsSurfaceUnavailable => "INVALID_ARGUMENTS"
  | NoAmendableParameters _ => "NON_AMENDABLE_FIELD"
  | UnknownOrder _ => "ORDER_NOT_FOUND"
  | SystemStatusBlocked _ _ => "SYSTEM_STATUS_MAINTENANCE"
  | RateLimited _ _ => "RATE_LIMIT_EXCEEDED"
  | QueueFull _ => "QUEUE_FULL"
  | TradeTransport _ _ _ => "CONNECTION_ERROR"
  | MalformedResponse _ _ => "MALFORMED_RESPONSE"
  | TradeClientClosed => "CLIENT_CLOSED"
  | LoopDead => "LOOP_DEAD"
  | TradeUnknown _ _ _ => "UNKNOWN"
  end.

Definition trade_category (e : TradeError) : ErrorCategory :=
  match e with
  | InsufficientFunds _ | InsufficientMargin _ | SystemStatusBlocked _ _
  | TradeUnknown _ _ _ => CatExchange
  | InvalidOrder _ _ | ConflictingOrderIdentifiers | SettlePositionRequiresLeverage
  | ReduceOnlyRequiresLeverage | EmptyAmendRequest | NoAmendableParameters _
  | UnknownOrder _ | BatchSizeOutOfRange _ _ | MalformedResponse _ _ | TradeClientClosed
  | LoopDead | QueueFull _ | WsUnsupportedOrderField _ | RestUnsupportedOrderField _
  | UnsupportedTransport _ _ | WsSurfaceUnavailable => CatClient
  | RateLimited _ _ => CatRateLimit
  | TradeTransport _ _ _ => CatNetwork
  end.

Definition trade_retryable (e : TradeError) : bool :=
  match e with
  | RateLimited _ _ | QueueFull _ => true
  | TradeTransport kind transient _ => transient && negb (is_sent_ambiguous kind)
  | _ => false
  end.

Definition trade_request_id (e : TradeError) : option string :=
  match e with
  | InsufficientFunds r | InsufficientMargin r | NoAmendableParameters r | UnknownOrder r
  | InvalidOrder _ r | RateLimited _ r | TradeTransport _ _ r | MalformedResponse _ r
  | QueueFull r | TradeUnknown _ _ r => r
  | _ => None
  end.

(** [Display]; [kind_debug] is the derived [Debug] text of a transport failure. *)
Section Display.
Context (kind_debug : TransportErrorKind → string).

Fixpoint join (sep : string) (l : list string) : string :=
  match l with
  | [] => ""
  | [x] => x
  | x :: l => x ++ sep ++ join sep l
  end.

Definition remedy (legal : list Transport) : string :=
  join " or " ((λ t, "`.via(Transport::" ++ transport_debug t ++ ")`") <$> legal).


Definition trade_display (e : TradeError) : string :=
  match e with
  | InsufficientFunds _ => "Insufficient funds."
  | InsufficientMargin _ => "Insufficient margin."
  | InvalidOrder d _ => "Invalid order: " ++ d ++ "."
  | ConflictingOrderIdentifiers => "Both `userref` and `cl_ord_id` set; pick one."
  | SettlePositionRequiresLeverage => "`settle-position` requires leverage >= 1."
  | ReduceOnlyRequiresLeverage => "`reduce_only` requires a margin order or leverage > 1."
  | EmptyAmendRequest => "Amend request is empty."
  | NoAmendableParameters _ =>
      "Amend rejected: no amendable parameters (new value matched current, e.g. a sub-tick price)."
  | UnknownOrder _ => "Order not found; no open order matches the cl_ord_id."
  | BatchSizeOutOfRange lo hi =>
      "Batch size out of range; require " ++ decimal lo ++ "-" ++ decimal hi ++ " orders."
  | SystemStatusBlocked current required =>
      "Operation blocked: exchange system status is " ++ quote_char ++ status current ++
      quote_char ++ ", but this operation requires " ++ quote_char ++ status required ++
      quote_char ++ " " ++ em_dash ++ " retry once the status returns to the required level."
  | RateLimited _ _ => "Rate limited."
  | TradeTransport k _ _ => "Transport: " ++ kind_debug k
  | MalformedResponse _ _ => "The server response could not be parsed."
  | TradeClientClosed => "Client is closed; no new operations accepted."
  | LoopDead =>
      "The client's internal loop has failed; new WS operations are rejected. Use `.via(Transport::Rest)` to cancel or de-risk, then rebuild the client."
  | WsUnsupportedOrderField f =>
      "Order field `" ++ f ++ "` is not supported on the WS transport in v1; use `.via(Transport::Rest)`."
  | RestUnsupportedOrderField f =>
      "Order field `" ++ f ++ "` is not supported on the REST transport in v1; use `.via(Transport::WsV2Auth)`."
  | UnsupportedTransport t legal =>
      "Transport " ++ transport_debug t ++ " cannot serve this spot order operation; use " ++
      remedy legal ++ "."
  | WsSurfaceUnavailable =>
      "No WS surface is wired on this client; use `.via(Transport::Rest)` for order operations."
  | QueueFull _ => "Order send queue is full; back off and retry."
  | TradeUnknown _ m _ => m
  end.

(** [OrderError], the row of a batch. *)
Record OrderError := mkOrderError {
  oe_cl_ord_id : string;
  oe_code : string;
  oe_message : string;
  oe_retryable : bool;
  oe_category : ErrorCategory;
  oe_request_id : option string;
}.

Definition from_trade_error (cl_ord_id : string) (e : TradeError) : OrderError :=
  mkOrderError cl_ord_id (trade_code e) (trade_display e) (trade_retryable e)
    (trade_category e) (trade_request_id e).
End Display.

(** ** [mod.rs]: connection failures *)

(** [Display] of a connection error's kind. *)
Definition connection_error_display (k : ConnectionErrorKind) : string :=
  match k with
  | NotOpen => "Connection is not open; the request was not sent."
  | RequestInFlightWhenDropped => "Connection dropped with the request in flight."
  | CEClientClosed => "Client is closed; the in-flight request was abandoned."
  | LoopClosed => "The connection loop closed before the request was answered."
  | CEQueueFull => "The operation queue is full; the request was rejected."
  | ResponseTimeout => "The request deadline elapsed before a response was received."
  end.

Definition ws_conn_error_to_trade (k : ConnectionErrorKind) : TradeError :=
  match k with
  | CEQueueFull => QueueFull None
  | ResponseTimeout => TradeTransport RequestSentNoResponse true None
  | _ => TradeTransport (OtherTransport (connection_error_display k)) true None
  end.

(** ** Stamping and classification *)

Lemma with_request_id_keeps_class id e :
  trade_code (with_request_id id e) = trade_code e ∧
  trade_category (with_request_id id e) = trade_category e ∧
  trade_retryable (with_request_id id e) = trade_retryable e.
Proof. by destruct e. Qed.

Lemma with_request_id_first id id' e :
  with_request_id id' (with_request_id id e) = with_request_id id e.
Proof. by destruct e as [[]|[]|? []| | | | |[]|[]| | |? []|? ? []|? []| | | | | | |[]|? ? []]. Qed.

(** Every failure that comes from the exchange or the wire carries the dispatch's id. *)
Lemma classified_is_stamped id msg :
  is_Some (trade_request_id (with_request_id id (classify_kraken_error_string msg))).
Proof. unfold classify_kraken_error_string. repeat case_match; by eexists. Qed.

Lemma from_rest_error_stamped id e :
  is_Some (trade_request_id (with_request_id id (from_rest_error e))).
Proof. destruct e; try by eexists. apply classified_is_stamped. Qed.
