(* ===== verification/OrderTypes.v ===== *)
(** * OrderTypes: order requests, their validation and their REST forms

    [rust/src/api/trade/types/{enums,requests}.rs].  [Decimal] (rust_decimal) is a
    parameter with the three operations the requests use.  A builder's setters are
    functions on the record; constructors whose Rust names collide with a name of
    another enum carry a prefix. *)

From Stdlib Require Import Ascii String.
From stdpp Require Import pretty.
From S2P Require Import Prelude F64 Types Errors Rest Dispatch TradeError WireTime.
Local Open Scope string_scope.
Local Open Scope N_scope.

(** ** [enums.rs] *)

Inductive OrderType :=
  | Market | Limit | Iceberg | StopLoss | TakeProfit | StopLossLimit | TakeProfitLimit
  | TrailingStop | TrailingStopLimit | SettlePosition | UnknownOrderType.

#[export] Instance OrderType_eq_dec : EqDecision OrderType.
Proof. solve_decision. Defined.

Definition order_type_str (t : OrderType) : string :=
  match t with
  | Market => "market" | Limit => "limit" | Iceberg => "iceberg"
  | StopLoss => "stop-loss" | TakeProfit => "take-profit"
  | StopLossLimit => "stop-loss-limit" | TakeProfitLimit => "take-profit-limit"
  | TrailingStop => "trailing-stop" | TrailingStopLimit => "trailing-stop-limit"
  | SettlePosition => "settle-position" | UnknownOrderType => "unknown"
  end.

Inductive OFlag := Post | Fcib | Fciq | Nompp.

#[export] Instance OFlag_eq_dec : EqDecision OFlag.
Proof. solve_decision. Defined.

Definition oflag_str (f : OFlag) : string :=
  match f with Post => "post" | Fcib => "fcib" | Fciq => "fciq" | Nompp => "nompp" end.

Definition oflags_to_wire (flags : list OFlag) : option string :=
  match flags with [] => None | _ => Some (join "," (oflag_str <$> flags)) end.

Inductive StpType := CancelNewest | CancelOldest | CancelBoth.

Definition stp_type_str (s : StpType) : string :=
  match s with
  | CancelNewest => "cancel-newest" | CancelOldest => "cancel-oldest"
  | CancelBoth => "cancel-both"
  end.

Definition stp_type_ws (s : StpType) : string :=
  match s with
  | CancelNewest => "cancel_newest" | CancelOldest => "cancel_oldest"
  | CancelBoth => "cancel_both"
  end.

Inductive TriggerKind := TriggerLast | TriggerIndex.

Definition trigger_str (t : TriggerKind) : string :=
  match t with TriggerLast => "last" | TriggerIndex => "index" end.

Definition trigger_from_wire_str (s : string) : option TriggerKind :=
  if decide (s = "last") then Some TriggerLast
  else if decide (s = "index") then Some TriggerIndex
  else None.

Inductive TimeInForce := Gtc | Ioc | Gtd | Fok.

#[export] Instance TimeInForce_eq_dec : EqDecision TimeInForce.
Proof. solve_decision. Defined.

Definition tif_str (t : TimeInForce) : string :=
  match t with Gtc => "gtc" | Ioc => "ioc" | Gtd => "gtd" | Fok => "fok" end.

Inductive Side := Buy | Sell.

Definition side_str (s : Side) : string := match s with Buy => "buy" | Sell => "sell" end.

(** ** [requests.rs]: prices *)

(** [Decimal]: [to_string], [is_sign_negative] and [> Decimal::ZERO]. *)
Class DecimalOps (D : Type) := {
  dec_to_string : D → string;
  dec_is_sign_negative : D → bool;
  dec_is_positive : D → bool;
}.

Inductive PriceUnit := Quote | Percent.

Inductive CloseOrderType :=
  | CloseLimit | CloseStopLoss | CloseTakeProfit | CloseStopLossLimit
  | CloseTakeProfitLimit | CloseTrailingStop | CloseTrailingStopLimit.

Definition close_order_type_str (t : CloseOrderType) : string :=
  match t with
  | CloseLimit => "limit" | CloseStopLoss => "stop-loss" | CloseTakeProfit => "take-profit"
  | CloseStopLossLimit => "stop-loss-limit" | CloseTakeProfitLimit => "take-profit-limit"
  | CloseTrailingStop => "trailing-stop" | CloseTrailingStopLimit => "trailing-stop-limit"
  end.

Definition to_order_type (t : CloseOrderType) : OrderType :=
  match t with
  | CloseLimit => Limit | CloseStopLoss => StopLoss | CloseTakeProfit => TakeProfit
  | CloseStopLossLimit => StopLossLimit | CloseTakeProfitLimit => TakeProfitLimit
  | CloseTrailingStop => TrailingStop | CloseTrailingStopLimit => TrailingStopLimit
  end.

Definition is_limit_price_bearing (t : OrderType) : bool :=
  match t with
  | Limit | Iceberg | StopLossLimit | TakeProfitLimit | TrailingStopLimit => true
  | _ => false
  end.

(** The offset is held and never read. *)
Record DeadlineSpec := mkDeadline { deadline_offset : Duration }.

Section Requests.
Context {D : Type} `{!DecimalOps D}.

Inductive Price :=
  | Absolute (d : D)
  | Offset (unit : PriceUnit) (value : D).

Definition price_to_rest_form (p : Price) : string :=
  match p with
  | Absolute d => dec_to_string d
  | Offset unit value =>
      let signed :=
        if dec_is_sign_negative value then dec_to_string value
        else "+" ++ dec_to_string value in
      match unit with Quote => signed | Percent => signed ++ "%" end
  end.

Definition price_to_ws (p : Price) : D * string :=
  match p with
  | Absolute d => (d, "static")
  | Offset Quote value => (value, "quote")
  | Offset Percent value => (value, "pct")
  end.

Record ConditionalClose := mkClose {
  close_ordertype : CloseOrderType;
  close_price : Price;
  close_price2 : option Price;
}.

Definition flat_legs (cc : option ConditionalClose)
  : option OrderType * option Price * option Price :=
  match cc with
  | Some c => (Some (to_order_type (close_ordertype c)), Some (close_price c), close_price2 c)
  | None => (None, None, None)
  end.

(** The optional fields of a form. *)
Definition form_field {A} (key : string) (render : A → string) (o : option A)
  : list (string * string) :=
  match o with Some a => [(key, render a)] | None => [] end.

Definition flag_field (key : string) (b : bool) : list (string * string) :=
  if b then [(key, "true")] else [].

Definition close_push_form (prefix : string) (c : ConditionalClose) : list (string * string) :=
  (((prefix ++ "[ordertype]")%string, close_order_type_str (close_ordertype c)) ::
   ((prefix ++ "[price]")%string, price_to_rest_form (close_price c)) ::
   form_field (prefix ++ "[price2]") price_to_rest_form (close_price2 c))%list.

(** ** Which transport can carry a field *)

Definition ws_unrepresentable_field (has_leverage : bool) (close_price close_price2 : option Price)
  : option string :=
  if has_leverage then Some "leverage"
  else match close_price with
       | Some (Offset _ _) => Some "close[price]"
       | _ =>
           match close_price2 with
           | Some (Offset _ _) => Some "close[price2]"
           | _ => None
           end
       end.

Definition rest_unrepresentable_field (has_margin : bool) : option string :=
  if has_margin then Some "margin" else None.

(** ** The order request *)

Record OrderRequest := mkOrder {
  or_side : Side;
  or_pair : Symbol;
  or_volume : D;
  or_order_type : OrderType;
  or_price : option Price;
  or_price2 : option Price;
  or_leverage : option N;
  or_margin : bool;
  or_oflags : list OFlag;
  or_reduce_only : option bool;
  or_stp_type : option StpType;
  or_trigger : option TriggerKind;
  or_time_in_force : option TimeInForce;
  or_display_vol : option D;
  or_start_time : option TimeSpec;
  or_expire_time : option TimeSpec;
  or_deadline : option DeadlineSpec;
  or_userref : option Z;
  or_cl_ord_id : option string;
  or_conditional_close : option ConditionalClose;
  or_validate : bool;
}.

Definition order_new (pr : Symbol) (volume : D) (side : Side) : OrderRequest :=
  {| or_side := side; or_pair := pr; or_volume := volume; or_order_type := Market;
     or_price := None; or_price2 := None; or_leverage := None; or_margin := false;
     or_oflags := []; or_reduce_only := None; or_stp_type := None; or_trigger := None;
     or_time_in_force := None; or_display_vol := None; or_start_time := None;
     or_expire_time := None; or_deadline := None; or_userref := None;
     or_cl_ord_id := None; or_conditional_close := None; or_validate := false |}.

(** [i32] and [u8] text. *)
Definition int_text (z : Z) : string := pretty z.

Definition add_order_to_form (r : OrderRequest) : list (string * string) :=
  ([("pair", or_pair r); ("volume", dec_to_string (or_volume r));
    ("ordertype", order_type_str (or_order_type r))] ++
   form_field "price" price_to_rest_form (or_price r) ++
   form_field "price2" price_to_rest_form (or_price2 r) ++
   form_field "leverage" decimal (or_leverage r) ++
   form_field "oflags" id (oflags_to_wire (or_oflags r)) ++
   flag_field "reduce_only" (bool_decide (or_reduce_only r = Some true)) ++
   form_field "stptype" stp_type_str (or_stp_type r) ++
   form_field "trigger" trigger_str (or_trigger r) ++
   form_field "timeinforce" tif_str (or_time_in_force r) ++
   form_field "displayvol" dec_to_string (or_display_vol r) ++
   form_field "starttm" time_to_rest_form (or_start_time r) ++
   form_field "expiretm" time_to_rest_form (or_expire_time r) ++
   form_field "userref" int_text (or_userref r) ++
   form_field "cl_ord_id" id (or_cl_ord_id r) ++
   default [] (close_push_form "close" <$> or_conditional_close r) ++
   flag_field "validate" (or_validate r))%list.

Definition order_to_form (r : OrderRequest) : list (string * string) :=
  (add_order_to_form r ++ [("type", side_str (or_side r))])%list.

Definition set_post_only (oflags : list OFlag) (on : bool) : list OFlag :=
  if on then (if decide (Post ∈ oflags) then oflags else (oflags ++ [Post])%list)
  else filter (λ f, f ≠ Post) oflags.

(** *** The setters *)

Definition or_with_price (v : Price) (r : OrderRequest) : OrderRequest :=
  {| or_side := or_side r; or_pair := or_pair r; or_volume := or_volume r;
     or_order_type := or_order_type r; or_price := Some v; or_price2 := or_price2 r;
     or_leverage := or_leverage r; or_margin := or_margin r; or_oflags := or_oflags r;
     or_reduce_only := or_reduce_only r; or_stp_type := or_stp_type r; or_trigger :=
     or_trigger r; or_time_in_force := or_time_in_force r; or_display_vol :=
     or_display_vol r; or_start_time := or_start_time r; or_expire_time :=
     or_expire_time r; or_deadline := or_deadline r; or_userref := or_userref r;
     or_cl_ord_id := or_cl_ord_id r; or_conditional_close := or_conditional_close r;
     or_validate := or_validate r |}.

Definition or_with_price2 (v : Price) (r : OrderRequest) : OrderRequest :=
  {| or_side := or_side r; or_pair := or_pair r; or_volume := or_volume r;
     or_order_type := or_order_type r; or_price := or_price r; or_price2 := Some v;
     or_leverage := or_leverage r; or_margin := or_margin r; or_oflags := or_oflags r;
     or_reduce_only := or_reduce_only r; or_stp_type := or_stp_type r; or_trigger :=
     or_trigger r; or_time_in_force := or_time_in_force r; or_display_vol :=
     or_display_vol r; or_start_time := or_start_time r; or_expire_time :=
     or_expire_time r; or_deadline := or_deadline r; or_userref := or_userref r;
     or_cl_ord_id := or_cl_ord_id r; or_conditional_close := or_conditional_close r;
     or_validate := or_validate r |}.

Definition or_with_leverage (v : N) (r : OrderRequest) : OrderRequest :=
  {| or_side := or_side r; or_pair := or_pair r; or_volume := or_volume r;
     or_order_type := or_order_type r; or_price := or_price r; or_price2 := or_price2
     r; or_leverage := Some v; or_margin := or_margin r; or_oflags := or_oflags r;
     or_reduce_only := or_reduce_only r; or_stp_type := or_stp_type r; or_trigger :=
     or_trigger r; or_time_in_force := or_time_in_force r; or_display_vol :=
     or_display_vol r; or_start_time := or_start_time r; or_expire_time :=
     or_expire_time r; or_deadline := or_deadline r; or_userref := or_userref r;
     or_cl_ord_id := or_cl_ord_id r; or_conditional_close := or_conditional_close r;
     or_validate := or_validate r |}.

Definition or_with_margin (v : bool) (r : OrderRequest) : OrderRequest :=
  {| or_side := or_side r; or_pair := or_pair r; or_volume := or_volume r;
     or_order_type := or_order_type r; or_price := or_price r; or_price2 := or_price2
     r; or_leverage := or_leverage r; or_margin := v; or_oflags := or_oflags r;
     or_reduce_only := or_reduce_only r; or_stp_type := or_stp_type r; or_trigger :=
     or_trigger r; or_time_in_force := or_time_in_force r; or_display_vol :=
     or_display_vol r; or_start_time := or_start_time r; or_expire_time :=
     or_expire_time r; or_deadline := or_deadline r; or_userref := or_userref r;
     or_cl_ord_id := or_cl_ord_id r; or_conditional_close := or_conditional_close r;
     or_validate := or_validate r |}.

Definition or_with_oflags (v : list OFlag) (r : OrderRequest) : OrderRequest :=
  {| or_side := or_side r; or_pair := or_pair r; or_volume := or_volume r;
     or_order_type := or_order_type r; or_price := or_price r; or_price2 := or_price2
     r; or_leverage := or_leverage r; or_margin := or_margin r; or_oflags := v;
     or_reduce_only := or_reduce_only r; or_stp_type := or_stp_type r; or_trigger :=
     or_trigger r; or_time_in_force := or_time_in_force r; or_display_vol :=
     or_display_vol r; or_start_time := or_start_time r; or_expire_time :=
     or_expire_time r; or_deadline := or_deadline r; or_userref := or_userref r;
     or_cl_ord_id := or_cl_ord_id r; or_conditional_close := or_conditional_close r;
     or_validate := or_validate r |}.

Definition or_with_reduce_only (v : bool) (r : OrderRequest) : OrderRequest :=
  {| or_side := or_side r; or_pair := or_pair r; or_volume := or_volume r;
     or_order_type := or_order_type r; or_price := or_price r; or_price2 := or_price2
     r; or_leverage := or_leverage r; or_margin := or_margin r; or_oflags := or_oflags
     r; or_reduce_only := Some v; or_stp_type := or_stp_type r; or_trigger :=
     or_trigger r; or_time_in_force := or_time_in_force r; or_display_vol :=
     or_display_vol r; or_start_time := or_start_time r; or_expire_time :=
     or_expire_time r; or_deadline := or_deadline r; or_userref := or_userref r;
     or_cl_ord_id := or_cl_ord_id r; or_conditional_close := or_conditional_close r;
     or_validate := or_validate r |}.

Definition or_with_stp_type (v : StpType) (r : OrderRequest) : OrderRequest :=
  {| or_side := or_side r; or_pair := or_pair r; or_volume := or_volume r;
     or_order_type := or_order_type r; or_price := or_price r; or_price2 := or_price2
     r; or_leverage := or_leverage r; or_margin := or_margin r; or_oflags := or_oflags
     r; or_reduce_only := or_reduce_only r; or_stp_type := Some v; or_trigger :=
     or_trigger r; or_time_in_force := or_time_in_force r; or_display_vol :=
     or_display_vol r; or_start_time := or_start_time r; or_expire_time :=
     or_expire_time r; or_deadline := or_deadline r; or_userref := or_userref r;
     or_cl_ord_id := or_cl_ord_id r; or_conditional_close := or_conditional_close r;
     or_validate := or_validate r |}.

Definition or_with_trigger (v : TriggerKind) (r : OrderRequest) : OrderRequest :=
  {| or_side := or_side r; or_pair := or_pair r; or_volume := or_volume r;
     or_order_type := or_order_type r; or_price := or_price r; or_price2 := or_price2
     r; or_leverage := or_leverage r; or_margin := or_margin r; or_oflags := or_oflags
     r; or_reduce_only := or_reduce_only r; or_stp_type := or_stp_type r; or_trigger
     := Some v; or_time_in_force := or_time_in_force r; or_display_vol :=
     or_display_vol r; or_start_time := or_start_time r; or_expire_time :=
     or_expire_time r; or_deadline := or_deadline r; or_userref := or_userref r;
     or_cl_ord_id := or_cl_ord_id r; or_conditional_close := or_conditional_close r;
     or_validate := or_validate r |}.

Definition or_with_time_in_force (v : TimeInForce) (r : OrderRequest) : OrderRequest :=
  {| or_side := or_side r; or_pair := or_pair r; or_volume := or_volume r;
     or_order_type := or_order_type r; or_price := or_price r; or_price2 := or_price2
     r; or_leverage := or_leverage r; or_margin := or_margin r; or_oflags := or_oflags
     r; or_reduce_only := or_reduce_only r; or_stp_type := or_stp_type r; or_trigger
     := or_trigger r; or_time_in_force := Some v; or_display_vol := or_display_vol r;
     or_start_time := or_start_time r; or_expire_time := or_expire_time r; or_deadline
     := or_deadline r; or_userref := or_userref r; or_cl_ord_id := or_cl_ord_id r;
     or_conditional_close := or_conditional_close r; or_validate := or_validate r |}.

Definition or_with_display_vol (v : D) (r : OrderRequest) : OrderRequest :=
  {| or_side := or_side r; or_pair := or_pair r; or_volume := or_volume r;
     or_order_type := or_order_type r; or_price := or_price r; or_price2 := or_price2
     r; or_leverage := or_leverage r; or_margin := or_margin r; or_oflags := or_oflags
     r; or_reduce_only := or_reduce_only r; or_stp_type := or_stp_type r; or_trigger
     := or_trigger r; or_time_in_force := or_time_in_force r; or_display_vol := Some
     v; or_start_time := or_start_time r; or_expire_time := or_expire_time r;
     or_deadline := or_deadline r; or_userref := or_userref r; or_cl_ord_id :=
     or_cl_ord_id r; or_conditional_close := or_conditional_close r; or_validate :=
     or_validate r |}.

Definition or_with_start_time (v : TimeSpec) (r : OrderRequest) : OrderRequest :=
  {| or_side := or_side r; or_pair := or_pair r; or_volume := or_volume r;
     or_order_type := or_order_type r; or_price := or_price r; or_price2 := or_price2
     r; or_leverage := or_leverage r; or_margin := or_margin r; or_oflags := or_oflags
     r; or_reduce_only := or_reduce_only r; or_stp_type := or_stp_type r; or_trigger
     := or_trigger r; or_time_in_force := or_time_in_force r; or_display_vol :=
     or_display_vol r; or_start_time := Some v; or_expire_time := or_expire_time r;
     or_deadline := or_deadline r; or_userref := or_userref r; or_cl_ord_id :=
     or_cl_ord_id r; or_conditional_close := or_conditional_close r; or_validate :=
     or_validate r |}.

Definition or_with_expire_time (v : TimeSpec) (r : OrderRequest) : OrderRequest :=
  {| or_side := or_side r; or_pair := or_pair r; or_volume := or_volume r;
     or_order_type := or_order_type r; or_price := or_price r; or_price2 := or_price2
     r; or_leverage := or_leverage r; or_margin := or_margin r; or_oflags := or_oflags
     r; or_reduce_only := or_reduce_only r; or_stp_type := or_stp_type r; or_trigger
     := or_trigger r; or_time_in_force := or_time_in_force r; or_display_vol :=
     or_display_vol r; or_start_time := or_start_time r; or_expire_time := Some v;
     or_deadline := or_deadline r; or_userref := or_userref r; or_cl_ord_id :=
     or_cl_ord_id r; or_conditional_close := or_conditional_close r; or_validate :=
     or_validate r |}.

Definition or_with_userref (v : Z) (r : OrderRequest) : OrderRequest :=
  {| or_side := or_side r; or_pair := or_pair r; or_volume := or_volume r;
     or_order_type := or_order_type r; or_price := or_price r; or_price2 := or_price2
     r; or_leverage := or_leverage r; or_margin := or_margin r; or_oflags := or_oflags
     r; or_reduce_only := or_reduce_only r; or_stp_type := or_stp_type r; or_trigger
     := or_trigger r; or_time_in_force := or_time_in_force r; or_display_vol :=
     or_display_vol r; or_start_time := or_start_time r; or_expire_time :=
     or_expire_time r; or_deadline := or_deadline r; or_userref := Some v;
     or_cl_ord_id := or_cl_ord_id r; or_conditional_close := or_conditional_close r;
     or_validate := or_validate r |}.

Definition or_with_cl_ord_id (v : string) (r : OrderRequest) : OrderRequest :=
  {| or_side := or_side r; or_pair := or_pair r; or_volume := or_volume r;
     or_order_type := or_order_type r; or_price := or_price r; or_price2 := or_price2
     r; or_leverage := or_leverage r; or_margin := or_margin r; or_oflags := or_oflags
     r; or_reduce_only := or_reduce_only r; or_stp_type := or_stp_type r; or_trigger
     := or_trigger r; or_time_in_force := or_time_in_force r; or_display_vol :=
     or_display_vol r; or_start_time := or_start_time r; or_expire_time :=
     or_expire_time r; or_deadline := or_deadline r; or_userref := or_userref r;
     or_cl_ord_id := Some v; or_conditional_close := or_conditional_close r;
     or_validate := or_validate r |}.

Definition or_with_conditional_close (v : ConditionalClose) (r : OrderRequest) : OrderRequest :=
  {| or_side := or_side r; or_pair := or_pair r; or_volume := or_volume r;
     or_order_type := or_order_type r; or_price := or_price r; or_price2 := or_price2
     r; or_leverage := or_leverage r; or_margin := or_margin r; or_oflags := or_oflags
     r; or_reduce_only := or_reduce_only r; or_stp_type := or_stp_type r; or_trigger
     := or_trigger r; or_time_in_force := or_time_in_force r; or_display_vol :=
     or_display_vol r; or_start_time := or_start_time r; or_expire_time :=
     or_expire_time r; or_deadline := or_deadline r; or_userref := or_userref r;
     or_cl_ord_id := or_cl_ord_id r; or_conditional_close := Some v; or_validate :=
     or_validate r |}.

Definition or_with_validate (v : bool) (r : OrderRequest) : OrderRequest :=
  {| or_side := or_side r; or_pair := or_pair r; or_volume := or_volume r;
     or_order_type := or_order_type r; or_price := or_price r; or_price2 := or_price2
     r; or_leverage := or_leverage r; or_margin := or_margin r; or_oflags := or_oflags
     r; or_reduce_only := or_reduce_only r; or_stp_type := or_stp_type r; or_trigger
     := or_trigger r; or_time_in_force := or_time_in_force r; or_display_vol :=
     or_display_vol r; or_start_time := or_start_time r; or_expire_time :=
     or_expire_time r; or_deadline := or_deadline r; or_userref := or_userref r;
     or_cl_ord_id := or_cl_ord_id r; or_conditional_close := or_conditional_close r;
     or_validate := v |}.

Definition or_with_order_type (v : OrderType) (r : OrderRequest) : OrderRequest :=
  {| or_side := or_side r; or_pair := or_pair r; or_volume := or_volume r;
     or_order_type := v; or_price := or_price r; or_price2 := or_price2 r; or_leverage
     := or_leverage r; or_margin := or_margin r; or_oflags := or_oflags r;
     or_reduce_only := or_reduce_only r; or_stp_type := or_stp_type r; or_trigger :=
     or_trigger r; or_time_in_force := or_time_in_force r; or_display_vol :=
     or_display_vol r; or_start_time := or_start_time r; or_expire_time :=
     or_expire_time r; or_deadline := or_deadline r; or_userref := or_userref r;
     or_cl_ord_id := or_cl_ord_id r; or_conditional_close := or_conditional_close r;
     or_validate := or_validate r |}.

Definition order_post_only (on : bool) (r : OrderRequest) : OrderRequest :=
  or_with_oflags (set_post_only (or_oflags r) on) r.

(** ** Validation: the left side is the rejection *)

Abbreviation Checked := (TradeError + ())%type.

(** [?] *)
Definition check (a : Checked) (k : Checked) : Checked :=
  match a with inl e => inl e | inr _ => k end.

Definition invalid (detail : string) : Checked := inl (InvalidOrder detail None).

Definition validate_trailing_price (t : OrderType) (price price2 : option Price) : Checked :=
  match t with
  | TrailingStop | TrailingStopLimit =>
      check
        (match price with
         | Some (Offset _ value) =>
             if dec_is_positive value then inr tt
             else invalid "trailing-stop price offset must be positive; direction is automatic from the order side"
         | Some (Absolute _) =>
             invalid "trailing-stop price must be a relative offset, not an absolute price"
         | None => invalid "trailing-stop requires a relative price offset"
         end)
        (if bool_decide (t = TrailingStopLimit) && bool_decide (price2 = None)
         then invalid "trailing-stop-limit requires a relative price2 (limit leg)"
         else match price2 with
              | Some (Absolute _) =>
                  invalid "trailing-stop-limit price2 must be a relative offset, not an absolute price"
              | _ => inr tt
              end)
  | _ => inr tt
  end.

Definition reject_unsupported_deadline (deadline : option DeadlineSpec) : Checked :=
  match deadline with
  | Some _ =>
      invalid "the `deadline` order parameter is not yet supported in v1 (server-clock rendering is deferred); omit it"
  | None => inr tt
  end.

(** [is_none_or(|l| l <= bound)] *)
Definition leverage_at_most (bound : N) (leverage : option N) : bool :=
  match leverage with Some l => l <=? bound | None => true end.

Definition validate_order_gates (t : OrderType) (leverage : option N) (margin : bool)
  (reduce_only : option bool) (tif : option TimeInForce) : Checked :=
  if bool_decide (t = UnknownOrderType)
  then invalid "`OrderType::Unknown` is decode-only and cannot be placed"
  else if bool_decide (t = SettlePosition) && leverage_at_most 0 leverage
  then inl SettlePositionRequiresLeverage
  else if bool_decide (reduce_only = Some true) && leverage_at_most 1 leverage && negb margin
  then inl ReduceOnlyRequiresLeverage
  else if bool_decide (tif = Some Fok) && negb (is_limit_price_bearing t)
  then invalid "fill-or-kill (fok) time-in-force is only valid on limit order types (limit, iceberg, stop-loss-limit, take-profit-limit, trailing-stop-limit)"
  else inr tt.

Definition unplaceable (rf wf : string) : string :=
  "order is un-placeable: `" ++ rf ++ "` can only be sent on WS while `" ++ wf ++
  "` can only be sent on REST " ++ em_dash ++
  " no single transport supports both. Drop one.".

Definition validate_close (cc : option ConditionalClose) : Checked :=
  match cc with
  | Some c => validate_trailing_price (to_order_type (close_ordertype c))
                (Some (close_price c)) (close_price2 c)
  | None => inr tt
  end.

Definition close_ws_field (has_leverage : bool) (cc : option ConditionalClose)
  : option string :=
  let '(_, cp, cp2) := flat_legs cc in ws_unrepresentable_field has_leverage cp cp2.

Definition validate_add_order (has_userref has_cl_ord_id : bool) (t : OrderType)
  (leverage : option N) (margin : bool) (reduce_only : option bool)
  (tif : option TimeInForce) (price price2 : option Price)
  (cc : option ConditionalClose) : Checked :=
  if has_userref && has_cl_ord_id then inl ConflictingOrderIdentifiers
  else
    match rest_unrepresentable_field margin,
          close_ws_field (bool_decide (is_Some leverage)) cc with
    | Some rf, Some wf => invalid (unplaceable rf wf)
    | _, _ =>
        check (validate_order_gates t leverage margin reduce_only tif)
          (check (validate_trailing_price t price price2) (validate_close cc))
    end.

Definition order_validate (r : OrderRequest) : Checked :=
  check (reject_unsupported_deadline (or_deadline r))
    (validate_add_order (bool_decide (is_Some (or_userref r)))
       (bool_decide (is_Some (or_cl_ord_id r))) (or_order_type r) (or_leverage r)
       (or_margin r) (or_reduce_only r) (or_time_in_force r) (or_price r) (or_price2 r)
       (or_conditional_close r)).

(** ** Amend, cancel, dead man's switch *)

Record OrderAmendRequest := mkAmend {
  am_cl_ord_id : string;
  am_order_volume : option D;
  am_limit_price : option Price;
  am_post_only : option bool;
  am_trigger_price : option Price;
  am_display_qty : option D;
}.

Definition amend_new (cl_ord_id : string) : OrderAmendRequest :=
  mkAmend cl_ord_id None None None None None.

Definition am_with_order_volume (v : D) (r : OrderAmendRequest) : OrderAmendRequest :=
  {| am_cl_ord_id := am_cl_ord_id r; am_order_volume := Some v; am_limit_price :=
     am_limit_price r; am_post_only := am_post_only r; am_trigger_price :=
     am_trigger_price r; am_display_qty := am_display_qty r |}.

Definition am_with_limit_price (v : Price) (r : OrderAmendRequest) : OrderAmendRequest :=
  {| am_cl_ord_id := am_cl_ord_id r; am_order_volume := am_order_volume r;
     am_limit_price := Some v; am_post_only := am_post_only r; am_trigger_price :=
     am_trigger_price r; am_display_qty := am_display_qty r |}.

Definition am_with_post_only (v : bool) (r : OrderAmendRequest) : OrderAmendRequest :=
  {| am_cl_ord_id := am_cl_ord_id r; am_order_volume := am_order_volume r;
     am_limit_price := am_limit_price r; am_post_only := Some v; am_trigger_price :=
     am_trigger_price r; am_display_qty := am_display_qty r |}.

Definition am_with_trigger_price (v : Price) (r : OrderAmendRequest) : OrderAmendRequest :=
  {| am_cl_ord_id := am_cl_ord_id r; am_order_volume := am_order_volume r;
     am_limit_price := am_limit_price r; am_post_only := am_post_only r;
     am_trigger_price := Some v; am_display_qty := am_display_qty r |}.

Definition am_with_display_qty (v : D) (r : OrderAmendRequest) : OrderAmendRequest :=
  {| am_cl_ord_id := am_cl_ord_id r; am_order_volume := am_order_volume r;
     am_limit_price := am_limit_price r; am_post_only := am_post_only r;
     am_trigger_price := am_trigger_price r; am_display_qty := Some v |}.

Definition amend_validate (r : OrderAmendRequest) : Checked :=
  match am_order_volume r, am_limit_price r, am_post_only r, am_trigger_price r,
        am_display_qty r with
  | None, None, None, None, None => inl EmptyAmendRequest
  | _, _, _, _, _ => inr tt
  end.

Definition amend_to_form (r : OrderAmendRequest) : list (string * string) :=
  (("cl_ord_id", am_cl_ord_id r) ::
   form_field "order_qty" dec_to_string (am_order_volume r) ++
   form_field "limit_price" price_to_rest_form (am_limit_price r) ++
   form_field "post_only" (λ b : bool, if b then "true" else "false") (am_post_only r) ++
   form_field "trigger_price" price_to_rest_form (am_trigger_price r) ++
   form_field "display_qty" dec_to_string (am_display_qty r))%list.

Record CancelRequest := mkCancel { ca_cl_ord_id : string }.

Definition cancel_to_form (r : CancelRequest) : list (string * string) :=
  [("cl_ord_id", ca_cl_ord_id r)].

(** [CancelAllRequest] has no field. *)
Definition cancel_all_to_form : list (string * string) := [].

Record DeadmanRequest := mkDeadman { dm_timeout_secs : N }.

Definition deadman_to_form (r : DeadmanRequest) : list (string * string) :=
  [("timeout", decimal (dm_timeout_secs r))].

(** ** Batches *)

Record BatchOrderEntry := mkEntry {
  be_ordertype : OrderType;
  be_side : Side;
  be_volume : D;
  be_price : option Price;
  be_price2 : option Price;
  be_leverage : option N;
  be_margin : bool;
  be_reduce_only : option bool;
  be_stp_type : option StpType;
  be_trigger : option TriggerKind;
  be_display_vol : option D;
  be_start_time : option TimeSpec;
  be_expire_time : option TimeSpec;
  be_cl_ord_id : option string;
  be_userref : option Z;
  be_oflags : option (list OFlag);
  be_time_in_force : option TimeInForce;
  be_conditional_close : option ConditionalClose;
}.

Definition batch_entry_new (t : OrderType) (side : Side) (volume : D) : BatchOrderEntry :=
  {| be_ordertype := t; be_side := side; be_volume := volume; be_price := None;
     be_price2 := None; be_leverage := None; be_margin := false; be_reduce_only := None;
     be_stp_type := None; be_trigger := None; be_display_vol := None;
     be_start_time := None; be_expire_time := None; be_cl_ord_id := None;
     be_userref := None; be_oflags := None; be_time_in_force := None;
     be_conditional_close := None |}.

Definition be_with_price (v : Price) (r : BatchOrderEntry) : BatchOrderEntry :=
  {| be_ordertype := be_ordertype r; be_side := be_side r; be_volume := be_volume r;
     be_price := Some v; be_price2 := be_price2 r; be_leverage := be_leverage r;
     be_margin := be_margin r; be_reduce_only := be_reduce_only r; be_stp_type :=
     be_stp_type r; be_trigger := be_trigger r; be_display_vol := be_display_vol r;
     be_start_time := be_start_time r; be_expire_time := be_expire_time r;
     be_cl_ord_id := be_cl_ord_id r; be_userref := be_userref r; be_oflags :=
     be_oflags r; be_time_in_force := be_time_in_force r; be_conditional_close :=
     be_conditional_close r |}.

Definition be_with_price2 (v : Price) (r : BatchOrderEntry) : BatchOrderEntry :=
  {| be_ordertype := be_ordertype r; be_side := be_side r; be_volume := be_volume r;
     be_price := be_price r; be_price2 := Some v; be_leverage := be_leverage r;
     be_margin := be_margin r; be_reduce_only := be_reduce_only r; be_stp_type :=
     be_stp_type r; be_trigger := be_trigger r; be_display_vol := be_display_vol r;
     be_start_time := be_start_time r; be_expire_time := be_expire_time r;
     be_cl_ord_id := be_cl_ord_id r; be_userref := be_userref r; be_oflags :=
     be_oflags r; be_time_in_force := be_time_in_force r; be_conditional_close :=
     be_conditional_close r |}.

Definition be_with_leverage (v : N) (r : BatchOrderEntry) : BatchOrderEntry :=
  {| be_ordertype := be_ordertype r; be_side := be_side r; be_volume := be_volume r;
     be_price := be_price r; be_price2 := be_price2 r; be_leverage := Some v;
     be_margin := be_margin r; be_reduce_only := be_reduce_only r; be_stp_type :=
     be_stp_type r; be_trigger := be_trigger r; be_display_vol := be_display_vol r;
     be_start_time := be_start_time r; be_expire_time := be_expire_time r;
     be_cl_ord_id := be_cl_ord_id r; be_userref := be_userref r; be_oflags :=
     be_oflags r; be_time_in_force := be_time_in_force r; be_conditional_close :=
     be_conditional_close r |}.

Definition be_with_margin (v : bool) (r : BatchOrderEntry) : BatchOrderEntry :=
  {| be_ordertype := be_ordertype r; be_side := be_side r; be_volume := be_volume r;
     be_price := be_price r; be_price2 := be_price2 r; be_leverage := be_leverage r;
     be_margin := v; be_reduce_only := be_reduce_only r; be_stp_type := be_stp_type r;
     be_trigger := be_trigger r; be_display_vol := be_display_vol r; be_start_time :=
     be_start_time r; be_expire_time := be_expire_time r; be_cl_ord_id := be_cl_ord_id
     r; be_userref := be_userref r; be_oflags := be_oflags r; be_time_in_force :=
     be_time_in_force r; be_conditional_close := be_conditional_close r |}.

Definition be_with_reduce_only (v : bool) (r : BatchOrderEntry) : BatchOrderEntry :=
  {| be_ordertype := be_ordertype r; be_side := be_side r; be_volume := be_volume r;
     be_price := be_price r; be_price2 := be_price2 r; be_leverage := be_leverage r;
     be_margin := be_margin r; be_reduce_only := Some v; be_stp_type := be_stp_type r;
     be_trigger := be_trigger r; be_display_vol := be_display_vol r; be_start_time :=
     be_start_time r; be_expire_time := be_expire_time r; be_cl_ord_id := be_cl_ord_id
     r; be_userref := be_userref r; be_oflags := be_oflags r; be_time_in_force :=
     be_time_in_force r; be_conditional_close := be_conditional_close r |}.

Definition be_with_stp_type (v : StpType) (r : BatchOrderEntry) : BatchOrderEntry :=
  {| be_ordertype := be_ordertype r; be_side := be_side r; be_volume := be_volume r;
     be_price := be_price r; be_price2 := be_price2 r; be_leverage := be_leverage r;
     be_margin := be_margin r; be_reduce_only := be_reduce_only r; be_stp_type := Some
     v; be_trigger := be_trigger r; be_display_vol := be_display_vol r; be_start_time
     := be_start_time r; be_expire_time := be_expire_time r; be_cl_ord_id :=
     be_cl_ord_id r; be_userref := be_userref r; be_oflags := be_oflags r;
     be_time_in_force := be_time_in_force r; be_conditional_close :=
     be_conditional_close r |}.

Definition be_with_trigger (v : TriggerKind) (r : BatchOrderEntry) : BatchOrderEntry :=
  {| be_ordertype := be_ordertype r; be_side := be_side r; be_volume := be_volume r;
     be_price := be_price r; be_price2 := be_price2 r; be_leverage := be_leverage r;
     be_margin := be_margin r; be_reduce_only := be_reduce_only r; be_stp_type :=
     be_stp_type r; be_trigger := Some v; be_display_vol := be_display_vol r;
     be_start_time := be_start_time r; be_expire_time := be_expire_time r;
     be_cl_ord_id := be_cl_ord_id r; be_userref := be_userref r; be_oflags :=
     be_oflags r; be_time_in_force := be_time_in_force r; be_conditional_close :=
     be_conditional_close r |}.

Definition be_with_display_vol (v : D) (r : BatchOrderEntry) : BatchOrderEntry :=
  {| be_ordertype := be_ordertype r; be_side := be_side r; be_volume := be_volume r;
     be_price := be_price r; be_price2 := be_price2 r; be_leverage := be_leverage r;
     be_margin := be_margin r; be_reduce_only := be_reduce_only r; be_stp_type :=
     be_stp_type r; be_trigger := be_trigger r; be_display_vol := Some v;
     be_start_time := be_start_time r; be_expire_time := be_expire_time r;
     be_cl_ord_id := be_cl_ord_id r; be_userref := be_userref r; be_oflags :=
     be_oflags r; be_time_in_force := be_time_in_force r; be_conditional_close :=
     be_conditional_close r |}.

Definition be_with_start_time (v : TimeSpec) (r : BatchOrderEntry) : BatchOrderEntry :=
  {| be_ordertype := be_ordertype r; be_side := be_side r; be_volume := be_volume r;
     be_price := be_price r; be_price2 := be_price2 r; be_leverage := be_leverage r;
     be_margin := be_margin r; be_reduce_only := be_reduce_only r; be_stp_type :=
     be_stp_type r; be_trigger := be_trigger r; be_display_vol := be_display_vol r;
     be_start_time := Some v; be_expire_time := be_expire_time r; be_cl_ord_id :=
     be_cl_ord_id r; be_userref := be_userref r; be_oflags := be_oflags r;
     be_time_in_force := be_time_in_force r; be_conditional_close :=
     be_conditional_close r |}.

Definition be_with_expire_time (v : TimeSpec) (r : BatchOrderEntry) : BatchOrderEntry :=
  {| be_ordertype := be_ordertype r; be_side := be_side r; be_volume := be_volume r;
     be_price := be_price r; be_price2 := be_price2 r; be_leverage := be_leverage r;
     be_margin := be_margin r; be_reduce_only := be_reduce_only r; be_stp_type :=
     be_stp_type r; be_trigger := be_trigger r; be_display_vol := be_display_vol r;
     be_start_time := be_start_time r; be_expire_time := Some v; be_cl_ord_id :=
     be_cl_ord_id r; be_userref := be_userref r; be_oflags := be_oflags r;
     be_time_in_force := be_time_in_force r; be_conditional_close :=
     be_conditional_close r |}.

Definition be_with_cl_ord_id (v : string) (r : BatchOrderEntry) : BatchOrderEntry :=
  {| be_ordertype := be_ordertype r; be_side := be_side r; be_volume := be_volume r;
     be_price := be_price r; be_price2 := be_price2 r; be_leverage := be_leverage r;
     be_margin := be_margin r; be_reduce_only := be_reduce_only r; be_stp_type :=
     be_stp_type r; be_trigger := be_trigger r; be_display_vol := be_display_vol r;
     be_start_time := be_start_time r; be_expire_time := be_expire_time r;
     be_cl_ord_id := Some v; be_userref := be_userref r; be_oflags := be_oflags r;
     be_time_in_force := be_time_in_force r; be_conditional_close :=
     be_conditional_close r |}.

Definition be_with_userref (v : Z) (r : BatchOrderEntry) : BatchOrderEntry :=
  {| be_ordertype := be_ordertype r; be_side := be_side r; be_volume := be_volume r;
     be_price := be_price r; be_price2 := be_price2 r; be_leverage := be_leverage r;
     be_margin := be_margin r; be_reduce_only := be_reduce_only r; be_stp_type :=
     be_stp_type r; be_trigger := be_trigger r; be_display_vol := be_display_vol r;
     be_start_time := be_start_time r; be_expire_time := be_expire_time r;
     be_cl_ord_id := be_cl_ord_id r; be_userref := Some v; be_oflags := be_oflags r;
     be_time_in_force := be_time_in_force r; be_conditional_close :=
     be_conditional_close r |}.

Definition be_with_oflags (v : list OFlag) (r : BatchOrderEntry) : BatchOrderEntry :=
  {| be_ordertype := be_ordertype r; be_side := be_side r; be_volume := be_volume r;
     be_price := be_price r; be_price2 := be_price2 r; be_leverage := be_leverage r;
     be_margin := be_margin r; be_reduce_only := be_reduce_only r; be_stp_type :=
     be_stp_type r; be_trigger := be_trigger r; be_display_vol := be_display_vol r;
     be_start_time := be_start_time r; be_expire_time := be_expire_time r;
     be_cl_ord_id := be_cl_ord_id r; be_userref := be_userref r; be_oflags := Some v;
     be_time_in_force := be_time_in_force r; be_conditional_close :=
     be_conditional_close r |}.

Definition be_with_time_in_force (v : TimeInForce) (r : BatchOrderEntry) : BatchOrderEntry :=
  {| be_ordertype := be_ordertype r; be_side := be_side r; be_volume := be_volume r;
     be_price := be_price r; be_price2 := be_price2 r; be_leverage := be_leverage r;
     be_margin := be_margin r; be_reduce_only := be_reduce_only r; be_stp_type :=
     be_stp_type r; be_trigger := be_trigger r; be_display_vol := be_display_vol r;
     be_start_time := be_start_time r; be_expire_time := be_expire_time r;
     be_cl_ord_id := be_cl_ord_id r; be_userref := be_userref r; be_oflags :=
     be_oflags r; be_time_in_force := Some v; be_conditional_close :=
     be_conditional_close r |}.

Definition be_with_conditional_close (v : ConditionalClose) (r : BatchOrderEntry) : BatchOrderEntry :=
  {| be_ordertype := be_ordertype r; be_side := be_side r; be_volume := be_volume r;
     be_price := be_price r; be_price2 := be_price2 r; be_leverage := be_leverage r;
     be_margin := be_margin r; be_reduce_only := be_reduce_only r; be_stp_type :=
     be_stp_type r; be_trigger := be_trigger r; be_display_vol := be_display_vol r;
     be_start_time := be_start_time r; be_expire_time := be_expire_time r;
     be_cl_ord_id := be_cl_ord_id r; be_userref := be_userref r; be_oflags :=
     be_oflags r; be_time_in_force := be_time_in_force r; be_conditional_close := Some
     v |}.

Record AddOrderBatchRequest := mkBatch {
  ba_pair : Symbol;
  ba_orders : list BatchOrderEntry;
  ba_deadline : option DeadlineSpec;
  ba_validate : bool;
}.

Definition batch_new (pr : Symbol) (orders : list BatchOrderEntry) : AddOrderBatchRequest :=
  mkBatch pr orders None false.

Definition batch_validate_only (v : bool) (r : AddOrderBatchRequest) : AddOrderBatchRequest :=
  mkBatch (ba_pair r) (ba_orders r) (ba_deadline r) v.

(** The first field of some entry a transport cannot carry. *)
Definition batch_rest_blocked (orders : list BatchOrderEntry) : option string :=
  head (omap (λ e, rest_unrepresentable_field (be_margin e)) orders).

Definition entry_ws_field (e : BatchOrderEntry) : option string :=
  close_ws_field (bool_decide (is_Some (be_leverage e))) (be_conditional_close e).

Definition batch_ws_blocked (orders : list BatchOrderEntry) : option string :=
  head (omap entry_ws_field orders).

Definition validate_entry (e : BatchOrderEntry) : Checked :=
  check (validate_trailing_price (be_ordertype e) (be_price e) (be_price2 e))
    (check (validate_order_gates (be_ordertype e) (be_leverage e) (be_margin e)
              (be_reduce_only e) (be_time_in_force e))
       (validate_close (be_conditional_close e))).

Fixpoint validate_entries (l : list BatchOrderEntry) : Checked :=
  match l with
  | [] => inr tt
  | e :: l => check (validate_entry e) (validate_entries l)
  end.

Definition batch_unplaceable (rf wf : string) : string :=
  "batch is un-placeable: `" ++ rf ++ "` can only be sent on WS while `" ++ wf ++
  "` can only be sent on REST " ++ em_dash ++
  " a batch places on a single transport. Use one across the batch.".

(** [self.orders.len() as u32] *)
Definition len_u32 {A} (l : list A) : N := N.of_nat (length l) mod (u32_max + 1).

Definition batch_validate (r : AddOrderBatchRequest) : Checked :=
  check (reject_unsupported_deadline (ba_deadline r))
    (let n := len_u32 (ba_orders r) in
     if negb ((2 <=? n) && (n <=? 15)) then inl (BatchSizeOutOfRange 2 15)
     else
       match batch_rest_blocked (ba_orders r), batch_ws_blocked (ba_orders r) with
       | Some rf, Some wf => invalid (batch_unplaceable rf wf)
       | _, _ => validate_entries (ba_orders r)
       end).

Definition entry_key (n : nat) (k : string) : string :=
  "orders[" ++ decimal (N.of_nat n) ++ "][" ++ k ++ "]".

Definition entry_to_form (n : nat) (e : BatchOrderEntry) : list (string * string) :=
  let p := entry_key n in
  ([(p "type", side_str (be_side e)); (p "ordertype", order_type_str (be_ordertype e));
    (p "volume", dec_to_string (be_volume e))] ++
   form_field (p "price") price_to_rest_form (be_price e) ++
   form_field (p "price2") price_to_rest_form (be_price2 e) ++
   form_field (p "leverage") decimal (be_leverage e) ++
   flag_field (p "reduce_only") (bool_decide (be_reduce_only e = Some true)) ++
   form_field (p "stptype") stp_type_str (be_stp_type e) ++
   form_field (p "trigger") trigger_str (be_trigger e) ++
   form_field (p "displayvol") dec_to_string (be_display_vol e) ++
   form_field (p "starttm") time_to_rest_form (be_start_time e) ++
   form_field (p "expiretm") time_to_rest_form (be_expire_time e) ++
   form_field (p "cl_ord_id") id (be_cl_ord_id e) ++
   form_field (p "userref") int_text (be_userref e) ++
   form_field (p "oflags") id (be_oflags e ≫= oflags_to_wire) ++
   form_field (p "timeinforce") tif_str (be_time_in_force e) ++
   default [] (close_push_form ("orders[" ++ decimal (N.of_nat n) ++ "][close]")
                 <$> be_conditional_close e))%list.

Definition batch_to_form (r : AddOrderBatchRequest) : list (string * string) :=
  (("pair", ba_pair r) :: concat (imap entry_to_form (ba_orders r)) ++
   flag_field "validate" (ba_validate r))%list.

End Requests.

Arguments Price : clear implicits.
Arguments ConditionalClose : clear implicits.
Arguments OrderRequest : clear implicits.
Arguments OrderAmendRequest : clear implicits.
Arguments BatchOrderEntry : clear implicits.
Arguments AddOrderBatchRequest : clear implicits.
