(* ===== verification/Book.v ===== *)
(** * Book: the maintained order book

    [rust/src/book/{builder,checksum,wire}.rs].  [Decimal] (rust_decimal) is a
    parameter with its documented total order, zero test and parser; the CRC32
    hasher (crc32fast) is a parameter whose documented property is that updating in
    chunks is updating with their concatenation. *)

From Stdlib Require Import Ascii String.
From stdpp Require Import sorting.
From S2P Require Import Prelude F64 Types Events Errors.
Local Open Scope string_scope.

(** ** [BTreeMap]

    A map over a total order, as its entries in key order.  The order may identify
    distinct keys ([1.0] and [1.00]); inserting at an equal key replaces the value
    and keeps the old key. *)

Class TotalOrder {K} (cmp : K → K → comparison) := {
  cmp_refl x : cmp x x = Eq;
  cmp_swap x y : cmp y x = CompOpp (cmp x y);
  cmp_eq_l x y z : cmp x y = Eq → cmp x z = cmp y z;
  cmp_lt_trans x y z : cmp x y = Lt → cmp y z = Lt → cmp x z = Lt;
}.

Section BTreeMap.
Context {K V : Type} (cmp : K → K → comparison).

Fixpoint bt_insert (k : K) (v : V) (m : list (K * V)) : list (K * V) :=
  match m with
  | [] => [(k, v)]
  | (k', v') :: m' =>
      match cmp k k' with
      | Lt => (k, v) :: m
      | Eq => (k', v) :: m'
      | Gt => (k', v') :: bt_insert k v m'
      end
  end.

Fixpoint bt_remove (k : K) (m : list (K * V)) : list (K * V) :=
  match m with
  | [] => []
  | (k', v') :: m' =>
      match cmp k k' with
      | Lt => m
      | Eq => m'
      | Gt => (k', v') :: bt_remove k m'
      end
  end.

Fixpoint bt_lookup (k : K) (m : list (K * V)) : option V :=
  match m with
  | [] => None
  | (k', v') :: m' => match cmp k k' with Eq => Some v' | _ => bt_lookup k m' end
  end.

Definition key_lt (a b : K * V) : Prop := cmp a.1 b.1 = Lt.

Definition bt_wf (m : list (K * V)) : Prop := StronglySorted key_lt m.

Context `{!TotalOrder cmp}.
#[local] Set Default Proof Using "Type*".

Lemma bt_insert_Forall k k0 v m :
  cmp k0 k = Lt → Forall (λ e, cmp k0 e.1 = Lt) m →
  Forall (λ e, cmp k0 e.1 = Lt) (bt_insert k v m).
Proof.
  intros Hk. induction 1 as [|[k' v'] m Hx Hm IH]; simpl; [by repeat constructor|].
  destruct (cmp k k'); by repeat constructor.
Qed.

Lemma bt_remove_Forall (P : K * V → Prop) k m : Forall P m → Forall P (bt_remove k m).
Proof.
  induction 1 as [|[k' v'] m Hx Hm IH]; simpl; [done|].
  destruct (cmp k k'); by try constructor.
Qed.

Lemma bt_insert_wf k v m : bt_wf m → bt_wf (bt_insert k v m).
Proof.
  unfold bt_wf. induction 1 as [|[k' v'] m Hm IH Hall]; simpl; [by repeat constructor|].
  destruct (cmp k k') eqn:E; constructor; try done.
  - by constructor.
  - constructor; [exact E|]. eapply Forall_impl; [exact Hall|].
    intros x Hx. by eapply cmp_lt_trans.
  - apply bt_insert_Forall; [|exact Hall]. simpl. by rewrite cmp_swap, E.
Qed.

Lemma bt_remove_wf k m : bt_wf m → bt_wf (bt_remove k m).
Proof.
  unfold bt_wf. induction 1 as [|[k' v'] m Hm IH Hall]; simpl; [constructor|].
  destruct (cmp k k'); try done; constructor; try done. by apply bt_remove_Forall.
Qed.

Lemma bt_lookup_above k m :
  Forall (λ e, cmp k e.1 = Lt) m → bt_lookup k m = None.
Proof. induction 1 as [|[k' v'] m Hx Hm IH]; simpl; [done|]. simpl in Hx. by rewrite Hx. Qed.

Lemma bt_lookup_insert k k0 v m :
  bt_wf m →
  bt_lookup k0 (bt_insert k v m) =
    match cmp k0 k with Eq => Some v | _ => bt_lookup k0 m end.
Proof.
  unfold bt_wf. induction 1 as [|[k' v'] m Hm IH Hall]; simpl.
  - by destruct (cmp k0 k).
  - destruct (cmp k k') eqn:E; simpl.
    + (* same key: [k0] sees [k'] as it sees [k] *)
      assert (cmp k0 k' = cmp k0 k) as ->.
      { rewrite (cmp_swap k' k0), (cmp_swap k k0), (cmp_eq_l k k'); done. }
      by destruct (cmp k0 k).
    + by destruct (cmp k0 k).
    + rewrite IH. destruct (cmp k0 k') eqn:E0; try done.
      assert (cmp k0 k = Lt) as ->; [|done].
      rewrite (cmp_eq_l k0 k') by done. by rewrite cmp_swap, E.
Qed.

Lemma bt_lookup_remove k k0 m :
  bt_wf m →
  bt_lookup k0 (bt_remove k m) = match cmp k0 k with Eq => None | _ => bt_lookup k0 m end.
Proof.
  unfold bt_wf. induction 1 as [|[k' v'] m Hm IH Hall]; simpl.
  - by destruct (cmp k0 k).
  - destruct (cmp k k') eqn:E; simpl.
    + assert (cmp k0 k' = cmp k0 k) as ->.
      { rewrite (cmp_swap k' k0), (cmp_swap k k0), (cmp_eq_l k k'); done. }
      destruct (cmp k0 k) eqn:E0; try done. apply bt_lookup_above.
      eapply Forall_impl; [exact Hall|]. intros x Hx. unfold key_lt in Hx. simpl in Hx.
      rewrite (cmp_eq_l k0 k), (cmp_eq_l k k'); done.
    + destruct (cmp k0 k) eqn:E0; try done.
      rewrite (cmp_eq_l k0 k), E by done. apply bt_lookup_above.
      eapply Forall_impl; [exact Hall|]. intros x Hx.
      rewrite (cmp_eq_l k0 k) by done. by eapply cmp_lt_trans.
    + rewrite IH. destruct (cmp k0 k') eqn:E0; try done.
      assert (cmp k0 k = Lt) as ->; [|done].
      rewrite (cmp_eq_l k0 k') by done. by rewrite cmp_swap, E.
Qed.
End BTreeMap.

Lemma flip_total {K} (cmp : K → K → comparison) `{!TotalOrder cmp} :
  TotalOrder (λ x y, cmp y x).
Proof.
  split.
  - intros x. apply cmp_refl.
  - intros x y. apply cmp_swap.
  - intros x y z H. rewrite (cmp_swap x z), (cmp_swap y z). f_equal.
    apply cmp_eq_l. by rewrite cmp_swap, H.
  - intros x y z H1 H2. by eapply cmp_lt_trans.
Qed.

(** ** [checksum.rs] *)

Definition CHECKSUM_DEPTH : nat := 10.
Definition STRIP_BUF_LEN : nat := 32.

Section Checksum.
Context {Hasher : Type} (hasher_new : Hasher) (update : Hasher → list ascii → Hasher)
  (finalize : Hasher → N).

(** The loop over the bytes: [buf] holds the [len] bytes buffered so far. *)
Fixpoint strip_loop (h : Hasher) (buf : list ascii) (leading : bool) (s : string)
  : Hasher * list ascii :=
  match s with
  | EmptyString => (h, buf)
  | String b s =>
      if Ascii.eqb b "." then strip_loop h buf leading s
      else if leading && Ascii.eqb b "0" then strip_loop h buf leading s
      else
        let '(h, buf) :=
          if decide (length buf = STRIP_BUF_LEN) then (update h buf, []) else (h, buf) in
        strip_loop h (buf ++ [b])%list false s
  end.

Definition update_stripped (h : Hasher) (s : string) : Hasher :=
  let '(h, buf) := strip_loop h [] true s in update h buf.

Definition update_level (h : Hasher) (l : string * string) : Hasher :=
  update_stripped (update_stripped h l.1) l.2.

Definition compute_book_crc32 (asks bids : list (string * string)) : N :=
  finalize (fold_left update_level bids (fold_left update_level asks hasher_new)).

(** Specification: the digits without the point and without leading zeros. *)
Definition no_point (s : list ascii) : list ascii := filter (λ b, b ≠ "."%char) s.

Fixpoint drop_zeros (s : list ascii) : list ascii :=
  match s with
  | b :: s' => if Ascii.eqb b "0" then drop_zeros s' else s
  | [] => []
  end.

Definition stripped (s : string) : list ascii := drop_zeros (no_point (list_ascii_of_string s)).

Definition level_bytes (l : string * string) : list ascii := (stripped l.1 ++ stripped l.2)%list.

Context (update_app : ∀ h a b, update (update h a) b = update h (a ++ b)%list)
  (update_nil : ∀ h, update h [] = h).
#[local] Set Default Proof Using "Type*".

Lemma strip_loop_body h buf s :
  ∃ h' buf', strip_loop h buf false s = (h', buf') ∧
    update h' buf' = update h (buf ++ no_point (list_ascii_of_string s))%list.
Proof.
  revert h buf. induction s as [|b s IH]; intros h buf; simpl.
  - exists h, buf. by rewrite app_nil_r.
  - destruct (Ascii.eqb_spec b ".").
    + destruct (IH h buf) as (h' & buf' & -> & H). exists h', buf'. split; [done|].
      unfold no_point in *. rewrite filter_cons_False by tauto. exact H.
    + unfold no_point in *. rewrite filter_cons_True by done. case_decide; simpl.
      * destruct (IH (update h buf) [b]) as (h' & buf' & -> & H'). exists h', buf'.
        split; [done|]. by rewrite H', update_app.
      * destruct (IH h (buf ++ [b])%list) as (h' & buf' & -> & H'). exists h', buf'.
        split; [done|]. by rewrite H', <-app_assoc.
Qed.

Lemma strip_loop_leading h s :
  ∃ h' buf', strip_loop h [] true s = (h', buf') ∧
    update h' buf' = update h (stripped s).
Proof.
  unfold stripped, no_point. induction s as [|b s IH]; simpl; [by eexists _, _|].
  destruct (Ascii.eqb_spec b ".").
  - rewrite filter_cons_False by tauto. exact IH.
  - rewrite filter_cons_True by done. simpl. destruct (Ascii.eqb b "0"); [exact IH|].
    destruct (strip_loop_body h [b] s) as (h' & buf' & -> & H). by exists h', buf'.
Qed.

Lemma update_stripped_eq h s : update_stripped h s = update h (stripped s).
Proof.
  unfold update_stripped. destruct (strip_loop_leading h s) as (h' & buf' & -> & H). exact H.
Qed.

Lemma update_levels_eq ls h : fold_left update_level ls h = update h (ls ≫= level_bytes).
Proof.
  revert h. induction ls as [|l ls IH]; intros h; simpl; [by rewrite update_nil|].
  unfold update_level, level_bytes. rewrite IH, !update_stripped_eq, !update_app.
  by rewrite <-?app_assoc.
Qed.

Lemma compute_book_crc32_eq asks bids :
  compute_book_crc32 asks bids =
  finalize (update hasher_new ((asks ++ bids) ≫= level_bytes))%list.
Proof.
  unfold compute_book_crc32. by rewrite !update_levels_eq, update_app, bind_app.
Qed.
End Checksum.

(** ** [builder.rs] *)

Inductive ApplyError := ChecksumMismatch (expected computed : N).

Section Builder.
Context {Decimal : Type} (dcmp : Decimal → Decimal → comparison)
  (crc32 : list (string * string) → list (string * string) → N).

Record PriceLevel := mkLevel {
  price : Decimal;
  qty : Decimal;
  price_wire : string;
  qty_wire : string;
}.

(** Order of the bid keys ([DescPrice]). *)
Definition desc_cmp (x y : Decimal) : comparison := dcmp y x.

Definition delta_level_deletes (l : PriceLevel) : bool :=
  negb (existsb (λ b, let n := N_of_ascii b in
                      (48 <=? n)%N && (n <=? 57)%N && negb (Ascii.eqb b "0"))
          (list_ascii_of_string (qty_wire l))).

Abbreviation Side := (list (Decimal * PriceLevel)).

Record OrderBookBuilder := mkBook {
  book_symbol : Symbol;
  maintained_depth : nat;
  caller_depth : nat;
  book_bids : Side;
  book_asks : Side;
  last_checksum : option N;
  resyncing : bool;
  consecutive_gaps : N;
}.

Definition book_new (symbol : Symbol) (maintained caller : nat) : OrderBookBuilder :=
  mkBook symbol maintained caller [] [] None false 0.

Definition begin_resync (b : OrderBookBuilder) : OrderBookBuilder :=
  mkBook (book_symbol b) (maintained_depth b) (caller_depth b) [] [] None true
    (consecutive_gaps b).

Definition note_reseed_failure (b : OrderBookBuilder) : OrderBookBuilder * N :=
  let gaps := u32_saturating_add (consecutive_gaps b) 1 in
  (mkBook (book_symbol b) (maintained_depth b) (caller_depth b) (book_bids b) (book_asks b)
     (last_checksum b) (resyncing b) gaps, gaps).

(** [while len > depth { pop_last }]; the length bounds the iterations. *)
Fixpoint pop_to_depth (fuel depth : nat) (s : Side) : Side :=
  match fuel with
  | O => s
  | S fuel => if decide (depth < length s)%nat then pop_to_depth fuel depth (removelast s) else s
  end.

Definition trim_side (depth : nat) (s : Side) : Side := pop_to_depth (length s) depth s.

Definition top_wires (s : Side) : list (string * string) :=
  map (λ e, (price_wire e.2, qty_wire e.2)) (take CHECKSUM_DEPTH s).

Definition compute_checksum (b : OrderBookBuilder) : N :=
  crc32 (top_wires (book_asks b)) (top_wires (book_bids b)).

Definition trim_to_depth (b : OrderBookBuilder) : OrderBookBuilder :=
  mkBook (book_symbol b) (maintained_depth b) (caller_depth b)
    (trim_side (maintained_depth b) (book_bids b))
    (trim_side (maintained_depth b) (book_asks b))
    (last_checksum b) (resyncing b) (consecutive_gaps b).

Definition validate_and_record (expected : N) (b : OrderBookBuilder)
  : (ApplyError + unit) * OrderBookBuilder :=
  let computed := compute_checksum b in
  if negb (computed =? expected)%N then
    (inl (ChecksumMismatch expected computed),
     mkBook (book_symbol b) (maintained_depth b) (caller_depth b) (book_bids b) (book_asks b)
       (last_checksum b) (resyncing b) (u32_saturating_add (consecutive_gaps b) 1))
  else
    (inr tt,
     mkBook (book_symbol b) (maintained_depth b) (caller_depth b) (book_bids b) (book_asks b)
       (Some computed) (resyncing b) 0).

Definition seed_side (cmp : Decimal → Decimal → comparison) (levels : list PriceLevel) : Side :=
  fold_left (λ s l, bt_insert cmp (price l) l s) levels [].

Definition apply_level (cmp : Decimal → Decimal → comparison) (s : Side) (l : PriceLevel)
  : Side :=
  if delta_level_deletes l then bt_remove cmp (price l) s else bt_insert cmp (price l) l s.

Definition set_sides (bids asks : Side) (b : OrderBookBuilder) : OrderBookBuilder :=
  mkBook (book_symbol b) (maintained_depth b) (caller_depth b) bids asks
    (last_checksum b) (resyncing b) (consecutive_gaps b).

Definition apply_snapshot (bids asks : list PriceLevel) (checksum : N) (b : OrderBookBuilder)
  : (ApplyError + unit) * OrderBookBuilder :=
  let b := set_sides (seed_side desc_cmp bids) (seed_side dcmp asks) b in
  let b := mkBook (book_symbol b) (maintained_depth b) (caller_depth b) (book_bids b)
             (book_asks b) (last_checksum b) false (consecutive_gaps b) in
  validate_and_record checksum (trim_to_depth b).

Definition apply_delta (bids asks : list PriceLevel) (checksum : N) (b : OrderBookBuilder)
  : (ApplyError + unit) * OrderBookBuilder :=
  let b := set_sides (fold_left (apply_level desc_cmp) bids (book_bids b))
             (fold_left (apply_level dcmp) asks (book_asks b)) b in
  validate_and_record checksum (trim_to_depth b).

Record BookLevel := mkBookLevel { level_price : Decimal; level_qty : Decimal }.

Definition level_of (e : Decimal * PriceLevel) : BookLevel :=
  mkBookLevel (price e.2) (qty e.2).

Record OrderBookUpdate := mkUpdate {
  update_symbol : Symbol;
  update_bids : list BookLevel;
  update_asks : list BookLevel;
  update_checksum : N;
  update_timestamp : option MonotonicInstant;
  update_exchange_timestamp : string;
}.

Definition build_update (checksum : N) (timestamp : option MonotonicInstant)
  (exchange_timestamp : string) (b : OrderBookBuilder) : OrderBookUpdate :=
  mkUpdate (book_symbol b)
    (map level_of (take (caller_depth b) (book_bids b)))
    (map level_of (take (caller_depth b) (book_asks b)))
    checksum timestamp exchange_timestamp.

(** ** [wire.rs] *)

Context (dec_from_str : string → option Decimal).

Record RawBookLevel := mkRawLevel { raw_price : Json; raw_qty : Json }.

Record RawBookData := mkRaw {
  raw_symbol : string;
  raw_bids : list RawBookLevel;
  raw_asks : list RawBookLevel;
  raw_checksum : N;
  raw_timestamp : string;
}.

Record ParsedBook := mkParsed {
  parsed_symbol : string;
  parsed_bids : list PriceLevel;
  parsed_asks : list PriceLevel;
  parsed_checksum : N;
  parsed_timestamp : string;
}.

Definition parse_decimal (v : Json) : option (Decimal * string) :=
  match v with
  | JString s => (λ d, (d, s)) <$> dec_from_str s
  | JNumber s => (λ d, (d, s)) <$> dec_from_str s
  | _ => None
  end.

Definition into_level (l : RawBookLevel) : option PriceLevel :=
  '(p, pw) ← parse_decimal (raw_price l);
  '(q, qw) ← parse_decimal (raw_qty l);
  Some (mkLevel p q pw qw).

Definition MAX_BOOK_LEVELS_PER_SIDE : N := 10000.

Definition parse_raw (raw : RawBookData) : option ParsedBook :=
  if (MAX_BOOK_LEVELS_PER_SIDE <? N.of_nat (length (raw_bids raw)))%N
     || (MAX_BOOK_LEVELS_PER_SIDE <? N.of_nat (length (raw_asks raw)))%N
  then None
  else
    bids ← mapM into_level (raw_bids raw);
    asks ← mapM into_level (raw_asks raw);
    Some (mkParsed (raw_symbol raw) bids asks (raw_checksum raw) (raw_timestamp raw)).

(** ** Lemmas *)

Context `{!TotalOrder dcmp}.

#[export] Instance desc_total : TotalOrder desc_cmp.
Proof using TotalOrder0. unfold desc_cmp. by apply flip_total. Qed.

Lemma pop_to_depth_take fuel depth s :
  (length s ≤ fuel + depth)%nat → pop_to_depth fuel depth s = take depth s.
Proof.
  revert s. induction fuel as [|fuel IH]; intros s Hl; simpl; [by rewrite take_ge by lia|].
  case_decide as Hd; [|by rewrite take_ge by lia].
  destruct s as [|x s] using rev_ind; [simpl in Hd; lia|].
  rewrite length_app in Hl, Hd. simpl in *.
  rewrite removelast_last, IH by lia. rewrite take_app_le by lia. done.
Qed.

Lemma trim_side_take depth s : trim_side depth s = take depth s.
Proof. unfold trim_side. apply pop_to_depth_take. lia. Qed.

Lemma take_sorted {A} (R : A → A → Prop) n (l : list A) :
  StronglySorted R l → StronglySorted R (take n l).
Proof.
  intros H. revert n. induction H as [|x l Hl IH Hall]; intros [|n]; simpl; try constructor.
  - apply IH.
  - by apply Forall_take.
Qed.

(** A side in key order, each level under its own price, at most [depth] levels. *)
Definition side_wf (cmp : Decimal → Decimal → comparison) (s : Side) : Prop :=
  bt_wf cmp s ∧ Forall (λ e, cmp e.1 (price e.2) = Eq) s.

Definition book_wf (b : OrderBookBuilder) : Prop :=
  side_wf desc_cmp (book_bids b) ∧ side_wf dcmp (book_asks b) ∧
  (length (book_bids b) ≤ maintained_depth b)%nat ∧
  (length (book_asks b) ≤ maintained_depth b)%nat.

Section Side.
Context (cmp : Decimal → Decimal → comparison) `{!TotalOrder cmp}.

Lemma keyed_insert l s :
  Forall (λ e, cmp e.1 (price e.2) = Eq) s →
  Forall (λ e, cmp e.1 (price e.2) = Eq) (bt_insert cmp (price l) l s).
Proof using TotalOrder1.
  induction 1 as [|[k v] s Hx Hs IH]; simpl; [by repeat constructor; apply cmp_refl|].
  destruct (cmp (price l) k) eqn:E; constructor; try done; simpl in *.
  - rewrite cmp_swap, E. done.
  - apply cmp_refl.
  - by constructor.
Qed.

Lemma apply_level_wf s l : side_wf cmp s → side_wf cmp (apply_level cmp s l).
Proof using TotalOrder1.
  intros [Hs Hk]. unfold apply_level. destruct (delta_level_deletes l); split.
  - by apply bt_remove_wf.
  - by apply bt_remove_Forall.
  - by apply bt_insert_wf.
  - by apply keyed_insert.
Qed.

Lemma apply_levels_wf ls s : side_wf cmp s → side_wf cmp (fold_left (apply_level cmp) ls s).
Proof using TotalOrder1.
  revert s. induction ls as [|l ls IH]; intros s Hs; simpl; [done|]. by apply IH, apply_level_wf.
Qed.

Lemma seed_side_wf ls : side_wf cmp (seed_side cmp ls).
Proof using TotalOrder1.
  unfold seed_side. cut (∀ s, side_wf cmp s → side_wf cmp
    (fold_left (λ s l, bt_insert cmp (price l) l s) ls s)).
  { intros H. apply H. split; constructor. }
  induction ls as [|l ls IH]; intros s [Hs Hk]; simpl; [done|].
  apply IH. split; [by apply bt_insert_wf|by apply keyed_insert].
Qed.

Lemma take_side_wf n s : side_wf cmp s → side_wf cmp (take n s).
Proof using Type. intros [Hs Hk]. split; [by apply take_sorted|by apply Forall_take]. Qed.

(** The last update of the list at price [p]. *)
Definition last_at (p : Decimal) (ls : list PriceLevel) : option PriceLevel :=
  fold_left (λ o l, match cmp p (price l) with Eq => Some l | _ => o end) ls None.

Lemma last_at_cons p l ls :
  last_at p (l :: ls) =
  match last_at p ls with
  | Some l' => Some l'
  | None => match cmp p (price l) with Eq => Some l | _ => None end
  end.
Proof using Type.
  unfold last_at. simpl. set (f := λ o l, _).
  assert (∀ ls o, fold_left f ls o =
    match fold_left f ls None with Some l' => Some l' | None => o end) as H.
  { clear. intros ls. induction ls as [|x ls IH]; intros o; simpl; [done|].
    rewrite (IH (f o x)), (IH (f None x)). unfold f. destruct (fold_left _ ls None); [done|].
    by destruct (cmp p (price x)). }
  apply H.
Qed.

Lemma apply_levels_lookup ls s p :
  side_wf cmp s →
  bt_lookup cmp p (fold_left (apply_level cmp) ls s) =
  match last_at p ls with
  | Some l => if delta_level_deletes l then None else Some l
  | None => bt_lookup cmp p s
  end.
Proof using TotalOrder1.
  revert s. induction ls as [|l ls IH]; intros s Hs; [done|].
  rewrite last_at_cons. simpl. rewrite IH by by apply apply_level_wf.
  destruct (last_at p ls); [done|]. destruct Hs as [Hs _]. unfold apply_level.
  destruct (delta_level_deletes l) eqn:E.
  - rewrite bt_lookup_remove by done. destruct (cmp p (price l)); [by rewrite E|done..].
  - rewrite bt_lookup_insert by done. destruct (cmp p (price l)); [by rewrite E|done..].
Qed.

Lemma seed_side_lookup ls p : bt_lookup cmp p (seed_side cmp ls) = last_at p ls.
Proof using TotalOrder1.
  unfold seed_side. cut (∀ s, side_wf cmp s → bt_lookup cmp p
    (fold_left (λ s l, bt_insert cmp (price l) l s) ls s) =
    match last_at p ls with Some l => Some l | None => bt_lookup cmp p s end).
  { intros H. rewrite H by (split; constructor). by destruct (last_at p ls). }
  induction ls as [|l ls IH]; intros s Hs; [done|].
  rewrite last_at_cons. simpl. destruct Hs as [Hs Hk].
  rewrite IH by (split; [by apply bt_insert_wf|by apply keyed_insert]).
  destruct (last_at p ls); [done|]. rewrite bt_lookup_insert by done.
  by destruct (cmp p (price l)).
Qed.
End Side.
End Builder.

(** ** Properties *)

Section BookProps.
Context {Decimal Hasher : Type} (dcmp : Decimal → Decimal → comparison)
  `{!TotalOrder dcmp} (hasher_new : Hasher) (update : Hasher → list ascii → Hasher)
  (finalize : Hasher → N).
#[local] Abbreviation crc := (compute_book_crc32 hasher_new update finalize).
#[local] Abbreviation book := (@OrderBookBuilder Decimal).

(** One operation of the reactor on a maintained book. *)
Inductive BookOp :=
  | OpSnapshot (bids asks : list (@PriceLevel Decimal)) (checksum : N)
  | OpDelta (bids asks : list (@PriceLevel Decimal)) (checksum : N)
  | OpResync
  | OpReseedFailure.

Definition book_op (op : BookOp) (b : book) : book :=
  match op with
  | OpSnapshot bids asks c => (apply_snapshot dcmp crc bids asks c b).2
  | OpDelta bids asks c => (apply_delta dcmp crc bids asks c b).2
  | OpResync => begin_resync b
  | OpReseedFailure => (note_reseed_failure b).1
  end.

(** What validation leaves alone. *)
Lemma validate_sides c (b : book) :
  book_bids (validate_and_record crc c b).2 = book_bids b ∧
  book_asks (validate_and_record crc c b).2 = book_asks b ∧
  maintained_depth (validate_and_record crc c b).2 = maintained_depth b.
Proof. unfold validate_and_record. by destruct (negb _). Qed.

Lemma trimmed_wf c (b : book) :
  side_wf (desc_cmp dcmp) (book_bids b) → side_wf dcmp (book_asks b) →
  book_wf dcmp (validate_and_record crc c (trim_to_depth b)).2.
Proof.
  intros Hb Ha. unfold book_wf. destruct (validate_sides c (trim_to_depth b)) as (-> & -> & ->).
  simpl. rewrite !trim_side_take.
  split_and!; [by apply take_side_wf|by apply take_side_wf|rewrite length_take; lia..].
Qed.

Lemma book_op_wf op (b : book) : book_wf dcmp b → book_wf dcmp (book_op op b).
Proof using TotalOrder0.
  intros Hb. destruct op; simpl.
  - apply trimmed_wf; simpl; apply seed_side_wf; apply _.
  - destruct Hb as (Hb & Ha & _). apply trimmed_wf; simpl; apply apply_levels_wf; first [apply _|done].
  - split_and!; try (split; constructor); simpl; lia.
  - exact Hb.
Qed.

(** After any sequence of snapshots, deltas, resyncs and failed reseeds, bids are
    strictly descending and asks strictly ascending in price with each level under its
    own price, and neither side exceeds the maintained depth. *)
Theorem book_stays_sorted symbol maintained caller ops :
  book_wf dcmp (fold_left (λ b op, book_op op b) ops (book_new symbol maintained caller)).
Proof using TotalOrder0.
  cut (∀ b, book_wf dcmp b → book_wf dcmp (fold_left (λ b op, book_op op b) ops b)).
  { intros H. apply H. split_and!; try (split; constructor); simpl; lia. }
  induction ops as [|op ops IH]; intros b Hb; [done|]. by apply IH, book_op_wf.
Qed.

(** A delta gives every price its last update (removed when the wire quantity is
    zero, otherwise that level) and leaves other prices alone, then keeps the best
    [maintained_depth] levels; a snapshot does the same from an empty book, but never
    removes a level. *)
Theorem updates_last_write_wins bids asks c (b : book) :
  book_wf dcmp b →
  (∃ full_bids full_asks,
    book_bids (apply_delta dcmp crc bids asks c b).2 = take (maintained_depth b) full_bids ∧
    book_asks (apply_delta dcmp crc bids asks c b).2 = take (maintained_depth b) full_asks ∧
    side_wf (desc_cmp dcmp) full_bids ∧ side_wf dcmp full_asks ∧
    (∀ p, bt_lookup (desc_cmp dcmp) p full_bids =
       match last_at (desc_cmp dcmp) p bids with
       | Some l => if delta_level_deletes l then None else Some l
       | None => bt_lookup (desc_cmp dcmp) p (book_bids b)
       end) ∧
    (∀ p, bt_lookup dcmp p full_asks =
       match last_at dcmp p asks with
       | Some l => if delta_level_deletes l then None else Some l
       | None => bt_lookup dcmp p (book_asks b)
       end)) ∧
  (∃ full_bids full_asks,
    book_bids (apply_snapshot dcmp crc bids asks c b).2 = take (maintained_depth b) full_bids ∧
    book_asks (apply_snapshot dcmp crc bids asks c b).2 = take (maintained_depth b) full_asks ∧
    side_wf (desc_cmp dcmp) full_bids ∧ side_wf dcmp full_asks ∧
    (∀ p, bt_lookup (desc_cmp dcmp) p full_bids = last_at (desc_cmp dcmp) p bids) ∧
    (∀ p, bt_lookup dcmp p full_asks = last_at dcmp p asks)).
Proof using TotalOrder0.
  intros (Hb & Ha & _). split.
  - exists (fold_left (apply_level (desc_cmp dcmp)) bids (book_bids b)),
      (fold_left (apply_level dcmp) asks (book_asks b)).
    unfold apply_delta. rewrite (proj1 (validate_sides _ _)), (proj1 (proj2 (validate_sides _ _))).
    simpl. rewrite !trim_side_take. split_and!; try done.
    1,2: apply apply_levels_wf; first [apply _|done].
    all: intros p; apply apply_levels_lookup; first [apply _|done].
  - exists (seed_side (desc_cmp dcmp) bids), (seed_side dcmp asks).
    unfold apply_snapshot. rewrite (proj1 (validate_sides _ _)), (proj1 (proj2 (validate_sides _ _))).
    simpl. rewrite !trim_side_take. split_and!; try done.
    1,2: apply seed_side_wf; apply _.
    all: intros p; apply seed_side_lookup; apply _.
Qed.

(** The CRC input: the digits of the top ten asks, then of the top ten bids. *)
Definition crc_bytes (b : book) : list ascii :=
  (top_wires (book_asks b) ++ top_wires (book_bids b))%list ≫= level_bytes.

(** C38: An update validates exactly when the CRC32 of the digits of the resulting top ten
    levels (asks then bids, points and leading zeros stripped), fed in one piece, is
    the exchange's checksum; then the gap count is reset and the checksum recorded,
    otherwise the gap count grows, and the book keeps the unvalidated levels. *)
Theorem update_validates_checksum bids asks c (b : book) :
  (∀ h x y, update (update h x) y = update h (x ++ y)%list) → (∀ h, update h [] = h) →
  let '(r, b') := apply_delta dcmp crc bids asks c b in
  if (finalize (update hasher_new (crc_bytes b')) =? c)%N
  then r = inr tt ∧ consecutive_gaps b' = 0%N ∧ last_checksum b' = Some c
  else r = inl (ChecksumMismatch c (finalize (update hasher_new (crc_bytes b')))) ∧
       consecutive_gaps b' = u32_saturating_add (consecutive_gaps b) 1 ∧
       last_checksum b' = last_checksum b.
Proof.
  intros Happ Hnil. unfold apply_delta, validate_and_record.
  set (b0 := trim_to_depth _).
  assert (compute_checksum crc b0 = finalize (update hasher_new (crc_bytes b0))) as Hc
    by (apply compute_book_crc32_eq; done).
  rewrite Hc. destruct (N.eqb_spec (finalize (update hasher_new (crc_bytes b0))) c) as [<-|Hne];
    simpl;
    repeat match goal with |- context [crc_bytes ?x] =>
      progress change (crc_bytes x) with (crc_bytes b0) end.
  - rewrite N.eqb_refl. done.
  - rewrite (proj2 (N.eqb_neq _ _) Hne). done.
Qed.

Lemma side_prices_sorted cmp `{!TotalOrder cmp} (s : list (Decimal * @PriceLevel Decimal)) :
  side_wf cmp s →
  StronglySorted (λ x y, cmp (level_price x) (level_price y) = Lt) (map level_of s).
Proof.
  intros [Hs Hk]. induction Hs as [|x s Hs IH Hall]; simpl; [constructor|].
  inversion Hk as [|? ? Hx Hk']; subst. constructor; [by apply IH|].
  apply Forall_map. rewrite Forall_forall in Hall, Hk' |- *.
  intros y Hy. simpl. specialize (Hall y Hy). specialize (Hk' y Hy). unfold key_lt in Hall.
  rewrite <-(cmp_eq_l _ _ _ Hx), (cmp_swap (price y.2)), <-(cmp_eq_l _ _ _ Hk'), cmp_swap.
  by rewrite Hall.
Qed.

Lemma StronglySorted_app_before {A} (R : A → A → Prop) l1 l2 x y :
  StronglySorted R (l1 ++ l2)%list → x ∈ l1 → y ∈ l2 → R x y.
Proof.
  induction l1 as [|z l1 IH]; intros Hs Hx Hy; [by apply not_elem_of_nil in Hx|].
  inversion Hs as [|? ? Hs' Hall]; subst.
  apply elem_of_cons in Hx as [->|Hx]; [|by apply IH].
  rewrite Forall_forall in Hall. apply Hall, elem_of_app. by right.
Qed.

(** The update given to the caller shows at most the depth the caller asked for:
    bids from the highest price down, asks from the lowest up, all distinct, and every
    maintained level it leaves out is worse than every level it shows. *)
Theorem update_shows_best checksum ts ets (b : book) :
  book_wf dcmp b →
  let u := build_update checksum ts ets b in
  ∃ more_bids more_asks,
    map level_of (book_bids b) = (update_bids u ++ more_bids)%list ∧
    map level_of (book_asks b) = (update_asks u ++ more_asks)%list ∧
    (length (update_bids u) ≤ caller_depth b)%nat ∧
    (length (update_asks u) ≤ caller_depth b)%nat ∧
    StronglySorted (λ x y, dcmp (level_price y) (level_price x) = Lt) (update_bids u) ∧
    StronglySorted (λ x y, dcmp (level_price x) (level_price y) = Lt) (update_asks u) ∧
    (∀ x y, x ∈ update_bids u → y ∈ more_bids →
       dcmp (level_price y) (level_price x) = Lt) ∧
    (∀ x y, x ∈ update_asks u → y ∈ more_asks →
       dcmp (level_price x) (level_price y) = Lt).
Proof using TotalOrder0.
  intros (Hb & Ha & _ & _) u. unfold u, build_update. simpl.
  exists (map level_of (drop (caller_depth b) (book_bids b))),
    (map level_of (drop (caller_depth b) (book_asks b))).
  rewrite <-!map_app, !take_drop, !length_map, !length_take.
  pose proof (side_prices_sorted (desc_cmp dcmp) _ Hb) as Hsb.
  pose proof (side_prices_sorted dcmp _ Ha) as Hsa.
  split_and!; try done; try lia.
  - by apply (side_prices_sorted (desc_cmp dcmp)), take_side_wf.
  - by apply (side_prices_sorted dcmp), take_side_wf.
  - intros x y Hx Hy. rewrite <-(take_drop (caller_depth b) (book_bids b)), map_app in Hsb.
    by apply (StronglySorted_app_before _ _ _ x y Hsb).
  - intros x y Hx Hy. rewrite <-(take_drop (caller_depth b) (book_asks b)), map_app in Hsa.
    by apply (StronglySorted_app_before _ _ _ x y Hsa).
Qed.
End BookProps.

(** ** Concrete books: prices are integers, the hash is the input's length *)

#[export] Instance N_total : TotalOrder N.compare.
Proof.
  split.
  - apply N.compare_refl.
  - intros x y. by rewrite N.compare_antisym.
  - intros x y z ->%N.compare_eq. done.
  - intros x y z. rewrite !N.compare_lt_iff. lia.
Qed.

Definition lvl (p q : N) (pw qw : string) : @PriceLevel N := mkLevel p q pw qw.

Definition len_crc : list (string * string) → list (string * string) → N :=
  compute_book_crc32 ([] : list ascii) app (λ h, N.of_nat (length h)).

(** Depth 2 maintained, 1 shown. *)
Definition small_book : @OrderBookBuilder N :=
  (apply_snapshot N.compare len_crc [lvl 9 1 "9" "1"; lvl 10 2 "10" "2"]
     [lvl 11 3 "11" "3"] 8 (book_new "BTC/USD" 2 1)).2.

Lemma small_book_wf : book_wf N.compare small_book.
Proof.
  apply (book_op_wf N.compare [] app (λ h, N.of_nat (length h)) (OpSnapshot
    [lvl 9 1 "9" "1"; lvl 10 2 "10" "2"] [lvl 11 3 "11" "3"] 8) (book_new "BTC/USD" 2 1)).
  split_and!; try (split; constructor); simpl; lia.
Qed.

Lemma book_stays_sorted_witness :
  book_wf N.compare (fold_left (λ b op, book_op N.compare [] app (λ h, N.of_nat (length h)) op b)
    [OpSnapshot [lvl 9 1 "9" "1"; lvl 10 2 "10" "2"] [lvl 11 3 "11" "3"] 8;
     OpDelta [lvl 12 5 "12" "5"] [lvl 11 0 "11" "0"] 0; OpReseedFailure]
    (book_new "BTC/USD" 2 1)).
Proof.
  apply (book_stays_sorted N.compare [] app (λ h, N.of_nat (length h)) "BTC/USD" 2 1).
Defined.

Lemma updates_last_write_wins_witness :
  ∃ full_bids,
    book_bids (apply_delta N.compare len_crc [lvl 10 0 "10" "0.0"; lvl 12 5 "12" "5"] [] 0
                 small_book).2 = take 2 full_bids ∧
    bt_lookup (desc_cmp N.compare) 12%N full_bids = Some (lvl 12 5 "12" "5") ∧
    bt_lookup (desc_cmp N.compare) 10%N full_bids = None.
Proof.
  destruct (updates_last_write_wins N.compare [] app (λ h, N.of_nat (length h))
    [lvl 10 0 "10" "0.0"; lvl 12 5 "12" "5"] [] 0 small_book small_book_wf)
    as [(full & _ & Hb & _ & _ & _ & Hl & _) _].
  exists full. split; [exact Hb|]. split; [rewrite (Hl 12%N)|rewrite (Hl 10%N)]; by vm_compute.
Defined.

Lemma update_validates_checksum_witness :
  let '(r, b') := apply_delta N.compare len_crc [] [] 8 small_book in
  if (N.of_nat (length (crc_bytes b')) =? 8)%N
  then r = inr tt ∧ consecutive_gaps b' = 0%N ∧ last_checksum b' = Some 8%N
  else r = inl (ChecksumMismatch 8 (N.of_nat (length (crc_bytes b')))) ∧
       consecutive_gaps b' = u32_saturating_add (consecutive_gaps small_book) 1 ∧
       last_checksum b' = last_checksum small_book.
Proof.
  apply (update_validates_checksum N.compare [] app (λ h, N.of_nat (length h)) [] [] 8
    small_book); [intros h x y; symmetry; apply app_assoc|intros h; apply app_nil_r].
Defined.

Lemma update_shows_best_witness :
  update_bids (build_update 0 None "" small_book) = [mkBookLevel 10%N 2%N] ∧
  (length (update_bids (build_update 0 None "" small_book)) ≤ caller_depth small_book)%nat.
Proof.
  split; [by vm_compute|].
  destruct (update_shows_best N.compare 0 None "" small_book small_book_wf)
    as (? & ? & _ & _ & H & _). exact H.
Defined.

(** A snapshot keeps a level whose quantity is zero, and the update given to the
    caller shows it, although a delta would have removed it. *)
Theorem snapshot_keeps_zero_quantity :
  let zero := lvl 10 0 "10.0" "0.00" in
  let b := (apply_snapshot N.compare len_crc [zero] [] 5 (book_new "BTC/USD" 25 10)).2 in
  delta_level_deletes zero = true ∧
  update_bids (build_update 5 None "" b) = [mkBookLevel 10%N 0%N] ∧
  book_bids (apply_delta N.compare len_crc [zero] [] 0 b).2 = [].
Proof. by vm_compute. Qed.
