(* ===== verification/Connection.v ===== *)
(** * Connection: the per-endpoint connection state machine

    [rust/src/conn/managed_connection/{mod,inner,fsm_event,handle_event}.rs]
    and [rust/src/dispatch/io_reactor/timer.rs] ([pop_timer_for_event]).

    The I/O reactor is the only writer of a connection, so a transition is a
    sequential program over the connection, the host's connection-rate budget,
    the clock, the jitter source and the effects it causes: the envelopes it
    publishes, the sockets it opens, the close frames it sends and the pending
    requests it resolves.  [M] is the state monad of such programs; a clock
    reading or a jitter draw advances the position in the environment's
    sequence, so successive readings may differ.  [format!] text is written
    out; the [Debug] text of a transport error is a field of the environment. *)

From Stdlib Require Import String.
From stdpp Require Import sorting.
From S2P Require Import Prelude F64 Types Events Errors Knobs RateBudget.
Local Open Scope string_scope.
Local Open Scope N_scope.

(** ** [fsm_event.rs] *)

Inductive AuthErrorKind := KBadCreds | KPermissionDenied | KTokenStale | KTransient.

Inductive FsmEvent :=
  | CallStartConnect (request_id : N)
  | CallClose (request_id : N)
  | CallForceReconnect (request_id : N)
  | WireUpgradeOk (connection_id : option N)
  | WireUpgradeFailed (http_status : N)
  | WireConnectError (kind : TransportErrorKind) (transient : bool)
  | WireCloseReceived (code : N) (reason : option string)
  | WireAbnormalClose (error : TransportErrorKind) (transient : bool)
  | WireAuthHandshakeOk
  | WireOrderAuthOk
  | WireOrderAckTokenStale
  | WireAuthHandshakeFailed (kind : AuthErrorKind)
  | WireSubscribeAck (channel : ChannelName) (pair : option Symbol) (last : bool)
  | WireSubscribeFailed (channel : ChannelName) (pair : option Symbol)
      (error : SubscribeErrorKind)
  | TimerBackoffElapsed
  | TimerStalenessElapsed
  | TimerUpgradeTimeout
  | TimerCloseTimeout
  | TimerSubscribeAckTimeout (channel : ChannelName) (pair : option Symbol)
  | TimerRateBudgetWindowAdvanced
  | TimerSubscribeResendDue (channel : ChannelName) (pair : option Symbol)
  | TimerBookReseedSnapshot (channel : ChannelName) (pair : option Symbol)
  | TimerTokenRefreshDue
  | BusTokenRefreshed (request_id : N)
  | BusTokenRefreshFailed (request_id : N) (error : AuthError).

(** ** [inner.rs] *)

Record WsResponse := mkWsResponse {
  resp_req_id : N;
  resp_success : bool;
  resp_result : Json;
  resp_error : option string;
}.

(** The oneshot sender [tx] is identified by the request id: resolving it is an
    effect. *)
Record PendingRequest := mkPending {
  pr_req_id : N;
  pr_op : WsOp;
  pr_sent_at : MonotonicInstant;
}.

#[export] Instance WsOp_eq_dec : EqDecision WsOp.
Proof. solve_decision. Defined.
#[export] Instance PendingRequest_eq_dec : EqDecision PendingRequest.
Proof. solve_decision. Defined.

Inductive DrainCause := DrainRequestInFlightWhenDropped | DrainClientClosed.

Definition drain_resolve (c : DrainCause) : ConnectionErrorKind * WsFailReason :=
  match c with
  | DrainRequestInFlightWhenDropped => (RequestInFlightWhenDropped, FailConnectionLost)
  | DrainClientClosed => (CEClientClosed, FailClientClosed)
  end.

Record StalenessMonitor := mkStaleness {
  sm_window_ms : N;
  sm_last_inbound_at : option MonotonicInstant;
  sm_armed : bool;
}.

Definition staleness_new (window_ms : N) : StalenessMonitor :=
  mkStaleness window_ms None false.
Definition staleness_arm (now : MonotonicInstant) (s : StalenessMonitor)
  : StalenessMonitor := mkStaleness (sm_window_ms s) (Some now) true.
Definition staleness_disarm (s : StalenessMonitor) : StalenessMonitor :=
  mkStaleness (sm_window_ms s) None false.
Definition staleness_note_inbound (at_ : MonotonicInstant) (s : StalenessMonitor)
  : StalenessMonitor :=
  if sm_armed s then mkStaleness (sm_window_ms s) (Some at_) true else s.
Definition staleness_deadline (s : StalenessMonitor) : option MonotonicInstant :=
  if sm_armed s
  then (λ last, last + from_millis (sm_window_ms s)) <$> sm_last_inbound_at s
  else None.

Record TimerSet := mkTimers {
  tm_backoff_due_at : option MonotonicInstant;
  tm_upgrade_timeout_due_at : option MonotonicInstant;
  tm_staleness_due_at : option MonotonicInstant;
  tm_close_timeout_due_at : option MonotonicInstant;
  tm_rate_budget_window_advanced_at : option MonotonicInstant;
  tm_per_entry_subscribe_ack_timeouts : gmap SubKey MonotonicInstant;
  tm_per_entry_subscribe_resend_due : gmap SubKey MonotonicInstant;
  tm_per_entry_book_reseed_snapshot : gmap SubKey MonotonicInstant;
  tm_token_refresh_due_at : option MonotonicInstant;
}.

Definition timers_default : TimerSet := mkTimers None None None None None ∅ ∅ ∅ None.

(** ** [mod.rs]: the connection *)

Record ManagedConnection := mkMC {
  mc_url : WsUrl;
  mc_state : ConnectionState;
  mc_attempt_count : N;
  mc_auth_handshake_fail_count : N;
  mc_has_been_open : bool;
  mc_awaiting_token_refresh : bool;
  mc_server_connection_id : option N;
  mc_socket : option N;
  mc_pending_requests : gmap N PendingRequest;
  mc_staleness_monitor : StalenessMonitor;
  mc_timers : TimerSet;
  mc_subscribe_ack_attempts : gmap SubKey N;
  mc_pending_connect_request_id : option N;
  mc_pending_close_request_id : option N;
  mc_pending_reconnect_request_id : option N;
  mc_additional_close_request_ids : list N;
  mc_additional_connect_request_ids : list N;
  mc_deferred_open_auth_subscribes : list (SubKey * SubscribeParams);
  mc_next_subscribe_req_id : N;
  mc_pending_subscribe_req_ids : gmap N SubKey;
  mc_subscribe_req_id_by_key : gmap SubKey N;
}.

(** Assignments to one field. *)
Definition set_tm_backoff_due_at (v : option MonotonicInstant) (t : TimerSet) : TimerSet :=
  mkTimers v (tm_upgrade_timeout_due_at t) (tm_staleness_due_at t)
    (tm_close_timeout_due_at t) (tm_rate_budget_window_advanced_at t)
    (tm_per_entry_subscribe_ack_timeouts t)
    (tm_per_entry_subscribe_resend_due t)
    (tm_per_entry_book_reseed_snapshot t) (tm_token_refresh_due_at t).
Definition set_tm_upgrade_timeout_due_at (v : option MonotonicInstant) (t : TimerSet) : TimerSet :=
  mkTimers (tm_backoff_due_at t) v (tm_staleness_due_at t)
    (tm_close_timeout_due_at t) (tm_rate_budget_window_advanced_at t)
    (tm_per_entry_subscribe_ack_timeouts t)
    (tm_per_entry_subscribe_resend_due t)
    (tm_per_entry_book_reseed_snapshot t) (tm_token_refresh_due_at t).
Definition set_tm_staleness_due_at (v : option MonotonicInstant) (t : TimerSet) : TimerSet :=
  mkTimers (tm_backoff_due_at t) (tm_upgrade_timeout_due_at t) v
    (tm_close_timeout_due_at t) (tm_rate_budget_window_advanced_at t)
    (tm_per_entry_subscribe_ack_timeouts t)
    (tm_per_entry_subscribe_resend_due t)
    (tm_per_entry_book_reseed_snapshot t) (tm_token_refresh_due_at t).
Definition set_tm_close_timeout_due_at (v : option MonotonicInstant) (t : TimerSet) : TimerSet :=
  mkTimers (tm_backoff_due_at t) (tm_upgrade_timeout_due_at t)
    (tm_staleness_due_at t) v (tm_rate_budget_window_advanced_at t)
    (tm_per_entry_subscribe_ack_timeouts t)
    (tm_per_entry_subscribe_resend_due t)
    (tm_per_entry_book_reseed_snapshot t) (tm_token_refresh_due_at t).
Definition set_tm_rate_budget_window_advanced_at (v : option MonotonicInstant) (t : TimerSet) : TimerSet :=
  mkTimers (tm_backoff_due_at t) (tm_upgrade_timeout_due_at t)
    (tm_staleness_due_at t) (tm_close_timeout_due_at t) v
    (tm_per_entry_subscribe_ack_timeouts t)
    (tm_per_entry_subscribe_resend_due t)
    (tm_per_entry_book_reseed_snapshot t) (tm_token_refresh_due_at t).
Definition set_tm_per_entry_subscribe_ack_timeouts (v : gmap SubKey MonotonicInstant) (t : TimerSet) : TimerSet :=
  mkTimers (tm_backoff_due_at t) (tm_upgrade_timeout_due_at t)
    (tm_staleness_due_at t) (tm_close_timeout_due_at t)
    (tm_rate_budget_window_advanced_at t) v
    (tm_per_entry_subscribe_resend_due t)
    (tm_per_entry_book_reseed_snapshot t) (tm_token_refresh_due_at t).
Definition set_tm_per_entry_subscribe_resend_due (v : gmap SubKey MonotonicInstant) (t : TimerSet) : TimerSet :=
  mkTimers (tm_backoff_due_at t) (tm_upgrade_timeout_due_at t)
    (tm_staleness_due_at t) (tm_close_timeout_due_at t)
    (tm_rate_budget_window_advanced_at t)
    (tm_per_entry_subscribe_ack_timeouts t) v
    (tm_per_entry_book_reseed_snapshot t) (tm_token_refresh_due_at t).
Definition set_tm_per_entry_book_reseed_snapshot (v : gmap SubKey MonotonicInstant) (t : TimerSet) : TimerSet :=
  mkTimers (tm_backoff_due_at t) (tm_upgrade_timeout_due_at t)
    (tm_staleness_due_at t) (tm_close_timeout_due_at t)
    (tm_rate_budget_window_advanced_at t)
    (tm_per_entry_subscribe_ack_timeouts t)
    (tm_per_entry_subscribe_resend_due t) v (tm_token_refresh_due_at t).
Definition set_tm_token_refresh_due_at (v : option MonotonicInstant) (t : TimerSet) : TimerSet :=
  mkTimers (tm_backoff_due_at t) (tm_upgrade_timeout_due_at t)
    (tm_staleness_due_at t) (tm_close_timeout_due_at t)
    (tm_rate_budget_window_advanced_at t)
    (tm_per_entry_subscribe_ack_timeouts t)
    (tm_per_entry_subscribe_resend_due t)
    (tm_per_entry_book_reseed_snapshot t) v.

Definition set_mc_url (v : WsUrl) (m : ManagedConnection) : ManagedConnection :=
  mkMC v (mc_state m) (mc_attempt_count m) (mc_auth_handshake_fail_count
    m) (mc_has_been_open m) (mc_awaiting_token_refresh m)
    (mc_server_connection_id m) (mc_socket m) (mc_pending_requests m)
    (mc_staleness_monitor m) (mc_timers m) (mc_subscribe_ack_attempts m)
    (mc_pending_connect_request_id m) (mc_pending_close_request_id m)
    (mc_pending_reconnect_request_id m) (mc_additional_close_request_ids
    m) (mc_additional_connect_request_ids m)
    (mc_deferred_open_auth_subscribes m) (mc_next_subscribe_req_id m)
    (mc_pending_subscribe_req_ids m) (mc_subscribe_req_id_by_key m).
Definition set_mc_state (v : ConnectionState) (m : ManagedConnection) : ManagedConnection :=
  mkMC (mc_url m) v (mc_attempt_count m) (mc_auth_handshake_fail_count m)
    (mc_has_been_open m) (mc_awaiting_token_refresh m)
    (mc_server_connection_id m) (mc_socket m) (mc_pending_requests m)
    (mc_staleness_monitor m) (mc_timers m) (mc_subscribe_ack_attempts m)
    (mc_pending_connect_request_id m) (mc_pending_close_request_id m)
    (mc_pending_reconnect_request_id m) (mc_additional_close_request_ids
    m) (mc_additional_connect_request_ids m)
    (mc_deferred_open_auth_subscribes m) (mc_next_subscribe_req_id m)
    (mc_pending_subscribe_req_ids m) (mc_subscribe_req_id_by_key m).
Definition set_mc_attempt_count (v : N) (m : ManagedConnection) : ManagedConnection :=
  mkMC (mc_url m) (mc_state m) v (mc_auth_handshake_fail_count m)
    (mc_has_been_open m) (mc_awaiting_token_refresh m)
    (mc_server_connection_id m) (mc_socket m) (mc_pending_requests m)
    (mc_staleness_monitor m) (mc_timers m) (mc_subscribe_ack_attempts m)
    (mc_pending_connect_request_id m) (mc_pending_close_request_id m)
    (mc_pending_reconnect_request_id m) (mc_additional_close_request_ids
    m) (mc_additional_connect_request_ids m)
    (mc_deferred_open_auth_subscribes m) (mc_next_subscribe_req_id m)
    (mc_pending_subscribe_req_ids m) (mc_subscribe_req_id_by_key m).
Definition set_mc_auth_handshake_fail_count (v : N) (m : ManagedConnection) : ManagedConnection :=
  mkMC (mc_url m) (mc_state m) (mc_attempt_count m) v (mc_has_been_open m)
    (mc_awaiting_token_refresh m) (mc_server_connection_id m) (mc_socket
    m) (mc_pending_requests m) (mc_staleness_monitor m) (mc_timers m)
    (mc_subscribe_ack_attempts m) (mc_pending_connect_request_id m)
    (mc_pending_close_request_id m) (mc_pending_reconnect_request_id m)
    (mc_additional_close_request_ids m) (mc_additional_connect_request_ids
    m) (mc_deferred_open_auth_subscribes m) (mc_next_subscribe_req_id m)
    (mc_pending_subscribe_req_ids m) (mc_subscribe_req_id_by_key m).
Definition set_mc_has_been_open (v : bool) (m : ManagedConnection) : ManagedConnection :=
  mkMC (mc_url m) (mc_state m) (mc_attempt_count m)
    (mc_auth_handshake_fail_count m) v (mc_awaiting_token_refresh m)
    (mc_server_connection_id m) (mc_socket m) (mc_pending_requests m)
    (mc_staleness_monitor m) (mc_timers m) (mc_subscribe_ack_attempts m)
    (mc_pending_connect_request_id m) (mc_pending_close_request_id m)
    (mc_pending_reconnect_request_id m) (mc_additional_close_request_ids
    m) (mc_additional_connect_request_ids m)
    (mc_deferred_open_auth_subscribes m) (mc_next_subscribe_req_id m)
    (mc_pending_subscribe_req_ids m) (mc_subscribe_req_id_by_key m).
Definition set_mc_awaiting_token_refresh (v : bool) (m : ManagedConnection) : ManagedConnection :=
  mkMC (mc_url m) (mc_state m) (mc_attempt_count m)
    (mc_auth_handshake_fail_count m) (mc_has_been_open m) v
    (mc_server_connection_id m) (mc_socket m) (mc_pending_requests m)
    (mc_staleness_monitor m) (mc_timers m) (mc_subscribe_ack_attempts m)
    (mc_pending_connect_request_id m) (mc_pending_close_request_id m)
    (mc_pending_reconnect_request_id m) (mc_additional_close_request_ids
    m) (mc_additional_connect_request_ids m)
    (mc_deferred_open_auth_subscribes m) (mc_next_subscribe_req_id m)
    (mc_pending_subscribe_req_ids m) (mc_subscribe_req_id_by_key m).
Definition set_mc_server_connection_id (v : option N) (m : ManagedConnection) : ManagedConnection :=
  mkMC (mc_url m) (mc_state m) (mc_attempt_count m)
    (mc_auth_handshake_fail_count m) (mc_has_been_open m)
    (mc_awaiting_token_refresh m) v (mc_socket m) (mc_pending_requests m)
    (mc_staleness_monitor m) (mc_timers m) (mc_subscribe_ack_attempts m)
    (mc_pending_connect_request_id m) (mc_pending_close_request_id m)
    (mc_pending_reconnect_request_id m) (mc_additional_close_request_ids
    m) (mc_additional_connect_request_ids m)
    (mc_deferred_open_auth_subscribes m) (mc_next_subscribe_req_id m)
    (mc_pending_subscribe_req_ids m) (mc_subscribe_req_id_by_key m).
Definition set_mc_socket (v : option N) (m : ManagedConnection) : ManagedConnection :=
  mkMC (mc_url m) (mc_state m) (mc_attempt_count m)
    (mc_auth_handshake_fail_count m) (mc_has_been_open m)
    (mc_awaiting_token_refresh m) (mc_server_connection_id m) v
    (mc_pending_requests m) (mc_staleness_monitor m) (mc_timers m)
    (mc_subscribe_ack_attempts m) (mc_pending_connect_request_id m)
    (mc_pending_close_request_id m) (mc_pending_reconnect_request_id m)
    (mc_additional_close_request_ids m) (mc_additional_connect_request_ids
    m) (mc_deferred_open_auth_subscribes m) (mc_next_subscribe_req_id m)
    (mc_pending_subscribe_req_ids m) (mc_subscribe_req_id_by_key m).
Definition set_mc_pending_requests (v : gmap N PendingRequest) (m : ManagedConnection) : ManagedConnection :=
  mkMC (mc_url m) (mc_state m) (mc_attempt_count m)
    (mc_auth_handshake_fail_count m) (mc_has_been_open m)
    (mc_awaiting_token_refresh m) (mc_server_connection_id m) (mc_socket
    m) v (mc_staleness_monitor m) (mc_timers m) (mc_subscribe_ack_attempts
    m) (mc_pending_connect_request_id m) (mc_pending_close_request_id m)
    (mc_pending_reconnect_request_id m) (mc_additional_close_request_ids
    m) (mc_additional_connect_request_ids m)
    (mc_deferred_open_auth_subscribes m) (mc_next_subscribe_req_id m)
    (mc_pending_subscribe_req_ids m) (mc_subscribe_req_id_by_key m).
Definition set_mc_staleness_monitor (v : StalenessMonitor) (m : ManagedConnection) : ManagedConnection :=
  mkMC (mc_url m) (mc_state m) (mc_attempt_count m)
    (mc_auth_handshake_fail_count m) (mc_has_been_open m)
    (mc_awaiting_token_refresh m) (mc_server_connection_id m) (mc_socket
    m) (mc_pending_requests m) v (mc_timers m) (mc_subscribe_ack_attempts
    m) (mc_pending_connect_request_id m) (mc_pending_close_request_id m)
    (mc_pending_reconnect_request_id m) (mc_additional_close_request_ids
    m) (mc_additional_connect_request_ids m)
    (mc_deferred_open_auth_subscribes m) (mc_next_subscribe_req_id m)
    (mc_pending_subscribe_req_ids m) (mc_subscribe_req_id_by_key m).
Definition set_mc_timers (v : TimerSet) (m : ManagedConnection) : ManagedConnection :=
  mkMC (mc_url m) (mc_state m) (mc_attempt_count m)
    (mc_auth_handshake_fail_count m) (mc_has_been_open m)
    (mc_awaiting_token_refresh m) (mc_server_connection_id m) (mc_socket
    m) (mc_pending_requests m) (mc_staleness_monitor m) v
    (mc_subscribe_ack_attempts m) (mc_pending_connect_request_id m)
    (mc_pending_close_request_id m) (mc_pending_reconnect_request_id m)
    (mc_additional_close_request_ids m) (mc_additional_connect_request_ids
    m) (mc_deferred_open_auth_subscribes m) (mc_next_subscribe_req_id m)
    (mc_pending_subscribe_req_ids m) (mc_subscribe_req_id_by_key m).
Definition set_mc_subscribe_ack_attempts (v : gmap SubKey N) (m : ManagedConnection) : ManagedConnection :=
  mkMC (mc_url m) (mc_state m) (mc_attempt_count m)
    (mc_auth_handshake_fail_count m) (mc_has_been_open m)
    (mc_awaiting_token_refresh m) (mc_server_connection_id m) (mc_socket
    m) (mc_pending_requests m) (mc_staleness_monitor m) (mc_timers m) v
    (mc_pending_connect_request_id m) (mc_pending_close_request_id m)
    (mc_pending_reconnect_request_id m) (mc_additional_close_request_ids
    m) (mc_additional_connect_request_ids m)
    (mc_deferred_open_auth_subscribes m) (mc_next_subscribe_req_id m)
    (mc_pending_subscribe_req_ids m) (mc_subscribe_req_id_by_key m).
Definition set_mc_pending_connect_request_id (v : option N) (m : ManagedConnection) : ManagedConnection :=
  mkMC (mc_url m) (mc_state m) (mc_attempt_count m)
    (mc_auth_handshake_fail_count m) (mc_has_been_open m)
    (mc_awaiting_token_refresh m) (mc_server_connection_id m) (mc_socket
    m) (mc_pending_requests m) (mc_staleness_monitor m) (mc_timers m)
    (mc_subscribe_ack_attempts m) v (mc_pending_close_request_id m)
    (mc_pending_reconnect_request_id m) (mc_additional_close_request_ids
    m) (mc_additional_connect_request_ids m)
    (mc_deferred_open_auth_subscribes m) (mc_next_subscribe_req_id m)
    (mc_pending_subscribe_req_ids m) (mc_subscribe_req_id_by_key m).
Definition set_mc_pending_close_request_id (v : option N) (m : ManagedConnection) : ManagedConnection :=
  mkMC (mc_url m) (mc_state m) (mc_attempt_count m)
    (mc_auth_handshake_fail_count m) (mc_has_been_open m)
    (mc_awaiting_token_refresh m) (mc_server_connection_id m) (mc_socket
    m) (mc_pending_requests m) (mc_staleness_monitor m) (mc_timers m)
    (mc_subscribe_ack_attempts m) (mc_pending_connect_request_id m) v
    (mc_pending_reconnect_request_id m) (mc_additional_close_request_ids
    m) (mc_additional_connect_request_ids m)
    (mc_deferred_open_auth_subscribes m) (mc_next_subscribe_req_id m)
    (mc_pending_subscribe_req_ids m) (mc_subscribe_req_id_by_key m).
Definition set_mc_pending_reconnect_request_id (v : option N) (m : ManagedConnection) : ManagedConnection :=
  mkMC (mc_url m) (mc_state m) (mc_attempt_count m)
    (mc_auth_handshake_fail_count m) (mc_has_been_open m)
    (mc_awaiting_token_refresh m) (mc_server_connection_id m) (mc_socket
    m) (mc_pending_requests m) (mc_staleness_monitor m) (mc_timers m)
    (mc_subscribe_ack_attempts m) (mc_pending_connect_request_id m)
    (mc_pending_close_request_id m) v (mc_additional_close_request_ids m)
    (mc_additional_connect_request_ids m)
    (mc_deferred_open_auth_subscribes m) (mc_next_subscribe_req_id m)
    (mc_pending_subscribe_req_ids m) (mc_subscribe_req_id_by_key m).
Definition set_mc_additional_close_request_ids (v : list N) (m : ManagedConnection) : ManagedConnection :=
  mkMC (mc_url m) (mc_state m) (mc_attempt_count m)
    (mc_auth_handshake_fail_count m) (mc_has_been_open m)
    (mc_awaiting_token_refresh m) (mc_server_connection_id m) (mc_socket
    m) (mc_pending_requests m) (mc_staleness_monitor m) (mc_timers m)
    (mc_subscribe_ack_attempts m) (mc_pending_connect_request_id m)
    (mc_pending_close_request_id m) (mc_pending_reconnect_request_id m) v
    (mc_additional_connect_request_ids m)
    (mc_deferred_open_auth_subscribes m) (mc_next_subscribe_req_id m)
    (mc_pending_subscribe_req_ids m) (mc_subscribe_req_id_by_key m).
Definition set_mc_additional_connect_request_ids (v : list N) (m : ManagedConnection) : ManagedConnection :=
  mkMC (mc_url m) (mc_state m) (mc_attempt_count m)
    (mc_auth_handshake_fail_count m) (mc_has_been_open m)
    (mc_awaiting_token_refresh m) (mc_server_connection_id m) (mc_socket
    m) (mc_pending_requests m) (mc_staleness_monitor m) (mc_timers m)
    (mc_subscribe_ack_attempts m) (mc_pending_connect_request_id m)
    (mc_pending_close_request_id m) (mc_pending_reconnect_request_id m)
    (mc_additional_close_request_ids m) v
    (mc_deferred_open_auth_subscribes m) (mc_next_subscribe_req_id m)
    (mc_pending_subscribe_req_ids m) (mc_subscribe_req_id_by_key m).
Definition set_mc_deferred_open_auth_subscribes (v : list (SubKey * SubscribeParams)) (m : ManagedConnection) : ManagedConnection :=
  mkMC (mc_url m) (mc_state m) (mc_attempt_count m)
    (mc_auth_handshake_fail_count m) (mc_has_been_open m)
    (mc_awaiting_token_refresh m) (mc_server_connection_id m) (mc_socket
    m) (mc_pending_requests m) (mc_staleness_monitor m) (mc_timers m)
    (mc_subscribe_ack_attempts m) (mc_pending_connect_request_id m)
    (mc_pending_close_request_id m) (mc_pending_reconnect_request_id m)
    (mc_additional_close_request_ids m) (mc_additional_connect_request_ids
    m) v (mc_next_subscribe_req_id m) (mc_pending_subscribe_req_ids m)
    (mc_subscribe_req_id_by_key m).
Definition set_mc_next_subscribe_req_id (v : N) (m : ManagedConnection) : ManagedConnection :=
  mkMC (mc_url m) (mc_state m) (mc_attempt_count m)
    (mc_auth_handshake_fail_count m) (mc_has_been_open m)
    (mc_awaiting_token_refresh m) (mc_server_connection_id m) (mc_socket
    m) (mc_pending_requests m) (mc_staleness_monitor m) (mc_timers m)
    (mc_subscribe_ack_attempts m) (mc_pending_connect_request_id m)
    (mc_pending_close_request_id m) (mc_pending_reconnect_request_id m)
    (mc_additional_close_request_ids m) (mc_additional_connect_request_ids
    m) (mc_deferred_open_auth_subscribes m) v
    (mc_pending_subscribe_req_ids m) (mc_subscribe_req_id_by_key m).
Definition set_mc_pending_subscribe_req_ids (v : gmap N SubKey) (m : ManagedConnection) : ManagedConnection :=
  mkMC (mc_url m) (mc_state m) (mc_attempt_count m)
    (mc_auth_handshake_fail_count m) (mc_has_been_open m)
    (mc_awaiting_token_refresh m) (mc_server_connection_id m) (mc_socket
    m) (mc_pending_requests m) (mc_staleness_monitor m) (mc_timers m)
    (mc_subscribe_ack_attempts m) (mc_pending_connect_request_id m)
    (mc_pending_close_request_id m) (mc_pending_reconnect_request_id m)
    (mc_additional_close_request_ids m) (mc_additional_connect_request_ids
    m) (mc_deferred_open_auth_subscribes m) (mc_next_subscribe_req_id m) v
    (mc_subscribe_req_id_by_key m).
Definition set_mc_subscribe_req_id_by_key (v : gmap SubKey N) (m : ManagedConnection) : ManagedConnection :=
  mkMC (mc_url m) (mc_state m) (mc_attempt_count m)
    (mc_auth_handshake_fail_count m) (mc_has_been_open m)
    (mc_awaiting_token_refresh m) (mc_server_connection_id m) (mc_socket
    m) (mc_pending_requests m) (mc_staleness_monitor m) (mc_timers m)
    (mc_subscribe_ack_attempts m) (mc_pending_connect_request_id m)
    (mc_pending_close_request_id m) (mc_pending_reconnect_request_id m)
    (mc_additional_close_request_ids m) (mc_additional_connect_request_ids
    m) (mc_deferred_open_auth_subscribes m) (mc_next_subscribe_req_id m)
    (mc_pending_subscribe_req_ids m) v.

(** ** Effects and the state monad *)

Inductive FsmEffect :=
  | Publish (e : EventEnvelope)
  | OpenSocket (url : WsUrl) (id : N)
  | SendCloseFrame (id : N) (code : N)
  | ResolveOk (req_id : N) (resp : WsResponse)
  | ResolveErr (req_id : N) (err : ConnectionErrorKind)
  | SenderDropped (req_id : N).

Record World := mkWorld {
  w_mc : ManagedConnection;
  w_budget : ConnectionRateBudget;
  w_clock_reads : nat;
  w_jitter_draws : nat;
  w_next_socket : N;
  w_effects : list FsmEffect;
}.

(** What a transition reads from outside: the knobs, the successive readings of
    the injected clock, of the system clock ([MonotonicInstant::now]) and of the
    jitter source, [f64::powi] and derived [Debug] text. *)
Record Env := mkEnv {
  env_knobs : Knobs;
  env_clock : nat → MonotonicInstant;
  env_system_clock : nat → MonotonicInstant;
  env_jitter : nat → f64;
  env_powi : f64 → Z → f64;
  env_kind_debug : TransportErrorKind → string;
}.

Definition M (A : Type) : Type := World → A * World.

#[export] Instance M_ret : MRet M := λ A a w, (a, w).
#[export] Instance M_bind : MBind M := λ A B k m w, let '(a, w') := m w in k a w'.

Definition gets {A} (f : ManagedConnection → A) : M A := λ w, (f (w_mc w), w).

Definition modify (f : ManagedConnection → ManagedConnection) : M () := λ w,
  (tt, mkWorld (f (w_mc w)) (w_budget w) (w_clock_reads w) (w_jitter_draws w)
         (w_next_socket w) (w_effects w)).

Definition modify_timers (f : TimerSet → TimerSet) : M () :=
  modify (λ m, set_mc_timers (f (mc_timers m)) m).

Definition effect (e : FsmEffect) : M () := λ w,
  (tt, mkWorld (w_mc w) (w_budget w) (w_clock_reads w) (w_jitter_draws w)
         (w_next_socket w) (w_effects w ++ [e])).

Definition when (b : bool) (m : M ()) : M () := if b then m else mret tt.

Fixpoint for_each {A} (f : A → M ()) (l : list A) : M () :=
  match l with [] => mret tt | a :: l => f a;; for_each f l end.

Section Fsm.
Context (env : Env).

Definition clock_now : M MonotonicInstant := λ w,
  (env_clock env (w_clock_reads w),
   mkWorld (w_mc w) (w_budget w) (S (w_clock_reads w)) (w_jitter_draws w)
     (w_next_socket w) (w_effects w)).

Definition system_now : M MonotonicInstant := λ w,
  (env_system_clock env (w_clock_reads w),
   mkWorld (w_mc w) (w_budget w) (S (w_clock_reads w)) (w_jitter_draws w)
     (w_next_socket w) (w_effects w)).

Definition next_unit : M f64 := λ w,
  (env_jitter env (w_jitter_draws w),
   mkWorld (w_mc w) (w_budget w) (w_clock_reads w) (S (w_jitter_draws w))
     (w_next_socket w) (w_effects w)).

Definition budget_try_consume (now : MonotonicInstant)
  : M (ConnectionRateThrottled + unit) := λ w,
  let '(r, b) := try_consume now (w_budget w) in
  (r, mkWorld (w_mc w) b (w_clock_reads w) (w_jitter_draws w) (w_next_socket w)
        (w_effects w)).

Definition budget_window_seconds : M N := λ w, (window_seconds (w_budget w), w).

(** [factory.open_socket]: a fresh socket. *)
Definition open_socket (url : WsUrl) : M N := λ w,
  (w_next_socket w,
   mkWorld (w_mc w) (w_budget w) (w_clock_reads w) (w_jitter_draws w)
     (N.succ (w_next_socket w)) (w_effects w ++ [OpenSocket url (w_next_socket w)])).

Definition emit_lifecycle (event_type : EventType) (payload : EventPayload)
  (request_id : option N) : M () :=
  t ← clock_now;
  effect (Publish (mkEnvelope event_type 1 t request_id payload)).

(** ** Backoff *)

(** [next_backoff] with the jitter draw [unit]. *)
Definition next_backoff (k : Knobs) (attempt : N) (unit : f64) : Duration :=
  let base_ms := f64_of_N (backoff_base_ms k) in
  let max_ms := f64_of_N (backoff_max_ms k) in
  let factor :=
    if f64_is_finite (backoff_factor k) then f64_max (backoff_factor k) f64_one
    else f64_two in
  let exp := Z.min (Z.of_N attempt) 2147483647 in
  let scaled := f64_mul base_ms (env_powi env factor exp) in
  let computed := if f64_is_finite scaled then f64_min scaled max_ms else max_ms in
  let frac :=
    if f64_is_finite (backoff_jitter k)
    then f64_clamp (backoff_jitter k) f64_zero f64_one else f64_one in
  let delay_ms :=
    f64_mul computed (f64_add (f64_sub f64_one frac) (f64_mul frac unit)) in
  from_millis (f64_to_u64 delay_ms).

Definition compute_backoff_due : M MonotonicInstant :=
  n ← gets mc_attempt_count;
  unit ← next_unit;
  let delay := next_backoff (env_knobs env) (n - 1) unit in
  now ← clock_now;
  mret (now + delay).

(** ** The pending-request map *)

Definition drain_one (c : DrainCause) (p : PendingRequest) : M () :=
  let '(err, reason) := drain_resolve c in
  effect (ResolveErr (pr_req_id p) err);;
  emit_lifecycle WsRequestFailedEvent
    (PWsRequestFailed (pr_req_id p) (pr_op p) reason) None.

Definition by_req_id (p q : PendingRequest) : Prop := pr_req_id p ≤ pr_req_id q.
#[local] Instance by_req_id_dec : RelDecision by_req_id :=
  λ p q, decide (pr_req_id p ≤ pr_req_id q).

Definition pending_sorted (m : gmap N PendingRequest) : list PendingRequest :=
  merge_sort by_req_id (map_to_list m).*2.

Definition drain (c : DrainCause) : M () :=
  pending ← gets mc_pending_requests;
  if decide (pending = ∅) then mret tt
  else
    modify (set_mc_pending_requests ∅);;
    for_each (drain_one c) (pending_sorted pending).

Definition record_pending_request (p : PendingRequest) : M () :=
  pending ← gets mc_pending_requests;
  (match pending !! pr_req_id p with
   | Some old => effect (SenderDropped (pr_req_id old))
   | None => mret tt
   end);;
  modify (set_mc_pending_requests (<[pr_req_id p := p]> pending)).

Definition resolve_pending_request (resp : WsResponse) : M () :=
  pending ← gets mc_pending_requests;
  match pending !! resp_req_id resp with
  | Some _ =>
      modify (set_mc_pending_requests (delete (resp_req_id resp) pending));;
      effect (ResolveOk (resp_req_id resp) resp)
  | None => mret tt
  end.

Definition fail_pending_request (req_id : N) (err : ConnectionErrorKind) : M () :=
  pending ← gets mc_pending_requests;
  match pending !! req_id with
  | Some _ =>
      modify (set_mc_pending_requests (delete req_id pending));;
      effect (ResolveErr req_id err)
  | None => mret tt
  end.

Definition drain_one_retryable (req_id : N) : M () :=
  pending ← gets mc_pending_requests;
  match pending !! req_id with
  | Some p =>
      modify (set_mc_pending_requests (delete req_id pending));;
      effect (ResolveErr req_id RequestInFlightWhenDropped);;
      emit_lifecycle WsRequestFailedEvent
        (PWsRequestFailed req_id (pr_op p) FailConnectionLost) None
  | None => mret tt
  end.

(** ** Subscribe-ack bookkeeping *)

(** The connection [ManagedConnection::new] builds. *)
Definition mc_new (url : WsUrl) : ManagedConnection :=
  mkMC url Idle 0 0 false false None None ∅
    (staleness_new (staleness_window_ms (env_knobs env))) timers_default ∅
    None None None [] [] [] 1 ∅ ∅.

Definition take_subscribe_req_id : M N :=
  id ← gets mc_next_subscribe_req_id;
  modify (set_mc_next_subscribe_req_id (u64_saturating_add id 1));;
  mret id.

Definition record_subscribe_req_id (req_id : N) (key : SubKey) : M () :=
  modify (λ m,
    let pend :=
      match mc_subscribe_req_id_by_key m !! key with
      | Some prev => delete prev (mc_pending_subscribe_req_ids m)
      | None => mc_pending_subscribe_req_ids m
      end in
    set_mc_pending_subscribe_req_ids (<[req_id := key]> pend)
      (set_mc_subscribe_req_id_by_key
         (<[key := req_id]> (mc_subscribe_req_id_by_key m)) m)).

Definition resolve_subscribe_req_id (req_id : N) (m : ManagedConnection)
  : option SubKey := mc_pending_subscribe_req_ids m !! req_id.

Definition forget_subscribe_req_id_for_key (key : SubKey) : M () :=
  modify (λ m,
    match mc_subscribe_req_id_by_key m !! key with
    | Some req_id =>
        set_mc_pending_subscribe_req_ids
          (delete req_id (mc_pending_subscribe_req_ids m))
          (set_mc_subscribe_req_id_by_key
             (delete key (mc_subscribe_req_id_by_key m)) m)
    | None => m
    end).

(** [min(u8::MAX) as u8] *)
Definition ack_budget : N := N.min (subscribe_ack_attempts (env_knobs env)) 255.

Definition arm_subscribe_ack (key : SubKey) (due_at : MonotonicInstant) : M () :=
  modify_timers (λ t, set_tm_per_entry_subscribe_ack_timeouts
    (<[key := due_at]> (tm_per_entry_subscribe_ack_timeouts t)) t);;
  modify (λ m,
    match mc_subscribe_ack_attempts m !! key with
    | Some _ => m
    | None => set_mc_subscribe_ack_attempts
                (<[key := ack_budget]> (mc_subscribe_ack_attempts m)) m
    end).

Definition remove_ack_timers (key : SubKey) : M () :=
  modify_timers (λ t, set_tm_per_entry_subscribe_ack_timeouts
    (delete key (tm_per_entry_subscribe_ack_timeouts t)) t);;
  modify_timers (λ t, set_tm_per_entry_subscribe_resend_due
    (delete key (tm_per_entry_subscribe_resend_due t)) t).

Definition disarm_subscribe_ack (key : SubKey) : M () :=
  remove_ack_timers key;;
  modify (λ m, set_mc_subscribe_ack_attempts
                 (delete key (mc_subscribe_ack_attempts m)) m);;
  forget_subscribe_req_id_for_key key.

Definition disarm_book_reseed_snapshot (key : SubKey) : M () :=
  modify_timers (λ t, set_tm_per_entry_book_reseed_snapshot
    (delete key (tm_per_entry_book_reseed_snapshot t)) t).

Definition arm_book_reseed_snapshot (key : SubKey) (due_at : MonotonicInstant) : M () :=
  modify_timers (λ t, set_tm_per_entry_book_reseed_snapshot
    (<[key := due_at]> (tm_per_entry_book_reseed_snapshot t)) t).

Definition pending_subscribe_ack_count (m : ManagedConnection) : nat :=
  size (tm_per_entry_subscribe_ack_timeouts (mc_timers m)).

Definition is_subscribe_ack_armed (key : SubKey) (m : ManagedConnection) : bool :=
  bool_decide (is_Some (tm_per_entry_subscribe_ack_timeouts (mc_timers m) !! key)).

Definition authenticating_nothing_in_flight (m : ManagedConnection) : bool :=
  bool_decide (mc_state m = Authenticating)
  && (pending_subscribe_ack_count m =? 0)%nat
  && bool_decide (mc_pending_requests m = ∅)
  && negb (mc_awaiting_token_refresh m).

Definition remove_deferred_open_auth_subscribe (key : SubKey) : M () :=
  modify (λ m, set_mc_deferred_open_auth_subscribes
    (filter (λ e : SubKey * SubscribeParams, e.1 ≠ key)
       (mc_deferred_open_auth_subscribes m)) m).

Definition defer_open_auth_subscribe (key : SubKey) (params : SubscribeParams) : M () :=
  modify (λ m,
    if existsb (λ e : SubKey * SubscribeParams, bool_decide (e.1 = key))
         (mc_deferred_open_auth_subscribes m)
    then m
    else set_mc_deferred_open_auth_subscribes
           (mc_deferred_open_auth_subscribes m ++ [(key, params)]) m).

Definition drain_deferred_open_auth_subscribes : M (list (SubKey * SubscribeParams)) :=
  l ← gets mc_deferred_open_auth_subscribes;
  modify (set_mc_deferred_open_auth_subscribes []);;
  mret l.

Definition clear_subscribe_ack_state : M () :=
  modify_timers (set_tm_per_entry_subscribe_ack_timeouts ∅);;
  modify_timers (set_tm_per_entry_subscribe_resend_due ∅);;
  modify (set_mc_subscribe_ack_attempts ∅);;
  modify (set_mc_pending_subscribe_req_ids ∅);;
  modify (set_mc_subscribe_req_id_by_key ∅);;
  modify_timers (set_tm_per_entry_book_reseed_snapshot ∅);;
  modify (set_mc_deferred_open_auth_subscribes []);;
  modify (set_mc_awaiting_token_refresh false).

(** ** Timers and teardown *)

Definition disarm_staleness : M () :=
  modify (λ m, set_mc_staleness_monitor (staleness_disarm (mc_staleness_monitor m)) m);;
  modify_timers (set_tm_staleness_due_at None).

Definition exit_authenticating_teardown : M () :=
  modify (set_mc_socket None);;
  disarm_staleness;;
  clear_subscribe_ack_state;;
  drain DrainRequestInFlightWhenDropped.

Definition exit_authenticating_to_closing : M () :=
  disarm_staleness;;
  clear_subscribe_ack_state.

Definition exit_resubscribing_teardown : M () :=
  modify (set_mc_socket None);;
  disarm_staleness;;
  clear_subscribe_ack_state;;
  drain DrainRequestInFlightWhenDropped.

Definition exit_open_teardown (cause : DrainCause) : M () :=
  drain cause;;
  modify (set_mc_socket None);;
  disarm_staleness.

Definition arm_staleness : M () :=
  modify (set_mc_staleness_monitor
            (staleness_new (staleness_window_ms (env_knobs env))));;
  now ← clock_now;
  modify (λ m, set_mc_staleness_monitor (staleness_arm now (mc_staleness_monitor m)) m);;
  modify (λ m, set_mc_timers
    (set_tm_staleness_due_at (staleness_deadline (mc_staleness_monitor m))
       (mc_timers m)) m).

Definition note_inbound_activity : M () :=
  now ← clock_now;
  modify (λ m, set_mc_staleness_monitor
                 (staleness_note_inbound now (mc_staleness_monitor m)) m);;
  modify (λ m, set_mc_timers
    (set_tm_staleness_due_at (staleness_deadline (mc_staleness_monitor m))
       (mc_timers m)) m).

Definition arm_upgrade_timeout : M () :=
  now ← clock_now;
  modify_timers (set_tm_upgrade_timeout_due_at
                   (Some (now + upgrade_timeout (env_knobs env)))).

Definition arm_close_timeout : M () :=
  now ← clock_now;
  modify_timers (set_tm_close_timeout_due_at
                   (Some (now + close_timeout (env_knobs env)))).

Definition arm_token_refresh (due : MonotonicInstant) : M () :=
  modify_timers (set_tm_token_refresh_due_at (Some due)).
Definition disarm_token_refresh : M () :=
  modify_timers (set_tm_token_refresh_due_at None).

(** ** Emission *)

Definition emit_open_or_reopened (is_reopen : bool) (reopen_attempt_count : N)
  (rid : option N) : M () :=
  url ← gets mc_url;
  t ← clock_now;
  if is_reopen then
    emit_lifecycle ConnectionReopenedEvent
      (PConnectionReopened url t reopen_attempt_count) rid
  else
    sid ← gets mc_server_connection_id;
    emit_lifecycle ConnectionOpenEvent (PConnectionOpen url t (opt_decimal sid)) rid.

Definition option_list {A} (o : option A) : list A :=
  match o with Some a => [a] | None => [] end.

Definition enter_open : M () :=
  is_reopen ← gets mc_has_been_open;
  reopen_attempt_count ← gets mc_attempt_count;
  modify (set_mc_attempt_count 0);;
  modify (set_mc_has_been_open true);;
  modify (set_mc_state Open);;
  arm_staleness;;
  pending_rid ← gets mc_pending_connect_request_id;
  modify (set_mc_pending_connect_request_id None);;
  cohort ← gets mc_additional_connect_request_ids;
  modify (set_mc_additional_connect_request_ids []);;
  emit_open_or_reopened is_reopen reopen_attempt_count pending_rid;;
  for_each (λ rid, emit_open_or_reopened is_reopen reopen_attempt_count (Some rid))
    cohort.

Definition complete_resubscribe_if_empty : M () :=
  m ← gets id;
  when (bool_decide (mc_state m = Resubscribing)
        && (pending_subscribe_ack_count m =? 0)%nat
        && bool_decide (tm_per_entry_subscribe_resend_due (mc_timers m) = ∅))
    enter_open.

Definition emit_connection_failed (last_error : string) (transient : bool)
  (class : option NonTransientClass) : M () :=
  primary ← gets mc_pending_connect_request_id;
  modify (set_mc_pending_connect_request_id None);;
  cohort ← gets mc_additional_connect_request_ids;
  modify (set_mc_additional_connect_request_ids []);;
  attempt_count ← gets mc_attempt_count;
  url ← gets mc_url;
  let emit rid :=
    emit_lifecycle ConnectionFailedEvent
      (PConnectionFailed url attempt_count last_error transient class) rid in
  match primary, cohort with
  | None, [] => emit None
  | _, _ => for_each (λ rid, emit (Some rid)) (option_list primary ++ cohort)
  end.

Definition emit_attempt_failed (backoff_due : MonotonicInstant)
  (class : TransientClass) (kraken_error : option string)
  (http_status close_code : option N) : M () :=
  now ← clock_now;
  let backoff_ms := ((backoff_due - now) / 1000000) mod (u64_max + 1) in
  url ← gets mc_url;
  attempt ← gets mc_attempt_count;
  emit_lifecycle ConnectionAttemptFailedEvent
    (PConnectionAttemptFailed url attempt class kraken_error http_status close_code
       backoff_ms now) None.

Definition emit_rate_throttled (request_id : option N) (th : ConnectionRateThrottled)
  : M () :=
  url ← gets mc_url;
  ws ← budget_window_seconds;
  emit_lifecycle ConnectionRateThrottledEvent
    (PConnectionRateThrottled url (attempts_used th) ws
       (th_budget th - attempts_used th) (throttle_until_monotonic th)) request_id.

Definition emit_dropped (close_code : option N) (reason : option string) : M () :=
  url ← gets mc_url;
  t ← clock_now;
  emit_lifecycle ConnectionDroppedEvent (PConnectionDropped url t close_code reason) None.

Definition emit_closed (reason : ClosedReason) (ack : AckSource) (request_id : option N)
  : M () :=
  url ← gets mc_url;
  t ← clock_now;
  emit_lifecycle ConnectionClosedEvent (PConnectionClosed url t reason ack None) request_id.

Definition emit_stale : M () :=
  last ← gets (λ m, sm_last_inbound_at (mc_staleness_monitor m));
  stale_last_inbound ←
    (match last with Some l => mret l | None => system_now end);
  win ← gets (λ m, sm_window_ms (mc_staleness_monitor m));
  url ← gets mc_url;
  emit_lifecycle WebsocketStaleEvent (PWebsocketStale url stale_last_inbound win) None.

Definition emit_authentication_failed (class : NonTransientClass)
  (kraken_response : option string) : M () :=
  url ← gets mc_url;
  emit_lifecycle AuthenticationFailedEvent
    (PAuthenticationFailed url class kraken_response) None.

(** ** Connecting, reconnecting, giving up *)

Definition enter_connecting (rid : option N) : M () :=
  url ← gets mc_url;
  sock ← open_socket url;
  modify (set_mc_socket (Some sock));;
  arm_upgrade_timeout;;
  attempt_count ← gets mc_attempt_count;
  emit_lifecycle ConnectionConnectingEvent (PConnectionConnecting url attempt_count) rid.

Definition reenter_connecting (rid : N) : M () :=
  now ← clock_now;
  r ← budget_try_consume now;
  match r with
  | inl th =>
      modify (set_mc_state BackingOff);;
      modify (set_mc_socket None);;
      modify (set_mc_pending_connect_request_id (Some rid));;
      modify_timers (set_tm_rate_budget_window_advanced_at
                       (Some (throttle_until_monotonic th)));;
      emit_rate_throttled (Some rid) th
  | inr _ =>
      modify (set_mc_state Connecting);;
      modify (set_mc_pending_connect_request_id (Some rid));;
      enter_connecting (Some rid)
  end.

Definition enter_closed_or_reconnect (reason : ClosedReason) (ack : AckSource) : M () :=
  modify_timers (set_tm_close_timeout_due_at None);;
  latched ← gets mc_pending_reconnect_request_id;
  drain (match latched with
         | Some _ => DrainRequestInFlightWhenDropped
         | None => DrainClientClosed end);;
  primary_close ← gets mc_pending_close_request_id;
  modify (set_mc_pending_close_request_id None);;
  additional_closes ← gets mc_additional_close_request_ids;
  modify (set_mc_additional_close_request_ids []);;
  reconnect ← gets mc_pending_reconnect_request_id;
  modify (set_mc_pending_reconnect_request_id None);;
  now ← clock_now;
  sid ← gets mc_server_connection_id;
  url ← gets mc_url;
  for_each (λ rid,
    emit_lifecycle ConnectionClosedEvent
      (PConnectionClosed url now reason ack (opt_decimal sid)) (Some rid))
    (option_list primary_close ++ additional_closes);;
  match reconnect with
  | Some rid => modify (set_mc_attempt_count 0);; reenter_connecting rid
  | None => modify (set_mc_state Closed);; modify (set_mc_socket None)
  end.

(** [true] when the reconnect budget is spent and the connection gave up. *)
Definition cap_exhausted_then_escalate : M bool :=
  attempt_count ← gets mc_attempt_count;
  match opt_u32_decode (reconnect_attempts (env_knobs env)) with
  | Some n =>
      if n <=? attempt_count then
        modify (set_mc_state Failed);;
        modify (set_mc_socket None);;
        disarm_staleness;;
        modify_timers (set_tm_upgrade_timeout_due_at None);;
        emit_connection_failed
          ("reconnect attempt budget exhausted (" ++ decimal attempt_count ++ " attempts)")
          false (Some RetryCapExhausted);;
        mret true
      else mret false
  | None => mret false
  end.

(** The common tail of a failure that is retried: give up when the budget is
    spent, otherwise back off and report. *)
Definition back_off_attempt_failed (class : TransientClass)
  (kraken_error : option string) (http_status close_code : option N) : M () :=
  backoff_due ← compute_backoff_due;
  modify_timers (set_tm_backoff_due_at (Some backoff_due));;
  emit_attempt_failed backoff_due class kraken_error http_status close_code.

Definition back_off_dropped (close_code : option N) (reason : option string) : M () :=
  modify (set_mc_state BackingOff);;
  backoff_due ← compute_backoff_due;
  modify_timers (set_tm_backoff_due_at (Some backoff_due));;
  emit_dropped close_code reason.

Definition unless_cap_exhausted (m : M ()) : M () :=
  exhausted ← cap_exhausted_then_escalate;
  if exhausted : bool then mret tt else m.

Definition budget_exhausted_text (key : SubKey) : string :=
  "subscribe_ack budget exhausted for (" ++ channel_debug key.1 ++ ", "
  ++ pair_debug key.2 ++ ")".

Definition handle_subscribe_failure (key : SubKey) (transient : bool)
  (last_error : option string) : M () :=
  remove_ack_timers key;;
  forget_subscribe_req_id_for_key key;;
  if negb transient then
    modify (λ m, set_mc_subscribe_ack_attempts
                   (delete key (mc_subscribe_ack_attempts m)) m);;
    now ← clock_now;
    effect (Publish (mkEnvelope SubscriptionTerminatedEvent 2 now None
      (PSubscriptionTerminated key.1 key.2 NonTransientWireRejection last_error now)));;
    complete_resubscribe_if_empty
  else
    attempts ← gets mc_subscribe_ack_attempts;
    let remaining :=
      match attempts !! key with Some n => n - 1 | None => ack_budget - 1 end in
    modify (set_mc_subscribe_ack_attempts (<[key := remaining]> attempts));;
    if 0 <? remaining then
      now ← clock_now;
      modify_timers (λ t, set_tm_per_entry_subscribe_resend_due
        (<[key := now + from_millis 200]> (tm_per_entry_subscribe_resend_due t)) t)
    else
      exit_resubscribing_teardown;;
      state ← gets mc_state;
      if decide (state = Open) then
        unless_cap_exhausted (back_off_dropped None (Some (budget_exhausted_text key)))
      else
        modify (set_mc_state BackingOff);;
        back_off_attempt_failed SubscribeBudgetExhausted
          (Some (budget_exhausted_text key)) None None.

(** ** [handle_event.rs]: one function per source state *)

Definition unexpected : M () := mret tt.

(** Consult the rate budget; throttled: [on_throttle], else [on_grant]. *)
Definition with_rate_budget (on_throttle : ConnectionRateThrottled → M ())
  (on_grant : M ()) : M () :=
  now ← clock_now;
  r ← budget_try_consume now;
  match r with inl th => on_throttle th | inr _ => on_grant end.

Definition arm_rate_budget_timer (th : ConnectionRateThrottled) : M () :=
  modify_timers (set_tm_rate_budget_window_advanced_at
                   (Some (throttle_until_monotonic th))).

Definition throttle_to_backing_off (request_id : N) (th : ConnectionRateThrottled) : M () :=
  modify (set_mc_state BackingOff);;
  modify (set_mc_pending_connect_request_id (Some request_id));;
  arm_rate_budget_timer th;;
  emit_rate_throttled (Some request_id) th.

Definition connect_for (request_id : N) : M () :=
  modify (set_mc_state Connecting);;
  modify (set_mc_pending_connect_request_id (Some request_id));;
  enter_connecting (Some request_id).

Definition bump_attempt_count : M () :=
  modify (λ m, set_mc_attempt_count (u32_saturating_add (mc_attempt_count m) 1) m).

Definition handle_idle (ev : FsmEvent) : M () :=
  match ev with
  | CallStartConnect request_id =>
      with_rate_budget (throttle_to_backing_off request_id)
        (bump_attempt_count;; connect_for request_id)
  | CallClose request_id =>
      modify (set_mc_state Closed);;
      emit_closed ClientInitiated NeverOpened (Some request_id)
  | CallForceReconnect request_id =>
      modify (set_mc_attempt_count 0);;
      with_rate_budget (throttle_to_backing_off request_id) (connect_for request_id)
  | _ => unexpected
  end.

(** A transient failure while [Connecting]. *)
Definition connecting_retry (class : TransientClass) (http_status : option N) : M () :=
  unless_cap_exhausted (
    modify (set_mc_state BackingOff);;
    modify (set_mc_socket None);;
    modify_timers (set_tm_upgrade_timeout_due_at None);;
    back_off_attempt_failed class None http_status None).

(** A non-transient failure while [Connecting]. *)
Definition connecting_fail (last_error : string) : M () :=
  modify (set_mc_state Failed);;
  modify (set_mc_socket None);;
  modify_timers (set_tm_upgrade_timeout_due_at None);;
  emit_connection_failed last_error false None.

Definition handle_connecting (ev : FsmEvent) : M () :=
  match ev with
  | WireUpgradeOk connection_id =>
      modify (set_mc_server_connection_id connection_id);;
      modify_timers (set_tm_upgrade_timeout_due_at None);;
      url ← gets mc_url;
      modify (set_mc_state
                (match url with Public => Resubscribing | Auth => Authenticating end));;
      arm_staleness
  | WireUpgradeFailed http_status =>
      if http_upgrade_status_transient http_status
      then connecting_retry HttpTransient (Some http_status)
      else connecting_fail
             ("ws upgrade failed: HTTP " ++ decimal http_status ++ " (non-transient)")
  | WireConnectError kind transient =>
      if transient : bool then connecting_retry ConnectError None
      else connecting_fail
             ("connect error (non-transient): " ++ env_kind_debug env kind)
  | TimerUpgradeTimeout =>
      modify (set_mc_socket None);;
      modify_timers (set_tm_upgrade_timeout_due_at None);;
      unless_cap_exhausted (
        modify (set_mc_state BackingOff);;
        back_off_attempt_failed UpgradeTimeout None None None)
  | CallClose request_id =>
      modify (set_mc_state Closing);;
      modify_timers (set_tm_upgrade_timeout_due_at None);;
      arm_close_timeout;;
      modify (set_mc_pending_close_request_id (Some request_id))
  | CallForceReconnect request_id =>
      modify (set_mc_attempt_count 0);;
      has_been_open ← gets mc_has_been_open;
      when has_been_open
        (modify (λ m, set_mc_additional_connect_request_ids
                        (mc_additional_connect_request_ids m ++ [request_id]) m))
  | _ => unexpected
  end.

(** Back off before [Open]: the attempt failed. *)
Definition retry_handshake (class : TransientClass) (kraken_error : option string)
  (close_code : option N) : M () :=
  unless_cap_exhausted (
    modify (set_mc_state BackingOff);;
    back_off_attempt_failed class kraken_error None close_code).

Definition authentication_failed (last_error : string) (class : NonTransientClass)
  (kraken_response : option string) : M () :=
  modify (set_mc_state Failed);;
  emit_connection_failed last_error false (Some class);;
  emit_authentication_failed class kraken_response.

Definition handle_authenticating (ev : FsmEvent) : M () :=
  match ev with
  | WireAuthHandshakeOk =>
      modify (set_mc_awaiting_token_refresh false);;
      modify (set_mc_auth_handshake_fail_count 0);;
      modify (set_mc_state Resubscribing)
  | WireOrderAuthOk =>
      modify (set_mc_awaiting_token_refresh false);;
      modify (set_mc_auth_handshake_fail_count 0);;
      clear_subscribe_ack_state;;
      enter_open
  | WireAuthHandshakeFailed KTokenStale =>
      modify (λ m, set_mc_auth_handshake_fail_count
                     (u32_saturating_add (mc_auth_handshake_fail_count m) 1) m);;
      count ← gets mc_auth_handshake_fail_count;
      if max_auth_handshake_failures (env_knobs env) <=? count then
        exit_authenticating_teardown;;
        authentication_failed
          ("auth handshake token-stale retried " ++ decimal count ++ " times (cap)")
          RetryCapExhausted None
      else
        modify (set_mc_awaiting_token_refresh true);;
        bump_attempt_count
  | WireAuthHandshakeFailed KBadCreds =>
      exit_authenticating_teardown;;
      authentication_failed "auth handshake failed: BadCreds" BadCreds None
  | WireAuthHandshakeFailed KPermissionDenied =>
      exit_authenticating_teardown;;
      authentication_failed "auth handshake failed: PermissionDenied"
        PermissionDenied None
  | WireAuthHandshakeFailed KTransient =>
      exit_authenticating_teardown;;
      retry_handshake AuthHandshakeTransient None None
  | WireCloseReceived code reason =>
      exit_authenticating_teardown;;
      if code =? 1008 then
        modify (set_mc_state Failed);;
        emit_connection_failed
          ("ws close " ++ decimal code ++ " during auth (policy violation)") false None
      else retry_handshake ClosedDuringHandshake reason (Some code)
  | WireAbnormalClose _ _ =>
      exit_authenticating_teardown;;
      retry_handshake ClosedDuringHandshake None None
  | TimerStalenessElapsed =>
      emit_stale;;
      exit_authenticating_teardown;;
      retry_handshake ClosedDuringHandshake None None
  | BusTokenRefreshFailed _ error =>
      exit_authenticating_teardown;;
      if auth_error_retryable error then
        retry_handshake TokenRefreshTransient None None
      else
        authentication_failed ("AuthRefreshFailed: " ++ auth_error_display error)
          ClientError (Some (auth_error_display error))
  | BusTokenRefreshed _ => modify (set_mc_awaiting_token_refresh false)
  | TimerSubscribeAckTimeout channel pr =>
      handle_subscribe_failure (channel, pr) true None
  | CallClose request_id =>
      exit_authenticating_to_closing;;
      modify (set_mc_state Closing);;
      arm_close_timeout;;
      modify (set_mc_pending_close_request_id (Some request_id))
  | CallForceReconnect request_id =>
      exit_authenticating_to_closing;;
      modify (set_mc_state Closing);;
      arm_close_timeout;;
      modify (set_mc_pending_reconnect_request_id (Some request_id))
  | _ => unexpected
  end.

Definition send_close_frame : M () :=
  sock ← gets mc_socket;
  match sock with Some s => effect (SendCloseFrame s 1000) | None => mret tt end.

Definition handle_resubscribing (ev : FsmEvent) : M () :=
  match ev with
  | WireSubscribeAck channel pr last =>
      disarm_subscribe_ack (channel, pr);;
      when last enter_open
  | CallClose request_id =>
      modify (set_mc_state Closing);;
      disarm_staleness;;
      clear_subscribe_ack_state;;
      arm_close_timeout;;
      modify (set_mc_pending_close_request_id (Some request_id))
  | CallForceReconnect request_id =>
      modify (set_mc_state Closing);;
      disarm_staleness;;
      clear_subscribe_ack_state;;
      arm_close_timeout;;
      modify (set_mc_pending_reconnect_request_id (Some request_id));;
      send_close_frame
  | TimerSubscribeAckTimeout channel pr =>
      handle_subscribe_failure (channel, pr) true None
  | WireSubscribeFailed channel pr (SubscribeRejected kraken_code transient) =>
      handle_subscribe_failure (channel, pr) transient (Some kraken_code)
  | WireCloseReceived code reason =>
      exit_resubscribing_teardown;;
      if code =? 1008 then
        modify (set_mc_state Failed);;
        emit_connection_failed
          ("ws close " ++ decimal code ++ " during resubscribe (policy violation)")
          false None
      else retry_handshake ClosedDuringHandshake reason (Some code)
  | WireAbnormalClose _ _ =>
      exit_resubscribing_teardown;;
      retry_handshake ClosedDuringHandshake None None
  | TimerStalenessElapsed =>
      emit_stale;;
      exit_resubscribing_teardown;;
      retry_handshake ClosedDuringHandshake None None
  | BusTokenRefreshed _ => modify (set_mc_awaiting_token_refresh false)
  | BusTokenRefreshFailed _ _ => modify (set_mc_awaiting_token_refresh false)
  | _ => unexpected
  end.

Definition handle_open (ev : FsmEvent) : M () :=
  match ev with
  | WireSubscribeAck channel pr _ => disarm_subscribe_ack (channel, pr)
  | BusTokenRefreshed _ => modify (set_mc_awaiting_token_refresh false)
  | BusTokenRefreshFailed _ _ => modify (set_mc_awaiting_token_refresh false)
  | WireOrderAckTokenStale => modify (set_mc_awaiting_token_refresh true)
  | WireSubscribeFailed channel pr (SubscribeRejected kraken_code transient) =>
      handle_subscribe_failure (channel, pr) transient (Some kraken_code)
  | TimerSubscribeAckTimeout channel pr =>
      handle_subscribe_failure (channel, pr) true None
  | WireCloseReceived code reason =>
      exit_open_teardown DrainRequestInFlightWhenDropped;;
      clear_subscribe_ack_state;;
      if code =? 1008 then
        modify (set_mc_state Failed);;
        emit_connection_failed
          ("ws close " ++ decimal code ++ " (policy violation; non-transient)") false None
      else unless_cap_exhausted (back_off_dropped (Some code) reason)
  | WireAbnormalClose _ _ =>
      exit_open_teardown DrainRequestInFlightWhenDropped;;
      clear_subscribe_ack_state;;
      unless_cap_exhausted (back_off_dropped None None)
  | TimerStalenessElapsed =>
      emit_stale;;
      exit_open_teardown DrainRequestInFlightWhenDropped;;
      clear_subscribe_ack_state;;
      unless_cap_exhausted (back_off_dropped None None)
  | CallClose request_id =>
      drain DrainClientClosed;;
      modify (set_mc_state Closing);;
      disarm_staleness;;
      clear_subscribe_ack_state;;
      arm_close_timeout;;
      modify (set_mc_pending_close_request_id (Some request_id));;
      send_close_frame
  | CallForceReconnect request_id =>
      drain DrainRequestInFlightWhenDropped;;
      modify (set_mc_state Closing);;
      disarm_staleness;;
      clear_subscribe_ack_state;;
      arm_close_timeout;;
      modify (set_mc_pending_reconnect_request_id (Some request_id));;
      send_close_frame
  | _ => unexpected
  end.

(** Join the waiters of a pending connect. *)
Definition latch_connect_waiter (request_id : N) : M () :=
  modify (λ m,
    match mc_pending_connect_request_id m with
    | None => set_mc_pending_connect_request_id (Some request_id) m
    | Some _ => set_mc_additional_connect_request_ids
                  (mc_additional_connect_request_ids m ++ [request_id]) m
    end).

Definition handle_backing_off (ev : FsmEvent) : M () :=
  match ev with
  | TimerBackoffElapsed =>
      with_rate_budget (λ th, arm_rate_budget_timer th;; emit_rate_throttled None th)
        (modify_timers (set_tm_backoff_due_at None);;
         bump_attempt_count;;
         modify (set_mc_state Connecting);;
         enter_connecting None)
  | TimerRateBudgetWindowAdvanced =>
      with_rate_budget (λ th, arm_rate_budget_timer th;; emit_rate_throttled None th)
        (modify_timers (set_tm_rate_budget_window_advanced_at None);;
         bump_attempt_count;;
         modify (set_mc_state Connecting);;
         enter_connecting None)
  | CallClose request_id =>
      modify (set_mc_state Closed);;
      emit_closed ClientInitiated SocketDropped (Some request_id)
  | CallForceReconnect request_id =>
      with_rate_budget
        (λ th, latch_connect_waiter request_id;;
               arm_rate_budget_timer th;;
               emit_rate_throttled (Some request_id) th)
        (modify_timers (set_tm_backoff_due_at None);;
         modify (set_mc_attempt_count 0);;
         modify (set_mc_state Connecting);;
         latch_connect_waiter request_id;;
         enter_connecting (Some request_id))
  | _ => unexpected
  end.

Definition handle_closing (ev : FsmEvent) : M () :=
  match ev with
  | WireCloseReceived _ _ => enter_closed_or_reconnect ClientInitiated AckServer
  | WireAbnormalClose _ _ => enter_closed_or_reconnect ClientInitiated SocketDropped
  | TimerCloseTimeout => enter_closed_or_reconnect Forced CloseTimeout
  | CallClose request_id =>
      modify (λ m,
        match mc_pending_close_request_id m with
        | Some _ => set_mc_additional_close_request_ids
                      (mc_additional_close_request_ids m ++ [request_id]) m
        | None => set_mc_pending_close_request_id (Some request_id) m
        end)
  | CallForceReconnect request_id =>
      modify (λ m,
        match mc_pending_reconnect_request_id m with
        | None => set_mc_pending_reconnect_request_id (Some request_id) m
        | Some _ => set_mc_additional_connect_request_ids
                      (mc_additional_connect_request_ids m ++ [request_id]) m
        end)
  | _ => unexpected
  end.

Definition handle_failed (ev : FsmEvent) : M () :=
  match ev with
  | CallForceReconnect request_id =>
      modify (set_mc_attempt_count 0);;
      with_rate_budget (throttle_to_backing_off request_id) (connect_for request_id)
  | CallClose request_id =>
      modify (set_mc_state Closed);;
      emit_closed ClientInitiated SocketDropped (Some request_id)
  | _ => mret tt
  end.

Definition handle_event (ev : FsmEvent) : M () :=
  from ← gets mc_state;
  match from with
  | Idle => handle_idle ev
  | Connecting => handle_connecting ev
  | Authenticating => handle_authenticating ev
  | Resubscribing => handle_resubscribing ev
  | Open => handle_open ev
  | BackingOff => handle_backing_off ev
  | Closing => handle_closing ev
  | Closed => mret tt
  | Failed => handle_failed ev
  end.

(** ** Timers: [next_timer_due], [pop_timer_for_event] *)

Definition consider (earliest : option (MonotonicInstant * FsmEvent))
  (due : option MonotonicInstant) (ev : FsmEvent)
  : option (MonotonicInstant * FsmEvent) :=
  match due with
  | None => earliest
  | Some d =>
      match earliest with
      | Some (curr, _) => if d <? curr then Some (d, ev) else earliest
      | None => Some (d, ev)
      end
  end.

(** The iteration order of a per-entry map is unspecified in the source. *)
Definition consider_entries (mk : ChannelName → option Symbol → FsmEvent)
  (entries : list (SubKey * MonotonicInstant))
  (earliest : option (MonotonicInstant * FsmEvent)) :=
  fold_left (λ e x, consider e (Some x.2) (mk x.1.1 x.1.2)) entries earliest.

Definition next_timer_due (m : ManagedConnection)
  : option (MonotonicInstant * FsmEvent) :=
  let t := mc_timers m in
  let e := consider None (tm_backoff_due_at t) TimerBackoffElapsed in
  let e := consider e (tm_upgrade_timeout_due_at t) TimerUpgradeTimeout in
  let e := consider e (tm_staleness_due_at t) TimerStalenessElapsed in
  let e := consider e (tm_close_timeout_due_at t) TimerCloseTimeout in
  let e := consider e (tm_rate_budget_window_advanced_at t)
             TimerRateBudgetWindowAdvanced in
  let e := consider e (tm_token_refresh_due_at t) TimerTokenRefreshDue in
  let e := consider_entries TimerSubscribeAckTimeout
             (map_to_list (tm_per_entry_subscribe_ack_timeouts t)) e in
  let e := consider_entries TimerSubscribeResendDue
             (map_to_list (tm_per_entry_subscribe_resend_due t)) e in
  consider_entries TimerBookReseedSnapshot
    (map_to_list (tm_per_entry_book_reseed_snapshot t)) e.

Definition pop_timer_for_event (ev : FsmEvent) : M () :=
  match ev with
  | TimerBackoffElapsed => modify_timers (set_tm_backoff_due_at None)
  | TimerUpgradeTimeout => modify_timers (set_tm_upgrade_timeout_due_at None)
  | TimerStalenessElapsed => modify_timers (set_tm_staleness_due_at None)
  | TimerCloseTimeout => modify_timers (set_tm_close_timeout_due_at None)
  | TimerRateBudgetWindowAdvanced =>
      modify_timers (set_tm_rate_budget_window_advanced_at None)
  | TimerTokenRefreshDue => modify_timers (set_tm_token_refresh_due_at None)
  | TimerSubscribeAckTimeout channel pr =>
      modify_timers (λ t, set_tm_per_entry_subscribe_ack_timeouts
        (delete (channel, pr) (tm_per_entry_subscribe_ack_timeouts t)) t)
  | TimerSubscribeResendDue channel pr =>
      modify_timers (λ t, set_tm_per_entry_subscribe_resend_due
        (delete (channel, pr) (tm_per_entry_subscribe_resend_due t)) t)
  | TimerBookReseedSnapshot channel pr =>
      modify_timers (λ t, set_tm_per_entry_book_reseed_snapshot
        (delete (channel, pr) (tm_per_entry_book_reseed_snapshot t)) t)
  | _ => mret tt
  end.

(** One reactor step: the timer of the event is popped, then the event is
    handled. *)
Definition reactor_step (ev : FsmEvent) : M () :=
  pop_timer_for_event ev;; handle_event ev.

End Fsm.
