(* ===== verification/ConnectionWp.v ===== *)
(** * ConnectionWp: weakest preconditions for connection programs

    A transition's effect on the connection and on the list of effects, with
    the clock, the jitter source, the rate budget and socket identities left
    arbitrary.  The rules are syntax directed; the tactic [wp_run] applies them
    until only conditions on the final connection and effects remain. *)

From Stdlib Require Import String.
From stdpp Require Import sorting.
From S2P Require Import Prelude F64 Types Events Errors Knobs RateBudget Connection.
Local Open Scope N_scope.

Definition Post (A : Type) : Type := A → ManagedConnection → list FsmEffect → Prop.

Definition wp {A} (m : M A) (Q : Post A) (mc : ManagedConnection)
  (effs : list FsmEffect) : Prop :=
  ∀ w, w_mc w = mc → w_effects w = effs →
       Q (m w).1 (w_mc (m w).2) (w_effects (m w).2).

Section Rules.
Context {A B : Type}.
Implicit Types (Q : Post A) (mc : ManagedConnection) (effs : list FsmEffect).

Lemma wp_ret (a : A) Q mc effs : Q a mc effs → wp (mret a) Q mc effs.
Proof. by intros H w <- <-. Qed.

Lemma wp_bind (m : M B) (k : B → M A) Q mc effs :
  wp m (λ b, wp (k b) Q) mc effs → wp (mbind k m) Q mc effs.
Proof.
  intros H w Hm He. specialize (H w Hm He). unfold mbind, M_bind.
  destruct (m w) as [b w']. by apply H.
Qed.

Lemma wp_gets (f : ManagedConnection → A) Q mc effs :
  Q (f mc) mc effs → wp (gets f) Q mc effs.
Proof. by intros H w <- <-. Qed.

Lemma wp_mono (m : M A) Q Q' mc effs :
  wp m Q mc effs → (∀ a mc' effs', Q a mc' effs' → Q' a mc' effs') → wp m Q' mc effs.
Proof. intros H HQ w Hm He. by apply HQ, H. Qed.
End Rules.

Lemma wp_modify f (Q : Post ()) mc effs :
  Q tt (f mc) effs → wp (modify f) Q mc effs.
Proof. by intros H w <- <-. Qed.

Lemma wp_modify_timers f (Q : Post ()) mc effs :
  Q tt (set_mc_timers (f (mc_timers mc)) mc) effs → wp (modify_timers f) Q mc effs.
Proof. by intros H w <- <-. Qed.

Lemma wp_effect e (Q : Post ()) mc effs :
  Q tt mc (effs ++ [e]) → wp (effect e) Q mc effs.
Proof. by intros H w <- <-. Qed.

Lemma wp_clock_now env (Q : Post MonotonicInstant) mc effs :
  (∀ t, Q t mc effs) → wp (clock_now env) Q mc effs.
Proof. intros H w <- <-. apply H. Qed.

Lemma wp_system_now env (Q : Post MonotonicInstant) mc effs :
  (∀ t, Q t mc effs) → wp (system_now env) Q mc effs.
Proof. intros H w <- <-. apply H. Qed.

Lemma wp_next_unit env (Q : Post f64) mc effs :
  (∀ u, Q u mc effs) → wp (next_unit env) Q mc effs.
Proof. intros H w <- <-. apply H. Qed.

Lemma wp_budget now (Q : Post (ConnectionRateThrottled + unit)) mc effs :
  (∀ r, Q r mc effs) → wp (budget_try_consume now) Q mc effs.
Proof.
  intros H w <- <-. unfold budget_try_consume. destruct (try_consume now (w_budget w)).
  apply H.
Qed.

Lemma wp_window_seconds (Q : Post N) mc effs :
  (∀ n, Q n mc effs) → wp budget_window_seconds Q mc effs.
Proof. intros H w <- <-. apply H. Qed.

Lemma wp_open_socket url (Q : Post N) mc effs :
  (∀ id, Q id mc (effs ++ [OpenSocket url id])) → wp (open_socket url) Q mc effs.
Proof. intros H w <- <-. apply H. Qed.

Lemma wp_emit env et p rid (Q : Post ()) mc effs :
  (∀ t, Q tt mc (effs ++ [Publish (mkEnvelope et 1 t rid p)])) →
  wp (emit_lifecycle env et p rid) Q mc effs.
Proof. intros H. apply wp_bind, wp_clock_now. intros t. by apply wp_effect. Qed.

Lemma wp_when b m (Q : Post ()) mc effs :
  (if b : bool then wp m Q mc effs else Q tt mc effs) → wp (when b m) Q mc effs.
Proof. destruct b; [done|apply wp_ret]. Qed.

(** A loop whose body only emits: [R a d] relates an element to what it adds. *)
Lemma wp_for_each {A} (R : A → list FsmEffect → Prop) (f : A → M ()) (l : list A)
  (Q : Post ()) mc effs :
  (∀ a mc' effs' (Q' : Post ()), (∀ d, R a d → Q' tt mc' (effs' ++ d)) →
     wp (f a) Q' mc' effs') →
  (∀ ds, Forall2 R l ds → Q tt mc (effs ++ concat ds)) →
  wp (for_each f l) Q mc effs.
Proof.
  intros Hf. revert effs. induction l as [|a l IH]; intros effs HQ; simpl.
  - apply wp_ret. specialize (HQ [] ltac:(constructor)). by rewrite app_nil_r in HQ.
  - apply wp_bind, Hf. intros d Hd. apply IH. intros ds Hds.
    specialize (HQ (d :: ds) ltac:(by constructor)). by rewrite <-app_assoc.
Qed.

(** ** Draining *)

(** What draining one request adds: the caller's future is resolved, then the
    failure event is published. *)
Definition drained (c : DrainCause) (p : PendingRequest) (d : list FsmEffect) : Prop :=
  ∃ t, d = [ResolveErr (pr_req_id p) (drain_resolve c).1;
            Publish (mkEnvelope WsRequestFailedEvent 1 t None
              (PWsRequestFailed (pr_req_id p) (pr_op p) (drain_resolve c).2))].

(** What draining a map adds, in request-id order. *)
Definition drain_trace (c : DrainCause) (m : gmap N PendingRequest)
  (d : list FsmEffect) : Prop :=
  ∃ ds, Forall2 (drained c) (pending_sorted m) ds ∧ d = concat ds.

Lemma drain_trace_empty c : drain_trace c ∅ [].
Proof. exists []. by split; [vm_compute; constructor|]. Qed.

Lemma set_pending_same mc :
  mc_pending_requests mc = ∅ → set_mc_pending_requests ∅ mc = mc.
Proof. destruct mc. simpl. by intros ->. Qed.

Lemma wp_drain env c (Q : Post ()) mc effs :
  (∀ d, drain_trace c (mc_pending_requests mc) d →
        Q tt (set_mc_pending_requests ∅ mc) (effs ++ d)) →
  wp (drain env c) Q mc effs.
Proof.
  intros H. unfold drain. apply wp_bind, wp_gets.
  destruct (decide (mc_pending_requests mc = ∅)) as [He|].
  - apply wp_ret. rewrite <-(set_pending_same mc He), <-(app_nil_r effs).
    apply H. rewrite He. apply drain_trace_empty.
  - apply wp_bind, wp_modify, (wp_for_each (drained c)).
    + intros p mc' effs' Q' HQ'. unfold drain_one.
      rewrite (surjective_pairing (drain_resolve c)).
      apply wp_bind, wp_effect, wp_emit. intros t. rewrite <-app_assoc.
      apply HQ'. by exists t.
    + intros ds Hds. apply H. by exists ds.
Qed.

(** ** Answers to waiters *)

(** [d] is exactly one envelope of type [et] per request id, in order. *)
Definition answered (et : EventType) (rids : list N) (d : list FsmEffect) : Prop :=
  Forall2 (λ rid e, ∃ t p, e = Publish (mkEnvelope et 1 t (Some rid) p)) rids d.

Lemma answered_singletons et (rids : list N) ds :
  Forall2 (λ rid d, ∃ t p, d = [Publish (mkEnvelope et 1 t (Some rid) p)]) rids ds →
  answered et rids (concat ds).
Proof.
  induction 1 as [|rid d rids ds (t & p & ->) _ IH]; [constructor|].
  simpl. constructor; [by eexists _, _|done].
Qed.

Definition open_event (is_reopen : bool) : EventType :=
  if is_reopen then ConnectionReopenedEvent else ConnectionOpenEvent.

Lemma wp_emit_open env r n rid (Q : Post ()) mc effs :
  (∀ t p, Q tt mc (effs ++ [Publish (mkEnvelope (open_event r) 1 t rid p)])) →
  wp (emit_open_or_reopened env r n rid) Q mc effs.
Proof.
  intros H. unfold emit_open_or_reopened.
  apply wp_bind, wp_gets, wp_bind, wp_clock_now. intros t.
  destruct r; [apply wp_emit; intros; apply H|].
  apply wp_bind, wp_gets, wp_emit. intros; apply H.
Qed.

(** Every connect waiter is answered; with none, one broadcast goes out. *)
Definition open_trace (r : bool) (primary : option N) (cohort : list N)
  (d : list FsmEffect) : Prop :=
  ∃ t p d', d = Publish (mkEnvelope (open_event r) 1 t primary p) :: d' ∧
            answered (open_event r) cohort d'.

Definition failed_trace (primary : option N) (cohort : list N) (d : list FsmEffect)
  : Prop :=
  match option_list primary ++ cohort with
  | [] => ∃ t p, d = [Publish (mkEnvelope ConnectionFailedEvent 1 t None p)]
  | rids => answered ConnectionFailedEvent rids d
  end.

Lemma wp_emit_each env et p rids (Q : Post ()) mc effs :
  (∀ d, answered et rids d → Q tt mc (effs ++ d)) →
  wp (for_each (λ rid, emit_lifecycle env et p (Some rid)) rids) Q mc effs.
Proof.
  intros H. eapply (wp_for_each (λ rid d, ∃ t q, d = [Publish (mkEnvelope et 1 t (Some rid) q)])).
  - intros rid mc' effs' Q' HQ'. apply wp_emit. intros t. apply HQ'. by eexists _, _.
  - intros ds Hds. by apply H, answered_singletons.
Qed.

Lemma wp_emit_failed env s tr c (Q : Post ()) mc effs :
  (∀ d, failed_trace (mc_pending_connect_request_id mc)
          (mc_additional_connect_request_ids mc) d →
     Q tt (set_mc_additional_connect_request_ids []
             (set_mc_pending_connect_request_id None mc)) (effs ++ d)) →
  wp (emit_connection_failed env s tr c) Q mc effs.
Proof.
  intros H. unfold emit_connection_failed.
  do 2 (apply wp_bind, wp_gets, wp_bind, wp_modify).
  do 2 (apply wp_bind, wp_gets).
  cbn [mc_additional_connect_request_ids set_mc_pending_connect_request_id].
  unfold failed_trace in H.
  destruct (mc_pending_connect_request_id mc) as [rid|];
    [apply wp_emit_each; exact H|].
  destruct (mc_additional_connect_request_ids mc) as [|rid rids];
    [|apply wp_emit_each; exact H].
  apply wp_emit. intros t. apply H. by eexists _, _.
Qed.

(** The connection just opened. *)
Definition opened (s : StalenessMonitor) (due : option MonotonicInstant)
  (mc : ManagedConnection) : ManagedConnection :=
  set_mc_additional_connect_request_ids []
    (set_mc_pending_connect_request_id None
      (set_mc_timers (set_tm_staleness_due_at due (mc_timers mc))
        (set_mc_staleness_monitor s
          (set_mc_state Open (set_mc_has_been_open true (set_mc_attempt_count 0 mc)))))).

Lemma wp_arm_staleness env (Q : Post ()) mc effs :
  (∀ t, let win := staleness_window_ms (env_knobs env) in
        Q tt (set_mc_timers
                (set_tm_staleness_due_at (Some (t + from_millis win)) (mc_timers mc))
                (set_mc_staleness_monitor (mkStaleness win (Some t) true) mc)) effs) →
  wp (arm_staleness env) Q mc effs.
Proof.
  intros H. unfold arm_staleness.
  apply wp_bind, wp_modify, wp_bind, wp_clock_now. intros t.
  apply wp_bind, wp_modify, wp_modify. destruct mc. apply (H t).
Qed.

Lemma wp_enter_open env (Q : Post ()) mc effs :
  (∀ t d, let win := staleness_window_ms (env_knobs env) in
     open_trace (mc_has_been_open mc) (mc_pending_connect_request_id mc)
       (mc_additional_connect_request_ids mc) d →
     Q tt (opened (mkStaleness win (Some t) true) (Some (t + from_millis win)) mc)
       (effs ++ d)) →
  wp (enter_open env) Q mc effs.
Proof.
  intros H. unfold enter_open.
  do 2 apply wp_bind, wp_gets. do 3 apply wp_bind, wp_modify.
  apply wp_bind, wp_arm_staleness. intros t.
  do 2 (apply wp_bind, wp_gets, wp_bind, wp_modify).
  apply wp_bind, wp_emit_open. intros t' p.
  eapply (wp_for_each (λ rid d, ∃ t q,
    d = [Publish (mkEnvelope (open_event (mc_has_been_open mc)) 1 t (Some rid) q)])).
  - intros rid mc' effs' Q' HQ'. apply wp_emit_open. intros. apply HQ'. by eexists _, _.
  - intros ds Hds. rewrite <-app_assoc. apply (H t).
    eexists _, _, _. split; [done|]. apply answered_singletons, Hds.
Qed.

(** ** Subscription bookkeeping, with the request-id maps left arbitrary *)

Lemma wp_forget key (Q : Post ()) mc effs :
  (∀ pend by_key, Q tt (set_mc_pending_subscribe_req_ids pend
                          (set_mc_subscribe_req_id_by_key by_key mc)) effs) →
  wp (forget_subscribe_req_id_for_key key) Q mc effs.
Proof.
  intros H. apply wp_modify.
  destruct (mc_subscribe_req_id_by_key mc !! key); [apply H|].
  pose proof (H (mc_pending_subscribe_req_ids mc) (mc_subscribe_req_id_by_key mc)) as H'.
  by destruct mc.
Qed.

Lemma wp_remove_ack_timers key (Q : Post ()) mc effs :
  Q tt (set_mc_timers
          (set_tm_per_entry_subscribe_resend_due
             (delete key (tm_per_entry_subscribe_resend_due (mc_timers mc)))
             (set_tm_per_entry_subscribe_ack_timeouts
                (delete key (tm_per_entry_subscribe_ack_timeouts (mc_timers mc)))
                (mc_timers mc))) mc) effs →
  wp (remove_ack_timers key) Q mc effs.
Proof. intros H. apply wp_bind, wp_modify_timers, wp_modify_timers. by destruct mc, mc_timers. Qed.

(** A connection with no subscription state. *)
Definition cleared (mc : ManagedConnection) : ManagedConnection :=
  set_mc_awaiting_token_refresh false
    (set_mc_deferred_open_auth_subscribes []
      (set_mc_subscribe_req_id_by_key ∅
        (set_mc_pending_subscribe_req_ids ∅
          (set_mc_subscribe_ack_attempts ∅
            (set_mc_timers
              (set_tm_per_entry_book_reseed_snapshot ∅
                (set_tm_per_entry_subscribe_resend_due ∅
                  (set_tm_per_entry_subscribe_ack_timeouts ∅ (mc_timers mc)))) mc))))).

Lemma wp_clear (Q : Post ()) mc effs :
  Q tt (cleared mc) effs → wp clear_subscribe_ack_state Q mc effs.
Proof.
  intros H. unfold clear_subscribe_ack_state.
  do 2 apply wp_bind, wp_modify_timers. do 3 apply wp_bind, wp_modify.
  apply wp_bind, wp_modify_timers, wp_bind, wp_modify, wp_modify.
  destruct mc as [????????? ? tm]; destruct tm; exact H.
Qed.

Lemma wp_complete env (Q : Post ()) mc effs :
  (mc_state mc = Resubscribing → wp (enter_open env) Q mc effs) → Q tt mc effs →
  wp (complete_resubscribe_if_empty env) Q mc effs.
Proof.
  intros Ho Hs. apply wp_bind, wp_gets, wp_when.
  destruct (_ && _) eqn:E; [|done].
  apply andb_true_iff in E as [[E _]%andb_true_iff _].
  apply bool_decide_eq_true in E. auto.
Qed.
