(* ===== verification/ConnectionInv.v ===== *)
(** * ConnectionInv: what every reachable connection satisfies

    The invariant of the connection state machine, the operations the reactor
    performs on a connection, and the proof that each of them preserves the
    invariant. *)

From Stdlib Require Import String.
From S2P Require Import Prelude F64 Types Events Errors Knobs RateBudget Connection.
From S2P Require Import ConnectionWp.
Local Open Scope N_scope.

(** Compute projections of updated connections, and nothing else. *)
Ltac mc_simpl_in_goal :=
  cbn [
    mc_url set_mc_url mc_state set_mc_state mc_attempt_count
    set_mc_attempt_count mc_auth_handshake_fail_count
    set_mc_auth_handshake_fail_count mc_has_been_open
    set_mc_has_been_open mc_awaiting_token_refresh
    set_mc_awaiting_token_refresh mc_server_connection_id
    set_mc_server_connection_id mc_socket set_mc_socket
    mc_pending_requests set_mc_pending_requests mc_staleness_monitor
    set_mc_staleness_monitor mc_timers set_mc_timers
    mc_subscribe_ack_attempts set_mc_subscribe_ack_attempts
    mc_pending_connect_request_id set_mc_pending_connect_request_id
    mc_pending_close_request_id set_mc_pending_close_request_id
    mc_pending_reconnect_request_id set_mc_pending_reconnect_request_id
    mc_additional_close_request_ids set_mc_additional_close_request_ids
    mc_additional_connect_request_ids
    set_mc_additional_connect_request_ids
    mc_deferred_open_auth_subscribes
    set_mc_deferred_open_auth_subscribes mc_next_subscribe_req_id
    set_mc_next_subscribe_req_id mc_pending_subscribe_req_ids
    set_mc_pending_subscribe_req_ids mc_subscribe_req_id_by_key
    set_mc_subscribe_req_id_by_key tm_backoff_due_at
    set_tm_backoff_due_at tm_upgrade_timeout_due_at
    set_tm_upgrade_timeout_due_at tm_staleness_due_at
    set_tm_staleness_due_at tm_close_timeout_due_at
    set_tm_close_timeout_due_at tm_rate_budget_window_advanced_at
    set_tm_rate_budget_window_advanced_at
    tm_per_entry_subscribe_ack_timeouts
    set_tm_per_entry_subscribe_ack_timeouts
    tm_per_entry_subscribe_resend_due
    set_tm_per_entry_subscribe_resend_due
    tm_per_entry_book_reseed_snapshot
    set_tm_per_entry_book_reseed_snapshot tm_token_refresh_due_at
    set_tm_token_refresh_due_at sm_window_ms sm_last_inbound_at sm_armed
    staleness_disarm staleness_new staleness_arm opened cleared].
Ltac mc_simpl_in_all :=
  cbn [
    mc_url set_mc_url mc_state set_mc_state mc_attempt_count
    set_mc_attempt_count mc_auth_handshake_fail_count
    set_mc_auth_handshake_fail_count mc_has_been_open
    set_mc_has_been_open mc_awaiting_token_refresh
    set_mc_awaiting_token_refresh mc_server_connection_id
    set_mc_server_connection_id mc_socket set_mc_socket
    mc_pending_requests set_mc_pending_requests mc_staleness_monitor
    set_mc_staleness_monitor mc_timers set_mc_timers
    mc_subscribe_ack_attempts set_mc_subscribe_ack_attempts
    mc_pending_connect_request_id set_mc_pending_connect_request_id
    mc_pending_close_request_id set_mc_pending_close_request_id
    mc_pending_reconnect_request_id set_mc_pending_reconnect_request_id
    mc_additional_close_request_ids set_mc_additional_close_request_ids
    mc_additional_connect_request_ids
    set_mc_additional_connect_request_ids
    mc_deferred_open_auth_subscribes
    set_mc_deferred_open_auth_subscribes mc_next_subscribe_req_id
    set_mc_next_subscribe_req_id mc_pending_subscribe_req_ids
    set_mc_pending_subscribe_req_ids mc_subscribe_req_id_by_key
    set_mc_subscribe_req_id_by_key tm_backoff_due_at
    set_tm_backoff_due_at tm_upgrade_timeout_due_at
    set_tm_upgrade_timeout_due_at tm_staleness_due_at
    set_tm_staleness_due_at tm_close_timeout_due_at
    set_tm_close_timeout_due_at tm_rate_budget_window_advanced_at
    set_tm_rate_budget_window_advanced_at
    tm_per_entry_subscribe_ack_timeouts
    set_tm_per_entry_subscribe_ack_timeouts
    tm_per_entry_subscribe_resend_due
    set_tm_per_entry_subscribe_resend_due
    tm_per_entry_book_reseed_snapshot
    set_tm_per_entry_book_reseed_snapshot tm_token_refresh_due_at
    set_tm_token_refresh_due_at sm_window_ms sm_last_inbound_at sm_armed
    staleness_disarm staleness_new staleness_arm opened cleared] in *.

(** ** Running programs *)

Ltac wp_head t :=
  lazymatch t with ?f _ => wp_head f | ?f => f end.

Ltac wp_step :=
  lazymatch goal with
  | |- wp (mbind _ _) _ _ _ => apply wp_bind
  | |- wp (mret _) _ _ _ => apply wp_ret
  | |- wp (gets _) _ _ _ => apply wp_gets
  | |- wp (modify _) _ _ _ => apply wp_modify
  | |- wp (modify_timers _) _ _ _ => apply wp_modify_timers
  | |- wp (effect _) _ _ _ => apply wp_effect
  | |- wp (clock_now _) _ _ _ => apply wp_clock_now; intros ?
  | |- wp (system_now _) _ _ _ => apply wp_system_now; intros ?
  | |- wp (next_unit _) _ _ _ => apply wp_next_unit; intros ?
  | |- wp (budget_try_consume _) _ _ _ => apply wp_budget; intros [?|?]
  | |- wp budget_window_seconds _ _ _ => apply wp_window_seconds; intros ?
  | |- wp (open_socket _) _ _ _ => apply wp_open_socket; intros ?
  | |- wp (emit_lifecycle _ _ _ _) _ _ _ => apply wp_emit; intros ?
  | |- wp (for_each _ _) _ _ _ => apply wp_emit_each; intros ? ?
  | |- wp (drain _ _) _ _ _ => apply wp_drain; intros ? ?
  | |- wp (emit_connection_failed _ _ _ _) _ _ _ => apply wp_emit_failed; intros ? ?
  | |- wp (enter_open _) _ _ _ => apply wp_enter_open; intros ? ? ? ?
  | |- wp (arm_staleness _) _ _ _ => apply wp_arm_staleness; intros ? ?
  | |- wp (when _ _) _ _ _ => apply wp_when
  | |- wp (forget_subscribe_req_id_for_key _) _ _ _ => apply wp_forget; intros ? ?
  | |- wp (remove_ack_timers _) _ _ _ => apply wp_remove_ack_timers
  | |- wp clear_subscribe_ack_state _ _ _ => apply wp_clear
  | |- wp (complete_resubscribe_if_empty _) _ _ _ =>
      apply wp_complete;
      [let Hr := fresh "Hr" in intros Hr; simpl in Hr; try (exfalso; congruence)|]
  | H : ?x = _ |- wp (match ?x with _ => _ end) _ _ _ => rewrite H; cbv iota
  | |- wp (match ?x with _ => _ end) _ _ _ =>
      destruct x eqn:?; cbv iota; try (exfalso; congruence)
  | H : ?x = _ |- (match ?x with _ => _ end) => rewrite H; cbv iota
  | |- (match ?x with _ => _ end) => destruct x eqn:?; cbv iota
  | |- wp ?m _ _ _ => let h := wp_head m in unfold h
  end; mc_simpl_in_goal; cbn [negb]; cbv beta zeta.

Ltac wp_run := repeat wp_step.

(** ** The invariant *)

Definition has_socket (s : ConnectionState) : bool :=
  match s with
  | Connecting | Authenticating | Resubscribing | Open | Closing => true
  | _ => false
  end.

(** A session: past the upgrade and not being closed. *)
Definition in_session (s : ConnectionState) : bool :=
  match s with Authenticating | Resubscribing | Open => true | _ => false end.

Definition some {A} (o : option A) : bool := match o with Some _ => true | None => false end.

Definition is_connecting (s : ConnectionState) : bool :=
  match s with Connecting => true | _ => false end.
Definition is_closing (s : ConnectionState) : bool :=
  match s with Closing => true | _ => false end.
Definition is_settled (s : ConnectionState) : bool :=
  match s with Idle | Open | Failed => true | _ => false end.

(** What must hold of a connection in state [s]:
    a socket is held exactly while one is needed, the upgrade timer runs while
    connecting, the close timer exactly while closing, the staleness watchdog exactly
    during a session, and a backing-off connection always has a timer that will move it
    on; requests are pending and waiters are latched only where something will resolve
    them.  Subscriptions may be tracked in any state: a public subscription registered
    before the upgrade is sent on the connecting socket. *)
Definition wf_at (s : ConnectionState) (m : ManagedConnection) : Prop :=
  let t := mc_timers m in
  some (mc_socket m) = has_socket s ∧
  (if is_connecting s then some (tm_upgrade_timeout_due_at t) = true else True) ∧
  some (tm_close_timeout_due_at t) = is_closing s ∧
  some (tm_staleness_due_at t) = in_session s ∧
  sm_armed (mc_staleness_monitor m) = in_session s ∧
  (if s is BackingOff
   then some (tm_backoff_due_at t) || some (tm_rate_budget_window_advanced_at t) = true
   else True) ∧
  (if in_session s || is_closing s then True else mc_pending_requests m = ∅) ∧
  (if s is Authenticating then mc_url m = Auth else True) ∧
  (if is_closing s
   then some (mc_pending_close_request_id m) || some (mc_pending_reconnect_request_id m)
          = true ∧
        (mc_additional_close_request_ids m = [] ∨
         some (mc_pending_close_request_id m) = true)
   else mc_pending_close_request_id m = None ∧ mc_additional_close_request_ids m = [] ∧
        mc_pending_reconnect_request_id m = None) ∧
  (if is_settled s
   then mc_pending_connect_request_id m = None ∧ mc_additional_connect_request_ids m = []
   else True).

Definition mc_wf (m : ManagedConnection) : Prop := wf_at (mc_state m) m.

(** The requests are stored under their ids. *)
Definition pending_keyed (m : ManagedConnection) : Prop :=
  map_Forall (λ k p, pr_req_id p = k) (mc_pending_requests m).

Definition conn_inv (m : ManagedConnection) : Prop := mc_wf m ∧ pending_keyed m.

Lemma mc_new_inv env url : conn_inv (mc_new env url).
Proof. split; [unfold mc_wf, wf_at; by split_and!|apply map_Forall_empty]. Qed.

(** ** The abstract machine

    The states each event may lead to; a state not listed for an event stays. *)

Definition spec_next (s : ConnectionState) (ev : FsmEvent) : list ConnectionState :=
  match s, ev with
  | Idle, (CallStartConnect _ | CallForceReconnect _) => [Connecting; BackingOff]
  | Idle, CallClose _ => [Closed]
  | Connecting, WireUpgradeOk _ => [Resubscribing; Authenticating]
  | Connecting, (WireUpgradeFailed _ | WireConnectError _ _ | TimerUpgradeTimeout) =>
      [BackingOff; Failed]
  | Connecting, CallClose _ => [Closing]
  | Authenticating, WireAuthHandshakeOk => [Resubscribing]
  | Authenticating, WireOrderAuthOk => [Open]
  | Authenticating, WireAuthHandshakeFailed KTokenStale => [Authenticating; Failed]
  | Authenticating, WireAuthHandshakeFailed (KBadCreds | KPermissionDenied) => [Failed]
  | Authenticating, TimerSubscribeAckTimeout _ _ => [Authenticating; BackingOff]
  | Resubscribing, WireSubscribeAck _ _ last => if last then [Open] else [Resubscribing]
  | Resubscribing, TimerSubscribeAckTimeout _ _ => [Resubscribing; BackingOff]
  | Resubscribing, WireSubscribeFailed _ _ _ => [Resubscribing; Open; BackingOff]
  | Open, (TimerSubscribeAckTimeout _ _ | WireSubscribeFailed _ _ _) =>
      [Open; BackingOff; Failed]
  | Authenticating, (WireAuthHandshakeFailed KTransient | BusTokenRefreshFailed _ _)
  | (Authenticating | Resubscribing | Open),
    (WireCloseReceived _ _ | WireAbnormalClose _ _ | TimerStalenessElapsed) =>
      [BackingOff; Failed]
  | (Authenticating | Resubscribing | Open), (CallClose _ | CallForceReconnect _) =>
      [Closing]
  | BackingOff, (TimerBackoffElapsed | TimerRateBudgetWindowAdvanced
                 | CallForceReconnect _) => [Connecting; BackingOff]
  | BackingOff, CallClose _ => [Closed]
  | Closing, (WireCloseReceived _ _ | WireAbnormalClose _ _ | TimerCloseTimeout) =>
      [Closed; Connecting; BackingOff]
  | Failed, CallForceReconnect _ => [Connecting; BackingOff]
  | Failed, CallClose _ => [Closed]
  | s, _ => [s]
  end.

(** ** Every event preserves the invariant and follows the abstract machine *)

Definition step_ok (s : ConnectionState) (ev : FsmEvent) : Post () :=
  λ _ mc _, conn_inv mc ∧ mc_state mc ∈ spec_next s ev.

(** [wf_at] at a concrete state: only the conditions of that state. *)
Ltac wf_compute H :=
  unfold wf_at in H; cbn [has_socket in_session is_closing is_connecting is_settled orb] in H;
  cbv zeta iota in H; destruct_and? H.

Ltac wf_atom :=
  first
    [ exact I | assumption | reflexivity
    | match goal with H : ?x = _ |- context [?x] =>
        rewrite H; first [reflexivity | apply delete_empty] end
    | match goal with H : ?x = Some _ |- context [?x] =>
        rewrite H; first [reflexivity | right; reflexivity] end
    | apply orb_true_r | by left | by right | by intuition congruence ].

(** Close [conn_inv] of an updated connection [m] known to be in a state. *)
Ltac inv_of Hi Hs :=
  match type of Hs with mc_state ?m = _ =>
    let Hwf := fresh "Hwf" in let Hk := fresh "Hk" in
    destruct Hi as [Hwf Hk];
    unfold mc_wf in Hwf; rewrite Hs in Hwf; wf_compute Hwf;
    unfold pending_keyed in Hk; unfold conn_inv, mc_wf, pending_keyed;
    mc_simpl_in_goal; rewrite ?Hs;
    repeat match goal with
      | |- context [match ?x with _ => _ end] => destruct x eqn:? end;
    mc_simpl_in_goal; rewrite ?Hs; cbv iota;
    (split;
    [ unfold wf_at; mc_simpl_in_goal;
      cbn [has_socket in_session is_closing is_connecting is_settled orb some];
      cbv zeta iota; split_and!; wf_atom
    | first [ assumption | apply map_Forall_empty | by apply map_Forall_delete
            | by apply map_Forall_insert_2 ] ])
  end.

Ltac step_ok_solve :=
  match goal with
  | Hi : conn_inv ?m, Hs : mc_state ?m = _ |- step_ok _ _ _ _ _ =>
      unfold step_ok; split;
      [ inv_of Hi Hs
      | mc_simpl_in_goal; rewrite ?Hs;
        repeat match goal with
          | |- context [match ?x with _ => _ end] => destruct x eqn:? end;
        mc_simpl_in_goal; rewrite ?Hs; cbn;
        repeat first [apply list_elem_of_here | apply list_elem_of_further] ]
  end.

Ltac step_solve := intros Hwf Hs; match goal with ev : FsmEvent |- _ => destruct ev end;
  wp_run; step_ok_solve.

Lemma step_idle env ev mc effs :
  conn_inv mc → mc_state mc = Idle → wp (reactor_step env ev) (step_ok Idle ev) mc effs.
Proof. step_solve. Qed.

Lemma step_connecting env ev mc effs :
  conn_inv mc → mc_state mc = Connecting →
  wp (reactor_step env ev) (step_ok Connecting ev) mc effs.
Proof. step_solve. Qed.

Lemma step_authenticating env ev mc effs :
  conn_inv mc → mc_state mc = Authenticating →
  wp (reactor_step env ev) (step_ok Authenticating ev) mc effs.
Proof. step_solve. Qed.

Lemma step_resubscribing env ev mc effs :
  conn_inv mc → mc_state mc = Resubscribing →
  wp (reactor_step env ev) (step_ok Resubscribing ev) mc effs.
Proof. step_solve. Qed.

Lemma step_open env ev mc effs :
  conn_inv mc → mc_state mc = Open →
  wp (reactor_step env ev) (step_ok Open ev) mc effs.
Proof. step_solve. Qed.

Lemma step_backing_off env ev mc effs :
  conn_inv mc → mc_state mc = BackingOff →
  wp (reactor_step env ev) (step_ok BackingOff ev) mc effs.
Proof. step_solve. Qed.

Lemma step_closing env ev mc effs :
  conn_inv mc → mc_state mc = Closing →
  wp (reactor_step env ev) (step_ok Closing ev) mc effs.
Proof. step_solve. Qed.

Lemma step_closed env ev mc effs :
  conn_inv mc → mc_state mc = Closed →
  wp (reactor_step env ev) (step_ok Closed ev) mc effs.
Proof. step_solve. Qed.

Lemma step_failed env ev mc effs :
  conn_inv mc → mc_state mc = Failed →
  wp (reactor_step env ev) (step_ok Failed ev) mc effs.
Proof. step_solve. Qed.

Lemma step_any env ev mc effs :
  conn_inv mc → wp (reactor_step env ev) (step_ok (mc_state mc) ev) mc effs.
Proof.
  intros Hwf. destruct (mc_state mc) eqn:Hs;
  [ by apply step_idle | by apply step_connecting | by apply step_authenticating
  | by apply step_resubscribing | by apply step_open | by apply step_backing_off
  | by apply step_closing | by apply step_closed | by apply step_failed ].
Qed.

(** ** The reactor's other operations on a connection *)

Inductive ConnOp :=
  | OpEvent (ev : FsmEvent)
  | OpInboundActivity
  | OpRecordPending (p : PendingRequest)
  | OpResolvePending (resp : WsResponse)
  | OpFailPending (req_id : N) (err : ConnectionErrorKind)
  | OpDrainOneRetryable (req_id : N)
  | OpArmSubscribeAck (key : SubKey) (due_at : MonotonicInstant)
  | OpDisarmSubscribeAck (key : SubKey)
  | OpArmBookReseed (key : SubKey) (due_at : MonotonicInstant)
  | OpDisarmBookReseed (key : SubKey)
  | OpTakeSubscribeReqId
  | OpRecordSubscribeReqId (req_id : N) (key : SubKey)
  | OpSubscribeFailure (key : SubKey) (transient : bool) (last_error : option string)
  | OpCompleteResubscribe
  | OpDeferAuthSubscribe (key : SubKey) (params : SubscribeParams)
  | OpRemoveDeferred (key : SubKey)
  | OpDrainDeferred
  | OpSetAwaitingTokenRefresh (v : bool)
  | OpArmTokenRefresh (due : MonotonicInstant)
  | OpDisarmTokenRefresh.

Definition run_op (env : Env) (op : ConnOp) : M () :=
  match op with
  | OpEvent ev => reactor_step env ev
  | OpInboundActivity => note_inbound_activity env
  | OpRecordPending p => record_pending_request p
  | OpResolvePending resp => resolve_pending_request resp
  | OpFailPending req_id err => fail_pending_request req_id err
  | OpDrainOneRetryable req_id => drain_one_retryable env req_id
  | OpArmSubscribeAck key due => arm_subscribe_ack env key due
  | OpDisarmSubscribeAck key => disarm_subscribe_ack key
  | OpArmBookReseed key due => arm_book_reseed_snapshot key due
  | OpDisarmBookReseed key => disarm_book_reseed_snapshot key
  | OpTakeSubscribeReqId => take_subscribe_req_id;; mret tt
  | OpRecordSubscribeReqId req_id key => record_subscribe_req_id req_id key
  | OpSubscribeFailure key tr err => handle_subscribe_failure env key tr err
  | OpCompleteResubscribe => complete_resubscribe_if_empty env
  | OpDeferAuthSubscribe key params => defer_open_auth_subscribe key params
  | OpRemoveDeferred key => remove_deferred_open_auth_subscribe key
  | OpDrainDeferred => drain_deferred_open_auth_subscribes;; mret tt
  | OpSetAwaitingTokenRefresh v => modify (set_mc_awaiting_token_refresh v)
  | OpArmTokenRefresh due => arm_token_refresh due
  | OpDisarmTokenRefresh => disarm_token_refresh
  end.

(** Requests are recorded only when an order may be sent, and a subscription does not
    fail while the connection closes. *)
Definition op_admitted (op : ConnOp) (m : ManagedConnection) : Prop :=
  match op with
  | OpRecordPending _ => mc_state m = Open ∨ mc_state m = Authenticating
  | OpSubscribeFailure _ _ _ => mc_state m ≠ Closing
  | _ => True
  end.

Definition keeps_inv : Post () := λ _ mc _, conn_inv mc.

Ltac inv_solve :=
  match goal with
  | Hi : conn_inv ?m, Hs : mc_state ?m = _ |- keeps_inv _ _ _ => unfold keeps_inv; inv_of Hi Hs
  end.

Lemma op_event_inv env ev mc effs :
  conn_inv mc → wp (reactor_step env ev) keeps_inv mc effs.
Proof. intros Hi. eapply wp_mono; [by apply step_any|]. by intros ??? [? _]. Qed.

Lemma op_inbound_inv env mc effs :
  conn_inv mc → wp (note_inbound_activity env) keeps_inv mc effs.
Proof.
  intros Hi. unfold note_inbound_activity. wp_run. unfold keeps_inv.
  destruct Hi as [Hwf Hk]. split; [|exact Hk].
  unfold mc_wf, wf_at in *. mc_simpl_in_goal.
  destruct Hwf as (? & ? & ? & Hst & Harm & ?).
  unfold staleness_note_inbound. rewrite Harm.
  destruct (in_session (mc_state mc)) eqn:Hin; unfold staleness_deadline;
    cbn [sm_armed]; rewrite ?Harm; split_and!; try done; tauto.
Qed.

Lemma op_pending_inv env op mc effs :
  match op with
  | OpRecordPending _ | OpResolvePending _ | OpFailPending _ _ | OpDrainOneRetryable _ =>
      True
  | _ => False
  end →
  conn_inv mc → op_admitted op mc → wp (run_op env op) keeps_inv mc effs.
Proof.
  intros Hop Hi Had. destruct op; try done; cbn [run_op op_admitted] in *.
  - destruct Had as [Hs|Hs]; wp_run; inv_solve.
  - destruct (mc_state mc) eqn:Hs; wp_run; inv_solve.
  - destruct (mc_state mc) eqn:Hs; wp_run; inv_solve.
  - destruct (mc_state mc) eqn:Hs; wp_run; inv_solve.
Qed.

Lemma op_entries_inv env op mc effs :
  match op with
  | OpEvent _ | OpInboundActivity | OpRecordPending _ | OpResolvePending _
  | OpFailPending _ _ | OpDrainOneRetryable _ => False
  | _ => True
  end →
  conn_inv mc → op_admitted op mc → wp (run_op env op) keeps_inv mc effs.
Proof.
  intros Hop Hi Had. destruct op; try done; cbn [run_op op_admitted] in *;
    clear Hop; destruct (mc_state mc) eqn:Hs; try done; wp_run.
  all: inv_solve.
Qed.

Lemma run_op_inv env op mc effs :
  conn_inv mc → op_admitted op mc → wp (run_op env op) keeps_inv mc effs.
Proof.
  intros Hi Had. destruct op;
    first [ by apply op_event_inv | by apply op_inbound_inv
          | by apply (op_pending_inv env); auto | by apply (op_entries_inv env); auto ].
Qed.

(** ** Reachability *)

(** The connections some admitted sequence of operations leads to, each run in
    some environment (the knobs may change between operations) and some state of
    the rest of the world. *)
Inductive reachable (url : WsUrl) : ManagedConnection → Prop :=
  | reach_new env : reachable url (mc_new env url)
  | reach_op env op w :
      reachable url (w_mc w) → op_admitted op (w_mc w) →
      reachable url (w_mc (run_op env op w).2).

Lemma reachable_inv url m : reachable url m → conn_inv m.
Proof.
  induction 1 as [env|env op w _ IH Had]; [apply mc_new_inv|].
  by apply (run_op_inv env op (w_mc w) (w_effects w)).
Qed.
