(* ===== verification/ConnectionTrace.v ===== *)
(** * ConnectionTrace: what a step emits and whom it answers *)

From Stdlib Require Import String.
From stdpp Require Import sorting.
From S2P Require Import Prelude F64 Types Events Errors Knobs RateBudget Connection.
From S2P Require Import ConnectionWp ConnectionInv.
Local Open Scope N_scope.

(** ** No request is forgotten; failures are reported after the requests *)

(** Envelopes that announce a change of the connection's life. *)
Definition is_lifecycle (e : EventType) : bool :=
  match e with
  | ConnectionConnectingEvent | ConnectionOpenEvent | ConnectionReopenedEvent
  | ConnectionClosedEvent | ConnectionFailedEvent | ConnectionDroppedEvent
  | ConnectionAttemptFailedEvent | ConnectionRateThrottledEvent
  | AuthenticationFailedEvent => true
  | _ => false
  end.

Definition is_resolution (e : FsmEffect) : bool :=
  match e with ResolveOk _ _ | ResolveErr _ _ | SenderDropped _ => true | _ => false end.

(** No lifecycle envelope. *)
Definition calm (l : list FsmEffect) : Prop :=
  Forall (λ e, match e with Publish v => is_lifecycle (event_type v) = false
               | _ => True end) l.

(** No request resolution. *)
Definition quiet (l : list FsmEffect) : Prop :=
  Forall (λ e, is_resolution e = false) l.

(** Every request resolution precedes every lifecycle envelope. *)
Definition drains_first (l : list FsmEffect) : Prop :=
  ∃ l1 l2, l = l1 ++ l2 ∧ calm l1 ∧ quiet l2.

Lemma drains_first_calm l : calm l → drains_first l.
Proof. intros H. exists l, []. rewrite app_nil_r. split_and!; [done|done|constructor]. Qed.

Lemma drains_first_quiet l d : drains_first l → quiet d → drains_first (l ++ d).
Proof.
  intros (l1 & l2 & -> & H1 & H2) Hd. exists l1, (l2 ++ d).
  rewrite app_assoc. split_and!; [done|done|by apply Forall_app].
Qed.

Lemma calm_app l d : calm l → calm d → calm (l ++ d).
Proof. intros. by apply Forall_app. Qed.

Lemma calm_drain c m d : drain_trace c m d → calm d.
Proof.
  intros (ds & Hds & ->). induction Hds as [|p x ps xs (t & ->) _ IH]; [constructor|].
  simpl. by repeat constructor.
Qed.

Lemma quiet_answered et rids d : answered et rids d → quiet d.
Proof. induction 1 as [|? ? ? ? (? & ? & ->) _ IH]; by constructor. Qed.

Lemma quiet_failed p c d : failed_trace p c d → quiet d.
Proof.
  unfold failed_trace. destruct (option_list p ++ c); [|apply quiet_answered].
  intros (t & q & ->). by repeat constructor.
Qed.

Lemma quiet_open r p c d : open_trace r p c d → quiet d.
Proof.
  intros (t & q & d' & -> & Ha). constructor; [done|]. by eapply quiet_answered.
Qed.

Create HintDb trace.
#[export] Hint Resolve calm_drain quiet_answered quiet_failed quiet_open : trace.

Ltac trace_atom :=
  first [ eassumption | solve [eauto with trace] | solve [repeat constructor] ].

Ltac drains_first_solve :=
  repeat (apply drains_first_quiet; [|trace_atom]);
  apply drains_first_calm;
  repeat (apply calm_app; [|trace_atom]); trace_atom.

Lemma op_drains_first env op mc effs :
  calm effs → wp (run_op env op) (λ _ _ effs', drains_first effs') mc effs.
Proof.
  intros Hc. destruct op as [ev| | | | | | | | | | | | | | | | | | | ];
    [destruct (mc_state mc) eqn:?, ev|..]; wp_run.
  all: drains_first_solve.
Qed.

(** ** Every pending request is resolved exactly once or still pending *)

Definition resolved_id (e : FsmEffect) : option N :=
  match e with
  | ResolveOk r _ | ResolveErr r _ | SenderDropped r => Some r
  | _ => None
  end.

Definition resolved_ids (l : list FsmEffect) : list N := omap resolved_id l.

Lemma resolved_app l d : resolved_ids (l ++ d) = resolved_ids l ++ resolved_ids d.
Proof. apply omap_app. Qed.

Lemma resolved_quiet l : quiet l → resolved_ids l = [].
Proof. induction 1 as [|e l He _ IH]; [done|]. by destruct e; simpl in *. Qed.

Lemma resolved_drain c m d :
  drain_trace c m d → resolved_ids d = pr_req_id <$> pending_sorted m.
Proof.
  intros (ds & Hds & ->). induction Hds as [|p x ps xs (t & ->) _ IH]; [done|].
  simpl. by f_equal.
Qed.

Lemma pending_sorted_ids (m : gmap N PendingRequest) :
  map_Forall (λ k p, pr_req_id p = k) m →
  pr_req_id <$> pending_sorted m ≡ₚ (map_to_list m).*1.
Proof.
  intros Hk. unfold pending_sorted. rewrite merge_sort_Permutation.
  rewrite <-list_fmap_compose.
  assert (pr_req_id ∘ snd <$> map_to_list m = (map_to_list m).*1) as ->; [|done].
  apply Forall_fmap_ext_1, Forall_forall.
  intros [k p] Hin%elem_of_map_to_list. by apply Hk.
Qed.

(** Of the requests pending [before], those resolved are [ids], each once; the
    others, and only they, are pending [after]. *)
Definition conserves (before after : gmap N PendingRequest) (ids : list N) : Prop :=
  NoDup ids ∧ (∀ r, r ∈ dom before ↔ r ∈ dom after ∨ r ∈ ids) ∧
  (∀ r, r ∈ ids → r ∉ dom after).

Lemma conserves_none m : conserves m m [].
Proof. split_and!; [constructor|set_solver|set_solver]. Qed.

Lemma conserves_drained c m d :
  map_Forall (λ k p, pr_req_id p = k) m → drain_trace c m d →
  conserves m ∅ (resolved_ids d).
Proof.
  intros Hk Hd. rewrite (resolved_drain _ _ _ Hd).
  pose proof (pending_sorted_ids m Hk) as Hp. split_and!.
  - rewrite Hp. apply NoDup_fst_map_to_list.
  - intros r. rewrite Hp, dom_empty, elem_of_dom.
    split; [|intros [?|Hr]; [set_solver|]].
    + intros [p Hr]. right. apply list_elem_of_fmap. exists (r, p).
      by rewrite elem_of_map_to_list.
    + apply list_elem_of_fmap in Hr as ([k p] & -> & Hr).
      apply elem_of_map_to_list in Hr. by eexists.
  - set_solver.
Qed.

Lemma conserves_delete r m :
  is_Some (m !! r) → conserves m (delete r m) [r].
Proof.
  intros Hr. split_and!; [apply NoDup_singleton| |].
  - intros x. rewrite dom_delete. apply elem_of_dom in Hr.
    destruct (decide (x = r)); set_solver.
  - intros x. rewrite dom_delete. set_solver.
Qed.

Definition conserving (before : gmap N PendingRequest) : Post () := λ _ mc effs,
  conserves before (mc_pending_requests mc) (resolved_ids effs).

Ltac conserves_solve :=
  unfold conserving; mc_simpl_in_goal;
  repeat match goal with
    | |- context [match ?x with _ => _ end] => destruct x eqn:? end;
  mc_simpl_in_goal; rewrite ?resolved_app;
  repeat match goal with
    | H : ?q |- context [resolved_ids ?d] =>
        rewrite (resolved_quiet d) by trace_atom
    end;
  cbn [app]; rewrite ?app_nil_r;
  first [ apply conserves_none | by eapply conserves_drained | apply conserves_delete; by eexists ].

Lemma op_event_conserves env ev mc effs :
  quiet effs → pending_keyed mc →
  wp (reactor_step env ev) (conserving (mc_pending_requests mc)) mc effs.
Proof.
  intros Hq Hk. destruct (mc_state mc) eqn:?, ev; wp_run.
  all: conserves_solve.
Qed.

(** What an operation adds to the requests awaiting a response. *)
Definition recorded (op : ConnOp) : gmap N PendingRequest :=
  match op with OpRecordPending p => {[pr_req_id p := p]} | _ => ∅ end.

(** Request ids come from a counter, so a recorded id is new. *)
Definition op_fresh (op : ConnOp) (seen : list N) : Prop :=
  match op with OpRecordPending p => pr_req_id p ∉ seen | _ => True end.

Lemma conserves_insert r (p : PendingRequest) m :
  r ∉ dom m → conserves ({[r := p]} ∪ m) (<[r := p]> m) [].
Proof. intros Hr. rewrite insert_union_singleton_l. apply conserves_none. Qed.

Lemma op_conserves env op mc effs :
  quiet effs → pending_keyed mc → op_fresh op (elements (dom (mc_pending_requests mc))) →
  wp (run_op env op) (conserving (recorded op ∪ mc_pending_requests mc)) mc effs.
Proof.
  intros Hq Hk Hf. destruct op; cbn [recorded op_fresh] in *; rewrite ?(left_id_L ∅ (∪)).
  1: by apply op_event_conserves.
  all: try by (wp_run; conserves_solve).
  rewrite elem_of_elements in Hf. wp_run.
  - by destruct Hf; apply elem_of_dom_2 in Heqo.
  - unfold conserving. mc_simpl_in_goal. rewrite (resolved_quiet effs) by done.
    by apply conserves_insert.
Qed.

(** ** Answers and keys, operation by operation *)

(** The map of pending requests stays keyed by request id, admitted or not. *)
Lemma op_keyed env op mc effs :
  pending_keyed mc → wp (run_op env op) (λ _ mc' _, pending_keyed mc') mc effs.
Proof.
  intros Hk. destruct op as [ev| | | | | | | | | | | | | | | | | | | ];
    [destruct (mc_state mc) eqn:?, ev|..]; wp_run;
    unfold pending_keyed in *; repeat (case_match; simplify_eq); mc_simpl_in_goal;
    first [ exact Hk | apply map_Forall_empty | by apply map_Forall_delete
          | by apply map_Forall_insert_2 ].
Qed.

Definition ok_resolution (e : FsmEffect) : option (N * WsResponse) :=
  match e with ResolveOk id resp => Some (id, resp) | _ => None end.

Definition oks (l : list FsmEffect) : list (N * WsResponse) := omap ok_resolution l.

(** What an operation may answer a request with. *)
Definition answers (op : ConnOp) : list (N * WsResponse) :=
  match op with OpResolvePending resp => [(resp_req_id resp, resp)] | _ => [] end.

Lemma oks_app l d : oks (l ++ d) = oks l ++ oks d.
Proof. apply omap_app. Qed.

Lemma oks_quiet d : quiet d → oks d = [].
Proof. induction 1 as [|e l He _ IH]; [done|]. by destruct e. Qed.

Lemma oks_drain c m d : drain_trace c m d → oks d = [].
Proof.
  intros (ds & Hds & ->). induction Hds as [|p x ps xs (t & ->) _ IH]; [done|exact IH].
Qed.

Lemma op_oks env op mc effs :
  oks effs = [] → wp (run_op env op) (λ _ _ effs', oks effs' ⊆ answers op) mc effs.
Proof.
  intros Hq. destruct op as [ev| | | | | | | | | | | | | | | | | | | ];
    [destruct (mc_state mc) eqn:?, ev|..]; wp_run;
    repeat match goal with |- context [match ?x with _ => _ end] => destruct x eqn:? end;
    rewrite ?oks_app, ?Hq;
    repeat match goal with
      | |- context [oks ?d] => rewrite (oks_quiet d) by trace_atom
      | |- context [oks ?d] => erewrite (oks_drain _ _ d) by eassumption
      end; cbn; set_solver.
Qed.

(** ** The account of a connection's requests *)

(** [history url recd res m]: an admitted run of operations led to [m]; it recorded
    the requests [recd] and resolved the requests [res]. *)
Inductive history (url : WsUrl) : list N → list N → ManagedConnection → Prop :=
  | hist_new env : history url [] [] (mc_new env url)
  | hist_op recd res env op w :
      history url recd res (w_mc w) → w_effects w = [] →
      op_admitted op (w_mc w) → op_fresh op recd →
      history url
        ((map_to_list (recorded op)).*1 ++ recd)
        (res ++ resolved_ids (w_effects (run_op env op w).2))
        (w_mc (run_op env op w).2).

Definition pending_ids (m : ManagedConnection) : list N :=
  elements (dom (mc_pending_requests m)).

Lemma history_reachable url recd res m : history url recd res m → reachable url m.
Proof. induction 1; by constructor. Qed.

Lemma conserves_perm before after ids :
  conserves before after ids →
  elements (dom before) ≡ₚ ids ++ elements (dom after).
Proof.
  intros (Hnd & Hdom & Hdis). apply NoDup_Permutation.
  - apply NoDup_elements.
  - apply NoDup_app. split_and!; [done| |apply NoDup_elements].
    intros r Hr. rewrite elem_of_elements. by apply Hdis.
  - intros r. rewrite elem_of_app, !elem_of_elements, Hdom. tauto.
Qed.

Lemma recorded_perm op seen (m : gmap N PendingRequest) :
  op_fresh op seen → (∀ r, r ∈ dom m → r ∈ seen) →
  elements (dom (recorded op ∪ m)) ≡ₚ (map_to_list (recorded op)).*1 ++ elements (dom m).
Proof.
  intros Hf Hm. destruct op; cbn [recorded op_fresh] in *;
    try by rewrite ?(left_id_L ∅ (∪)), map_to_list_empty.
  rewrite dom_union_L, dom_singleton_L, elements_disj_union, elements_singleton,
    map_to_list_singleton; [done|].
  apply disjoint_singleton_l. auto.
Qed.

Lemma history_account url recd res m :
  history url recd res m → recd ≡ₚ res ++ pending_ids m.
Proof.
  induction 1 as [env|recd res env op w Hh IH He Had Hf]; [done|].
  destruct (reachable_inv url (w_mc w)) as [_ Hk]; [by eapply history_reachable|].
  assert (Hin : ∀ r, r ∈ dom (mc_pending_requests (w_mc w)) → r ∈ recd).
  { intros r Hr. rewrite IH. apply elem_of_app. right. unfold pending_ids. by apply elem_of_elements. }
  assert (Hf' : op_fresh op (pending_ids (w_mc w))).
  { destruct op; try done. simpl in *. unfold pending_ids. intros Hr%elem_of_elements. auto. }
  pose proof (op_conserves env op (w_mc w) [] ltac:(constructor) Hk Hf' w eq_refl He)
    as Hc%conserves_perm.
  rewrite (recorded_perm op recd) in Hc by done. unfold pending_ids in *.
  rewrite <-(assoc_L (++)), <-Hc, IH. solve_Permutation.
Qed.
