(* ===== verification/ConnectionWaiters.v ===== *)
(** * ConnectionWaiters: the callers waiting for a connection to open or close

    A call joins a queue of waiters; an envelope that carries its request id
    answers it.  Every step accounts for all of them. *)

From Stdlib Require Import String.
From S2P Require Import Prelude F64 Types Events Errors Knobs RateBudget Connection.
From S2P Require Import ConnectionWp ConnectionInv ConnectionTrace.
Local Open Scope N_scope.

(** Callers waiting for the connection to open or give up. *)
Definition connect_waiters (m : ManagedConnection) : list N :=
  option_list (mc_pending_connect_request_id m) ++ mc_additional_connect_request_ids m
  ++ option_list (mc_pending_reconnect_request_id m).

(** Callers waiting for the connection to close. *)
Definition close_waiters (m : ManagedConnection) : list N :=
  option_list (mc_pending_close_request_id m) ++ mc_additional_close_request_ids m.

Definition connect_answer (e : FsmEffect) : option N :=
  if e is Publish v then
    match event_type v with
    | ConnectionOpenEvent | ConnectionReopenedEvent | ConnectionFailedEvent => request_id v
    | _ => None
    end
  else None.

Definition close_answer (e : FsmEffect) : option N :=
  if e is Publish v then
    match event_type v with ConnectionClosedEvent => request_id v | _ => None end
  else None.

(** Who starts waiting for the connection to open: the callers of connect and
    reconnect, where the state accepts the call.  A reconnect call during the first
    bring-up is not registered. *)
Definition connect_joins (ev : FsmEvent) (m : ManagedConnection) : list N :=
  match ev, mc_state m with
  | CallStartConnect rid, Idle => [rid]
  | CallForceReconnect rid, Connecting => if mc_has_been_open m then [rid] else []
  | CallForceReconnect rid, Closed => []
  | CallForceReconnect rid, _ => [rid]
  | _, _ => []
  end.

Definition close_joins (ev : FsmEvent) (m : ManagedConnection) : list N :=
  match ev, mc_state m with
  | CallClose rid, Closed => []
  | CallClose rid, _ => [rid]
  | _, _ => []
  end.

(** Leaving [Closing] for a latched reconnect forgets the caller whose connect was
    still pending when the close began. *)
Definition stranded (ev : FsmEvent) (m : ManagedConnection) : list N :=
  match mc_state m, ev, mc_pending_reconnect_request_id m with
  | Closing, (WireCloseReceived _ _ | WireAbnormalClose _ _ | TimerCloseTimeout), Some _ =>
      option_list (mc_pending_connect_request_id m)
  | _, _, _ => []
  end.

Section Answers.
Context (f : FsmEffect → option N).

Lemma answers_answered (et : EventType) rids d :
  (∀ t rid p, f (Publish (mkEnvelope et 1 t rid p)) = rid) →
  answered et rids d → omap f d = rids.
Proof.
  intros Hf. induction 1 as [|rid e rids d (t & p & ->) _ IH]; [done|].
  simpl. rewrite Hf. by f_equal.
Qed.

Lemma answers_none (et : EventType) rids d :
  (∀ t rid p, f (Publish (mkEnvelope et 1 t rid p)) = None) →
  answered et rids d → omap f d = [].
Proof.
  intros Hf. induction 1 as [|rid e rids d (t & p & ->) _ IH]; [done|].
  simpl. by rewrite Hf.
Qed.

Lemma answers_drain c m d :
  (∀ r x, f (ResolveErr r x) = None) →
  (∀ t p, f (Publish (mkEnvelope WsRequestFailedEvent 1 t None p)) = None) →
  drain_trace c m d → omap f d = [].
Proof.
  intros Hr He (ds & Hds & ->). induction Hds as [|p x ps xs (t & ->) _ IH]; [done|].
  simpl. by rewrite Hr, He.
Qed.
End Answers.

Lemma connect_answers_drain c m d : drain_trace c m d → omap connect_answer d = [].
Proof. by apply answers_drain. Qed.

Lemma close_answers_drain c m d : drain_trace c m d → omap close_answer d = [].
Proof. by apply answers_drain. Qed.

Lemma connect_answers_open r p c d :
  open_trace r p c d → omap connect_answer d = option_list p ++ c.
Proof.
  intros (t & q & d' & -> & Ha). apply (answers_answered connect_answer) in Ha.
  - simpl. rewrite <-Ha. by destruct r, p.
  - by destruct r.
Qed.

Lemma close_answers_open r p c d : open_trace r p c d → omap close_answer d = [].
Proof.
  intros (t & q & d' & -> & Ha). apply (answers_none close_answer) in Ha.
  - simpl. rewrite <-Ha. by destruct r.
  - by destruct r.
Qed.

Lemma connect_answers_failed p c d :
  failed_trace p c d → omap connect_answer d = option_list p ++ c.
Proof.
  unfold failed_trace. destruct (option_list p ++ c) eqn:E.
  - by intros (t & q & ->).
  - by apply answers_answered.
Qed.

Lemma close_answers_failed p c d : failed_trace p c d → omap close_answer d = [].
Proof.
  unfold failed_trace. destruct (option_list p ++ c) eqn:E.
  - by intros (t & q & ->).
  - by apply answers_none.
Qed.

Lemma connect_answers_closed rids d :
  answered ConnectionClosedEvent rids d → omap connect_answer d = [].
Proof. by apply answers_none. Qed.

Lemma close_answers_closed rids d :
  answered ConnectionClosedEvent rids d → omap close_answer d = rids.
Proof. by apply answers_answered. Qed.

(** Rewrite the answers in the segments of a trace. *)
Ltac answers_simpl :=
  rewrite ?omap_app;
  repeat match goal with
    | H : drain_trace _ _ ?d |- _ =>
        rewrite ?(connect_answers_drain _ _ _ H), ?(close_answers_drain _ _ _ H); clear H
    | H : open_trace _ _ _ ?d |- _ =>
        rewrite ?(connect_answers_open _ _ _ _ H), ?(close_answers_open _ _ _ _ H); clear H
    | H : failed_trace _ _ ?d |- _ =>
        rewrite ?(connect_answers_failed _ _ _ H), ?(close_answers_failed _ _ _ H); clear H
    | H : answered _ _ ?d |- _ =>
        rewrite ?(connect_answers_closed _ _ H), ?(close_answers_closed _ _ H); clear H
    end.

Definition accounts_waiters (ev : FsmEvent) (m : ManagedConnection) : Post () :=
  λ _ m' effs,
    connect_joins ev m ++ connect_waiters m ≡ₚ
      stranded ev m ++ omap connect_answer effs ++ connect_waiters m' ∧
    close_joins ev m ++ close_waiters m ≡ₚ
      omap close_answer effs ++ close_waiters m'.

Ltac waiters_solve Hs :=
  unfold accounts_waiters, connect_joins, close_joins, stranded, connect_waiters,
    close_waiters;
  mc_simpl_in_goal; rewrite ?Hs; cbv iota;
  repeat match goal with
    | H : ?x = _ |- context [match ?x with _ => _ end] => rewrite H
    | |- context [match ?x with _ => _ end] => destruct x eqn:?
    end;
  mc_simpl_in_goal; answers_simpl; mc_simpl_in_goal;
  repeat match goal with H : ?x = _ |- context [option_list ?x] => rewrite H end;
  cbn [option_list app omap list_omap connect_answer close_answer event_type
       Events.request_id];
  rewrite ?app_nil_r; split; solve_Permutation.

Lemma step_waiters env ev mc :
  conn_inv mc → wp (reactor_step env ev) (accounts_waiters ev mc) mc [].
Proof.
  intros [Hwf _]. destruct (mc_state mc) eqn:Hs; unfold mc_wf in Hwf; rewrite Hs in Hwf;
    wf_compute Hwf; destruct ev; wp_run; waiters_solve Hs.
Qed.
