(* ===== verification/ConnectionDials.v ===== *)
(** * ConnectionDials: the attempt cap, and the timers that move a connection on *)

From Stdlib Require Import String.
From S2P Require Import Prelude F64 Types Events Errors Knobs RateBudget Connection.
From S2P Require Import ConnectionWp ConnectionInv ConnectionTrace.
Local Open Scope N_scope.

(** ** The cap bounds the dials *)

Definition is_dial (e : FsmEffect) : bool :=
  match e with OpenSocket _ _ => true | _ => false end.

Definition dials (l : list FsmEffect) : nat := length (filter (λ e, is_dial e = true) l).

Definition dialless (l : list FsmEffect) : Prop := Forall (λ e, is_dial e = false) l.

Lemma dials_app l d : dials (l ++ d) = (dials l + dials d)%nat.
Proof. unfold dials. by rewrite filter_app, length_app. Qed.

Lemma dials_none l : dialless l → dials l = 0%nat.
Proof.
  unfold dials. induction 1 as [|e l He _ IH]; [done|].
  rewrite filter_cons_False; [done|congruence].
Qed.

Lemma dialless_answered et rids d : answered et rids d → dialless d.
Proof. induction 1 as [|? ? ? ? (? & ? & ->) _ IH]; by constructor. Qed.

Lemma dialless_drain c m d : drain_trace c m d → dialless d.
Proof.
  intros (ds & Hds & ->). induction Hds as [|p x ps xs (t & ->) _ IH]; [constructor|].
  simpl. by repeat constructor.
Qed.

Lemma dialless_failed p c d : failed_trace p c d → dialless d.
Proof.
  unfold failed_trace. destruct (option_list p ++ c); [|apply dialless_answered].
  intros (t & q & ->). by repeat constructor.
Qed.

Lemma dialless_open r p c d : open_trace r p c d → dialless d.
Proof.
  intros (t & q & d' & -> & Ha). constructor; [done|]. by eapply dialless_answered.
Qed.

#[export] Hint Resolve dialless_answered dialless_drain dialless_failed dialless_open : trace.

(** Events of a connection that never gets through an upgrade, and whose caller does
    not restart it. *)
Definition no_progress (ev : FsmEvent) : bool :=
  match ev with WireUpgradeOk _ | CallForceReconnect _ => false | _ => true end.

(** [k] dials so far: each was counted, and the count respects the cap [n]. *)
Definition dials_ok (n : N) (k : nat) (m : ManagedConnection) : Prop :=
  N.of_nat k ≤ mc_attempt_count m ∧
  match mc_state m with
  | Idle => mc_attempt_count m = 0
  | BackingOff => mc_attempt_count m < N.max n 1
  | Connecting | Failed | Closed => mc_attempt_count m ≤ N.max n 1
  | Closing => mc_attempt_count m ≤ N.max n 1 ∧ mc_pending_reconnect_request_id m = None
  | _ => False
  end.

Lemma bump_small a n : a < N.max n 1 → n ≤ u32_max → u32_saturating_add a 1 = a + 1.
Proof. intros. unfold u32_saturating_add, u32_max in *. lia. Qed.

Ltac dials_solve Hs :=
  rewrite ?dials_app;
  repeat match goal with |- context [dials ?d] =>
    first [ rewrite (dials_none d) by trace_atom
          | change (dials d) with 1%nat ] end;
  unfold dials_ok in *; mc_simpl_in_goal; rewrite ?Hs;
  repeat match goal with
    | |- context [mc_state (match ?x with _ => _ end)] => destruct x eqn:?
    | H : (_ <=? _) = false |- _ => apply N.leb_gt in H
    end;
  mc_simpl_in_goal; rewrite ?Hs;
  try (erewrite bump_small by (eassumption || lia));
  intuition (congruence || lia).

Lemma step_dials env ev mc n k :
  opt_u32_decode (reconnect_attempts (env_knobs env)) = Some n → n ≤ u32_max →
  conn_inv mc → no_progress ev = true → dials_ok n k mc →
  wp (reactor_step env ev) (λ _ m effs, dials_ok n (k + dials effs) m) mc [].
Proof.
  intros Hcap Hn [Hwf _] Hev [Hk Hst]. unfold mc_wf in Hwf.
  destruct (mc_state mc) eqn:Hs; try done; wf_compute Hwf; destruct ev; try discriminate Hev; wp_run.
  all: dials_solve Hs.
Qed.

Lemma opt_u32_decode_bound bits n : opt_u32_decode bits = Some n → n ≤ u32_max.
Proof.
  unfold opt_u32_decode. destruct (_ =? _); [done|]. intros [= <-].
  change VALUE_MASK with (N.ones 32). rewrite N.land_ones. unfold u32_max.
  pose proof (N.mod_upper_bound bits (2 ^ 32)). change (2 ^ 32) with 4294967296 in *. lia.
Qed.

(** ** The timer dispatched next *)

(** Every armed timer, with the event it fires. *)
Definition armed_timers (t : TimerSet) : list (MonotonicInstant * FsmEvent) :=
  option_list ((., TimerBackoffElapsed) <$> tm_backoff_due_at t) ++
  option_list ((., TimerUpgradeTimeout) <$> tm_upgrade_timeout_due_at t) ++
  option_list ((., TimerStalenessElapsed) <$> tm_staleness_due_at t) ++
  option_list ((., TimerCloseTimeout) <$> tm_close_timeout_due_at t) ++
  option_list ((., TimerRateBudgetWindowAdvanced) <$> tm_rate_budget_window_advanced_at t) ++
  option_list ((., TimerTokenRefreshDue) <$> tm_token_refresh_due_at t) ++
  ((λ x : SubKey * N, (x.2, TimerSubscribeAckTimeout x.1.1 x.1.2)) <$>
     map_to_list (tm_per_entry_subscribe_ack_timeouts t)) ++
  ((λ x : SubKey * N, (x.2, TimerSubscribeResendDue x.1.1 x.1.2)) <$>
     map_to_list (tm_per_entry_subscribe_resend_due t)) ++
  ((λ x : SubKey * N, (x.2, TimerBookReseedSnapshot x.1.1 x.1.2)) <$>
     map_to_list (tm_per_entry_book_reseed_snapshot t)).

Definition is_earliest (l : list (MonotonicInstant * FsmEvent))
  (e : option (MonotonicInstant * FsmEvent)) : Prop :=
  match e with
  | None => l = []
  | Some x => x ∈ l ∧ ∀ y, y ∈ l → x.1 ≤ y.1
  end.

Lemma earliest_snoc l e d ev :
  is_earliest l e → is_earliest (l ++ [(d, ev)]) (consider e (Some d) ev).
Proof.
  destruct e as [[c x]|]; simpl.
  - intros [Hin Hmin]. destruct (N.ltb_spec d c); split;
      [by apply elem_of_app; right; left| |by apply elem_of_app; left|].
    all: intros y [Hy|Hy%list_elem_of_singleton]%elem_of_app;
      [specialize (Hmin y Hy); simpl in *; lia|subst; simpl; lia].
  - intros ->. split; [by left|]. intros y Hy%list_elem_of_singleton. by subst.
Qed.

Lemma earliest_option l e due ev :
  is_earliest l e →
  is_earliest (l ++ option_list ((., ev) <$> due)) (consider e due ev).
Proof.
  destruct due; simpl; [apply earliest_snoc|by rewrite app_nil_r].
Qed.

Lemma earliest_entries mk entries l e :
  is_earliest l e →
  is_earliest (l ++ ((λ x : SubKey * N, (x.2, mk x.1.1 x.1.2)) <$> entries))
    (consider_entries mk entries e).
Proof.
  revert l e. induction entries as [|x entries IH]; intros l e H; simpl.
  - by rewrite app_nil_r.
  - rewrite (cons_middle _ l), app_assoc. by apply IH, earliest_snoc.
Qed.

Lemma next_timer_earliest m :
  is_earliest (armed_timers (mc_timers m)) (next_timer_due m).
Proof.
  unfold armed_timers, next_timer_due. rewrite !app_assoc.
  do 3 apply earliest_entries. do 5 apply earliest_option.
  by apply (earliest_option []).
Qed.

(** The timer that bounds the stay in a state. *)
Definition watchdog (m : ManagedConnection) : option (MonotonicInstant * FsmEvent) :=
  let t := mc_timers m in
  match mc_state m with
  | Connecting => (., TimerUpgradeTimeout) <$> tm_upgrade_timeout_due_at t
  | Authenticating | Resubscribing | Open =>
      (., TimerStalenessElapsed) <$> tm_staleness_due_at t
  | Closing => (., TimerCloseTimeout) <$> tm_close_timeout_due_at t
  | BackingOff =>
      match tm_backoff_due_at t with
      | Some d => Some (d, TimerBackoffElapsed)
      | None => (., TimerRateBudgetWindowAdvanced) <$> tm_rate_budget_window_advanced_at t
      end
  | Idle | Closed | Failed => None
  end.

Definition at_rest (s : ConnectionState) : bool :=
  match s with Idle | Closed | Failed => true | _ => false end.

Lemma watchdog_armed m :
  mc_wf m → at_rest (mc_state m) = false →
  ∃ due wd, watchdog m = Some (due, wd) ∧ (due, wd) ∈ armed_timers (mc_timers m).
Proof.
  intros Hwf Hr. unfold mc_wf, watchdog, armed_timers in *.
  destruct (mc_state m) eqn:Hs; try discriminate Hr; wf_compute Hwf.
  all: repeat match goal with
    | H : some ?x || _ = true |- _ => is_var x; fail 1
    | H : some ?x || _ = true |- context [match ?x with _ => _ end] =>
        destruct x eqn:?; cbn [some orb] in H
    | H : some ?x = true |- context [?x] =>
        destruct x eqn:?; [clear H|discriminate H]
    end; simpl; eexists _, _; (split; [done|]); set_solver.
Qed.
(** The watchdog always ends the stay in a state whose exit does not need the rate
    budget. *)
Lemma watchdog_exits env mc effs due wd :
  conn_inv mc → mc_state mc ≠ BackingOff → watchdog mc = Some (due, wd) →
  wp (reactor_step env wd) (λ _ m _, mc_state m ≠ mc_state mc) mc effs.
Proof.
  intros Hi Hb Hwd. eapply wp_mono; [by apply step_any|].
  intros ? m' _ [_ Hm']. unfold watchdog in Hwd.
  intros Heq. rewrite Heq in Hm'.
  destruct (mc_state mc); simplify_option_eq; set_unfold in Hm'; intuition discriminate.
Qed.
