(* ===== verification/ConnectionProps.v ===== *)
(** * ConnectionProps: the properties of the connection state machine *)

From Stdlib Require Import String.
From S2P Require Import Prelude F64 Types Events Errors Knobs RateBudget Connection.
From S2P Require Import ConnectionWp ConnectionInv ConnectionTrace ConnectionWaiters ConnectionDials.
Local Open Scope N_scope.

(** ** Concrete runs *)

(** The default knobs, a clock that advances by a second per reading, and a constant
    jitter draw; no delay depends on [powi] here, which is left at its base. *)
Definition env0 : Env :=
  mkEnv defaults (λ n, N.of_nat n * 1000000000) (λ n, N.of_nat n) (λ _, f64_one) (λ b _, b) (λ _, EmptyString).

Definition world (m : ManagedConnection) : World :=
  mkWorld m (with_knobs 100 600000000000) 0 0 0 [].

(** Run operations one after another; the effects accumulate. *)
Definition drive (env : Env) (ops : list ConnOp) (w : World) : World :=
  fold_left (λ w op, (run_op env op w).2) ops w.

Definition op_admittedb (op : ConnOp) (m : ManagedConnection) : bool :=
  match op with
  | OpRecordPending _ => match mc_state m with Open | Authenticating => true | _ => false end
  | OpSubscribeFailure _ _ _ => negb (is_closing (mc_state m))
  | _ => true
  end.

Fixpoint admitted_all (env : Env) (ops : list ConnOp) (w : World) : bool :=
  match ops with
  | [] => true
  | op :: ops => op_admittedb op (w_mc w) && admitted_all env ops (run_op env op w).2
  end.

Lemma op_admittedb_sound op m : op_admittedb op m = true → op_admitted op m.
Proof. destruct op; simpl; try done; destruct (mc_state m); try discriminate; auto. Qed.

Lemma drive_reachable env url ops w :
  reachable url (w_mc w) → admitted_all env ops w = true →
  reachable url (w_mc (drive env ops w)).
Proof.
  revert w. induction ops as [|op ops IH]; intros w Hr Had; [done|].
  cbn [admitted_all] in Had. apply andb_true_iff in Had as [Had Hops].
  apply IH; [|done]. by apply reach_op; [|apply op_admittedb_sound].
Qed.

(** An open, authenticated connection with one order awaiting its response. *)
Definition open_ops : list ConnOp :=
  [OpEvent (CallStartConnect 1); OpEvent (WireUpgradeOk (Some 77));
   OpEvent WireOrderAuthOk; OpRecordPending (mkPending 5 OpAddOrder 0)].

Definition open_mc : ManagedConnection :=
  w_mc (drive env0 open_ops (world (mc_new env0 Auth))).

Lemma open_mc_reachable : reachable Auth open_mc.
Proof. apply drive_reachable; [apply (reach_new Auth env0)|by vm_compute]. Qed.

(** The same with the account of recorded and resolved requests. *)
Definition silent (w : World) : World :=
  mkWorld (w_mc w) (w_budget w) (w_clock_reads w) (w_jitter_draws w) (w_next_socket w) [].

Definition op_freshb (op : ConnOp) (seen : list N) : bool :=
  match op with OpRecordPending p => bool_decide (pr_req_id p ∉ seen) | _ => true end.

Fixpoint account (env : Env) (ops : list ConnOp) (w : World) (recd res : list N)
  : option (list N * list N * ManagedConnection) :=
  match ops with
  | [] => Some (recd, res, w_mc w)
  | op :: ops =>
      if op_admittedb op (w_mc w) && op_freshb op recd then
        let w' := (run_op env op (silent w)).2 in
        account env ops w' ((map_to_list (recorded op)).*1 ++ recd)
          (res ++ resolved_ids (w_effects w'))
      else None
  end.

Lemma account_history env url ops w recd res x :
  history url recd res (w_mc w) → account env ops w recd res = Some x →
  history url x.1.1 x.1.2 x.2.
Proof.
  revert w recd res. induction ops as [|op ops IH]; intros w recd res Hh; cbn [account].
  - by intros [= <-].
  - destruct (_ && _) eqn:E; [|done]. apply andb_true_iff in E as [Had Hf].
    apply IH. apply (hist_op url recd res env op (silent w)); try done.
    + by apply op_admittedb_sound.
    + destruct op; try done. by apply bool_decide_eq_true in Hf.
Qed.

(** ** The invariant *)

(** C11: In every reachable connection the resources match the state: a socket is held
    exactly in the states that use one, the close and staleness timers run exactly in the
    states they guard, a connecting connection has its upgrade timer and a backing-off one
    a timer that will move it on, requests are pending only where something resolves
    them, close and reconnect calls are latched only while closing, and a connection
    authenticates only on the authenticated endpoint. *)
Theorem reachable_invariant url m : reachable url m → mc_wf m ∧ pending_keyed m.
Proof. apply reachable_inv. Qed.

Lemma reachable_invariant_witness :
  reachable Auth open_mc ∧ mc_state open_mc = Open ∧ mc_wf open_mc ∧ pending_keyed open_mc.
Proof.
  split_and!; [apply open_mc_reachable|by vm_compute|..];
    apply (reachable_invariant Auth open_mc), open_mc_reachable.
Defined.

(** ** Refinement of the abstract machine *)

(** C13: Handling any event in any reachable connection takes its state to one of the
    states the abstract machine [spec_next] lists for that state and event; a closed
    connection stays closed and emits nothing. *)
Theorem step_refines_spec url env ev w :
  reachable url (w_mc w) →
  let w' := (reactor_step env ev w).2 in
  mc_state (w_mc w') ∈ spec_next (mc_state (w_mc w)) ev ∧
  (mc_state (w_mc w) = Closed → mc_state (w_mc w') = Closed ∧ w_effects w' = w_effects w).
Proof.
  intros Hr%reachable_inv w'. split; [by apply (step_any env ev (w_mc w) (w_effects w))|].
  intros Hs. cut (wp (reactor_step env ev)
    (λ _ m effs, mc_state m = Closed ∧ effs = w_effects w) (w_mc w) (w_effects w)).
  { intros Hwp. by apply Hwp. }
  destruct ev; wp_run; by rewrite ?Hs.
Qed.

Lemma step_refines_spec_witness :
  mc_state (w_mc (reactor_step env0 (WireAbnormalClose SocketReset true) (world open_mc)).2)
    = BackingOff ∧
  mc_state (w_mc (reactor_step env0 (WireAbnormalClose SocketReset true) (world open_mc)).2)
    ∈ spec_next Open (WireAbnormalClose SocketReset true).
Proof.
  split; [by vm_compute|].
  apply (step_refines_spec Auth env0 (WireAbnormalClose SocketReset true) (world open_mc)).
  apply open_mc_reachable.
Defined.

(** ** Requests *)

(** C12: Whatever sequence of operations a connection went through, provided request ids
    are not reused, the requests recorded on it are exactly those resolved (each
    once) together with those still pending; so whenever the connection is not in a
    session nor closing, every request has been resolved, each exactly once. *)
Theorem every_request_resolved_once url recd res m :
  history url recd res m →
  recd ≡ₚ res ++ elements (dom (mc_pending_requests m)) ∧
  (in_session (mc_state m) || is_closing (mc_state m) = false → recd ≡ₚ res).
Proof.
  intros Hh. pose proof (history_account _ _ _ _ Hh) as Ha. split; [exact Ha|].
  intros Hs. destruct (reachable_inv url m) as [Hwf _]; [by eapply history_reachable|].
  unfold mc_wf, wf_at in Hwf. destruct Hwf as (_ & _ & _ & _ & _ & _ & Hp & _).
  unfold pending_ids in Ha. rewrite Hs in Hp. rewrite Hp in Ha.
  by rewrite dom_empty_L, elements_empty, app_nil_r in Ha.
Qed.

Lemma every_request_resolved_once_witness :
  ∃ m, mc_state m = BackingOff ∧ history Auth [6; 5] [5; 6] m ∧ [6; 5] ≡ₚ [5; 6].
Proof.
  pose (ops := open_ops ++ [OpRecordPending (mkPending 6 OpCancelAll 0);
    OpResolvePending (mkWsResponse 5 true JNull None); OpEvent (WireAbnormalClose SocketReset true)]).
  destruct (account env0 ops (world (mc_new env0 Auth)) [] []) as [[[recd res] m]|] eqn:E;
    [|vm_compute in E; discriminate].
  pose proof (account_history env0 Auth ops (world (mc_new env0 Auth)) [] [] _
    (hist_new Auth env0) E) as Hh.
  assert (recd = [6; 5] ∧ res = [5; 6] ∧ mc_state m = BackingOff) as (-> & -> & Hs)
    by (vm_compute in E; by simplify_eq).
  exists m. split; [exact Hs|]. split; [exact Hh|].
  apply (every_request_resolved_once Auth [6; 5] [5; 6] m Hh). by rewrite Hs.
Defined.

(** ** Order of announcements *)

(** While one operation runs, the requests it resolves are resolved before any
    envelope about the connection's life is published (the staleness notice, which only
    explains a drop to come, aside): no subscriber learns of a drop, failure or close
    while a request it knows of is unresolved. *)
Theorem requests_resolved_before_announcement env op w :
  w_effects w = [] →
  ∃ before after, w_effects (run_op env op w).2 = before ++ after ∧
    Forall (λ e, match e with Publish v => is_lifecycle (event_type v) = false
                 | _ => True end) before ∧
    Forall (λ e, is_resolution e = false) after.
Proof. intros He. apply (op_drains_first env op (w_mc w) []); [constructor|done|done]. Qed.

Definition lost : ConnOp := OpEvent (WireAbnormalClose SocketReset true).

Lemma requests_resolved_before_announcement_witness :
  resolved_ids (w_effects (run_op env0 lost (world open_mc)).2) = [5] ∧
  ∃ before after, w_effects (run_op env0 lost (world open_mc)).2 = before ++ after ∧
    Forall (λ e, match e with Publish v => is_lifecycle (event_type v) = false
                 | _ => True end) before ∧
    Forall (λ e, is_resolution e = false) after.
Proof.
  split; [by vm_compute|].
  exact (requests_resolved_before_announcement env0 lost (world open_mc) eq_refl).
Defined.

(** ** Waiters *)

(** C14: Handling an event accounts for every caller waiting on the connection: a caller
    of connect or reconnect is still waiting afterwards or was answered by an open,
    reopened or failed envelope with its request id, each exactly once, except a
    connect caller forgotten when a close ends in a latched reconnect ([stranded]); a
    caller of close is still waiting or was answered by a closed envelope, without
    exception. *)
Theorem waiters_accounted url env ev w :
  reachable url (w_mc w) → w_effects w = [] →
  let m := w_mc w in
  let w' := (reactor_step env ev w).2 in
  connect_joins ev m ++ connect_waiters m ≡ₚ
    stranded ev m ++ omap connect_answer (w_effects w') ++ connect_waiters (w_mc w') ∧
  close_joins ev m ++ close_waiters m ≡ₚ
    omap close_answer (w_effects w') ++ close_waiters (w_mc w').
Proof. intros Hr%reachable_inv He. by apply (step_waiters env ev (w_mc w)). Qed.

(** Two callers of close wait on the closing connection. *)
Definition closing_world : World :=
  silent (drive env0 (open_ops ++ [OpEvent (CallClose 8); OpEvent (CallClose 9)])
            (world (mc_new env0 Auth))).

Definition close_ack : FsmEvent := WireCloseReceived 1000 None.

Lemma silent_mc w : w_mc (silent w) = w_mc w.
Proof. done. Qed.

Lemma closing_world_reachable : reachable Auth (w_mc closing_world).
Proof.
  unfold closing_world. rewrite silent_mc.
  apply (drive_reachable env0 Auth _ (world (mc_new env0 Auth)));
    [apply (reach_new Auth env0)|by vm_compute].
Qed.

Lemma waiters_accounted_witness :
  close_joins close_ack (w_mc closing_world) ++ close_waiters (w_mc closing_world) = [8; 9] ∧
  close_joins close_ack (w_mc closing_world) ++ close_waiters (w_mc closing_world) ≡ₚ
    omap close_answer (w_effects (reactor_step env0 close_ack closing_world).2) ++
    close_waiters (w_mc (reactor_step env0 close_ack closing_world).2).
Proof.
  split; [by vm_compute|].
  exact (proj2 (waiters_accounted Auth env0 close_ack closing_world
                  closing_world_reachable eq_refl)).
Defined.

(** A caller of connect is stranded when the handshake is abandoned for a reconnect:
    after connect (request 1), an upgrade, a reconnect (request 2) and the close that
    it causes, the connection opens again and answers request 2; request 1 is neither
    answered nor waiting any more. *)
Theorem reconnect_strands_connect_waiter :
  let ops := OpEvent <$> [CallStartConnect 1; WireUpgradeOk None; CallForceReconnect 2;
               WireCloseReceived 1000 None; WireUpgradeOk None; WireOrderAuthOk] in
  let w := drive env0 ops (world (mc_new env0 Auth)) in
  admitted_all env0 ops (world (mc_new env0 Auth)) = true ∧
  mc_state (w_mc w) = Open ∧
  omap connect_answer (w_effects w) = [2] ∧ connect_waiters (w_mc w) = [].
Proof. by vm_compute. Qed.

(** ** The attempt cap *)

(** [dialling url n k m]: without an upgrade ever succeeding and without a reconnect
    call, the connection opened [k] sockets on the way to [m], with the cap [n]. *)
Inductive dialling (url : WsUrl) (n : N) : nat → ManagedConnection → Prop :=
  | dial_new env : dialling url n 0 (mc_new env url)
  | dial_step env ev k w :
      opt_u32_decode (reconnect_attempts (env_knobs env)) = Some n →
      no_progress ev = true → w_effects w = [] → dialling url n k (w_mc w) →
      dialling url n (k + dials (w_effects (reactor_step env ev w).2))
        (w_mc (reactor_step env ev w).2).

Lemma dialling_ok url n k m :
  dialling url n k m → conn_inv m ∧ dials_ok n k m.
Proof.
  induction 1 as [env|env ev k w Hcap Hev He _ [Hi Hd]].
  - split; [apply mc_new_inv|]. by split.
  - split; [by apply (op_event_inv env ev (w_mc w) (w_effects w))|].
    apply (step_dials env ev (w_mc w) n k Hcap); try done.
    by eapply opt_u32_decode_bound.
Qed.

(** With the reconnect cap set to [n], a connection whose upgrades all fail opens at
    most [max n 1] sockets, whatever the order of failures, timeouts and budget
    refusals; every dial is counted, and while it still backs off attempts remain. *)
Theorem cap_bounds_dials url n k m :
  dialling url n k m →
  N.of_nat k ≤ N.max n 1 ∧ N.of_nat k ≤ mc_attempt_count m ∧
  (mc_state m = BackingOff → mc_attempt_count m < N.max n 1).
Proof.
  intros [_ [Hk Hs]]%dialling_ok.
  destruct (mc_state m); try done; split_and!; try done; intros; lia.
Qed.

(** Three attempts allowed. *)
Definition env_cap3 : Env :=
  mkEnv (set_reconnect_attempts (opt_u32_encode (Some 3)) defaults) (env_clock env0)
    (env_system_clock env0) (env_jitter env0) (env_powi env0) (env_kind_debug env0).

Fixpoint dial_run (env : Env) (evs : list FsmEvent) (w : World) (k : nat)
  : option (nat * ManagedConnection) :=
  match evs with
  | [] => Some (k, w_mc w)
  | ev :: evs =>
      if no_progress ev then
        let w' := (reactor_step env ev (silent w)).2 in
        dial_run env evs w' (k + dials (w_effects w'))
      else None
  end.

Lemma dial_run_dialling env url n evs w k x :
  opt_u32_decode (reconnect_attempts (env_knobs env)) = Some n →
  dialling url n k (w_mc w) → dial_run env evs w k = Some x → dialling url n x.1 x.2.
Proof.
  intros Hcap. revert w k. induction evs as [|ev evs IH]; intros w k Hd; cbn [dial_run].
  - by intros [= <-].
  - destruct (no_progress ev) eqn:Hev; [|done]. apply IH.
    by apply (dial_step url n env ev k (silent w)).
Qed.

Lemma cap_bounds_dials_witness :
  ∃ m, mc_state m = Failed ∧ dialling Public 3 3 m ∧ N.of_nat 3 ≤ N.max 3 1.
Proof.
  pose (evs := [CallStartConnect 1; WireConnectError TcpRefused true; TimerBackoffElapsed;
    TimerUpgradeTimeout; TimerBackoffElapsed; WireUpgradeFailed 503]).
  destruct (dial_run env_cap3 evs (world (mc_new env_cap3 Public)) 0) as [[k m]|] eqn:E;
    [|vm_compute in E; discriminate].
  pose proof (dial_run_dialling env_cap3 Public 3 evs (world (mc_new env_cap3 Public)) 0 _
    eq_refl (dial_new Public 3 env_cap3) E) as Hd.
  assert (k = 3%nat ∧ mc_state m = Failed) as [-> Hs] by (vm_compute in E; by simplify_eq).
  exists m. split; [exact Hs|]. split; [exact Hd|].
  apply (cap_bounds_dials Public 3 3 m Hd).
Defined.

(** A connecting connection that fails transiently with its attempts spent gives up:
    it becomes failed, holds no socket and runs no upgrade timer, and every caller
    waiting for it to open is answered by a failed envelope. *)
Theorem cap_reached_gives_up env ev n mc :
  conn_inv mc → mc_state mc = Connecting →
  opt_u32_decode (reconnect_attempts (env_knobs env)) = Some n → n ≤ mc_attempt_count mc →
  match ev with
  | WireUpgradeFailed status => http_upgrade_status_transient status = true
  | WireConnectError _ transient => transient = true
  | TimerUpgradeTimeout => True
  | _ => False
  end →
  ∀ w, w_mc w = mc → w_effects w = [] →
  let w' := (reactor_step env ev w).2 in
  mc_state (w_mc w') = Failed ∧ mc_socket (w_mc w') = None ∧
  tm_upgrade_timeout_due_at (mc_timers (w_mc w')) = None ∧
  connect_waiters (w_mc w') = [] ∧
  omap connect_answer (w_effects w') = connect_waiters mc.
Proof.
  intros [Hwf _] Hs Hcap Hn Hev w <- He w'. unfold mc_wf in Hwf. rewrite Hs in Hwf.
  wf_compute Hwf. cut (wp (reactor_step env ev) (λ _ m effs,
    mc_state m = Failed ∧ mc_socket m = None ∧
    tm_upgrade_timeout_due_at (mc_timers m) = None ∧ connect_waiters m = [] ∧
    omap connect_answer effs = connect_waiters (w_mc w)) (w_mc w) []).
  { intros Hwp. by apply Hwp. }
  assert ((n <=? mc_attempt_count (w_mc w)) = true) by by apply N.leb_le.
  destruct ev; try done; wp_run; unfold connect_waiters; answers_simpl; mc_simpl_in_goal;
    match goal with H : mc_pending_reconnect_request_id _ = None |- _ => rewrite ?H end;
    rewrite ?app_nil_r; by split_and!.
Qed.

(** One attempt allowed; the first dial is in progress. *)
Definition env_cap1 : Env :=
  mkEnv (set_reconnect_attempts (opt_u32_encode (Some 1)) defaults) (env_clock env0)
    (env_system_clock env0) (env_jitter env0) (env_powi env0) (env_kind_debug env0).

Definition dialled : World :=
  silent (drive env_cap1 [OpEvent (CallStartConnect 1)] (world (mc_new env_cap1 Public))).

Lemma dialled_inv : conn_inv (w_mc dialled).
Proof.
  unfold dialled. rewrite silent_mc. apply (reachable_inv Public), drive_reachable;
    [apply (reach_new Public env_cap1)|by vm_compute].
Qed.

Lemma cap_reached_gives_up_witness :
  mc_state (w_mc (reactor_step env_cap1 TimerUpgradeTimeout dialled).2) = Failed ∧
  connect_waiters (w_mc dialled) = [1].
Proof.
  split; [|by vm_compute].
  apply (cap_reached_gives_up env_cap1 TimerUpgradeTimeout 1 (w_mc dialled) dialled_inv
           ltac:(by vm_compute) ltac:(by vm_compute) ltac:(by vm_compute) I dialled
           eq_refl ltac:(by vm_compute)).
Defined.

(** ** Timers *)

(** The timer the reactor sleeps for is an armed one, and no armed timer is due
    before it; it has none to sleep for only when nothing is armed. *)
Theorem next_timer_is_earliest m :
  match next_timer_due m with
  | None => armed_timers (mc_timers m) = []
  | Some (due, ev) =>
      (due, ev) ∈ armed_timers (mc_timers m) ∧
      ∀ due' ev', (due', ev') ∈ armed_timers (mc_timers m) → due ≤ due'
  end.
Proof.
  pose proof (next_timer_earliest m) as H. destruct (next_timer_due m) as [[due ev]|]; [|done].
  destruct H as [Hin Hmin]. split; [done|]. intros due' ev' Hy. apply (Hmin _ Hy).
Qed.

(** A wake-up while backing off asks the rate budget, and dials if it grants. *)
Lemma backing_off_wakes env wd w :
  mc_state (w_mc w) = BackingOff →
  wd = TimerBackoffElapsed ∨ wd = TimerRateBudgetWindowAdvanced →
  let m' := w_mc (reactor_step env wd w).2 in
  match (try_consume (env_clock env (w_clock_reads w)) (w_budget w)).1 with
  | inl th =>
      tm_rate_budget_window_advanced_at (mc_timers m') = Some (throttle_until_monotonic th)
  | inr _ => mc_state m' = Connecting
  end.
Proof.
  destruct w as [m b c j s effs]. simpl. intros Hs [-> | ->];
    unfold reactor_step, pop_timer_for_event, handle_event, modify_timers, modify, gets,
      mbind, M_bind; simpl; rewrite Hs;
    unfold handle_backing_off, with_rate_budget, budget_try_consume, clock_now, mbind,
      M_bind; simpl;
    by destruct (try_consume (env_clock env c) b) as [[th|?] b'].
Qed.

(** C15: A connection that is not at rest is never stuck: its state's own deadline is
    armed, the reactor wakes no later than that, and handling the deadline leaves the
    state, or, when backing off, either dials or waits for the rate budget's window
    with that timer armed. *)
Theorem never_stuck url m :
  reachable url m → at_rest (mc_state m) = false →
  ∃ due wd, watchdog m = Some (due, wd) ∧
    (∃ due' ev', next_timer_due m = Some (due', ev') ∧ due' ≤ due) ∧
    ∀ env w, w_mc w = m →
      let w' := (reactor_step env wd w).2 in
      mc_state (w_mc w') ≠ mc_state m ∨
      ∃ th, mc_state m = BackingOff ∧
        (try_consume (env_clock env (w_clock_reads w)) (w_budget w)).1 = inl th ∧
        tm_rate_budget_window_advanced_at (mc_timers (w_mc w')) =
          Some (throttle_until_monotonic th).
Proof.
  intros Hi%reachable_inv Hr. destruct (watchdog_armed m (proj1 Hi) Hr) as (due & wd & Hwd & Hin).
  exists due, wd. split; [done|]. split.
  - pose proof (next_timer_earliest m) as He.
    destruct (next_timer_due m) as [[due' ev']|]; simpl in He.
    + destruct He as [_ He]. specialize (He _ Hin). by eauto.
    + rewrite He in Hin. by apply not_elem_of_nil in Hin.
  - intros env w <- w'. destruct (decide (mc_state (w_mc w) = BackingOff)) as [Hb|Hb].
    + assert (wd = TimerBackoffElapsed ∨ wd = TimerRateBudgetWindowAdvanced) as Hev.
      { unfold watchdog in Hwd. rewrite Hb in Hwd.
        repeat case_match; simplify_option_eq; auto. }
      pose proof (backing_off_wakes env wd w Hb Hev) as Hw. simpl in Hw.
      destruct (try_consume _ _).1 as [th|[]]; [by right; eauto|].
      left. unfold w'. by rewrite Hw, Hb.
    + left. by apply (watchdog_exits env (w_mc w) (w_effects w) due wd Hi Hb Hwd w).
Qed.

Definition throttled_mc : ManagedConnection :=
  w_mc (drive env0 [OpEvent (CallStartConnect 1)]
          (mkWorld (mc_new env0 Auth) (mkBudget [0] 600000000000 1) 0 0 0 [])).

Lemma never_stuck_witness :
  mc_state throttled_mc = BackingOff ∧
  ∃ due wd, watchdog throttled_mc = Some (due, wd) ∧
    ∃ due' ev', next_timer_due throttled_mc = Some (due', ev') ∧ due' ≤ due.
Proof.
  split; [by vm_compute|].
  destruct (never_stuck Auth throttled_mc) as (due & wd & Hwd & Hn & _).
  - apply drive_reachable; [apply (reach_new Auth env0)|by vm_compute].
  - by vm_compute.
  - by exists due, wd.
Defined.
