(* ===== verification/TokenLifecycle.v ===== *)
(** * TokenLifecycle: the WebSocket token cache and its refreshes

    [rust/src/auth/token_lifecycle.rs].  A refresh is a spawned task: it fetches, stores
    the token, publishes, and hands its outcome to the reactor, in separate steps that
    other threads interleave with.  The answer of the signed request is the environment;
    the outcome channel is the list of outcomes sent. *)

From Stdlib Require Import Ascii String.
From S2P Require Import Prelude F64 Types Events Errors Rest.
Local Open Scope string_scope.
Local Open Scope N_scope.

(** ** Tokens *)

Record WsToken := mkToken { token_value : string; fetched_at : MonotonicInstant }.

Definition WS_TOKEN_TTL : Duration := 900000000000.
Definition WS_TOKEN_REFRESH_AT : Duration := 450000000000.

Definition is_expired (now : MonotonicInstant) (t : WsToken) : bool :=
  WS_TOKEN_TTL <=? now - fetched_at t.

Definition refresh_due_at (t : WsToken) : MonotonicInstant :=
  fetched_at t + WS_TOKEN_REFRESH_AT.

Inductive RefreshReason := Scheduled | AuthHandshakeFailed | Manual.

#[export] Instance RefreshReason_eq_dec : EqDecision RefreshReason.
Proof. solve_decision. Defined.

Definition refresh_reason_payload (r : RefreshReason) : RefreshReasonPayload :=
  match r with
  | Scheduled => Proactive
  | AuthHandshakeFailed => Reactive
  | Manual => ManualRefresh
  end.

Record RefreshOutcome := mkOutcome {
  outcome_request_id : N;
  outcome_result : AuthError + WsToken;
}.

(** ** Decoding *)

Definition decode_token_result (result : Json) (now : MonotonicInstant)
  : AuthError + WsToken :=
  match json_get "token" result ≫= json_as_str with
  | None =>
      inl (AuthUnknown "INTERNAL" "GetWebSocketsToken response missing string `token`")
  | Some token =>
      if String.eqb token "" then
        inl (AuthUnknown "INTERNAL" "GetWebSocketsToken returned an empty `token`")
      else inr (mkToken token now)
  end.

Definition map_rest_to_auth (e : RestError) : AuthError :=
  match e with
  | RestAuth a => a
  | RestKraken codes =>
      let joined := String.concat "," codes in
      if str_contains "Invalid key" joined then InvalidKey
      else if str_contains "Invalid signature" joined then InvalidSignature
      else if str_contains "Invalid nonce" joined then InvalidNonce
      else if str_contains "Permission denied" joined then PermissionDeniedError None
      else if str_contains "Temporary lockout" joined then TemporaryLockout
      else if is_kraken_rate_limit joined || str_contains "EService:" joined
      then TokenRefreshTransientError
      else AuthUnknown joined "GetWebSocketsToken rejected"
  | RestTransport _ true => TokenRefreshTransientError
  | RestTransport _ false => TokenRefreshFailed
  | RestRateLimit _ => TokenRefreshTransientError
  | RestUnexpectedShape s =>
      AuthUnknown "INTERNAL" ("token fetch transport/shape error: Unexpected shape: " ++ s ++ ".")
  end.

Definition classify_auth_error (e : AuthError) : ErrorClass :=
  match e with
  | InvalidKey | InvalidSignature | InvalidNonce | PermissionDeniedError _
  | TemporaryLockout | TokenStaleError => ErrAuth
  | TokenRefreshFailed | TokenRefreshTransientError => ErrNetwork
  | AuthClientClosed => ErrClientClosed
  | AuthUnknown _ _ => ErrUnknown
  end.

(** ** The manager *)

Record TokenLifecycleManager := mkManager {
  cached_token : option WsToken;
  refresh_handle_seq : N;
  proactive_inflight : bool;
}.

Definition manager_new : TokenLifecycleManager := mkManager None 1 false.

Definition store_token (t : WsToken) (m : TokenLifecycleManager) : TokenLifecycleManager :=
  mkManager (Some t) (refresh_handle_seq m) (proactive_inflight m).
Definition invalidate_cached_token (m : TokenLifecycleManager) : TokenLifecycleManager :=
  mkManager None (refresh_handle_seq m) (proactive_inflight m).
Definition set_proactive_inflight (b : bool) (m : TokenLifecycleManager)
  : TokenLifecycleManager :=
  mkManager (cached_token m) (refresh_handle_seq m) b.

(** [TokenRefreshTask]; the single-flight guard is held by the task of id 0. *)
Record TokenRefreshTask := mkTask { task_request_id : N; task_reason : RefreshReason }.

(** [fetch_add] wraps. *)
Definition reactive_refresh (reason : RefreshReason) (m : TokenLifecycleManager)
  : TokenRefreshTask * TokenLifecycleManager :=
  let id := refresh_handle_seq m in
  (mkTask id reason,
   mkManager (cached_token m) (u64_wrapping_add id 1) (proactive_inflight m)).

Definition proactive_refresh (m : TokenLifecycleManager)
  : option TokenRefreshTask * TokenLifecycleManager :=
  if proactive_inflight m then (None, m)
  else (Some (mkTask 0 Scheduled), set_proactive_inflight true m).

(** ** A refresh task *)

(** The answer of the token request: the REST surface may be gone. *)
Inductive FetchAnswer :=
  | SurfaceGone
  | Answered (answer : RestError + Json).

Inductive TaskStage :=
  | Fetching
  | Fetched (result : AuthError + WsToken)
  | Sending (outcome : RefreshOutcome)
  | Sent.

(** [fetch] and [fetch_and_cache]; [now] is the clock after the round trip. *)
Definition fetch (answer : FetchAnswer) (now : MonotonicInstant)
  (m : TokenLifecycleManager) : (AuthError + WsToken) * TokenLifecycleManager :=
  match answer with
  | SurfaceGone => (inl AuthClientClosed, m)
  | Answered (inl e) => (inl (map_rest_to_auth e), m)
  | Answered (inr result) =>
      match decode_token_result result now with
      | inl e => (inl e, m)
      | inr token => (inr token, store_token token m)
      end
  end.

(** What [run] publishes once the fetch is over. *)
Definition refresh_event (key_id_fingerprint : string) (task : TokenRefreshTask)
  (result : AuthError + WsToken) (now : MonotonicInstant) : EventEnvelope :=
  match result with
  | inr token =>
      mkEnvelope CredentialRefreshedEvent 1 now None
        (PCredentialRefreshed key_id_fingerprint (fetched_at token + WS_TOKEN_TTL)
           (refresh_reason_payload (task_reason task)))
  | inl e =>
      mkEnvelope CredentialRefreshFailedEvent 1 now None
        (PCredentialRefreshFailed key_id_fingerprint 1 (classify_auth_error e) None)
  end.

(** ** The manager and its tasks *)

Record TokenState := mkTokens {
  manager : TokenLifecycleManager;
  tasks : list (TokenRefreshTask * TaskStage);
  outcomes : list RefreshOutcome;
  credential_events : list EventEnvelope;
}.

Definition tokens_new : TokenState := mkTokens manager_new [] [] [].

Inductive TokenOp :=
  | TkReactive (reason : RefreshReason)
  | TkProactive
  | TkInvalidate
  | TkFetch (i : nat) (answer : FetchAnswer) (now : MonotonicInstant)
  | TkPublish (i : nat) (now : MonotonicInstant)
  | TkSend (i : nat) (receiver_alive : bool)
  | TkEnd (i : nat).

Definition token_op (fingerprint : string) (op : TokenOp) (s : TokenState) : TokenState :=
  match op with
  | TkReactive reason =>
      let '(task, m) := reactive_refresh reason (manager s) in
      mkTokens m (tasks s ++ [(task, Fetching)])%list (outcomes s) (credential_events s)
  | TkProactive =>
      let '(task, m) := proactive_refresh (manager s) in
      mkTokens m (tasks s ++ match task with Some t => [(t, Fetching)] | None => [] end)%list
        (outcomes s) (credential_events s)
  | TkInvalidate =>
      mkTokens (invalidate_cached_token (manager s)) (tasks s) (outcomes s)
        (credential_events s)
  | TkFetch i answer now =>
      match tasks s !! i with
      | Some (task, Fetching) =>
          let '(result, m) := fetch answer now (manager s) in
          mkTokens m (<[i := (task, Fetched result)]> (tasks s)) (outcomes s)
            (credential_events s)
      | _ => s
      end
  | TkPublish i now =>
      match tasks s !! i with
      | Some (task, Fetched result) =>
          mkTokens (manager s)
            (<[i := (task, Sending (mkOutcome (task_request_id task) result))]> (tasks s))
            (outcomes s)
            (credential_events s ++ [refresh_event fingerprint task result now])%list
      | _ => s
      end
  | TkSend i receiver_alive =>
      match tasks s !! i with
      | Some (task, Sending outcome) =>
          mkTokens (manager s) (<[i := (task, Sent)]> (tasks s))
            (outcomes s ++ if receiver_alive : bool then [outcome] else [])%list
            (credential_events s)
      | _ => s
      end
  | TkEnd i =>
      match tasks s !! i with
      | Some (task, _) =>
          mkTokens (if task_request_id task =? 0
                    then set_proactive_inflight false (manager s) else manager s)
            (delete i (tasks s)) (outcomes s) (credential_events s)
      | None => s
      end
  end.

(** ** What the tasks do, as it happens

    The ids are those of the tasks, 0 for a proactive one. *)

Local Open Scope list_scope.

Inductive TokenNote :=
  | NSpawned (id : N)
  | NFetched (id : N) (answer : FetchAnswer) (now : MonotonicInstant)
  | NInvalidated
  | NLost (id : N)
  | NAbandoned (id : N).

(** [NLost]: the receiver of the outcome was gone; [NAbandoned]: the task ended, by a panic,
    before its outcome was sent. *)
Definition token_note (op : TokenOp) (s : TokenState) : list TokenNote :=
  match op with
  | TkReactive reason => [NSpawned (task_request_id (reactive_refresh reason (manager s)).1)]
  | TkProactive =>
      match (proactive_refresh (manager s)).1 with
      | Some task => [NSpawned (task_request_id task)]
      | None => []
      end
  | TkInvalidate => [NInvalidated]
  | TkFetch i answer now =>
      match tasks s !! i with
      | Some (task, Fetching) => [NFetched (task_request_id task) answer now]
      | _ => []
      end
  | TkPublish _ _ => []
  | TkSend i receiver_alive =>
      match tasks s !! i with
      | Some (task, Sending _) => if receiver_alive : bool then [] else [NLost (task_request_id task)]
      | _ => []
      end
  | TkEnd i =>
      match tasks s !! i with
      | Some (_, Sent) | None => []
      | Some (task, _) => [NAbandoned (task_request_id task)]
      end
  end.

Fixpoint token_run (fingerprint : string) (ops : list TokenOp) (s : TokenState)
  : list TokenNote * TokenState :=
  match ops with
  | [] => ([], s)
  | op :: ops =>
      let '(log, s') := token_run fingerprint ops (token_op fingerprint op s) in
      (token_note op s ++ log, s')
  end.

Definition spawned (log : list TokenNote) : list N :=
  omap (λ n, match n with NSpawned id => Some id | _ => None end) log.

Definition gone (log : list TokenNote) : list N :=
  omap (λ n, match n with NLost id | NAbandoned id => Some id | _ => None end) log.

Definition fetches (log : list TokenNote) : list (N * FetchAnswer * MonotonicInstant) :=
  omap (λ n, match n with NFetched id answer now => Some (id, answer, now) | _ => None end) log.

(** The token an answer carries. *)
Definition token_in (answer : FetchAnswer) (now : MonotonicInstant) : option WsToken :=
  match answer with
  | Answered (inr result) =>
      match json_get "token" result with
      | Some (JString (String c v)) => Some (mkToken (String c v) now)
      | _ => None
      end
  | _ => None
  end.

(** The result of a fetch: that token, or an error that says which way there is none. *)
Definition result_told (answer : FetchAnswer) (now : MonotonicInstant)
  (result : AuthError + WsToken) : Prop :=
  match result with
  | inr t => token_in answer now = Some t
  | inl e =>
      token_in answer now = None ∧
      match answer with
      | SurfaceGone => e = AuthClientClosed
      | Answered (inl r) => e = map_rest_to_auth r
      | Answered (inr _) => ∃ message, e = AuthUnknown "INTERNAL" message
      end
  end.

Definition cache_step (c : option WsToken) (n : TokenNote) : option WsToken :=
  match n with
  | NFetched _ answer now => match token_in answer now with Some t => Some t | None => c end
  | NInvalidated => None
  | _ => c
  end.

(** The last token fetched since the last invalidation. *)
Definition cache_after (log : list TokenNote) : option WsToken := fold_left cache_step log None.

(** ** The invariant *)

Definition nonzero (id : N) : option N := if id =? 0 then None else Some id.

Definition pending_id (t : TokenRefreshTask * TaskStage) : option N :=
  match t.2 with Sent => None | _ => Some (task_request_id t.1) end.

Definition proactive_task (t : TokenRefreshTask * TaskStage) : option unit :=
  if task_request_id t.1 =? 0 then Some tt else None.

Definition proactive_tasks (s : TokenState) : nat := length (omap proactive_task (tasks s)).

#[local] Arguments proactive_tasks : simpl never.

(** The result a task holds. *)
Definition held_result (t : TokenRefreshTask * TaskStage) : option (N * (AuthError + WsToken)) :=
  match t.2 with
  | Fetched r => Some (task_request_id t.1, r)
  | Sending o => Some (task_request_id t.1, outcome_result o)
  | _ => None
  end.

Definition reported (o : RefreshOutcome) : N * (AuthError + WsToken) :=
  (outcome_request_id o, outcome_result o).

Definition sends_own (t : TokenRefreshTask * TaskStage) : Prop :=
  match t.2 with Sending o => outcome_request_id o = task_request_id t.1 | _ => True end.

Definition fetch_result (answer : FetchAnswer) (now : MonotonicInstant) : AuthError + WsToken :=
  (fetch answer now manager_new).1.

Definition fetched_results (log : list TokenNote) : list (N * (AuthError + WsToken)) :=
  map (λ f, (f.1.1, fetch_result f.1.2 f.2)) (fetches log).

(** After [n] operations. *)
Record tokens_wf (n : nat) (log : list TokenNote) (s : TokenState) : Prop := {
  wf_single_flight : proactive_tasks s = if proactive_inflight (manager s) then 1%nat else 0%nat;
  wf_count : (length (omap nonzero (spawned log)) ≤ n)%nat;
  wf_seq : refresh_handle_seq (manager s) = N.of_nat (S (length (omap nonzero (spawned log))));
  wf_ids : omap nonzero (spawned log) = N.of_nat <$> seq 1 (length (omap nonzero (spawned log)));
  wf_ledger : spawned log ≡ₚ
    omap pending_id (tasks s) ++ map outcome_request_id (outcomes s) ++ gone log;
  wf_results : ∃ dropped, fetched_results log ≡ₚ
    map reported (outcomes s) ++ omap held_result (tasks s) ++ dropped;
  wf_own : Forall sends_own (tasks s);
  wf_cached : cached_token (manager s) = cache_after log;
}.

Lemma omap_cons {A B} (f : A → option B) x l :
  omap f (x :: l) = match f x with Some y => y :: omap f l | None => omap f l end.
Proof. done. Qed.

(** A task in the middle of the list. *)
Lemma task_split (l : list (TokenRefreshTask * TaskStage)) i x :
  l !! i = Some x →
  ∃ l1 l2, l = l1 ++ x :: l2 ∧ delete i l = l1 ++ l2 ∧ ∀ y, <[i := y]> l = l1 ++ y :: l2.
Proof.
  intros Hi. exists (take i l), (drop (S i) l). split_and!.
  - by rewrite take_drop_middle.
  - by rewrite delete_take_drop.
  - intros y. by rewrite insert_take_drop by (by eapply lookup_lt_Some).
Qed.

Lemma token_in_good answer now t : token_in answer now = Some t → token_value t ≠ "".
Proof. unfold token_in. repeat case_match; by intros [= <-]. Qed.

Lemma fetch_told answer now m :
  (fetch answer now m).1 = fetch_result answer now ∧
  result_told answer now (fetch_result answer now) ∧
  (fetch answer now m).2 =
    match token_in answer now with Some t => store_token t m | None => m end.
Proof.
  destruct answer as [|[e|r]]; [done..|]. unfold fetch_result, fetch, decode_token_result.
  cbn [token_in]. destruct (json_get "token" r) as [[| | |[|c v]| |]|] eqn:E; cbn; rewrite ?E; eauto.
Qed.

Lemma cache_after_snoc log n : cache_after (log ++ [n]) = cache_step (cache_after log) n.
Proof. unfold cache_after. by rewrite fold_left_app. Qed.

#[local] Hint Rewrite @omap_app @length_app @map_app @app_nil_r : tokens.

Ltac tokens_simpl :=
  unfold spawned, gone, fetched_results, fetches in *; cbn in *;
  autorewrite with tokens in *; cbn in *.

Lemma tokens_wf_more n log s : tokens_wf n log s → tokens_wf (S n) log s.
Proof. intros []. constructor; try done. lia. Qed.

Lemma tokens_start : tokens_wf 0 [] tokens_new.
Proof. constructor; try done. by exists []. Qed.

Lemma reactive_wf n log s reason fp :
  N.of_nat (S n) < u64_max → tokens_wf n log s →
  tokens_wf (S n) (log ++ token_note (TkReactive reason) s) (token_op fp (TkReactive reason) s).
Proof.
  intros Hn [Hsf Hco Hsq Hids Hled [dr Hres] Hown Hca].
  set (k := length (omap nonzero (spawned log))) in *.
  assert (Hne : refresh_handle_seq (manager s) ≠ 0) by lia.
  assert (Hnz : omap nonzero (spawned (log ++ token_note (TkReactive reason) s)) =
    omap nonzero (spawned log) ++ [refresh_handle_seq (manager s)]).
  { unfold spawned. rewrite !omap_app. cbn. unfold nonzero at 2.
    by apply N.eqb_neq in Hne as ->. }
  assert (Hlen : length (omap nonzero (spawned (log ++ token_note (TkReactive reason) s))) = S k)
    by (rewrite Hnz, length_app; cbn; lia).
  set (log' := log ++ token_note (TkReactive reason) s) in *.
  constructor; rewrite ?Hlen; cbn -[u64_wrapping_add log' seq].
  - unfold proactive_tasks in *; cbn. rewrite omap_app, length_app, Hsf; cbn.
    unfold proactive_task; cbn. apply N.eqb_neq in Hne as ->. cbn. lia.
  - lia.
  - rewrite Hsq. unfold u64_wrapping_add. rewrite N.mod_small; [lia|]. unfold u64_max in *. lia.
  - rewrite Hnz, seq_S, fmap_app, <-Hids, Hsq. done.
  - subst log'. tokens_simpl. rewrite Hled. solve_Permutation.
  - exists dr. subst log'. tokens_simpl. done.
  - apply Forall_app. split; [done|]. by constructor.
  - subst log'. cbn. by rewrite cache_after_snoc.
Qed.

Lemma proactive_wf n log s fp :
  tokens_wf n log s →
  tokens_wf (S n) (log ++ token_note TkProactive s) (token_op fp TkProactive s).
Proof.
  intros [Hsf Hco Hsq Hids Hled [dr Hres] Hown Hca]. cbn. unfold proactive_refresh.
  destruct (proactive_inflight (manager s)) eqn:E; cbn.
  { rewrite !app_nil_r. destruct s as [m ts os ev]. constructor; cbn in *; try done;
      [by rewrite E|lia|by exists dr]. }
  assert (Hnz : omap nonzero (spawned (log ++ [NSpawned 0])) = omap nonzero (spawned log)).
  { unfold spawned. rewrite !omap_app. cbn. by rewrite app_nil_r. }
  constructor; rewrite ?Hnz; cbn; try done.
  - unfold proactive_tasks in *; cbn. rewrite omap_app, length_app, Hsf. done.
  - lia.
  - tokens_simpl. rewrite Hled. solve_Permutation.
  - exists dr. tokens_simpl. done.
  - apply Forall_app. split; [done|]. by constructor.
  - by rewrite cache_after_snoc.
Qed.

Lemma invalidate_wf n log s fp :
  tokens_wf n log s →
  tokens_wf (S n) (log ++ token_note TkInvalidate s) (token_op fp TkInvalidate s).
Proof.
  intros [Hsf Hco Hsq Hids Hled [dr Hres] Hown Hca].
  assert (Hnz : spawned (log ++ [NInvalidated]) = spawned log)
    by (unfold spawned; by rewrite omap_app, app_nil_r).
  constructor; cbn; rewrite ?Hnz; try done; [lia| | |by rewrite cache_after_snoc].
  - tokens_simpl. done.
  - exists dr. tokens_simpl. done.
Qed.

(** A task that keeps its id and moves on. *)
Lemma proactive_tasks_move s m os ev l1 l2 task st st' :
  tasks s = l1 ++ (task, st) :: l2 →
  proactive_tasks (mkTokens m (l1 ++ (task, st') :: l2) os ev) = proactive_tasks s.
Proof. intros Hl. unfold proactive_tasks; cbn. by rewrite Hl, !omap_app, !omap_cons. Qed.

Lemma fetch_wf n log s i answer now fp :
  tokens_wf n log s →
  tokens_wf (S n) (log ++ token_note (TkFetch i answer now) s)
    (token_op fp (TkFetch i answer now) s).
Proof.
  intros Hwf. cbn. destruct (fetch_told answer now (manager s)) as (Hf & _ & Hm).
  destruct (tasks s !! i) as [[task [| | |]]|] eqn:Hi;
    try (rewrite app_nil_r; by apply tokens_wf_more).
  destruct Hwf as [Hsf Hco Hsq Hids Hled [dr Hres] Hown Hca].
  destruct (fetch answer now (manager s)) as [result m]; cbn in Hf, Hm. subst result.
  destruct (task_split _ _ _ Hi) as (l1 & l2 & Hl & _ & Hins). rewrite Hins.
  assert (Hnz : spawned (log ++ [NFetched (task_request_id task) answer now]) = spawned log)
    by (unfold spawned; by rewrite omap_app, app_nil_r).
  assert (Hk : refresh_handle_seq m = refresh_handle_seq (manager s) ∧
               proactive_inflight m = proactive_inflight (manager s))
    by (rewrite Hm; by destruct (token_in answer now)). destruct Hk as [Hk1 Hk2].
  rewrite Hl in Hled, Hres, Hown.
  constructor; cbn; rewrite ?Hnz, ?Hk1, ?Hk2; try done.
  - by erewrite proactive_tasks_move.
  - lia.
  - tokens_simpl. done.
  - exists dr. tokens_simpl. rewrite Hres. solve_Permutation.
  - apply Forall_app in Hown as [? [_ ?]%Forall_cons]. apply Forall_app. split; [done|].
    by constructor.
  - rewrite cache_after_snoc, Hm. cbn. rewrite <-Hca. by destruct (token_in answer now).
Qed.

Lemma publish_wf n log s i now fp :
  tokens_wf n log s →
  tokens_wf (S n) (log ++ token_note (TkPublish i now) s) (token_op fp (TkPublish i now) s).
Proof.
  intros Hwf. cbn. rewrite app_nil_r.
  destruct (tasks s !! i) as [[task [|r| |]]|] eqn:Hi; try by apply tokens_wf_more.
  destruct Hwf as [Hsf Hco Hsq Hids Hled [dr Hres] Hown Hca].
  destruct (task_split _ _ _ Hi) as (l1 & l2 & Hl & _ & Hins). rewrite Hins.
  rewrite Hl in Hled, Hres, Hown.
  constructor; cbn; try done.
  - by erewrite proactive_tasks_move.
  - lia.
  - tokens_simpl. done.
  - exists dr. tokens_simpl. done.
  - apply Forall_app in Hown as [? [_ ?]%Forall_cons]. apply Forall_app. split; [done|].
    by constructor.
Qed.

Lemma send_wf n log s i alive fp :
  tokens_wf n log s →
  tokens_wf (S n) (log ++ token_note (TkSend i alive) s) (token_op fp (TkSend i alive) s).
Proof.
  intros Hwf. cbn.
  destruct (tasks s !! i) as [[task [| |o|]]|] eqn:Hi;
    try (rewrite app_nil_r; by apply tokens_wf_more).
  destruct Hwf as [Hsf Hco Hsq Hids Hled [dr Hres] Hown Hca].
  destruct (task_split _ _ _ Hi) as (l1 & l2 & Hl & _ & Hins). rewrite Hins.
  rewrite Hl in Hled, Hres, Hown.
  apply Forall_app in Hown as [Ho1 [Ho Ho2]%Forall_cons]. cbn in Ho.
  set (notes := if alive then [] else [NLost (task_request_id task)]).
  assert (Hnz : spawned (log ++ notes) = spawned log)
    by (unfold spawned; rewrite omap_app; subst notes; destruct alive; cbn; by rewrite app_nil_r).
  constructor; cbn; rewrite ?Hnz; try done.
  - by erewrite proactive_tasks_move.
  - lia.
  - subst notes. tokens_simpl. rewrite Hled, ?Ho. destruct alive; cbn; rewrite ?Ho; solve_Permutation.
  - exists ((if alive then [] else [(task_request_id task, outcome_result o)]) ++ dr).
    subst notes. tokens_simpl. unfold reported.
    destruct alive; cbn; rewrite ?app_nil_r, Hres, ?Ho; solve_Permutation.
  - apply Forall_app. split; [done|]. by constructor.
  - subst notes. destruct alive; [by rewrite app_nil_r|by rewrite cache_after_snoc].
Qed.

Lemma end_wf n log s i fp :
  tokens_wf n log s →
  tokens_wf (S n) (log ++ token_note (TkEnd i) s) (token_op fp (TkEnd i) s).
Proof.
  intros Hwf. cbn.
  destruct (tasks s !! i) as [[task st]|] eqn:Hi; [|rewrite app_nil_r; by apply tokens_wf_more].
  destruct Hwf as [Hsf Hco Hsq Hids Hled [dr Hres] Hown Hca].
  destruct (task_split _ _ _ Hi) as (l1 & l2 & Hl & Hdel & _). rewrite Hdel.
  rewrite Hl in Hled, Hres, Hown.
  apply Forall_app in Hown as [Ho1 [Ho Ho2]%Forall_cons]. cbn in Ho.
  set (m' := if task_request_id task =? 0
             then set_proactive_inflight false (manager s) else manager s).
  assert (Hm : refresh_handle_seq m' = refresh_handle_seq (manager s) ∧
               cached_token m' = cached_token (manager s))
    by (unfold m'; by destruct (task_request_id task =? 0)).
  destruct Hm as [Hm1 Hm2].
  set (notes := match st with Sent => [] | _ => [NAbandoned (task_request_id task)] end).
  assert (Hnz : spawned (log ++ notes) = spawned log)
    by (unfold spawned; rewrite omap_app; subst notes; destruct st; cbn; by rewrite app_nil_r).
  assert (Hca' : cache_after (log ++ notes) = cache_after log)
    by (subst notes; destruct st; rewrite ?app_nil_r, ?cache_after_snoc; done).
  constructor; cbn; rewrite ?Hnz, ?Hm1, ?Hm2, ?Hca'; try done.
  - unfold proactive_tasks in *; cbn in *. rewrite Hl, !omap_app, omap_cons in Hsf.
    rewrite omap_app, length_app in *. unfold m'. unfold proactive_task at 2 in Hsf; cbn in Hsf.
    destruct (task_request_id task =? 0); cbn in *; [|lia].
    destruct (proactive_inflight (manager s)); lia.
  - lia.
  - subst notes. tokens_simpl. rewrite Hled. destruct st; cbn; rewrite ?app_nil_r; solve_Permutation.
  - exists (option_list (held_result (task, st)) ++ dr). subst notes. tokens_simpl.
    rewrite Hres. destruct st; cbn; rewrite ?app_nil_r; solve_Permutation.
  - by apply Forall_app.
Qed.

Lemma token_op_wf n log s op fp :
  N.of_nat (S n) < u64_max → tokens_wf n log s →
  tokens_wf (S n) (log ++ token_note op s) (token_op fp op s).
Proof.
  intros Hn Hwf. destruct op.
  - by apply reactive_wf.
  - by apply proactive_wf.
  - by apply invalidate_wf.
  - by apply fetch_wf.
  - by apply publish_wf.
  - by apply send_wf.
  - by apply end_wf.
Qed.

Lemma token_run_wf fp ops n log s :
  N.of_nat (n + length ops) < u64_max → tokens_wf n log s →
  tokens_wf (n + length ops) (log ++ (token_run fp ops s).1) (token_run fp ops s).2.
Proof.
  revert n log s. induction ops as [|op ops IH]; intros n log s Hn Hwf; cbn [token_run length].
  { cbn. by rewrite Nat.add_0_r, app_nil_r. }
  specialize (IH (S n) (log ++ token_note op s) (token_op fp op s)).
  destruct (token_run fp ops (token_op fp op s)) as [log' s'] eqn:E. cbn [fst snd] in *.
  rewrite Nat.add_succ_r, app_assoc. apply IH; [cbn in Hn; lia|].
  apply token_op_wf; [cbn in Hn; lia|done].
Qed.

Lemma submseteq_results {A} (f : N * FetchAnswer * MonotonicInstant → A) l fs :
  l ⊆+ map f fs → ∃ fs', fs' ⊆+ fs ∧ l = map f fs'.
Proof.
  intros (k & Hp)%submseteq_Permutation.
  destruct (Permutation_map_inv f _ (symmetry Hp)) as (fs1 & E & Hp1).
  symmetry in E. apply map_eq_app in E as (fs' & k' & -> & <- & _).
  exists fs'. split; [|done]. rewrite Hp1. apply submseteq_inserts_r. done.
Qed.

(** C32: Whatever way refresh tasks interleave with invalidations and with each other: at
    most one proactive refresh runs at a time and the single-flight flag is set exactly
    while one does (a task that panics gives it back); the reactive refreshes get the ids 1,
    2, 3, ... and every refresh that was started either still has its outcome to hand over or
    handed over one, or lost it to a receiver that was gone or to a panic; every outcome
    handed over is the result of a fetch of that refresh, of its own, which is the token of
    that answer or the error that the answer stands for; and the cached token is the last one
    fetched since the last invalidation, which a failed fetch leaves.  No token that is
    cached or handed over is empty. *)
Theorem refreshes_accounted fp ops log s :
  token_run fp ops tokens_new = (log, s) → N.of_nat (length ops) < u64_max →
  proactive_tasks s = (if proactive_inflight (manager s) then 1%nat else 0%nat) ∧
  (∃ k, omap nonzero (spawned log) = N.of_nat <$> seq 1 k) ∧
  spawned log ≡ₚ omap pending_id (tasks s) ++ map outcome_request_id (outcomes s) ++ gone log ∧
  (∃ own, own ⊆+ fetches log ∧
     Forall2 (λ o f, outcome_request_id o = f.1.1 ∧ result_told f.1.2 f.2 (outcome_result o))
       (outcomes s) own) ∧
  cached_token (manager s) = cache_after log ∧
  (∀ t, cached_token (manager s) = Some t → token_value t ≠ ""%string) ∧
  (∀ o t, o ∈ outcomes s → outcome_result o = inr t → token_value t ≠ ""%string).
Proof.
  intros Hr Hn. pose proof (token_run_wf fp ops 0 [] tokens_new Hn tokens_start) as Hwf.
  rewrite Hr in Hwf. cbn [fst snd app] in Hwf.
  destruct Hwf as [Hsf _ _ Hids Hled [dr Hres] _ Hca].
  assert (∃ own, own ⊆+ fetches log ∧
     Forall2 (λ o f, outcome_request_id o = f.1.1 ∧ result_told f.1.2 f.2 (outcome_result o))
       (outcomes s) own) as Hown.
  { destruct (submseteq_results (λ f, (f.1.1, fetch_result f.1.2 f.2)) (map reported (outcomes s))
      (fetches log)) as (own & Hsub & E).
    { change (map _ (fetches log)) with (fetched_results log). rewrite Hres.
      by apply submseteq_inserts_r. }
    exists own. split; [done|]. clear -E. revert own E.
    induction (outcomes s) as [|o os IH]; intros [|f own] E; try discriminate; [constructor|].
    injection E as E1 E2 E3. constructor; [|by apply IH].
    split; [exact E1|]. rewrite E2. apply (fetch_told _ _ manager_new). }
  split_and!; try done.
  - by eexists.
  - rewrite Hca. clear. unfold cache_after. induction log as [|n log IH] using rev_ind; [done|].
    rewrite fold_left_app. cbn. destruct n as [|? a t| | |]; cbn; auto.
    destruct (token_in a t) eqn:E; [|done]. intros ? [= <-]. by eapply token_in_good.
  - intros o t [i Hi]%list_elem_of_lookup_1 Ht. destruct Hown as (own & _ & Hall).
    destruct (Forall2_lookup_l _ _ _ _ _ Hall Hi) as (f & _ & _ & Htold).
    rewrite Ht in Htold. by eapply token_in_good.
Qed.

(** A stale handshake forces a refresh while a scheduled one is running; the scheduled one's
    task dies, a second tick starts another, and its token replaces the first one's. *)
Definition refresh_run : list TokenOp :=
  let token v := JObject [("token", JString v)]%string in
  [TkProactive; TkReactive AuthHandshakeFailed; TkProactive; TkInvalidate;
   TkFetch 1 (Answered (inr (token "abc"))) 5; TkPublish 1 6; TkSend 1 true; TkEnd 0; TkProactive;
   TkFetch 1 (Answered (inr (token "def"))) 9]%string.

Lemma refreshes_accounted_witness :
  let '(log, s) := token_run "fp" refresh_run tokens_new in
  spawned log = [0; 1; 0] ∧ gone log = [0] ∧ outcomes s = [mkOutcome 1 (inr (mkToken "abc" 5))] ∧
  cache_after log = Some (mkToken "def" 9) ∧
  cached_token (manager s) = cache_after log ∧
  spawned log ≡ₚ omap pending_id (tasks s) ++ map outcome_request_id (outcomes s) ++ gone log.
Proof.
  destruct (token_run "fp" refresh_run tokens_new) as [log s] eqn:Hrun.
  pose proof (refreshes_accounted "fp" refresh_run log s Hrun ltac:(reflexivity))
    as (_ & _ & Hl & _ & Hc & _).
  split_and!; [..|exact Hc|exact Hl]; clear Hc Hl; vm_compute in Hrun;
    injection Hrun as <- <-; reflexivity.
Defined.
