(* ===== verification/Registry.v ===== *)
(** * Registry: the declared subscriptions

    [rust/src/conn/subscription_registry.rs] and the maintained-book drive of its
    entries.  The registry is owned by the reactor task, so its operations are functions
    of its state.  [Decimal] and the CRC are the parameters of [Book];
    [decode_frame] is serde's derived deserializer of the book envelope. *)

From Stdlib Require Import Ascii String.
From stdpp Require Import sorting.
From S2P Require Import Prelude Types Events Errors.
From S2P Require Import Book.
Local Open Scope string_scope.
Local Open Scope N_scope.

(** ** Vocabulary *)

Inductive EntrySubState :=
  | SubPending
  | SubAcked
  | SubTerminated (cause : TerminationCause) (last_error : option string).

Record MirrorRow := mkRow {
  row_state : EntrySubState;
  row_registered_at : MonotonicInstant;
}.

Inductive RemovedEntryKind := Live | Tombstone.

Inductive ReseedTimeoutOutcome := StaleNoOp | ReseedRetry | Exhausted.

Definition MAX_CONSECUTIVE_BOOK_GAPS : N := 5.

(** [SequenceTracker] *)
Definition observe (seq : N) (is_snapshot : bool) (last : option N)
  : option N * option N :=
  (if is_snapshot then None
   else
     l ← last;
     if seq <? l then None
     else if 1 <? seq - l then Some (N.min (seq - l - 1) u32_max) else None,
   Some seq).

Abbreviation HandlerId := N.
Abbreviation GuardKey := (HandlerId * ChannelName * option Symbol)%type.

Section Registry.
Context {Decimal : Type} (dcmp : Decimal → Decimal → comparison)
  (crc32 : list (string * string) → list (string * string) → N)
  (dec_from_str : string → option Decimal)
  (decode_frame : Json → option RawBookData).

Abbreviation Builder := (@OrderBookBuilder Decimal).

(** ** Entries *)

Inductive BookDriveOutcome :=
  | PassThrough
  | Maintained (u : @OrderBookUpdate Decimal)
  | Gap (expected computed : N)
  | AwaitingSnapshot
  | GapBudgetExhausted.

Record SubscriptionEntry := mkEntry {
  sub_url : WsUrl;
  sub_channel : ChannelName;
  sub_pair : option Symbol;
  sub_params : SubscribeParams;
  sub_count : N;
  sub_builder : option Builder;
  sub_seq : option N;
  sub_generation : N;
  sub_state : EntrySubState;
  tombstone_holders : N;
  stale_release_credits : N;
}.

Definition entry_set_count (n : N) (e : SubscriptionEntry) : SubscriptionEntry :=
  mkEntry (sub_url e) (sub_channel e) (sub_pair e) (sub_params e) n (sub_builder e)
    (sub_seq e) (sub_generation e) (sub_state e) (tombstone_holders e)
    (stale_release_credits e).
Definition entry_set_builder (b : option Builder) (e : SubscriptionEntry)
  : SubscriptionEntry :=
  mkEntry (sub_url e) (sub_channel e) (sub_pair e) (sub_params e) (sub_count e) b
    (sub_seq e) (sub_generation e) (sub_state e) (tombstone_holders e)
    (stale_release_credits e).
Definition entry_set_seq (s : option N) (e : SubscriptionEntry) : SubscriptionEntry :=
  mkEntry (sub_url e) (sub_channel e) (sub_pair e) (sub_params e) (sub_count e)
    (sub_builder e) s (sub_generation e) (sub_state e) (tombstone_holders e)
    (stale_release_credits e).
Definition entry_set_generation (g : N) (e : SubscriptionEntry) : SubscriptionEntry :=
  mkEntry (sub_url e) (sub_channel e) (sub_pair e) (sub_params e) (sub_count e)
    (sub_builder e) (sub_seq e) g (sub_state e) (tombstone_holders e)
    (stale_release_credits e).
Definition entry_set_state (s : EntrySubState) (e : SubscriptionEntry)
  : SubscriptionEntry :=
  mkEntry (sub_url e) (sub_channel e) (sub_pair e) (sub_params e) (sub_count e)
    (sub_builder e) (sub_seq e) (sub_generation e) s (tombstone_holders e)
    (stale_release_credits e).
Definition entry_set_holders (n : N) (e : SubscriptionEntry) : SubscriptionEntry :=
  mkEntry (sub_url e) (sub_channel e) (sub_pair e) (sub_params e) (sub_count e)
    (sub_builder e) (sub_seq e) (sub_generation e) (sub_state e) n
    (stale_release_credits e).
Definition entry_set_credits (n : N) (e : SubscriptionEntry) : SubscriptionEntry :=
  mkEntry (sub_url e) (sub_channel e) (sub_pair e) (sub_params e) (sub_count e)
    (sub_builder e) (sub_seq e) (sub_generation e) (sub_state e) (tombstone_holders e) n.

Definition is_tombstone (e : SubscriptionEntry) : bool :=
  match sub_state e with SubTerminated _ _ => true | _ => false end.

Definition entry_new (url : WsUrl) (channel : ChannelName) (pair : option Symbol)
  (params : SubscribeParams) : SubscriptionEntry :=
  let builder :=
    match channel, pair, params with
    | Types.Book, Some sym, PBook depth =>
        Some (book_new sym (N.to_nat (as_wire_u32 (wire_depth depth)))
                (N.to_nat (as_wire_u32 depth)))
    | _, _, _ => None
    end in
  mkEntry url channel pair params 1 builder None 0 SubPending 0 0.

(** [parse_book_frame] *)
Definition parse_book_frame (data : Json) : option (@ParsedBook Decimal) :=
  raw ← decode_frame data; parse_raw dec_from_str raw.

(** A mis-routed frame trips a [debug_assert!]; the release build passes it through. *)
Definition drive_update (is_snapshot : bool) (data : Json) (e : SubscriptionEntry)
  : BookDriveOutcome * SubscriptionEntry :=
  match sub_builder e with
  | None => (PassThrough, e)
  | Some builder =>
      if resyncing builder && negb is_snapshot then (AwaitingSnapshot, e)
      else
        match parse_book_frame data with
        | None => (PassThrough, e)
        | Some parsed =>
            if negb (String.eqb (parsed_symbol parsed) (book_symbol builder))
            then (PassThrough, e)
            else
              let checksum := parsed_checksum parsed in
              let '(result, builder) :=
                if is_snapshot
                then apply_snapshot dcmp crc32 (parsed_bids parsed) (parsed_asks parsed)
                       checksum builder
                else apply_delta dcmp crc32 (parsed_bids parsed) (parsed_asks parsed)
                       checksum builder in
              match result with
              | inr _ =>
                  (Maintained (build_update checksum None (parsed_timestamp parsed) builder),
                   entry_set_builder (Some builder) e)
              | inl (ChecksumMismatch expected computed) =>
                  if MAX_CONSECUTIVE_BOOK_GAPS <=? consecutive_gaps builder
                  then (GapBudgetExhausted, entry_set_builder None e)
                  else (Gap expected computed, entry_set_builder (Some builder) e)
              end
        end
  end.

(** ** The registry

    [mirror_poisoned] is the poisoning of the mirror's lock, which skips the writes. *)
Record SubscriptionRegistry := mkRegistry {
  entries : gmap ChannelName (gmap Symbol SubscriptionEntry);
  channel_wide : gmap ChannelName SubscriptionEntry;
  mirror : gmap SubKey MirrorRow;
  mirror_poisoned : bool;
  next_generation : N;
  guard_refs : gmap GuardKey N;
  liveness_epoch : N;
}.

Definition registry_new : SubscriptionRegistry := mkRegistry ∅ ∅ ∅ false 0 ∅ 0.

Definition set_entries (m : gmap ChannelName (gmap Symbol SubscriptionEntry))
  (r : SubscriptionRegistry) : SubscriptionRegistry :=
  mkRegistry m (channel_wide r) (mirror r) (mirror_poisoned r) (next_generation r)
    (guard_refs r) (liveness_epoch r).
Definition set_channel_wide (m : gmap ChannelName SubscriptionEntry)
  (r : SubscriptionRegistry) : SubscriptionRegistry :=
  mkRegistry (entries r) m (mirror r) (mirror_poisoned r) (next_generation r)
    (guard_refs r) (liveness_epoch r).
Definition set_guard_refs (m : gmap GuardKey N) (r : SubscriptionRegistry)
  : SubscriptionRegistry :=
  mkRegistry (entries r) (channel_wide r) (mirror r) (mirror_poisoned r)
    (next_generation r) m (liveness_epoch r).
Definition bump_epoch (r : SubscriptionRegistry) : SubscriptionRegistry :=
  mkRegistry (entries r) (channel_wide r) (mirror r) (mirror_poisoned r)
    (next_generation r) (guard_refs r) (u64_wrapping_add (liveness_epoch r) 1).
Definition bump_generation (r : SubscriptionRegistry) : SubscriptionRegistry :=
  mkRegistry (entries r) (channel_wide r) (mirror r) (mirror_poisoned r)
    (u64_wrapping_add (next_generation r) 1) (guard_refs r) (liveness_epoch r).

Definition mirror_write (f : gmap SubKey MirrorRow → gmap SubKey MirrorRow)
  (r : SubscriptionRegistry) : SubscriptionRegistry :=
  if mirror_poisoned r then r
  else mkRegistry (entries r) (channel_wide r) (f (mirror r)) false (next_generation r)
         (guard_refs r) (liveness_epoch r).

Definition entry (r : SubscriptionRegistry) (k : SubKey) : option SubscriptionEntry :=
  match k.2 with
  | Some sym => m ← entries r !! k.1; m !! sym
  | None => channel_wide r !! k.1
  end.

(** A write through [entry_mut]. *)
Definition entry_mut (f : SubscriptionEntry → SubscriptionEntry) (k : SubKey)
  (r : SubscriptionRegistry) : SubscriptionRegistry :=
  match k.2 with
  | Some sym => set_entries (alter (alter f sym) k.1 (entries r)) r
  | None => set_channel_wide (alter f k.1 (channel_wide r)) r
  end.

(** Writing a slot of [entry(..).or_default().entry(..)]. *)
Definition entry_insert (e : SubscriptionEntry) (k : SubKey) (r : SubscriptionRegistry)
  : SubscriptionRegistry :=
  match k.2 with
  | Some sym =>
      set_entries (<[k.1 := <[sym := e]> (default ∅ (entries r !! k.1))]> (entries r)) r
  | None => set_channel_wide (<[k.1 := e]> (channel_wide r)) r
  end.

(** [count() as u32] *)
Definition guard_refs_at (r : SubscriptionRegistry) (k : SubKey) (generation : N) : N :=
  N.of_nat (size (filter (λ row : GuardKey * N,
    row.1.1.2 = k.1 ∧ row.1.2 = k.2 ∧ row.2 = generation) (guard_refs r)))
  mod (u32_max + 1).

(** ** Registering *)

Definition bump_or_revive (slot : option SubscriptionEntry) (new : SubscriptionEntry)
  (generation : N) : SubscriptionEntry * N * option (N * N) :=
  match slot with
  | Some e =>
      let '(e, revived) :=
        if sub_count e =? 0 then
          let dying_generation := sub_generation e in
          let e := entry_set_builder (sub_builder new)
                     (mkEntry (sub_url e) (sub_channel e) (sub_pair e) (sub_params new)
                        (sub_count e) (sub_builder e) (sub_seq e) (sub_generation e)
                        (sub_state e) (tombstone_holders e) (stale_release_credits e)) in
          let e := entry_set_state SubPending
                     (entry_set_seq None (entry_set_generation generation e)) in
          (entry_set_holders 0 e, Some (tombstone_holders e, dying_generation))
        else (e, None) in
      let e := entry_set_count (u32_wrapping_add (sub_count e) 1) e in
      (e, sub_count e, revived)
  | None =>
      let new := entry_set_generation generation new in
      (new, sub_count new, None)
  end.

Definition register (new : SubscriptionEntry) (now : MonotonicInstant)
  (guard_backed : bool) (r : SubscriptionRegistry) : N * SubscriptionRegistry :=
  let r := bump_generation (bump_epoch r) in
  let generation := next_generation r in
  let key := (sub_channel new, sub_pair new) in
  let '(e, count, revived) := bump_or_revive (entry r key) new generation in
  let r := entry_insert e key r in
  let r :=
    match revived with
    | Some (holders, dying_generation) =>
        let dying_guard_refs := guard_refs_at r key dying_generation in
        let reviver_slot := if guard_backed : bool then 0 else 1 in
        let owed := holders - dying_guard_refs - reviver_slot in
        entry_mut (λ e, entry_set_credits
                          (u32_saturating_add (stale_release_credits e) owed) e) key r
    | None => r
    end in
  (count, if count =? 1 then mirror_write <[key := mkRow SubPending now]> r else r).

Definition note_sequence (channel : ChannelName) (seq : N) (is_snapshot : bool)
  (r : SubscriptionRegistry) : option N * SubscriptionRegistry :=
  match channel_wide r !! channel with
  | Some e =>
      let '(lost, s) := observe seq is_snapshot (sub_seq e) in
      (lost, entry_mut (entry_set_seq s) (channel, None) r)
  | None => (None, r)
  end.

(** ** Removing *)

Definition deregister (k : SubKey) (r : SubscriptionRegistry) : SubscriptionRegistry :=
  let r := bump_epoch r in
  let r :=
    match k.2 with
    | Some sym =>
        match entries r !! k.1 with
        | Some inner =>
            let inner := delete sym inner in
            set_entries (if decide (inner = ∅) then delete k.1 (entries r)
                         else <[k.1 := inner]> (entries r)) r
        | None => r
        end
    | None => set_channel_wide (delete k.1 (channel_wide r)) r
    end in
  mirror_write (delete k) r.

(** Past the credit and bare-slot arms: one holder goes. *)
Definition release_slot (k : SubKey) (r : SubscriptionRegistry)
  : N * SubscriptionRegistry :=
  match entry r k with
  | Some e =>
      if is_tombstone e then
        let holders := tombstone_holders e - 1 in
        let r := entry_mut (entry_set_holders holders) k r in
        (0, if holders =? 0 then deregister k r else r)
      else
        let r := bump_epoch r in
        let n := sub_count e - 1 in
        let r := entry_mut (entry_set_count n) k r in
        (n, if n =? 0 then deregister k r else r)
  | None => (0, r)
  end.

Definition release_inner (k : SubKey) (allow_credit : bool) (r : SubscriptionRegistry)
  : N * SubscriptionRegistry :=
  match (if allow_credit then entry r k else None) with
  | Some e =>
      if 0 <? stale_release_credits e then
        (sub_count e, entry_mut (entry_set_credits (stale_release_credits e - 1)) k r)
      else
        let holders := if is_tombstone e then tombstone_holders e else sub_count e in
        if holders - guard_refs_at r k (sub_generation e) =? 0 then (sub_count e, r)
        else release_slot k r
  | None => release_slot k r
  end.

Definition release (k : SubKey) (r : SubscriptionRegistry) : N * SubscriptionRegistry :=
  release_inner k true r.

Definition entry_generation (r : SubscriptionRegistry) (k : SubKey) : option N :=
  sub_generation <$> entry r k.

Definition record_guard_ref (h : HandlerId) (k : SubKey) (r : SubscriptionRegistry)
  : SubscriptionRegistry :=
  match entry_generation r k with
  | Some generation => set_guard_refs (<[(h, k.1, k.2) := generation]> (guard_refs r)) r
  | None => r
  end.

Definition release_guard_ref (h : HandlerId) (k : SubKey) (r : SubscriptionRegistry)
  : N * SubscriptionRegistry :=
  let recorded := guard_refs r !! (h, k.1, k.2) in
  let r := set_guard_refs (delete (h, k.1, k.2) (guard_refs r)) r in
  match recorded, (λ e, (sub_generation e, sub_count e)) <$> entry r k with
  | Some rec, Some (generation, count) =>
      if negb (rec =? generation) then (count, r) else release_inner k false r
  | _, _ => release_inner k false r
  end.

Definition subscription_order_key (k : SubKey) : bool * string * option string :=
  (match k.2 with Some _ => true | None => false end, channel_str k.1, k.2).

(** The derived orders of [bool], [Option] and tuples. *)
Definition bool_cmp (a b : bool) : comparison :=
  match a, b with false, true => Lt | true, false => Gt | _, _ => Eq end.

Definition option_cmp (a b : option string) : comparison :=
  match a, b with
  | None, None => Eq
  | None, Some _ => Lt
  | Some _, None => Gt
  | Some a, Some b => String.compare a b
  end.

Definition then_cmp (c d : comparison) : comparison :=
  match c with Eq => d | _ => c end.

Definition order_cmp (a b : SubKey) : comparison :=
  let '(wa, ca, sa) := subscription_order_key a in
  let '(wb, cb, sb) := subscription_order_key b in
  then_cmp (bool_cmp wa wb) (then_cmp (String.compare ca cb) (option_cmp sa sb)).

Definition order_le (a b : SubKey) : Prop := order_cmp a b ≠ Gt.

Definition key_of (e : SubscriptionEntry) : SubKey := (sub_channel e, sub_pair e).

Definition sort_entries (l : list SubscriptionEntry) : list SubscriptionEntry :=
  merge_sort (λ a b, order_le (key_of a) (key_of b)) l.

Definition pair_entries (r : SubscriptionRegistry) : list SubscriptionEntry :=
  map_to_list (entries r) ≫= λ cm, (map_to_list cm.2).*2.

Definition removed_kind (e : SubscriptionEntry) : RemovedEntryKind :=
  if is_tombstone e then Tombstone else Live.

Definition deregister_all (channel : option ChannelName) (r : SubscriptionRegistry)
  : list (SubscriptionEntry * RemovedEntryKind) * SubscriptionRegistry :=
  let r := bump_epoch r in
  let '(removed, r) :=
    match channel with
    | Some ch =>
        (option_list (channel_wide r !! ch) ++
           (match entries r !! ch with Some inner => (map_to_list inner).*2 | None => [] end),
         set_entries (delete ch (entries r))
           (set_channel_wide (delete ch (channel_wide r)) r))%list
    | None =>
        (((map_to_list (channel_wide r)).*2 ++ pair_entries r)%list,
         set_entries ∅ (set_channel_wide ∅ r))
    end in
  let removed := sort_entries removed in
  (map (λ e, (e, removed_kind e)) removed,
   mirror_write (λ m, fold_left (λ m e, delete (key_of e) m) removed m) r).

(** ** Lifecycle notes *)

Definition is_terminated (k : SubKey) (r : SubscriptionRegistry) : bool :=
  match entry r k with Some e => is_tombstone e | None => false end.

Definition row_set_state (s : EntrySubState) (row : MirrorRow) : MirrorRow :=
  mkRow s (row_registered_at row).

Definition note_acked (k : SubKey) (r : SubscriptionRegistry) : SubscriptionRegistry :=
  match entry r k with
  | Some e =>
      match sub_state e with
      | SubPending =>
          mirror_write (alter (row_set_state SubAcked) k)
            (entry_mut (entry_set_state SubAcked) k r)
      | _ => r
      end
  | None => r
  end.

Definition note_terminated (k : SubKey) (cause : TerminationCause)
  (last_error : option string) (r : SubscriptionRegistry) : SubscriptionRegistry :=
  match entry r k with
  | Some e =>
      if is_tombstone e then r
      else
        let s := SubTerminated cause last_error in
        let r := entry_mut (λ e, entry_set_state s
                   (entry_set_count 0 (entry_set_holders (sub_count e) e))) k r in
        mirror_write (alter (row_set_state s) k) (bump_epoch r)
  | None => r
  end.

Inductive SubscribeFailureCause :=
  | FailureAckBudgetExhausted
  | FailureWireRejection (code message : string)
  | FailureCapabilityRevoked
  | FailureClientClosed
  | FailureConnectionFailed
  | FailureAuthHandshake.

Inductive SubscriptionState := StActive | StPending | StFailed (c : SubscribeFailureCause).

Definition project_state (s : EntrySubState) : SubscriptionState :=
  match s with
  | SubPending => StPending
  | SubAcked => StActive
  | SubTerminated cause last_error =>
      StFailed (match cause with
                | SubscribeAckBudgetExhausted => FailureAckBudgetExhausted
                | NonTransientWireRejection =>
                    let err := default "" last_error in FailureWireRejection err err
                | CapabilityRevoked => FailureCapabilityRevoked
                | TermClientClosed => FailureClientClosed
                end)
  end.

(** ** Maintained books *)

Definition handle_update (k : SubKey) (is_snapshot : bool) (data : Json)
  (r : SubscriptionRegistry) : BookDriveOutcome * SubscriptionRegistry :=
  match entry r k with
  | Some e =>
      let '(outcome, e') := drive_update is_snapshot data e in
      (outcome, entry_mut (λ _, e') k r)
  | None => (PassThrough, r)
  end.

Definition begin_book_resync (channel : ChannelName) (pair : Symbol)
  (r : SubscriptionRegistry) : SubscriptionRegistry :=
  entry_mut (λ e, entry_set_builder (begin_resync <$> sub_builder e) e)
    (channel, Some pair) r.

Definition is_book_resyncing (k : SubKey) (r : SubscriptionRegistry) : bool :=
  match k.2 with
  | None => false
  | Some _ =>
      match e ← entry r k; sub_builder e with
      | Some b => resyncing b
      | None => false
      end
  end.

Definition note_reseed_timeout (channel : ChannelName) (pair : Symbol)
  (r : SubscriptionRegistry) : ReseedTimeoutOutcome * SubscriptionRegistry :=
  let k := (channel, Some pair) in
  match entry r k with
  | None => (StaleNoOp, r)
  | Some e =>
      if is_tombstone e then (StaleNoOp, r)
      else
        match sub_builder e with
        | None => (StaleNoOp, r)
        | Some builder =>
            if negb (resyncing builder) then (StaleNoOp, r)
            else
              let '(builder, gaps) := note_reseed_failure builder in
              if MAX_CONSECUTIVE_BOOK_GAPS <=? gaps
              then (Exhausted, entry_mut (entry_set_builder None) k r)
              else (ReseedRetry, entry_mut (entry_set_builder (Some builder)) k r)
        end
  end.

(** ** Composing frames *)

Definition json_object (fields : list (string * Json)) : Json :=
  JObject (fold_left (λ m kv, bt_insert String.compare kv.1 kv.2 m) fields []).

Definition opt_field (name : string) (v : option Json) : list (string * Json) :=
  match v with Some v => [(name, v)] | None => [] end.

Definition on_subscribe (method : string) (fields : list (string * Json))
  : list (string * Json) :=
  if String.eqb method "subscribe" then fields else [].

Definition params_fields (method : string) (params : SubscribeParams)
  : list (string * Json) :=
  let snapshot s := opt_field "snapshot" (JBool <$> s) in
  match params with
  | PTicker s trigger =>
      on_subscribe method
        (snapshot s ++ opt_field "event_trigger" ((λ t, JString (ticker_trigger_str t)) <$> trigger))
  | PBook depth =>
      ("depth", JNumber (decimal (as_wire_u32 (wire_depth depth)))) ::
        on_subscribe method [("snapshot", JBool true)]
  | PBookRaw depth s =>
      ("depth", JNumber (decimal (as_wire_u32 depth))) :: on_subscribe method (snapshot s)
  | PTrade s => on_subscribe method (snapshot s)
  | POhlc interval s =>
      ("interval", JNumber (decimal (ohlc_minutes interval))) ::
        on_subscribe method (snapshot s)
  | PStatus | PExecutions | PBalances => []
  end%list.

Definition build_subscribe_frame (method : string) (channel : ChannelName)
  (pairs : list Symbol) (params : SubscribeParams) (req_id : N) : Json :=
  json_object
    [("method", JString method);
     ("params", json_object
        (("channel", JString (channel_str channel)) ::
           match pairs with [] => [] | _ => [("symbol", JArray (map JString pairs))] end ++
           params_fields method params)%list);
     ("req_id", JNumber (decimal req_id))].

Definition stamp_req_id (frame : Json) (req_id : N) : Json :=
  match frame with
  | JObject fields => JObject (bt_insert String.compare "req_id" (JNumber (decimal req_id)) fields)
  | _ => frame
  end.

Definition inject_token (frame : Json) (token : string) : Json :=
  match frame with
  | JObject fields =>
      match bt_lookup String.compare "params" fields with
      | Some (JObject params) =>
          JObject (bt_insert String.compare "params"
                     (JObject (bt_insert String.compare "token" (JString token) params)) fields)
      | _ => frame
      end
  | _ => frame
  end.

Definition entries_for_resubscribe_sorted (url : WsUrl) (r : SubscriptionRegistry)
  : list SubscriptionEntry :=
  sort_entries
    (filter (λ e, sub_url e = url ∧ is_tombstone e = false)
       ((map_to_list (channel_wide r)).*2 ++ pair_entries r)%list).

Definition entry_frame (e : SubscriptionEntry) : Json :=
  build_subscribe_frame "subscribe" (sub_channel e) (option_list (sub_pair e))
    (sub_params e) 0.

Abbreviation KeyedFrame := (ChannelName * option Symbol * Json)%type.

Definition compose_subscribe_frames_for_url (url : WsUrl) (r : SubscriptionRegistry)
  : list KeyedFrame :=
  map (λ e, (sub_channel e, sub_pair e, entry_frame e)) (entries_for_resubscribe_sorted url r).

Definition compose_subscribe_frames_for_url_authed (url : WsUrl) (token : string)
  (r : SubscriptionRegistry) : list KeyedFrame :=
  map (λ f : KeyedFrame, (f.1, inject_token f.2 token)) (compose_subscribe_frames_for_url url r).

Definition compose_first_signed_subscribe_authed (url : WsUrl) (token : string)
  (r : SubscriptionRegistry) : option KeyedFrame :=
  first ← head (entries_for_resubscribe_sorted url r);
  Some (sub_channel first, sub_pair first, inject_token (entry_frame first) token).

Definition compose_remaining_signed_subscribes_authed (url : WsUrl) (token : string)
  (already_sent : SubKey) (r : SubscriptionRegistry) : list KeyedFrame :=
  filter (λ f : KeyedFrame, f.1 ≠ already_sent)
    (compose_subscribe_frames_for_url_authed url token r).

Definition live_subscribe_keys_for_url (url : WsUrl) (exclude : option SubKey)
  (r : SubscriptionRegistry) : list (SubKey * SubscribeParams) :=
  map (λ e, (key_of e, sub_params e))
    (filter (λ e, exclude ≠ Some (key_of e)) (entries_for_resubscribe_sorted url r)).

Definition has_url_entry (url : WsUrl) (r : SubscriptionRegistry) : bool :=
  existsb (λ e, bool_decide (sub_url e = url) && negb (is_tombstone e))
    (pair_entries r ++ (map_to_list (channel_wide r)).*2)%list.

Definition params_for (k : SubKey) (r : SubscriptionRegistry) : option SubscribeParams :=
  sub_params <$> entry r k.
End Registry.
