(* ===== verification/RegistryInv.v ===== *)
(** * RegistryInv: the invariant of the subscription registry

    Histories of registry operations, the invariant they keep, and what each operation
    makes of the releases callers still owe.  The theorems are in [RegistryProps]. *)

From Stdlib Require Import Ascii String.
From stdpp Require Import sorting.
From S2P Require Import Prelude Types Events Errors.
From S2P Require Import Book Registry.
Local Open Scope N_scope.

Section Props.
Context {Decimal : Type} (dcmp : Decimal → Decimal → comparison)
  (crc32 : list (string * string) → list (string * string) → N)
  (dec_from_str : string → option Decimal)
  (decode_frame : Json → option RawBookData).

Abbreviation Registry := (@SubscriptionRegistry Decimal).
Abbreviation Entry := (@SubscriptionEntry Decimal).
Implicit Types (r : Registry) (e : Entry) (k : SubKey).

(** ** Histories *)

Inductive RegOp :=
  | RegRegister (url : WsUrl) (k : SubKey) (params : SubscribeParams)
      (now : MonotonicInstant) (guard : option HandlerId)
  | RegRelease (k : SubKey)
  | RegGuardDrop (h : HandlerId) (k : SubKey)
  | RegDeregisterAll (channel : option ChannelName)
  | RegAcked (k : SubKey)
  | RegTerminated (k : SubKey) (cause : TerminationCause) (last_error : option string)
  | RegFrame (k : SubKey) (is_snapshot : bool) (data : Json)
  | RegSequence (channel : ChannelName) (seq : N) (is_snapshot : bool)
  | RegResync (channel : ChannelName) (sym : Symbol)
  | RegReseedTimeout (channel : ChannelName) (sym : Symbol).

(** A registration records its guard at once, as [register_one_and_emit] does. *)
Definition reg_op (op : RegOp) (r : Registry) : Registry :=
  match op with
  | RegRegister url k params now guard =>
      let r := (register (entry_new url k.1 k.2 params) now
                  (match guard with Some _ => true | None => false end) r).2 in
      match guard with Some h => record_guard_ref h k r | None => r end
  | RegRelease k => (release k r).2
  | RegGuardDrop h k => (release_guard_ref h k r).2
  | RegDeregisterAll channel => (deregister_all channel r).2
  | RegAcked k => note_acked k r
  | RegTerminated k cause err => note_terminated k cause err r
  | RegFrame k snap data => (handle_update dcmp crc32 dec_from_str decode_frame k snap data r).2
  | RegSequence ch seq snap => (note_sequence ch seq snap r).2
  | RegResync ch sym => begin_book_resync ch sym r
  | RegReseedTimeout ch sym => (note_reseed_timeout ch sym r).2
  end.

(** The subscribers an entry counts, in either phase of its life. *)
Definition holders (e : Entry) : N :=
  if is_tombstone e then tombstone_holders e else sub_count e.

(** A guard is dropped while its registration is recorded, or while it is one of several
    registrations of one handler for the key, which share a record. *)
Definition op_ok (r : Registry) (op : RegOp) : Prop :=
  match op with
  | RegGuardDrop h k =>
      match entry r k with
      | Some e => is_Some (guard_refs r !! (h, k.1, k.2)) ∨
                  guard_refs_at r k (sub_generation e) < holders e
      | None => True
      end
  | _ => True
  end.

(** [n] operations so far. *)
Inductive reg_reachable : N → Registry → Prop :=
  | reg_start : reg_reachable 0 registry_new
  | reg_step n r op : reg_reachable n r → op_ok r op → reg_reachable (n + 1) (reg_op op r).

(** ** Reading the store back *)

Lemma entry_insert_lookup e k k' r :
  entry (entry_insert e k r) k' = if decide (k' = k) then Some e else entry r k'.
Proof.
  destruct k as [ch [s|]], k' as [ch' [s'|]]; unfold entry, entry_insert; cbn -[decide].
  - destruct (decide (ch' = ch)) as [->|Hc].
    + rewrite lookup_insert_eq. cbn -[decide]. destruct (decide (s' = s)) as [->|Hs].
      * by rewrite lookup_insert_eq, decide_True.
      * rewrite lookup_insert_ne, decide_False by congruence.
        by destruct (entries r !! ch).
    + by rewrite lookup_insert_ne, decide_False by congruence.
  - by rewrite decide_False by congruence.
  - by rewrite decide_False by congruence.
  - destruct (decide (ch' = ch)) as [->|Hc].
    + by rewrite lookup_insert_eq, decide_True.
    + by rewrite lookup_insert_ne, decide_False by congruence.
Qed.

Lemma entry_mut_lookup f k k' r :
  entry (entry_mut f k r) k' = if decide (k' = k) then f <$> entry r k' else entry r k'.
Proof.
  destruct k as [ch [s|]], k' as [ch' [s'|]]; unfold entry, entry_mut; cbn -[decide].
  - destruct (decide (ch' = ch)) as [->|Hc].
    + rewrite lookup_alter_eq. destruct (entries r !! ch) as [m|]; cbn -[decide].
      * destruct (decide (s' = s)) as [->|Hs].
        -- by rewrite lookup_alter_eq, decide_True.
        -- by rewrite lookup_alter_ne, decide_False by congruence.
      * by case_decide.
    + by rewrite lookup_alter_ne, decide_False by congruence.
  - by rewrite decide_False by congruence.
  - by rewrite decide_False by congruence.
  - destruct (decide (ch' = ch)) as [->|Hc].
    + by rewrite lookup_alter_eq, decide_True.
    + by rewrite lookup_alter_ne, decide_False by congruence.
Qed.

Lemma entry_mirror_write f r k : entry (mirror_write f r) k = entry r k.
Proof. unfold mirror_write. by destruct (mirror_poisoned r). Qed.

Lemma deregister_lookup k k' r :
  entry (deregister k r) k' = if decide (k' = k) then None else entry r k'.
Proof.
  unfold deregister. rewrite entry_mirror_write.
  destruct k as [ch [s|]], k' as [ch' [s'|]]; unfold entry; cbn -[decide].
  - destruct (entries r !! ch) as [m|] eqn:Hm; cbn -[decide].
    + destruct (decide (ch' = ch)) as [->|Hc].
      * assert ((m0 ← (if decide (delete s m = ∅) then delete ch (entries r)
                       else <[ch:=delete s m]> (entries r)) !! ch; m0 !! s') =
                delete s m !! s') as ->.
        { case_decide as Hd; [rewrite Hd, lookup_delete_eq|rewrite lookup_insert_eq]; done. }
        rewrite Hm. cbn -[decide]. destruct (decide (s' = s)) as [->|Hs].
        -- by rewrite lookup_delete_eq, decide_True.
        -- by rewrite lookup_delete_ne, decide_False by congruence.
      * rewrite (decide_False (P := (ch', Some s') = (ch, Some s))) by congruence.
        case_decide; by rewrite ?lookup_delete_ne, ?lookup_insert_ne by done.
    + case_decide as Hk; [|done]. injection Hk as -> ->. by rewrite Hm.
  - rewrite (decide_False (P := (ch', None) = (ch, Some s))) by congruence.
    by destruct (entries r !! ch).
  - by rewrite decide_False by congruence.
  - destruct (decide (ch' = ch)) as [->|Hc].
    + by rewrite lookup_delete_eq, decide_True.
    + by rewrite lookup_delete_ne, decide_False by congruence.
Qed.

Lemma entry_mut_guard_refs f k r : guard_refs (entry_mut f k r) = guard_refs r.
Proof. unfold entry_mut. by destruct (k.2). Qed.
Lemma entry_mut_next_generation f k r : next_generation (entry_mut f k r) = next_generation r.
Proof. unfold entry_mut. by destruct (k.2). Qed.
Lemma entry_mut_mirror f k r : mirror (entry_mut f k r) = mirror r.
Proof. unfold entry_mut. by destruct (k.2). Qed.
Lemma entry_mut_mirror_poisoned f k r : mirror_poisoned (entry_mut f k r) = mirror_poisoned r.
Proof. unfold entry_mut. by destruct (k.2). Qed.
Lemma entry_insert_guard_refs e k r : guard_refs (entry_insert e k r) = guard_refs r.
Proof. unfold entry_insert. by destruct (k.2). Qed.
Lemma entry_insert_next_generation e k r : next_generation (entry_insert e k r) = next_generation r.
Proof. unfold entry_insert. by destruct (k.2). Qed.
Lemma entry_insert_mirror e k r : mirror (entry_insert e k r) = mirror r.
Proof. unfold entry_insert. by destruct (k.2). Qed.
Lemma entry_insert_mirror_poisoned e k r : mirror_poisoned (entry_insert e k r) = mirror_poisoned r.
Proof. unfold entry_insert. by destruct (k.2). Qed.

Create Rewrite HintDb reg_frame.
#[local] Hint Rewrite entry_mut_guard_refs entry_mut_next_generation entry_mut_mirror
  entry_mut_mirror_poisoned entry_insert_guard_refs entry_insert_next_generation
  entry_insert_mirror entry_insert_mirror_poisoned : reg_frame.

Lemma mirror_write_frame f r :
  mirror_poisoned r = false →
  guard_refs (mirror_write f r) = guard_refs r ∧
  next_generation (mirror_write f r) = next_generation r ∧
  mirror (mirror_write f r) = f (mirror r) ∧
  mirror_poisoned (mirror_write f r) = false.
Proof. intros H. unfold mirror_write. by rewrite H. Qed.

Lemma deregister_frame k r :
  mirror_poisoned r = false →
  guard_refs (deregister k r) = guard_refs r ∧
  next_generation (deregister k r) = next_generation r ∧
  mirror (deregister k r) = delete k (mirror r) ∧
  mirror_poisoned (deregister k r) = false.
Proof.
  intros H. unfold deregister, mirror_write.
  destruct (k.2); cbn; [destruct (entries r !! k.1); cbn|]; by rewrite H.
Qed.

(** No symbol bucket is empty. *)
Definition buckets_ok (r : Registry) : Prop := ∀ ch, entries r !! ch ≠ Some ∅.

Lemma entry_mut_buckets f k r : buckets_ok r → buckets_ok (entry_mut f k r).
Proof.
  intros H ch. unfold entry_mut. destruct (k.2) as [s|]; cbn; [|apply H].
  rewrite lookup_alter. case_decide as Hc; [|apply H]. intros Hf.
  apply fmap_Some in Hf as (m & Hm & He). apply (H ch).
  subst ch. rewrite Hm. f_equal. apply map_empty. intros i.
  assert (alter f s m !! i = None) as Ha by by rewrite <-He, lookup_empty.
  rewrite lookup_alter in Ha. case_decide; subst; [by destruct (m !! i)|done].
Qed.

Lemma entry_insert_buckets e k r : buckets_ok r → buckets_ok (entry_insert e k r).
Proof.
  intros H ch. unfold entry_insert. destruct (k.2) as [s|]; cbn; [|apply H].
  rewrite lookup_insert. case_decide as Hc; [|apply H].
  intros Hf. injection Hf as He. by apply insert_non_empty in He.
Qed.

Lemma mirror_write_buckets f r : buckets_ok r → buckets_ok (mirror_write f r).
Proof. intros H ch. unfold mirror_write. destruct (mirror_poisoned r); apply H. Qed.

Lemma deregister_buckets k r : buckets_ok r → buckets_ok (deregister k r).
Proof.
  intros H. unfold deregister. apply mirror_write_buckets. intros ch.
  destruct (k.2) as [s|]; cbn; [|apply H].
  destruct (entries r !! k.1) as [m|]; cbn; [|apply H].
  case_decide as Hd.
  - rewrite lookup_delete. case_decide; [done|apply H].
  - rewrite lookup_insert. case_decide; [congruence|apply H].
Qed.

(** ** Guard rows *)

Definition row_at (k : SubKey) (g : N) (row : GuardKey * N) : Prop :=
  row.1.1.2 = k.1 ∧ row.1.2 = k.2 ∧ row.2 = g.

#[local] Instance row_at_dec k g row : Decision (row_at k g row).
Proof. unfold row_at. apply _. Defined.

Definition rows (m : gmap GuardKey N) (k : SubKey) (g : N) : N :=
  N.of_nat (size (filter (row_at k g) m)).

Lemma rows_le m k g : rows m k g ≤ N.of_nat (size m).
Proof.
  unfold rows. assert (size (filter (row_at k g) m) ≤ size m)%nat; [|lia].
  apply map_subseteq_size, map_filter_subseteq.
Qed.

Lemma guard_refs_at_rows r k g :
  N.of_nat (size (guard_refs r)) ≤ u32_max → guard_refs_at r k g = rows (guard_refs r) k g.
Proof.
  intros H. pose proof (rows_le (guard_refs r) k g). unfold guard_refs_at.
  replace (filter _ (guard_refs r)) with (filter (row_at k g) (guard_refs r))
    by by apply map_filter_ext.
  unfold rows in *. rewrite N.mod_small by lia. done.
Qed.

Lemma rows_delete m h k k' g :
  rows (delete (h, k.1, k.2) m) k' g =
  if decide (k' = k ∧ m !! (h, k.1, k.2) = Some g) then rows m k' g - 1 else rows m k' g.
Proof.
  unfold rows. rewrite map_filter_delete, map_size_delete.
  destruct (filter (row_at k' g) m !! (h, k.1, k.2)) as [v|] eqn:Hf.
  - apply map_lookup_filter_Some in Hf as [Hv (H1 & H2 & H3)]. cbn in H1, H2, H3. subst v.
    rewrite decide_True by (split; [|done]; destruct k, k'; cbn in *; congruence).
    lia.
  - case_decide as Hd; [|done]. destruct Hd as [-> Hd]. exfalso.
    rewrite map_lookup_filter_None in Hf. destruct Hf as [Hf|Hf]; [congruence|].
    by apply (Hf g).
Qed.

Lemma rows_insert m h k k' v g :
  rows (<[(h, k.1, k.2) := v]> m) k' g =
  if decide (k' = k ∧ v = g)
  then rows (delete (h, k.1, k.2) m) k' g + 1
  else rows (delete (h, k.1, k.2) m) k' g.
Proof.
  unfold rows. rewrite <-insert_delete_eq, map_filter_insert.
  assert (row_at k' g ((h, k.1, k.2), v) ↔ k' = k ∧ v = g) as Heq.
  { unfold row_at. cbn. destruct k, k'; cbn. split; intros H; destruct_and?; subst; split_and?; congruence. }
  case_decide as H1; [rewrite decide_True by tauto|rewrite decide_False by tauto].
  - rewrite map_size_insert_None; [lia|]. apply map_lookup_filter_None. left.
    apply lookup_delete_eq.
  - by rewrite delete_delete_eq.
Qed.

Lemma rows_pos m h k g : m !! (h, k.1, k.2) = Some g → 1 ≤ rows m k g.
Proof.
  intros H. unfold rows. assert (size (filter (row_at k g) m) ≠ 0%nat); [|lia].
  intros Hz. apply map_size_empty_inv in Hz.
  assert (filter (row_at k g) m !! (h, k.1, k.2) = Some g) as He
    by by apply map_lookup_filter_Some.
  by rewrite Hz, lookup_empty in He.
Qed.

Lemma rows_none m k g :
  (∀ key v, m !! key = Some v → v < g) → rows m k g = 0.
Proof.
  intros H. unfold rows. replace (filter (row_at k g) m) with (∅ : gmap GuardKey N); [done|].
  symmetry. apply map_empty. intros key. apply map_lookup_filter_None. right.
  intros v Hv (_ & _ & Hg). cbn in Hg.
  apply H in Hv. lia.
Qed.

(** ** The invariant *)

Definition entry_ok (n gen : N) (m : gmap GuardKey N) k e : Prop :=
  key_of e = k ∧ sub_generation e ≤ gen ∧
  (if is_tombstone e then sub_count e = 0 ∧ 1 ≤ tombstone_holders e
   else 1 ≤ sub_count e ∧ tombstone_holders e = 0) ∧
  sub_count e + tombstone_holders e + stale_release_credits e ≤ n ∧
  rows m k (sub_generation e) ≤ holders e.

Record reg_wf (n : N) (r : Registry) : Prop := {
  wf_buckets : buckets_ok r;
  wf_entries k e : entry r k = Some e → entry_ok n (next_generation r) (guard_refs r) k e;
  wf_rows key v : guard_refs r !! key = Some v → v ≤ next_generation r;
  wf_size : N.of_nat (size (guard_refs r)) ≤ n;
  wf_gen : next_generation r ≤ n;
  wf_poison : mirror_poisoned r = false;
  wf_mirror k : row_state <$> mirror r !! k = sub_state <$> entry r k;
}.

Lemma entry_ok_mono n n' gen gen' m k e :
  n ≤ n' → gen ≤ gen' → entry_ok n gen m k e → entry_ok n' gen' m k e.
Proof. intros Hn Hg (H1 & H2 & H3 & H4 & H5). split_and!; try done; lia. Qed.

Lemma registry_new_wf : reg_wf 0 registry_new.
Proof.
  split; cbn; try done.
  - by intros [ch [s|]] e.
  - intros [ch [s|]]; done.
Qed.

(** One key changes; generations may have advanced. *)
Lemma wf_update n n' r r' k oe :
  reg_wf n r → n ≤ n' → buckets_ok r' →
  (∀ k', entry r' k' = if decide (k' = k) then oe else entry r k') →
  guard_refs r' = guard_refs r →
  next_generation r ≤ next_generation r' ≤ n' → mirror_poisoned r' = false →
  (∀ k', row_state <$> mirror r' !! k' =
         if decide (k' = k) then sub_state <$> oe else row_state <$> mirror r !! k') →
  (∀ e, oe = Some e → entry_ok n' (next_generation r') (guard_refs r) k e) →
  reg_wf n' r'.
Proof.
  intros [_ He Hr Hs Hg Hp Hm] Hn Hb He' Hgr Hg' Hp' Hm' Hok. split; try done.
  - intros k' e Hk. rewrite He' in Hk. rewrite Hgr. case_decide as Hd; subst; [by apply Hok|].
    eapply entry_ok_mono; [exact Hn| |by apply He]. lia.
  - intros key v Hv. rewrite Hgr in Hv. apply Hr in Hv. lia.
  - rewrite Hgr. lia.
  - lia.
  - intros k'. rewrite Hm', He'. by case_decide.
Qed.

(** A write that keeps the entry's state. *)
Lemma wf_entry_mut n n' f k r :
  reg_wf n r → n ≤ n' →
  (∀ e, entry r k = Some e → sub_state (f e) = sub_state e ∧
        entry_ok n' (next_generation r) (guard_refs r) k (f e)) →
  reg_wf n' (entry_mut f k r).
Proof.
  intros Hwf Hn Hf. pose proof (wf_gen _ _ Hwf).
  apply (wf_update n n' r _ k (f <$> entry r k)); autorewrite with reg_frame; try done; try lia.
  - apply entry_mut_buckets, Hwf.
  - intros k'. rewrite entry_mut_lookup. by case_decide; subst.
  - apply Hwf.
  - intros k'. case_decide; [subst|done]. rewrite (wf_mirror _ _ Hwf).
    destruct (entry r k) as [e|] eqn:E; [|done]. cbn. f_equal. symmetry. by apply Hf.
  - intros e' He'. apply fmap_Some in He' as (e & He & ->). by apply Hf.
Qed.

Lemma bump_epoch_wf n r : reg_wf n r → reg_wf n (bump_epoch r).
Proof. by intros [? ? ? ? ? ? ?]. Qed.

Lemma deregister_wf n r k : reg_wf n r → reg_wf n (deregister k r).
Proof.
  intros Hwf. destruct (deregister_frame k r) as (F1 & F2 & F3 & F4); [apply Hwf|].
  pose proof (wf_gen _ _ Hwf).
  apply (wf_update n n r _ k None); rewrite ?F1, ?F2, ?F3, ?F4; try done; try lia.
  - apply deregister_buckets, Hwf.
  - intros k'. apply deregister_lookup.
  - intros k'. case_decide; subst; [by rewrite lookup_delete_eq|by rewrite lookup_delete_ne].
Qed.

Lemma wf_weaken n n' r : reg_wf n r → n ≤ n' → reg_wf n' r.
Proof.
  intros [? He ? ? ? ? ?] Hn. split; try done; try lia. intros k e Hk.
  eapply entry_ok_mono; [exact Hn| |by apply He]. lia.
Qed.

Lemma wf_drop n f k r : reg_wf n r → reg_wf n (deregister k (entry_mut f k r)).
Proof.
  intros Hwf. destruct (deregister_frame k (entry_mut f k r)) as (D1 & D2 & D3 & D4);
    [autorewrite with reg_frame; apply Hwf|].
  pose proof (wf_gen _ _ Hwf).
  apply (wf_update n n r _ k None);
    rewrite ?D1, ?D2, ?D3, ?D4; autorewrite with reg_frame; try done; try lia.
  - apply deregister_buckets, entry_mut_buckets, Hwf.
  - intros k'. rewrite deregister_lookup, entry_mut_lookup. by case_decide.
  - intros k'. case_decide; subst; [by rewrite lookup_delete_eq|by rewrite lookup_delete_ne].
Qed.

(** One holder goes, and it is not the only thing a guard row stands for. *)
Lemma release_slot_wf n r k :
  reg_wf n r →
  (∀ e, entry r k = Some e → rows (guard_refs r) k (sub_generation e) < holders e) →
  reg_wf n (release_slot k r).2.
Proof.
  intros Hwf Hslack. unfold release_slot. destruct (entry r k) as [e|] eqn:He; [|done].
  specialize (Hslack e eq_refl).
  destruct (wf_entries _ _ Hwf _ _ He) as (K1 & K2 & K3 & K4 & K5).
  unfold holders in Hslack. destruct (is_tombstone e) eqn:Ht; cbn [snd].
  - case_match eqn:Hz; [by apply wf_drop|]. apply N.eqb_neq in Hz.
    apply (wf_entry_mut n n); [done|lia|].
    intros e0 He0. rewrite He in He0. injection He0 as <-. split; [done|].
    unfold entry_ok, holders. change (is_tombstone (entry_set_holders _ e)) with (is_tombstone e).
    rewrite Ht. cbn. split_and!; try done; lia.
  - apply bump_epoch_wf in Hwf. case_match eqn:Hz; [by apply wf_drop|]. apply N.eqb_neq in Hz.
    apply (wf_entry_mut n n); [done|lia|].
    intros e0 He0. change (entry r k = Some e0) in He0. rewrite He in He0. injection He0 as <-.
    split; [done|]. cbn.
    unfold entry_ok, holders. change (is_tombstone (entry_set_count _ e)) with (is_tombstone e).
    rewrite Ht. cbn. split_and!; try done; lia.
Qed.

(** ** Registering *)

(** What a registration leaves at its key, given the entry there, the guard rows of its
    life and the slot the reviver keeps. *)
Definition registered (slot : option Entry) (new : Entry) (g refs reviver : N) : Entry :=
  match slot with
  | None => entry_set_generation g new
  | Some e =>
      if sub_count e =? 0 then
        mkEntry (sub_url e) (sub_channel e) (sub_pair e) (sub_params new)
          (u32_wrapping_add (sub_count e) 1) (sub_builder new) None g SubPending 0
          (u32_saturating_add (stale_release_credits e)
             (tombstone_holders e - refs - reviver))
      else entry_set_count (u32_wrapping_add (sub_count e) 1) e
  end.

Definition slot_refs (r : Registry) k : N :=
  match entry r k with Some e => guard_refs_at r k (sub_generation e) | None => 0 end.

Lemma register_store (new : Entry) (now : MonotonicInstant) (gb : bool) r :
  let k := key_of new in
  let e := registered (entry r k) new (u64_wrapping_add (next_generation r) 1)
             (slot_refs r k) (if gb then 0 else 1) in
  ∃ r1, register new now gb r =
          (sub_count e, if sub_count e =? 1 then mirror_write <[k := mkRow SubPending now]> r1
                        else r1) ∧
    (∀ k', entry r1 k' = if decide (k' = k) then Some e else entry r k') ∧
    (buckets_ok r → buckets_ok r1) ∧
    guard_refs r1 = guard_refs r ∧
    next_generation r1 = u64_wrapping_add (next_generation r) 1 ∧
    mirror r1 = mirror r ∧ mirror_poisoned r1 = mirror_poisoned r.
Proof.
  intros k e. unfold register. fold (key_of new). fold k.
  change (entry (bump_generation (bump_epoch r)) k) with (entry r k).
  change (next_generation (bump_generation (bump_epoch r)))
    with (u64_wrapping_add (next_generation r) 1).
  set (r0 := bump_generation (bump_epoch r)).
  subst e. unfold registered, bump_or_revive, slot_refs.
  destruct (entry r k) as [e|] eqn:He; [destruct (sub_count e =? 0) eqn:Hz|];
    cbn -[entry_mut entry_insert decide guard_refs_at].
  all: eexists; split; [reflexivity|]; split_and!.
  all: try (intros Hb; repeat first [apply entry_mut_buckets|apply entry_insert_buckets]; exact Hb).
  all: autorewrite with reg_frame; try done.
  all: intros k'; rewrite ?entry_mut_lookup, ?entry_insert_lookup; case_decide; try done.
  cbn -[guard_refs_at entry_insert]. do 2 f_equal. unfold guard_refs_at.
  by rewrite entry_insert_guard_refs.
Qed.

Lemma u32_add_small a : a < u32_max → u32_wrapping_add a 1 = a + 1.
Proof. intros H. unfold u32_wrapping_add. by rewrite N.mod_small by lia. Qed.

Lemma next_generation_add n r :
  reg_wf n r → n ≤ u32_max → u64_wrapping_add (next_generation r) 1 = next_generation r + 1.
Proof.
  intros Hwf Hn. pose proof (wf_gen _ _ Hwf). unfold u64_wrapping_add, u64_max, u32_max in *.
  by rewrite N.mod_small by lia.
Qed.

(** The entry a registration leaves, before its guard is recorded. *)
Lemma registered_ok n r url k params reviver :
  reg_wf n r → n < u32_max → reviver ≤ 1 →
  let e := registered (entry r k) (entry_new url k.1 k.2 params) (next_generation r + 1)
             (slot_refs r k) reviver in
  entry_ok (n + 1) (next_generation r + 1) (guard_refs r) k e ∧
  rows (guard_refs r) k (sub_generation e) < holders e ∧
  ((sub_count e =? 1) = true → sub_state e = SubPending) ∧
  ((sub_count e =? 1) = false → sub_state <$> entry r k = Some (sub_state e)).
Proof.
  intros Hwf Hn Hrev e. subst e. unfold registered.
  assert (rows (guard_refs r) k (next_generation r + 1) = 0) as Hfresh.
  { apply rows_none. intros key v Hv. apply (wf_rows _ _ Hwf) in Hv. lia. }
  destruct (entry r k) as [e|] eqn:He.
  - destruct (wf_entries _ _ Hwf _ _ He) as (K1 & K2 & K3 & K4 & K5).
    destruct (N.eqb_spec (sub_count e) 0) as [Hz|Hz].
    + unfold entry_ok, holders. cbn. rewrite Hz, u32_add_small, Hfresh by lia.
      destruct (is_tombstone e); [|lia]. unfold u32_saturating_add.
      split_and!; try done; try lia.
    + destruct (is_tombstone e) eqn:Ht; [lia|]. rewrite u32_add_small by lia.
      unfold entry_ok, holders in *.
      change (is_tombstone (entry_set_count _ e)) with (is_tombstone e). rewrite Ht in *.
      cbn. split_and!; try done; try lia.
      intros H1. apply N.eqb_eq in H1. lia.
  - assert (entry_ok (n + 1) (next_generation r + 1) (guard_refs r) k
              (entry_set_generation (next_generation r + 1) (entry_new url k.1 k.2 params)) ∧
            rows (guard_refs r) k (next_generation r + 1) < 1) as [H1 H2].
    { unfold entry_ok, holders. cbn. rewrite Hfresh. destruct k. split_and!; try done; lia. }
    split_and!; done.
Qed.

Lemma register_wf n r url k params now gb :
  reg_wf n r → n < u32_max →
  let r' := (register (entry_new url k.1 k.2 params) now gb r).2 in
  reg_wf (n + 1) r' ∧ guard_refs r' = guard_refs r ∧
  (∀ e, entry r' k = Some e → rows (guard_refs r) k (sub_generation e) < holders e).
Proof.
  intros Hwf Hn r'. subst r'. set (new := entry_new url k.1 k.2 params).
  assert (key_of new = k) as Hk by by destruct k.
  destruct (register_store new now gb r) as (r1 & -> & He & Hb & Hg & Hgen & Hm & Hp).
  rewrite Hk, (next_generation_add n) in * by (done || lia). cbn [snd].
  destruct (registered_ok n r url k params (if gb then 0 else 1) Hwf Hn) as (Hok & Hslack & H1 & H2);
    [by destruct gb; lia|].
  fold new in Hok, Hslack, H1, H2. set (e := registered _ _ _ _ _) in *. clearbody e.
  pose proof (wf_poison _ _ Hwf) as Hpo. pose proof (wf_gen _ _ Hwf).
  assert (∀ f, reg_wf (n + 1) (if sub_count e =? 1 then mirror_write <[k:=mkRow SubPending f]> r1
                               else r1)) as Hgoal.
  { intros t. destruct (mirror_write_frame <[k:=mkRow SubPending t]> r1) as (F1 & F2 & F3 & F4);
      [congruence|].
    apply (wf_update n (n + 1) r _ k (Some e)); [done|lia|..].
    - case_match; [apply mirror_write_buckets|]; apply Hb, Hwf.
    - intros k'. case_match; rewrite ?entry_mirror_write; apply He.
    - case_match; congruence.
    - case_match; rewrite ?F2, Hgen; lia.
    - case_match; congruence.
    - intros k'. case_match eqn:Hc.
      + rewrite F3, Hm, lookup_insert. case_decide as Hd; [subst k'|].
        * rewrite decide_True by done. cbn. f_equal. by rewrite H1.
        * by rewrite decide_False by congruence.
      + rewrite Hm. case_decide; [subst k'|done]. rewrite (wf_mirror _ _ Hwf). by apply H2.
    - intros e0 [= <-]. case_match; rewrite ?F2, Hgen; done. }
  split_and!; [apply Hgoal| |].
  - case_match; [|done]. unfold mirror_write. by case_match.
  - intros e0 H0. assert (Some e = Some e0) as [= <-]; [|done].
    rewrite <-H0. case_match; by rewrite ?entry_mirror_write, He, decide_True.
Qed.

Lemma record_guard_ref_wf n r h k :
  reg_wf n r → N.of_nat (size (guard_refs r)) < n →
  (∀ e, entry r k = Some e → rows (guard_refs r) k (sub_generation e) < holders e) →
  reg_wf n (record_guard_ref h k r).
Proof.
  intros Hwf Hsz Hslack. unfold record_guard_ref, entry_generation.
  destruct (entry r k) as [e|] eqn:He; [|done]. cbn. specialize (Hslack e eq_refl).
  destruct Hwf as [W1 W2 W3 W4 W5 W6 W7]. split; cbn; try done.
  - intros k' e' He'. change (entry r k' = Some e') in He'.
    destruct (W2 _ _ He') as (K1 & K2 & K3 & K4 & K5). split_and!; try done.
    rewrite rows_insert, rows_delete.
    case_decide as Hd; [destruct Hd as [-> Hg]; rewrite He in He'; injection He' as <-|].
    + case_decide; lia.
    + case_decide; lia.
  - intros key v. rewrite lookup_insert. case_decide; [|apply W3].
    intros [= <-]. by destruct (W2 _ _ He) as (_ & ? & _).
  - rewrite map_size_insert. case_match; unfold id; lia.
Qed.

(** ** Enumerating the registry *)

Lemma elem_of_pair_entries e r :
  e ∈ pair_entries r ↔ ∃ ch s, entry r (ch, Some s) = Some e.
Proof.
  unfold pair_entries. rewrite list_elem_of_bind. split.
  - intros ([ch m] & He & Hm). apply elem_of_map_to_list in Hm. cbn in He.
    apply list_elem_of_fmap in He as ([s e'] & -> & He). apply elem_of_map_to_list in He.
    exists ch, s. unfold entry. cbn. by rewrite Hm.
  - intros (ch & s & He). unfold entry in He. cbn in He.
    destruct (entries r !! ch) as [m|] eqn:Hm; [|done]. cbn in He.
    exists (ch, m). split; [|by apply elem_of_map_to_list].
    apply list_elem_of_fmap. exists (s, e). split; [done|]. by apply elem_of_map_to_list.
Qed.

Lemma elem_of_channel_wide e r :
  e ∈ (map_to_list (channel_wide r)).*2 ↔ ∃ ch, entry r (ch, None) = Some e.
Proof.
  rewrite list_elem_of_fmap. split.
  - intros ([ch e'] & -> & He). exists ch. by apply elem_of_map_to_list in He.
  - intros (ch & He). exists (ch, e). split; [done|]. by apply elem_of_map_to_list.
Qed.

Definition all_entries (r : Registry) : list Entry :=
  ((map_to_list (channel_wide r)).*2 ++ pair_entries r)%list.

Lemma elem_of_all_entries e r : e ∈ all_entries r ↔ ∃ k, entry r k = Some e.
Proof.
  unfold all_entries. rewrite elem_of_app, elem_of_pair_entries, elem_of_channel_wide. split.
  - intros [(ch & ?)|(ch & s & ?)]; eauto.
  - intros [[ch [s|]] ?]; eauto.
Qed.

Lemma sort_entries_perm (l : list Entry) : sort_entries l ≡ₚ l.
Proof. apply merge_sort_Permutation. Qed.

Lemma fold_delete_lookup (l : list Entry) (m : gmap SubKey MirrorRow) k :
  fold_left (λ m e, delete (key_of e) m) l m !! k =
  if decide (k ∈ map key_of l) then None else m !! k.
Proof.
  revert m. induction l as [|e l IH]; intros m; cbn [fold_left map].
  - by rewrite decide_False by set_solver.
  - rewrite IH, lookup_delete. repeat case_decide; set_solver.
Qed.

Definition cleared (channel : option ChannelName) k : Prop :=
  match channel with Some ch => k.1 = ch | None => True end.

#[local] Instance cleared_dec channel k : Decision (cleared channel k).
Proof. destruct channel; cbn; apply _. Defined.

Lemma deregister_all_lookup channel k r :
  entry (deregister_all channel r).2 k = if decide (cleared channel k) then None else entry r k.
Proof.
  unfold deregister_all, cleared. destruct channel as [ch|]; cbn -[decide]; rewrite entry_mirror_write.
  - destruct k as [ch' [s|]]; unfold entry; cbn -[decide]; case_decide as Hd; subst;
      by rewrite ?lookup_delete_eq, ?lookup_delete_ne by done.
  - by destruct k as [ch' [s|]].
Qed.

Lemma deregister_all_wf n r channel : reg_wf n r → reg_wf n (deregister_all channel r).2.
Proof.
  intros Hwf. pose proof (λ k, deregister_all_lookup channel k r) as Hl. revert Hl.
  assert (∃ removed r1, deregister_all channel r =
      (map (λ e, (e, removed_kind e)) (sort_entries removed),
       mirror_write (λ m, fold_left (λ m e, delete (key_of e) m) (sort_entries removed) m) r1) ∧
      guard_refs r1 = guard_refs r ∧ next_generation r1 = next_generation r ∧
      mirror r1 = mirror r ∧ mirror_poisoned r1 = false ∧ buckets_ok r1 ∧
      ∀ e, e ∈ removed ↔ ∃ k, cleared channel k ∧ entry r k = Some e)
    as (removed & r1 & -> & G1 & G2 & G3 & G4 & Hb & Hrem).
  { pose proof (wf_poison _ _ Hwf). unfold deregister_all.
    destruct channel as [ch|]; eexists _, _; (split; [reflexivity|]); cbn; split_and!; try done.
    - intros ch'. cbn. rewrite lookup_delete. case_decide; [done|apply Hwf].
    - intros e. rewrite elem_of_app. split.
      + intros [He|He].
        * exists (ch, None). split; [done|]. unfold entry. cbn.
          by destruct (channel_wide r !! ch); set_solver.
        * destruct (entries r !! ch) as [m|] eqn:Hm; [|set_solver].
          apply list_elem_of_fmap in He as ([s e'] & -> & He). apply elem_of_map_to_list in He.
          exists (ch, Some s). unfold entry. cbn. by rewrite Hm.
      + intros ([ch' [s|]] & Hc & He); unfold entry in He; cbn in Hc, He; subst ch'.
        * right. destruct (entries r !! ch) as [m|]; [|done]. cbn in He.
          apply list_elem_of_fmap. exists (s, e). split; [done|]. by apply elem_of_map_to_list.
        * left. rewrite He. set_solver.
    - intros e. change (e ∈ all_entries r ↔ ∃ k, True ∧ entry r k = Some e).
      rewrite elem_of_all_entries. naive_solver. }
  cbn [snd]. intros Hl. destruct (mirror_write_frame (λ m, fold_left
    (λ m e, delete (key_of e) m) (sort_entries removed) m) r1 G4) as (F1 & F2 & F3 & F4).
  destruct Hwf as [W1 W2 W3 W4 W5 W6 W7]. split.
  - by apply mirror_write_buckets.
  - intros k e. rewrite Hl, F1, F2, G1, G2. case_decide; [done|apply W2].
  - rewrite F1, F2, G1, G2. apply W3.
  - by rewrite F1, G1.
  - by rewrite F2, G2.
  - done.
  - intros k. rewrite Hl, F3, G3, fold_delete_lookup.
    assert (k ∈ map key_of (sort_entries removed) ↔ cleared channel k ∧ is_Some (entry r k)) as Hin.
    { rewrite list_elem_of_fmap. setoid_rewrite sort_entries_perm. setoid_rewrite Hrem. split.
      - intros (e & -> & k' & Hc & He). destruct (W2 _ _ He) as (-> & _). eauto.
      - intros (Hc & e & He). exists e. destruct (W2 _ _ He) as (-> & _). eauto. }
    destruct (entry r k) as [e|] eqn:He.
    + destruct (decide (cleared channel k)) as [Hc|Hc].
      * rewrite decide_True by (apply Hin; eauto). done.
      * rewrite decide_False by (rewrite Hin; tauto). by rewrite W7, He.
    + specialize (W7 k). rewrite He in W7. cbn in *.
      rewrite (decide_False (P := k ∈ _)) by (rewrite Hin; intros [_ [? ?]]; done).
      rewrite W7. by case_decide.
Qed.

(** ** Every operation preserves the invariant *)

Lemma drive_update_builder snap data e :
  ∃ b, (drive_update dcmp crc32 dec_from_str decode_frame snap data e).2
       = entry_set_builder b e.
Proof.
  assert (e = entry_set_builder (sub_builder e) e) as Hid by by destruct e.
  unfold drive_update. destruct (sub_builder e) as [b|] eqn:Hb; [|eauto].
  destruct (resyncing b && negb snap); [eauto|].
  destruct (parse_book_frame _ _ data) as [p|]; [|eauto].
  destruct (negb _); [eauto|].
  destruct snap; [destruct (apply_snapshot _ _ _ _ _ _) as [[[x c]|[]] b']
                 |destruct (apply_delta _ _ _ _ _ _) as [[[x c]|[]] b']];
    try case_match; eexists; reflexivity.
Qed.

(** Fields the lifecycle does not read may change freely. *)
Lemma wf_entry_quiet n f k r :
  reg_wf n r →
  (∀ e, entry r k = Some e → (∃ b, f e = entry_set_builder b e) ∨ (∃ s, f e = entry_set_seq s e)) →
  reg_wf n (entry_mut f k r).
Proof.
  intros Hwf Hf. apply (wf_entry_mut n n); [done|lia|]. intros e He.
  destruct (wf_entries _ _ Hwf _ _ He) as (K1 & K2 & K3 & K4 & K5).
  destruct (Hf e He) as [[x ->]|[x ->]]; split; try done.
Qed.

Lemma release_wf n r k : reg_wf n r → n ≤ u32_max → reg_wf n (release k r).2.
Proof.
  intros Hwf Hn. unfold release, release_inner. pose proof (wf_size _ _ Hwf).
  destruct (entry r k) as [e|] eqn:He; [|apply release_slot_wf; [done|congruence]].
  destruct (wf_entries _ _ Hwf _ _ He) as (K1 & K2 & K3 & K4 & K5).
  destruct (0 <? stale_release_credits e); cbn [snd].
  - apply (wf_entry_mut n n); [done|lia|]. intros e' He'. rewrite He in He'.
    injection He' as <-. split; [done|]. split_and!; try done. cbn. lia.
  - fold (holders e). destruct (_ =? 0) eqn:Hz; [done|]. apply N.eqb_neq in Hz.
    rewrite guard_refs_at_rows in Hz by lia.
    apply release_slot_wf; [done|]. intros e' He'. rewrite He in He'. injection He' as <-. lia.
Qed.

Lemma delete_row_wf n r key :
  reg_wf n r → reg_wf n (set_guard_refs (delete key (guard_refs r)) r).
Proof.
  intros [W1 W2 W3 W4 W5 W6 W7]. destruct key as [[h ch] p]. split; cbn; try done.
  - intros k e He. destruct (W2 _ _ He) as (K1 & K2 & K3 & K4 & K5). split_and!; try done.
    pose proof (rows_delete (guard_refs r) h (ch, p) k (sub_generation e)) as Hr. cbn -[decide] in Hr.
    rewrite Hr. case_decide; lia.
  - intros key v. rewrite lookup_delete. case_decide; [done|apply W3].
  - rewrite map_size_delete. case_match; unfold id; lia.
Qed.

Lemma release_guard_ref_wf n r h k :
  reg_wf n r → n ≤ u32_max → op_ok r (RegGuardDrop h k) → reg_wf n (release_guard_ref h k r).2.
Proof.
  intros Hwf Hn Hok. pose proof (delete_row_wf n r (h, k.1, k.2) Hwf) as Hwf'.
  pose proof (wf_size _ _ Hwf). cbn in Hok. unfold release_guard_ref.
  change (entry (set_guard_refs _ r) k) with (entry r k).
  assert (∀ e, entry r k = Some e →
            guard_refs r !! (h, k.1, k.2) = None ∨
            guard_refs r !! (h, k.1, k.2) = Some (sub_generation e) →
            rows (delete (h, k.1, k.2) (guard_refs r)) k (sub_generation e) < holders e) as Hslack.
  { intros e He Hrec. rewrite He in Hok. rewrite rows_delete.
    destruct (wf_entries _ _ Hwf _ _ He) as (K1 & K2 & K3 & K4 & K5).
    destruct Hrec as [Hrec|Hrec]; rewrite Hrec in Hok; rewrite Hrec.
    - rewrite decide_False by naive_solver. rewrite guard_refs_at_rows in Hok by lia.
      destruct Hok as [[? ?]|?]; done.
    - rewrite decide_True by done.
      assert (1 ≤ holders e); [|lia]. unfold holders. destruct (is_tombstone e); lia. }
  destruct (guard_refs r !! (h, k.1, k.2)) as [g|] eqn:Hg, (entry r k) as [e|] eqn:He; cbn.
  1: destruct (N.eqb_spec g (sub_generation e)) as [->|]; cbn; [|exact Hwf'].
  all: apply release_slot_wf; [done|]; intros e' He'; change (entry r k = Some e') in He';
    rewrite He in He'; first [discriminate He'|injection He' as <-]; apply Hslack; auto.
Qed.

Lemma note_state_wf n r k f s :
  reg_wf n r →
  (∀ e, entry r k = Some e → sub_state (f e) = s ∧
        entry_ok n (next_generation r) (guard_refs r) k (f e)) →
  reg_wf n (mirror_write (alter (row_set_state s) k) (entry_mut f k r)).
Proof.
  intros Hwf Hf.
  destruct (mirror_write_frame (alter (row_set_state s) k) (entry_mut f k r)) as (F1 & F2 & F3 & F4);
    [autorewrite with reg_frame; apply Hwf|].
  pose proof (wf_gen _ _ Hwf).
  apply (wf_update n n r _ k (f <$> entry r k)); rewrite ?F1, ?F2, ?F3, ?F4;
    autorewrite with reg_frame; try done; try lia.
  - apply mirror_write_buckets, entry_mut_buckets, Hwf.
  - intros k'. rewrite entry_mirror_write, entry_mut_lookup. by case_decide; subst.
  - intros k'. rewrite lookup_alter. case_decide; subst.
    + rewrite decide_True by done. pose proof (wf_mirror _ _ Hwf k') as Hm.
      destruct (mirror r !! k') as [row|], (entry r k') as [e|] eqn:He; try done. cbn.
      f_equal. symmetry. by apply Hf.
    + by rewrite decide_False by congruence.
  - intros e' He'. apply fmap_Some in He' as (e & He & ->). by apply Hf.
Qed.

Lemma note_acked_wf n r k : reg_wf n r → reg_wf n (note_acked k r).
Proof.
  intros Hwf. unfold note_acked. destruct (entry r k) as [e|] eqn:He; [|done].
  destruct (sub_state e) eqn:Hs; try done. apply note_state_wf; [done|].
  intros e' He'. rewrite He in He'. injection He' as <-. split; [done|].
  destruct (wf_entries _ _ Hwf _ _ He) as (K1 & K2 & K3 & K4 & K5).
  unfold entry_ok, holders, is_tombstone in *. cbn. rewrite Hs in *. done.
Qed.

Lemma note_terminated_wf n r k cause err :
  reg_wf n r → reg_wf n (note_terminated k cause err r).
Proof.
  intros Hwf. unfold note_terminated. destruct (entry r k) as [e|] eqn:He; [|done].
  destruct (is_tombstone e) eqn:Ht; [done|].
  assert (∀ f r, bump_epoch (mirror_write f r) = mirror_write f (bump_epoch r)) as Hcomm.
  { intros f r0. unfold mirror_write. by destruct r0 as [? ? ? [] ? ? ?]. }
  rewrite <-Hcomm. apply bump_epoch_wf, note_state_wf; [done|].
  intros e' He'. rewrite He in He'. injection He' as <-. split; [done|].
  destruct (wf_entries _ _ Hwf _ _ He) as (K1 & K2 & K3 & K4 & K5).
  unfold entry_ok, holders in *. rewrite Ht in *. cbn. split_and!; try done; lia.
Qed.

(** Operations without a condition: they register nobody and drop no guard. *)
Definition is_quiet (op : RegOp) : bool :=
  match op with RegRegister _ _ _ _ _ | RegGuardDrop _ _ => false | _ => true end.

Lemma quiet_op_wf n r op :
  is_quiet op = true → reg_wf n r → n ≤ u32_max → reg_wf n (reg_op op r).
Proof.
  intros Hq Hwf Hn. destruct op; try discriminate Hq; cbn [reg_op].
  - by apply release_wf.
  - by apply deregister_all_wf.
  - by apply note_acked_wf.
  - by apply note_terminated_wf.
  - unfold handle_update. destruct (entry r k) as [e|] eqn:He; [|done].
    destruct (drive_update_builder is_snapshot data e) as [b Hb].
    destruct (drive_update _ _ _ _ _ _ e) as [o e']. cbn in Hb |- *. subst e'.
    apply wf_entry_quiet; [done|]. intros e' He'. rewrite He in He'. injection He' as <-. eauto.
  - unfold note_sequence. destruct (channel_wide r !! channel) as [e|]; [|done].
    destruct (observe _ _ _) as [lost q]. apply wf_entry_quiet; [done|]. eauto.
  - apply wf_entry_quiet; [done|]. eauto.
  - unfold note_reseed_timeout.
    repeat case_match; try done; cbn [snd]; (apply wf_entry_quiet; [done|]; eauto).
Qed.

Lemma reg_op_wf n r op : reg_wf n r → n < u32_max → op_ok r op → reg_wf (n + 1) (reg_op op r).
Proof.
  intros Hwf Hn Hok. destruct (is_quiet op) eqn:Hq.
  { eapply wf_weaken; [apply (quiet_op_wf n); done || lia|lia]. }
  destruct op; try discriminate Hq; cbn [reg_op].
  - destruct (register_wf n r url k params now (match guard with Some _ => true | None => false end)
      Hwf Hn) as (Hwf' & Hg & Hslack). destruct guard as [h|]; [|done].
    apply record_guard_ref_wf; [done|rewrite Hg; pose proof (wf_size _ _ Hwf); lia|].
    by rewrite Hg.
  - eapply wf_weaken; [apply (release_guard_ref_wf n); [done| |done]|]; lia.
Qed.

Lemma reachable_wf n r : reg_reachable n r → n ≤ u32_max → reg_wf n r.
Proof.
  induction 1 as [|n r op Hr IH Hok]; intros Hn; [apply registry_new_wf|].
  apply reg_op_wf; [apply IH|..]; done || lia.
Qed.

(** ** The ledger of bare releases

    What callers without a guard may still release at a key: the subscribers no guard
    stands for, and the releases left from dead lifetimes. *)

Definition owed (m : gmap GuardKey N) k (oe : option Entry) : N :=
  match oe with
  | Some e => holders e - rows m k (sub_generation e) + stale_release_credits e
  | None => 0
  end.

Definition bare_owed (r : Registry) k : N :=
  match entry r k with
  | Some e => holders e - guard_refs_at r k (sub_generation e) + stale_release_credits e
  | None => 0
  end.

Lemma bare_owed_rows n r k :
  reg_wf n r → n ≤ u32_max → bare_owed r k = owed (guard_refs r) k (entry r k).
Proof.
  intros Hwf Hn. unfold bare_owed, owed. destruct (entry r k); [|done].
  rewrite guard_refs_at_rows; [done|]. pose proof (wf_size _ _ Hwf). lia.
Qed.

(** What each operation makes of the ledger at [k]. *)
Definition ledger (op : RegOp) (r : Registry) k : N :=
  match op with
  | RegRegister _ k' _ _ guard =>
      if decide (k = k') then
        match guard, entry r k with
        | None, Some e =>
            (* a bare re-subscriber takes over a slot of the dead lifetime, if any *)
            if is_tombstone e && (0 <? holders e - guard_refs_at r k (sub_generation e))
            then bare_owed r k else bare_owed r k + 1
        | None, None => 1
        | Some h, Some e =>
            (* a handler that registers twice in one lifetime has one record *)
            if negb (is_tombstone e) &&
               bool_decide (guard_refs r !! (h, k.1, k.2) = Some (sub_generation e))
            then bare_owed r k + 1 else bare_owed r k
        | Some _, None => 0
        end
      else bare_owed r k
  | RegRelease k' => if decide (k = k') then bare_owed r k - 1 else bare_owed r k
  | RegGuardDrop h k' =>
      if decide (k = k') then
        match entry r k with
        | Some e =>
            match guard_refs r !! (h, k.1, k.2) with
            | Some g =>
                if g =? sub_generation e then if holders e =? 1 then 0 else bare_owed r k
                else bare_owed r k
            | None => if holders e =? 1 then 0 else bare_owed r k - 1
            end
        | None => 0
        end
      else bare_owed r k
  | RegDeregisterAll channel => if decide (cleared channel k) then 0 else bare_owed r k
  | _ => bare_owed r k
  end.

Definition drop_one (e : Entry) : Entry :=
  if is_tombstone e then entry_set_holders (tombstone_holders e - 1) e
  else entry_set_count (sub_count e - 1) e.

Lemma holders_drop_one e : holders (drop_one e) = holders e - 1.
Proof. unfold holders, drop_one. destruct (is_tombstone e) eqn:H; unfold is_tombstone in *; cbn; by rewrite H. Qed.

Lemma release_slot_store k r :
  (∀ k', entry (release_slot k r).2 k' =
     if decide (k' = k) then
       e ← entry r k; if holders e - 1 =? 0 then None else Some (drop_one e)
     else entry r k') ∧
  guard_refs (release_slot k r).2 = guard_refs r.
Proof.
  assert (∀ f r, guard_refs (deregister k (entry_mut f k r)) = guard_refs r) as Hd.
  { intros f r0. unfold deregister, mirror_write.
    repeat case_match; cbn; by autorewrite with reg_frame. }
  unfold release_slot, holders, drop_one. destruct (entry r k) as [e|] eqn:He.
  - change (entry (bump_epoch r)) with (entry r).
    destruct (is_tombstone e) eqn:Ht; cbn [snd]; destruct (_ =? 0) eqn:Hz; (split; [intros k'|]);
      rewrite ?deregister_lookup, ?entry_mut_lookup, ?Hd; autorewrite with reg_frame; try done;
      case_decide; subst; try done; change (entry (bump_epoch r)) with (entry r);
      cbn; rewrite ?Ht, ?Hz, ?He; done.
  - split; [|done]. intros k'. case_decide; by subst.
Qed.

Lemma mirror_write_guard_refs f r : guard_refs (mirror_write f r) = guard_refs r.
Proof. unfold mirror_write. by destruct (mirror_poisoned r). Qed.

Lemma owed_after_write f k k' r r' :
  (∀ k0, entry r' k0 = entry (entry_mut f k r) k0) → guard_refs r' = guard_refs r →
  (∀ e, entry r k = Some e → holders (f e) = holders e ∧ sub_generation (f e) = sub_generation e ∧
        stale_release_credits (f e) = stale_release_credits e) →
  owed (guard_refs r') k' (entry r' k') = owed (guard_refs r) k' (entry r k').
Proof.
  intros He Hg Hf. rewrite He, Hg, entry_mut_lookup. case_decide; [subst|done].
  destruct (entry r k) as [e|] eqn:E; [|done]. cbn. by destruct (Hf e eq_refl) as (-> & -> & ->).
Qed.

(** Operations that neither add nor remove a subscriber. *)
Lemma owed_quiet op r k :
  match op with
  | RegAcked _ | RegTerminated _ _ _ | RegFrame _ _ _ | RegSequence _ _ _ | RegResync _ _
  | RegReseedTimeout _ _ => True
  | _ => False
  end →
  owed (guard_refs (reg_op op r)) k (entry (reg_op op r) k) = owed (guard_refs r) k (entry r k).
Proof.
  intros Hop. destruct op; try done; cbn [reg_op].
  - unfold note_acked. destruct (entry r k0) as [e|] eqn:He; [|done].
    destruct (sub_state e) eqn:Hs; try done.
    apply (owed_after_write (entry_set_state SubAcked) k0).
    + intros. by rewrite entry_mirror_write.
    + rewrite mirror_write_guard_refs. by autorewrite with reg_frame.
    + intros e' He'. rewrite He in He'. injection He' as <-. unfold holders, is_tombstone. cbn.
      by rewrite Hs.
  - unfold note_terminated. destruct (entry r k0) as [e|] eqn:He; [|done].
    destruct (is_tombstone e) eqn:Ht; [done|].
    eapply (owed_after_write _ k0).
    + intros. rewrite entry_mirror_write. reflexivity.
    + rewrite mirror_write_guard_refs. cbn. by autorewrite with reg_frame.
    + intros e' He'. rewrite He in He'. injection He' as <-. unfold holders. by rewrite Ht.
  - unfold handle_update. destruct (entry r k0) as [e|] eqn:He; [|done].
    destruct (drive_update_builder is_snapshot data e) as [b Hb].
    destruct (drive_update _ _ _ _ _ _ e) as [o e']. cbn in Hb. subst e'. cbn [snd].
    eapply (owed_after_write _ k0); [reflexivity|by autorewrite with reg_frame|].
    intros e' He'. rewrite He in He'. by injection He' as <-.
  - unfold note_sequence. destruct (channel_wide r !! channel) as [e|]; [|done].
    destruct (observe _ _ _) as [lost q]. cbn [snd].
    by eapply owed_after_write; [reflexivity|autorewrite with reg_frame|].
  - by eapply owed_after_write; [reflexivity|unfold begin_book_resync; autorewrite with reg_frame|].
  - unfold note_reseed_timeout. repeat case_match; try done; cbn [snd];
      (by eapply owed_after_write; [reflexivity|autorewrite with reg_frame|]).
Qed.

(** A quiet operation makes no new key and touches no guard. *)
Lemma entry_mut_dom f k k' r : is_Some (entry (entry_mut f k r) k') ↔ is_Some (entry r k').
Proof. rewrite entry_mut_lookup. case_decide; [subst|done]. by rewrite fmap_is_Some. Qed.

Lemma release_slot_dom k k' r :
  is_Some (entry (release_slot k r).2 k') → is_Some (entry r k').
Proof.
  destruct (release_slot_store k r) as [-> _]. case_decide; [subst|done].
  destruct (entry r k); [done|]. by intros [? ?].
Qed.

Lemma quiet_op_store op r :
  is_quiet op = true →
  guard_refs (reg_op op r) = guard_refs r ∧
  ∀ k, is_Some (entry (reg_op op r) k) → is_Some (entry r k).
Proof.
  intros Hq. destruct op; try discriminate Hq; cbn [reg_op].
  - unfold release, release_inner. destruct (release_slot_store k r) as [_ Hg].
    destruct (entry r k) as [e|]; [|by split; [|intros; eapply release_slot_dom]].
    repeat case_match; cbn [snd]; autorewrite with reg_frame; (split; [done|]); try done;
      intros k'; first [by rewrite entry_mut_dom|by apply release_slot_dom].
  - split.
    + unfold deregister_all. destruct channel; cbn; by rewrite mirror_write_guard_refs.
    + intros k. rewrite deregister_all_lookup. case_decide; [by intros [? ?]|done].
  - unfold note_acked. repeat case_match; try done. rewrite mirror_write_guard_refs.
    autorewrite with reg_frame. split; [done|]. intros k'. by rewrite entry_mirror_write, entry_mut_dom.
  - unfold note_terminated. repeat case_match; try done. rewrite mirror_write_guard_refs.
    cbn. autorewrite with reg_frame. split; [done|]. intros k'. rewrite entry_mirror_write.
    change (entry (bump_epoch ?r) k') with (entry r k'). by rewrite entry_mut_dom.
  - unfold handle_update. destruct (entry r k) as [e|]; [|done].
    destruct (drive_update _ _ _ _ _ _ e) as [o e']. cbn [snd]. autorewrite with reg_frame.
    split; [done|]. intros k'. by rewrite entry_mut_dom.
  - unfold note_sequence. destruct (channel_wide r !! channel) as [e|]; [|done].
    destruct (observe _ _ _) as [lost q]. cbn [snd]. autorewrite with reg_frame.
    split; [done|]. intros k'. by rewrite entry_mut_dom.
  - unfold begin_book_resync. autorewrite with reg_frame. split; [done|].
    intros k'. by rewrite entry_mut_dom.
  - unfold note_reseed_timeout. repeat case_match; try done; cbn [snd];
      autorewrite with reg_frame; (split; [done|]; intros k'; by rewrite entry_mut_dom).
Qed.

Lemma owed_release n r k k' :
  reg_wf n r → n ≤ u32_max →
  owed (guard_refs (release k r).2) k' (entry (release k r).2 k') =
  if decide (k' = k) then owed (guard_refs r) k (entry r k) - 1
  else owed (guard_refs r) k' (entry r k').
Proof.
  intros Hwf Hn. destruct (release_slot_store k r) as [Hs Hg].
  unfold release, release_inner. destruct (entry r k) as [e|] eqn:He.
  - destruct (wf_entries _ _ Hwf _ _ He) as (K1 & K2 & K3 & K4 & K5).
    rewrite guard_refs_at_rows by (pose proof (wf_size _ _ Hwf); lia). fold (holders e).
    destruct (N.ltb_spec 0 (stale_release_credits e)) as [Hc|Hc]; cbn [snd].
    + autorewrite with reg_frame. rewrite entry_mut_lookup. case_decide; [subst|done].
      rewrite He. unfold owed, holders, is_tombstone. cbn. case_match; lia.
    + destruct (N.eqb_spec (holders e - rows (guard_refs r) k (sub_generation e)) 0) as [Hz|Hz];
        cbn [snd].
      * case_decide; [subst|done]. rewrite He. cbn. lia.
      * rewrite Hg, Hs. case_decide; [subst|done]. cbn.
        destruct (N.eqb_spec (holders e - 1) 0); cbn; [lia|].
        rewrite holders_drop_one. unfold drop_one. destruct (is_tombstone e); cbn; lia.
  - rewrite Hg, Hs. case_decide; by subst.
Qed.

Lemma owed_guard_drop n r h k k' :
  reg_wf n r → n ≤ u32_max → op_ok r (RegGuardDrop h k) →
  let r' := (release_guard_ref h k r).2 in
  owed (guard_refs r') k' (entry r' k') =
  if decide (k' = k) then
    match entry r k with
    | Some e =>
        match guard_refs r !! (h, k.1, k.2) with
        | Some g =>
            if g =? sub_generation e then
              if holders e =? 1 then 0 else owed (guard_refs r) k (entry r k)
            else owed (guard_refs r) k (entry r k)
        | None => if holders e =? 1 then 0 else owed (guard_refs r) k (entry r k) - 1
        end
    | None => 0
    end
  else owed (guard_refs r) k' (entry r k').
Proof.
  intros Hwf Hn Hok r'. subst r'. pose proof (wf_size _ _ Hwf). unfold release_guard_ref.
  set (r0 := set_guard_refs (delete (h, k.1, k.2) (guard_refs r)) r).
  assert (∀ k0, entry r0 k0 = entry r k0) as He0 by done.
  assert (guard_refs r0 = delete (h, k.1, k.2) (guard_refs r)) as Hg0 by done.
  destruct (release_slot_store k r0) as [Hs Hg]. rewrite He0.
  assert (∀ k0 oe, k0 ≠ k → owed (guard_refs r0) k0 oe = owed (guard_refs r) k0 oe) as Hother.
  { intros k0 [e|] Hk; [|done]. unfold owed. rewrite Hg0, rows_delete. by rewrite decide_False by tauto. }
  assert (owed (guard_refs (release_inner k false r0).2) k' (entry (release_inner k false r0).2 k') =
    if decide (k' = k) then
      match entry r k with
      | Some e => if holders e =? 1 then 0
                  else holders e - 1 - rows (guard_refs r0) k (sub_generation e)
                       + stale_release_credits e
      | None => 0
      end
    else owed (guard_refs r) k' (entry r k')) as Hslot.
  { unfold release_inner. rewrite Hg, Hs. case_decide as Hd; [subst k'|by rewrite Hother].
    rewrite He0. destruct (entry r k) as [e|] eqn:He; [|done]. cbn.
    destruct (wf_entries _ _ Hwf _ _ He) as (K1 & K2 & K3 & K4 & K5).
    assert (1 ≤ holders e) by (unfold holders; destruct (is_tombstone e); lia).
    destruct (N.eqb_spec (holders e - 1) 0), (N.eqb_spec (holders e) 1); try lia; [done|].
    cbn. rewrite holders_drop_one. unfold drop_one. by destruct (is_tombstone e). }
  cbn in Hok. destruct (guard_refs r !! (h, k.1, k.2)) as [g|] eqn:Hrow, (entry r k) as [e|] eqn:He;
    cbn [fmap option_fmap option_map fst snd].
  - destruct (wf_entries _ _ Hwf _ _ He) as (K1 & K2 & K3 & K4 & K5).
    destruct (N.eqb_spec g (sub_generation e)) as [->|Hne]; cbn [negb snd].
    + rewrite Hslot. case_decide; [|done]. destruct (holders e =? 1); [done|]. unfold owed.
      rewrite Hg0, rows_delete, decide_True by done.
      apply rows_pos in Hrow. lia.
    + rewrite He0. case_decide as Hd; [subst k'|by apply Hother]. rewrite ?He. unfold owed.
      rewrite Hg0, rows_delete, decide_False by naive_solver. done.
  - rewrite Hslot. done.
  - rewrite Hslot. case_decide; [|done]. destruct (holders e =? 1); [done|]. unfold owed.
    rewrite Hg0, rows_delete, decide_False by naive_solver.
    rewrite guard_refs_at_rows in Hok by lia. destruct Hok as [[? ?]|?]; [done|lia].
  - rewrite Hslot. done.
Qed.

Lemma owed_registered n r url k params now guard :
  reg_wf n r → n < u32_max →
  let e := registered (entry r k) (entry_new url k.1 k.2 params) (next_generation r + 1)
             (slot_refs r k) (match guard with Some _ => 0 | None => 1 end) in
  let m := match guard with
           | Some h => <[(h, k.1, k.2) := sub_generation e]> (guard_refs r)
           | None => guard_refs r
           end in
  owed m k (Some e) = ledger (RegRegister url k params now guard) r k.
Proof.
  intros Hwf Hn e m. pose proof (wf_size _ _ Hwf). cbn [ledger].
  rewrite decide_True, (bare_owed_rows n) by (done || lia).
  assert (rows (guard_refs r) k (next_generation r + 1) = 0) as Hfresh.
  { apply rows_none. intros key v Hv. apply (wf_rows _ _ Hwf) in Hv. lia. }
  subst e m. unfold registered, slot_refs.
  destruct (entry r k) as [e|] eqn:He.
  - destruct (wf_entries _ _ Hwf _ _ He) as (K1 & K2 & K3 & K4 & K5).
    rewrite guard_refs_at_rows by lia.
    set (q := rows (guard_refs r) k (sub_generation e)) in *.
    destruct (is_tombstone e) eqn:Ht; [destruct K3 as [Hz Hth]|].
    + rewrite (proj2 (N.eqb_eq _ _) Hz), Hz, u32_add_small by lia.
      unfold owed, holders in *. rewrite Ht in *. cbn. fold q. unfold u32_saturating_add.
      destruct guard as [h|]; [rewrite rows_insert, rows_delete, decide_True by done|];
        rewrite Hfresh.
      * case_decide; lia.
      * destruct (N.ltb_spec 0 (tombstone_holders e - q)); lia.
    + rewrite (proj2 (N.eqb_neq _ 0)), u32_add_small by lia.
      unfold owed, holders in *. change (is_tombstone (entry_set_count _ e)) with (is_tombstone e).
      rewrite Ht in *. cbn. destruct guard as [h|].
      * rewrite rows_insert, rows_delete, decide_True by done. fold q.
        case_bool_decide as Hd; cbn.
        -- rewrite decide_True by done. apply rows_pos in Hd. fold q in Hd. lia.
        -- rewrite decide_False by tauto. lia.
      * fold q. lia.
  - unfold owed, holders. cbn. destruct guard as [h|]; [|by rewrite Hfresh].
    rewrite rows_insert, rows_delete, decide_True, Hfresh by done. by case_decide.
Qed.

Lemma owed_register n r url k params now guard k' :
  reg_wf n r → n < u32_max →
  let op := RegRegister url k params now guard in
  owed (guard_refs (reg_op op r)) k' (entry (reg_op op r) k') = ledger op r k'.
Proof.
  intros Hwf Hn op. subst op. pose proof (wf_size _ _ Hwf).
  cbn [reg_op]. set (gb := match guard with Some _ => true | None => false end).
  assert (key_of (entry_new url k.1 k.2 params : Entry) = k) as Hk by by destruct k.
  destruct (register_wf n r url k params now gb Hwf Hn) as (_ & Hg & _).
  destruct (register_store (entry_new url k.1 k.2 params) now gb r) as (r1 & Hreg & He & _).
  rewrite Hk, (next_generation_add n) in * by (done || lia).
  replace (if gb then 0 else 1) with (match guard with Some _ => 0 | None => 1 end) in *
    by by destruct guard.
  pose proof (owed_registered n r url k params now guard Hwf Hn) as Ho. cbn zeta in Ho.
  set (e1 := registered _ _ _ _ _) in *.
  set (r2 := (register _ now gb r).2) in *.
  assert (∀ k0, entry r2 k0 = if decide (k0 = k) then Some e1 else entry r k0) as He2.
  { intros k0. subst r2. rewrite Hreg. cbn [snd]. destruct (sub_count e1 =? 1); rewrite ?entry_mirror_write; apply He. }
  clearbody r2 e1. clear He Hreg.
  destruct (decide (k' = k)) as [->|Hne].
  - rewrite <-Ho. destruct guard as [h|]; [|by rewrite Hg, He2, decide_True].
    unfold record_guard_ref, entry_generation. rewrite He2, decide_True by done. cbn.
    change (entry (set_guard_refs _ r2) k) with (entry r2 k).
    by rewrite He2, decide_True, Hg.
  - cbn [ledger]. rewrite decide_False, (bare_owed_rows n) by (done || lia).
    destruct guard as [h|]; [|by rewrite Hg, He2, decide_False].
    unfold record_guard_ref, entry_generation. rewrite He2, decide_True by done. cbn.
    change (entry (set_guard_refs _ r2) k') with (entry r2 k').
    rewrite He2, decide_False, Hg by done. destruct (entry r k') as [e|]; [|done]. unfold owed.
    by rewrite rows_insert, rows_delete, !decide_False by tauto.
Qed.

End Props.
