(* ===== verification/RegistryProps.v ===== *)
(** * RegistryProps: what the subscription registry guarantees

    The invariant, the ledger of bare releases, the lifetime check of guard drops and the
    replay order, with their witnesses and a history in which a release is misattributed. *)

From Stdlib Require Import Ascii String.
From stdpp Require Import sorting.
From S2P Require Import Prelude Types Events Errors.
From S2P Require Import Book Registry RegistryInv.
Local Open Scope N_scope.

Section Props.
Context {Decimal : Type} (dcmp : Decimal → Decimal → comparison)
  (crc32 : list (string * string) → list (string * string) → N)
  (dec_from_str : string → option Decimal)
  (decode_frame : Json → option RawBookData).

Abbreviation Registry := (@SubscriptionRegistry Decimal).
Abbreviation Entry := (@SubscriptionEntry Decimal).
Abbreviation reg_op := (RegistryInv.reg_op dcmp crc32 dec_from_str decode_frame).
Abbreviation reg_reachable :=
  (RegistryInv.reg_reachable dcmp crc32 dec_from_str decode_frame).
Implicit Types (r : Registry) (e : Entry) (k : SubKey).

(** In every reachable registry the caller-readable mirror shows exactly the entries
    with their state, no empty bucket remains, every entry sits under its own key, counts
    at least one subscriber, is a tombstone exactly when its refcount is zero, and counts
    a subscriber for every guard recorded in its lifetime. *)
Theorem registry_invariant n r :
  reg_reachable n r → n ≤ u32_max →
  (∀ ch, entries r !! ch ≠ Some ∅) ∧
  (∀ k, row_state <$> mirror r !! k = sub_state <$> entry r k) ∧
  (∀ k e, entry r k = Some e →
     key_of e = k ∧ 1 ≤ holders e ∧ (sub_count e = 0 ↔ is_tombstone e = true) ∧
     guard_refs_at r k (sub_generation e) ≤ holders e).
Proof.
  intros Hr Hn. pose proof (reachable_wf _ _ _ _ n r Hr Hn) as Hwf. split_and!; [apply Hwf..|].
  intros k e He. destruct (wf_entries _ _ Hwf _ _ He) as (K1 & K2 & K3 & K4 & K5).
  rewrite guard_refs_at_rows by (pose proof (wf_size _ _ Hwf); lia).
  unfold holders in *. destruct (is_tombstone e); split_and!; try done; try lia.
Qed.

(** Bare releases are accounted exactly.  What callers may still release at a key grows
    by one with a bare registration, except when the caller re-subscribes over a tombstone
    it still holds a slot of, is untouched by guard-backed registrations and drops, by acks,
    terminations and frames, shrinks by one with each release, and falls to nothing only
    when the last guard of an entry goes or on a forced teardown. *)
Theorem release_ledger n r op k :
  reg_reachable n r → n < u32_max → op_ok r op →
  bare_owed (reg_op op r) k = ledger op r k.
Proof.
  intros Hr Hn Hok. pose proof (reachable_wf _ _ _ _ n r Hr ltac:(lia)) as Hwf.
  pose proof (reg_op_wf dcmp crc32 dec_from_str decode_frame n r op Hwf Hn Hok) as Hwf'.
  rewrite (bare_owed_rows (n + 1)) by (done || lia).
  assert (∀ k0, bare_owed r k0 = owed (guard_refs r) k0 (entry r k0)) as Hb
    by (intros; apply (bare_owed_rows n); done || lia).
  destruct op; try (rewrite owed_quiet by done; cbn; by rewrite ?Hb).
  - by apply (owed_register _ _ _ _ n).
  - cbn [reg_op ledger]. rewrite (owed_release n), !Hb by (done || lia).
    case_decide; by subst.
  - cbn [reg_op ledger]. pose proof (owed_guard_drop n r h k0 k Hwf ltac:(lia) Hok) as Ho.
    cbn zeta in Ho. rewrite Ho, !Hb. case_decide; by subst.
  - cbn [reg_op ledger]. rewrite deregister_all_lookup, Hb.
    assert (guard_refs (deregister_all channel r).2 = guard_refs r) as ->.
    { unfold deregister_all. destruct channel; cbn; by rewrite mirror_write_guard_refs. }
    by case_decide.
Qed.

(** ** Lifetimes *)

(** A new life of a key, a first registration or the revival of a tombstone, cannot be
    released by a guard of an earlier life: dropping any guard but the registering one
    leaves every entry, the mirror and the liveness epoch as they are, and consumes the
    guard's record. *)
Theorem old_guard_spares_new_life n r url k params now guard h :
  reg_reachable n r → n < u32_max →
  (∀ e, entry r k = Some e → is_tombstone e = true) →
  guard ≠ Some h →
  let r1 := reg_op (RegRegister url k params now guard) r in
  let r2 := reg_op (RegGuardDrop h k) r1 in
  is_Some (guard_refs r1 !! (h, k.1, k.2)) →
  (∀ k', entry r2 k' = entry r1 k') ∧ mirror r2 = mirror r1 ∧
  liveness_epoch r2 = liveness_epoch r1 ∧ guard_refs r2 !! (h, k.1, k.2) = None.
Proof.
  intros Hr Hn Htomb Hh r1 r2 [g Hg]. pose proof (reachable_wf _ _ _ _ n r Hr ltac:(lia)) as Hwf.
  assert (∃ e, entry r1 k = Some e ∧ sub_generation e = next_generation r + 1 ∧
               guard_refs r !! (h, k.1, k.2) = Some g) as (e & He & Hgen & Hold).
  { subst r1. cbn [RegistryInv.reg_op] in *.
    set (gb := match guard with Some _ => true | None => false end) in *.
    destruct (register_wf n r url k params now gb Hwf Hn) as (_ & Hgr & _).
    destruct (register_store (entry_new url k.1 k.2 params) now gb r) as (r1 & Hreg & He & _).
    replace (key_of _) with k in * by by destruct k.
    rewrite (next_generation_add n) in * by (done || lia).
    set (e1 := registered _ _ _ _ _) in *. set (r3 := (register _ now gb r).2) in *.
    assert (entry r3 k = Some e1) as He3.
    { subst r3. rewrite Hreg. cbn [snd].
      destruct (sub_count e1 =? 1); rewrite ?entry_mirror_write, He; by rewrite decide_True. }
    assert (sub_generation e1 = next_generation r + 1) as Hgen.
    { subst e1. unfold registered. destruct (entry r k) as [e|] eqn:E; [|done].
      specialize (Htomb e eq_refl). destruct (wf_entries _ _ Hwf _ _ E) as (_ & _ & K3 & _).
      rewrite Htomb in K3. by rewrite (proj2 (N.eqb_eq _ 0)) by apply K3. }
    clearbody r3 e1. exists e1. destruct guard as [h'|]; [|by rewrite Hgr in Hg].
    unfold record_guard_ref, entry_generation in *. rewrite He3 in *. cbn in *.
    rewrite lookup_insert_ne, Hgr in Hg by congruence. by split_and!. }
  clearbody r1. subst r2. cbn [RegistryInv.reg_op]. unfold release_guard_ref.
  change (entry (set_guard_refs _ r1) k) with (entry r1 k). rewrite He, Hg.
  cbn [fmap option_fmap option_map fst snd]. apply (wf_rows _ _ Hwf) in Hold.
  rewrite (proj2 (N.eqb_neq g _)) by lia. cbn. split_and!; try done.
  apply lookup_delete_eq.
Qed.

End Props.

(** ** Witnesses *)

Abbreviation op0 := (RegistryInv.reg_op N.compare (λ _ _, 0) (λ _, None) (λ _, None)).
Abbreviation reach0 :=
  (RegistryInv.reg_reachable N.compare (λ _ _, 0) (λ _, None) (λ _, None)).

Definition btc : SubKey := (Ticker, Some "BTC/USD"%string).
Definition subscribe (guard : option HandlerId) : RegOp :=
  RegRegister Public btc (PTicker None None) 0 guard.
Definition reject : RegOp := RegTerminated btc NonTransientWireRejection None.

Definition run0 (ops : list RegOp) : @SubscriptionRegistry N :=
  fold_left (λ r op, op0 op r) ops registry_new.

(** [op_ok], decided. *)
Definition op_okb (r : @SubscriptionRegistry N) (op : RegOp) : bool :=
  match op with
  | RegGuardDrop h k =>
      match entry r k with
      | Some e => bool_decide (is_Some (guard_refs r !! (h, k.1, k.2))) ||
                  (guard_refs_at r k (sub_generation e) <? holders e)
      | None => true
      end
  | _ => true
  end.

Fixpoint ops_okb (r : @SubscriptionRegistry N) (ops : list RegOp) : bool :=
  match ops with
  | [] => true
  | op :: ops => op_okb r op && ops_okb (op0 op r) ops
  end.

Lemma op_okb_sound r op : op_okb r op = true → op_ok r op.
Proof.
  destruct op; try done. cbn. destruct (entry r k); [|done].
  intros [H|H]%orb_prop; [left; by apply bool_decide_eq_true in H|right; by apply N.ltb_lt].
Qed.

Lemma run_reachable ops n r :
  reach0 n r → ops_okb r ops = true →
  reach0 (n + N.of_nat (length ops)) (fold_left (λ r op, op0 op r) ops r).
Proof.
  revert n r. induction ops as [|op ops IH]; intros n r Hr; cbn [fold_left ops_okb length].
  { by rewrite N.add_0_r. }
  intros [H1 H2]%andb_prop. replace (n + N.of_nat (S (length ops))) with (n + 1 + N.of_nat (length ops)) by lia.
  apply IH; [|done]. constructor; [done|]. by apply op_okb_sound.
Qed.

Lemma run0_reachable ops :
  ops_okb registry_new ops = true → reach0 (N.of_nat (length ops)) (run0 ops).
Proof. intros H. apply (run_reachable ops 0 registry_new); [constructor|done]. Qed.

(** A caller subscribes, is rejected, another revives the key behind a guard. *)
Definition revived : list RegOp := [subscribe None; reject; subscribe (Some 7)].

Lemma registry_invariant_witness :
  sub_state <$> entry (run0 revived) btc = Some SubPending ∧
  row_state <$> mirror (run0 revived) !! btc = Some SubPending.
Proof.
  split; [vm_compute; reflexivity|].
  destruct (registry_invariant N.compare (λ _ _, 0) (λ _, None) (λ _, None) 3 (run0 revived))
    as (_ & Hm & _).
  - apply (run0_reachable revived). vm_compute. reflexivity.
  - vm_compute. discriminate.
  - rewrite Hm. vm_compute. reflexivity.
Defined.

Lemma release_ledger_witness :
  bare_owed (op0 (RegRelease btc) (run0 revived)) btc = 0 ∧ bare_owed (run0 revived) btc = 1.
Proof.
  split; [|vm_compute; reflexivity].
  rewrite (release_ledger N.compare (λ _ _, 0) (λ _, None) (λ _, None) 3 (run0 revived)
             (RegRelease btc) btc).
  - vm_compute. reflexivity.
  - apply (run0_reachable revived). vm_compute. reflexivity.
  - vm_compute. reflexivity.
  - exact I.
Defined.

Definition guarded_then_rejected : list RegOp := [subscribe (Some 3); reject].

Lemma old_guard_spares_new_life_witness :
  let r1 := op0 (subscribe (Some 9)) (run0 guarded_then_rejected) in
  entry (op0 (RegGuardDrop 3 btc) r1) btc = entry r1 btc ∧
  (sub_count <$> entry r1 btc) = Some 1.
Proof.
  split; [|vm_compute; reflexivity].
  apply (old_guard_spares_new_life N.compare (λ _ _, 0) (λ _, None) (λ _, None) 2
           (run0 guarded_then_rejected) Public btc (PTicker None None) 0 (Some 9) 3).
  - apply (run0_reachable guarded_then_rejected). vm_compute. reflexivity.
  - vm_compute. reflexivity.
  - vm_compute. by intros e [= <-].
  - discriminate.
  - vm_compute. eauto.
Defined.

(** Removing an entry forgets the releases its dead lives are owed: after the last guard
    goes, the release a rejected subscriber still makes ends the subscription of another
    caller, which it would not have while the credit was kept. *)
Theorem removal_forgets_credits :
  let kept := revived ++ [subscribe None] in
  let lost := revived ++ [RegGuardDrop 7 btc; subscribe None] in
  bare_owed (run0 kept) btc = 2 ∧
  is_Some (entry (run0 (kept ++ [RegRelease btc; RegGuardDrop 7 btc])) btc) ∧
  ops_okb registry_new lost = true ∧
  bare_owed (run0 lost) btc = 1 ∧ entry (run0 (lost ++ [RegRelease btc])) btc = None.
Proof. split_and!; try (vm_compute; reflexivity). vm_compute. eauto. Qed.
