(* ===== verification/Replay.v ===== *)
(** * Replay: the subscribe frames a reconnect sends

    The order, completeness and exactly-once sending of the frames composed from the
    registry, and what the frames carry. *)

From Stdlib Require Import Ascii String.
From stdpp Require Import sorting.
From S2P Require Import Prelude Types Events Errors.
From S2P Require Import Book Registry RegistryInv RegistryProps.
Local Open Scope N_scope.

(** ** The orders of the replay key *)

Section Orders.
#[export] Instance string_total : TotalOrder String.compare.
Proof.
  assert (∀ a b : ascii, Ascii.compare a b = (N_of_ascii a ?= N_of_ascii b)%N) as Hasc by done.
  split.
  - intros x. induction x as [|a x IH]; cbn; [done|]. by rewrite Hasc, N.compare_refl.
  - intros x y. apply String.compare_antisym.
  - intros x y z H. by apply String.compare_eq_iff in H as ->.
  - intros x. induction x as [|a x IH]; intros [|b y] [|c z]; cbn; try done. rewrite !Hasc.
    destruct (N.compare_spec (N_of_ascii a) (N_of_ascii b)) as [->|Hab|Hab]; try done;
      destruct (N.compare_spec (N_of_ascii b) (N_of_ascii c)) as [Hbc|Hbc|Hbc]; try done.
    + apply IH.
    + rewrite <-Hbc. intros _ _. by rewrite (proj2 (N.compare_lt_iff _ _)).
    + intros _ _. by rewrite (proj2 (N.compare_lt_iff _ _)) by lia.
Qed.

#[export] Instance bool_total : TotalOrder bool_cmp.
Proof.
  split.
  - intros x. destruct x; reflexivity.
  - intros x y. destruct x, y; reflexivity.
  - intros x y z. destruct x, y, z; reflexivity || discriminate.
  - intros x y z. destruct x, y, z; reflexivity || discriminate.
Qed.

#[export] Instance option_total : TotalOrder option_cmp.
Proof.
  split.
  - intros [x|]; [apply (cmp_refl (cmp := String.compare))|reflexivity].
  - intros [x|] [y|]; try reflexivity. apply (cmp_swap (cmp := String.compare)).
  - intros [x|] [y|] [z|]; try (reflexivity || discriminate).
    apply (cmp_eq_l (cmp := String.compare)).
  - intros [x|] [y|] [z|]; try (reflexivity || discriminate).
    apply (cmp_lt_trans (cmp := String.compare)).
Qed.

(** Lexicographic orders. *)
Lemma lex_total {A B C} (f : A → B) (g : A → C) (c : B → B → comparison)
  (d : C → C → comparison) (Hc : TotalOrder c) (Hd : TotalOrder d) :
  TotalOrder (λ x y, then_cmp (c (f x) (f y)) (d (g x) (g y))).
Proof.
  split.
  - intros x. by rewrite (cmp_refl (cmp := c)), (cmp_refl (cmp := d)).
  - intros x y. rewrite (cmp_swap (cmp := c) (f x)), (cmp_swap (cmp := d) (g x)).
    by destruct (c (f x) (f y)).
  - intros x y z. destruct (c (f x) (f y)) eqn:E; try discriminate. intros E2. cbn in E2.
    by rewrite (cmp_eq_l (cmp := c) (f x) (f y)), (cmp_eq_l (cmp := d) (g x) (g y)).
  - intros x y z H1 H2. destruct (c (f x) (f y)) eqn:E1; [| |discriminate]; cbn in H1.
    + rewrite (cmp_eq_l (cmp := c) (f x) (f y)) by exact E1.
      destruct (c (f y) (f z)) eqn:E2; try done.
      cbn in *. by apply (cmp_lt_trans (cmp := d) (g x) (g y)).
    + destruct (c (f y) (f z)) eqn:E2; [| |discriminate]; cbn in H2.
      * assert (c (f z) (f y) = Eq) as E3 by (rewrite (cmp_swap (cmp := c) (f y)), E2; reflexivity).
        rewrite (cmp_swap (cmp := c) (f z)), (cmp_eq_l (cmp := c) (f z) (f y)) by exact E3.
        by rewrite (cmp_swap (cmp := c) (f x)), E1.
      * by rewrite (cmp_lt_trans (cmp := c) (f x) (f y) (f z)).
Qed.

#[export] Instance order_total : TotalOrder order_cmp.
Proof.
  apply (lex_total (λ k : SubKey, match k.2 with Some _ => true | None => false end)
    (λ k : SubKey, k) bool_cmp
    (λ a b, then_cmp (String.compare (channel_str a.1) (channel_str b.1)) (option_cmp a.2 b.2)));
    [exact bool_total|].
  apply (lex_total (λ k : SubKey, channel_str k.1) (λ k : SubKey, k.2));
    [exact string_total|exact option_total].
Qed.

#[export] Instance order_le_total : Total order_le.
Proof.
  intros a b. unfold order_le. rewrite (cmp_swap (cmp := order_cmp) a b).
  destruct (order_cmp a b); solve [by left|by right].
Qed.

#[export] Instance order_le_trans : Transitive order_le.
Proof.
  intros a b c. unfold order_le. destruct (order_cmp a b) eqn:E1; [| |congruence].
  - by rewrite (cmp_eq_l (cmp := order_cmp) a b).
  - destruct (order_cmp b c) eqn:E2; [| |congruence]; intros _ _.
    + assert (order_cmp c b = Eq) as E3 by (rewrite (cmp_swap (cmp := order_cmp) b), E2; reflexivity).
      rewrite (cmp_swap (cmp := order_cmp) c), (cmp_eq_l (cmp := order_cmp) c b) by exact E3.
      by rewrite (cmp_swap (cmp := order_cmp) a), E1.
    + by rewrite (cmp_lt_trans (cmp := order_cmp) a b c).
Qed.
End Orders.

Section Replay.
Context {Decimal : Type} (dcmp : Decimal → Decimal → comparison)
  (crc32 : list (string * string) → list (string * string) → N)
  (dec_from_str : string → option Decimal)
  (decode_frame : Json → option RawBookData).

Abbreviation Registry := (@SubscriptionRegistry Decimal).
Abbreviation Entry := (@SubscriptionEntry Decimal).
Abbreviation KeyedFrame := (ChannelName * option Symbol * Json)%type.
Abbreviation reg_reachable :=
  (RegistryInv.reg_reachable dcmp crc32 dec_from_str decode_frame).
Implicit Types (r : Registry) (e : Entry) (k : SubKey).

(** ** Replay *)

Lemma pair_entries_keys_NoDup n r : reg_wf n r → NoDup (map key_of (pair_entries r)).
Proof.
  intros Hwf. unfold pair_entries.
  assert (∀ ch m, entries r !! ch = Some m →
            map key_of (map_to_list m).*2 = map (λ s, (ch, Some s)) (map_to_list m).*1) as Hkeys.
  { intros ch m Hm. rewrite !map_map. apply map_ext_in. intros [s e] Hin.
    apply list_elem_of_In, elem_of_map_to_list in Hin. cbn.
    apply (wf_entries _ _ Hwf (ch, Some s) e). unfold entry. cbn. by rewrite Hm. }
  assert (map key_of (map_to_list (entries r) ≫= λ cm, (map_to_list cm.2).*2) =
          map_to_list (entries r) ≫= λ cm, map (λ s, (cm.1, Some s)) (map_to_list cm.2).*1) as ->.
  { assert (∀ l : list (ChannelName * gmap Symbol Entry), l ⊆ map_to_list (entries r) →
      map key_of (l ≫= λ cm, (map_to_list cm.2).*2) =
      l ≫= λ cm, map (λ s, (cm.1, Some s)) (map_to_list cm.2).*1) as H; [|by apply H].
    induction l as [|[ch m] l IH]; intros Hsub; [done|]. cbn. rewrite map_app, IH by set_solver.
    f_equal. apply Hkeys. apply elem_of_map_to_list. set_solver. }
  apply NoDup_bind.
  - intros [c1 m1] [c2 m2] y H1 H2 Hy1 Hy2.
    apply list_elem_of_fmap in Hy1 as (s1 & -> & _), Hy2 as (s2 & [= -> ->] & _).
    apply elem_of_map_to_list in H1, H2. cbn in *. congruence.
  - intros [ch m] _. apply (NoDup_fmap_2 _), NoDup_fst_map_to_list.
  - apply NoDup_map_to_list.
Qed.

Lemma all_entries_keys_NoDup n r : reg_wf n r → NoDup (map key_of (all_entries r)).
Proof.
  intros Hwf. unfold all_entries. rewrite map_app. apply NoDup_app. split_and!.
  - assert (map key_of (map_to_list (channel_wide r)).*2 =
            map (λ ch, (ch, None)) (map_to_list (channel_wide r)).*1) as ->.
    { rewrite !map_map. apply map_ext_in. intros [ch e] Hin.
      apply list_elem_of_In, elem_of_map_to_list in Hin. cbn.
      by apply (wf_entries _ _ Hwf (ch, None) e). }
    apply (NoDup_fmap_2 _), NoDup_fst_map_to_list.
  - intros k H1 H2. apply list_elem_of_fmap in H1 as (e1 & -> & H1), H2 as (e2 & Hk & H2).
    apply elem_of_channel_wide in H1 as (c1 & H1). apply elem_of_pair_entries in H2 as (c2 & s & H2).
    apply (wf_entries _ _ Hwf) in H1 as (H1 & _), H2 as (H2 & _). congruence.
  - by apply (pair_entries_keys_NoDup n).
Qed.

Lemma compose_authed_head url token r :
  match compose_first_signed_subscribe_authed url token r with
  | Some f => head (compose_subscribe_frames_for_url_authed url token r) = Some f
  | None => compose_subscribe_frames_for_url_authed url token r = []
  end.
Proof.
  unfold compose_first_signed_subscribe_authed, compose_subscribe_frames_for_url_authed,
    compose_subscribe_frames_for_url.
  by destruct (entries_for_resubscribe_sorted url r).
Qed.

Lemma compose_authed_keys url token r :
  map fst (compose_subscribe_frames_for_url_authed url token r) =
  map key_of (entries_for_resubscribe_sorted url r).
Proof.
  unfold compose_subscribe_frames_for_url_authed, compose_subscribe_frames_for_url.
  by rewrite !map_map.
Qed.

Lemma filter_other_keys (f : KeyedFrame) (l : list KeyedFrame) :
  NoDup (map fst (f :: l)) → filter (λ x : KeyedFrame, x.1 ≠ f.1) (f :: l) = l.
Proof.
  intros Hn. apply NoDup_cons in Hn as [Hn _]. rewrite filter_cons_False by tauto.
  induction l as [|x l IH]; [done|]. cbn in Hn.
  rewrite filter_cons_True by set_solver. rewrite IH by set_solver. done.
Qed.

(** C35: After a reconnect every live subscription of an endpoint is replayed exactly once,
    in the fixed order (channel-wide rows first, then by channel and symbol), and no
    tombstone is; on the authenticated endpoint the handshake's first subscribe and the
    remaining batch together are exactly that replay. *)
Theorem replay_exactly_once n r url token :
  reg_reachable n r → n ≤ u32_max →
  let l := entries_for_resubscribe_sorted url r in
  StronglySorted (λ a b, order_le (key_of a) (key_of b)) l ∧
  NoDup (map key_of l) ∧
  (∀ e, e ∈ l ↔ entry r (key_of e) = Some e ∧ sub_url e = url ∧ is_tombstone e = false) ∧
  map fst (compose_subscribe_frames_for_url_authed url token r) = map key_of l ∧
  compose_subscribe_frames_for_url_authed url token r =
    match compose_first_signed_subscribe_authed url token r with
    | Some f => f :: compose_remaining_signed_subscribes_authed url token f.1 r
    | None => []
    end.
Proof.
  intros Hr Hn l. pose proof (reachable_wf _ _ _ _ n r Hr Hn) as Hwf.
  set (live := filter (λ e, sub_url e = url ∧ is_tombstone e = false) (all_entries r)).
  assert (l ≡ₚ live) as Hperm by apply sort_entries_perm.
  assert (NoDup (map key_of l)) as Hnd.
  { rewrite Hperm. apply (sublist_NoDup _ (map key_of (all_entries r)));
      [by apply (all_entries_keys_NoDup n)|].
    apply (fmap_sublist key_of), sublist_filter. }
  split_and!; [|done| |apply compose_authed_keys|].
  - apply Sorted_StronglySorted.
    + intros a b c. apply order_le_trans.
    + apply Sorted_merge_sort. intros a b. apply order_le_total.
  - intros e. rewrite Hperm. unfold live. rewrite list_elem_of_filter, elem_of_all_entries. split.
    + intros [[Hu Ht] [k Hk]]. destruct (wf_entries _ _ Hwf _ _ Hk) as (-> & _). done.
    + intros (Hk & Hu & Ht). split; [done|]. by exists (key_of e).
  - pose proof (compose_authed_head url token r) as Hh.
    pose proof (compose_authed_keys url token r) as Hk. fold l in Hk.
    destruct (compose_first_signed_subscribe_authed url token r) as [f|]; [|done].
    unfold compose_remaining_signed_subscribes_authed.
    destruct (compose_subscribe_frames_for_url_authed url token r) as [|f' fs]; [done|].
    injection Hh as ->. rewrite filter_other_keys by by rewrite Hk. done.
Qed.
End Replay.

(** ** The frames *)

Definition object_field (name : string) (v : Json) : option Json :=
  match v with JObject fields => bt_lookup String.compare name fields | _ => None end.

(** The depth or interval that identifies the subscription on the wire. *)
Definition wire_option (p : SubscribeParams) : option (string * Json) :=
  match p with
  | PBook d => Some ("depth", JNumber (decimal (as_wire_u32 (wire_depth d))))
  | PBookRaw d _ => Some ("depth", JNumber (decimal (as_wire_u32 d)))
  | POhlc i _ => Some ("interval", JNumber (decimal (ohlc_minutes i)))
  | _ => None
  end%string.

(** A composed frame, token injected and id stamped, carries its method, its id, the
    channel, the symbols when there are any, the token, and the depth or interval of the
    subscription, alike on subscribe and unsubscribe; the snapshot and trigger options
    appear on subscribe only. *)
Theorem frame_fields method ch pairs p token id0 id :
  ∃ params,
    let frame := stamp_req_id (inject_token (build_subscribe_frame method ch pairs p id0) token) id in
    object_field "method" frame = Some (JString method) ∧
    object_field "req_id" frame = Some (JNumber (decimal id)) ∧
    object_field "params" frame = Some params ∧
    object_field "channel" params = Some (JString (channel_str ch)) ∧
    object_field "token" params = Some (JString token) ∧
    object_field "symbol" params =
      (if decide (pairs = []) then None else Some (JArray (map JString pairs))) ∧
    (∀ name v, wire_option p = Some (name, v) → object_field name params = Some v) ∧
    (method ≠ "subscribe"%string →
       object_field "snapshot" params = None ∧ object_field "event_trigger" params = None).
Proof.
  assert (String.eqb method "subscribe" = false ∨ method = "subscribe"%string) as [Hs| ->]
    by (destruct (String.eqb_spec method "subscribe"); auto);
  destruct p as [[] []|d|d []|[]|i []| | |], pairs as [|s ss];
    unfold build_subscribe_frame, params_fields, on_subscribe; rewrite ?Hs;
    eexists; cbn zeta; split_and!; try reflexivity; try congruence;
    try (intros name v [= <- <-]; reflexivity);
    intros; split; try reflexivity; try congruence.
Qed.

Lemma replay_exactly_once_witness :
  let r := run0 [RegRegister Public (Ticker, Some "ETH/USD"%string) (PTicker None None) 0 None;
                 RegRegister Public (Ticker, Some "BTC/USD"%string) (PTicker None None) 0 None;
                 RegTerminated (Ticker, Some "ETH/USD"%string) CapabilityRevoked None;
                 RegRegister Public (Status, None) PStatus 0 None] in
  map key_of (entries_for_resubscribe_sorted Public r) =
    [(Status, None); (Ticker, Some "BTC/USD"%string)] ∧
  map fst (compose_subscribe_frames_for_url_authed Public "t" r) =
    map key_of (entries_for_resubscribe_sorted Public r).
Proof.
  intros r. split; [vm_compute; reflexivity|].
  apply (replay_exactly_once N.compare (λ _ _, 0) (λ _, None) (λ _, None) 4 r Public "t").
  - unfold r. apply (run0_reachable [_; _; _; _]). vm_compute. reflexivity.
  - vm_compute. discriminate.
Defined.
