(* ===== verification/RegistryBook.v ===== *)
(** * RegistryBook: gap detection and recovery

    The sequence tracker of the channel-wide streams counts the lost frames exactly, and
    the recovery of a maintained book that never validates stops. *)

From Stdlib Require Import Ascii String Sorted.
From S2P Require Import Prelude Types Events Errors.
From S2P Require Import Book Registry RegistryInv.
Local Open Scope N_scope.

(** ** The sequence tracker *)

Fixpoint observe_all (last : option N) (seqs : list N) : list (option N) :=
  match seqs with
  | [] => []
  | s :: seqs =>
      let '(lost, last) := observe s false last in lost :: observe_all last seqs
  end.

Definition total (l : list (option N)) : N := foldr (λ o acc, default 0 o + acc) 0 l.

(** After a snapshot at [s0], frames with increasing sequence numbers report exactly the
    numbers that are missing: the losses add up to the distance covered less the frames
    received. *)
Theorem sequence_gaps_exact seqs s0 :
  StronglySorted N.lt (s0 :: seqs) →
  List.last seqs s0 - s0 ≤ u32_max →
  total (observe_all (observe s0 true None).2 seqs) + N.of_nat (length seqs) =
    List.last seqs s0 - s0.
Proof.
  cbn [observe snd]. revert s0. induction seqs as [|s seqs IH]; intros s0 Hs Hb.
  { cbn. lia. }
  apply StronglySorted_inv in Hs as [Hs Hall].
  assert (s0 < s) as Hlt by by apply Forall_cons in Hall as [? _].
  assert (List.last (s :: seqs) s0 = List.last seqs s) as Hlast.
  { clear. revert s s0. induction seqs as [|x l IHl]; intros s s0; [done|].
    change (List.last (x :: l) s0 = List.last (x :: l) s). by rewrite !IHl. }
  assert (s ≤ List.last seqs s) as Hle.
  { apply StronglySorted_inv in Hs as [_ Hs]. clear -Hs.
    destruct seqs as [|x l] using rev_ind; [cbn; lia|]. rewrite last_last.
    apply Forall_app in Hs as [_ Hs]. apply Forall_cons in Hs as [Hs _]. lia. }
  rewrite Hlast in *. specialize (IH s Hs ltac:(lia)).
  cbn [observe_all observe mbind option_bind total foldr length].
  rewrite (proj2 (N.ltb_ge s s0)) by lia.
  destruct (N.ltb_spec 1 (s - s0)); cbn [default]; unfold total in IH; unfold id in *; lia.
Qed.

Lemma sequence_gaps_exact_witness :
  observe_all (Some 10) [11; 15; 16] = [None; Some 3; None] ∧
  total (observe_all (observe 10 true None).2 [11; 15; 16]) + 3 = 16 - 10.
Proof.
  split; [reflexivity|].
  apply (sequence_gaps_exact [11; 15; 16] 10); [|vm_compute; discriminate].
  repeat constructor.
Defined.

(** ** Recovery of a maintained book *)

Section Recovery.
Context {Decimal : Type} (dcmp : Decimal → Decimal → comparison)
  (crc32 : list (string * string) → list (string * string) → N)
  (dec_from_str : string → option Decimal)
  (decode_frame : Json → option RawBookData).

Abbreviation Registry := (@SubscriptionRegistry Decimal).
Abbreviation Entry := (@SubscriptionEntry Decimal).
Abbreviation Builder := (@OrderBookBuilder Decimal).
Implicit Types (r : Registry) (e : Entry).

(** What the reactor does with one book key between two re-subscribes: route a frame, enter
    the resync window, or serve the reseed timer. *)
Inductive BookStep :=
  | BookFrame (is_snapshot : bool) (data : Json)
  | BookResync
  | BookReseedTimer.

(** [Recovering] is an outcome that makes the reactor re-subscribe the book. *)
Inductive BookVerdict := Validated | Recovering | GaveUp | Quiet.

Definition frame_verdict (o : @BookDriveOutcome Decimal) : BookVerdict :=
  match o with
  | Maintained _ => Validated
  | Gap _ _ => Recovering
  | GapBudgetExhausted => GaveUp
  | PassThrough | AwaitingSnapshot => Quiet
  end.

Definition timer_verdict (o : ReseedTimeoutOutcome) : BookVerdict :=
  match o with ReseedRetry => Recovering | Exhausted => GaveUp | StaleNoOp => Quiet end.

Definition book_step (ch : ChannelName) (sym : Symbol) (s : BookStep) (r : Registry)
  : BookVerdict * Registry :=
  match s with
  | BookFrame snap data =>
      let '(o, r) := handle_update dcmp crc32 dec_from_str decode_frame (ch, Some sym) snap data r in
      (frame_verdict o, r)
  | BookResync => (Quiet, begin_book_resync ch sym r)
  | BookReseedTimer =>
      let '(o, r) := note_reseed_timeout ch sym r in (timer_verdict o, r)
  end.

Fixpoint book_run (ch : ChannelName) (sym : Symbol) (steps : list BookStep) (r : Registry)
  : list BookVerdict * Registry :=
  match steps with
  | [] => ([], r)
  | s :: steps =>
      let '(v, r) := book_step ch sym s r in
      let '(vs, r) := book_run ch sym steps r in (v :: vs, r)
  end.

#[export] Instance BookVerdict_eq_dec : EqDecision BookVerdict.
Proof. solve_decision. Defined.

Definition occurrences (v : BookVerdict) (vs : list BookVerdict) : N :=
  N.of_nat (length (filter (λ x, x = v) vs)).

(** Failures so far; a book without maintenance has used all its attempts. *)
Definition failures (r : Registry) (ch : ChannelName) (sym : Symbol) : N :=
  match e ← entry r (ch, Some sym); sub_builder e with
  | Some b => consecutive_gaps b
  | None => MAX_CONSECUTIVE_BOOK_GAPS
  end.

Definition maintained (r : Registry) (ch : ChannelName) (sym : Symbol) : bool :=
  match e ← entry r (ch, Some sym); sub_builder e with Some _ => true | None => false end.

(** The verdict of an apply and the failure count after it. *)
Lemma apply_failures (snap : bool) bids asks c (b : Builder) :
  let res := if snap then apply_snapshot dcmp crc32 bids asks c b
             else apply_delta dcmp crc32 bids asks c b in
  match res.1 with
  | inl _ => consecutive_gaps res.2 = u32_saturating_add (consecutive_gaps b) 1
  | inr _ => consecutive_gaps res.2 = 0
  end.
Proof.
  destruct snap; cbn zeta; unfold apply_snapshot, apply_delta, validate_and_record;
    by destruct (negb _).
Qed.

(** One step that does not validate: the failure count does not shrink, a recovery costs
    one, giving up ends maintenance, and an unmaintained book stays quiet. *)
Definition step_ok (v : BookVerdict) (m m' : bool) (f f' : N) : Prop :=
  match v with
  | Validated => True
  | Recovering => m = true ∧ m' = true ∧ f' = f + 1 ∧ f' < MAX_CONSECUTIVE_BOOK_GAPS
  | GaveUp => m = true ∧ m' = false
  | Quiet => m' = m ∧ f' = f
  end.

Lemma maintained_mut r f ch sym :
  maintained (entry_mut f (ch, Some sym) r) ch sym =
  match e ← entry r (ch, Some sym); sub_builder (f e) with Some _ => true | None => false end.
Proof.
  unfold maintained. rewrite entry_mut_lookup, decide_True by done.
  by destruct (entry r (ch, Some sym)).
Qed.

Lemma failures_mut r f ch sym :
  failures (entry_mut f (ch, Some sym) r) ch sym =
  match e ← entry r (ch, Some sym); sub_builder (f e) with
  | Some b => consecutive_gaps b | None => MAX_CONSECUTIVE_BOOK_GAPS end.
Proof.
  unfold failures. rewrite entry_mut_lookup, decide_True by done.
  by destruct (entry r (ch, Some sym)).
Qed.

Lemma saturating_below_cap g :
  u32_saturating_add g 1 < MAX_CONSECUTIVE_BOOK_GAPS →
  u32_saturating_add g 1 = g + 1.
Proof. unfold u32_saturating_add, MAX_CONSECUTIVE_BOOK_GAPS, u32_max. lia. Qed.

(** The entry's own view of a frame. *)
Lemma drive_failures snap data e b :
  sub_builder e = Some b →
  let res := drive_update dcmp crc32 dec_from_str decode_frame snap data e in
  step_ok (frame_verdict res.1) true
    (match sub_builder res.2 with Some _ => true | None => false end)
    (consecutive_gaps b)
    (match sub_builder res.2 with
     | Some b => consecutive_gaps b | None => MAX_CONSECUTIVE_BOOK_GAPS end).
Proof.
  intros Hb res. subst res. unfold drive_update. rewrite Hb.
  destruct (resyncing b && negb snap); [cbn; by rewrite Hb|].
  destruct (parse_book_frame _ _ data) as [p|]; [|cbn; by rewrite Hb].
  destruct (negb _); [cbn; by rewrite Hb|].
  pose proof (apply_failures snap (parsed_bids p) (parsed_asks p) (parsed_checksum p) b) as Ha.
  cbn zeta in Ha.
  destruct (if snap then apply_snapshot _ _ _ _ _ b else apply_delta _ _ _ _ _ b)
    as [[[x c]|u] b']; cbn [fst snd] in Ha; [|done].
  destruct (N.leb_spec MAX_CONSECUTIVE_BOOK_GAPS (consecutive_gaps b')) as [Hl|Hl]; [done|].
  rewrite Ha in Hl. pose proof (saturating_below_cap _ Hl) as Hs. cbn. rewrite Ha. done.
Qed.

Lemma book_step_failures ch sym s r v r' :
  book_step ch sym s r = (v, r') →
  step_ok v (maintained r ch sym) (maintained r' ch sym) (failures r ch sym) (failures r' ch sym).
Proof.
  assert (∀ e b, entry r (ch, Some sym) = Some e → sub_builder e = Some b →
    maintained r ch sym = true ∧ failures r ch sym = consecutive_gaps b) as Hsome.
  { intros e b He Hb. unfold maintained, failures. rewrite He. cbn. by rewrite Hb. }
  destruct s as [snap data| |]; cbn [book_step].
  - unfold handle_update. destruct (entry r (ch, Some sym)) as [e|] eqn:He; [|by intros [= <- <-]].
    destruct (sub_builder e) as [b|] eqn:Hb.
    + destruct (Hsome e b eq_refl Hb) as [-> ->].
      pose proof (drive_failures snap data e b Hb) as Hd. cbn zeta in Hd.
      destruct (drive_update _ _ _ _ snap data e) as [o e'].
      intros [= <- <-]. rewrite maintained_mut, failures_mut, He. exact Hd.
    + unfold drive_update. rewrite Hb. intros [= <- <-]. rewrite maintained_mut, failures_mut.
      unfold maintained, failures. rewrite He. cbn. by rewrite Hb.
  - intros [= <- <-]. unfold begin_book_resync. rewrite maintained_mut, failures_mut.
    unfold maintained, failures. destruct (entry r (ch, Some sym)) as [e|]; [|done]. cbn.
    by destruct (sub_builder e).
  - unfold note_reseed_timeout. destruct (entry r (ch, Some sym)) as [e|] eqn:He;
      [|by intros [= <- <-]].
    destruct (is_tombstone e); [by intros [= <- <-]|].
    destruct (sub_builder e) as [b|] eqn:Hb; [|by intros [= <- <-]].
    destruct (negb _); [by intros [= <- <-]|]. cbn [note_reseed_failure].
    destruct (Hsome e b eq_refl Hb) as [-> ->].
    destruct (N.leb_spec MAX_CONSECUTIVE_BOOK_GAPS (u32_saturating_add (consecutive_gaps b) 1))
      as [Hl|Hl]; intros [= <- <-]; rewrite maintained_mut, failures_mut, He; cbn [mbind option_bind].
    + done.
    + pose proof (saturating_below_cap _ Hl) as Hs. done.
Qed.

Lemma unmaintained_failures r ch sym :
  maintained r ch sym = false → failures r ch sym = MAX_CONSECUTIVE_BOOK_GAPS.
Proof. unfold maintained, failures. by destruct (_ ≫= _). Qed.

Lemma occurrences_cons v x vs :
  occurrences v (x :: vs) = (if decide (x = v) then 1 else 0) + occurrences v vs.
Proof.
  unfold occurrences. destruct (decide (x = v)).
  - rewrite filter_cons_True by done. cbn [length]. lia.
  - rewrite filter_cons_False by done. lia.
Qed.

Lemma unmaintained_quiet ch sym steps r vs r' :
  book_run ch sym steps r = (vs, r') → Validated ∉ vs → maintained r ch sym = false →
  Forall (λ v, v = Quiet) vs ∧ maintained r' ch sym = false.
Proof.
  revert r vs. induction steps as [|s steps IH]; intros r vs; cbn [book_run].
  { intros [= <- <-]. by split. }
  destruct (book_step ch sym s r) as [v r1] eqn:Hs. apply book_step_failures in Hs.
  destruct (book_run ch sym steps r1) as [vs1 r2] eqn:Hr. intros [= <- <-] Hv Hm.
  apply not_elem_of_cons in Hv as [Hv1 Hv]. rewrite Hm in Hs.
  destruct v; cbn in Hs; try (destruct_and?; done). destruct Hs as [Hm1 _].
  destruct (IH r1 vs1 Hr Hv Hm1) as [? ?]. split; [by constructor|done].
Qed.

(** C31: A maintained book that never validates stops re-subscribing: from any state, as long
    as no frame validates, the gaps and lost snapshots that re-subscribe number at most four
    less the failures already counted, the book is given up at most once, and once given up
    every later step is quiet. *)
Theorem gap_recovery_bounded ch sym steps r vs r' :
  book_run ch sym steps r = (vs, r') → Validated ∉ vs →
  occurrences Recovering vs ≤ MAX_CONSECUTIVE_BOOK_GAPS - 1 - failures r ch sym ∧
  occurrences GaveUp vs ≤ (if maintained r ch sym then 1 else 0) ∧
  (∀ before after, vs = before ++ GaveUp :: after → Forall (λ v, v = Quiet) after) ∧
  (GaveUp ∈ vs → maintained r' ch sym = false).
Proof.
  revert r vs. induction steps as [|s steps IH]; intros r vs; cbn [book_run].
  { intros [= <- <-] _. split_and!; [apply N.le_0_l|apply N.le_0_l|
      by intros [] ?|by intros ?%not_elem_of_nil]. }
  destruct (book_step ch sym s r) as [v r1] eqn:Hs. apply book_step_failures in Hs.
  destruct (book_run ch sym steps r1) as [vs1 r2] eqn:Hr. intros [= <- <-] Hv.
  apply not_elem_of_cons in Hv as [Hv1 Hv].
  destruct (IH r1 vs1 Hr Hv) as (I1 & I2 & I3 & I4).
  pose proof (unmaintained_quiet ch sym steps r1 vs1 r2 Hr Hv) as Hquiet.
  rewrite !occurrences_cons. destruct v; cbn in Hs.
  - done.
  - destruct Hs as (Hm & Hm' & Hf & Hlt). rewrite Hm. rewrite Hm' in I2.
    rewrite decide_True, decide_False by done. unfold MAX_CONSECUTIVE_BOOK_GAPS in *.
    split_and!; [lia|lia| |].
    + intros [|v before] after Heq; [done|]. injection Heq as _ Heq. by eapply I3.
    + intros [?|?]%elem_of_cons; [done|auto].
  - destruct Hs as (Hm & Hm'). rewrite Hm. rewrite Hm' in I2.
    destruct (Hquiet Hm') as [Hq Hm2]. rewrite decide_False, decide_True by done.
    rewrite (unmaintained_failures _ _ _ Hm') in I1. unfold MAX_CONSECUTIVE_BOOK_GAPS in *.
    split_and!; [lia|lia| |done].
    intros [|v before] after Heq; injection Heq as Heq; [by subst|]. by eapply I3.
  - destruct Hs as [Hm Hf]. rewrite Hm in I2. rewrite Hf in I1.
    rewrite !decide_False by done. split_and!; [lia|lia| |].
    + intros [|v before] after Heq; [done|]. injection Heq as _ Heq. by eapply I3.
    + intros [?|?]%elem_of_cons; [done|auto].
Qed.
End Recovery.

(** A registry with one maintained book, and an exchange whose checksums never match. *)
Definition zero_crc (_ _ : list (string * string)) : N := 0.
Definition bad_frame (_ : Json) : option RawBookData := Some (mkRaw "BTC/USD" [] [] 7 "").
Definition one_book : @SubscriptionRegistry N :=
  (register (entry_new Public Types.Book (Some "BTC/USD"%string) (PBook D10)) 0 false
     registry_new).2.

Definition bad_run : list BookVerdict * @SubscriptionRegistry N :=
  book_run N.compare zero_crc (λ _, None) bad_frame Types.Book "BTC/USD"
    [BookFrame true JNull; BookResync; BookReseedTimer; BookFrame true JNull;
     BookFrame false JNull; BookFrame false JNull; BookFrame false JNull] one_book.

Lemma gap_recovery_bounded_witness :
  bad_run.1 = [Recovering; Quiet; Recovering; Recovering; Recovering; GaveUp; Quiet] ∧
  occurrences Recovering bad_run.1 ≤ 4 ∧ maintained bad_run.2 Types.Book "BTC/USD" = false.
Proof.
  destruct (gap_recovery_bounded N.compare zero_crc (λ _, None) bad_frame Types.Book "BTC/USD"
    [BookFrame true JNull; BookResync; BookReseedTimer; BookFrame true JNull;
     BookFrame false JNull; BookFrame false JNull; BookFrame false JNull] one_book
    bad_run.1 bad_run.2) as (H1 & _ & _ & H4).
  - vm_compute. reflexivity.
  - apply (bool_decide_eq_true_1 _). vm_compute. reflexivity.
  - split; [vm_compute; reflexivity|]. split; [exact H1|].
    apply H4. apply (bool_decide_eq_true_1 _). vm_compute. reflexivity.
Defined.
