(* ===== verification/Handlers.v ===== *)
(** * Handlers: the callbacks registered per channel

    [rust/src/dispatch/handler_registry.rs] and the registration of
    [rust/src/api/ws_surface/mod.rs].  The registry belongs to the reactor; callers see the
    presence mirror, which they bump before the reactor learns of the handler.  A callback
    is identified by a number. *)

From S2P Require Import Prelude F64 Types Events Registry.
Local Open Scope N_scope.

Record HandlerEntry := mkHandler { he_id : HandlerId; he_callback : N }.

(** ** The reactor's store and the shared mirror *)

Abbreviation Handlers := (gmap ChannelName (list HandlerEntry)).
Abbreviation PresenceMirror := (gmap ChannelName N).

Definition handlers_for (channel : ChannelName) (h : Handlers) : list HandlerEntry :=
  default [] (h !! channel).

Definition register_with_id (channel : ChannelName) (id : HandlerId) (callback : N)
  (h : Handlers) : Handlers :=
  <[channel := handlers_for channel h ++ [mkHandler id callback]]> h.

(** One handler fewer; a channel without handlers leaves the mirror. *)
Definition mirror_decrement (channel : ChannelName) (m : PresenceMirror) : PresenceMirror :=
  match m !! channel with
  | Some count => if count - 1 =? 0 then delete channel m else <[channel := count - 1]> m
  | None => m
  end.

Definition mirror_increment (channel : ChannelName) (m : PresenceMirror) : PresenceMirror :=
  <[channel := default 0 (m !! channel) + 1]> m.

Definition deregister_handler (channel : ChannelName) (id : HandlerId) (h : Handlers)
  (m : PresenceMirror) : Handlers * PresenceMirror :=
  match h !! channel with
  | Some l =>
      let kept := filter (λ e, he_id e ≠ id) l in
      let h := <[channel := kept]> h in
      if (length l =? length kept)%nat then (h, m) else (h, mirror_decrement channel m)
  | None => (h, m)
  end.

Definition presence_has_handlers (m : PresenceMirror) (channel : ChannelName) : bool :=
  match m !! channel with Some c => 0 <? c | None => false end.

(** ** Registering from a caller

    [register_handler_id_checked] allocates an id and bumps the mirror, then posts; a
    rejected post takes the bump back.  The steps of several callers interleave. *)

Record HandlerWorld := mkHandlerWorld {
  hw_handlers : Handlers;
  hw_mirror : PresenceMirror;
  hw_next_id : N;
  hw_allocated : list (ChannelName * HandlerEntry);
  hw_posted : list (ChannelName * HandlerEntry);
}.

Definition handlers_new : HandlerWorld := mkHandlerWorld ∅ ∅ 1 [] [].

Inductive HandlerOp :=
  | HkAllocate (channel : ChannelName) (callback : N)
  | HkPost (i : nat) (accepted : bool)
  | HkRegister
  | HkDeregister (channel : ChannelName) (id : HandlerId).

Definition handler_op (op : HandlerOp) (w : HandlerWorld) : HandlerWorld :=
  match op with
  | HkAllocate channel callback =>
      mkHandlerWorld (hw_handlers w) (mirror_increment channel (hw_mirror w))
        (u64_wrapping_add (hw_next_id w) 1)
        (hw_allocated w ++ [(channel, mkHandler (hw_next_id w) callback)]) (hw_posted w)
  | HkPost i accepted =>
      match hw_allocated w !! i with
      | Some (channel, e) =>
          let rest := delete i (hw_allocated w) in
          if accepted : bool
          then mkHandlerWorld (hw_handlers w) (hw_mirror w) (hw_next_id w) rest
                 (hw_posted w ++ [(channel, e)])
          else mkHandlerWorld (hw_handlers w) (mirror_decrement channel (hw_mirror w))
                 (hw_next_id w) rest (hw_posted w)
      | None => w
      end
  | HkRegister =>
      match hw_posted w with
      | (channel, e) :: rest =>
          mkHandlerWorld (register_with_id channel (he_id e) (he_callback e) (hw_handlers w))
            (hw_mirror w) (hw_next_id w) (hw_allocated w) rest
      | [] => w
      end
  | HkDeregister channel id =>
      let '(h, m) := deregister_handler channel id (hw_handlers w) (hw_mirror w) in
      mkHandlerWorld h m (hw_next_id w) (hw_allocated w) (hw_posted w)
  end.

Inductive handlers_reachable : N → HandlerWorld → Prop :=
  | handlers_start : handlers_reachable 0 handlers_new
  | handlers_step n w op :
      handlers_reachable n w → handlers_reachable (n + 1) (handler_op op w).

(** ** The mirror counts *)

(** What the mirror owes to [channel]: its handlers and the registrations under way. *)
Definition of_channel (channel : ChannelName) (l : list (ChannelName * HandlerEntry)) : N :=
  N.of_nat (length (filter (λ x, x.1 = channel) l)).

Definition owed (w : HandlerWorld) (channel : ChannelName) : N :=
  N.of_nat (length (handlers_for channel (hw_handlers w)))
  + of_channel channel (hw_allocated w) + of_channel channel (hw_posted w).

Definition ids_of (w : HandlerWorld) (channel : ChannelName) : list N :=
  map he_id (handlers_for channel (hw_handlers w)) ++
  map (λ x, he_id x.2) (hw_allocated w) ++ map (λ x, he_id x.2) (hw_posted w).

Definition counts (m : PresenceMirror) (channel : ChannelName) (n : N) : Prop :=
  m !! channel = if n =? 0 then None else Some n.

Record handlers_wf (n : N) (w : HandlerWorld) : Prop := {
  hwf_next : 1 ≤ hw_next_id w ≤ n + 1;
  hwf_counts : ∀ channel, counts (hw_mirror w) channel (owed w channel);
  hwf_ids : ∀ channel, NoDup (ids_of w channel);
  hwf_below : ∀ channel, Forall (λ id, id < hw_next_id w) (ids_of w channel);
}.

Lemma counts_increment m channel c n :
  counts m c n → counts (mirror_increment channel m) c (if decide (channel = c) then n + 1 else n).
Proof.
  unfold counts, mirror_increment. intros H. destruct (decide (channel = c)) as [->|Hne].
  - rewrite lookup_insert_eq, H.
    destruct (N.eqb_spec (n + 1) 0) as [|_]; [lia|].
    destruct (N.eqb_spec n 0) as [Hn|Hn]; cbn; do 2 f_equal; lia.
  - by rewrite lookup_insert_ne.
Qed.

Lemma counts_decrement m channel c n :
  counts m c n → counts (mirror_decrement channel m) c (if decide (channel = c) then n - 1 else n).
Proof.
  unfold counts, mirror_decrement. intros H. destruct (decide (channel = c)) as [->|Hne].
  - rewrite H. destruct (N.eqb_spec n 0) as [Hn|Hn]; cbn; [by rewrite Hn|].
    destruct (n - 1 =? 0); [apply lookup_delete_eq|apply lookup_insert_eq].
  - destruct (m !! channel) as [k|]; [|done].
    destruct (k - 1 =? 0); [by rewrite lookup_delete_ne|by rewrite lookup_insert_ne].
Qed.

#[local] Arguments of_channel : simpl never.
#[local] Arguments handlers_for : simpl never.

Lemma of_channel_app c l1 l2 : of_channel c (l1 ++ l2) = of_channel c l1 + of_channel c l2.
Proof. unfold of_channel. rewrite filter_app, length_app. lia. Qed.

Lemma of_channel_one c ch e : of_channel c [(ch, e)] = if decide (ch = c) then 1 else 0.
Proof. unfold of_channel. rewrite filter_cons; cbn. by destruct (decide _). Qed.

Lemma handlers_for_insert c ch l h :
  handlers_for c (<[ch := l]> h) = if decide (ch = c) then l else handlers_for c h.
Proof.
  unfold handlers_for. destruct (decide (ch = c)) as [->|Hne];
    [by rewrite lookup_insert_eq|by rewrite lookup_insert_ne].
Qed.

(** An allocated registration taken out of its place. *)
Lemma allocated_split w i x :
  hw_allocated w !! i = Some x →
  ∃ l1 l2, hw_allocated w = l1 ++ x :: l2 ∧ delete i (hw_allocated w) = l1 ++ l2.
Proof.
  intros Hi. exists (take i (hw_allocated w)), (drop (S i) (hw_allocated w)).
  split; [by rewrite take_drop_middle|by rewrite delete_take_drop].
Qed.

(** The invariant, by the changes of an operation: ids only move or go, and the mirror
    follows what is owed. *)
Lemma handlers_wf_moved n w w' :
  handlers_wf n w → hw_next_id w' = hw_next_id w →
  (∀ c, counts (hw_mirror w') c (owed w' c)) →
  (∀ c, ∃ gone, ids_of w c ≡ₚ ids_of w' c ++ gone) →
  handlers_wf (n + 1) w'.
Proof.
  intros [Hn Hc Hi Hb] He Hcount Hids. constructor; [lia|done|..]; intros c;
    destruct (Hids c) as [gone Hp].
  - specialize (Hi c). rewrite Hp in Hi. by apply NoDup_app in Hi as [? _].
  - specialize (Hb c). rewrite Hp in Hb. apply Forall_app in Hb as [Hb _]. by rewrite He.
Qed.

Lemma allocate_wf n w channel callback :
  n + 1 < u64_max → handlers_wf n w →
  handlers_wf (n + 1) (handler_op (HkAllocate channel callback) w).
Proof.
  intros Hn [Hne Hc Hi Hb]. set (w' := handler_op _ w).
  assert (Hw : hw_next_id w' = hw_next_id w + 1).
  { unfold w'; cbn. unfold u64_wrapping_add. apply N.mod_small. unfold u64_max in *. lia. }
  assert (Hp : ∀ c, ids_of w' c ≡ₚ ids_of w c ++ [hw_next_id w]).
  { intros c. unfold ids_of, w'; cbn. rewrite map_app; cbn. solve_Permutation. }
  constructor; [lia|..]; intros c; rewrite ?Hp, ?Hw.
  - replace (owed w' c) with (if decide (channel = c) then owed w c + 1 else owed w c).
    + by apply counts_increment.
    + unfold owed, w'; cbn. rewrite of_channel_app, of_channel_one. destruct (decide _); lia.
  - apply NoDup_app. split_and!; [done| |apply NoDup_singleton].
    intros id Hin ->%list_elem_of_singleton. specialize (Hb c).
    rewrite Forall_forall in Hb. specialize (Hb _ Hin). lia.
  - apply Forall_app. split; [|by repeat constructor; lia].
    eapply Forall_impl; [apply Hb|]. cbn. lia.
Qed.

Lemma post_wf n w i accepted :
  handlers_wf n w → handlers_wf (n + 1) (handler_op (HkPost i accepted) w).
Proof.
  intros Hwf. cbn. destruct (hw_allocated w !! i) as [[channel e]|] eqn:Hi.
  2:{ apply (handlers_wf_moved n w); [done..|apply Hwf|]. intros c. exists []. by rewrite app_nil_r. }
  destruct (allocated_split _ _ _ Hi) as (l1 & l2 & Hl & ->).
  assert (Howed : ∀ c, owed w c = N.of_nat (length (handlers_for c (hw_handlers w)))
    + (of_channel c (l1 ++ l2) + if decide (channel = c) then 1 else 0)
    + of_channel c (hw_posted w)).
  { intros c. unfold owed. rewrite Hl, !of_channel_app.
    change ((channel, e) :: l2) with ([(channel, e)] ++ l2).
    rewrite of_channel_app, of_channel_one. lia. }
  destruct accepted; apply (handlers_wf_moved n w); try done; intros c.
  - cbn. replace (owed _ c) with (owed w c); [apply Hwf|]. rewrite Howed. unfold owed; cbn.
    rewrite !of_channel_app, of_channel_one. lia.
  - exists []. unfold ids_of; cbn. rewrite Hl, !map_app; cbn. solve_Permutation.
  - cbn. replace (owed _ c) with (if decide (channel = c) then owed w c - 1 else owed w c).
    + apply counts_decrement, Hwf.
    + rewrite Howed. unfold owed; cbn. destruct (decide _); lia.
  - exists [he_id e]. unfold ids_of; cbn. rewrite Hl, !map_app; cbn. solve_Permutation.
Qed.

Lemma hk_register_wf n w : handlers_wf n w → handlers_wf (n + 1) (handler_op HkRegister w).
Proof.
  intros Hwf. cbn. destruct (hw_posted w) as [|[channel e] rest] eqn:Hp.
  { apply (handlers_wf_moved n w); [done..|apply Hwf|]. intros c. exists []. by rewrite app_nil_r. }
  apply (handlers_wf_moved n w); try done; intros c.
  - cbn. replace (owed _ c) with (owed w c); [apply Hwf|]. unfold owed; cbn.
    rewrite Hp. change ((channel, e) :: rest) with ([(channel, e)] ++ rest).
    rewrite of_channel_app, of_channel_one. unfold register_with_id.
    rewrite handlers_for_insert. destruct (decide (channel = c)) as [->|];
      rewrite ?length_app; cbn; lia.
  - unfold ids_of; cbn. rewrite Hp. unfold register_with_id. rewrite handlers_for_insert.
    cbn. destruct (decide (channel = c)) as [->|].
    + exists []. rewrite map_app; cbn. solve_Permutation.
    + exists [he_id e]. solve_Permutation.
Qed.

Lemma filter_all_true {A} (P : A → Prop) `{!∀ x, Decision (P x)} l :
  Forall P l → filter P l = l.
Proof. induction 1 as [|x l Hx _ IH]; [done|]. by rewrite filter_cons, decide_True, IH. Qed.

(** Removing by id takes one handler when it is there. *)
Lemma remove_id_split (l : list HandlerEntry) id :
  NoDup (map he_id l) →
  filter (λ e, he_id e ≠ id) l = l ∨
  ∃ e l1 l2, l = l1 ++ e :: l2 ∧ filter (λ e, he_id e ≠ id) l = l1 ++ l2.
Proof.
  induction l as [|e l IH]; [by left|].
  rewrite map_cons. intros [Hni Hnd]%NoDup_cons.
  rewrite filter_cons. destruct (decide (he_id e ≠ id)) as [Hne|Heq%dec_stable].
  - destruct (IH Hnd) as [->|(e' & l1 & l2 & -> & ->)]; [by left|].
    right. by exists e', (e :: l1), l2.
  - right. exists e, [], l. split; [done|]. apply filter_all_true, Forall_forall.
    intros e' He' Heq'. apply Hni. rewrite Heq, <-Heq'. apply list_elem_of_In, in_map.
    by apply list_elem_of_In.
Qed.

Lemma hk_deregister_wf n w channel id :
  handlers_wf n w → handlers_wf (n + 1) (handler_op (HkDeregister channel id) w).
Proof.
  intros Hwf. cbn. unfold deregister_handler.
  assert (Hsame : ∀ h, (∀ c, handlers_for c h = handlers_for c (hw_handlers w)) →
    handlers_wf (n + 1) (mkHandlerWorld h (hw_mirror w) (hw_next_id w) (hw_allocated w)
                           (hw_posted w))).
  { intros h Hh. apply (handlers_wf_moved n w); try done; intros c.
    - cbn. unfold owed; cbn. rewrite Hh. apply Hwf.
    - exists []. unfold ids_of; cbn. by rewrite Hh, app_nil_r. }
  destruct (hw_handlers w !! channel) as [l|] eqn:Hl; [|by apply Hsame].
  assert (Hfor : handlers_for channel (hw_handlers w) = l) by (unfold handlers_for; by rewrite Hl).
  assert (Hnd : NoDup (map he_id l)).
  { pose proof (hwf_ids _ _ Hwf channel) as Hnd. unfold ids_of in Hnd.
    rewrite Hfor in Hnd. by apply NoDup_app in Hnd as [? _]. }
  destruct (remove_id_split l id Hnd) as [Heq|(e & l1 & l2 & He & Heq)]; rewrite Heq.
  - rewrite Nat.eqb_refl. apply Hsame. intros c. rewrite handlers_for_insert.
    destruct (decide (channel = c)) as [<-|]; [by rewrite Hfor|done].
  - destruct (Nat.eqb_spec (length l) (length (l1 ++ l2))) as [Hlen|_];
      [rewrite He, !length_app in Hlen; cbn in Hlen; lia|].
    apply (handlers_wf_moved n w); try done; intros c.
    + cbn. replace (owed _ c) with (if decide (channel = c) then owed w c - 1 else owed w c);
        [apply counts_decrement, Hwf|].
      unfold owed; cbn. rewrite handlers_for_insert.
      destruct (decide (channel = c)) as [<-|]; [|done].
      rewrite Hfor, He, !length_app; cbn. lia.
    + unfold ids_of; cbn. rewrite handlers_for_insert.
      destruct (decide (channel = c)) as [<-|]; [|exists []; by rewrite app_nil_r].
      rewrite Hfor, He. exists [he_id e]. rewrite !map_app; cbn. solve_Permutation.
Qed.

Lemma handlers_reachable_wf n w : handlers_reachable n w → n < u64_max → handlers_wf n w.
Proof.
  induction 1 as [|n w op _ IH]; intros Hn.
  - constructor; [done|..]; intros c; unfold counts, ids_of, owed; cbn;
      unfold handlers_for; rewrite ?lookup_empty; cbn; [done|constructor|constructor].
  - assert (Hwf : handlers_wf n w) by (apply IH; lia). destruct op.
    + by apply allocate_wf.
    + by apply post_wf.
    + by apply hk_register_wf.
    + by apply hk_deregister_wf.
Qed.

(** However registrations and deregistrations of several callers interleave with the
    reactor, the presence a caller reads is exact: a channel has handlers precisely when one
    is registered or on its way, whatever posts were rejected and whatever ids were
    deregistered twice or on the wrong channel; and no channel holds an id twice. *)
Theorem presence_exact n w channel :
  handlers_reachable n w → n < u64_max →
  presence_has_handlers (hw_mirror w) channel = (0 <? owed w channel) ∧
  NoDup (map he_id (handlers_for channel (hw_handlers w))).
Proof.
  intros Hr Hn. pose proof (handlers_reachable_wf _ _ Hr Hn) as Hwf. split.
  - unfold presence_has_handlers. rewrite (hwf_counts _ _ Hwf channel).
    destruct (N.eqb_spec (owed w channel) 0) as [->|]; [done|done].
  - pose proof (hwf_ids _ _ Hwf channel) as Hnd. by apply NoDup_app in Hnd as [? _].
Qed.

Lemma handlers_run_reachable ops n w :
  handlers_reachable n w →
  handlers_reachable (n + N.of_nat (length ops)) (fold_left (λ w op, handler_op op w) ops w).
Proof.
  revert n w. induction ops as [|op ops IH]; intros n w Hr; cbn [fold_left length].
  - by rewrite N.add_0_r.
  - replace (n + N.of_nat (S (length ops))) with (n + 1 + N.of_nat (length ops)) by lia.
    by apply IH, handlers_step.
Qed.

(** Two callers register on a channel; one post is rejected, the other handler is dropped
    twice. *)
Definition handlers_run : list HandlerOp :=
  [HkAllocate Ticker 7; HkAllocate Ticker 8; HkPost 1 false; HkPost 0 true; HkRegister].

Lemma presence_exact_witness :
  let w := fold_left (λ w op, handler_op op w) handlers_run handlers_new in
  let w' := handler_op (HkDeregister Ticker 1) (handler_op (HkDeregister Ticker 1) w) in
  map he_id (handlers_for Ticker (hw_handlers w)) = [1] ∧
  presence_has_handlers (hw_mirror w) Ticker = (0 <? owed w Ticker) ∧
  presence_has_handlers (hw_mirror w) Ticker = true ∧
  presence_has_handlers (hw_mirror w') Ticker = false.
Proof.
  intros w w'. split_and!; [by vm_compute| |by vm_compute|by vm_compute].
  apply (presence_exact 5 w Ticker); [|done].
  apply (handlers_run_reachable handlers_run 0), handlers_start.
Defined.
