(* ===== verification/EventBus.v ===== *)
(** * EventBus: the dispatch ring, its subscribers and the teardown queue

    [rust/src/dispatch/event_bus/mod.rs] less the correlated waiters, which are in
    [Correlated].  The drop-oldest ring, the debounced drop accounting, the long-lived
    subscribers with the instrumentation of the dispatch loop, and the queue of teardowns
    waiting for room in the caller channel.  The clock and what callbacks do are
    environment: a callback publishes some envelopes and then returns after a time or
    panics. *)

From Stdlib Require Import Ascii String.
From S2P Require Import Prelude F64 Types Events.
Local Open Scope N_scope.

(** ** [DropOldestRing] *)

(** A decoded user-data callback is identified by a number. *)
Inductive DispatchItem :=
  | ItemEvent (e : EventEnvelope)
  | ItemData (delivery : N) (channel : ChannelName) (handler_id : N).

Record DropOldestRing := mkRing {
  ring_items : list DispatchItem;
  ring_capacity : N;
  ring_closed : bool;
}.

Definition ring_new (capacity : N) : DropOldestRing := mkRing [] capacity false.

Definition ring_close (r : DropOldestRing) : DropOldestRing :=
  mkRing (ring_items r) (ring_capacity r) true.

Definition ring_depth (r : DropOldestRing) : N := N.of_nat (length (ring_items r)).

Definition ring_push (item : DispatchItem) (r : DropOldestRing) : bool * DropOldestRing :=
  let full := ring_capacity r <=? ring_depth r in
  let items := if full then tail (ring_items r) else ring_items r in
  (full, mkRing (items ++ [item]) (ring_capacity r) (ring_closed r)).

(** One turn of [recv]: an item, the end, or nothing yet. *)
Inductive Received := GotItem (i : DispatchItem) | RingEnded | RingWaits.

Definition ring_recv (r : DropOldestRing) : Received * DropOldestRing :=
  match ring_items r with
  | item :: rest => (GotItem item, mkRing rest (ring_capacity r) (ring_closed r))
  | [] => (if ring_closed r then RingEnded else RingWaits, r)
  end.

#[export] Instance EventType_countable : Countable EventType.
Proof.
  refine (inj_countable' (λ t : EventType,
    match t with
    | ClientReady => 0 | ClientClosedEvent => 1 | ClientFailed => 2
    | DeadmanDisarmFailedEvent => 3 | ConnectionConnectingEvent => 4
    | ConnectionOpenEvent => 5 | ConnectionSendReadyEvent => 6 | ConnectionClosedEvent => 7
    | ConnectionReopenedEvent => 8 | ConnectionFailedEvent => 9
    | ConnectionDroppedEvent => 10 | ConnectionRateThrottledEvent => 11
    | ConnectionAttemptFailedEvent => 12 | WebsocketStaleEvent => 13
    | AuthenticationFailedEvent => 14 | AuthHandshakeFailedEvent => 15
    | CredentialRefreshedEvent => 16 | CredentialRefreshFailedEvent => 17
    | NoncePoisonedEvent => 18 | WsUpgradeOk => 19 | WsUpgradeFailed => 20 | WsClosed => 21
    | QueueFullWarning => 22 | LoopFailedEvent => 23 | SlowCallbackWarning => 24
    | QueueDepthSample => 25 | CallbackLatency => 26 | RateLimitWarning => 27
    | RateLimitExceededEvent => 28 | RateLimitCacheEvictionEvent => 29
    | SubscriptionGapEvent => 30 | OrderBookGapEvent => 31 | ChannelGapEvent => 32
    | SubscriptionTerminatedEvent => 33 | HandlerPanicWarning => 34
    | MessageDroppedNoHandler => 35 | WsRequestFailedEvent => 36 | ConfigChangedEvent => 37
    | ConfigResolved => 38 | OrderReconciliationEvent => 39 | OrderSubmittedEvent => 40
    | OrderPlacementAmbiguousEvent => 41 | OrderCancellationAttempted => 42
    | RestRetryAttempt => 43
    end)
    (λ n : N, nth (N.to_nat n)
      [ClientReady; ClientClosedEvent; ClientFailed; DeadmanDisarmFailedEvent;
       ConnectionConnectingEvent; ConnectionOpenEvent; ConnectionSendReadyEvent;
       ConnectionClosedEvent; ConnectionReopenedEvent; ConnectionFailedEvent;
       ConnectionDroppedEvent; ConnectionRateThrottledEvent; ConnectionAttemptFailedEvent;
       WebsocketStaleEvent; AuthenticationFailedEvent; AuthHandshakeFailedEvent;
       CredentialRefreshedEvent; CredentialRefreshFailedEvent; NoncePoisonedEvent;
       WsUpgradeOk; WsUpgradeFailed; WsClosed; QueueFullWarning; LoopFailedEvent;
       SlowCallbackWarning; QueueDepthSample; CallbackLatency; RateLimitWarning;
       RateLimitExceededEvent; RateLimitCacheEvictionEvent; SubscriptionGapEvent;
       OrderBookGapEvent; ChannelGapEvent; SubscriptionTerminatedEvent; HandlerPanicWarning;
       MessageDroppedNoHandler; WsRequestFailedEvent; ConfigChangedEvent; ConfigResolved;
       OrderReconciliationEvent; OrderSubmittedEvent; OrderPlacementAmbiguousEvent;
       OrderCancellationAttempted; RestRetryAttempt] ClientReady) _).
  by intros [].
Defined.

(** ** The bus *)

Record SubscriberRecord := mkSubscriber { sub_handle : N; sub_max_version : N }.

Record DispatchEventBus := mkBus {
  io_to_dispatch : DropOldestRing;
  subscribers : gmap EventType (list SubscriberRecord);
  next_subscriber_id : N;
  dropped_count : N;
  last_warning_at : option MonotonicInstant;
  sample_interval_ms : N;
  slow_threshold_ms : N;
  clock_reads : N;
  callback_calls : N;
}.

Definition bus_new (capacity sample_ms slow_ms : N) : DispatchEventBus :=
  mkBus (ring_new capacity) ∅ 1 0 None sample_ms slow_ms 0 0.

Definition set_ring (r : DropOldestRing) (b : DispatchEventBus) : DispatchEventBus :=
  mkBus r (subscribers b) (next_subscriber_id b) (dropped_count b) (last_warning_at b)
    (sample_interval_ms b) (slow_threshold_ms b) (clock_reads b) (callback_calls b).
Definition set_dropped (n : N) (b : DispatchEventBus) : DispatchEventBus :=
  mkBus (io_to_dispatch b) (subscribers b) (next_subscriber_id b) n (last_warning_at b)
    (sample_interval_ms b) (slow_threshold_ms b) (clock_reads b) (callback_calls b).
Definition set_last_warning (t : option MonotonicInstant) (b : DispatchEventBus)
  : DispatchEventBus :=
  mkBus (io_to_dispatch b) (subscribers b) (next_subscriber_id b) (dropped_count b) t
    (sample_interval_ms b) (slow_threshold_ms b) (clock_reads b) (callback_calls b).
Definition set_subscribers (s : gmap EventType (list SubscriberRecord)) (next : N)
  (b : DispatchEventBus) : DispatchEventBus :=
  mkBus (io_to_dispatch b) s next (dropped_count b) (last_warning_at b)
    (sample_interval_ms b) (slow_threshold_ms b) (clock_reads b) (callback_calls b).
Definition count_call (b : DispatchEventBus) : DispatchEventBus :=
  mkBus (io_to_dispatch b) (subscribers b) (next_subscriber_id b) (dropped_count b)
    (last_warning_at b) (sample_interval_ms b) (slow_threshold_ms b) (clock_reads b)
    (callback_calls b + 1).

(** ** Panic messages *)

Definition MAX_PANIC_MESSAGE : nat := 1024.

(** [str::is_char_boundary] on the bytes of a string. *)
Definition is_char_boundary (s : list ascii) (i : nat) : bool :=
  match nth_error s i with
  | Some b => negb ((128 <=? N_of_ascii b) && (N_of_ascii b <? 192))
  | None => (i =? length s)%nat
  end || (i =? 0)%nat.

(** [while !is_char_boundary(end) { end -= 1 }] *)
Fixpoint boundary_below (s : list ascii) (e : nat) : nat :=
  if is_char_boundary s e then e
  else match e with O => O | S e => boundary_below s e end.

Definition truncate_panic_message (s : string) : string :=
  let bytes := list_ascii_of_string s in
  if (MAX_PANIC_MESSAGE <? length bytes)%nat
  then string_of_list_ascii (take (boundary_below bytes MAX_PANIC_MESSAGE) bytes)
  else s.

Section Bus.
(** The clock, by the number of times it has been read. *)
Context (clock : N → MonotonicInstant).

Definition now_of (b : DispatchEventBus) : MonotonicInstant * DispatchEventBus :=
  (clock (clock_reads b),
   mkBus (io_to_dispatch b) (subscribers b) (next_subscriber_id b) (dropped_count b)
     (last_warning_at b) (sample_interval_ms b) (slow_threshold_ms b) (clock_reads b + 1)
     (callback_calls b)).

(** A push that only counts what it evicts. *)
Definition push_counted (item : DispatchItem) (b : DispatchEventBus) : DispatchEventBus :=
  let '(dropped, r) := ring_push item (io_to_dispatch b) in
  let b := set_ring r b in
  if dropped then set_dropped (u64_wrapping_add (dropped_count b) 1) b else b.

Definition record_io_to_dispatch_drop (b : DispatchEventBus) : DispatchEventBus :=
  let total := u64_wrapping_add (dropped_count b) 1 in
  let b := set_dropped total b in
  let '(now, b) := now_of b in
  let interval := from_millis (sample_interval_ms b) in
  let elapsed_ok := match last_warning_at b with
                    | None => true
                    | Some prev => interval <=? now - prev
                    end in
  if elapsed_ok then
    let b := set_last_warning (Some now) b in
    push_counted (ItemEvent (mkEnvelope QueueFullWarning 1 now None
      (PQueueFullWarning IoToDispatch total (ring_capacity (io_to_dispatch b))))) b
  else b.

Definition push_item (item : DispatchItem) (b : DispatchEventBus) : DispatchEventBus :=
  let '(dropped, r) := ring_push item (io_to_dispatch b) in
  let b := set_ring r b in
  if dropped then record_io_to_dispatch_drop b else b.

Definition publish (e : EventEnvelope) (b : DispatchEventBus) : DispatchEventBus :=
  push_item (ItemEvent e) b.

Definition publish_data (delivery : N) (channel : ChannelName) (handler_id : N)
  (b : DispatchEventBus) : DispatchEventBus :=
  push_item (ItemData delivery channel handler_id) b.

(** ** Subscribers *)

Definition subscribe (t : EventType) (max_version : N) (b : DispatchEventBus)
  : N * DispatchEventBus :=
  let id := next_subscriber_id b in
  (id, set_subscribers
         (<[t := default [] (subscribers b !! t) ++ [mkSubscriber id max_version]]>
            (subscribers b))
         (u64_wrapping_add id 1) b).

Definition unsubscribe_long_lived (handle : N) (b : DispatchEventBus) : DispatchEventBus :=
  set_subscribers ((λ l, filter (λ r, sub_handle r ≠ handle) l) <$> subscribers b)
    (next_subscriber_id b) b.

Definition subscriber_count (t : EventType) (b : DispatchEventBus) : N :=
  match subscribers b !! t with Some l => N.of_nat (length l) | None => 0 end.

(** ** Instrumentation *)

Definition is_observability_event (t : EventType) : bool :=
  match t with
  | QueueFullWarning | LoopFailedEvent | SlowCallbackWarning | HandlerPanicWarning
  | QueueDepthSample | CallbackLatency => true
  | _ => false
  end.

Definition downgrade_to (target_version : N) (p : EventPayload) : EventPayload :=
  match p with
  | PCallbackLatency source _ latency_us =>
      if target_version <=? 1 then PCallbackLatency source None latency_us else p
  | other => other
  end.

Definition emit (t : EventType) (version : N) (payload : MonotonicInstant → EventPayload)
  (b : DispatchEventBus) : DispatchEventBus :=
  let '(now, b) := now_of b in
  push_counted (ItemEvent (mkEnvelope t version now None (payload now))) b.

Definition emit_callback_latency (source : CallbackSource) (handler_id latency_us : N) :=
  emit CallbackLatency 2 (λ _, PCallbackLatency source (Some handler_id) latency_us).

Definition emit_slow_callback_warning (source : CallbackSource)
  (latency_us threshold_ms : N) :=
  emit SlowCallbackWarning 1 (λ _, PSlowCallbackWarning source latency_us threshold_ms).

Definition emit_handler_panic_warning (source : CallbackSource) (handler_id : N)
  (message : string) :=
  emit HandlerPanicWarning 1 (λ _, PHandlerPanicWarning source handler_id message).

(** ** The dispatch loop *)

(** What a callback does: the envelopes it publishes, then its panic message or the time
    it took. *)
Record CallbackOutcome := mkOutcome {
  out_published : list EventEnvelope;
  out_result : string + N;
}.

Context (callback : N → N → EventEnvelope → CallbackOutcome)
  (data_callback : N → N → CallbackOutcome).

Definition publish_all (es : list EventEnvelope) (b : DispatchEventBus) : DispatchEventBus :=
  fold_left (λ b e, publish e b) es b.

Definition event_for (e : EventEnvelope) (max_version : N) : EventEnvelope :=
  if max_version <? event_version e then
    mkEnvelope (event_type e) max_version (timestamp_monotonic e) (request_id e)
      (downgrade_to max_version (payload e))
  else e.

Definition invoke_subscriber (e : EventEnvelope) (r : SubscriberRecord)
  (b : DispatchEventBus) : DispatchEventBus :=
  let out := callback (sub_handle r) (callback_calls b) (event_for e (sub_max_version r)) in
  let b := publish_all (out_published out) (count_call b) in
  let source := SourceEvent (event_type e) in
  match out_result out with
  | inr elapsed_us =>
      let b := if negb (is_observability_event (event_type e))
               then emit_callback_latency source (sub_handle r) elapsed_us b else b in
      let threshold_ms := slow_threshold_ms b in
      if (threshold_ms * 1000 <=? elapsed_us) && negb (is_observability_event (event_type e))
      then emit_slow_callback_warning source elapsed_us threshold_ms b else b
  | inl message =>
      if negb (is_observability_event (event_type e))
      then emit_handler_panic_warning source (sub_handle r) (truncate_panic_message message) b
      else b
  end.

Definition dispatch_event (e : EventEnvelope) (b : DispatchEventBus) : DispatchEventBus :=
  fold_left (λ b r, invoke_subscriber e r b)
    (default [] (subscribers b !! event_type e)) b.

Definition dispatch_data_delivery (delivery : N) (channel : ChannelName) (handler_id : N)
  (b : DispatchEventBus) : DispatchEventBus :=
  let out := data_callback delivery (callback_calls b) in
  let b := publish_all (out_published out) (count_call b) in
  let source := SourceDataChannel channel in
  match out_result out with
  | inr elapsed_us =>
      let b := if 0 <? subscriber_count CallbackLatency b
               then emit_callback_latency source handler_id elapsed_us b else b in
      let threshold_ms := slow_threshold_ms b in
      if threshold_ms * 1000 <=? elapsed_us
      then emit_slow_callback_warning source elapsed_us threshold_ms b else b
  | inl message =>
      emit_handler_panic_warning source handler_id (truncate_panic_message message) b
  end.

Definition DEQUEUE_SAMPLE_THRESHOLD : N := 1000.

Definition emit_queue_depth_sample (b : DispatchEventBus) : DispatchEventBus :=
  let depth := ring_depth (io_to_dispatch b) in
  let cap := ring_capacity (io_to_dispatch b) in
  emit QueueDepthSample 1 (λ now, PQueueDepthSample IoToDispatch depth cap now) b.

(** One iteration of [dispatch_reactor_loop], less the correlated delivery of [Correlated]:
    [elapsed] is whether the sample interval has passed. *)
Definition dispatch_step (elapsed : bool) (dequeues : N) (b : DispatchEventBus)
  : Received * N * DispatchEventBus :=
  let '(item, r) := ring_recv (io_to_dispatch b) in
  let b := set_ring r b in
  match item with
  | GotItem i =>
      let dequeues := u32_wrapping_add dequeues 1 in
      let '(dequeues, b) :=
        if (DEQUEUE_SAMPLE_THRESHOLD <=? dequeues) || elapsed
        then (0, emit_queue_depth_sample b) else (dequeues, b) in
      (item, dequeues,
       match i with
       | ItemData delivery channel handler_id =>
           dispatch_data_delivery delivery channel handler_id b
       | ItemEvent e => dispatch_event e b
       end)
  | _ => (item, dequeues, b)
  end.
End Bus.
