(* ===== verification/EventBusProps.v ===== *)
(** * EventBusProps: what the ring keeps, what it evicts, what a dispatch emits

    Every operation of [EventBus] pushes a log of items.  [Fed] relates a bus with the one
    after the pushes of a log, [Gives] with what they carry apart from the bus's own
    overflow warnings and from timestamps. *)

From Stdlib Require Import Ascii String.
From S2P Require Import Prelude F64 Types Events EventBus.
Local Open Scope N_scope.

(** ** Logs *)

Definition bus_wf (b : DispatchEventBus) : Prop :=
  0 < ring_capacity (io_to_dispatch b) ∧
  ring_depth (io_to_dispatch b) ≤ ring_capacity (io_to_dispatch b) ∧
  dropped_count b ≤ u64_max.

(** What no push changes. *)
Definition bus_static (b : DispatchEventBus)
  : gmap EventType (list SubscriberRecord) * N * N * N * N * bool :=
  (subscribers b, next_subscriber_id b, sample_interval_ms b, slow_threshold_ms b,
   ring_capacity (io_to_dispatch b), ring_closed (io_to_dispatch b)).

Record Fed (log : list DispatchItem) (b b' : DispatchEventBus) : Prop := mkFed {
  fed_static : bus_static b' = bus_static b;
  fed_wf : bus_wf b → bus_wf b';
  fed_evicts : bus_wf b → ∃ k,
    (k ≤ length (ring_items (io_to_dispatch b) ++ log))%nat ∧
    ring_items (io_to_dispatch b') = drop k (ring_items (io_to_dispatch b) ++ log) ∧
    dropped_count b' = u64_wrapping_add (dropped_count b) (N.of_nat k);
}.

Lemma wrapping_add_add (a m n : N) :
  u64_wrapping_add (u64_wrapping_add a m) n = u64_wrapping_add a (m + n).
Proof.
  unfold u64_wrapping_add. rewrite N.Div0.add_mod_idemp_l. f_equal. lia.
Qed.

Lemma wrapping_add_0 (a : N) : a ≤ u64_max → u64_wrapping_add a 0 = a.
Proof. intros. unfold u64_wrapping_add. rewrite N.mod_small; lia. Qed.

Lemma wrapping_add_le (a n : N) : u64_wrapping_add a n ≤ u64_max.
Proof.
  unfold u64_wrapping_add. pose proof (N.mod_lt (a + n) (u64_max + 1) ltac:(lia)). lia.
Qed.

Lemma fed_refl b : Fed [] b b.
Proof.
  split; [done|done|]. intros (_ & _ & Hd). exists 0%nat. rewrite drop_0, app_nil_r.
  split_and!; [lia|done|by rewrite wrapping_add_0].
Qed.

Lemma fed_trans l1 l2 b1 b2 b3 : Fed l1 b1 b2 → Fed l2 b2 b3 → Fed (l1 ++ l2) b1 b3.
Proof.
  intros [S1 W1 E1] [S2 W2 E2]. split; [congruence|auto|]. intros Hwf.
  destruct (E1 Hwf) as (k1 & K1 & R1 & D1). destruct (E2 (W1 Hwf)) as (k2 & K2 & R2 & D2).
  exists (k1 + k2)%nat. rewrite R1 in K2, R2. rewrite app_assoc.
  rewrite length_app, length_drop in K2. split_and!.
  - rewrite length_app. lia.
  - rewrite R2, <-drop_drop, (drop_app_le _ l2 k1) by lia. done.
  - rewrite D2, D1, wrapping_add_add. f_equal. lia.
Qed.

(** A change of what the ring and the count do not depend on. *)
Lemma fed_idle b b' :
  io_to_dispatch b' = io_to_dispatch b → dropped_count b' = dropped_count b →
  bus_static b' = bus_static b → Fed [] b b'.
Proof.
  intros Hr Hd Hs. destruct (fed_refl b) as [_ W E].
  split; [done|unfold bus_wf; by rewrite Hr, Hd|by rewrite Hr, Hd].
Qed.

(** Pushing and counting the eviction. *)
Lemma fed_push_counted item b : Fed [item] b (push_counted item b).
Proof.
  unfold push_counted, ring_push. destruct b as [[items cap closed] subs next dc lw si sl cr cc].
  unfold ring_depth. cbn [ring_items ring_capacity io_to_dispatch].
  destruct (N.leb_spec cap (N.of_nat (length items))) as [Hfull|Hroom];
    (split; [done|unfold bus_wf, ring_depth; cbn..]).
  - intros (Hc & Hl & Hd). split_and!; [done|..|apply wrapping_add_le].
    destruct items; cbn in *; [lia|]. rewrite length_app. cbn. lia.
  - intros (Hc & Hl & Hd). exists 1%nat. destruct items; cbn in *; [lia|]. split_and!; auto. lia.
  - intros (Hc & Hl & Hd). split_and!; [done|..|done]. rewrite length_app. cbn. lia.
  - intros (Hc & Hl & Hd). exists 0%nat. rewrite drop_0. split_and!; [lia|done|].
    by rewrite wrapping_add_0.
Qed.

(** ** Signals *)

Definition untimed_payload (p : EventPayload) : EventPayload :=
  match p with
  | PQueueDepthSample q depth capacity _ => PQueueDepthSample q depth capacity 0
  | p => p
  end.

Definition untimed (i : DispatchItem) : DispatchItem :=
  match i with
  | ItemEvent e => ItemEvent (mkEnvelope (event_type e) (event_version e) 0 (request_id e)
                     (untimed_payload (payload e)))
  | i => i
  end.

Definition is_overflow_warning (i : DispatchItem) : bool :=
  match i with
  | ItemEvent e => match event_type e with QueueFullWarning => true | _ => false end
  | ItemData _ _ _ => false
  end.

(** The items other than overflow warnings, without timestamps. *)
Definition signals (log : list DispatchItem) : list DispatchItem :=
  untimed <$> filter (λ i, is_overflow_warning i = false) log.

Lemma signals_app l1 l2 : signals (l1 ++ l2) = signals l1 ++ signals l2.
Proof. unfold signals. by rewrite filter_app, fmap_app. Qed.

Lemma signals_keep i : is_overflow_warning i = false → signals [i] = [untimed i].
Proof. intros Hi. unfold signals. by rewrite filter_cons_True. Qed.

Lemma signals_drop i : is_overflow_warning i = true → signals [i] = [].
Proof. intros Hi. unfold signals. rewrite filter_cons_False; [done|congruence]. Qed.

(** The pushes carry these signals, and so many callbacks ran. *)
Definition Gives (calls : N) (sig : list DispatchItem) (b b' : DispatchEventBus) : Prop :=
  ∃ log, Fed log b b' ∧ signals log = sig ∧ callback_calls b' = callback_calls b + calls.

Lemma gives_refl b : Gives 0 [] b b.
Proof. exists []. split_and!; [apply fed_refl|done|lia]. Qed.

Lemma gives_trans n1 n2 s1 s2 b1 b2 b3 :
  Gives n1 s1 b1 b2 → Gives n2 s2 b2 b3 → Gives (n1 + n2) (s1 ++ s2) b1 b3.
Proof.
  intros (l1 & F1 & <- & C1) (l2 & F2 & <- & C2). exists (l1 ++ l2).
  split_and!; [by eapply fed_trans|apply signals_app|lia].
Qed.

(** Two runs without callbacks. *)
Lemma gives_trans_0 s1 s2 b1 b2 b3 :
  Gives 0 s1 b1 b2 → Gives 0 s2 b2 b3 → Gives 0 (s1 ++ s2) b1 b3.
Proof. apply gives_trans. Qed.

Lemma gives_idle b b' :
  io_to_dispatch b' = io_to_dispatch b → dropped_count b' = dropped_count b →
  bus_static b' = bus_static b → callback_calls b' = callback_calls b → Gives 0 [] b b'.
Proof. intros. exists []. split_and!; [by apply fed_idle|done|lia]. Qed.

Lemma gives_push_counted item b : Gives 0 (signals [item]) b (push_counted item b).
Proof.
  exists [item]. split_and!; [apply fed_push_counted|done|].
  unfold push_counted. destruct (ring_push _ _) as [[] ?]; cbn; lia.
Qed.

Lemma gives_push_warning item b :
  is_overflow_warning item = true → Gives 0 [] b (push_counted item b).
Proof.
  intros Hw. rewrite <-(signals_drop item Hw). apply gives_push_counted.
Qed.

Lemma gives_static n s b b' : Gives n s b b' → bus_static b' = bus_static b.
Proof. intros (l & [? _ _] & _). done. Qed.

Section Bus.
Context (clock : N → MonotonicInstant).

Lemma gives_record_drop item b :
  (ring_push item (io_to_dispatch b)).1 = true →
  Gives 0 (signals [item]) b
    (record_io_to_dispatch_drop clock (set_ring (ring_push item (io_to_dispatch b)).2 b)).
Proof.
  intros Hd. pose proof (gives_push_counted item b) as G. unfold push_counted in G.
  destruct (ring_push item (io_to_dispatch b)) as [d r]. cbn in Hd. subst d.
  rewrite <-(app_nil_r (signals _)). cbn [snd].
  unfold record_io_to_dispatch_drop. cbn zeta.
  set (c := set_dropped _ _) in *. clearbody c. unfold now_of.
  match goal with |- Gives _ _ _ (if ?x then _ else _) => destruct x end.
  - eapply (gives_trans_0 _ []); [exact G|].
    eapply (gives_trans_0 [] []); [|by apply gives_push_warning]. by apply gives_idle.
  - eapply (gives_trans_0 _ []); [exact G|by apply gives_idle].
Qed.

Lemma gives_push_item item b : Gives 0 (signals [item]) b (push_item clock item b).
Proof.
  unfold push_item. pose proof (gives_record_drop item b) as R.
  pose proof (gives_push_counted item b) as G. unfold push_counted in G.
  destruct (ring_push item (io_to_dispatch b)) as [[] r]; cbn in R; auto.
Qed.

Lemma gives_publish_all es b :
  Gives 0 (signals (ItemEvent <$> es)) b (publish_all clock es b).
Proof.
  unfold publish_all. revert b. induction es as [|e es IH]; intros b; cbn [fold_left].
  { apply gives_refl. }
  change (ItemEvent <$> e :: es) with ([ItemEvent e] ++ (ItemEvent <$> es)).
  rewrite signals_app. eapply gives_trans_0, IH. apply gives_push_item.
Qed.

(** An envelope of the bus itself, up to its timestamp. *)
Definition bus_event (t : EventType) (version : N) (p : EventPayload) : DispatchItem :=
  ItemEvent (mkEnvelope t version 0 None p).

Lemma gives_emit t v p b :
  t ≠ QueueFullWarning →
  (∀ now, untimed_payload (p now) = untimed_payload (p 0)) →
  Gives 0 [bus_event t v (untimed_payload (p 0))] b (emit clock t v p b).
Proof.
  intros Ht Hp. unfold emit, now_of. set (now := clock (clock_reads b)).
  assert (signals [ItemEvent (mkEnvelope t v now None (p now))] =
    [bus_event t v (untimed_payload (p 0))]) as <-.
  { rewrite signals_keep; [cbn -[untimed_payload]; by rewrite (Hp now)|by destruct t]. }
  eapply (gives_trans_0 []); [|apply gives_push_counted]. by apply gives_idle.
Qed.

(** ** What a dispatch emits, as a specification *)

(** The report on a finished callback. *)
Definition report (source : CallbackSource) (handler slow_ms : N) (latency : bool)
  (result : string + N) : list DispatchItem :=
  match result with
  | inl message =>
      [bus_event HandlerPanicWarning 1
         (PHandlerPanicWarning source handler (truncate_panic_message message))]
  | inr us =>
      (if latency then [bus_event CallbackLatency 2 (PCallbackLatency source (Some handler) us)]
       else []) ++
      (if slow_ms * 1000 <=? us
       then [bus_event SlowCallbackWarning 1 (PSlowCallbackWarning source us slow_ms)]
       else [])
  end.

Context (callback : N → N → EventEnvelope → CallbackOutcome)
  (data_callback : N → N → CallbackOutcome).

Definition subscriber_signals (e : EventEnvelope) (slow_ms calls : N) (r : SubscriberRecord)
  : list DispatchItem :=
  let out := callback (sub_handle r) calls (event_for e (sub_max_version r)) in
  signals (ItemEvent <$> out_published out) ++
  (if is_observability_event (event_type e) then []
   else report (SourceEvent (event_type e)) (sub_handle r) slow_ms true (out_result out)).

Fixpoint subscribers_signals (e : EventEnvelope) (slow_ms calls : N)
  (rs : list SubscriberRecord) : list DispatchItem :=
  match rs with
  | [] => []
  | r :: rs => subscriber_signals e slow_ms calls r ++
               subscribers_signals e slow_ms (calls + 1) rs
  end.

Definition data_signals (delivery : N) (channel : ChannelName) (handler_id : N)
  (b : DispatchEventBus) : list DispatchItem :=
  let out := data_callback delivery (callback_calls b) in
  signals (ItemEvent <$> out_published out) ++
  report (SourceDataChannel channel) handler_id (slow_threshold_ms b)
    (0 <? subscriber_count CallbackLatency b) (out_result out).

Lemma gives_count_call b : Gives 1 [] b (count_call b).
Proof.
  exists []. split_and!; [|done|done]. by apply fed_idle.
Qed.

Lemma gives_if (c : bool) n s b b' :
  Gives n s b b' → (c = false → Gives n [] b b) →
  Gives n (if c then s else []) b (if c then b' else b).
Proof. destruct c; auto. Qed.

(** The callback and its publications. *)
Lemma gives_callback out b :
  Gives 1 (signals (ItemEvent <$> out_published out)) b
    (publish_all clock (out_published out) (count_call b)).
Proof.
  eapply (gives_trans 1 0 []); [apply gives_count_call|apply gives_publish_all].
Qed.

Lemma gives_invoke e r b :
  Gives 1 (subscriber_signals e (slow_threshold_ms b) (callback_calls b) r) b
    (invoke_subscriber clock callback e r b).
Proof.
  unfold subscriber_signals, invoke_subscriber. cbn zeta.
  set (out := callback _ _ _). pose proof (gives_callback out b) as G.
  set (b1 := publish_all _ _ _) in *. pose proof (gives_static _ _ _ _ G) as S.
  assert (slow_threshold_ms b = slow_threshold_ms b1) as -> by (unfold bus_static in S; congruence).
  clearbody b1. apply (gives_trans 1 0 _ _ _ b1); [exact G|].
  unfold report. destruct (is_observability_event (event_type e)), (out_result out) as [m|us];
    cbn [negb]; rewrite ?andb_true_r, ?andb_false_r; try apply gives_refl.
  - by apply gives_emit.
  - pose proof (gives_emit CallbackLatency 2 (λ _, PCallbackLatency (SourceEvent (event_type e))
      (Some (sub_handle r)) us) b1 ltac:(done) ltac:(done)) as L.
    apply (gives_trans_0 _ _ _ _ _ L). pose proof (gives_static _ _ _ _ L) as S2.
    unfold emit_callback_latency. set (b2 := emit _ _ _ _ _) in *.
    assert (slow_threshold_ms b2 = slow_threshold_ms b1) as ->
      by (unfold bus_static in S2; congruence).
    apply gives_if; [|by intros; apply gives_refl]. by apply gives_emit.
Qed.

Lemma gives_subscribers e rs b :
  Gives (N.of_nat (length rs))
    (subscribers_signals e (slow_threshold_ms b) (callback_calls b) rs) b
    (fold_left (λ b r, invoke_subscriber clock callback e r b) rs b).
Proof.
  revert b. induction rs as [|r rs IH]; intros b; cbn [fold_left subscribers_signals].
  { apply gives_refl. }
  pose proof (gives_invoke e r b) as G. pose proof (gives_static _ _ _ _ G) as S.
  set (b1 := invoke_subscriber _ _ _ _ _) in *.
  replace (N.of_nat (length (r :: rs))) with (1 + N.of_nat (length rs)) by (cbn; lia).
  eapply gives_trans; [exact G|].
  assert (slow_threshold_ms b = slow_threshold_ms b1) as -> by (unfold bus_static in S; congruence).
  destruct G as (_ & _ & _ & <-). apply IH.
Qed.

Definition event_signals (e : EventEnvelope) (b : DispatchEventBus) : list DispatchItem :=
  subscribers_signals e (slow_threshold_ms b) (callback_calls b)
    (default [] (subscribers b !! event_type e)).

Lemma gives_data d c h b :
  Gives 1 (data_signals d c h b) b (dispatch_data_delivery clock data_callback d c h b).
Proof.
  unfold data_signals, dispatch_data_delivery. cbn zeta. set (out := data_callback _ _).
  pose proof (gives_callback out b) as G. pose proof (gives_static _ _ _ _ G) as S.
  set (b1 := publish_all _ _ _) in *. clearbody b1.
  apply (gives_trans 1 0 _ _ _ b1); [exact G|].
  assert (slow_threshold_ms b = slow_threshold_ms b1 ∧
    subscriber_count CallbackLatency b = subscriber_count CallbackLatency b1) as [-> ->]
    by (unfold subscriber_count, bus_static in *; split; [congruence|];
        by assert (subscribers b = subscribers b1) as -> by congruence).
  unfold report. destruct (out_result out) as [m|us]; [by apply gives_emit|].
  pose proof (gives_emit CallbackLatency 2 (λ _, PCallbackLatency (SourceDataChannel c)
    (Some h) us) b1 ltac:(done) ltac:(done)) as L.
  pose proof (gives_if (0 <? subscriber_count CallbackLatency b1) _ _ _ _ L
    (λ _, gives_refl b1)) as L'.
  apply (gives_trans_0 _ _ _ _ _ L'). pose proof (gives_static _ _ _ _ L') as S2.
  unfold emit_callback_latency. set (b2 := if 0 <? _ then emit _ _ _ _ _ else _) in *. clearbody b2.
  assert (slow_threshold_ms b2 = slow_threshold_ms b1) as ->
    by (unfold bus_static in S2; congruence).
  apply gives_if; [by apply gives_emit|intros; apply gives_refl].
Qed.

(** ** Whole runs *)

Inductive BusOp :=
  | OpPublish (e : EventEnvelope)
  | OpData (delivery : N) (channel : ChannelName) (handler_id : N)
  | OpSubscribe (t : EventType) (max_version : N)
  | OpUnsubscribe (handle : N)
  | OpClose
  | OpDispatch (elapsed : bool).

(** The operation: the items the dispatch loop received, its dequeue counter and the bus. *)
Definition bus_op (op : BusOp) (dequeues : N) (b : DispatchEventBus)
  : list DispatchItem * N * DispatchEventBus :=
  match op with
  | OpPublish e => ([], dequeues, publish clock e b)
  | OpData d c h => ([], dequeues, publish_data clock d c h b)
  | OpSubscribe t v => ([], dequeues, (subscribe t v b).2)
  | OpUnsubscribe h => ([], dequeues, unsubscribe_long_lived h b)
  | OpClose => ([], dequeues, set_ring (ring_close (io_to_dispatch b)) b)
  | OpDispatch elapsed =>
      let '(r, dequeues, b) := dispatch_step clock callback data_callback elapsed dequeues b in
      (match r with GotItem i => [i] | _ => [] end, dequeues, b)
  end.

(** What the operation puts on the ring, apart from overflow warnings. *)
Definition op_signals (op : BusOp) (dequeues : N) (b : DispatchEventBus) : list DispatchItem :=
  match op with
  | OpPublish e => signals [ItemEvent e]
  | OpData d c h => [ItemData d c h]
  | OpSubscribe _ _ | OpUnsubscribe _ | OpClose => []
  | OpDispatch elapsed =>
      match ring_items (io_to_dispatch b) with
      | [] => []
      | i :: rest =>
          (if (1000 <=? u32_wrapping_add dequeues 1) || elapsed
           then [bus_event QueueDepthSample 1 (PQueueDepthSample IoToDispatch
                   (N.of_nat (length rest)) (ring_capacity (io_to_dispatch b)) 0)]
           else []) ++
          match i with
          | ItemEvent e => event_signals e b
          | ItemData d c h => data_signals d c h b
          end
      end
  end.

Fixpoint bus_run (ops : list BusOp) (dequeues : N) (b : DispatchEventBus)
  : list DispatchItem * list DispatchItem * DispatchEventBus :=
  match ops with
  | [] => ([], [], b)
  | op :: ops =>
      let sig := op_signals op dequeues b in
      let '(received, dequeues, b) := bus_op op dequeues b in
      let '(sigs, receiveds, b) := bus_run ops dequeues b in
      (sig ++ sigs, received ++ receiveds, b)
  end.

(** ** The fate of every item *)

(** [true] for received, [false] for evicted. *)
Definition evicted (fates : list (DispatchItem * bool)) : list (DispatchItem * bool) :=
  filter (λ f, f.2 = false) fates.
Definition received_items (fates : list (DispatchItem * bool)) : list DispatchItem :=
  fst <$> filter (λ f, f.2 = true) fates.

(** Between [b] and [b'] the items of [log] were pushed and those of [fates] left, both in
    the order of the ring. *)
Record Accounts (log : list DispatchItem) (fates : list (DispatchItem * bool))
  (b b' : DispatchEventBus) : Prop := mkAccounts {
  acc_ring : ring_items (io_to_dispatch b) ++ log =
             (fst <$> fates) ++ ring_items (io_to_dispatch b');
  acc_dropped : dropped_count b' =
                u64_wrapping_add (dropped_count b) (N.of_nat (length (evicted fates)));
  acc_capacity : ring_capacity (io_to_dispatch b') = ring_capacity (io_to_dispatch b);
  acc_wf : bus_wf b';
}.

Lemma accounts_trans l1 l2 f1 f2 b1 b2 b3 :
  Accounts l1 f1 b1 b2 → Accounts l2 f2 b2 b3 → Accounts (l1 ++ l2) (f1 ++ f2) b1 b3.
Proof.
  intros [R1 D1 C1 _] [R2 D2 C2 W2]. split; [|..|congruence|done].
  - by rewrite app_assoc, R1, <-app_assoc, R2, fmap_app, <-app_assoc.
  - rewrite D2, D1, wrapping_add_add. unfold evicted. rewrite filter_app, length_app. f_equal. lia.
Qed.

Lemma accounts_fed log b b' :
  bus_wf b → Fed log b b' →
  ∃ fates, Accounts log fates b b' ∧ received_items fates = [].
Proof.
  intros Hwf [S W E]. destruct (E Hwf) as (k & K & R & D).
  set (gone := take k (ring_items (io_to_dispatch b) ++ log)).
  assert (∀ l : list DispatchItem, evicted ((., false) <$> l) = (., false) <$> l ∧
    received_items ((., false) <$> l) = []) as Hall.
  { unfold evicted, received_items. induction l as [|i l [IH1 IH2]]; [done|].
    cbn [fmap list_fmap]. rewrite filter_cons_True, filter_cons_False, IH1 by done. done. }
  exists ((., false) <$> gone). destruct (Hall gone) as [H1 H2]. split; [|done]. split; auto.
  - rewrite R, <-list_fmap_compose. unfold compose. cbn. rewrite list_fmap_id.
    unfold gone. by rewrite take_drop.
  - rewrite H1, length_fmap. unfold gone. rewrite length_take, Nat.min_l by done. done.
  - unfold bus_static in S. congruence.
Qed.

Lemma accounts_idle log b b1 b' :
  bus_wf b → io_to_dispatch b1 = io_to_dispatch b → dropped_count b1 = dropped_count b →
  (bus_wf b1 → ∃ fates, Accounts log fates b1 b' ∧ received_items fates = []) →
  ∃ fates, Accounts log fates b b' ∧ received_items fates = [].
Proof.
  intros Hwf Hr Hd H. destruct H as (f & [R D C W] & E); [unfold bus_wf; by rewrite Hr, Hd|].
  exists f. split; [|done]. rewrite Hr in R, C. rewrite Hd in D. done.
Qed.

Lemma accounts_nil b b1 :
  bus_wf b → ring_items (io_to_dispatch b1) = ring_items (io_to_dispatch b) →
  ring_capacity (io_to_dispatch b1) = ring_capacity (io_to_dispatch b) →
  dropped_count b1 = dropped_count b → Accounts [] [] b b1.
Proof.
  intros Hwf Hi Hc Hd. pose proof Hwf as (_ & _ & ?). split; [|..|done|].
  - by rewrite app_nil_r, Hi.
  - by rewrite wrapping_add_0, Hd.
  - unfold bus_wf, ring_depth. by rewrite Hi, Hc, Hd.
Qed.

(** The loop takes the first item. *)
Lemma accounts_recv i rest b :
  bus_wf b → ring_items (io_to_dispatch b) = i :: rest →
  Accounts [] [(i, true)] b
    (set_ring (mkRing rest (ring_capacity (io_to_dispatch b))
       (ring_closed (io_to_dispatch b))) b).
Proof.
  intros Hwf Hi. pose proof Hwf as (? & Hl & ?). unfold ring_depth in Hl. rewrite Hi in Hl.
  cbn in Hl. split; [|..|done|].
  - by rewrite app_nil_r, Hi.
  - cbn. by rewrite wrapping_add_0.
  - unfold bus_wf, ring_depth. cbn. split_and!; [done|lia|done].
Qed.

(** A dispatch after the item was taken. *)
Lemma gives_dispatch (sample : bool) i b :
  ∃ n, Gives n
    ((if sample
      then [bus_event QueueDepthSample 1 (PQueueDepthSample IoToDispatch
              (ring_depth (io_to_dispatch b)) (ring_capacity (io_to_dispatch b)) 0)]
      else []) ++
     match i with
     | ItemEvent e => event_signals e b
     | ItemData d c h => data_signals d c h b
     end) b
    (let b := if sample then emit_queue_depth_sample clock b else b in
     match i with
     | ItemData d c h => dispatch_data_delivery clock data_callback d c h b
     | ItemEvent e => dispatch_event clock callback e b
     end).
Proof.
  assert (Gives 0 (if sample
      then [bus_event QueueDepthSample 1 (PQueueDepthSample IoToDispatch
              (ring_depth (io_to_dispatch b)) (ring_capacity (io_to_dispatch b)) 0)]
      else []) b (if sample then emit_queue_depth_sample clock b else b)) as G.
  { apply gives_if; [|intros; apply gives_refl].
    unfold emit_queue_depth_sample. cbn zeta. by apply gives_emit. }
  cbn zeta. set (b1 := if sample then emit_queue_depth_sample clock b else b) in *.
  pose proof (gives_static _ _ _ _ G) as S. destruct G as (l & F & <- & C). clearbody b1.
  assert (Gives 0 (signals l) b b1) as G by (exists l; done).
  unfold bus_static in S.
  assert (subscribers b = subscribers b1 ∧ slow_threshold_ms b = slow_threshold_ms b1 ∧
    callback_calls b = callback_calls b1) as (E1 & E2 & E3) by (split_and!; [congruence..|lia]).
  destruct i as [e|d c h]; eexists; (eapply gives_trans; [exact G|]).
  - unfold event_signals. rewrite E1, E2, E3. apply gives_subscribers.
  - replace (data_signals d c h b) with (data_signals d c h b1); [apply gives_data|].
    unfold data_signals, subscriber_count. by rewrite E1, E2, E3.
Qed.

Lemma accounts_gives n s b b' :
  bus_wf b → Gives n s b b' →
  ∃ log fates, Accounts log fates b b' ∧ signals log = s ∧ received_items fates = [].
Proof.
  intros Hwf (log & F & <- & _). destruct (accounts_fed log b b' Hwf F) as (f & ? & ?). eauto.
Qed.

Lemma accounts_op op dequeues b received dequeues' b' :
  bus_wf b → bus_op op dequeues b = (received, dequeues', b') →
  ∃ log fates, Accounts log fates b b' ∧ signals log = op_signals op dequeues b ∧
    received_items fates = received.
Proof.
  intros Hwf. destruct op as [e|d c h|t v|h| |elapsed]; cbn [bus_op op_signals];
    try (intros [= <- <- <-]; exists [], []; split_and!; [by apply accounts_nil|done|done]).
  - intros [= <- <- <-]. eapply accounts_gives; [done|apply gives_push_item].
  - intros [= <- <- <-]. change [ItemData d c h] with (signals [ItemData d c h]).
    eapply accounts_gives; [done|apply gives_push_item].
  - unfold dispatch_step, ring_recv.
    destruct (ring_items (io_to_dispatch b)) as [|i rest] eqn:Hi.
    { destruct (ring_closed _); intros [= <- <- <-]; exists [], [];
        (split_and!; [by apply accounts_nil|done|done]). }
    pose proof (accounts_recv i rest b Hwf Hi) as A.
    set (b1 := set_ring _ b) in *. cbn zeta. unfold DEQUEUE_SAMPLE_THRESHOLD.
    destruct (gives_dispatch ((1000 <=? u32_wrapping_add dequeues 1) || elapsed) i b1) as [n G].
    intros E. assert (received = [i] ∧ Gives n (op_signals (OpDispatch elapsed) dequeues b) b1 b')
      as [-> G'].
    { cbn [op_signals]. rewrite Hi.
      destruct ((1000 <=? u32_wrapping_add dequeues 1) || elapsed), i;
        injection E as <- <- <-; split; try done; exact G. }
    destruct (accounts_gives _ _ _ _ (acc_wf _ _ _ _ A) G') as (log & f & A' & S & R).
    exists log, ([(i, true)] ++ f). split_and!.
    + by apply (accounts_trans [] log _ _ _ b1).
    + rewrite S. cbn [op_signals]. by rewrite Hi.
    + unfold received_items in *. rewrite filter_app, fmap_app, R. done.
Qed.

(** C29: The dispatch ring loses nothing silently: over any history of publications,
    deliveries, subscriptions and dispatches, the items pushed are, in order and without
    timestamps, exactly those published, plus the callbacks' and the bus's own reports and
    its overflow warnings; each of them is received once, evicted from the front or still
    in the ring, in ring order; the drop counter is the number evicted and the ring never
    exceeds its capacity. *)
Theorem event_bus_accounting ops capacity sample_ms slow_ms sent received b :
  0 < capacity →
  bus_run ops 0 (bus_new capacity sample_ms slow_ms) = (sent, received, b) →
  ∃ fates : list (DispatchItem * bool),
    signals ((fst <$> fates) ++ ring_items (io_to_dispatch b)) = sent ∧
    received_items fates = received ∧
    dropped_count b = N.of_nat (length (evicted fates)) mod (u64_max + 1) ∧
    N.of_nat (length (ring_items (io_to_dispatch b))) ≤ capacity.
Proof.
  intros Hc Hrun. set (b0 := bus_new capacity sample_ms slow_ms) in *.
  assert (bus_wf b0) as Hwf by (unfold bus_wf, ring_depth, b0; cbn; lia).
  assert (∃ log fates, Accounts log fates b0 b ∧ signals log = sent ∧
    received_items fates = received) as (log & f & [R D C (_ & Hl & _)] & S & E).
  { clear Hc. clearbody b0. generalize 0 as dequeues, b0, sent, received, Hwf, Hrun.
    clear b0 sent received Hwf Hrun.
    induction ops as [|op ops IH]; intros dq b0 sent received Hwf Hrun; cbn [bus_run] in Hrun.
    { injection Hrun as <- <- <-. exists [], []. split_and!; [by apply accounts_nil|done|done]. }
    destruct (bus_op op dq b0) as [[r dq1] b1] eqn:Ho.
    destruct (bus_run ops dq1 b1) as [[s2 r2] b2] eqn:Hr. injection Hrun as <- <- <-.
    destruct (accounts_op _ _ _ _ _ _ Hwf Ho) as (l1 & f1 & A1 & S1 & R1).
    destruct (IH dq1 b1 s2 r2 (acc_wf _ _ _ _ A1) Hr) as (l2 & f2 & A2 & S2 & R2).
    exists (l1 ++ l2), (f1 ++ f2). split_and!; [by eapply accounts_trans| |].
    - by rewrite signals_app, S1, S2.
    - unfold received_items in *. by rewrite filter_app, fmap_app, R1, R2. }
  exists f. split_and!; [by rewrite <-R|done|..].
  - rewrite D. unfold u64_wrapping_add. done.
  - unfold ring_depth in Hl. rewrite C in Hl. done.
Qed.

(** What the subscribers themselves publish. *)
Fixpoint publications (e : EventEnvelope) (calls : N) (rs : list SubscriberRecord)
  : list DispatchItem :=
  match rs with
  | [] => []
  | r :: rs =>
      signals (ItemEvent <$>
        out_published (callback (sub_handle r) calls (event_for e (sub_max_version r)))) ++
      publications e (calls + 1) rs
  end.

Lemma observability_signals e slow_ms calls rs :
  is_observability_event (event_type e) = true →
  subscribers_signals e slow_ms calls rs = publications e calls rs.
Proof.
  intros Ho. revert calls. induction rs as [|r rs IH]; intros calls; [done|].
  cbn. unfold subscriber_signals. cbn zeta. by rewrite Ho, app_nil_r, IH.
Qed.

Lemma truncate_bounded m : (String.length (truncate_panic_message m) ≤ 1024)%nat.
Proof.
  assert (∀ l, String.length (string_of_list_ascii l) = length l) as Hlen
    by (induction l; cbn; congruence).
  assert (∀ l e, (boundary_below l e ≤ e)%nat) as Hb.
  { intros l e. induction e as [|e IH]; cbn; destruct (is_char_boundary _ _); lia. }
  unfold truncate_panic_message, MAX_PANIC_MESSAGE.
  destruct (Nat.ltb_spec 1024 (length (list_ascii_of_string m))) as [|Hle].
  - rewrite Hlen, length_take. specialize (Hb (list_ascii_of_string m) 1024%nat). lia.
  - by rewrite <-(string_of_list_ascii_of_string m), Hlen.
Qed.

(** The bus's reports cannot feed on themselves: delivering a report (a latency, a slow or
    panicked callback, a depth sample, an overflow warning, a failed loop) puts on the ring
    only what its subscribers themselves publish; delivering any other event calls each
    subscriber once, in registration order, and adds per call its latency and, exactly from
    the threshold on, a slow warning, or one panic warning of at most 1024 bytes. *)
Theorem dispatch_reports e b :
  let subscribed := default [] (subscribers b !! event_type e) in
  let b' := dispatch_event clock callback e b in
  (∃ log, Fed log b b' ∧
    signals log = subscribers_signals e (slow_threshold_ms b) (callback_calls b) subscribed ∧
    (is_observability_event (event_type e) = true →
     signals log = publications e (callback_calls b) subscribed)) ∧
  callback_calls b' = callback_calls b + N.of_nat (length subscribed) ∧
  ∀ message, (String.length (truncate_panic_message message) ≤ 1024)%nat.
Proof.
  intros subscribed b'. destruct (gives_subscribers e subscribed b) as (log & F & S & C).
  split_and!; [|done|apply truncate_bounded]. exists log. split_and!; [done..|].
  intros Ho. rewrite S. by apply observability_signals.
Qed.
End Bus.

(** ** Concrete runs *)

Definition demo_envelope (t : EventType) (n : N) : EventEnvelope :=
  mkEnvelope t 1 n (Some n) (PClientFailed ClientLoopFailed).

(** Subscriber 1 takes long and publishes on every call but those with a report. *)
Definition demo_callback (handle calls : N) (e : EventEnvelope) : CallbackOutcome :=
  if is_observability_event (event_type e) then mkOutcome [] (inr 5000000)
  else if handle =? 1 then mkOutcome [demo_envelope ClientFailed calls] (inr 5000000)
  else mkOutcome [] (inl "boom"%string).

Definition demo_data (delivery calls : N) : CallbackOutcome := mkOutcome [] (inr 10).

Definition demo_bus_ops : list BusOp :=
  [OpSubscribe ClientReady 1; OpSubscribe CallbackLatency 1; OpSubscribe ClientReady 2;
   OpPublish (demo_envelope ClientReady 7); OpDispatch false; OpData 1 Ticker 4;
   OpDispatch false; OpDispatch true; OpUnsubscribe 1; OpClose; OpDispatch false].

Definition demo_clock (n : N) : MonotonicInstant := n * 40000000.

Lemma event_bus_accounting_witness :
  let '(sent, received, b) := bus_run demo_clock demo_callback demo_data demo_bus_ops 0
    (bus_new 4 50 100) in
  dropped_count b = 2 ∧
  ∃ fates : list (DispatchItem * bool),
    signals ((fst <$> fates) ++ ring_items (io_to_dispatch b)) = sent ∧
    received_items fates = received ∧
    dropped_count b = N.of_nat (length (evicted fates)) mod (u64_max + 1) ∧
    N.of_nat (length (ring_items (io_to_dispatch b))) ≤ 4.
Proof.
  destruct (bus_run demo_clock demo_callback demo_data demo_bus_ops 0 (bus_new 4 50 100))
    as [[sent received] b] eqn:E.
  split; [|by eapply (event_bus_accounting demo_clock demo_callback demo_data); [|exact E]].
  assert (dropped_count
    (bus_run demo_clock demo_callback demo_data demo_bus_ops 0 (bus_new 4 50 100)).2 = 2) as H
    by (vm_compute; reflexivity).
  rewrite E in H. exact H.
Defined.

Lemma dispatch_reports_witness :
  let b := (subscribe CallbackLatency 1 (bus_new 4 50 100)).2 in
  let e := demo_envelope CallbackLatency 3 in
  ∃ log, Fed log b (dispatch_event demo_clock demo_callback e b) ∧
    signals log = publications demo_callback e 0 [mkSubscriber 1 1].
Proof.
  intros b e. destruct (dispatch_reports demo_clock demo_callback e b)
    as [(log & F & _ & O) _].
  exists log. split; [exact F|]. apply O. vm_compute. reflexivity.
Defined.
