(* ===== verification/Teardowns.v ===== *)
(** * Teardowns: posting to the reactor from destructors

    [rust/src/dispatch/event_bus/mod.rs], the part that moves items from callers to the
    reactor: dropping a guard or a handle cannot wait or fail, so a teardown the bounded
    channel rejects is kept and flushed later.  The channel (tokio's [mpsc]) is a parameter
    with its documented behaviour, as a class.  Destructors run on any thread: a call is a
    machine whose steps are its accesses to the flag, the channel and the locked list, which
    the steps of other calls and of the reactor come between; [post_teardown] and
    [flush_pending_teardowns] are the calls that nothing interrupts. *)

From S2P Require Import Prelude.
Local Open Scope N_scope.

(** ** The caller channel *)

Inductive SendResult (Item : Type) := Sent | Full (item : Item) | Closed (item : Item).
Arguments Sent {Item}.
Arguments Full {Item} item.
Arguments Closed {Item} item.

(** [chan_items] are the sent and not yet received items in order, [chan_room] is
    [Sender::capacity], [chan_closed] that the receiver is gone. *)
Class Channel (Q Item : Type) := {
  chan_items : Q → list Item;
  chan_room : Q → N;
  chan_closed : Q → bool;
  chan_try_send : Item → Q → SendResult Item * Q;
  chan_recv : Q → option Item * Q;
}.

Class ChannelLaws (Q Item : Type) `{Channel Q Item} := {
  send_closed i q : chan_closed q = true → chan_try_send i q = (Closed i, q);
  send_full i q : chan_closed q = false → chan_room q = 0 → chan_try_send i q = (Full i, q);
  send_ok i q : chan_closed q = false → 0 < chan_room q →
    ∃ q', chan_try_send i q = (Sent, q') ∧ chan_items q' = chan_items q ++ [i] ∧
      chan_room q' = chan_room q - 1 ∧ chan_closed q' = false;
  recv_some q i rest : chan_items q = i :: rest →
    ∃ q', chan_recv q = (Some i, q') ∧ chan_items q' = rest ∧
      chan_room q' = chan_room q + 1 ∧ chan_closed q' = chan_closed q;
  recv_none q : chan_items q = [] → chan_recv q = (None, q);
}.

(** ** The operations *)

Inductive PostReject := RejectFull | RejectClosed.

Section Teardowns.
Context {Q Item : Type} `{Channel Q Item}.

Record TeardownState := mkTeardowns {
  td_channel : Q;
  pending_teardowns : list Item;
  has_pending_teardowns : bool;
}.

Definition set_channel (q : Q) (s : TeardownState) : TeardownState :=
  mkTeardowns q (pending_teardowns s) (has_pending_teardowns s).

(** [None] on success, the reason of the rejection otherwise. *)
Definition try_post_caller_inbound_recovering_kind (item : Item) (s : TeardownState)
  : option (Item * PostReject) * TeardownState :=
  let '(r, q) := chan_try_send item (td_channel s) in
  (match r with
   | Sent => None
   | Full i => Some (i, RejectFull)
   | Closed i => Some (i, RejectClosed)
   end, set_channel q s).

(** The queue name of the error. *)
Definition try_post_caller_inbound (item : Item) (s : TeardownState)
  : option string * TeardownState :=
  let '(r, q) := chan_try_send item (td_channel s) in
  (match r with
   | Sent => None
   | Full _ => Some "caller_to_io"%string
   | Closed _ => Some "caller_to_io (closed)"%string
   end, set_channel q s).

Definition requeue_pending_teardowns (items : list Item) (s : TeardownState)
  : TeardownState :=
  let pending := pending_teardowns s ++ items in
  mkTeardowns (td_channel s) pending (match pending with [] => false | _ => true end).

(** A flush, before its next access: the load of the flag, the first look at the room, the
    list drained under its lock, the look at the room before an item, the send of the item,
    what could not be sent put back under the lock. *)
Inductive FlushStep :=
  | FlushFlag
  | FlushRoom
  | FlushDrain
  | FlushNext (items : list Item)
  | FlushSend (item : Item) (rest : list Item)
  | FlushRequeue (items : list Item).

(** One access, with where the flush goes on; [None] is its end. *)
Definition flush_step (reserve : N) (p : FlushStep) (s : TeardownState)
  : option FlushStep * TeardownState :=
  match p with
  | FlushFlag => (if has_pending_teardowns s then Some FlushRoom else None, s)
  | FlushRoom => (if chan_room (td_channel s) <=? reserve then None else Some FlushDrain, s)
  | FlushDrain =>
      (match pending_teardowns s with [] => None | drained => Some (FlushNext drained) end,
       mkTeardowns (td_channel s) [] false)
  | FlushNext [] => (None, s)
  | FlushNext (item :: rest) =>
      (Some (if chan_room (td_channel s) <=? reserve then FlushRequeue (item :: rest)
             else FlushSend item rest), s)
  | FlushSend item rest =>
      let '(r, q) := chan_try_send item (td_channel s) in
      (match r with
       | Sent => Some (FlushNext rest)
       | Closed _ => None
       | Full item => Some (FlushRequeue (item :: rest))
       end, set_channel q s)
  | FlushRequeue items => (None, requeue_pending_teardowns items s)
  end.

Fixpoint run_flush (fuel : nat) (reserve : N) (p : FlushStep) (s : TeardownState)
  : TeardownState :=
  match fuel with
  | O => s
  | S fuel =>
      match flush_step reserve p s with
      | (None, s) => s
      | (Some p, s) => run_flush fuel reserve p s
      end
  end.

(** The flush nothing interrupts: two accesses an item. *)
Definition flush_pending_teardowns_leaving (reserve : N) (s : TeardownState)
  : TeardownState :=
  run_flush (2 * length (pending_teardowns s) + 5) reserve FlushFlag s.

Definition flush_pending_teardowns : TeardownState → TeardownState :=
  flush_pending_teardowns_leaving 0.

Definition post_teardown (item : Item) (s : TeardownState) : TeardownState :=
  let s := flush_pending_teardowns s in
  let '(r, s) := try_post_caller_inbound_recovering_kind item s in
  match r with
  | None => s
  | Some (_, RejectClosed) => s
  | Some (item, RejectFull) => requeue_pending_teardowns [item] s
  end.

(** A call in progress: a flush on its own or for an item to post, the post of the item, or
    its return to the list. *)
Inductive TdCall :=
  | CallFlush (reserve : N) (p : FlushStep) (item : option Item)
  | CallPost (item : Item)
  | CallKeep (item : Item).

Definition call_flush (reserve : N) : TdCall := CallFlush reserve FlushFlag None.
Definition call_post_teardown (item : Item) : TdCall := CallFlush 0 FlushFlag (Some item).

Definition call_step (c : TdCall) (s : TeardownState) : option TdCall * TeardownState :=
  match c with
  | CallFlush reserve p item =>
      let '(p, s) := flush_step reserve p s in
      (match p with
       | Some p => Some (CallFlush reserve p item)
       | None => CallPost <$> item
       end, s)
  | CallPost item =>
      let '(r, s) := try_post_caller_inbound_recovering_kind item s in
      (match r with
       | Some (item, RejectFull) => Some (CallKeep item)
       | _ => None
       end, s)
  | CallKeep item => (None, requeue_pending_teardowns [item] s)
  end.

(** A call while nothing else runs. *)
Fixpoint run_call (fuel : nat) (c : TdCall) (s : TeardownState)
  : option TdCall * TeardownState :=
  match fuel with
  | O => (Some c, s)
  | S fuel =>
      match call_step c s with
      | (None, s) => (None, s)
      | (Some c, s) => run_call fuel c s
      end
  end.

(** The accesses a flush still makes at most. *)
Definition flush_left (p : FlushStep) (s : TeardownState) : nat :=
  match p with
  | FlushFlag => 2 * length (pending_teardowns s) + 5
  | FlushRoom => 2 * length (pending_teardowns s) + 4
  | FlushDrain => 2 * length (pending_teardowns s) + 3
  | FlushNext items => 2 * length items + 2
  | FlushSend _ rest => 2 * length rest + 3
  | FlushRequeue _ => 1
  end.

Lemma flush_step_left reserve p s p' s' :
  flush_step reserve p s = (Some p', s') → (flush_left p' s' < flush_left p s)%nat.
Proof.
  destruct p as [| | |[|item rest]|item rest|items]; cbn [flush_step]; intros E; simplify_eq/=;
    repeat case_match; simplify_eq/=; lia.
Qed.

Lemma flush_alone reserve fuel p s :
  (flush_left p s ≤ fuel)%nat →
  ∃ n, (n ≤ fuel)%nat ∧ ∀ m item, run_call (n + m) (CallFlush reserve p item) s =
    match item with
    | Some i => run_call m (CallPost i) (run_flush fuel reserve p s)
    | None => (None, run_flush fuel reserve p s)
    end.
Proof.
  revert p s. induction fuel as [|fuel IH]; intros p s Hf.
  { destruct p; cbn in Hf; lia. }
  destruct (flush_step reserve p s) as [[p'|] s'] eqn:Hs.
  - apply flush_step_left in Hs as Hl. destruct (IH p' s') as (n & Hn & E); [lia|].
    exists (S n). split; [lia|]. intros m item. cbn [run_flush Nat.add run_call call_step].
    rewrite Hs. apply E.
  - exists 1%nat. split; [lia|]. intros m item. cbn [run_flush Nat.add run_call call_step].
    rewrite Hs. by destruct item.
Qed.

(** The calls are [flush_pending_teardowns_leaving] and [post_teardown] when nothing
    interrupts them. *)
Lemma calls_alone s :
  (∀ reserve, ∃ n, run_call n (call_flush reserve) s =
     (None, flush_pending_teardowns_leaving reserve s)) ∧
  (∀ item, ∃ n, run_call n (call_post_teardown item) s = (None, post_teardown item s)).
Proof.
  split.
  - intros reserve. destruct (flush_alone reserve _ FlushFlag s (Nat.le_refl _)) as (n & _ & E).
    exists (n + 0)%nat. unfold call_flush. by rewrite E.
  - intros item. destruct (flush_alone 0 _ FlushFlag s (Nat.le_refl _)) as (n & _ & E).
    exists (n + 2)%nat. unfold call_post_teardown. rewrite E.
    unfold post_teardown, flush_pending_teardowns, flush_pending_teardowns_leaving.
    cbn [flush_left run_call call_step].
    destruct (try_post_caller_inbound_recovering_kind _ _) as [[[i []]|] s']; done.
Qed.
End Teardowns.
Arguments TeardownState : clear implicits.
Arguments FlushStep : clear implicits.
Arguments TdCall : clear implicits.

(** ** No teardown is lost or overtaken

    The channel also carries the callers' ordinary posts. *)

Section Fifo.
Context {Q A B : Type} `{ChannelLaws Q (A + B)}.

Abbreviation State := (TeardownState Q (A + B)).
Implicit Types (s : State) (items : list (A + B)).

Inductive TdOp :=
  | TdPost (t : A)
  | TdFlush (reserve : N)
  | TdOther (x : B)
  | TdRecv.

(** The operation, with the teardown it posts and the item it receives. *)
Definition td_op (op : TdOp) (s : State) : list A * list (A + B) * State :=
  match op with
  | TdPost t => ([t], [], post_teardown (inl t) s)
  | TdFlush reserve => ([], [], flush_pending_teardowns_leaving reserve s)
  | TdOther x => ([], [], (try_post_caller_inbound (inr x) s).2)
  | TdRecv => let '(i, q) := chan_recv (td_channel s) in
              ([], option_list i, set_channel q s)
  end.

Fixpoint td_run (ops : list TdOp) (s : State) : list A * list (A + B) * State :=
  match ops with
  | [] => ([], [], s)
  | op :: ops =>
      let '(p, r, s) := td_op op s in
      let '(ps, rs, s) := td_run ops s in (p ++ ps, r ++ rs, s)
  end.

Definition teardowns (l : list (A + B)) : list A :=
  l ≫= λ i, match i with inl t => [t] | inr _ => [] end.

(** The teardowns between the posting and the receiving side, in order. *)
Definition in_transit (s : State) : list A :=
  teardowns (chan_items (td_channel s)) ++ teardowns (pending_teardowns s).

Definition td_wf (s : State) : Prop :=
  chan_closed (td_channel s) = false ∧
  has_pending_teardowns s = (match pending_teardowns s with [] => false | _ => true end).

Lemma teardowns_app l1 l2 : teardowns (l1 ++ l2) = teardowns l1 ++ teardowns l2.
Proof. apply bind_app. Qed.

Lemma run_flush_items reserve items s fuel :
  chan_closed (td_channel s) = false → pending_teardowns s = [] →
  has_pending_teardowns s = false → reserve ≤ chan_room (td_channel s) → (2 * length items + 2 ≤ fuel)%nat →
  let s' := run_flush fuel reserve (FlushNext items) s in
  td_wf s' ∧ in_transit s' = teardowns (chan_items (td_channel s)) ++ teardowns items ∧
  reserve ≤ chan_room (td_channel s') ∧
  (pending_teardowns s' = [] ∨ chan_room (td_channel s') = reserve).
Proof using All.
  revert s fuel. induction items as [|i items IH]; intros s fuel Hc Hp Hh Hr Hf;
    (destruct fuel as [|[|fuel]]; [cbn in Hf; lia..|]); cbn [run_flush flush_step].
  { cbn zeta. unfold td_wf, in_transit. rewrite Hp, Hh. split_and!; auto. }
  destruct (N.leb_spec (chan_room (td_channel s)) reserve) as [Hle|Hlt]; cbn [flush_step].
  - unfold requeue_pending_teardowns, td_wf, in_transit. rewrite Hp. cbn.
    split_and!; try done. right. lia.
  - destruct (send_ok i (td_channel s) Hc ltac:(lia)) as (q & Hs & Hi & Hro & Hcl).
    rewrite Hs. destruct (IH (set_channel q s) fuel) as (W & T & R & P); cbn; try done;
      [lia|cbn in Hf; lia|].
    split_and!; try done. rewrite T. cbn. rewrite Hi, teardowns_app, <-app_assoc. by destruct i.
Qed.

Lemma flush_spec reserve s :
  td_wf s →
  let s' := flush_pending_teardowns_leaving reserve s in
  td_wf s' ∧ in_transit s' = in_transit s ∧
  N.min reserve (chan_room (td_channel s)) ≤ chan_room (td_channel s') ∧
  (pending_teardowns s' = [] ∨ chan_room (td_channel s') ≤ reserve).
Proof using All.
  intros Hwf. pose proof Hwf as (Hc & Hh).
  unfold flush_pending_teardowns_leaving. rewrite Nat.add_comm. cbn [Nat.add run_flush flush_step].
  rewrite Hh. destruct (pending_teardowns s) as [|i items] eqn:Hp.
  { cbn. split_and!; auto. lia. }
  cbn [run_flush flush_step].
  destruct (chan_room (td_channel s) <=? reserve) eqn:Hle; cbn [run_flush flush_step].
  { apply N.leb_le in Hle. split_and!; auto. lia. }
  apply N.leb_gt in Hle.
  rewrite Hp. set (s0 := mkTeardowns (td_channel s) [] false).
  destruct (run_flush_items reserve (i :: items) s0 (2 + 2 * length (i :: items)))
    as (W & T & R & P); try done; [by cbn; lia|cbn; lia|].
  split_and!; try done.
  - etrans; [exact T|]. unfold in_transit. by rewrite Hp.
  - etrans; [|exact R]. lia.
  - destruct P as [P|P]; [left; exact P|right]. etrans; [apply N.eq_le_incl, P|done].
Qed.

Lemma td_op_spec op s p r s' :
  td_wf s → td_op op s = (p, r, s') →
  td_wf s' ∧ in_transit s ++ p = teardowns r ++ in_transit s'.
Proof using All.
  intros Hwf. destruct op as [t|reserve|x|]; cbn [td_op].
  - intros [= <- <- <-]. unfold post_teardown, flush_pending_teardowns.
    destruct (flush_spec 0 s Hwf) as (W & T & _ & P). cbn zeta in W, T, P.
    set (s1 := flush_pending_teardowns_leaving 0 s) in *. rewrite <-T. clearbody s1.
    pose proof W as (Hc & Hh). unfold try_post_caller_inbound_recovering_kind.
    destruct (decide (chan_room (td_channel s1) = 0)) as [Hz|Hz].
    + rewrite (send_full (inl t) _ Hc Hz). cbn. unfold td_wf, in_transit. cbn. split.
      * split; [done|by destruct (pending_teardowns s1)].
      * by rewrite teardowns_app, <-app_assoc.
    + destruct P as [P|P]; [|lia].
      destruct (send_ok (inl t) (td_channel s1) Hc ltac:(lia)) as (q & Hs & Hi & _ & Hcl).
      rewrite Hs. cbn. unfold td_wf, in_transit. cbn. rewrite P in *. split; [done|].
      rewrite Hi, teardowns_app. cbn. by rewrite !app_nil_r.
  - intros [= <- <- <-]. destruct (flush_spec reserve s Hwf) as (W & T & _ & _).
    split; [done|]. by rewrite T, app_nil_r.
  - intros [= <- <- <-]. pose proof Hwf as (Hc & Hh).
    unfold try_post_caller_inbound, in_transit.
    destruct (decide (chan_room (td_channel s) = 0)) as [Hz|Hz].
    + rewrite (send_full (inr x) _ Hc Hz). cbn. rewrite app_nil_r. split; [|done]. done.
    + destruct (send_ok (inr x) (td_channel s) Hc ltac:(lia)) as (q & Hs & Hi & _ & Hcl).
      rewrite Hs. cbn. rewrite Hi, teardowns_app. cbn. by rewrite !app_nil_r.
  - pose proof Hwf as (Hc & Hh). unfold in_transit.
    destruct (chan_items (td_channel s)) as [|i rest] eqn:Hi.
    + rewrite recv_none by done. intros [= <- <- <-]. cbn. rewrite Hi, app_nil_r. done.
    + destruct (recv_some _ _ _ Hi) as (q & Hr & Hi' & _ & Hcl). rewrite Hr.
      intros [= <- <- <-]. unfold td_wf. cbn. rewrite Hi', Hcl, !app_nil_r. split; [done|].
      by rewrite <-app_assoc.
Qed.

(** *** Calls of any threads

    [TdWorld] is the shared state with the calls under way, [None] once one has ended. *)

Record TdWorld := mkTdWorld {
  tw_state : State;
  tw_calls : list (option (TdCall (A + B)));
}.

(** A thread starts a call, a call makes its next access, a caller posts, the reactor
    receives. *)
Inductive TdAct :=
  | StartPost (t : A)
  | StartFlush (reserve : N)
  | StepCall (i : nat)
  | OtherPost (x : B)
  | Receive.

Definition td_act (a : TdAct) (w : TdWorld) : list A * list (A + B) * TdWorld :=
  let s := tw_state w in
  match a with
  | StartPost t => ([t], [], mkTdWorld s (tw_calls w ++ [Some (call_post_teardown (inl t))]))
  | StartFlush reserve => ([], [], mkTdWorld s (tw_calls w ++ [Some (call_flush reserve)]))
  | StepCall i =>
      match tw_calls w !! i with
      | Some (Some c) =>
          let '(c, s) := call_step c s in ([], [], mkTdWorld s (<[i := c]> (tw_calls w)))
      | _ => ([], [], w)
      end
  | OtherPost x => ([], [], mkTdWorld (try_post_caller_inbound (inr x) s).2 (tw_calls w))
  | Receive => let '(i, q) := chan_recv (td_channel s) in
               ([], option_list i, mkTdWorld (set_channel q s) (tw_calls w))
  end.

Fixpoint td_acts (acts : list TdAct) (w : TdWorld) : list A * list (A + B) * TdWorld :=
  match acts with
  | [] => ([], [], w)
  | a :: acts =>
      let '(p, r, w) := td_act a w in
      let '(ps, rs, w) := td_acts acts w in (p ++ ps, r ++ rs, w)
  end.

(** What a call has in its hands: it is neither in the list nor in the channel. *)
Definition flush_held (p : FlushStep (A + B)) : list (A + B) :=
  match p with
  | FlushNext items | FlushRequeue items => items
  | FlushSend item rest => item :: rest
  | _ => []
  end.

Definition call_held (c : TdCall (A + B)) : list (A + B) :=
  match c with
  | CallFlush _ p item => flush_held p ++ option_list item
  | CallPost item | CallKeep item => [item]
  end.

Definition held (calls : list (option (TdCall (A + B)))) : list A :=
  teardowns (calls ≫= from_option call_held []).

Lemma flush_step_spec reserve p s p' s' :
  td_wf s → flush_step reserve p s = (p', s') →
  td_wf s' ∧ teardowns (flush_held p) ++ in_transit s ≡ₚ
             teardowns (from_option flush_held [] p') ++ in_transit s'.
Proof using All.
  intros Hwf. pose proof Hwf as (Hc & Hh). unfold in_transit.
  destruct p as [| | |[|item rest]|item rest|items]; cbn [flush_step].
  - intros [= <- <-]. by destruct (has_pending_teardowns s).
  - intros [= <- <-]. by destruct (_ <=? _).
  - intros [= <- <-]. split; [done|]. destruct (pending_teardowns s); cbn; [done|].
    rewrite app_nil_r. apply Permutation_app_comm.
  - intros [= <- <-]. done.
  - intros [= <- <-]. by destruct (_ <=? _).
  - destruct (decide (chan_room (td_channel s) = 0)) as [Hz|Hz].
    + rewrite (send_full item _ Hc Hz). intros [= <- <-]. done.
    + destruct (send_ok item (td_channel s) Hc ltac:(lia)) as (q & Hs & Hi & _ & Hcl).
      rewrite Hs. intros [= <- <-]. split; [done|]. cbn.
      rewrite Hi, teardowns_app. destruct item; cbn; rewrite ?app_nil_r; solve_Permutation.
  - intros [= <- <-]. split; [split; [done|]; by destruct (pending_teardowns s ++ items)|].
    cbn. rewrite teardowns_app. solve_Permutation.
Qed.

Lemma call_step_spec c s c' s' :
  td_wf s → call_step c s = (c', s') →
  td_wf s' ∧ teardowns (call_held c) ++ in_transit s ≡ₚ
             teardowns (from_option call_held [] c') ++ in_transit s'.
Proof using All.
  intros Hwf. pose proof Hwf as (Hc & Hh). destruct c as [reserve p item|item|item]; cbn [call_step].
  - destruct (flush_step reserve p s) as [p' s1] eqn:Hp. intros [= <- <-].
    destruct (flush_step_spec reserve p s p' s1 Hwf Hp) as [W E]. split; [done|].
    cbn. destruct p' as [p'|]; cbn in *; rewrite ?teardowns_app.
    + rewrite <-!app_assoc, (Permutation_app_swap_app (teardowns (flush_held p))), E.
      solve_Permutation.
    + rewrite <-!app_assoc, (Permutation_app_swap_app (teardowns (flush_held p))), E.
      by destruct item.
  - unfold try_post_caller_inbound_recovering_kind, in_transit.
    destruct (decide (chan_room (td_channel s) = 0)) as [Hz|Hz].
    + rewrite (send_full item _ Hc Hz). intros [= <- <-]. done.
    + destruct (send_ok item (td_channel s) Hc ltac:(lia)) as (q & Hs & Hi & _ & Hcl).
      rewrite Hs. intros [= <- <-]. split; [done|]. cbn.
      rewrite Hi, teardowns_app. destruct item; cbn; rewrite ?app_nil_r; solve_Permutation.
  - intros [= <- <-]. apply (flush_step_spec 0 (FlushRequeue [item]) s None); done.
Qed.

Lemma held_insert calls i c c' :
  calls !! i = Some (Some c) →
  ∃ others, held calls ≡ₚ teardowns (call_held c) ++ others ∧
            held (<[i := c']> calls) ≡ₚ teardowns (from_option call_held [] c') ++ others.
Proof.
  intros Hi. pose proof (lookup_lt_Some _ _ _ Hi) as Hlt.
  exists (held (take i calls ++ drop (S i) calls)). unfold held.
  rewrite <-(take_drop_middle calls i (Some c) Hi) at 1.
  rewrite insert_take_drop by done. rewrite !bind_app, !teardowns_app.
  cbn [mbind list_bind]. rewrite !teardowns_app. split; solve_Permutation.
Qed.

Lemma td_act_spec a w p r w' :
  td_wf (tw_state w) → td_act a w = (p, r, w') →
  td_wf (tw_state w') ∧ p ++ held (tw_calls w) ++ in_transit (tw_state w) ≡ₚ
    teardowns r ++ held (tw_calls w') ++ in_transit (tw_state w').
Proof using All.
  intros Hwf. destruct a as [t|reserve|i|x|]; cbn [td_act].
  - intros [= <- <- <-]. split; [done|]. cbn [tw_calls tw_state].
    unfold held. rewrite bind_app, teardowns_app. cbn.
    solve_Permutation.
  - intros [= <- <- <-]. split; [done|]. cbn [tw_calls tw_state].
    unfold held. rewrite bind_app, teardowns_app. cbn.
    by rewrite app_nil_r.
  - destruct (tw_calls w !! i) as [[c|]|] eqn:Hi; try by intros [= <- <- <-].
    destruct (call_step c (tw_state w)) as [c' s'] eqn:Hs. intros [= <- <- <-].
    destruct (call_step_spec _ _ _ _ Hwf Hs) as [W E]. split; [done|].
    destruct (held_insert _ _ _ c' Hi) as (others & E1 & E2). cbn. rewrite E1, E2.
    rewrite <-!app_assoc, (Permutation_app_swap_app (teardowns (call_held c))), E.
    solve_Permutation.
  - intros [= <- <- <-]. destruct (td_op_spec (TdOther x) (tw_state w) [] [] _ Hwf eq_refl) as [W E].
    split; [done|]. cbn in E |- *. by rewrite <-E, app_nil_r.
  - destruct (chan_recv (td_channel (tw_state w))) as [i q] eqn:Hr. intros [= <- <- <-].
    destruct (td_op_spec TdRecv (tw_state w) [] (option_list i) (set_channel q (tw_state w)) Hwf)
      as [W E]; [cbn; by rewrite Hr|].
    split; [done|]. cbn in E |- *. rewrite app_nil_r in E. rewrite E. solve_Permutation.
Qed.

Lemma td_acts_spec acts w p r w' :
  td_wf (tw_state w) → td_acts acts w = (p, r, w') →
  td_wf (tw_state w') ∧ p ++ held (tw_calls w) ++ in_transit (tw_state w) ≡ₚ
    teardowns r ++ held (tw_calls w') ++ in_transit (tw_state w').
Proof using All.
  revert w p r. induction acts as [|a acts IH]; intros w p r Hwf; cbn [td_acts].
  { by intros [= <- <- <-]. }
  destruct (td_act a w) as [[p1 r1] w1] eqn:Ha.
  destruct (td_acts acts w1) as [[ps rs] w2] eqn:Hrun. intros [= <- <- <-].
  destruct (td_act_spec _ _ _ _ _ Hwf Ha) as [W1 E1].
  destruct (IH _ _ _ W1 Hrun) as [W2 E2]. split; [done|].
  rewrite teardowns_app, <-!app_assoc, (Permutation_app_swap_app p1), E1.
  rewrite (Permutation_app_swap_app ps), E2. solve_Permutation.
Qed.

Lemma td_run_spec ops s p r s' :
  td_wf s → td_run ops s = (p, r, s') →
  td_wf s' ∧ in_transit s ++ p = teardowns r ++ in_transit s'.
Proof using All.
  revert s p r. induction ops as [|op ops IH]; intros s p r Hwf; cbn [td_run].
  { intros [= <- <- <-]. by rewrite app_nil_r. }
  destruct (td_op op s) as [[p1 r1] s1] eqn:Ho.
  destruct (td_run ops s1) as [[ps rs] s2] eqn:Hrun. intros [= <- <- <-].
  destruct (td_op_spec op s p1 r1 s1 Hwf Ho) as [W1 E1].
  destruct (IH s1 ps rs W1 Hrun) as [W2 E2]. split; [done|].
  rewrite app_assoc, E1, teardowns_app, <-!app_assoc. by rewrite E2.
Qed.

(** C30: While the reactor lives no teardown is lost or duplicated, whatever threads post and
    flush and wherever their accesses interleave with each other, with ordinary posts and
    with the reactor: at every moment the teardowns posted are exactly those received, those
    in the channel, those listed for later and those in the hands of a call under way, and
    the flag says whether the list is empty.  From there, calls that nothing interrupts also
    keep the order: what is received and what is left is, in this order, what was left and
    what is posted, a flush leaves the room it is asked to leave, and it leaves an item only
    when no more room than that is left; run alone, the calls of the machine are
    [post_teardown] and the flush. *)
Theorem teardowns_accounted (q : Q) acts posted received w :
  chan_closed q = false → chan_items q = [] →
  td_acts acts (mkTdWorld (mkTeardowns q [] false) []) = (posted, received, w) →
  let s := tw_state w in
  posted ≡ₚ teardowns received ++ in_transit s ++ held (tw_calls w) ∧
  has_pending_teardowns s = negb (bool_decide (pending_teardowns s = [])) ∧
  (∀ ops posted' received' s', td_run ops s = (posted', received', s') →
     teardowns received' ++ in_transit s' = in_transit s ++ posted') ∧
  (∀ reserve, let s' := flush_pending_teardowns_leaving reserve s in
     N.min reserve (chan_room (td_channel s)) ≤ chan_room (td_channel s') ∧
     (pending_teardowns s' = [] ∨ chan_room (td_channel s') ≤ reserve) ∧
     ∃ n, run_call n (call_flush reserve) s = (None, s')) ∧
  (∀ item, ∃ n, run_call n (call_post_teardown item) s = (None, post_teardown item s)).
Proof using All.
  intros Hc Hi Hrun s.
  assert (td_wf (mkTeardowns q [] false)) as Hwf by by split.
  destruct (td_acts_spec _ (mkTdWorld (mkTeardowns q [] false) []) _ _ _ Hwf Hrun) as [W E].
  fold s in W, E. split_and!.
  - unfold in_transit in E at 1. cbn in E. rewrite Hi in E. cbn in E. rewrite app_nil_r in E.
    rewrite E. solve_Permutation.
  - destruct W as [_ ->]. by destruct (pending_teardowns s).
  - intros ops p r s' Hops. destruct (td_run_spec _ _ _ _ _ W Hops) as [_ ->]. done.
  - intros reserve s'. destruct (flush_spec reserve s W) as (_ & _ & R & P).
    split_and!; [exact R|exact P|apply (calls_alone s)].
  - apply (calls_alone s).
Qed.
End Fifo.

(** ** A channel *)

Record Fifo (Item : Type) := mkFifo {
  fifo_items : list Item;
  fifo_room : N;
  fifo_closed : bool;
}.
Arguments mkFifo {Item}.
Arguments fifo_items {Item}.
Arguments fifo_room {Item}.
Arguments fifo_closed {Item}.

#[export] Instance fifo_channel Item : Channel (Fifo Item) Item := {
  chan_items := fifo_items;
  chan_room := fifo_room;
  chan_closed := fifo_closed;
  chan_try_send i q :=
    if fifo_closed q then (Closed i, q)
    else if fifo_room q =? 0 then (Full i, q)
    else (Sent, mkFifo (fifo_items q ++ [i]) (fifo_room q - 1) false);
  chan_recv q :=
    match fifo_items q with
    | [] => (None, q)
    | i :: rest => (Some i, mkFifo rest (fifo_room q + 1) (fifo_closed q))
    end;
}.

#[export] Instance fifo_laws Item : ChannelLaws (Fifo Item) Item.
Proof.
  split; cbn.
  - intros i q ->. done.
  - intros i q -> ->. done.
  - intros i q -> Hr. rewrite (proj2 (N.eqb_neq _ 0)) by lia. eauto.
  - intros q i rest ->. eauto.
  - intros q ->. done.
Qed.

(** Three posts with the room of one: 2 is listed, drained by a flush, and finds the room that
    the reactor made taken by 3, which was posted in between. *)
Definition td_demo : list (TdAct (A := N) (B := N)) :=
  [StartPost 1; StepCall 0; StepCall 0; StartPost 2; StepCall 1; StepCall 1; StepCall 1;
   Receive; StartFlush 0; StepCall 2; StepCall 2; StepCall 2; StepCall 2;
   StartPost 3; StepCall 3; StepCall 3; StepCall 2; Receive].

Definition td_start : TdWorld (Q := Fifo (N + N)) (A := N) (B := N) :=
  mkTdWorld (mkTeardowns (mkFifo [] 1 false) [] false) [].

(** The flush of one thread and the post of another: 3 is received although 2, posted
    before it, is not yet; then the flush puts 2 back. *)
Example concurrent_post_overtakes :
  let '(posted, received, w) := td_acts td_demo td_start in
  posted = [1; 2; 3] ∧ received = [inl 1; inl 3] ∧ pending_teardowns (tw_state w) = [] ∧
  tw_calls w = [None; None; Some (CallFlush 0 (FlushRequeue [inl 2]) None); None] ∧
  pending_teardowns (tw_state (td_act (StepCall 2) w).2) = [inl 2].
Proof. vm_compute. repeat split. Qed.

Lemma teardowns_accounted_witness :
  let '(posted, received, w) := td_acts td_demo td_start in
  posted ≡ₚ teardowns received ++ in_transit (tw_state w) ++ held (tw_calls w).
Proof.
  destruct (td_acts td_demo td_start) as [[posted received] w] eqn:Hrun.
  eapply (teardowns_accounted (mkFifo [] 1 false) td_demo posted received w);
    [reflexivity|reflexivity|exact Hrun].
Defined.
