(* ===== verification/Task.v ===== *)
(** * Task: the programs of a caller's request

    A request runs in the caller's task.  A program reads and writes what it shares with
    other requests (the two trackers and the order-id index, each behind a lock, and the
    counter of request ids), logs what it does to the outside, and may stop before its end:
    its future is dropped at an await, or a panic unwinds.  At every await the other tasks
    change the shared state as the environment says, which stands for every interleaving.
    What a program reads from outside is a function of one counter of readings. *)

From Stdlib Require Import Ascii String.
From S2P Require Import Prelude F64 Types Events RateCounter RateLimit Errors Auth Rest Connection Teardowns.
Local Open Scope string_scope.
Local Open Scope N_scope.

(** [types/ids.rs] *)
Inductive AuthProfile := ProfilePublic | SpotV1 | SpotWsV2 | L3WsV2 | FuturesV3.

(** What requests share. *)
Record Shared := mkShared {
  sh_api : ApiTracker;
  sh_trading : TradingTracker;
  sh_index : ClOrdIdPairIndex;
  sh_req_id : N;
}.

(** A signed request's answer: the response, a transport failure, or neither before the
    backstop. *)
Inductive PostAnswer :=
  | PostResponse (v : Json)
  | PostFailed (kind : TransportErrorKind) (transient : bool)
  | PostBackstop.

(** What a request does to the outside and hears from it, in order, with the ids it mints. *)
Inductive Act :=
  | IdMinted (id : string)
  | NonceTaken (nonce : N)
  | HttpGot (path : string) (query : list (string * string))
  | GetAnswered (answer : (TransportErrorKind * bool) + Json)
  | HttpPosted (path body api_key api_sign : string)
  | PostAnswered (answer : PostAnswer)
  | SleepBegun (d : Duration)
  | Published (e : EventEnvelope)
  | FramePosted (req_id : N) (method : string) (op : WsOp) (params : Json)
  | FrameRefused (req_id : N) (reject : PostReject)
  | AbandonPosted (req_id : N)
  | ConnectPosted (url : WsUrl)
  | SubscriberAdded (t : EventType)
  | SubscriberRemoved (t : EventType).

Record TaskWorld := mkTask {
  tw_shared : Shared;
  tw_tick : nat;
  tw_log : list Act;
}.

(** The outside, by reading. *)
Record TaskEnv := mkTaskEnv {
  te_clock : nat → MonotonicInstant;
  te_wall_secs : nat → option N;
  te_jitter : nat → f64;
  te_powi : f64 → Z → f64;
  te_sha256 : list ascii → list N;
  te_hash_order : list TradingKey → list TradingKey;
  te_nonce : nat → N;
  te_uuid : nat → string;
  te_api_warning_pct : nat → f64;
  te_trading_warning_pct : nat → f64;
  te_bus_alive : nat → bool;
  te_get : nat → (TransportErrorKind * bool) + Json;
  te_post : nat → PostAnswer;
  te_queue : nat → option PostReject;
  te_reply : nat → ConnectionErrorKind + WsResponse;
  te_elapsed : nat → bool;
  te_loop_failed : nat → bool;
  te_io_started : nat → bool;
  te_auth_has_subscriptions : nat → bool;
  te_conn_state : nat → ConnectionState;
  te_connect_ok : nat → bool;
  te_auth_send_ready : nat → bool;
  te_open_outcome : nat → bool;
  te_dropped : nat → bool;
  te_others : nat → Shared → Shared;
  te_values_debug : list Json → string;
  te_kind_debug : TransportErrorKind → string;
}.

(** ** The monad *)

Inductive Outcome (A : Type) := Done (a : A) | Dropped | Panicked.
Arguments Done {A} _.
Arguments Dropped {A}.
Arguments Panicked {A}.

Definition Task (A : Type) : Type := TaskWorld → Outcome A * TaskWorld.

#[export] Instance Task_ret : MRet Task := λ A a w, (Done a, w).
#[export] Instance Task_bind : MBind Task := λ A B k m w,
  match m w with
  | (Done a, w') => k a w'
  | (Dropped, w') => (Dropped, w')
  | (Panicked, w') => (Panicked, w')
  end.

(** [?] on a result. *)
Definition try_ {E A B : Type} (m : Task (E + A)) (k : A → Task (E + B)) : Task (E + B) :=
  r ← m; match r with inl e => mret (inl e) | inr a => k a end.

Definition task_when (b : bool) (m : Task ()) : Task () := if b then m else mret tt.

Fixpoint task_each {A} (f : A → Task ()) (l : list A) : Task () :=
  match l with [] => mret tt | a :: l => f a;; task_each f l end.

(** One reading of the environment. *)
Definition read {A} (f : nat → A) : Task A := λ w,
  (Done (f (tw_tick w)), mkTask (tw_shared w) (S (tw_tick w)) (tw_log w)).

Definition act (a : Act) : Task () := λ w,
  (Done tt, mkTask (tw_shared w) (tw_tick w) (tw_log w ++ [a])).

Definition shared {A} (f : Shared → A) : Task A := λ w, (Done (f (tw_shared w)), w).

Definition panic {A} : Task A := λ w, (Panicked, w).

Definition set_shared (s : Shared) : Task () := λ w,
  (Done tt, mkTask s (tw_tick w) (tw_log w)).

Definition set_api (t : ApiTracker) (s : Shared) : Shared :=
  mkShared t (sh_trading s) (sh_index s) (sh_req_id s).
Definition set_trading (t : TradingTracker) (s : Shared) : Shared :=
  mkShared (sh_api s) t (sh_index s) (sh_req_id s).
Definition set_index (ix : ClOrdIdPairIndex) (s : Shared) : Shared :=
  mkShared (sh_api s) (sh_trading s) ix (sh_req_id s).
Definition set_req_id (n : N) (s : Shared) : Shared :=
  mkShared (sh_api s) (sh_trading s) (sh_index s) n.

Section Operations.
Context (env : TaskEnv).

(** [.await] on something outside: the task may be dropped here; otherwise the others have
    run when it resolves. *)
Definition await {A} (answer : nat → A) : Task A := λ w,
  let w' := mkTask (te_others env (tw_tick w) (tw_shared w)) (S (tw_tick w)) (tw_log w) in
  if te_dropped env (tw_tick w) then (Dropped, mkTask (tw_shared w) (S (tw_tick w)) (tw_log w))
  else (Done (answer (tw_tick w)), w').

Definition clock : Task MonotonicInstant := read (te_clock env).

Definition publish_each (es : list EventEnvelope) : Task () := task_each (λ e, act (Published e)) es.

(** ** The trackers and the index *)

Definition api_consume_now (scope : Scope) (cost : f64) (now : MonotonicInstant)
  : Task (RateLimitExceeded + ()) :=
  pct ← read (te_api_warning_pct env);
  warned_at ← clock;
  s ← shared id;
  match api_consume (te_sha256 env) pct scope cost now warned_at (sh_api s) with
  | Some (r, t, es) => set_shared (set_api t s);; publish_each es;; mret r
  | None => panic
  end.

Definition trading_consume_now (scope : Scope) (cost : f64) (now : MonotonicInstant)
  : Task (RateLimitExceeded + ()) :=
  pct ← read (te_trading_warning_pct env);
  evicted_at ← clock;
  warned_at ← clock;
  s ← shared id;
  match trading_consume (te_sha256 env) pct scope cost now evicted_at warned_at (sh_trading s) with
  | Some (r, t, es) => set_shared (set_trading t s);; publish_each es;; mret r
  | None => panic
  end.

Definition charge_account_wide_now (scope : Scope) (cost : f64) (now : MonotonicInstant)
  : Task () :=
  s ← shared id;
  set_shared (set_trading (charge_account_wide scope cost now (sh_trading s)) s).

Definition credit_now (scope : Scope) (cost : f64) (now : MonotonicInstant) : Task () :=
  s ← shared id;
  set_shared (set_trading (trading_credit scope cost now (sh_trading s)) s).

Definition api_snap_now (scope : Scope) (code : string) (now : MonotonicInstant) : Task () :=
  at_ ← clock;
  s ← shared id;
  let '(t, es) := api_snap_to_cap (te_sha256 env) scope code now at_ (sh_api s) in
  set_shared (set_api t s);; publish_each es.

Definition trading_snap_now (scope : Scope) (code : string) (now : MonotonicInstant) : Task () :=
  at_ ← clock;
  s ← shared id;
  let '(t, es) := trading_snap_to_cap (te_sha256 env) (te_hash_order env) scope code now at_
                    (sh_trading s) in
  set_shared (set_trading t s);; publish_each es.

Definition index_insert_now (id : string) (pr : Symbol) (sent_at : MonotonicInstant) : Task () :=
  s ← shared (λ s, s);
  set_shared (set_index (index_insert id pr sent_at (sh_index s)) s).

Definition index_lookup_now (id : string) : Task (option IndexEntry) :=
  s ← shared (λ s, s);
  let '(e, ix) := lookup_and_promote id (sh_index s) in
  set_shared (set_index ix s);; mret e.

(** [fetch_add(1)] *)
Definition next_req_id : Task N :=
  s ← shared id;
  set_shared (set_req_id (u64_wrapping_add (sh_req_id s) 1) s);; mret (sh_req_id s).

End Operations.

(** ** Postconditions over results, shared state and log

    [runs m Q s log]: however the environment answers, [m] started with [s] and [log] ends
    in [Q].  Readings are arbitrary, so the counter is left out. *)

Definition TaskPost (A : Type) : Type := Outcome A → Shared → list Act → Prop.

Definition runs {A} (m : Task A) (Q : TaskPost A) (s : Shared) (log : list Act) : Prop :=
  ∀ w, tw_shared w = s → tw_log w = log →
       Q (m w).1 (tw_shared (m w).2) (tw_log (m w).2).

(** The postcondition of a continuation: a stop is passed on. *)
Definition passing {A B} (Q : TaskPost B) (k : A → Shared → list Act → Prop) : TaskPost A :=
  λ o s log, match o with
             | Done a => k a s log
             | Dropped => Q Dropped s log
             | Panicked => Q Panicked s log
             end.

Section Rules.
Context {A B E : Type}.
Implicit Types (Q : TaskPost A) (s : Shared) (log : list Act).

Lemma runs_ret (a : A) Q s log : Q (Done a) s log → runs (mret a) Q s log.
Proof. by intros H w <- <-. Qed.

Lemma runs_bind (m : Task B) (k : B → Task A) Q s log :
  runs m (passing Q (λ b s' log', runs (k b) Q s' log')) s log → runs (mbind k m) Q s log.
Proof.
  intros H w Hs Hl. specialize (H w Hs Hl). unfold mbind, Task_bind.
  destruct (m w) as [[b| |] w']; simpl in *; [by apply H|done|done].
Qed.

Lemma runs_mono (m : Task A) Q Q' s log :
  runs m Q s log → (∀ o s' log', Q o s' log' → Q' o s' log') → runs m Q' s log.
Proof. intros H HQ w Hs Hl. by apply HQ, H. Qed.

Lemma runs_conj (m : Task A) Q Q' s log :
  runs m Q s log → runs m Q' s log → runs m (λ o s' log', Q o s' log' ∧ Q' o s' log') s log.
Proof. intros H H' w Hs Hl. by split; [apply H|apply H']. Qed.

Lemma runs_read (f : nat → A) Q s log : (∀ n, Q (Done (f n)) s log) → runs (read f) Q s log.
Proof. intros H w <- <-. apply H. Qed.

Lemma runs_shared (f : Shared → A) Q s log : Q (Done (f s)) s log → runs (shared f) Q s log.
Proof. by intros H w <- <-. Qed.

Lemma runs_panic Q s log : Q Panicked s log → runs panic Q s log.
Proof. by intros H w <- <-. Qed.

Lemma runs_await env (f : nat → A) Q s log :
  Q Dropped s log → (∀ n, Q (Done (f n)) (te_others env n s) log) →
  runs (await env f) Q s log.
Proof.
  intros Hd H w <- <-. unfold await. destruct (te_dropped env (tw_tick w)); [done|apply H].
Qed.
End Rules.

Lemma runs_act a (Q : TaskPost ()) s log : Q (Done tt) s (log ++ [a])%list → runs (act a) Q s log.
Proof. by intros H w <- <-. Qed.

Lemma runs_set_shared s' (Q : TaskPost ()) s log : Q (Done tt) s' log → runs (set_shared s') Q s log.
Proof. by intros H w <- <-. Qed.

Lemma runs_when b m (Q : TaskPost ()) s log :
  (if b : bool then runs m Q s log else Q (Done tt) s log) → runs (task_when b m) Q s log.
Proof. destruct b; [done|apply runs_ret]. Qed.

Lemma runs_try {E A B} (m : Task (E + A)) (k : A → Task (E + B)) Q s log :
  runs m (passing Q (λ r s' log', match r with
     | inl e => Q (Done (inl e)) s' log' | inr a => runs (k a) Q s' log' end)) s log →
  runs (try_ m k) Q s log.
Proof.
  intros H. apply runs_bind. eapply runs_mono; [exact H|].
  intros [[e|a]| |] s' log'; simpl; try done. apply runs_ret.
Qed.

Lemma runs_publish_each es (Q : TaskPost ()) s log :
  Q (Done tt) s (log ++ (Published <$> es))%list → runs (publish_each es) Q s log.
Proof.
  revert log. induction es as [|e es IH]; intros log H; simpl.
  - apply runs_ret. by rewrite app_nil_r in H.
  - apply runs_bind, runs_act. simpl. apply IH. by rewrite <-app_assoc.
Qed.
