(* ===== verification/TaskLogic.v ===== *)
(** * TaskLogic: what a program logs

    Rules for the part of the log a program adds, whatever the environment answers and
    however the others change the shared state. *)

From Stdlib Require Import Ascii String.
From S2P Require Import Prelude F64 Types Events RateCounter RateLimit Errors Auth Rest Connection Teardowns Task.
Local Open Scope list_scope.

(** ** [emits]: the outcome and the log added *)

Definition LogPost (A : Type) : Type := Outcome A → list Act → Prop.

Definition emits {A} (m : Task A) (R : LogPost A) : Prop :=
  ∀ w, ∃ seg, tw_log (m w).2 = tw_log w ++ seg ∧ R (m w).1 seg.

(** A continuation after [seg]; a stop is passed on. *)
Definition chained {A B} (R : LogPost B) (k : A → LogPost B → Prop) : LogPost A :=
  λ o seg, match o with
           | Done a => k a (λ o' seg', R o' (seg ++ seg'))
           | Dropped => R Dropped seg
           | Panicked => R Panicked seg
           end.

Section Rules.
Context {A B E : Type}.
Implicit Types (R : LogPost A).

Lemma emits_ret (a : A) R : R (Done a) [] → emits (mret a) R.
Proof. intros H w. exists []. split; [symmetry; apply app_nil_r|apply H]. Qed.

Lemma emits_bind (m : Task B) (k : B → Task A) R :
  emits m (chained R (λ b R', emits (k b) R')) → emits (mbind k m) R.
Proof.
  intros H w. destruct (H w) as (seg & Hl & HR). unfold mbind, Task_bind.
  destruct (m w) as [[b| |] w']; simpl in *; [|exists seg; done|exists seg; done].
  destruct (HR w') as (seg' & Hl' & HR'). exists (seg ++ seg').
  by rewrite Hl', Hl, app_assoc.
Qed.

Lemma emits_mono (m : Task A) R R' :
  emits m R → (∀ o seg, R o seg → R' o seg) → emits m R'.
Proof. intros H HR w. destruct (H w) as (seg & Hl & Ho). exists seg. auto. Qed.

Lemma emits_conj (m : Task A) R R' :
  emits m R → emits m R' → emits m (λ o seg, R o seg ∧ R' o seg).
Proof.
  intros H H' w. destruct (H w) as (seg & Hl & Ho), (H' w) as (seg' & Hl' & Ho').
  exists seg. rewrite Hl in Hl'. apply app_inv_head in Hl' as <-. done.
Qed.

Lemma emits_read (f : nat → A) R : (∀ n, R (Done (f n)) []) → emits (read f) R.
Proof. intros H w. exists []. split; [symmetry; apply app_nil_r|apply H]. Qed.

Lemma emits_shared (f : Shared → A) R : (∀ s, R (Done (f s)) []) → emits (shared f) R.
Proof. intros H w. exists []. split; [symmetry; apply app_nil_r|apply H]. Qed.

Lemma emits_panic R : R Panicked [] → emits panic R.
Proof. intros H w. exists []. split; [symmetry; apply app_nil_r|apply H]. Qed.

Lemma emits_await env (f : nat → A) R :
  R Dropped [] → (∀ n, R (Done (f n)) []) → emits (await env f) R.
Proof.
  intros Hd H w. unfold await. exists []. rewrite app_nil_r.
  destruct (te_dropped env (tw_tick w)); [done|]. split; [done|apply H].
Qed.

Lemma emits_if (b : bool) (m m' : Task A) R :
  (b = true → emits m R) → (b = false → emits m' R) → emits (if b then m else m') R.
Proof. destruct b; auto. Qed.
End Rules.

Lemma emits_act a (R : LogPost ()) : R (Done tt) [a] → emits (act a) R.
Proof. intros H w. by exists [a]. Qed.

Lemma emits_set_shared s (R : LogPost ()) : R (Done tt) [] → emits (set_shared s) R.
Proof. intros H w. exists []. split; [symmetry; apply app_nil_r|apply H]. Qed.

Lemma emits_when b m (R : LogPost ()) :
  (b = true → emits m R) → (b = false → R (Done tt) []) → emits (task_when b m) R.
Proof. intros H H'. destruct b; simpl; [auto|apply emits_ret; auto]. Qed.

Lemma emits_try {E A B} (m : Task (E + A)) (k : A → Task (E + B)) R :
  emits m (chained R (λ r R', match r with
     | inl e => R' (Done (inl e)) [] | inr a => emits (k a) R' end)) →
  emits (try_ m k) R.
Proof.
  intros H. apply emits_bind. eapply emits_mono; [exact H|].
  intros [[e|a]| |] seg; simpl; [|done..]. intros HR. by apply emits_ret.
Qed.

Lemma emits_try_ret {E A B} (r : E + A) (k : A → Task (E + B)) R :
  match r with inl e => R (Done (inl e)) [] | inr a => emits (k a) R end →
  emits (try_ (mret r) k) R.
Proof.
  intros H. apply emits_try, emits_ret. simpl. destruct r; [done|].
  eapply emits_mono; [exact H|done].
Qed.

Lemma emits_publish_each es (R : LogPost ()) :
  R (Done tt) (Published <$> es) → emits (publish_each es) R.
Proof.
  intros H. cut (emits (publish_each es) (λ o seg, o = Done tt ∧ seg = Published <$> es)).
  { intros Hc. eapply emits_mono; [exact Hc|]. by intros o seg [-> ->]. }
  clear. induction es as [|e es IH]; simpl; [by apply emits_ret|].
  apply emits_bind, emits_act. simpl. eapply emits_mono; [exact IH|].
  by intros o seg [-> ->].
Qed.

(** ** [only]: every entry added satisfies a predicate *)

Definition only {A} (p : Act → bool) (m : Task A) : Prop :=
  emits m (λ _ seg, forallb p seg = true).

Section Only.
Context (p : Act → bool).

Lemma only_bind {A B} (m : Task B) (k : B → Task A) :
  only p m → (∀ b, only p (k b)) → only p (mbind k m).
Proof.
  intros H Hk. apply emits_bind. eapply emits_mono; [exact H|].
  intros [b| |] seg; simpl; [|done..]. intros Hs. eapply emits_mono; [apply Hk|].
  intros o seg' Hs'. simpl in *. by rewrite forallb_app, Hs, Hs'.
Qed.

Lemma only_ret {A} (a : A) : only p (mret a).
Proof. by apply emits_ret. Qed.
Lemma only_read {A} (f : nat → A) : only p (read f).
Proof. by apply emits_read. Qed.
Lemma only_shared {A} (f : Shared → A) : only p (shared f).
Proof. by apply emits_shared. Qed.
Lemma only_panic {A} : only p (@panic A).
Proof. by apply emits_panic. Qed.
Lemma only_set_shared s : only p (set_shared s).
Proof. by apply emits_set_shared. Qed.
Lemma only_await {A} env (f : nat → A) : only p (await env f).
Proof. by apply emits_await. Qed.
Lemma only_act a : p a = true → only p (act a).
Proof. intros H. apply emits_act. simpl. by rewrite H. Qed.
Lemma only_when b m : only p m → only p (task_when b m).
Proof. intros H. by apply emits_when. Qed.
Lemma only_try {E A B} (m : Task (E + A)) (k : A → Task (E + B)) :
  only p m → (∀ a, only p (k a)) → only p (try_ m k).
Proof. intros H Hk. apply only_bind; [done|]. intros [e|a]; [apply only_ret|done]. Qed.
Lemma only_publish_each es :
  forallb (λ e, p (Published e)) es = true → only p (publish_each es).
Proof.
  intros H. apply emits_publish_each. induction es; simpl in *; [done|].
  apply andb_true_iff in H as [-> H]. auto.
Qed.
Lemma only_each {A} (f : A → Task ()) l : (∀ a, only p (f a)) → only p (task_each f l).
Proof. intros H. induction l; simpl; [apply only_ret|]. by apply only_bind. Qed.

Lemma only_mono {A} (q : Act → bool) (m : Task A) :
  (∀ a, q a = true → p a = true) → only q m → only p m.
Proof.
  intros Hq H. eapply emits_mono; [exact H|]. intros o seg Hs. simpl in *.
  apply forallb_forall. intros a Ha. apply Hq. by eapply forallb_forall in Hs.
Qed.
End Only.

(** Splits a program of readings, publications and calls into its parts. *)
Ltac only_step :=
  lazymatch goal with
  | |- ∀ _, _ => intros ?
  | |- only _ (mret _) => apply only_ret
  | |- only _ (read _) => apply only_read
  | |- only _ (clock _) => apply only_read
  | |- only _ (shared _) => apply only_shared
  | |- only _ panic => apply only_panic
  | |- only _ (set_shared _) => apply only_set_shared
  | |- only _ (await _ _) => apply only_await
  | |- only _ (try_ _ _) => apply only_try; [|intros ?]
  | |- only _ (mbind _ _) => apply only_bind; [|intros ?]
  | |- only _ (task_when _ _) => apply only_when
  | |- only _ (task_each _ _) => apply only_each; intros ?
  | |- only _ (act _) => apply only_act; reflexivity
  | |- only _ (match ?x with _ => _ end) => destruct x
  end.

Create HintDb task.

Ltac only_tac := repeat first [only_step | solve [eauto with task]].

(** ** [completes]: the program comes to its end whatever happens *)

Definition completes {A} (m : Task A) : Prop := ∀ w, ∃ a, (m w).1 = Done a.

Lemma completes_bind {A B} (m : Task B) (k : B → Task A) :
  completes m → (∀ b, completes (k b)) → completes (mbind k m).
Proof.
  intros H Hk w. destruct (H w) as [b Hb]. unfold mbind, Task_bind.
  destruct (m w) as [o w']; simpl in *. subst. apply Hk.
Qed.

Lemma completes_ret {A} (a : A) : completes (mret a).
Proof. by eexists. Qed.
Lemma completes_read {A} (f : nat → A) : completes (read f).
Proof. by eexists. Qed.
Lemma completes_shared {A} (f : Shared → A) : completes (shared f).
Proof. by eexists. Qed.
Lemma completes_set_shared s : completes (set_shared s).
Proof. by eexists. Qed.
Lemma completes_act a : completes (act a).
Proof. by eexists. Qed.
Lemma completes_when b m : completes m → completes (task_when b m).
Proof. destruct b; [done|]. intros _. apply completes_ret. Qed.
Lemma completes_try {E A B} (m : Task (E + A)) (k : A → Task (E + B)) :
  completes m → (∀ a, completes (k a)) → completes (try_ m k).
Proof. intros H Hk. apply completes_bind; [done|]. intros [e|a]; [apply completes_ret|done]. Qed.
Lemma completes_each {A} (f : A → Task ()) l :
  (∀ a, completes (f a)) → completes (task_each f l).
Proof. intros H. induction l; simpl; [apply completes_ret|]. by apply completes_bind. Qed.

(** A completing program's log part, at the end it comes to. *)
Lemma emits_completes {A} (m : Task A) (R : LogPost A) :
  completes m → emits m (λ o seg, ∀ a, o = Done a → R o seg) → emits m R.
Proof.
  intros Hc H w. destruct (H w) as (seg & Hl & Ho), (Hc w) as [a Ha].
  exists seg. split; [done|]. by eapply Ho.
Qed.

Ltac completes_step :=
  lazymatch goal with
  | |- ∀ _, _ => intros ?
  | |- completes (mret _) => apply completes_ret
  | |- completes (read _) => apply completes_read
  | |- completes (clock _) => apply completes_read
  | |- completes (shared _) => apply completes_shared
  | |- completes (set_shared _) => apply completes_set_shared
  | |- completes (try_ _ _) => apply completes_try; [|intros ?]
  | |- completes (mbind _ _) => apply completes_bind; [|intros ?]
  | |- completes (task_when _ _) => apply completes_when
  | |- completes (task_each _ _) => apply completes_each; intros ?
  | |- completes (publish_each _) => apply completes_each; intros ?
  | |- completes (act _) => apply completes_act
  | |- completes (match ?x with _ => _ end) => destruct x
  end.

Ltac completes_tac := repeat first [completes_step | solve [eauto with task]].
