(* ===== verification/RestSurface.v ===== *)
(** * RestSurface: the REST pipeline of a request

    [rust/src/rest/surface.rs]: one attempt charges the trackers, takes the nonce gate,
    signs, sends, parses and snaps; the retry loop repeats it; the reconciliation walk asks
    for an order by its client id.  Programs of [Task]. *)

From Stdlib Require Import Ascii String.
From S2P Require Import Prelude F64 Types Events RateCounter RateLimit Errors Auth Rest Connection Teardowns Task.
Local Open Scope string_scope.
Local Open Scope N_scope.

(** The surface's configuration: credentials and signers, the retry engine, whether a bus
    is wired, and the [Debug] text of a profile. *)
Record RestSurface := mkSurface {
  rs_auth : @AuthStack AuthProfile string string;
  rs_engine : RetryEngine;
  rs_has_bus : bool;
  rs_profile_debug : AuthProfile → string;
}.

Section Surface.
Context (env : TaskEnv) (rest : RestSurface).

Definition rest_api_key : option ApiKey := stack_api_key (rs_auth rest).

(** [publish_event] *)
Definition publish_event (t : EventType) (p : EventPayload) : Task () :=
  if rs_has_bus rest then
    at_ ← clock env; act (Published (mkEnvelope t 1 at_ None p))
  else mret tt.

(** Stage 1 of an attempt: charge before anything is signed. *)
Definition charge_cost (cost : RateLimitCost) : Task (RestError + ()) :=
  match rest_api_key with
  | None => mret (inr tt)
  | Some key =>
      now ← clock env;
      match cost with
      | CostApi c =>
          r ← api_consume_now env (ScopeApiKey key) c now;
          mret (match r with inl e => inl (RestRateLimit e) | inr _ => inr tt end)
      | CostTrading c p =>
          r ← trading_consume_now env (ScopePair key p) c now;
          mret (match r with inl e => inl (RestRateLimit e) | inr _ => inr tt end)
      | CostTradingAccountWide c =>
          charge_account_wide_now (ScopeApiKey key) c now;; mret (inr tt)
      | CostNone => mret (inr tt)
      end
  end.

(** [nonce_send_gate.lock().await]: holding it excludes the other senders, not the other
    users of the shared state. *)
Definition nonce_gate : Task () := await env (λ _, tt).

Definition sign_request (profile : AuthProfile) (path : string) (form : list (string * string))
  : Task (RestError + SignedForm) :=
  nonce ← read (te_nonce env);
  let '(r, taken) := sign_form id (rs_profile_debug rest) (rs_auth rest) nonce profile path form in
  task_when taken (act (NonceTaken nonce));;
  mret (match r with inl e => inl (RestAuth e) | inr f => inr f end).

(** What the answer of a signed request comes to. *)
Definition post_result (answer : PostAnswer) : RestError + Json :=
  match answer with
  | PostResponse v => parse_kraken_envelope (te_values_debug env) v
  | PostFailed kind transient => inl (RestTransport kind transient)
  | PostBackstop => inl (RestTransport RequestSentNoResponse true)
  end.

(** The transport call under the backstop. *)
Definition send_signed (path : string) (f : SignedForm) : Task (RestError + Json) :=
  act (HttpPosted path (form_body f) (api_key_header f) (api_sign_header f));;
  answer ← await env (te_post env);
  act (PostAnswered answer);;
  mret (post_result answer).

(** The first code of the API family snaps the API counter. *)
Fixpoint snap_api (key : ApiKey) (now : MonotonicInstant) (codes : list string) : Task () :=
  match codes with
  | [] => mret tt
  | code :: codes =>
      match classify_rate_limit_snap code with
      | Some Api => api_snap_now env (ScopeApiKey key) code now
      | _ => snap_api key now codes
      end
  end.

Definition snap_rejection (r : RestError + Json) : Task () :=
  match r, rest_api_key with
  | inl (RestKraken codes), Some key => now ← clock env; snap_api key now codes
  | _, _ => mret tt
  end.

Definition signed_post_costed_once (path : string) (form : list (string * string))
  (profile : AuthProfile) (cost : RateLimitCost) : Task (RestError + Json) :=
  try_ (charge_cost cost) (λ _,
    nonce_gate;;
    try_ (sign_request profile path form) (λ f,
      r ← send_signed path f;
      snap_rejection r;; mret r)).

Definition get_result (answer : (TransportErrorKind * bool) + Json) : RestError + Json :=
  match answer with
  | inr v => parse_kraken_envelope (te_values_debug env) v
  | inl (kind, transient) => inl (RestTransport kind transient)
  end.

Definition public_get_once (path : string) (query : list (string * string))
  : Task (RestError + Json) :=
  act (HttpGot path query);;
  answer ← await env (te_get env);
  act (GetAnswered answer);;
  mret (get_result answer).

(** ** Stage 6: the retry loop *)

(** [compute_retry_backoff] over the state of the moment: the definition of [Rest] in an
    environment made of one reading. *)
Definition backoff_now (attempt : N) (reason : RetryReason) (err : RestError)
  (cost : RateLimitCost) : Task Duration :=
  unit ← read (te_jitter env);
  now ← clock env;
  wall ← read (te_wall_secs env);
  api ← shared sh_api;
  mret (compute_retry_backoff
          (mkRetryEnv (λ _, inr JNull) (λ _, api) (λ _, now) (λ _, now) (λ _, wall) (λ _, unit)
             (te_powi env))
          (rs_engine rest) rest_api_key attempt reason err cost).

Definition emit_retry_attempt (endpoint request_id : string) (attempt : N) (backoff : Duration)
  (reason : RetryReason) : Task () :=
  publish_event RestRetryAttempt
    (PRestRetryAttempt endpoint (Some request_id) attempt
       ((backoff / 1000000) mod (u64_max + 1)) reason).

Definition emit_poisoned (endpoint : string) : Task () :=
  match rest_api_key with
  | Some key => publish_event NoncePoisonedEvent
                  (PNoncePoisoned (derive_key_fingerprint (te_sha256 env) key) endpoint)
  | None => mret tt
  end.

Section Loop.
Context (endpoint : string) (cost : RateLimitCost) (retry : RetryPolicy) (request_id : string)
  (run_once : Task (RestError + Json)).

Definition max_attempts : N := attempt_budget (rs_engine rest) retry.

(** The loop after [attempt] attempts; it panics when the fuel runs out. *)
Fixpoint request_loop (fuel : nat) (attempt nonce_retries : N) : Task (RestError + Json) :=
  match fuel with
  | O => panic
  | S fuel =>
      let attempt := u32_wrapping_add attempt 1 in
      r ← run_once;
      match r with
      | inr value => mret (inr value)
      | inl err =>
          match classify err retry with
          | NonTransient | AmbiguousOrderPlacement => mret (inl err)
          | Retry reason =>
              let again nonce_retries :=
                backoff ← backoff_now attempt reason err cost;
                act (SleepBegun backoff);;
                await env (λ _, tt);;
                emit_retry_attempt endpoint request_id (u32_wrapping_add attempt 1) backoff reason;;
                request_loop fuel attempt nonce_retries in
              if decide (reason = RrInvalidNonce) then
                if 1 <=? nonce_retries then
                  task_when (engine_nonce_recovery (rs_engine rest)) (emit_poisoned endpoint);;
                  mret (inl err)
                else again (nonce_retries + 1)
              else if max_attempts <=? attempt then mret (inl err)
              else again nonce_retries
          end
      end
  end.

Definition run_request_loop : Task (RestError + Json) :=
  request_loop (S (S (N.to_nat max_attempts))) 0 0.
End Loop.

Definition public_get (path : string) (query : list (string * string)) (retry : RetryPolicy)
  (request_id : string) : Task (RestError + Json) :=
  run_request_loop path CostNone retry request_id (public_get_once path query).

Definition signed_post_costed (path : string) (form : list (string * string))
  (profile : AuthProfile) (cost : RateLimitCost) (retry : RetryPolicy) (request_id : string)
  : Task (RestError + Json) :=
  run_request_loop path cost retry request_id (signed_post_costed_once path form profile cost).

Definition signed_post (path : string) (form : list (string * string)) (profile : AuthProfile)
  (request_id : string) : Task (RestError + Json) :=
  signed_post_costed path form profile (CostApi f64_one) idempotent request_id.

(** [mint_request_id]: a UUID. *)
Definition mint_request_id : Task string :=
  id ← read (te_uuid env);
  act (IdMinted id);; mret id.

(** ** Reconciliation *)

Definition parse_order_status (s : string) : OrderStatus :=
  if decide (s = "pending") then StPending
  else if decide (s = "open") then StOpen
  else if decide (s = "closed") then StClosed
  else if decide (s = "canceled") then StCanceled
  else if decide (s = "expired") then StExpired
  else StUnknown.

(** The first entry of the map: objects iterate in key order, which is how a [Json] object
    lists its fields. *)
Definition first_order_in_map (result : Json) (wrapper : string)
  : option (string * OrderStatus) :=
  match json_get wrapper result with
  | Some (JObject ((txid, row) :: _)) =>
      if decide (txid = "") then None
      else Some (txid, match json_get "status" row ≫= json_as_str with
                       | Some s => parse_order_status s
                       | None => StUnknown
                       end)
  | _ => None
  end.

(** One leg of the walk; the error carries the leg's id. *)
Definition order_leg (path cl_ord_id : string) : Task ((string * RestError) + Json) :=
  request_id ← mint_request_id;
  r ← signed_post_costed path [("cl_ord_id", cl_ord_id)] SpotV1 (CostApi f64_two) idempotent
        request_id;
  mret (match r with inl e => inl (request_id, e) | inr v => inr v end).

Definition walk_reconciliation (cl_ord_id : string)
  : Task ((string * RestError) + ReconciliationOutcome) :=
  try_ (order_leg "/0/private/OpenOrders" cl_ord_id) (λ open,
    match first_order_in_map open "open" with
    | Some (txid, st) => mret (inr (OrderFound txid st LifeOpen))
    | None =>
        try_ (order_leg "/0/private/ClosedOrders" cl_ord_id) (λ closed,
          match first_order_in_map closed "closed" with
          | Some (txid, st) => mret (inr (OrderFound txid st LifeClosed))
          | None => mret (inr OrderNotPlaced)
          end)
    end).

Definition emit_reconciliation (cl_ord_id : string) (outcome : ReconciliationOutcome) : Task () :=
  publish_event OrderReconciliationEvent (POrderReconciliation cl_ord_id outcome).

Definition find_order_by_cl_ord_id (cl_ord_id : string)
  : Task ((string * RestError) + ReconciliationOutcome) :=
  try_ (walk_reconciliation cl_ord_id) (λ outcome,
    emit_reconciliation cl_ord_id outcome;; mret (inr outcome)).

(** ** The order events *)

Definition emit_order_submitted (cl_ord_id : string) (amend_id : option string) (op : OrderOp)
  (status : OrderSubmitStatus) (request_id : option string) : Task () :=
  publish_event OrderSubmittedEvent
    (POrderSubmitted cl_ord_id amend_id op status request_id).

Definition emit_placement_ambiguous (cl_ord_id : string) (amend_id : option string)
  (op : OrderOp) (sent_at : MonotonicInstant) (request_id : option string) : Task () :=
  publish_event OrderPlacementAmbiguousEvent
    (POrderPlacementAmbiguous cl_ord_id amend_id op sent_at request_id).

End Surface.
