(* ===== verification/Sample.v ===== *)
(** * Sample: one concrete environment of requests

    An environment in which nothing interferes and every answer is a success, with a surface
    that can sign; the examples vary it. *)

From Stdlib Require Import Ascii String.
From stdpp Require Import pretty.
From S2P Require Import Prelude F64 Types Events RateCounter RateLimit Knobs Errors Auth Rest Dispatch TradeError WireTime OrderTypes Connection Teardowns Task RestSurface.
Local Open Scope string_scope.
Local Open Scope N_scope.

Definition sample_shared : Shared :=
  mkShared (mkApi Starter ∅) (trading_with_lru_cap Starter 8) (index_new 8) 1.

Definition sample_world : TaskWorld := mkTask sample_shared 0 [].

(** The environment with the given answers, interruptions and queue. *)
Definition sample_env (post : nat → PostAnswer) (queue : nat → option PostReject)
  (reply : nat → ConnectionErrorKind + WsResponse) (dropped : nat → bool) : TaskEnv := {|
  te_clock := λ n, N.min (N.of_nat n) 1000;
  te_wall_secs := λ _, Some 0;
  te_jitter := λ _, f64_one;
  te_powi := λ _ _, f64_one;
  te_sha256 := λ _, [];
  te_hash_order := id;
  te_nonce := λ n, N.of_nat n;
  te_uuid := λ _, "id";
  te_api_warning_pct := λ _, f64_one;
  te_trading_warning_pct := λ _, f64_one;
  te_bus_alive := λ _, true;
  te_get := λ _, inr (JObject [("result", JNull)]);
  te_post := post;
  te_queue := queue;
  te_reply := reply;
  te_elapsed := λ _, false;
  te_loop_failed := λ _, false;
  te_io_started := λ _, true;
  te_auth_has_subscriptions := λ _, false;
  te_conn_state := λ _, Open;
  te_connect_ok := λ _, true;
  te_auth_send_ready := λ _, true;
  te_open_outcome := λ _, true;
  te_dropped := dropped;
  te_others := λ _ s, s;
  te_values_debug := λ _, "";
  te_kind_debug := λ _, "";
|}.

Definition sample_answer : PostAnswer :=
  PostResponse (JObject [("result", JObject [("txid", JArray [JString "T"])])]).

(** Every answer a success and no interruption. *)
Definition calm : TaskEnv :=
  sample_env (λ _, sample_answer) (λ _, None)
    (λ n, inr (mkWsResponse 1 true (JObject [("order_id", JString "T")]) None))
    (λ _, false).

Definition sample_rest : RestSurface := {|
  rs_auth := mkAuthStack (Some "key") None
               (λ _, Some (λ n _ _, inr (mkSigned "key" "sign" n)));
  rs_engine := engine_from_knobs defaults;
  rs_has_bus := true;
  rs_profile_debug := λ _, "SpotV1";
|}.

(** Whole numbers for decimals, and a market order with an id. *)
Definition whole_decimal : DecimalOps Z := {|
  dec_to_string := pretty;
  dec_is_sign_negative := λ z, (z <? 0)%Z;
  dec_is_positive := λ z, (0 <? z)%Z;
|}.

Definition sample_order : OrderRequest Z := or_with_cl_ord_id "cl" (order_new "BTC/USD" 1%Z Buy).
