(* ===== verification/RestSurfaceProps.v ===== *)
(** * RestSurfaceProps: what the REST pipeline does, and in which order *)

From Stdlib Require Import Ascii String.
From S2P Require Import Prelude F64 Types Events RateCounter RateLimit Errors Auth Rest Connection Teardowns Task TaskLogic RestSurface Sample.
Local Open Scope string_scope.
Local Open Scope list_scope.

(** ** Kinds of entries *)

(** The lifecycle of an order. *)
Definition order_event (e : EventEnvelope) : bool :=
  match event_type e with
  | OrderSubmittedEvent | OrderPlacementAmbiguousEvent | OrderCancellationAttempted => true
  | _ => false
  end.

(** What accompanies a request without being part of it. *)
Definition background (a : Act) : bool :=
  match a with
  | Published e => negb (order_event e)
  | SleepBegun _ => true
  | _ => false
  end.

(** An order frame or post that reached its queue or transport. *)
Definition is_send (a : Act) : bool :=
  match a with HttpPosted _ _ _ _ | FramePosted _ _ _ _ => true | _ => false end.

(** How many entries satisfy [p]. *)
Definition tally (p : Act → bool) (seg : list Act) : nat := length (List.filter p seg).

Lemma tally_cons p a l : tally p (a :: l) = ((if p a then 1 else 0) + tally p l)%nat.
Proof. unfold tally. simpl. by destruct (p a). Qed.

Lemma tally_app p l l' : tally p (l ++ l') = (tally p l + tally p l')%nat.
Proof. unfold tally. by rewrite List.filter_app, length_app. Qed.

Lemma tally_none p q l : (∀ a, q a = true → p a = false) → forallb q l = true → tally p l = 0%nat.
Proof.
  intros H. unfold tally. induction l as [|a l IH]; simpl; [done|].
  intros [Ha Hl]%andb_true_iff. rewrite (H a Ha). auto.
Qed.

Lemma background_no_send l : forallb background l = true → tally is_send l = 0%nat.
Proof. apply tally_none. by intros []. Qed.

(** ** The trackers only report rates *)

Lemma publications_background es :
  Forall (λ e, order_event e = false) es →
  forallb (λ e, background (Published e)) es = true.
Proof. induction 1 as [|e es He _ IH]; [done|]. cbn. by rewrite He. Qed.

Lemma rate_events_background :
  (∀ sha256 at_ tracker scope used cap_ pct decay secs,
     order_event (publish_rate_limit_warning sha256 at_ tracker scope used cap_ pct decay secs)
     = false) ∧
  (∀ sha256 at_ tracker scope code now,
     order_event (publish_rate_limit_exceeded sha256 at_ tracker scope code now) = false) ∧
  (∀ sha256 at_ scope, order_event (publish_eviction sha256 at_ scope) = false).
Proof.
  unfold publish_rate_limit_warning, publish_rate_limit_exceeded, publish_eviction.
  split_and!; intros; by destruct (redacted_id _ _).
Qed.

Ltac rates := repeat constructor; apply rate_events_background.

Section Trackers.
Context (env : TaskEnv).

Lemma charge_and_report_background sha256 tracker scope cap_ pct cost now warned_at c r c' es :
  charge_and_report sha256 tracker scope cap_ pct cost now warned_at c = Some (r, c', es) →
  Forall (λ e, order_event e = false) es.
Proof.
  unfold charge_and_report. intros Hc. repeat case_match; simplify_option_eq; rates.
Qed.

Lemma api_consume_background scope cost now : only background (api_consume_now env scope cost now).
Proof.
  unfold api_consume_now. do 3 (apply only_bind; [only_tac|intros ?]).
  destruct (api_consume _ _ _ _ _ _ _) as [[[r t] es]|] eqn:Hc; [|only_tac].
  apply only_bind; [only_tac|intros _]. apply only_bind; [|only_tac].
  apply only_publish_each, publications_background. unfold api_consume in Hc.
  destruct scope as [k|k p]; [|by simplify_eq; constructor].
  apply bind_Some in Hc as (((r' & c') & es') & Hc & [= <- <- <-]).
  by eapply charge_and_report_background.
Qed.

Lemma trading_consume_background scope cost now :
  only background (trading_consume_now env scope cost now).
Proof.
  unfold trading_consume_now. do 4 (apply only_bind; [only_tac|intros ?]).
  destruct (trading_consume _ _ _ _ _ _ _ _) as [[[r t] es]|] eqn:Hc; [|only_tac].
  apply only_bind; [only_tac|intros _]. apply only_bind; [|only_tac].
  apply only_publish_each, publications_background. unfold trading_consume in Hc.
  destruct scope as [k|k p]; [by simplify_eq; constructor|].
  destruct (touch_lru _ _ _ _ _) as [evicted t1].
  apply bind_Some in Hc as (c & _ & Hc).
  apply bind_Some in Hc as (((r' & c') & es') & Hc & [= <- <- <-]).
  apply Forall_app. split; [|by eapply charge_and_report_background].
  destruct evicted; rates.
Qed.

Lemma api_snap_background scope code now : only background (api_snap_now env scope code now).
Proof.
  unfold api_snap_now. do 2 (apply only_bind; [only_tac|intros ?]).
  destruct (api_snap_to_cap _ _ _ _ _ _) as [t es] eqn:Hc.
  apply only_bind; [only_tac|intros _]. apply only_publish_each, publications_background.
  unfold api_snap_to_cap in Hc. destruct scope; simplify_eq; rates.
Qed.

Lemma trading_snap_background scope code now :
  only background (trading_snap_now env scope code now).
Proof.
  unfold trading_snap_now. do 2 (apply only_bind; [only_tac|intros ?]).
  destruct (trading_snap_to_cap _ _ _ _ _ _ _) as [t es] eqn:Hc.
  apply only_bind; [only_tac|intros _]. apply only_publish_each, publications_background.
  unfold trading_snap_to_cap in Hc. destruct scope; simplify_eq; rates.
Qed.

Lemma charge_account_background scope cost now :
  only background (charge_account_wide_now scope cost now).
Proof. unfold charge_account_wide_now. only_tac. Qed.

Lemma credit_background scope cost now : only background (credit_now scope cost now).
Proof. unfold credit_now. only_tac. Qed.
End Trackers.

Section Completes.
Context (env : TaskEnv).

Lemma api_snap_completes scope code now : completes (api_snap_now env scope code now).
Proof. unfold api_snap_now. completes_tac. Qed.

Lemma trading_snap_completes scope code now : completes (trading_snap_now env scope code now).
Proof. unfold trading_snap_now. completes_tac. Qed.

Lemma index_insert_completes c pr at_ : completes (index_insert_now c pr at_).
Proof. unfold index_insert_now. completes_tac. Qed.

Lemma index_lookup_completes c : completes (index_lookup_now c).
Proof. unfold index_lookup_now. completes_tac. Qed.
End Completes.

#[export] Hint Resolve api_snap_completes trading_snap_completes index_insert_completes
  index_lookup_completes : task.
#[export] Hint Resolve api_consume_background trading_consume_background api_snap_background
  trading_snap_background charge_account_background credit_background : task.

(** ** One attempt *)

(** What the answers heard come to, and the ids minted, in order. *)
Definition heard (env : TaskEnv) (seg : list Act) : list (RestError + Json) :=
  omap (λ a, match a with
             | PostAnswered x => Some (post_result env x)
             | GetAnswered x => Some (get_result env x)
             | _ => None
             end) seg.

Definition minted (seg : list Act) : list string :=
  omap (λ a, match a with IdMinted id => Some id | _ => None end) seg.

Lemma heard_app env l l' : heard env (l ++ l') = heard env l ++ heard env l'.
Proof. apply omap_app. Qed.

Lemma minted_app l l' : minted (l ++ l') = minted l ++ minted l'.
Proof. apply omap_app. Qed.

Lemma background_heard env l : forallb background l = true → heard env l = [].
Proof.
  induction l as [|a l IH]; [done|]. intros [Ha Hl]%andb_true_iff. destruct a; try done; exact (IH Hl).
Qed.

Lemma background_minted l : forallb background l = true → minted l = [].
Proof.
  induction l as [|a l IH]; [done|]. intros [Ha Hl]%andb_true_iff. destruct a; try done; exact (IH Hl).
Qed.

(** The request was certainly not sent. *)
Definition not_sent (e : RestError) : bool :=
  match e with RestRateLimit _ | RestAuth _ => true | _ => false end.

Lemma parse_kraken_envelope_sent debug v e :
  parse_kraken_envelope debug v = inl e → not_sent e = false.
Proof. unfold parse_kraken_envelope. intros He. repeat case_match; by simplify_eq. Qed.

Lemma post_result_sent env a e : post_result env a = inl e → not_sent e = false.
Proof.
  unfold post_result. destruct a; intros H; simplify_eq; [|done..].
  by eapply parse_kraken_envelope_sent.
Qed.

Section Attempt.
Context (env : TaskEnv) (rest : RestSurface).

Lemma clock_background : only background (clock env).
Proof. apply only_read. Qed.

Lemma publish_event_background t p :
  order_event (mkEnvelope t 1 0%N None p) = false → only background (publish_event env rest t p).
Proof.
  intros H. unfold publish_event. destruct (rs_has_bus rest); [|only_tac].
  apply only_bind; [apply clock_background|]. intros at_. apply only_act.
  unfold background, order_event in *. cbn in *. by rewrite H.
Qed.

Lemma charge_cost_background cost : only background (charge_cost env rest cost).
Proof.
  unfold charge_cost. destruct (rest_api_key rest) as [key|]; [|only_tac].
  apply only_bind; [apply clock_background|]. intros now.
  destruct cost; only_tac; auto with task.
Qed.

Lemma charge_cost_errors cost :
  emits (charge_cost env rest cost) (λ o _, ∀ e, o = Done (inl e) → not_sent e = true).
Proof.
  unfold charge_cost. destruct (rest_api_key rest) as [key|]; [|by apply emits_ret].
  apply emits_bind, emits_read. intros n. cbn.
  destruct cost; try by apply emits_ret.
  all: apply emits_bind; eapply emits_mono;
    [first [apply api_consume_background|apply trading_consume_background]|];
    intros [[e|]| |] seg _; cbn; try done; apply emits_ret; naive_solver.
Qed.

Lemma snap_api_background key now codes : only background (snap_api env key now codes).
Proof. induction codes; cbn; only_tac. Qed.

Lemma snap_api_completes key now codes : completes (snap_api env key now codes).
Proof. induction codes; cbn; completes_tac. Qed.

Hint Resolve snap_api_background snap_api_completes : task.

Lemma snap_rejection_background r : only background (snap_rejection env rest r).
Proof. unfold snap_rejection. only_tac. Qed.

Lemma snap_rejection_completes r : completes (snap_rejection env rest r).
Proof. unfold snap_rejection. completes_tac. Qed.

(** What a signed attempt leaves between the background: nothing, a nonce whose signature
    failed, or a nonce, at once the post signed with it, and the answer it returns. *)
Inductive attempt_sends (path : string) (form : list (string * string)) (profile : AuthProfile)
  : Outcome (RestError + Json) → list Act → Prop :=
  | attempt_refused e : not_sent e = true → attempt_sends path form profile (Done (inl e)) []
  | attempt_stopped o : (∀ r, o ≠ Done r) → attempt_sends path form profile o []
  | attempt_unsigned a n :
      attempt_sends path form profile (Done (inl (RestAuth a))) [NonceTaken n]
  | attempt_posted n f o :
      sign_form id (rs_profile_debug rest) (rs_auth rest) n profile path form = (inr f, true) →
      (∀ r, o ≠ Done r) →
      attempt_sends path form profile o
        [NonceTaken n; HttpPosted path (form_body f) (api_key_header f) (api_sign_header f)]
  | attempt_answered n f answer :
      sign_form id (rs_profile_debug rest) (rs_auth rest) n profile path form = (inr f, true) →
      attempt_sends path form profile (Done (post_result env answer))
        [NonceTaken n; HttpPosted path (form_body f) (api_key_header f) (api_sign_header f);
         PostAnswered answer].

Definition attempt_contract path form profile (o : Outcome (RestError + Json)) (seg : list Act)
  : Prop :=
  ∃ before sent after, seg = before ++ sent ++ after ∧
    forallb background before = true ∧ forallb background after = true ∧
    attempt_sends path form profile o sent ∧ (sent = [] → after = []).

Lemma sign_request_contract path form profile :
  emits (sign_request env rest profile path form) (λ o seg,
    match o with
    | Done (inl e) => not_sent e = true ∧ (seg = [] ∨ ∃ a n, e = RestAuth a ∧ seg = [NonceTaken n])
    | Done (inr f) => ∃ n, seg = [NonceTaken n] ∧
        sign_form id (rs_profile_debug rest) (rs_auth rest) n profile path form = (inr f, true)
    | _ => False
    end).
Proof.
  unfold sign_request. apply emits_bind, emits_read. intros n. cbn.
  destruct (sign_form _ _ _ _ _ _ _) as [r taken] eqn:Hs.
  apply emits_bind, emits_when; intros ->; cbn.
  - apply emits_act. cbn. apply emits_ret. destruct r as [a|f]; cbn; [|by exists (te_nonce env n)].
    split; [done|]. right. by eexists _, _.
  - apply emits_ret. destruct r as [a|f]; cbn; [auto|].
    revert Hs. unfold sign_form. intros Hs. repeat case_match; simplify_eq.
Qed.

Lemma send_signed_contract path f :
  emits (send_signed env path f) (λ o seg,
    let posted := HttpPosted path (form_body f) (api_key_header f) (api_sign_header f) in
    match o with
    | Done r => ∃ answer, seg = [posted; PostAnswered answer] ∧ r = post_result env answer
    | Dropped => seg = [posted]
    | Panicked => False
    end).
Proof.
  unfold send_signed. apply emits_bind, emits_act. cbn.
  apply emits_bind, emits_await; cbn; [done|]. intros n.
  apply emits_bind, emits_act. apply emits_ret. cbn. by eexists.
Qed.

Lemma attempt_silent path form profile o before :
  forallb background before = true → attempt_sends path form profile o [] →
  attempt_contract path form profile o before.
Proof. intros Hb Ho. exists before, [], []. by rewrite app_nil_r. Qed.

Lemma attempt_spoke path form profile o before sent after :
  forallb background before = true → forallb background after = true →
  attempt_sends path form profile o sent → sent ≠ [] →
  attempt_contract path form profile o (before ++ sent ++ after).
Proof. intros Hb Ha Hs Hne. by exists before, sent, after. Qed.

(** After the charge and the gate: the signature and the post. *)
Lemma sign_and_send path form profile before :
  forallb background before = true →
  emits (try_ (sign_request env rest profile path form) (λ f,
           r ← send_signed env path f; snap_rejection env rest r;; mret r))
    (λ o seg, attempt_contract path form profile o (before ++ seg)).
Proof.
  intros Hb. apply emits_try. eapply emits_mono; [apply sign_request_contract|].
  intros [[e|f]| |] seg; cbn; [|intros (n & -> & Hs)|done..].
  - intros [Hn [->|(a & n & -> & ->)]]; rewrite app_nil_r.
    + apply attempt_silent; [done|by constructor].
    + exists before, [NonceTaken n], []. split_and!; [done..|constructor|done].
  - apply emits_bind. eapply emits_mono; [apply send_signed_contract|].
    intros [r| |] seg; cbn; [|intros ->|done].
    + intros (answer & -> & ->). apply emits_bind, emits_completes; [apply snap_rejection_completes|].
      eapply emits_mono; [apply snap_rejection_background|].
      intros ? after Ha [] ->. cbn in *. apply emits_ret. rewrite app_nil_r.
      apply (attempt_spoke _ _ _ _ _ [_; _; _]); [done..| |done]. by apply attempt_answered.
    + apply (attempt_spoke _ _ _ _ _ [_; _] []); [done..| |done]. by apply attempt_posted.
Qed.

(** An attempt charges first, then takes a nonce, and posts only what it signed with it. *)
Lemma attempt_order path form profile cost :
  emits (signed_post_costed_once env rest path form profile cost)
    (attempt_contract path form profile).
Proof.
  unfold signed_post_costed_once. apply emits_try.
  eapply emits_mono;
    [exact (emits_conj _ _ _ (charge_cost_background cost) (charge_cost_errors cost))|].
  intros o before [Hb He]. cbn in Hb.
  destruct o as [[e|[]]| |]; cbn.
  - rewrite app_nil_r. apply attempt_silent; [done|constructor; auto].
  - apply emits_bind, emits_await; cbn.
    + rewrite app_nil_r. apply attempt_silent; [done|by constructor].
    + intros _. by apply sign_and_send.
  - apply attempt_silent; [done|by constructor].
  - apply attempt_silent; [done|by constructor].
Qed.

End Attempt.

(** ** The loop *)

Section Loop.
Context (env : TaskEnv) (rest : RestSurface) (endpoint : string) (cost : RateLimitCost)
  (retry : RetryPolicy) (request_id : string) (run_once : Task (RestError + Json))
  (attempt : LogPost (RestError + Json)).

(** What a run of at most [n] attempts logs: each but the last failed with an error that is
    retried, and only background comes between them. *)
Inductive attempts_log : nat → LogPost (RestError + Json) :=
  | log_last n o seg tail :
      attempt o seg → forallb background tail = true → (tail ≠ [] → ∃ e, o = Done (inl e)) →
      attempts_log (S n) o (seg ++ tail)
  | log_sleep n err reason seg tail :
      attempt (Done (inl err)) seg → classify err retry = Retry reason →
      forallb background tail = true → attempts_log (S n) Dropped (seg ++ tail)
  | log_again n err reason seg tail o rest_ :
      attempt (Done (inl err)) seg → classify err retry = Retry reason →
      forallb background tail = true → attempts_log n o rest_ →
      attempts_log (S n) o (seg ++ tail ++ rest_).

Lemma attempts_log_mono n m o seg : attempts_log n o seg → (n ≤ m)%nat → attempts_log m o seg.
Proof.
  intros H. revert m. induction H; intros [|m] Hm; try lia.
  - by apply log_last.
  - by eapply log_sleep.
  - eapply log_again; eauto with lia.
Qed.

Lemma backoff_now_background n reason err :
  only background (backoff_now env rest n reason err cost).
Proof. unfold backoff_now. only_tac. Qed.

Lemma backoff_now_completes n reason err : completes (backoff_now env rest n reason err cost).
Proof. unfold backoff_now. completes_tac. Qed.

Lemma emit_retry_attempt_background n backoff reason :
  only background (emit_retry_attempt env rest endpoint request_id n backoff reason).
Proof. by apply publish_event_background. Qed.

Lemma publish_event_completes t p : completes (publish_event env rest t p).
Proof. unfold publish_event. completes_tac. Qed.

Lemma emit_poisoned_background : only background (emit_poisoned env rest endpoint).
Proof.
  unfold emit_poisoned. destruct (rest_api_key rest); [|only_tac].
  by apply publish_event_background.
Qed.

Lemma emit_poisoned_completes : completes (emit_poisoned env rest endpoint).
Proof. unfold emit_poisoned. destruct (rest_api_key rest); [apply publish_event_completes|completes_tac]. Qed.

(** The sleep between two attempts. *)
Lemma again_log (k : Task (RestError + Json)) n err reason seg fa :
  attempt (Done (inl err)) seg → classify err retry = Retry reason →
  emits k (attempts_log n) →
  emits (backoff ← backoff_now env rest fa reason err cost;
         act (SleepBegun backoff);; await env (λ _, tt);;
         emit_retry_attempt env rest endpoint request_id (u32_wrapping_add fa 1) backoff reason;;
         k)
    (λ o seg', attempts_log (S n) o (seg ++ seg')).
Proof.
  intros Ha Hc Hk. apply emits_bind, emits_completes; [apply backoff_now_completes|].
  eapply emits_mono; [apply backoff_now_background|]. intros ? s1 H1 backoff ->. cbn in *.
  apply emits_bind, emits_act. cbn. apply emits_bind, emits_await; cbn.
  { eapply log_sleep; [done..|]. by rewrite !forallb_app, H1. }
  intros _. apply emits_bind, emits_completes; [apply publish_event_completes|].
  eapply emits_mono; [apply emit_retry_attempt_background|]. intros ? s2 H2 [] ->. cbn in *.
  eapply emits_mono; [exact Hk|]. intros o s Hs. cbn.
  replace (s1 ++ SleepBegun backoff :: s2 ++ s) with ((s1 ++ SleepBegun backoff :: s2) ++ s)
    by (by rewrite <-app_assoc).
  eapply log_again; [done..| |done]. rewrite forallb_app. cbn. by rewrite H1, H2.
Qed.

Lemma request_loop_log fuel a nr :
  (a < max_attempts rest retry + nr → nr ≤ 1 → max_attempts rest retry < u32_max →
   emits run_once attempt →
   (N.to_nat (max_attempts rest retry + 1 - a) ≤ fuel)%nat →
   emits (request_loop env rest endpoint cost retry request_id run_once fuel a nr)
     (attempts_log (N.to_nat (N.max 1 (max_attempts rest retry - a) + (1 - nr)))))%N.
Proof.
  intros Ha Hnr Hb Hrun. revert a nr Ha Hnr.
  induction fuel as [|fuel IH]; intros a nr Ha Hnr Hfuel; [lia|]. cbn [request_loop].
  replace (u32_wrapping_add a 1) with (a + 1)%N
    by (unfold u32_wrapping_add; rewrite N.mod_small; unfold u32_max in *; lia).
  assert (∃ n, N.to_nat (N.max 1 (max_attempts rest retry - a) + (1 - nr)) = S n) as [n Hn]
    by (exists (N.to_nat (N.max 1 (max_attempts rest retry - a) + (1 - nr)) - 1)%nat; lia).
  rewrite Hn. apply emits_bind. eapply emits_mono; [exact Hrun|].
  intros [[err|v]| |] seg Hseg; cbn.
  2: apply emits_ret; cbn; rewrite app_nil_r, <-(app_nil_r seg); by apply log_last.
  2,3: rewrite <-(app_nil_r seg); by apply log_last.
  destruct (classify err retry) as [reason| |] eqn:Hc.
  2,3: apply emits_ret; by apply log_last; [| |eauto].
  assert (∀ nr', (a + 1 < max_attempts rest retry + nr')%N → (nr' ≤ 1)%N →
    (N.max 1 (max_attempts rest retry - (a + 1)) + (1 - nr') ≤ N.of_nat n)%N →
    emits (request_loop env rest endpoint cost retry request_id run_once fuel (a + 1) nr')
      (attempts_log n)) as Hagain.
  { intros nr' Ha' Hnr' Hm. specialize (IH (a + 1)%N nr' Ha' Hnr' ltac:(lia)).
    eapply emits_mono; [exact IH|]. intros o s Hs. eapply attempts_log_mono; [done|lia]. }
  destruct (decide (reason = RrInvalidNonce)); [destruct (1 <=? nr)%N eqn:Hle|destruct (_ <=? _)%N eqn:Hle].
  - apply emits_bind, emits_completes; [apply completes_when, emit_poisoned_completes|].
    eapply emits_mono; [by apply only_when, emit_poisoned_background|].
    intros ? tail Ht [] ->. cbn. apply emits_ret. rewrite app_nil_r. apply log_last; eauto.
  - apply N.leb_gt in Hle. eapply again_log; [done..|]. apply Hagain; lia.
  - apply emits_ret. by apply log_last; [| |eauto].
  - apply N.leb_gt in Hle. eapply again_log; [done..|]. apply Hagain; lia.
Qed.

End Loop.

(** ** Neighbours in the log *)

(** Every entry stands in [R] to the one before it. *)
Section Linked.
Context (R : option Act → Act → Prop).

Fixpoint linked (prev : option Act) (seg : list Act) : Prop :=
  match seg with [] => True | a :: seg => R prev a ∧ linked (Some a) seg end.

Context (free : ∀ prev a, R None a → R prev a).

Lemma linked_any prev seg : linked None seg → linked prev seg.
Proof using free. destruct seg as [|a seg]; cbn; [done|]. intros [Ha Hs]. auto. Qed.

Lemma linked_app prev seg seg' : linked prev seg → linked None seg' → linked prev (seg ++ seg').
Proof using free.
  revert prev. induction seg as [|a seg IH]; cbn; intros prev.
  - intros _. apply linked_any.
  - intros [Ha Hs] Hs'. auto.
Qed.

Lemma linked_background prev seg :
  (∀ prev a, background a = true → R prev a) → forallb background seg = true → linked prev seg.
Proof using Type.
  intros Hb. revert prev. induction seg as [|a seg IH]; cbn; [done|].
  intros prev [Ha Hs]%andb_true_iff. split; [by apply Hb|by apply IH].
Qed.
End Linked.

(** ** A signed request *)

Definition no_order_event (a : Act) : bool :=
  match a with Published e => negb (order_event e) | _ => true end.

Section Signed.
Context (rest : RestSurface) (path : string) (form : list (string * string))
  (profile : AuthProfile).

(** The post after [prev] is the one signed with the nonce just taken, an answer the one to
    the post just made. *)
Definition signed_after (prev : option Act) (a : Act) : Prop :=
  match a with
  | HttpPosted p body key sign =>
      ∃ n f, prev = Some (NonceTaken n) ∧
        sign_form id (rs_profile_debug rest) (rs_auth rest) n profile path form = (inr f, true) ∧
        p = path ∧ body = form_body f ∧ key = api_key_header f ∧ sign = api_sign_header f
  | PostAnswered _ => ∃ p body key sign, prev = Some (HttpPosted p body key sign)
  | _ => True
  end.

Definition signed_posts : option Act → list Act → Prop := linked signed_after.

Lemma signed_free prev a : signed_after None a → signed_after prev a.
Proof.
  destruct a; try done; [by intros (n & f & [=] & _)|by intros (? & ? & ? & ? & [=])].
Qed.

Lemma signed_posts_any prev seg : signed_posts None seg → signed_posts prev seg.
Proof. apply linked_any, signed_free. Qed.

Lemma signed_posts_app prev seg seg' :
  signed_posts prev seg → signed_posts None seg' → signed_posts prev (seg ++ seg').
Proof. apply linked_app, signed_free. Qed.

Lemma background_signed prev seg : forallb background seg = true → signed_posts prev seg.
Proof. apply linked_background. by intros ? []. Qed.

Lemma background_no_order_event seg :
  forallb background seg = true → forallb no_order_event seg = true.
Proof.
  intros H. apply forallb_forall. intros a Ha. eapply forallb_forall in H; [|done].
  by destruct a.
Qed.

(** What a whole request satisfies, attempts and background alike. *)
Definition disciplined (seg : list Act) : Prop :=
  signed_posts None seg ∧ forallb no_order_event seg = true.

Lemma disciplined_app seg seg' :
  disciplined seg → disciplined seg' → disciplined (seg ++ seg').
Proof.
  intros [H1 H2] [H1' H2']. split; [by apply signed_posts_app|].
  by rewrite forallb_app, H2, H2'.
Qed.

Lemma background_disciplined seg : forallb background seg = true → disciplined seg.
Proof. intros H. split; [by apply background_signed|by apply background_no_order_event]. Qed.

(** The answer says the request was not sent. *)
Definition refused (r : RestError + Json) : bool :=
  match r with inl e => not_sent e | inr _ => false end.

Lemma attempt_disciplined env o seg :
  attempt_contract env rest path form profile o seg →
  disciplined seg ∧ (tally is_send seg ≤ 1)%nat ∧
  (∀ r, o = Done r → tally is_send seg = if refused r then 0%nat else 1%nat).
Proof.
  intros (before & sent & after & -> & Hb & Ha & Hs & Hsil).
  assert (disciplined sent ∧ (tally is_send sent ≤ 1)%nat ∧
    (∀ r, o = Done r → tally is_send sent = if refused r then 0%nat else 1%nat)) as (Hd & Hp & Hn).
  { destruct Hs as [e He|o Ho|a n|n f o Hf Ho|n f answer Hf]; cbn.
    - split_and!; [done|lia|]. intros r [= <-]. cbn. by rewrite He.
    - split_and!; [done|lia|]. intros r ->. by destruct (Ho r).
    - split_and!; [done|lia|]. by intros r [= <-].
    - split_and!; [|lia|intros r ->; by destruct (Ho r)].
      split; [|done]. cbn. split_and!; [done| |done]. by exists n, f.
    - split_and!; [|lia|].
      + split; [|done]. cbn. split_and!; [done| | |done]; [by exists n, f|by eexists _, _, _, _].
      + intros [e|v] [= Hr]; [|done]. cbn. by rewrite (post_result_sent env answer e). }
  rewrite !tally_app, (background_no_send before), (background_no_send after) by done.
  split_and!; [|lia|].
  - auto using disciplined_app, background_disciplined.
  - intros r Hr. rewrite (Hn r) by done. lia.
Qed.

Lemma attempts_disciplined env retry n o seg :
  attempts_log retry (attempt_contract env rest path form profile) n o seg →
  disciplined seg ∧ (tally is_send seg ≤ n)%nat ∧
  (∀ r, o = Done r → refused r = false → (1 ≤ tally is_send seg)%nat).
Proof.
  induction 1 as [n o seg tail Ha Ht _|n err reason seg tail Ha _ Ht|n err reason seg tail o rest_ Ha _ Ht _ (IHd & IHn & IHr)];
    apply attempt_disciplined in Ha as (Hd & Hp & Hr);
    rewrite !tally_app, (background_no_send tail) by done;
    (split_and!; [auto using disciplined_app, background_disciplined|lia|]); [|done|].
  - intros r -> Hf. rewrite (Hr r), Hf by done. lia.
  - intros r -> Hf. specialize (IHr r eq_refl Hf). lia.
Qed.

(** A run mints what its attempts mint, nothing, and its result is the last answer heard or
    one an attempt reached without hearing any. *)
Lemma attempts_heard env (P : RestError + Json → Prop) (attempt : LogPost (RestError + Json))
  retry n o seg :
  (∀ o seg, attempt o seg →
     minted seg = [] ∧ ∀ r, o = Done r → P r ∨ last (heard env seg) = Some r) →
  attempts_log retry attempt n o seg →
  minted seg = [] ∧ ∀ r, o = Done r → P r ∨ last (heard env seg) = Some r.
Proof.
  intros Hone.
  induction 1 as [n o seg tail Ha Ht _|n err reason seg tail Ha _ Ht|n err reason seg tail o rest_ Ha _ Ht _ [IHm IHr]];
    apply Hone in Ha as [Hm Hr];
    rewrite !minted_app, !heard_app, Hm, (background_minted _ Ht), ?(background_heard _ _ Ht).
  - split; [done|]. by rewrite app_nil_r.
  - by split.
  - rewrite IHm. split; [done|]. intros r Ho. destruct (IHr r Ho) as [?|Hl]; [by left|right].
    cbn [app]. by rewrite last_app, Hl.
Qed.

(** A policy that never retries runs one attempt. *)
Lemma attempts_once retry attempt n o seg :
  (∀ err reason, classify err retry ≠ Retry reason) →
  attempts_log retry attempt n o seg → ∃ s tail, seg = s ++ tail ∧ attempt o s ∧
    forallb background tail = true.
Proof. intros Hr. destruct 1; [by eexists _, _|exfalso; by eapply Hr..]. Qed.

End Signed.

(** ** The request as a whole *)

Section Request.
Context (env : TaskEnv) (rest : RestSurface) (path : string) (form : list (string * string))
  (profile : AuthProfile) (cost : RateLimitCost) (retry : RetryPolicy) (request_id : string).

Lemma max_attempts_pos : (1 ≤ max_attempts rest retry)%N.
Proof. unfold max_attempts, attempt_budget. lia. Qed.

Lemma signed_post_log :
  (max_attempts rest retry < u32_max)%N →
  emits (signed_post_costed env rest path form profile cost retry request_id)
    (attempts_log retry (attempt_contract env rest path form profile)
       (S (N.to_nat (max_attempts rest retry)))).
Proof.
  intros Hb. pose proof max_attempts_pos.
  eapply emits_mono; [apply request_loop_log; [lia|lia|done|apply attempt_order|lia]|].
  intros o seg Hs. eapply attempts_log_mono; [done|lia].
Qed.

(** The policies of placements allow one attempt. *)
Lemma never_retry_budget : (max_attempts rest never_retry < u32_max)%N.
Proof. done. Qed.

Lemma never_retry_classify err reason : classify err never_retry ≠ Retry reason.
Proof. done. Qed.
End Request.

Lemma only_mint (p : Act → bool) env :
  (∀ id, p (IdMinted id) = true) → only p (mint_request_id env).
Proof. intros H. apply only_bind; [apply only_read|]. intros id.
  apply only_bind; [by apply only_act|]. intros _. apply only_ret.
Qed.

(** ** Reconciliation *)

Section Reconciliation.
Context (env : TaskEnv) (rest : RestSurface) (cl_ord_id : string).
Context (budget_fits : (engine_max_attempts (rs_engine rest) < u32_max)%N).

(** The query of one leg, under an id of its own: its posts ask [path] for this order only,
    and what it returns is the last answer heard; it fails under its id. *)
Definition asks (path : string) (o : Outcome ((string * RestError) + Json)) (seg : list Act)
  : Prop :=
  signed_posts rest path [("cl_ord_id", cl_ord_id)] SpotV1 None seg ∧
  forallb no_order_event seg = true ∧
  ∃ id, minted seg = [id] ∧
    match o with
    | Done (inr v) => last (heard env seg) = Some (inr v)
    | Done (inl (id', e)) => id' = id ∧ (not_sent e = true ∨ last (heard env seg) = Some (inl e))
    | _ => True
    end.

Lemma attempt_heard form path profile o seg :
  attempt_contract env rest path form profile o seg →
  minted seg = [] ∧ ∀ r, o = Done r → refused r = true ∨ last (heard env seg) = Some r.
Proof.
  intros (before & sent & after & -> & Hb & Ha & Hs & _).
  rewrite !minted_app, !heard_app, !(background_minted _ Hb), !(background_minted _ Ha),
    !(background_heard _ _ Hb), !(background_heard _ _ Ha).
  destruct Hs as [e He|o Hn|a m|m f o Hf Hn|m f a Hf]; (split; [done|]); intros r Hr;
    simplify_eq/=; try by left.
  - by destruct (Hn r).
  - by destruct (Hn r).
  - by right.
Qed.

Lemma signed_heard retry n form path profile o seg :
  attempts_log retry (attempt_contract env rest path form profile) n o seg →
  minted seg = [] ∧ ∀ r, o = Done r → refused r = true ∨ last (heard env seg) = Some r.
Proof. apply (attempts_heard env (λ r, refused r = true)), attempt_heard. Qed.

Lemma order_leg_log path : emits (order_leg env rest path cl_ord_id) (asks path).
Proof using budget_fits.
  unfold order_leg, mint_request_id. apply emits_bind, emits_bind, emits_read. intros n.
  apply emits_bind, emits_act, emits_ret. cbn -[signed_post_costed].
  apply emits_bind. eapply emits_mono.
  { apply signed_post_log. unfold max_attempts, attempt_budget, u32_max in *. simpl. lia. }
  intros o seg Hlog. pose proof (attempts_disciplined _ _ _ _ _ _ _ _ _ Hlog) as ([Hs He] & _ & _).
  apply signed_heard in Hlog as [Hm Hr].
  assert (∀ o', match o' with Done (inr v) => last (heard env seg) = Some (inr v)
    | Done (inl (id', e)) => id' = te_uuid env n ∧ (not_sent e = true ∨ last (heard env seg) = Some (inl e))
    | _ => True end → asks path o' (IdMinted (te_uuid env n) :: seg)) as Hasks.
  { intros o' Ho'. split_and!; [cbn; split; [done|by apply signed_posts_any]|done|].
    exists (te_uuid env n). split; [|exact Ho'].
    change (te_uuid env n :: minted seg = [te_uuid env n]). by rewrite Hm. }
  destruct o as [[e|v]| |]; cbn -[asks]; [| |by apply Hasks..];
    apply emits_ret; rewrite app_nil_r; apply Hasks.
  - split; [done|]. destruct (Hr _ eq_refl) as [?|?]; auto.
  - by destruct (Hr _ eq_refl).
Qed.

(** The answer's map [wrapper] lists this order first, with this status; or lists none. *)
Definition lists (v : Json) (wrapper txid : string) (st : OrderStatus) : Prop :=
  txid ≠ "" ∧ ∃ row rows, json_get wrapper v = Some (JObject ((txid, row) :: rows)) ∧
    st = default StUnknown (parse_order_status <$> (json_get "status" row ≫= json_as_str)).

Definition unlisted (v : Json) (wrapper : string) : Prop :=
  ∀ txid row rows, json_get wrapper v = Some (JObject ((txid, row) :: rows)) → txid = "".

Lemma first_order_spec v wrapper :
  match first_order_in_map v wrapper with
  | Some (txid, st) => lists v wrapper txid st
  | None => unlisted v wrapper
  end.
Proof.
  unfold first_order_in_map, lists, unlisted.
  destruct (json_get wrapper v) as [[| | | | | [|[txid row] rows]]|]; try by intros.
  case_decide; [intros; congruence|]. split; [done|]. exists row, rows. split; [done|].
  by destruct (json_get "status" row ≫= json_as_str).
Qed.

(** What the walk may say, on the answers of its two queries. *)
Definition grounded (s1 s2 : list Act) (out : ReconciliationOutcome) : Prop :=
  ∃ v, last (heard env s1) = Some (inr v) ∧
  match out with
  | OrderFound txid st LifeOpen => lists v "open" txid st ∧ s2 = []
  | OrderFound txid st LifeClosed => unlisted v "open" ∧
      ∃ v', last (heard env s2) = Some (inr v') ∧ lists v' "closed" txid st
  | OrderNotPlaced => unlisted v "open" ∧
      ∃ v', last (heard env s2) = Some (inr v') ∧ unlisted v' "closed"
  | OutcomeUnknown => False
  end.

(** The two queries, the second only after the first answered without the order. *)
Definition walks (o : Outcome ((string * RestError) + ReconciliationOutcome)) (s1 s2 : list Act)
  : Prop :=
  ∃ o1, asks "/0/private/OpenOrders" o1 s1 ∧
    (s2 = [] ∨
     ((∃ v, o1 = Done (inr v) ∧ unlisted v "open") ∧
      ∃ o2, asks "/0/private/ClosedOrders" o2 s2)) ∧
    match o with
    | Done (inr out) => grounded s1 s2 out
    | Done (inl (id, e)) =>
        (minted (s1 ++ s2) = [id] ∧ s2 = [] ∨ minted s2 = [id]) ∧
        (not_sent e = true ∨ last (heard env (s1 ++ s2)) = Some (inl e))
    | _ => True
    end.

Lemma walk_log :
  emits (walk_reconciliation env rest cl_ord_id) (λ o seg, ∃ s1 s2, seg = s1 ++ s2 ∧ walks o s1 s2).
Proof using budget_fits.
  unfold walk_reconciliation. apply emits_try. eapply emits_mono; [apply order_leg_log|].
  intros [[[id e]|v]| |] s1 H1; cbn -[asks order_leg].
  1,3,4: exists s1, []; rewrite ?app_nil_r; split; [done|]; eexists; (split; [exact H1|split; [by left|]]); try done.
  { rewrite !app_nil_r. destruct H1 as (_ & _ & id' & Hm & -> & He). auto. }
  pose proof H1 as (_ & _ & _ & _ & Hv).
  pose proof (first_order_spec v "open") as Ho.
  destruct (first_order_in_map v "open") as [[txid st]|].
  { apply emits_ret. exists s1, []. split; [by rewrite app_nil_r|]. eexists.
    split; [exact H1|split; [by left|]]. by exists v. }
  apply emits_try. eapply emits_mono; [apply order_leg_log|].
  intros o2 s2 H2.
  assert (∀ o, match o with
    | Done (inr out) => grounded s1 s2 out
    | Done (inl (id, e)) =>
        (minted (s1 ++ s2) = [id] ∧ s2 = [] ∨ minted s2 = [id]) ∧
        (not_sent e = true ∨ last (heard env (s1 ++ s2)) = Some (inl e))
    | _ => True
    end → ∃ t1 t2, s1 ++ s2 = t1 ++ t2 ∧ walks o t1 t2) as Hw.
  { intros o Hout. exists s1, s2. split; [done|]. eexists. split; [exact H1|split; [|exact Hout]].
    right. split; [by exists v|]. by eexists. }
  destruct o2 as [[[id e]|v']| |]; cbn -[asks]; [| |by apply Hw..].
  - rewrite app_nil_r. apply Hw. destruct H2 as (_ & _ & id' & Hm & -> & He). split; [by right|].
    destruct He as [?|He]; [by left|right]. by rewrite heard_app, last_app, He.
  - destruct H2 as (_ & _ & _ & _ & Hv').
    pose proof (first_order_spec v' "closed") as Hc.
    destruct (first_order_in_map v' "closed") as [[txid st]|]; apply emits_ret;
      rewrite app_nil_r; apply Hw; exists v; (split; [done|]); (split; [done|]); by exists v'.
Qed.
End Reconciliation.

(** C6: Looking an order up by its client id asks only the two order queries, each under an id
    of its own, the closed orders only after the open ones were answered without the order.
    The outcome is that of the answers: found where the answer to that query, the last one
    heard in it, lists the order, and declared not placed only when both queries were answered
    and neither answer lists it, whatever fails, is retried or interferes; a failure is that of
    the query that failed, under its id.  Exactly the answer that is returned is published,
    and nothing on failure. *)
Theorem reconciliation_grounded env rest cl_ord_id :
  (engine_max_attempts (rs_engine rest) < u32_max)%N →
  emits (find_order_by_cl_ord_id env rest cl_ord_id) (λ o seg,
    ∃ s1 s2 told, seg = s1 ++ s2 ++ told ∧ walks env rest cl_ord_id o s1 s2 ∧
      match o with
      | Done (inr out) =>
          if rs_has_bus rest then
            ∃ e, told = [Published e] ∧ payload e = POrderReconciliation cl_ord_id out
          else told = []
      | _ => told = []
      end).
Proof.
  intros Hb. unfold find_order_by_cl_ord_id. apply emits_try.
  eapply emits_mono; [by apply walk_log|].
  intros [[e|out]| |] seg (s1 & s2 & -> & H); cbn -[walks].
  1,3,4: exists s1, s2, []; rewrite ?app_nil_r; by split_and!.
  unfold emit_reconciliation, publish_event. apply emits_bind. destruct (rs_has_bus rest).
  - apply emits_bind, emits_read. intros n. cbn -[walks]. apply emits_act. cbn -[walks].
    apply emits_ret. eexists s1, s2, _. rewrite <-app_assoc.
    split_and!; [done..|]. by eexists.
  - apply emits_ret. cbn -[walks]. apply emits_ret. exists s1, s2, [].
    rewrite ?app_nil_r. by split_and!.
Qed.

(** The order is listed among the closed ones: the second query finds it. *)
Definition closed_listed : TaskEnv :=
  sample_env (λ n, PostResponse (JObject [("result",
      if Nat.ltb n 8 then JObject [("open", JObject [])]
      else JObject [("closed", JObject [("T1", JObject [("status", JString "closed")])])])]))
    (λ _, None) (λ _, inl ResponseTimeout) (λ _, false).

Lemma reconciliation_grounded_witness :
  let run := find_order_by_cl_ord_id closed_listed sample_rest "cl" sample_world in
  (engine_max_attempts (rs_engine sample_rest) < u32_max)%N ∧
  run.1 = Done (inr (OrderFound "T1" StClosed LifeClosed)) ∧
  ∃ s1 s2, minted (tw_log run.2) = ["id"; "id"] ∧
    grounded closed_listed s1 s2 (OrderFound "T1" StClosed LifeClosed).
Proof.
  intros run. split; [done|].
  assert (run.1 = Done (inr (OrderFound "T1" StClosed LifeClosed))) as Ho by (vm_compute; reflexivity).
  split; [done|].
  destruct (reconciliation_grounded closed_listed sample_rest "cl" ltac:(done) sample_world)
    as (seg & _ & s1 & s2 & told & _ & (_ & _ & _ & Hg) & _).
  exists s1, s2. split; [vm_compute; reflexivity|].
  change (match run.1 with Done (inr out) => grounded closed_listed s1 s2 out
          | Done (inl (id, e)) => (minted (s1 ++ s2) = [id] ∧ s2 = [] ∨ minted s2 = [id]) ∧
              (not_sent e = true ∨ last (heard closed_listed (s1 ++ s2)) = Some (inl e))
          | _ => True end) in Hg.
  clearbody run. by rewrite Ho in Hg.
Defined.

(** C5: Every post of a signed request follows at once the nonce it is signed with, whatever
    the answers, the retries and the tasks between; the posts are within the attempt budget
    and one fresh-nonce heal, none is made when the answer says the request was refused under
    the never-retry policy, where one attempt is all; no order event is published here. *)
Theorem signed_post_discipline env rest path form profile cost retry request_id :
  (max_attempts rest retry < u32_max)%N →
  emits (signed_post_costed env rest path form profile cost retry request_id) (λ o seg,
    signed_posts rest path form profile None seg ∧
    (tally is_send seg ≤ S (N.to_nat (max_attempts rest retry)))%nat ∧
    (retry = never_retry → (tally is_send seg ≤ 1)%nat ∧
       ∀ r, o = Done r → tally is_send seg = if refused r then 0%nat else 1%nat) ∧
    forallb no_order_event seg = true).
Proof.
  intros Hb. eapply emits_mono; [by apply signed_post_log|]. intros o seg Hlog.
  pose proof (attempts_disciplined _ _ _ _ _ _ _ _ _ Hlog) as ([Hs He] & Hn & _).
  split_and!; [done|done| |done]. intros ->.
  apply attempts_once in Hlog as (s & tail & -> & Ha & Ht); [|by apply never_retry_classify].
  apply attempt_disciplined in Ha as (_ & Hp & Hr).
  rewrite tally_app, (background_no_send tail), Nat.add_0_r by done. done.
Qed.

Lemma signed_post_discipline_witness :
  let run := signed_post_costed calm sample_rest "/0/private/AddOrder" [("pair", "BTC/USD")]
               SpotV1 (CostTrading f64_one "BTC/USD") never_retry "id" sample_world in
  (max_attempts sample_rest never_retry < u32_max)%N ∧
  ∃ seg, tw_log run.2 = seg ∧ tally is_send seg = 1%nat ∧
    signed_posts sample_rest "/0/private/AddOrder" [("pair", "BTC/USD")] SpotV1 None seg.
Proof.
  split; [done|].
  destruct (signed_post_discipline calm sample_rest "/0/private/AddOrder" [("pair", "BTC/USD")]
    SpotV1 (CostTrading f64_one "BTC/USD") never_retry "id" ltac:(done) sample_world)
    as (seg & Hl & Hs & _ & Hn & _).
  exists seg. split; [exact Hl|]. split; [|exact Hs].
  destruct (Hn eq_refl) as [_ Hr]. apply (Hr (inr (JObject [("txid", JArray [JString "T"])]))).
  vm_compute. reflexivity.
Defined.
