(* ===== verification/WsCompose.v ===== *)
(** * WsCompose: order parameters and replies on the WebSocket

    [rust/src/api/trade/ws_compose.rs].  [serde_json::Map] is a [BTreeMap]: an object lists
    its fields in key order, and inserting replaces.  A number keeps its text; whether the
    text of a [Decimal] reads as a JSON number is a parameter. *)

From Stdlib Require Import Ascii String.
From S2P Require Import Prelude F64 Types Events Errors Rest Dispatch WireTime TradeError OrderTypes Connection.
Local Open Scope string_scope.
Local Open Scope N_scope.

(** ** Maps *)

Abbreviation JMap := (list (string * Json)).

Fixpoint jinsert (k : string) (v : Json) (m : JMap) : JMap :=
  match m with
  | [] => [(k, v)]
  | (k', v') :: m' =>
      match String.compare k k' with
      | Lt => (k, v) :: m
      | Eq => (k, v) :: m'
      | Gt => (k', v') :: jinsert k v m'
      end
  end.

Definition jget (k : string) (m : JMap) : option Json := json_get k (JObject m).

(** [insert] when a value is there. *)
Definition jinsert_opt {A} (k : string) (f : A → Json) (o : option A) (m : JMap) : JMap :=
  match o with Some a => jinsert k (f a) m | None => m end.

Definition jinsert_if (b : bool) (k : string) (v : Json) (m : JMap) : JMap :=
  if b then jinsert k v m else m.

Definition jremove (k : string) (m : JMap) : JMap :=
  filter (λ kv : string * Json, kv.1 ≠ k) m.

(** ** Responses *)

Record AddOrderDescr := mkDescr { descr_order : option string; descr_close : option string }.

Definition no_descr : AddOrderDescr := mkDescr None None.

Record AddOrderResponse := mkAddResponse {
  ar_txid : option string;
  ar_cl_ord_id : option string;
  ar_descr : AddOrderDescr;
}.

Record CancelOrderResponse := mkCancelResponse { cr_count : N; cr_pending : bool }.
Record CancelAllResponse := mkCancelAllResponse { cra_count : N }.
Record AmendOrderResponse := mkAmendResponse { amr_amend_id : string }.
Record DeadmanResponse := mkDeadmanResponse {
  dr_current_time : string;
  dr_trigger_time : option string;
}.

Record BatchOrderResult := mkBatchResult {
  br_descr : AddOrderDescr;
  br_txid : option string;
  br_error : option string;
}.

Record AddOrderBatchResponse := mkBatchResponse { bar_orders : list BatchOrderResult }.

(** [filter(|s| !s.is_empty())] *)
Definition nonempty (o : option string) : option string :=
  s ← o; if decide (s = "") then None else Some s.

(** A text field of a value. *)
Definition text_field (key : string) (v : Json) : option string := json_get key v ≫= json_as_str.

(** ** Error mapping *)

Definition classify_ws_error (error : option string) : TradeError :=
  classify_kraken_error_string (default "WS request rejected" error).

Definition wire_error_status (e : RestError) : OrderSubmitStatus :=
  WireError (trade_code (from_rest_error e)).

Definition ws_wire_error_status (error : option string) : OrderSubmitStatus :=
  WireError (trade_code (classify_ws_error error)).

(** ** Parameters *)

Section Compose.
Context {D : Type} `{!DecimalOps D} (number_parses : string → bool).

Definition decimal_to_json (d : D) : Json :=
  let s := dec_to_string d in if number_parses s then JNumber s else JString s.

Record AddOrderWsView := mkView {
  v_side : string;
  v_pair : Symbol;
  v_volume : D;
  v_order_type : OrderType;
  v_price : option (Price D);
  v_price2 : option (Price D);
  v_oflags : list OFlag;
  v_margin : bool;
  v_reduce_only : option bool;
  v_stp_type : option StpType;
  v_trigger : option TriggerKind;
  v_time_in_force : option TimeInForce;
  v_display_vol : option D;
  v_start_time : option TimeSpec;
  v_expire_time : option TimeSpec;
  v_userref : option Z;
  v_cl_ord_id : option string;
  v_close_ordertype : option OrderType;
  v_close_price : option (Price D);
  v_close_price2 : option (Price D);
  v_validate : bool;
}.

Inductive WsPriceShape := NoPrice | LimitShape | TriggerShape (limit_leg : bool).

Definition price_shape (t : OrderType) : WsPriceShape :=
  match t with
  | Market | SettlePosition => NoPrice
  | Limit | Iceberg => LimitShape
  | StopLoss | TakeProfit => TriggerShape false
  | StopLossLimit | TakeProfitLimit => TriggerShape true
  | TrailingStop => TriggerShape false
  | TrailingStopLimit => TriggerShape true
  | UnknownOrderType => NoPrice
  end.

(** A price under [key] and its type under [key ++ suffix]. *)
Definition insert_price (key type_key : string) (p : option (Price D)) (m : JMap) : JMap :=
  match p with
  | Some p =>
      let '(value, price_type) := price_to_ws p in
      jinsert type_key (JString price_type) (jinsert key (decimal_to_json value) m)
  | None => m
  end.

Definition insert_shape (v : AddOrderWsView) (m : JMap) : JMap :=
  match price_shape (v_order_type v) with
  | NoPrice => m
  | LimitShape => insert_price "limit_price" "limit_price_type" (v_price v) m
  | TriggerShape limit_leg =>
      let trig :=
        insert_price "price" "price_type" (v_price v)
          (jinsert_opt "reference" (λ t, JString (trigger_str t)) (v_trigger v) []) in
      let m := jinsert "triggers" (JObject trig) m in
      if limit_leg then insert_price "limit_price" "limit_price_type" (v_price2 v) m else m
  end.

Definition insert_oflag (m : JMap) (f : OFlag) : JMap :=
  match f with
  | Post => jinsert "post_only" (JBool true) m
  | Fcib => jinsert "fee_preference" (JString "base") m
  | Fciq => match jget "fee_preference" m with
            | Some _ => m
            | None => jinsert "fee_preference" (JString "quote") m
            end
  | Nompp => jinsert "no_mpp" (JBool true) m
  end.

Definition conditional_params (t : OrderType) (p p2 : option (Price D)) : JMap :=
  let cond := [("order_type", JString (order_type_str t))] in
  let price_of p := decimal_to_json (price_to_ws p).1 in
  match t with
  | StopLoss | TakeProfit | StopLossLimit | TakeProfitLimit =>
      jinsert_opt "limit_price" price_of p2 (jinsert_opt "trigger_price" price_of p cond)
  | Limit => jinsert_opt "limit_price" price_of p cond
  | _ => cond
  end.

Definition add_order_map (v : AddOrderWsView) : JMap :=
  let m := jinsert "order_type" (JString (order_type_str (v_order_type v))) [] in
  let m := jinsert "side" (JString (v_side v)) m in
  let m := jinsert "order_qty" (decimal_to_json (v_volume v)) m in
  let m := jinsert "symbol" (JString (v_pair v)) m in
  let m := jinsert_opt "cl_ord_id" JString (v_cl_ord_id v) m in
  let m := insert_shape v m in
  let m := foldl insert_oflag m (v_oflags v) in
  let m := jinsert_if (v_margin v) "margin" (JBool true) m in
  let m := jinsert_if (bool_decide (v_reduce_only v = Some true)) "reduce_only" (JBool true) m in
  let m := jinsert_opt "stp_type" (λ s, JString (stp_type_ws s)) (v_stp_type v) m in
  let m := jinsert_opt "time_in_force" (λ t, JString (tif_str t)) (v_time_in_force v) m in
  let m := jinsert_opt "display_qty" decimal_to_json (v_display_vol v) m in
  let m := jinsert_opt "effective_time" (λ t, JString (time_to_ws t)) (v_start_time v) m in
  let m := jinsert_opt "expire_time" (λ t, JString (time_to_ws t)) (v_expire_time v) m in
  let m := jinsert_opt "order_userref" (λ u, JNumber (int_text u)) (v_userref v) m in
  let m := jinsert_opt "conditional"
             (λ t, JObject (conditional_params t (v_close_price v) (v_close_price2 v)))
             (v_close_ordertype v) m in
  jinsert_if (v_validate v) "validate" (JBool true) m.

Definition compose_add_order_params (v : AddOrderWsView) : Json := JObject (add_order_map v).

Definition entry_view (pr : Symbol) (e : BatchOrderEntry D) : AddOrderWsView :=
  let '(ct, cp, cp2) := flat_legs (be_conditional_close e) in
  {| v_side := side_str (be_side e); v_pair := pr; v_volume := be_volume e;
     v_order_type := be_ordertype e; v_price := be_price e; v_price2 := be_price2 e;
     v_oflags := default [] (be_oflags e); v_margin := be_margin e;
     v_reduce_only := be_reduce_only e; v_stp_type := be_stp_type e;
     v_trigger := be_trigger e; v_time_in_force := be_time_in_force e;
     v_display_vol := be_display_vol e; v_start_time := be_start_time e;
     v_expire_time := be_expire_time e; v_userref := be_userref e;
     v_cl_ord_id := be_cl_ord_id e; v_close_ordertype := ct; v_close_price := cp;
     v_close_price2 := cp2; v_validate := false |}.

Fixpoint batch_objects (pr : Symbol) (l : list (BatchOrderEntry D))
  : TradeError + list Json :=
  match l with
  | [] => inr []
  | e :: l =>
      match entry_ws_field e with
      | Some field => inl (WsUnsupportedOrderField field)
      | None =>
          match batch_objects pr l with
          | inl err => inl err
          | inr objs =>
              inr (JObject (jremove "symbol" (add_order_map (entry_view pr e))) :: objs)
          end
      end
  end.

Definition compose_batch_add_params (r : AddOrderBatchRequest D) : TradeError + Json :=
  match batch_objects (ba_pair r) (ba_orders r) with
  | inl e => inl e
  | inr objs =>
      inr (JObject (jinsert_if (ba_validate r) "validate" (JBool true)
                      (jinsert "orders" (JArray objs)
                         (jinsert "symbol" (JString (ba_pair r)) []))))
  end.

Definition compose_amend_order_params (r : OrderAmendRequest D) : Json :=
  let m := jinsert "cl_ord_id" (JString (am_cl_ord_id r)) [] in
  let m := jinsert_opt "order_qty" decimal_to_json (am_order_volume r) m in
  let m := insert_price "limit_price" "limit_price_type" (am_limit_price r) m in
  let m := jinsert_opt "post_only" JBool (am_post_only r) m in
  JObject (insert_price "trigger_price" "trigger_price_type" (am_trigger_price r) m).

Definition compose_cancel_order_params (r : CancelRequest) : Json :=
  JObject [("cl_ord_id", JArray [JString (ca_cl_ord_id r)])].

Definition order_view (r : OrderRequest D) : AddOrderWsView :=
  let '(ct, cp, cp2) := flat_legs (or_conditional_close r) in
  {| v_side := side_str (or_side r); v_pair := or_pair r; v_volume := or_volume r;
     v_order_type := or_order_type r; v_price := or_price r; v_price2 := or_price2 r;
     v_oflags := or_oflags r; v_margin := or_margin r; v_reduce_only := or_reduce_only r;
     v_stp_type := or_stp_type r; v_trigger := or_trigger r;
     v_time_in_force := or_time_in_force r; v_display_vol := or_display_vol r;
     v_start_time := or_start_time r; v_expire_time := or_expire_time r;
     v_userref := or_userref r; v_cl_ord_id := or_cl_ord_id r; v_close_ordertype := ct;
     v_close_price := cp; v_close_price2 := cp2; v_validate := or_validate r |}.

End Compose.

(** ** Replies: a failure is classified from its text *)

Definition decode_batch_row (row : Json) : BatchOrderResult :=
  mkBatchResult no_descr (nonempty (text_field "order_id" row)) (text_field "error" row).

Definition decode_ws_batch_add (resp : WsResponse) : TradeError + AddOrderBatchResponse :=
  match resp_result resp with
  | JArray rows => inr (mkBatchResponse (decode_batch_row <$> rows))
  | _ => inl (classify_ws_error (resp_error resp))
  end.

(** [uuid_parses] as in [cl_ord_id_new]. *)
Definition decode_ws_add_order (uuid_parses : string → bool) (fallback : option string)
  (resp : WsResponse) : TradeError + AddOrderResponse :=
  if resp_success resp then
    let echoed :=
      s ← text_field "cl_ord_id" (resp_result resp);
      match cl_ord_id_new uuid_parses s with inr id => Some id | inl _ => None end in
    inr (mkAddResponse (nonempty (text_field "order_id" (resp_result resp)))
           (match echoed with Some id => Some id | None => fallback end) no_descr)
  else inl (classify_ws_error (resp_error resp)).

Definition decode_ws_amend_order (resp : WsResponse) : TradeError + AmendOrderResponse :=
  if resp_success resp then
    match nonempty (text_field "amend_id" (resp_result resp)) with
    | Some id => inr (mkAmendResponse id)
    | None => inl (malformed "ws amend response missing amend_id")
    end
  else inl (classify_ws_error (resp_error resp)).

Definition decode_ws_cancel_order (resp : WsResponse) : TradeError + CancelOrderResponse :=
  if resp_success resp then
    match text_field "cl_ord_id" (resp_result resp) with
    | Some _ => inr (mkCancelResponse 1 false)
    | None => inl (malformed "ws cancel_order success missing cl_ord_id")
    end
  else inl (classify_ws_error (resp_error resp)).

Definition decode_ws_cancel_all (resp : WsResponse) : TradeError + CancelAllResponse :=
  if resp_success resp then
    match json_get "count" (resp_result resp) ≫= json_as_u64 with
    | Some count => inr (mkCancelAllResponse (count mod (u32_max + 1)))
    | None => inl (malformed "cancel_all WS reply: missing or non-integer `count`")
    end
  else inl (classify_ws_error (resp_error resp)).

(** [get(a).or_else(get(b))], then text. *)
Definition either_field (a b : string) (v : Json) : string :=
  default "" (match json_get a v with Some x => Some x | None => json_get b v end ≫= json_as_str).

(** An empty trigger time or ["0"] is a disarmed switch. *)
Definition armed_time (s : string) : option string :=
  if decide (s = "") then None else if decide (s = "0") then None else Some s.

Definition decode_ws_deadman (resp : WsResponse) : TradeError + DeadmanResponse :=
  if resp_success resp then
    inr (mkDeadmanResponse (either_field "currentTime" "current_time" (resp_result resp))
           (armed_time (either_field "triggerTime" "trigger_time" (resp_result resp))))
  else inl (classify_ws_error (resp_error resp)).

(** ** [events.rs]: ids in results *)

Definition first_txid_in_rest_result (v : Json) : option string :=
  match json_get "txid" v with
  | Some (JArray (x :: _)) => nonempty (json_as_str x)
  | _ => None
  end.

Definition amend_id_in_result (v : Json) : option string := nonempty (text_field "amend_id" v).

Definition ws_txid_in_result (v : Json) : option string :=
  nonempty (match json_get "order_id" v with Some x => Some x | None => json_get "txid" v end
              ≫= json_as_str).
