(* ===== verification/OrderProps.v ===== *)
(** * OrderProps: which orders validate, and what their forms say *)

From Stdlib Require Import Ascii String.
From stdpp Require Import pretty.
From S2P Require Import Prelude F64 Types Events Errors Rest Dispatch WireTime TradeError OrderTypes Connection Teardowns Task RestSurface Sample WsCompose.
Local Open Scope string_scope.
Local Open Scope N_scope.

Section Validation.
Context {D : Type} `{!DecimalOps D}.

(** ** Well-formed orders *)

Definition relative (p : Price D) : Prop := ∃ unit value, p = Offset unit value.

Definition ahead (p : Price D) : Prop :=
  ∃ unit value, p = Offset unit value ∧ dec_is_positive value = true.

(** Prices that follow the market are positive offsets; their limit leg, needed exactly by the
    limit variant, is an offset. *)
Record trailing_ok (t : OrderType) (price price2 : option (Price D)) : Prop := {
  trailing_price : t = TrailingStop ∨ t = TrailingStopLimit → ∃ p, price = Some p ∧ ahead p;
  trailing_leg : t = TrailingStop ∨ t = TrailingStopLimit → ∀ p, price2 = Some p → relative p;
  trailing_limit : t = TrailingStopLimit → is_Some price2;
}.

(** The WebSocket carries no leverage and no relative closing price. *)
Definition ws_carries (leverage : option N) (cc : option (ConditionalClose D)) : Prop :=
  leverage = None ∧
  ∀ c, cc = Some c → ¬ relative (close_price c) ∧ ∀ p, close_price2 c = Some p → ¬ relative p.

Record order_wf (r : OrderRequest D) : Prop := {
  owf_deadline : or_deadline r = None;
  owf_one_id : or_userref r = None ∨ or_cl_ord_id r = None;
  owf_placeable : or_margin r = false ∨ ws_carries (or_leverage r) (or_conditional_close r);
  owf_known : or_order_type r ≠ UnknownOrderType;
  owf_settle : or_order_type r = SettlePosition → ∃ l, or_leverage r = Some l ∧ 0 < l;
  owf_reduce : or_reduce_only r = Some true →
    or_margin r = true ∨ ∃ l, or_leverage r = Some l ∧ 1 < l;
  owf_fok : or_time_in_force r = Some Fok →
    or_order_type r ∈ [Limit; Iceberg; StopLossLimit; TakeProfitLimit; TrailingStopLimit];
  owf_price : trailing_ok (or_order_type r) (or_price r) (or_price2 r);
  owf_close : ∀ c, or_conditional_close r = Some c →
    trailing_ok (to_order_type (close_ordertype c)) (Some (close_price c)) (close_price2 c);
}.

(** ** Each check is exact *)

Lemma check_ok a k : check a k = inr tt ↔ a = inr tt ∧ k = inr tt.
Proof. destruct a as [e|[]]; naive_solver. Qed.

Lemma not_relative (p : Price D) : ¬ relative p ↔ ∃ d, p = Absolute d.
Proof. unfold relative. destruct p; naive_solver. Qed.

Lemma validate_trailing_price_ok t price price2 :
  validate_trailing_price t price price2 = inr tt ↔ trailing_ok t price price2.
Proof.
  split.
  - intros H. split.
    + intros Ht. destruct Ht as [-> | ->]; apply check_ok in H as [H _];
        destruct price as [[d|u v]|]; try done;
        (destruct (dec_is_positive v) eqn:Hv; [|done]); eexists; (split; [done|]); by exists u, v.
    + intros Ht p ->. destruct Ht as [-> | ->]; unfold validate_trailing_price in H;
        apply check_ok in H as [_ H]; destruct p as [d|u v]; try done; by exists u, v.
    + intros ->. unfold validate_trailing_price in H. apply check_ok in H as [_ H].
      destruct price2; [by eexists|done].
  - intros [H1 H2 H3]. unfold validate_trailing_price.
    assert (t = TrailingStop ∨ t = TrailingStopLimit → validate_trailing_price t price price2 = inr tt) as Ht.
    { intros Ht. destruct (H1 Ht) as (p & -> & u & v & -> & Hv). specialize (H2 Ht).
      destruct Ht as [-> | ->]; unfold validate_trailing_price; rewrite Hv; cbn.
      - destruct price2 as [p|]; [|done]. by destruct (H2 p eq_refl) as (? & ? & ->).
      - destruct (H3 eq_refl) as [p ->]. by destruct (H2 p eq_refl) as (? & ? & ->). }
    destruct t; try done; apply Ht; auto.
Qed.

Lemma ws_field_ok leverage cc :
  close_ws_field (bool_decide (is_Some leverage)) cc = None ↔ ws_carries leverage cc.
Proof.
  unfold close_ws_field, ws_carries, ws_unrepresentable_field.
  destruct leverage as [l|]; cbn; [destruct (flat_legs cc) as [[]]; split; [done|by intros [[=] _]]|].
  destruct cc as [c|]; cbn; [|done].
  destruct (close_price c) as [d|u v] eqn:Hp, (close_price2 c) as [[d'|u' v']|] eqn:Hp2;
    split; try done; unfold relative; try (intros _; split; [done|]; intros ? [= <-]; rewrite ?Hp, ?Hp2; naive_solver).
  all: intros [_ H]; destruct (H c eq_refl) as [H1 H2]; rewrite Hp in H1; rewrite Hp2 in H2; exfalso;
    first [apply H1; by eexists _, _ | eapply H2; [done|]; by eexists _, _].
Qed.

Lemma leverage_at_most_not b leverage :
  leverage_at_most b leverage = false ↔ ∃ l, leverage = Some l ∧ b < l.
Proof. destruct leverage as [l|]; cbn; [rewrite N.leb_gt|]; naive_solver. Qed.

Lemma limit_bearing t :
  is_limit_price_bearing t = true ↔
  t ∈ [Limit; Iceberg; StopLossLimit; TakeProfitLimit; TrailingStopLimit].
Proof. rewrite !elem_of_cons, elem_of_nil. destruct t; naive_solver. Qed.

Lemma gate_ok (b : bool) (e : TradeError) (k : TradeError + ()) :
  (if b then inl e else k) = inr tt ↔ b = false ∧ k = inr tt.
Proof. destruct b; naive_solver. Qed.

Lemma gate_implies (P Q : Prop) `{!Decision P} : (¬ P ∨ Q) ↔ (P → Q).
Proof. destruct (decide P); tauto. Qed.

Lemma order_gates_ok t leverage margin reduce_only tif :
  validate_order_gates t leverage margin reduce_only tif = inr tt ↔
  t ≠ UnknownOrderType ∧
  (t = SettlePosition → ∃ l, leverage = Some l ∧ 0 < l) ∧
  (reduce_only = Some true → margin = true ∨ ∃ l, leverage = Some l ∧ 1 < l) ∧
  (tif = Some Fok → t ∈ [Limit; Iceberg; StopLossLimit; TakeProfitLimit; TrailingStopLimit]).
Proof.
  unfold validate_order_gates, invalid.
  rewrite !gate_ok, <-limit_bearing, <-!leverage_at_most_not, bool_decide_eq_false.
  rewrite <-(gate_implies (t = SettlePosition)), <-(gate_implies (reduce_only = Some true)),
    <-(gate_implies (tif = Some Fok)).
  rewrite !andb_false_iff, !bool_decide_eq_false, !negb_false_iff. 2-4: apply _. tauto.
Qed.

Lemma validate_close_ok cc :
  validate_close cc = inr tt ↔
  ∀ c, cc = Some c →
    trailing_ok (to_order_type (close_ordertype c)) (Some (close_price c)) (close_price2 c).
Proof.
  destruct cc as [c|]; cbn; [rewrite validate_trailing_price_ok|]; naive_solver.
Qed.

Lemma validate_add_order_ok r :
  validate_add_order (bool_decide (is_Some (or_userref r))) (bool_decide (is_Some (or_cl_ord_id r)))
    (or_order_type r) (or_leverage r) (or_margin r) (or_reduce_only r) (or_time_in_force r)
    (or_price r) (or_price2 r) (or_conditional_close r) = inr tt ↔
  (or_userref r = None ∨ or_cl_ord_id r = None) ∧
  (or_margin r = false ∨ ws_carries (or_leverage r) (or_conditional_close r)) ∧
  validate_order_gates (or_order_type r) (or_leverage r) (or_margin r) (or_reduce_only r)
    (or_time_in_force r) = inr tt ∧
  trailing_ok (or_order_type r) (or_price r) (or_price2 r) ∧
  validate_close (or_conditional_close r) = inr tt.
Proof.
  unfold validate_add_order. rewrite <-validate_trailing_price_ok, <-ws_field_ok.
  destruct (or_userref r), (or_cl_ord_id r); cbn; [naive_solver|..].
  all: destruct (or_margin r); cbn; [destruct (close_ws_field _ _)|];
    rewrite ?check_ok; naive_solver.
Qed.
End Validation.

(** C16: An order passes validation exactly when it is well-formed: one client identifier at
    most, a kind that can be placed, leverage where settling or reducing needs it, fill-or-kill
    only on limit kinds, trailing prices as positive offsets with their limit leg, and fields
    that some single transport carries; what passes is accepted by the field check of REST or of
    the WebSocket. *)
Theorem order_validate_exact {D} `{!DecimalOps D} (r : OrderRequest D) :
  (order_validate r = inr tt ↔ order_wf r) ∧
  (order_wf r → rest_unrepresentable_field (or_margin r) = None ∨
     close_ws_field (bool_decide (is_Some (or_leverage r))) (or_conditional_close r) = None).
Proof.
  split.
  - unfold order_validate.
    rewrite check_ok, validate_add_order_ok, order_gates_ok, validate_close_ok.
    assert (reject_unsupported_deadline (or_deadline r) = inr tt ↔ or_deadline r = None) as ->
      by (by destruct (or_deadline r)).
    split; [intros; destruct_and!; by constructor|]. by intros [].
  - intros [_ _ Hp _ _ _ _ _ _]. destruct Hp as [-> | Hw]; [by left|right]. by apply ws_field_ok.
Qed.

#[local] Existing Instance whole_decimal.

Lemma order_validate_exact_witness :
  order_validate sample_order = inr tt ∧ order_wf sample_order.
Proof.
  assert (order_validate sample_order = inr tt) as H by reflexivity.
  split; [exact H|]. exact (proj1 (proj1 (order_validate_exact sample_order)) H).
Defined.

(** ** Forms *)

Section Forms.
Context {D : Type} `{!DecimalOps D}.

(** The fields that have a value. *)
Definition present (fields : list (string * option string)) : list (string * string) :=
  omap (λ f, pair f.1 <$> f.2) fields.

Lemma present_cons k o l : present ((k, o) :: l) = (option_list (pair k <$> o) ++ present l)%list.
Proof. by destruct o. Qed.

Lemma elem_of_present k v fields : (k, v) ∈ present fields ↔ (k, Some v) ∈ fields.
Proof.
  unfold present. rewrite list_elem_of_omap. split.
  - intros ([k' [v'|]] & Hin & [=]). by subst.
  - intros H. by exists (k, Some v).
Qed.

Lemma form_field_present {A} key (f : A → string) o : form_field key f o = option_list (pair key <$> (f <$> o)).
Proof. by destruct o. Qed.

Lemma flag_field_present key b :
  flag_field key b = option_list (pair key <$> (if b then Some "true" else None)).
Proof. by destruct b. Qed.

Lemma form_field_keys {A} key (f : A → string) o : (form_field key f o).*1 `sublist_of` [key].
Proof. destruct o; cbn; repeat constructor. Qed.

Lemma flag_field_keys key b : (flag_field key b).*1 `sublist_of` [key].
Proof. destruct b; cbn; repeat constructor. Qed.

(** The closing clause lists its three keys in order. *)
Definition close_keys : list string := ["close[ordertype]"; "close[price]"; "close[price2]"].

Lemma close_form_keys (cc : option (ConditionalClose D)) :
  (default [] (close_push_form "close" <$> cc)).*1 `sublist_of` close_keys.
Proof.
  destruct cc as [c|]; cbn; [|apply sublist_nil_l].
  do 2 apply sublist_skip. apply (form_field_keys "close[price2]").
Qed.

(** Every key an order form may hold, in the order it is written. *)
Definition order_keys : list string :=
  ["pair"; "volume"; "ordertype"] ++ ["price"] ++ ["price2"] ++ ["leverage"] ++ ["oflags"] ++
  ["reduce_only"] ++ ["stptype"] ++ ["trigger"] ++ ["timeinforce"] ++ ["displayvol"] ++
  ["starttm"] ++ ["expiretm"] ++ ["userref"] ++ ["cl_ord_id"] ++ close_keys ++ ["validate"] ++
  ["type"].

Lemma order_form_keys (r : OrderRequest D) : (order_to_form r).*1 `sublist_of` order_keys.
Proof.
  unfold order_to_form, add_order_to_form, order_keys. rewrite <-!app_assoc, !fmap_app.
  repeat (apply sublist_app; [first [apply form_field_keys|apply flag_field_keys
    |apply close_form_keys|done]|]). done.
Qed.

(** The text of a price: a relative one has its sign and its unit. *)
Definition price_text (p : Price D) : string :=
  match p with
  | Absolute d => dec_to_string d
  | Offset unit d =>
      ((if dec_is_sign_negative d then "" else "+") ++ dec_to_string d ++
       match unit with Quote => "" | Percent => "%" end)%string
  end.

(** What each field of an order is on the wire, if it is there. *)
Definition order_fields (r : OrderRequest D) : list (string * option string) :=
  let cc := or_conditional_close r in
  [("pair", Some (or_pair r)); ("volume", Some (dec_to_string (or_volume r)));
   ("ordertype", Some (order_type_str (or_order_type r)));
   ("price", price_text <$> or_price r); ("price2", price_text <$> or_price2 r);
   ("leverage", decimal <$> or_leverage r);
   ("oflags", match or_oflags r with [] => None | fs => Some (join "," (oflag_str <$> fs)) end);
   ("reduce_only", if decide (or_reduce_only r = Some true) then Some "true" else None);
   ("stptype", stp_type_str <$> or_stp_type r); ("trigger", trigger_str <$> or_trigger r);
   ("timeinforce", tif_str <$> or_time_in_force r);
   ("displayvol", dec_to_string <$> or_display_vol r);
   ("starttm", time_to_rest_form <$> or_start_time r);
   ("expiretm", time_to_rest_form <$> or_expire_time r);
   ("userref", int_text <$> or_userref r); ("cl_ord_id", or_cl_ord_id r);
   ("close[ordertype]", close_order_type_str ∘ close_ordertype <$> cc);
   ("close[price]", price_text ∘ close_price <$> cc);
   ("close[price2]", cc ≫= λ c, price_text <$> close_price2 c);
   ("validate", if or_validate r then Some "true" else None);
   ("type", Some (side_str (or_side r)))].

Lemma price_text_rest (p : Price D) : price_to_rest_form p = price_text p.
Proof.
  destruct p as [d|[] d]; cbn; destruct (dec_is_sign_negative d); cbn; try done;
    by rewrite ?str_app_nil.
Qed.

Lemma close_form_present (cc : option (ConditionalClose D)) :
  default [] (close_push_form "close" <$> cc) =
  present [("close[ordertype]", close_order_type_str ∘ close_ordertype <$> cc);
           ("close[price]", price_text ∘ close_price <$> cc);
           ("close[price2]", cc ≫= λ c, price_text <$> close_price2 c)].
Proof.
  destruct cc as [[ty p [p2|]]|]; unfold close_push_form; cbn; by rewrite ?price_text_rest.
Qed.

Lemma order_form_present (r : OrderRequest D) : order_to_form r = present (order_fields r).
Proof.
  assert (∀ o : option (Price D), price_to_rest_form <$> o = price_text <$> o) as Hp
    by (intros [p|]; [cbn; by rewrite price_text_rest|done]).
  unfold order_to_form, add_order_to_form, order_fields.
  rewrite !form_field_present, !flag_field_present, close_form_present, !Hp, bool_decide_decide,
    !present_cons, <-!app_assoc, !option_fmap_id.
  by destruct (or_oflags r), (decide (or_reduce_only r = Some true)).
Qed.
End Forms.

(** ** Parameters *)

(** Inserting a key sets it and leaves the others. *)
Lemma jget_cons k k' v m : jget k ((k', v) :: m) = if String.eqb k' k then Some v else jget k m.
Proof. unfold jget, json_get. cbn. by destruct (String.eqb k' k). Qed.

Lemma jget_jinsert k k' v m : jget k (jinsert k' v m) = if String.eqb k' k then Some v else jget k m.
Proof.
  induction m as [|[k2 v2] m IH]; cbn [jinsert]; [apply jget_cons|].
  destruct (String.compare k' k2) eqn:Hc; rewrite ?jget_cons, ?IH; try done.
  - apply String.compare_eq_iff in Hc as ->. by destruct (String.eqb k2 k).
  - destruct (String.eqb_spec k' k), (String.eqb_spec k2 k); try done. subst.
    pose proof (String.compare_antisym k k) as Hk. by rewrite Hc in Hk.
Qed.

(** The function inserts no [k]. *)
Definition leaves (k : string) (f : JMap → JMap) : Prop := ∀ m, jget k (f m) = jget k m.

Section Params.
Context {D : Type} `{!DecimalOps D} (number_parses : string → bool).

Lemma leaves_jinsert k k' v : k' ≠ k → leaves k (jinsert k' v).
Proof. intros Hk m. rewrite jget_jinsert. by destruct (String.eqb_spec k' k). Qed.

Lemma leaves_opt {A} k k' (f : A → Json) o : k' ≠ k → leaves k (jinsert_opt k' f o).
Proof. intros Hk m. destruct o; [by apply leaves_jinsert|done]. Qed.

Lemma leaves_if k b k' v : k' ≠ k → leaves k (jinsert_if b k' v).
Proof. intros Hk m. destruct b; [by apply leaves_jinsert|done]. Qed.

Lemma jget_if k b k' v m :
  jget k (jinsert_if b k' v m) = if b && String.eqb k' k then Some v else jget k m.
Proof. destruct b; [apply jget_jinsert|done]. Qed.

Lemma leaves_price k key tkey (p : option (Price D)) :
  key ≠ k → tkey ≠ k → leaves k (insert_price number_parses key tkey p).
Proof.
  intros H1 H2 m. destruct p as [p|]; [|done]. unfold insert_price.
  destruct (price_to_ws p) as [v ty]. by rewrite !leaves_jinsert.
Qed.

Lemma leaves_shape k (v : AddOrderWsView (D:=D)) :
  k ≠ "limit_price" → k ≠ "limit_price_type" → k ≠ "triggers" → leaves k (insert_shape number_parses v).
Proof.
  intros H1 H2 H3 m. unfold insert_shape.
  destruct (price_shape (v_order_type v)) as [| |[]]; [done|by apply leaves_price|..];
    rewrite ?leaves_price by done; by rewrite leaves_jinsert.
Qed.

Lemma leaves_oflags k flags m :
  k ≠ "post_only" → k ≠ "fee_preference" → k ≠ "no_mpp" →
  jget k (foldl insert_oflag m flags) = jget k m.
Proof.
  intros H1 H2 H3. revert m.
  induction flags as [|f flags IH]; intros m; [done|].
  cbn [foldl]. rewrite IH. destruct f; cbn [insert_oflag]; [by rewrite leaves_jinsert|by rewrite leaves_jinsert| |by rewrite leaves_jinsert].
  destruct (jget "fee_preference" m); [done|by rewrite leaves_jinsert].
Qed.

(** The dry-run flag and the client id of an order's parameters. *)
Lemma add_order_map_validate (v : AddOrderWsView (D:=D)) :
  jget "validate" (add_order_map number_parses v) =
  if v_validate v then Some (JBool true) else None.
Proof.
  unfold add_order_map. cbv zeta. rewrite jget_if, andb_true_r. destruct (v_validate v); [done|].
  repeat rewrite ?leaves_opt, ?leaves_if, ?leaves_oflags, ?leaves_shape, ?leaves_jinsert
    by done. reflexivity.
Qed.

Lemma order_view_validate (r : OrderRequest D) : v_validate (order_view r) = or_validate r.
Proof. unfold order_view. by destruct (flat_legs _) as [[]]. Qed.

End Params.

(** The words of the fields that are one of a few. *)
Definition words_of_exchange : Prop :=
  side_str <$> [Buy; Sell] = ["buy"; "sell"] ∧
  order_type_str <$> [Market; Limit; Iceberg; StopLoss; TakeProfit; StopLossLimit;
                      TakeProfitLimit; TrailingStop; TrailingStopLimit; SettlePosition] =
    ["market"; "limit"; "iceberg"; "stop-loss"; "take-profit"; "stop-loss-limit";
     "take-profit-limit"; "trailing-stop"; "trailing-stop-limit"; "settle-position"] ∧
  (∀ t, close_order_type_str t = order_type_str (to_order_type t)) ∧
  oflag_str <$> [Post; Fcib; Fciq; Nompp] = ["post"; "fcib"; "fciq"; "nompp"] ∧
  stp_type_str <$> [CancelNewest; CancelOldest; CancelBoth] =
    ["cancel-newest"; "cancel-oldest"; "cancel-both"] ∧
  trigger_str <$> [TriggerLast; TriggerIndex] = ["last"; "index"] ∧
  tif_str <$> [Gtc; Ioc; Gtd; Fok] = ["gtc"; "ioc"; "gtd"; "fok"].

(** C17: The form of an order names no key twice and has exactly the fields the request sets, each
    with its text, in the words of the exchange; the dry-run flag is there exactly when asked
    for, and then so is the WebSocket's. *)
Theorem order_form_faithful {D} `{!DecimalOps D} number_parses (r : OrderRequest D) :
  NoDup (order_to_form r).*1 ∧
  (∀ key v, (key, v) ∈ order_to_form r ↔ (key, Some v) ∈ order_fields r) ∧
  words_of_exchange ∧
  (∀ v, ("validate", v) ∈ order_to_form r ↔ or_validate r = true ∧ v = "true") ∧
  json_get "validate" (compose_add_order_params number_parses (order_view r)) =
    (if or_validate r then Some (JBool true) else None).
Proof.
  assert (∀ key v, (key, v) ∈ order_to_form r ↔ (key, Some v) ∈ order_fields r) as Hin
    by (intros key v; by rewrite order_form_present, elem_of_present).
  split_and!; [|exact Hin|by split_and!; [..|intros []| | | |]| |].
  - eapply sublist_NoDup; [|apply order_form_keys]. apply (bool_decide_unpack _). reflexivity.
  - intros v. rewrite Hin. unfold order_fields. rewrite !elem_of_cons, elem_of_nil.
    destruct (or_validate r); naive_solver.
  - rewrite <-(order_view_validate r). apply add_order_map_validate.
Qed.
