(* ===== verification/Reactor.v ===== *)
(** * Reactor: the I/O reactor's state and the frames it sends

    [rust/src/dispatch/io_reactor/{mod,subscribe_send,send_ready,socket_lifecycle}.rs].
    The reactor task owns the connections, the registry, the handlers and the sockets, so
    its functions are programs of a state monad [RM] over all of it.  A program of a
    connection ([Connection.M]) runs inside with [conn].  What the reactor does to the
    outside is the log: frames offered to a socket with the answer, envelopes published,
    refreshes spawned, callbacks queued.  The bus outlives the reactor's connections, which
    hold it, so its back reference always upgrades.  A socket is its connection id. *)

From Stdlib Require Import Ascii String.
From S2P Require Import Prelude F64 Types Events Errors Knobs RateBudget Rest Book Connection TokenLifecycle Registry Handlers.
Local Open Scope string_scope.
Local Open Scope N_scope.

(** ** Vocabulary *)

(** [events.rs] *)
Definition is_order_method (op : WsOp) : bool :=
  match op with
  | OpAddOrder | OpAmendOrder | OpCancelOrder | OpCancelAll | OpCancelAllOrdersAfter
  | OpBatchAdd => true
  end.

Definition from_method (method : string) : option WsOp :=
  if String.eqb method "add_order" then Some OpAddOrder
  else if String.eqb method "amend_order" then Some OpAmendOrder
  else if String.eqb method "cancel_order" then Some OpCancelOrder
  else if String.eqb method "cancel_all" then Some OpCancelAll
  else if String.eqb method "cancel_all_orders_after" then Some OpCancelAllOrdersAfter
  else if String.eqb method "batch_add" then Some OpBatchAdd
  else None.

(** [WsSocket::send_frame] *)
Inductive SendResult := SendAccepted | Backpressure | WriterClosed.

#[export] Instance SendResult_eq_dec : EqDecision SendResult.
Proof. solve_decision. Defined.

Inductive SendOutcome := FrameSent | Backpressured | WriterDead.

Inductive SubscribeSend :=
  | Resend | FirstSigned | RemainingSigned | RegisterPublic | RegisterWhileOpenAuth
  | ResubscribeReplay.

Definition writer_closed_context (s : SubscribeSend) : string :=
  match s with
  | Resend => "outbound writer task terminated (discovered on subscribe resend)"
  | FirstSigned => "outbound writer task terminated (first signed subscribe)"
  | RemainingSigned => "outbound writer task terminated (remaining signed subscribes)"
  | RegisterPublic => "outbound writer task terminated (Register public subscribe)"
  | RegisterWhileOpenAuth =>
      "outbound writer task terminated (Register-while-Open auth subscribe)"
  | ResubscribeReplay => "outbound writer task terminated (resubscribe replay)"
  end.

(** What a handler's decoder makes of a frame; a panic is caught. *)
Inductive HandlerDecodeOutcome :=
  | HdDeliver (payload : N)
  | HdDecodeFailed
  | HdPanicked (message : string).

#[export] Instance WsUrl_countable : Countable WsUrl.
Proof.
  refine (inj_countable' (λ u, bool_decide (u = Auth)) (λ b : bool, if b then Auth else Public) _).
  by intros [].
Defined.

(** [socket_lifecycle.rs] *)
Definition channel_ws_url (channel : ChannelName) : WsUrl :=
  match channel with Executions | Balances => Auth | _ => Public end.

Section Reactor.
Context {Decimal : Type} (dcmp : Decimal → Decimal → comparison)
  (crc32 : list (string * string) → list (string * string) → N)
  (dec_from_str : string → option Decimal)
  (decode_frame : Json → option RawBookData).

Abbreviation Registry := (@SubscriptionRegistry Decimal).
Abbreviation Entry := (@SubscriptionEntry Decimal).

(** A payload shared by the handlers of a frame: a maintained book's update, or what a
    decoder returned. *)
Inductive DataPayload :=
  | TypedUpdate (u : @OrderBookUpdate Decimal)
  | DecodedPayload (n : N).

(** What the reactor does outside its state.  A frame is logged with the state of the
    connection it was offered on and the socket's answer. *)
Inductive ReactorEffect :=
  | FxConn (url : WsUrl) (e : FsmEffect)
  | FxFrame (url : WsUrl) (sock : N) (state : option ConnectionState) (frame : Json)
      (result : SendResult)
  | FxPublish (e : EventEnvelope)
  | FxReject (req_id : N) (err : ConnectionErrorKind)
  | FxRefresh (task : TokenRefreshTask)
  | FxDeliver (payload : DataPayload) (callback : N) (channel : ChannelName)
      (handler_id : HandlerId)
  | FxWarn (site : string) (channel : option ChannelName)
  | FxResolveWaiters (e : EventEnvelope)
  | FxCloseDispatch.

(** ** The reactor *)

Record Reactor := mkReactor {
  rx_conns : gmap WsUrl ManagedConnection;
  rx_registry : Registry;
  rx_handlers : Handlers;
  rx_presence : PresenceMirror;
  rx_sockets : gmap WsUrl N;
  rx_mirrors : gmap WsUrl ConnectionState;
  rx_upgrade_guards : gmap WsUrl N;
  rx_tokens : TokenState;
  rx_auth_send_ready : bool;
  rx_auth_has_subscriptions : bool;
  rx_drop_tracker : gmap ChannelName (MonotonicInstant * N);
  rx_warn_tracker : gmap (string * option ChannelName) MonotonicInstant;
  rx_next_request_id : N;
  rx_pending_client_close : option (N * MonotonicInstant);
  rx_last_liveness_epoch : N;
  rx_running : bool;
  rx_budget : ConnectionRateBudget;
  rx_clock_reads : nat;
  rx_jitter_draws : nat;
  rx_next_socket : N;
  rx_sends : nat;
  rx_log : list ReactorEffect;
}.

Definition set_rx_registry (v : Registry) (r : Reactor) : Reactor :=
  mkReactor (rx_conns r) v (rx_handlers r) (rx_presence r) (rx_sockets r) (rx_mirrors r)
    (rx_upgrade_guards r) (rx_tokens r) (rx_auth_send_ready r) (rx_auth_has_subscriptions r)
    (rx_drop_tracker r) (rx_warn_tracker r) (rx_next_request_id r)
    (rx_pending_client_close r) (rx_last_liveness_epoch r) (rx_running r) (rx_budget r)
    (rx_clock_reads r) (rx_jitter_draws r) (rx_next_socket r) (rx_sends r) (rx_log r).
Definition set_rx_sockets (v : gmap WsUrl N) (r : Reactor) : Reactor :=
  mkReactor (rx_conns r) (rx_registry r) (rx_handlers r) (rx_presence r) v (rx_mirrors r)
    (rx_upgrade_guards r) (rx_tokens r) (rx_auth_send_ready r) (rx_auth_has_subscriptions r)
    (rx_drop_tracker r) (rx_warn_tracker r) (rx_next_request_id r)
    (rx_pending_client_close r) (rx_last_liveness_epoch r) (rx_running r) (rx_budget r)
    (rx_clock_reads r) (rx_jitter_draws r) (rx_next_socket r) (rx_sends r) (rx_log r).
Definition set_rx_mirrors (v : gmap WsUrl ConnectionState) (r : Reactor) : Reactor :=
  mkReactor (rx_conns r) (rx_registry r) (rx_handlers r) (rx_presence r) (rx_sockets r) v
    (rx_upgrade_guards r) (rx_tokens r) (rx_auth_send_ready r) (rx_auth_has_subscriptions r)
    (rx_drop_tracker r) (rx_warn_tracker r) (rx_next_request_id r)
    (rx_pending_client_close r) (rx_last_liveness_epoch r) (rx_running r) (rx_budget r)
    (rx_clock_reads r) (rx_jitter_draws r) (rx_next_socket r) (rx_sends r) (rx_log r).
Definition set_rx_upgrade_guards (v : gmap WsUrl N) (r : Reactor) : Reactor :=
  mkReactor (rx_conns r) (rx_registry r) (rx_handlers r) (rx_presence r) (rx_sockets r)
    (rx_mirrors r) v (rx_tokens r) (rx_auth_send_ready r) (rx_auth_has_subscriptions r)
    (rx_drop_tracker r) (rx_warn_tracker r) (rx_next_request_id r)
    (rx_pending_client_close r) (rx_last_liveness_epoch r) (rx_running r) (rx_budget r)
    (rx_clock_reads r) (rx_jitter_draws r) (rx_next_socket r) (rx_sends r) (rx_log r).
Definition set_rx_tokens (v : TokenState) (r : Reactor) : Reactor :=
  mkReactor (rx_conns r) (rx_registry r) (rx_handlers r) (rx_presence r) (rx_sockets r)
    (rx_mirrors r) (rx_upgrade_guards r) v (rx_auth_send_ready r)
    (rx_auth_has_subscriptions r) (rx_drop_tracker r) (rx_warn_tracker r)
    (rx_next_request_id r) (rx_pending_client_close r) (rx_last_liveness_epoch r)
    (rx_running r) (rx_budget r) (rx_clock_reads r) (rx_jitter_draws r) (rx_next_socket r)
    (rx_sends r) (rx_log r).
Definition set_rx_auth_send_ready (v : bool) (r : Reactor) : Reactor :=
  mkReactor (rx_conns r) (rx_registry r) (rx_handlers r) (rx_presence r) (rx_sockets r)
    (rx_mirrors r) (rx_upgrade_guards r) (rx_tokens r) v (rx_auth_has_subscriptions r)
    (rx_drop_tracker r) (rx_warn_tracker r) (rx_next_request_id r)
    (rx_pending_client_close r) (rx_last_liveness_epoch r) (rx_running r) (rx_budget r)
    (rx_clock_reads r) (rx_jitter_draws r) (rx_next_socket r) (rx_sends r) (rx_log r).
Definition set_rx_auth_has_subscriptions (v : bool) (r : Reactor) : Reactor :=
  mkReactor (rx_conns r) (rx_registry r) (rx_handlers r) (rx_presence r) (rx_sockets r)
    (rx_mirrors r) (rx_upgrade_guards r) (rx_tokens r) (rx_auth_send_ready r) v
    (rx_drop_tracker r) (rx_warn_tracker r) (rx_next_request_id r)
    (rx_pending_client_close r) (rx_last_liveness_epoch r) (rx_running r) (rx_budget r)
    (rx_clock_reads r) (rx_jitter_draws r) (rx_next_socket r) (rx_sends r) (rx_log r).
Definition set_rx_drop_tracker (v : gmap ChannelName (MonotonicInstant * N)) (r : Reactor) : Reactor :=
  mkReactor (rx_conns r) (rx_registry r) (rx_handlers r) (rx_presence r) (rx_sockets r)
    (rx_mirrors r) (rx_upgrade_guards r) (rx_tokens r) (rx_auth_send_ready r)
    (rx_auth_has_subscriptions r) v (rx_warn_tracker r) (rx_next_request_id r)
    (rx_pending_client_close r) (rx_last_liveness_epoch r) (rx_running r) (rx_budget r)
    (rx_clock_reads r) (rx_jitter_draws r) (rx_next_socket r) (rx_sends r) (rx_log r).
Definition set_rx_warn_tracker (v : gmap (string * option ChannelName) MonotonicInstant) (r : Reactor) : Reactor :=
  mkReactor (rx_conns r) (rx_registry r) (rx_handlers r) (rx_presence r) (rx_sockets r)
    (rx_mirrors r) (rx_upgrade_guards r) (rx_tokens r) (rx_auth_send_ready r)
    (rx_auth_has_subscriptions r) (rx_drop_tracker r) v (rx_next_request_id r)
    (rx_pending_client_close r) (rx_last_liveness_epoch r) (rx_running r) (rx_budget r)
    (rx_clock_reads r) (rx_jitter_draws r) (rx_next_socket r) (rx_sends r) (rx_log r).
Definition set_rx_next_request_id (v : N) (r : Reactor) : Reactor :=
  mkReactor (rx_conns r) (rx_registry r) (rx_handlers r) (rx_presence r) (rx_sockets r)
    (rx_mirrors r) (rx_upgrade_guards r) (rx_tokens r) (rx_auth_send_ready r)
    (rx_auth_has_subscriptions r) (rx_drop_tracker r) (rx_warn_tracker r) v
    (rx_pending_client_close r) (rx_last_liveness_epoch r) (rx_running r) (rx_budget r)
    (rx_clock_reads r) (rx_jitter_draws r) (rx_next_socket r) (rx_sends r) (rx_log r).
Definition set_rx_pending_client_close (v : option (N * MonotonicInstant)) (r : Reactor) : Reactor :=
  mkReactor (rx_conns r) (rx_registry r) (rx_handlers r) (rx_presence r) (rx_sockets r)
    (rx_mirrors r) (rx_upgrade_guards r) (rx_tokens r) (rx_auth_send_ready r)
    (rx_auth_has_subscriptions r) (rx_drop_tracker r) (rx_warn_tracker r)
    (rx_next_request_id r) v (rx_last_liveness_epoch r) (rx_running r) (rx_budget r)
    (rx_clock_reads r) (rx_jitter_draws r) (rx_next_socket r) (rx_sends r) (rx_log r).
Definition set_rx_last_liveness_epoch (v : N) (r : Reactor) : Reactor :=
  mkReactor (rx_conns r) (rx_registry r) (rx_handlers r) (rx_presence r) (rx_sockets r)
    (rx_mirrors r) (rx_upgrade_guards r) (rx_tokens r) (rx_auth_send_ready r)
    (rx_auth_has_subscriptions r) (rx_drop_tracker r) (rx_warn_tracker r)
    (rx_next_request_id r) (rx_pending_client_close r) v (rx_running r) (rx_budget r)
    (rx_clock_reads r) (rx_jitter_draws r) (rx_next_socket r) (rx_sends r) (rx_log r).
Definition set_rx_running (v : bool) (r : Reactor) : Reactor :=
  mkReactor (rx_conns r) (rx_registry r) (rx_handlers r) (rx_presence r) (rx_sockets r)
    (rx_mirrors r) (rx_upgrade_guards r) (rx_tokens r) (rx_auth_send_ready r)
    (rx_auth_has_subscriptions r) (rx_drop_tracker r) (rx_warn_tracker r)
    (rx_next_request_id r) (rx_pending_client_close r) (rx_last_liveness_epoch r) v
    (rx_budget r) (rx_clock_reads r) (rx_jitter_draws r) (rx_next_socket r) (rx_sends r)
    (rx_log r).
Definition set_handlers (h : Handlers) (m : PresenceMirror) (r : Reactor) : Reactor :=
  mkReactor (rx_conns r) (rx_registry r) h m (rx_sockets r) (rx_mirrors r)
    (rx_upgrade_guards r) (rx_tokens r) (rx_auth_send_ready r)
    (rx_auth_has_subscriptions r) (rx_drop_tracker r) (rx_warn_tracker r)
    (rx_next_request_id r) (rx_pending_client_close r) (rx_last_liveness_epoch r)
    (rx_running r) (rx_budget r) (rx_clock_reads r) (rx_jitter_draws r)
    (rx_next_socket r) (rx_sends r) (rx_log r).

(** The counters and the log, where a connection's program leaves them. *)
Definition set_conn (url : WsUrl) (w : World) (r : Reactor) : Reactor :=
  mkReactor (<[url := w_mc w]> (rx_conns r)) (rx_registry r) (rx_handlers r)
    (rx_presence r) (rx_sockets r) (rx_mirrors r) (rx_upgrade_guards r) (rx_tokens r)
    (rx_auth_send_ready r) (rx_auth_has_subscriptions r) (rx_drop_tracker r)
    (rx_warn_tracker r) (rx_next_request_id r) (rx_pending_client_close r)
    (rx_last_liveness_epoch r) (rx_running r) (w_budget w) (w_clock_reads w)
    (w_jitter_draws w) (w_next_socket w) (rx_sends r)
    (rx_log r ++ map (FxConn url) (w_effects w)).

Definition tick (r : Reactor) : Reactor :=
  mkReactor (rx_conns r) (rx_registry r) (rx_handlers r) (rx_presence r) (rx_sockets r)
    (rx_mirrors r) (rx_upgrade_guards r) (rx_tokens r) (rx_auth_send_ready r)
    (rx_auth_has_subscriptions r) (rx_drop_tracker r) (rx_warn_tracker r)
    (rx_next_request_id r) (rx_pending_client_close r) (rx_last_liveness_epoch r)
    (rx_running r) (rx_budget r) (S (rx_clock_reads r)) (rx_jitter_draws r)
    (rx_next_socket r) (rx_sends r) (rx_log r).

Definition append_log (sends : nat) (e : ReactorEffect) (r : Reactor) : Reactor :=
  mkReactor (rx_conns r) (rx_registry r) (rx_handlers r) (rx_presence r) (rx_sockets r)
    (rx_mirrors r) (rx_upgrade_guards r) (rx_tokens r) (rx_auth_send_ready r)
    (rx_auth_has_subscriptions r) (rx_drop_tracker r) (rx_warn_tracker r)
    (rx_next_request_id r) (rx_pending_client_close r) (rx_last_liveness_epoch r)
    (rx_running r) (rx_budget r) (rx_clock_reads r) (rx_jitter_draws r)
    (rx_next_socket r) sends (rx_log r ++ [e]).

(** ** The monad *)

Record ReactorEnv := mkReactorEnv {
  re_env : Env;
  re_send : nat → SendResult;
  re_decode : N → Json → HandlerDecodeOutcome;
  re_fingerprint : string;
}.

Definition RM (A : Type) : Type := Reactor → A * Reactor.

#[export] Instance RM_ret : MRet RM := λ A a r, (a, r).
#[export] Instance RM_bind : MBind RM := λ A B k m r, let '(a, r') := m r in k a r'.

Definition rgets {A} (f : Reactor → A) : RM A := λ r, (f r, r).
Definition rmodify (f : Reactor → Reactor) : RM () := λ r, (tt, f r).
Definition rlog (e : ReactorEffect) : RM () :=
  rmodify (λ r, append_log (rx_sends r) e r).
Definition rwhen (b : bool) (m : RM ()) : RM () := if b then m else mret tt.

Fixpoint rfor_each {A} (f : A → RM ()) (l : list A) : RM () :=
  match l with [] => mret tt | a :: l => f a;; rfor_each f l end.

(** A step on the connection of [url], if there is one. *)
Definition conn {A} `{Inhabited A} (url : WsUrl) (m : M A) : RM A := λ r,
  match rx_conns r !! url with
  | Some mc =>
      let '(a, w) := m (mkWorld mc (rx_budget r) (rx_clock_reads r) (rx_jitter_draws r)
                          (rx_next_socket r) []) in
      (a, set_conn url w r)
  | None => (inhabitant, r)
  end.

Definition conn_gets {A} (url : WsUrl) (f : ManagedConnection → A) : RM (option A) :=
  rgets (λ r, f <$> rx_conns r !! url).

Definition conn_state (url : WsUrl) : RM (option ConnectionState) := conn_gets url mc_state.

Section Program.
Context (renv : ReactorEnv).
Let env := re_env renv.

Definition rclock : RM MonotonicInstant := λ r, (env_clock env (rx_clock_reads r), tick r).

Definition publish (event_type : EventType) (event_version : N) (t : MonotonicInstant)
  (payload : EventPayload) : RM () :=
  rlog (FxPublish (mkEnvelope event_type event_version t None payload)).

Definition handle_conn_event (url : WsUrl) (ev : FsmEvent) : RM () :=
  conn url (handle_event env ev).

(** [socket.send_frame] *)
Definition send_frame (url : WsUrl) (sock : N) (frame : Json) : RM SendResult :=
  n ← rgets rx_sends;
  state ← conn_state url;
  let result := re_send renv n in
  rmodify (append_log (S n) (FxFrame url sock state frame result));;
  mret result.

(** ** The authentication stack *)

Definition auth_cached_token : RM (option WsToken) :=
  rgets (λ r, cached_token (manager (rx_tokens r))).

(** [Some(t) if !t.is_expired(now)] *)
Definition auth_valid_token (now : MonotonicInstant) : RM (option string) :=
  t ← auth_cached_token;
  mret (match t with
        | Some t => if is_expired now t then None else Some (token_value t)
        | None => None
        end).

Definition auth_token_op (op : TokenOp) : RM () :=
  rmodify (λ r, set_rx_tokens (token_op (re_fingerprint renv) op (rx_tokens r)) r).

Definition auth_invalidate_cached_token : RM () := auth_token_op TkInvalidate.

Definition auth_force_refresh (reason : RefreshReason) : RM () :=
  m ← rgets (λ r, manager (rx_tokens r));
  auth_token_op (TkReactive reason);;
  rlog (FxRefresh (reactive_refresh reason m).1).

Definition auth_proactive_refresh : RM () :=
  m ← rgets (λ r, manager (rx_tokens r));
  auth_token_op TkProactive;;
  match (proactive_refresh m).1 with
  | Some task => rlog (FxRefresh task)
  | None => mret tt
  end.

(** ** [socket_lifecycle.rs] *)

Definition write_mirror (url : WsUrl) : RM () :=
  state ← conn_state url;
  rmodify (λ r,
    match state, rx_mirrors r !! url with
    | Some s, Some _ => set_rx_mirrors (<[url := s]> (rx_mirrors r)) r
    | _, _ => r
    end).

Definition remove_socket (url : WsUrl) : RM () :=
  rmodify (λ r, set_rx_upgrade_guards (delete url (rx_upgrade_guards r))
                  (set_rx_sockets (delete url (rx_sockets r)) r)).

(** [wire_upgrade_bridge] subscribes for the outcome of the socket's upgrade. *)
Definition wire_upgrade_bridge (url : WsUrl) (connection_id : N) : RM () :=
  rmodify (λ r, set_rx_upgrade_guards (<[url := connection_id]> (rx_upgrade_guards r)) r).

Definition conn_socket (url : WsUrl) : RM (option N) :=
  s ← conn_gets url mc_socket; mret (s ≫= id).

Definition project_socket_and_wire_bridge (url : WsUrl) (prev_cid : option N) : RM () :=
  socket ← conn_socket url;
  match socket with
  | Some cid =>
      rmodify (λ r, set_rx_sockets (<[url := cid]> (rx_sockets r)) r);;
      rwhen (negb (bool_decide (Some cid = prev_cid))) (wire_upgrade_bridge url cid)
  | None => remove_socket url
  end.

Definition compose_unsubscribe_frame (channel : ChannelName) (pair : option Symbol)
  (params : option SubscribeParams) (token : option string) : Json :=
  let frame :=
    match params with
    | Some params =>
        build_subscribe_frame "unsubscribe" channel (option_list pair) params 0
    | None =>
        json_object
          [("method", JString "unsubscribe");
           ("params", json_object
              (("channel", JString (channel_str channel)) ::
                 opt_field "symbol" ((λ s, JArray [JString s]) <$> pair)));
           ("req_id", JNumber (decimal 0))]
    end in
  match token with Some tok => inject_token frame tok | None => frame end.

Definition unsubscribe_and_terminate (channel : ChannelName) (pair : option Symbol)
  (params : option SubscribeParams) : RM () :=
  let url := channel_ws_url channel in
  cached ← (if decide (url = Auth) then auth_cached_token else mret None);
  socket ← rgets (λ r, rx_sockets r !! url);
  (match socket with
   | Some sock =>
       send_frame url sock
         (compose_unsubscribe_frame channel pair params (token_value <$> cached));;
       mret tt
   | None => mret tt
   end);;
  now ← rclock;
  publish SubscriptionTerminatedEvent 2 now
    (PSubscriptionTerminated channel pair TermClientClosed None now).

Definition send_single_unsubscribe (url : WsUrl) (channel : ChannelName)
  (pair : option Symbol) (params : SubscribeParams) : RM () :=
  socket ← rgets (λ r, rx_sockets r !! url);
  match socket with
  | Some sock =>
      send_frame url sock (compose_unsubscribe_frame channel pair (Some params) None);;
      mret tt
  | None => mret tt
  end.

(** ** [send_ready.rs] *)

Definition store_send_ready (url : WsUrl) : RM bool :=
  now ← rclock;
  state ← conn_state url;
  reg ← rgets rx_registry;
  token ← auth_valid_token now;
  let send_ready :=
    bool_decide (url = Auth) && bool_decide (state = Some Authenticating)
    && negb (has_url_entry Auth reg) && bool_decide (is_Some token) in
  rmodify (set_rx_auth_send_ready send_ready);;
  mret send_ready.

Definition refresh_send_ready (url : WsUrl) : RM () :=
  ready ← store_send_ready url;
  rwhen ready (
    now ← rclock;
    publish ConnectionSendReadyEvent 1 now (PConnectionSendReady url now)).

(** ** [subscribe_send.rs] *)

Definition ack_due : RM MonotonicInstant :=
  now ← rclock;
  mret (now + from_millis (subscribe_ack_timeout_ms (env_knobs env))).

Definition arm_subscribe_ack_timer_with_req_id (url : WsUrl) (channel : ChannelName)
  (pair : option Symbol) (req_id : N) : RM () :=
  due_at ← ack_due;
  conn url (record_subscribe_req_id req_id (channel, pair));;
  conn url (arm_subscribe_ack env (channel, pair) due_at).

Definition drive_writer_closed_abnormal (url : WsUrl) (context : string) : RM () :=
  handle_conn_event url (WireAbnormalClose (AbnormalClose context) true).

Definition send_subscribe_frame (url : WsUrl) (sock : N) (frame : Json)
  (channel : ChannelName) (pair : option Symbol) (send : SubscribeSend) : RM SendOutcome :=
  result ← send_frame url sock frame;
  match result with
  | SendAccepted => mret FrameSent
  | Backpressure =>
      conn url (handle_subscribe_failure env (channel, pair) true None);;
      mret Backpressured
  | WriterClosed =>
      drive_writer_closed_abnormal url (writer_closed_context send);;
      mret WriterDead
  end.

(** Send a frame and, once it is sent, wait for its ack. *)
Definition send_and_arm (url : WsUrl) (sock : N) (frame : Json) (channel : ChannelName)
  (pair : option Symbol) (req_id : N) (send : SubscribeSend) : RM () :=
  outcome ← send_subscribe_frame url sock frame channel pair send;
  match outcome with
  | FrameSent => arm_subscribe_ack_timer_with_req_id url channel pair req_id
  | Backpressured | WriterDead => mret tt
  end.

Definition next_subscribe_req_id (url : WsUrl) : RM N := conn url take_subscribe_req_id.

(** A subscribe waits for a token; the refresh is asked for once. *)
Definition kick_refresh (url : WsUrl) : RM () :=
  awaiting ← conn_gets url mc_awaiting_token_refresh;
  rwhen (bool_decide (awaiting = Some false)) (
    conn url (modify (set_mc_awaiting_token_refresh true));;
    auth_force_refresh AuthHandshakeFailed).

Definition single_subscribe_frame (channel : ChannelName) (pair : option Symbol)
  (params : SubscribeParams) (req_id : N) (token : option string) : Json :=
  let frame :=
    build_subscribe_frame "subscribe" channel (option_list pair) params req_id in
  match token with Some tok => inject_token frame tok | None => frame end.

Definition handle_subscribe_resend (url : WsUrl) (channel : ChannelName)
  (pair : option Symbol) : RM () :=
  reg ← rgets rx_registry;
  match params_for (channel, pair) reg with
  | None => mret tt
  | Some params =>
      token ←
        (if decide (url = Auth) then
           now ← rclock; token ← auth_valid_token now; mret (Some <$> token)
         else mret (Some None));
      match token with
      | None =>
          conn url (defer_open_auth_subscribe (channel, pair) params);;
          conn url (complete_resubscribe_if_empty env);;
          kick_refresh url
      | Some token =>
          socket ← rgets (λ r, rx_sockets r !! url);
          match socket with
          | None => mret tt
          | Some sock =>
              req_id ← next_subscribe_req_id url;
              send_and_arm url sock (single_subscribe_frame channel pair params req_id token)
                channel pair req_id Resend
          end
      end
  end.

Definition send_first_signed_subscribe (url : WsUrl) : RM () :=
  now ← rclock;
  token ← auth_valid_token now;
  match token with
  | None =>
      conn url (modify (set_mc_awaiting_token_refresh true));;
      auth_force_refresh AuthHandshakeFailed
  | Some token =>
      socket ← rgets (λ r, rx_sockets r !! url);
      match socket with
      | None => mret tt
      | Some sock =>
          reg ← rgets rx_registry;
          match compose_first_signed_subscribe_authed url token reg with
          | None => refresh_send_ready url
          | Some (channel, pr, payload) =>
              req_id ← next_subscribe_req_id url;
              send_and_arm url sock (stamp_req_id payload req_id) channel pr req_id FirstSigned
          end
      end
  end.

(** Send a batch of composed frames; [armed] follows each frame sent.  A teardown that
    leaves [Resubscribing] ends the batch. *)
Fixpoint send_batch (url : WsUrl) (sock : N) (send : SubscribeSend)
  (armed : ChannelName → option Symbol → N → RM ())
  (frames : list (ChannelName * option Symbol * Json)) : RM () :=
  match frames with
  | [] => mret tt
  | (channel, pr, payload) :: rest =>
      req_id ← next_subscribe_req_id url;
      outcome ← send_subscribe_frame url sock (stamp_req_id payload req_id) channel pr send;
      match outcome with
      | FrameSent => armed channel pr req_id;; send_batch url sock send armed rest
      | Backpressured =>
          state ← conn_state url;
          if decide (state = Some Resubscribing)
          then send_batch url sock send armed rest else mret tt
      | WriterDead => mret tt
      end
  end.

Definition send_remaining_signed_subscribes (url : WsUrl) (already_sent : option SubKey)
  : RM () :=
  now ← rclock;
  token ← auth_valid_token now;
  reg ← rgets rx_registry;
  match token with
  | None =>
      rfor_each (λ kp : SubKey * SubscribeParams,
          conn url (defer_open_auth_subscribe kp.1 kp.2))
        (live_subscribe_keys_for_url url already_sent reg);;
      kick_refresh url
  | Some token =>
      socket ← rgets (λ r, rx_sockets r !! url);
      match socket with
      | None => mret tt
      | Some sock =>
          send_batch url sock RemainingSigned (arm_subscribe_ack_timer_with_req_id url)
            (match already_sent with
             | Some key => compose_remaining_signed_subscribes_authed url token key reg
             | None => compose_subscribe_frames_for_url_authed url token reg
             end)
      end
  end.

Definition send_single_subscribe (url : WsUrl) (channel : ChannelName)
  (pair : option Symbol) (params : SubscribeParams) : RM () :=
  socket ← rgets (λ r, rx_sockets r !! url);
  match socket with
  | None => mret tt
  | Some sock =>
      req_id ← next_subscribe_req_id url;
      send_and_arm url sock (single_subscribe_frame channel pair params req_id None)
        channel pair req_id RegisterPublic
  end.

Definition send_single_signed_subscribe (url : WsUrl) (channel : ChannelName)
  (pair : option Symbol) (params : SubscribeParams) : RM () :=
  now ← rclock;
  token ← auth_valid_token now;
  match token with
  | None =>
      conn url (defer_open_auth_subscribe (channel, pair) params);;
      kick_refresh url
  | Some token =>
      socket ← rgets (λ r, rx_sockets r !! url);
      match socket with
      | None => mret tt
      | Some sock =>
          req_id ← next_subscribe_req_id url;
          send_and_arm url sock
            (single_subscribe_frame channel pair params req_id (Some token))
            channel pair req_id RegisterWhileOpenAuth
      end
  end.

(** Run a registry operation. *)
Definition with_registry {A} (op : Registry → A * Registry) : RM A := λ r,
  let '(a, reg) := op (rx_registry r) in (a, set_rx_registry reg r).

Definition modify_registry (op : Registry → Registry) : RM () :=
  rmodify (λ r, set_rx_registry (op (rx_registry r)) r).

Definition fresh_request_id : RM N :=
  id ← rgets rx_next_request_id;
  rmodify (set_rx_next_request_id (u64_wrapping_add id 1));;
  mret id.

Definition register_one_and_emit (url : WsUrl) (new : Entry) (ref_id : option HandlerId)
  : RM () :=
  let channel := sub_channel new in
  let pair := sub_pair new in
  let params := sub_params new in
  now ← rclock;
  count ← with_registry (register new now (bool_decide (is_Some ref_id)));
  (match ref_id with
   | Some id => modify_registry (record_guard_ref id (channel, pair))
   | None => mret tt
   end);;
  state ← conn_state url;
  rwhen (bool_decide (state = Some Idle)) (
    prev_cid ← conn_socket url;
    request_id ← fresh_request_id;
    handle_conn_event url (CallStartConnect request_id);;
    write_mirror url;;
    project_socket_and_wire_bridge url prev_cid);;
  rwhen (count =? 1) (
    m ← conn_gets url id;
    match m with
    | None => mret tt
    | Some m =>
        match url with
        | Auth =>
            rwhen (bool_decide (mc_state m = Open) || bool_decide (mc_state m = Resubscribing)
                   || authenticating_nothing_in_flight m)
              (send_single_signed_subscribe url channel pair params)
        | Public => send_single_subscribe url channel pair params
        end
    end);;
  m ← conn_gets url id;
  rwhen (bool_decide (url = Auth) && bool_decide (is_Some m)) (refresh_send_ready url).
End Program.
End Reactor.
