(* ===== verification/WsSurface.v ===== *)
(** * WsSurface: sending a request over the authenticated WebSocket

    [rust/src/api/ws_surface/{mod,connect,guard}.rs]: the bring-up of a connection before an
    order, the charged post to the reactor's queue with its refund, and the reply.  The
    surface is the production one: supervisor, trackers and index are wired.  Programs of
    [Task]; the state of connections and the events awaited are the environment's. *)

From Stdlib Require Import Ascii String.
From S2P Require Import Prelude F64 Types Events RateCounter RateLimit Errors Auth Rest Connection Teardowns Reactor Task RestSurface.
Local Open Scope string_scope.
Local Open Scope N_scope.

Section WsSurface.
Context (env : TaskEnv) (rest : RestSurface).

(** ** [guard.rs] and [connect.rs] *)

(** [SubscriberGuard::drop]: it runs however its scope is left. *)
Definition finally {A} (m : Task A) (cleanup : Task ()) : Task A := λ w,
  let '(o, w) := m w in (o, (cleanup w).2).

Definition unsubscribe_all_of (ts : list EventType) : Task () :=
  alive ← read (te_bus_alive env);
  task_when alive (task_each (λ t, act (SubscriberRemoved t)) ts).

Definition awaited_events (accept_authenticating : bool) : list EventType :=
  ([ConnectionOpenEvent; ConnectionFailedEvent; ConnectionClosedEvent] ++
   (if accept_authenticating then [ConnectionSendReadyEvent] else []))%list.

(** Subscribe, look at the state once more, then wait for the first event or the backstop;
    [te_open_outcome] tells whether that was an opening. *)
Definition await_open_by_url (accept_authenticating : bool) : Task (ConnectionErrorKind + ()) :=
  let ts := awaited_events accept_authenticating in
  finally
    (task_each (λ t, act (SubscriberAdded t)) ts;;
     st ← read (te_conn_state env);
     let wait :=
       opened ← await env (te_open_outcome env);
       mret (if opened : bool then inr tt else inl NotOpen) in
     match st with
     | Open => mret (inr tt)
     | Authenticating =>
         if accept_authenticating then
           ready ← read (te_auth_send_ready env);
           if ready : bool then mret (inr tt) else wait
         else wait
     | Failed | Closing | Types.Closed => mret (inl NotOpen)
     | Idle | Connecting | Resubscribing | BackingOff => wait
     end)
    (unsubscribe_all_of ts).

(** [ensure_sendable]; [ensure_order_sendable] is the same. *)
Definition ensure_sendable (url : WsUrl) : Task (ConnectionErrorKind + ()) :=
  started ← read (te_io_started env);
  if negb started then mret (inl NotOpen)
  else
    has_subscriptions ← read (te_auth_has_subscriptions env);
    let accept_authenticating := negb has_subscriptions in
    st ← read (te_conn_state env);
    match st with
    | Open => mret (inr tt)
    | Idle =>
        ok ← read (te_connect_ok env);
        if ok : bool then act (ConnectPosted url);; await_open_by_url accept_authenticating
        else mret (inl NotOpen)
    | Connecting | Authenticating | Resubscribing => await_open_by_url accept_authenticating
    | BackingOff | Failed | Closing | Types.Closed => mret (inl NotOpen)
    end.

(** ** [mod.rs]: posting a request *)

(** What the caller holds: a refusal already resolved the reply. *)
Inductive WsRequestHandle :=
  | Refused (e : ConnectionErrorKind)
  | Posted.

Definition send_request_inner (method : string) (req_id : N) (params : Json)
  : Task (WsRequestHandle * option PostReject) :=
  let op := default OpAddOrder (from_method method) in
  reject ← read (te_queue env);
  match reject with
  | None => act (FramePosted req_id method op params);; mret (Posted, None)
  | Some why =>
      act (FrameRefused req_id why);;
      mret (Refused (match why with RejectFull => CEQueueFull | RejectClosed => NotOpen end),
            Some why)
  end.

(** The pre-charge, remembered for the refund. *)
Definition charge_request (cost : RateLimitCost)
  : Task (RateLimitExceeded + option (Scope * f64 * MonotonicInstant)) :=
  match rest_api_key rest with
  | None => mret (inr None)
  | Some key =>
      now ← clock env;
      match cost with
      | CostTrading c p =>
          r ← trading_consume_now env (ScopePair key p) c now;
          mret (match r with inl e => inl e | inr _ => inr (Some (ScopePair key p, c, now)) end)
      | CostTradingAccountWide c =>
          charge_account_wide_now (ScopeApiKey key) c now;; mret (inr None)
      | CostApi _ | CostNone => mret (inr None)
      end
  end.

Definition send_request_costed (method : string) (req_id : N) (params : Json)
  (cost : RateLimitCost) : Task (RateLimitExceeded + WsRequestHandle) :=
  try_ (charge_request cost) (λ charged,
    '(handle, reject) ← send_request_inner method req_id params;
    match reject, charged with
    | Some _, Some (scope, c, now) => credit_now scope c now;; mret (inr handle)
    | _, _ => mret (inr handle)
    end).

(** [abandon_request]: a best-effort post. *)
Definition abandon_request (req_id : N) : Task () :=
  reject ← read (te_queue env);
  match reject with None => act (AbandonPosted req_id) | Some _ => mret tt end.

(** [handle.recv()] under the deadline, if one is set: a resolved handle answers at once.
    Without a deadline the reply is waited for. *)
Definition recv_reply (req_id : N) (deadline : option Duration) (h : WsRequestHandle)
  : Task (ConnectionErrorKind + WsResponse) :=
  match h with
  | Refused e => mret (inl e)
  | Posted =>
      '(reply, elapsed) ← await env (λ n, (te_reply env n, te_elapsed env n));
      if bool_decide (is_Some deadline) && elapsed then
        abandon_request req_id;; mret (inl ResponseTimeout)
      else mret reply
  end.

(** [index_on_accept] *)
Definition index_on_accept (cl_ord_id : string) (pr : Symbol) (sent_at : MonotonicInstant)
  : Task () := index_insert_now cl_ord_id pr sent_at.

End WsSurface.
