(* ===== verification/Trade.v ===== *)
(** * Trade: the order executors

    [rust/src/api/trade/{events,snap,executors}.rs] and the gates of [mod.rs]: each order
    operation on its transport, as a program of [Task].  The decoders serde derives for the
    raw replies, and the readings of texts as UUIDs and numbers, are parameters. *)

From Stdlib Require Import Ascii String.
From S2P Require Import Prelude F64 Types Events RateCounter RateLimit Errors Auth Rest Dispatch TradeError WireTime OrderTypes Connection Teardowns Reactor Task RestSurface WsCompose WsSurface.
Local Open Scope string_scope.
Local Open Scope N_scope.

(** ** Raw replies: [types/mod.rs] and [decode_add_order_batch] *)

Record RawAddOrderResponse := mkRawAdd {
  raw_descr_order : string;
  raw_descr_close : option string;
  raw_txid : list string;
}.
Record RawCancelOrderResponse := mkRawCancel { raw_count : N; raw_pending : bool }.
Record RawCancelAllResponse := mkRawCancelAll { raw_all_count : N }.
Record RawAmendOrderResponse := mkRawAmend { raw_amend_id : string }.
Record RawDeadmanResponse := mkRawDeadman { raw_current_time : string; raw_trigger_time : string }.
Record RawBatchOrderResult := mkRawRow {
  raw_row_descr : option (option string * option string);
  raw_row_txid : option string;
  raw_row_error : option string;
}.

(** [serde_json::from_value] at each raw type; the left side is the error's text. *)
Record Decoders := mkDecoders {
  from_add : Json → string + RawAddOrderResponse;
  from_cancel : Json → string + RawCancelOrderResponse;
  from_cancel_all : Json → string + RawCancelAllResponse;
  from_amend : Json → string + RawAmendOrderResponse;
  from_deadman : Json → string + RawDeadmanResponse;
  from_batch : Json → string + list RawBatchOrderResult;
  uuid_parses : string → bool;
  number_parses : string → bool;
}.

(** [map_err(|e| e.with_request_id(id))] *)
Definition stamped {A} (id : string) (r : TradeError + A) : TradeError + A :=
  match r with inl e => inl (with_request_id id e) | inr a => inr a end.

(** [map_err(|e| malformed(format!(label, e)))] *)
Definition decoded {A} (label : string) (r : string + A) : TradeError + A :=
  match r with inl e => inl (malformed (label ++ e)) | inr a => inr a end.

(** [?] on a value. *)
Definition must {A B} (r : TradeError + A) (k : A → TradeError + B) : TradeError + B :=
  match r with inl e => inl e | inr a => k a end.

Definition decode_add_order (dec : Decoders) (result : Json) (cl_ord_id : option string)
  : TradeError + AddOrderResponse :=
  must (decoded "add_order decode: " (from_add dec result)) (λ raw,
    inr (mkAddResponse (nonempty (head (raw_txid raw))) cl_ord_id
           (mkDescr (Some (raw_descr_order raw)) (raw_descr_close raw)))).

Definition decode_amend_order (dec : Decoders) (result : Json)
  : TradeError + AmendOrderResponse :=
  must (decoded "amend decode: " (from_amend dec result)) (λ raw,
    if decide (raw_amend_id raw = "") then inl (malformed "amend decode: empty amend_id")
    else inr (mkAmendResponse (raw_amend_id raw))).

Definition decode_cancel_order (dec : Decoders) (result : Json)
  : TradeError + CancelOrderResponse :=
  must (decoded "cancel decode: " (from_cancel dec result)) (λ raw,
    inr (mkCancelResponse (raw_count raw) (raw_pending raw))).

Definition decode_cancel_all (dec : Decoders) (result : Json)
  : TradeError + CancelAllResponse :=
  must (decoded "cancel_all decode: " (from_cancel_all dec result)) (λ raw,
    inr (mkCancelAllResponse (raw_all_count raw))).

Definition decode_deadman (dec : Decoders) (result : Json) : TradeError + DeadmanResponse :=
  must (decoded "cancel_all_orders_after decode: " (from_deadman dec result)) (λ raw,
    inr (mkDeadmanResponse (raw_current_time raw) (armed_time (raw_trigger_time raw)))).

Definition batch_row (raw : RawBatchOrderResult) : BatchOrderResult :=
  mkBatchResult
    (match raw_row_descr raw with Some (o, c) => mkDescr o c | None => no_descr end)
    (nonempty (raw_row_txid raw)) (raw_row_error raw).

Definition decode_add_order_batch (dec : Decoders) (result : Json)
  : TradeError + AddOrderBatchResponse :=
  must (decoded "add_order_batch decode: " (from_batch dec result)) (λ rows,
    inr (mkBatchResponse (batch_row <$> rows))).

Definition guard_batch_row_count (expected got : nat) : TradeError + () :=
  if (expected =? got)%nat then inr tt
  else inl (malformed ("batch reply carried " ++ decimal (N.of_nat got) ++ " rows for " ++
                       decimal (N.of_nat expected) ++ " orders " ++ em_dash ++
                       " rows cannot be attributed")).

Definition decode_and_guard_ws_batch (expected : nat) (resp : WsResponse)
  : TradeError + AddOrderBatchResponse :=
  must (decode_ws_batch_add resp) (λ b,
    must (guard_batch_row_count expected (length (bar_orders b))) (λ _, inr b)).

(** ** [mod.rs]: the gates *)

Definition ascii_lower (c : ascii) : ascii :=
  if is_ascii_upper c then ascii_of_N (byte c + 32) else c.

(** [to_ascii_lowercase().replace('-', "_")] *)
Fixpoint normalize_status (s : string) : string :=
  match s with
  | EmptyString => EmptyString
  | String c s =>
      let c := ascii_lower c in
      String (if Ascii.eqb c "-" then "_"%char else c) (normalize_status s)
  end.

Definition gate_system_status (st : SystemStatus) (op : WsOp) : TradeError + () :=
  let norm := normalize_status (status st) in
  let online := bool_decide (norm = "online") in
  let cancel_or_post := bool_decide (norm = "cancel_only") || bool_decide (norm = "post_only") in
  let allowed :=
    match op with
    | OpAddOrder | OpAmendOrder | OpBatchAdd => online
    | OpCancelOrder | OpCancelAll | OpCancelAllOrdersAfter => online || cancel_or_post
    end in
  if allowed then inr tt
  else inl (SystemStatusBlocked st (mkSystemStatus "online" (status_timestamp st))).

Definition suppress_auto_cl_ord_id (userref : option Z) (has_conditional_close : bool) : bool :=
  bool_decide (is_Some userref) || has_conditional_close.

Definition resolves (op : Op) (t : Transport) (d : DispatchTable) : bool :=
  match resolve op Spot t d with inr _ => true | inl _ => false end.

Definition unsupported_transport (op : Op) (d : DispatchTable) (t : Transport) : TradeError :=
  UnsupportedTransport t
    (match resolves op Dispatch.Rest d, resolves op WsV2Auth d with
     | true, true => [Dispatch.Rest; WsV2Auth]
     | true, false => [Dispatch.Rest]
     | false, true => [WsV2Auth]
     | false, false => [Dispatch.Rest]
     end).

(** ** [events.rs]: which operations emit what *)

Definition op_emits_ambiguous (op : OrderOp) : bool :=
  match op with AddOrderOp | AmendOrderOp => true | _ => false end.

Definition op_emits_submitted (op : OrderOp) : bool :=
  match op with AddOrderOp | AmendOrderOp | CancelOrderOp => true | _ => false end.

Definition op_emits_cancellation (op : OrderOp) : bool :=
  match op with AddOrderOp | AmendOrderOp | CancelOrderOp => true | _ => false end.

(** The wire method ([WsOp]'s [Display]). *)
Definition method_of (op : WsOp) : string :=
  match op with
  | OpAddOrder => "add_order" | OpAmendOrder => "amend_order" | OpCancelOrder => "cancel_order"
  | OpCancelAll => "cancel_all" | OpCancelAllOrdersAfter => "cancel_all_orders_after"
  | OpBatchAdd => "batch_add"
  end.

Lemma from_method_of op : from_method (method_of op) = Some op.
Proof. by destruct op. Qed.

(** The context of a call: [ctx_ws] tells whether a WebSocket surface is wired. *)
Record WsOrderCtx := mkCtx {
  ctx_ws : bool;
  ctx_system_status : SystemStatus;
  ctx_op : Op;
  ctx_dispatch : DispatchTable;
  ctx_order_deadline : option Duration;
}.

(** [rest_route] *)
Definition rest_route (ctx : WsOrderCtx) : TradeError + (string * AuthProfile) :=
  match resolve (ctx_op ctx) Spot Dispatch.Rest (ctx_dispatch ctx) with
  | inl e => inl (from_dispatch_error e)
  | inr entry => inr (wire_target entry, if requires_auth entry then SpotV1 else ProfilePublic)
  end.

Section Trade.
Context {D : Type} `{!DecimalOps D} (env : TaskEnv) (rest : RestSurface) (dec : Decoders).

(** ** [CancelEmitGuard] *)

(** [Drop] of an armed guard. *)
Definition cancel_guard_drop (cl_ord_id : string) (op : OrderOp) (request_id : string)
  : Task () :=
  if rs_has_bus rest then
    alive ← read (te_bus_alive env);
    if alive : bool then
      publish_event env rest OrderCancellationAttempted
        (POrderCancellationAttempted cl_ord_id op (Some request_id))
    else mret tt
  else mret tt.

(** The guard is armed before [m] and disarmed after it, so it fires when [m] does not come
    to its end. *)
Definition guarded {A} (cl_ord_id : option string) (op : OrderOp) (request_id : string)
  (m : Task A) : Task A := λ w,
  let '(o, w) := m w in
  match o, cl_ord_id with
  | Done _, _ | _, None => (o, w)
  | _, Some c => (o, (cancel_guard_drop c op request_id w).2)
  end.

(** ** [snap.rs] *)

Fixpoint snap_trading (key : ApiKey) (pr : option Symbol) (now : MonotonicInstant)
  (codes : list string) : Task () :=
  match codes with
  | [] => mret tt
  | code :: codes =>
      match classify_rate_limit_snap code with
      | Some TradingPair =>
          match pr with
          | Some p => trading_snap_now env (ScopePair key p) code now
          | None => mret tt
          end
      | Some TradingDomain => trading_snap_now env (ScopeApiKey key) code now
      | Some Api | None => snap_trading key pr now codes
      end
  end.

Definition snap_on_rest_rejection (codes : list string) (pr : option Symbol)
  (now : MonotonicInstant) : Task () :=
  match rest_api_key rest with
  | Some key => snap_trading key pr now codes
  | None => mret tt
  end.

Definition snap_on_ws_rejection (error : option string) (pr : option Symbol)
  (now : MonotonicInstant) : Task () :=
  match rest_api_key rest, error with
  | Some key, Some msg =>
      match classify_rate_limit_snap msg with
      | Some TradingPair =>
          match pr with
          | Some p => trading_snap_now env (ScopePair key p) msg now
          | None => mret tt
          end
      | Some TradingDomain => trading_snap_now env (ScopeApiKey key) msg now
      | Some Api => api_snap_now env (ScopeApiKey key) msg now
      | None => mret tt
      end
  | _, _ => mret tt
  end.

(** The snap of a rejected REST order: [pair_of] is looked up only then. *)
Definition snap_rest_result (r : RestError + Json) (pair_of : Task (option Symbol))
  (sent_at : MonotonicInstant) : Task () :=
  match r with
  | inl (RestKraken codes) => pr ← pair_of; snap_on_rest_rejection codes pr sent_at
  | _ => mret tt
  end.

(** [lookup_and_promote(..).map(|e| e.pair)] *)
Definition indexed_pair (cl_ord_id : string) : Task (option Symbol) :=
  e ← index_lookup_now cl_ord_id; mret (ie_pair <$> e).

(** ** [emit_rest_submit_outcome] *)

Definition emit_rest_submit_outcome (r : RestError + Json) (cl_ord_id : string)
  (amend_id : option string) (op : OrderOp) (sent_at : MonotonicInstant) (request_id : string)
  : Task () :=
  let emit amend_id status :=
    emit_order_submitted env rest cl_ord_id amend_id op status (Some request_id) in
  match r with
  | inr value =>
      match op with
      | AmendOrderOp =>
          emit (match amend_id_in_result value with Some a => Some a | None => amend_id end)
            WireAccepted
      | CancelOrderOp => emit None WireAccepted
      | _ =>
          match first_txid_in_rest_result value with
          | Some txid => emit amend_id (WireSent txid)
          | None => mret tt
          end
      end
  | inl (RestKraken _ as err) | inl (RestUnexpectedShape _ as err) =>
      emit amend_id (wire_error_status err)
  | inl (RestTransport kind _) =>
      if op_emits_ambiguous op && is_sent_ambiguous kind then
        emit_placement_ambiguous env rest cl_ord_id amend_id op sent_at (Some request_id)
      else mret tt
  | inl (RestRateLimit _) | inl (RestAuth _) => mret tt
  end.

(** [Option] of an id: [f] runs on it. *)
Definition with_id (cl_ord_id : option string) (f : string → Task ()) : Task () :=
  match cl_ord_id with Some c => f c | None => mret tt end.

(** [map_err(|e| TradeError::from(e).with_request_id(id))] *)
Definition rest_result {A} (request_id : string) (r : RestError + A) : TradeError + A :=
  match r with
  | inl e => inl (with_request_id request_id (from_rest_error e))
  | inr a => inr a
  end.

(** ** Charges before an amend or a cancel *)

Definition order_cost (op : DynamicCostOp) (now : MonotonicInstant) (e : IndexEntry) : f64 :=
  order_age_cost op (now - ie_sent_at e).

Definition charge_pre_send_rest (cl_ord_id : string) (op : DynamicCostOp) (request_id : string)
  : Task (TradeError + ()) :=
  now ← clock env;
  entry ← index_lookup_now cl_ord_id;
  match entry, rest_api_key rest with
  | Some e, Some key =>
      r ← trading_consume_now env (ScopePair key (ie_pair e)) (order_cost op now e) now;
      mret (match r with
            | inl e => inl (with_request_id request_id (from_rest_error (RestRateLimit e)))
            | inr _ => inr tt
            end)
  | _, _ => mret (inr tt)
  end.

Definition charge_pre_send_ws (ctx : WsOrderCtx) (cl_ord_id : string) (op : DynamicCostOp)
  : Task (RateLimitCost * option Symbol) :=
  if ctx_ws ctx then
    entry ← index_lookup_now cl_ord_id;
    match entry with
    | Some e =>
        now ← clock env;
        mret (CostTrading (order_cost op now e) (ie_pair e), Some (ie_pair e))
    | None => mret (CostNone, None)
    end
  else mret (CostNone, None).

(** ** [ws_send_and_decode] *)

(** The lifecycle event of a reply. *)
Definition emit_ws_outcome (recv : ConnectionErrorKind + WsResponse) (cl_ord_id : string)
  (amend_id : option string) (op : OrderOp) (sent_at : MonotonicInstant) (request_id : string)
  (index : option (string * Symbol)) : Task () :=
  let emit amend_id status :=
    emit_order_submitted env rest cl_ord_id amend_id op status (Some request_id) in
  match recv with
  | inr resp =>
      if resp_success resp then
        match index with
        | Some (id, pr) => index_on_accept id pr sent_at
        | None => mret tt
        end;;
        if op_emits_submitted op then
          match op with
          | AmendOrderOp =>
              emit (match amend_id_in_result (resp_result resp) with
                    | Some a => Some a | None => amend_id end) WireAccepted
          | CancelOrderOp => emit None WireAccepted
          | _ =>
              match ws_txid_in_result (resp_result resp) with
              | Some txid => emit amend_id (WireSent txid)
              | None => mret tt
              end
          end
        else mret tt
      else task_when (op_emits_submitted op)
             (emit amend_id (ws_wire_error_status (resp_error resp)))
  | inl (NotOpen | CEQueueFull) => mret tt
  | inl _ =>
      task_when (op_emits_ambiguous op)
        (emit_placement_ambiguous env rest cl_ord_id amend_id op sent_at (Some request_id))
  end.

Definition ws_send_and_decode {Resp} (ctx : WsOrderCtx) (op : WsOp) (order_op : OrderOp)
  (emit_cl_ord_id emit_amend_id : option string) (params : Json) (cost : RateLimitCost)
  (index : option (string * Symbol)) (snap_pair : option Symbol)
  (decode : WsResponse → Task (TradeError + Resp)) : Task (TradeError + Resp) :=
  try_ (mret (gate_system_status (ctx_system_status ctx) op)) (λ _,
    if negb (ctx_ws ctx) then mret (inl WsSurfaceUnavailable)
    else
      failed ← read (te_loop_failed env);
      if failed : bool then mret (inl LoopDead)
      else
        ready ← ensure_sendable env Types.Auth;
        match ready with
        | inl e => mret (inl (ws_conn_error_to_trade e))
        | inr _ =>
            req_id ← next_req_id;
            let request_id := decimal req_id in
            sent ← send_request_costed env rest (method_of op) req_id params cost;
            match sent with
            | inl e => mret (inl (with_request_id request_id (from_rest_error (RestRateLimit e))))
            | inr handle =>
                sent_at ← clock env;
                recv ← guarded (if op_emits_cancellation order_op then emit_cl_ord_id else None)
                         order_op request_id
                         (recv_reply env req_id (ctx_order_deadline ctx) handle);
                with_id emit_cl_ord_id (λ cl,
                  emit_ws_outcome recv cl emit_amend_id order_op sent_at request_id index);;
                match recv with
                | inl e => mret (inl (with_request_id request_id (ws_conn_error_to_trade e)))
                | inr resp =>
                    task_when (negb (resp_success resp))
                      (snap_on_ws_rejection (resp_error resp) snap_pair sent_at);;
                    r ← decode resp;
                    mret (stamped request_id r)
                end
            end
        end).

(** ** The executors *)

(** The post of a REST order: the guard spans it. *)
Definition post_guarded (cl_ord_id : option string) (op : OrderOp) (path : string)
  (form : list (string * string)) (auth : AuthProfile) (cost : RateLimitCost)
  (retry : RetryPolicy) (request_id : string) : Task (RestError + Json) :=
  guarded cl_ord_id op request_id
    (signed_post_costed env rest path form auth cost retry request_id).

(** Placement is never retried; a validation alone heals a nonce. *)
Definition placement_retry (validate : bool) : RetryPolicy :=
  if validate then never_retry_except_nonce else never_retry.

Definition add_order_rest (req : OrderRequest D) (ctx : WsOrderCtx)
  : Task (TradeError + AddOrderResponse) :=
  try_ (mret (order_validate req)) (λ _,
    match rest_unrepresentable_field (or_margin req) with
    | Some field => mret (inl (RestUnsupportedOrderField field))
    | None =>
        try_ (mret (rest_route ctx)) (λ '(path, auth),
          request_id ← mint_request_id env;
          sent_at ← clock env;
          result ← post_guarded (or_cl_ord_id req) AddOrderOp path (order_to_form req) auth
                     (CostTrading f64_one (or_pair req)) (placement_retry (or_validate req))
                     request_id;
          snap_rest_result result (mret (Some (or_pair req))) sent_at;;
          match result with
          | inr _ => with_id (or_cl_ord_id req) (λ c, index_insert_now c (or_pair req) sent_at)
          | inl _ => mret tt
          end;;
          with_id (or_cl_ord_id req) (λ c,
            emit_rest_submit_outcome result c None AddOrderOp sent_at request_id);;
          mret (must (rest_result request_id result) (λ v,
            stamped request_id (decode_add_order dec v (or_cl_ord_id req)))))
    end).

Definition add_order_ws (req : OrderRequest D) (ctx : WsOrderCtx)
  : Task (TradeError + AddOrderResponse) :=
  try_ (mret (order_validate req)) (λ _,
    match close_ws_field (bool_decide (is_Some (or_leverage req))) (or_conditional_close req) with
    | Some field => mret (inl (WsUnsupportedOrderField field))
    | None =>
        ws_send_and_decode ctx OpAddOrder AddOrderOp (or_cl_ord_id req) None
          (compose_add_order_params (number_parses dec) (order_view req))
          (CostTrading f64_one (or_pair req))
          ((λ c, (c, or_pair req)) <$> or_cl_ord_id req) (Some (or_pair req))
          (λ resp, mret (decode_ws_add_order (uuid_parses dec) (or_cl_ord_id req) resp))
    end).

(** What the other transports answer. *)
Definition other_transport {A} (ctx : WsOrderCtx) (t : Transport) : Task (TradeError + A) :=
  mret (inl (unsupported_transport (ctx_op ctx) (ctx_dispatch ctx) t)).

Definition add_order_exec (req : OrderRequest D) (t : Transport) (ctx : WsOrderCtx)
  : Task (TradeError + AddOrderResponse) :=
  match t with
  | Dispatch.Rest => add_order_rest req ctx
  | WsV2Auth => add_order_ws req ctx
  | other => other_transport ctx other
  end.

(** What amend and cancel share on REST: the charge of the order's age, the guarded post,
    the snap, the event. *)
Definition age_costed_post (cl_ord_id : string) (age_op : DynamicCostOp) (op : OrderOp)
  (path : string) (form : list (string * string)) (auth : AuthProfile) (retry : RetryPolicy)
  (request_id : string) : Task (TradeError + Json) :=
  try_ (charge_pre_send_rest cl_ord_id age_op request_id) (λ _,
    sent_at ← clock env;
    result ← post_guarded (Some cl_ord_id) op path form auth CostNone retry request_id;
    snap_rest_result result (indexed_pair cl_ord_id) sent_at;;
    emit_rest_submit_outcome result cl_ord_id None op sent_at request_id;;
    mret (rest_result request_id result)).

Definition amend_order_exec (req : OrderAmendRequest D) (t : Transport) (ctx : WsOrderCtx)
  : Task (TradeError + AmendOrderResponse) :=
  match t with
  | Dispatch.Rest =>
      try_ (mret (amend_validate req)) (λ _,
        try_ (mret (rest_route ctx)) (λ '(path, auth),
          request_id ← mint_request_id env;
          try_ (age_costed_post (am_cl_ord_id req) AmendOrder AmendOrderOp path
                  (amend_to_form req) auth never_retry request_id) (λ v,
            mret (stamped request_id (decode_amend_order dec v)))))
  | WsV2Auth =>
      try_ (mret (amend_validate req)) (λ _,
        if bool_decide (is_Some (am_display_qty req)) then
          mret (inl (WsUnsupportedOrderField "display_qty"))
        else
          '(cost, snap_pair) ← charge_pre_send_ws ctx (am_cl_ord_id req) AmendOrder;
          ws_send_and_decode ctx OpAmendOrder AmendOrderOp (Some (am_cl_ord_id req)) None
            (compose_amend_order_params (number_parses dec) req) cost None snap_pair
            (λ resp, mret (decode_ws_amend_order resp)))
  | other => other_transport ctx other
  end.

Definition cancel_one (req : CancelRequest) (path : string) (auth : AuthProfile)
  : Task (TradeError + CancelOrderResponse) :=
  request_id ← mint_request_id env;
  try_ (age_costed_post (ca_cl_ord_id req) CancelOrder CancelOrderOp path (cancel_to_form req)
          auth idempotent request_id) (λ v,
    mret (stamped request_id (decode_cancel_order dec v))).

Definition cancel_exec (req : CancelRequest) (t : Transport) (ctx : WsOrderCtx)
  : Task (TradeError + CancelOrderResponse) :=
  match t with
  | Dispatch.Rest => try_ (mret (rest_route ctx)) (λ '(path, auth), cancel_one req path auth)
  | WsV2Auth =>
      '(cost, snap_pair) ← charge_pre_send_ws ctx (ca_cl_ord_id req) CancelOrder;
      ws_send_and_decode ctx OpCancelOrder CancelOrderOp (Some (ca_cl_ord_id req)) None
        (compose_cancel_order_params req) cost None snap_pair
        (λ resp, mret (decode_ws_cancel_order resp))
  | other => other_transport ctx other
  end.

(** The fan-out of [cancel_batch]: the lines run concurrently, each in a world its siblings
    also change, and the rows are collected in input order.  A line is a program of its own
    whose environment stands for the others; [join_all] relates the lines to the rows they
    end with. *)
Definition cancel_batch_line (path : string) (auth : AuthProfile) (cl : string)
  : Task (OrderError + CancelOrderResponse) :=
  r ← cancel_one (mkCancel cl) path auth;
  mret (match r with
        | inr resp => inr resp
        | inl e => inl (from_trade_error (te_kind_debug env) cl e)
        end).

Definition join_all {A} (lines : list (Task A)) (rows : list A) : Prop :=
  Forall2 (λ m row, ∃ w w', m w = (Done row, w')) lines rows.

(** The answer of the call, given the rows of its lines. *)
Definition cancel_batch_answer (cl_ord_ids : list string) (ctx : WsOrderCtx)
  (answer : TradeError + list (OrderError + CancelOrderResponse)) : Prop :=
  match rest_route ctx with
  | inl e => answer = inl e
  | inr (path, auth) =>
      ∃ rows, join_all (cancel_batch_line path auth <$> cl_ord_ids) rows ∧ answer = inr rows
  end.

(** What the account-wide operations share on REST: no guard, no event. *)
Definition plain_post {A} (ctx : WsOrderCtx) (form : list (string * string))
  (cost : RateLimitCost) (decode : Json → TradeError + A) : Task (TradeError + A) :=
  try_ (mret (rest_route ctx)) (λ '(path, auth),
    sent_at ← clock env;
    request_id ← mint_request_id env;
    result ← signed_post_costed env rest path form auth cost idempotent request_id;
    snap_rest_result result (mret None) sent_at;;
    mret (must (rest_result request_id result) (λ v, stamped request_id (decode v)))).

Definition cancel_all_exec (t : Transport) (ctx : WsOrderCtx)
  : Task (TradeError + CancelAllResponse) :=
  match t with
  | Dispatch.Rest =>
      plain_post ctx cancel_all_to_form (CostTradingAccountWide f64_one) (decode_cancel_all dec)
  | WsV2Auth =>
      ws_send_and_decode ctx OpCancelAll CancelAllOp None None (JObject [])
        (CostTradingAccountWide f64_one) None None (λ resp, mret (decode_ws_cancel_all resp))
  | other => other_transport ctx other
  end.

Definition deadman_exec (req : DeadmanRequest) (t : Transport) (ctx : WsOrderCtx)
  : Task (TradeError + DeadmanResponse) :=
  match t with
  | Dispatch.Rest => plain_post ctx (deadman_to_form req) CostNone (decode_deadman dec)
  | WsV2Auth =>
      ws_send_and_decode ctx OpCancelAllOrdersAfter CancelAllOrdersAfterOp None None
        (JObject [("timeout", JNumber (decimal (dm_timeout_secs req)))]) CostNone None None
        (λ resp, mret (decode_ws_deadman resp))
  | other => other_transport ctx other
  end.

(** *** Batches *)

(** The rows are zipped with the entries; a placed one is indexed. *)
Fixpoint index_placed_batch_rows (pr : Symbol) (entries : list (BatchOrderEntry D))
  (rows : list BatchOrderResult) (sent_at : MonotonicInstant) : Task () :=
  match entries, rows with
  | e :: entries, row :: rows =>
      (if bool_decide (is_Some (br_txid row)) && bool_decide (br_error row = None) then
         with_id (be_cl_ord_id e) (λ c, index_insert_now c pr sent_at)
       else mret tt);;
      index_placed_batch_rows pr entries rows sent_at
  | _, _ => mret tt
  end.

(** [orders.len() as f64 / 2.0] *)
Definition batch_cost (req : AddOrderBatchRequest D) : f64 :=
  f64_div (f64_of_N (N.of_nat (length (ba_orders req)))) f64_two.

Definition order_batch_rest (req : AddOrderBatchRequest D) (ctx : WsOrderCtx)
  : Task (TradeError + AddOrderBatchResponse) :=
  try_ (mret (batch_validate req)) (λ _,
    match batch_rest_blocked (ba_orders req) with
    | Some field => mret (inl (RestUnsupportedOrderField field))
    | None =>
        try_ (mret (rest_route ctx)) (λ '(path, auth),
          sent_at ← clock env;
          request_id ← mint_request_id env;
          result ← signed_post_costed env rest path (batch_to_form req) auth
                     (CostTrading (batch_cost req) (ba_pair req))
                     (placement_retry (ba_validate req)) request_id;
          snap_rest_result result (mret (Some (ba_pair req))) sent_at;;
          try_ (mret (rest_result request_id result)) (λ v,
            try_ (mret (stamped request_id (decode_add_order_batch dec v))) (λ resp,
              try_ (mret (stamped request_id
                      (guard_batch_row_count (length (ba_orders req))
                         (length (bar_orders resp))))) (λ _,
                index_placed_batch_rows (ba_pair req) (ba_orders req) (bar_orders resp) sent_at;;
                mret (inr resp)))))
    end).

Definition order_batch_ws (req : AddOrderBatchRequest D) (ctx : WsOrderCtx)
  : Task (TradeError + AddOrderBatchResponse) :=
  try_ (mret (batch_validate req)) (λ _,
    try_ (mret (compose_batch_add_params (number_parses dec) req)) (λ params,
      sent_at ← clock env;
      ws_send_and_decode ctx OpBatchAdd OrderBatchOp None None params
        (CostTrading (batch_cost req) (ba_pair req)) None (Some (ba_pair req))
        (λ resp,
          try_ (mret (decode_and_guard_ws_batch (length (ba_orders req)) resp)) (λ b,
            index_placed_batch_rows (ba_pair req) (ba_orders req) (bar_orders b) sent_at;;
            mret (inr b))))).

Definition order_batch_exec (req : AddOrderBatchRequest D) (t : Transport) (ctx : WsOrderCtx)
  : Task (TradeError + AddOrderBatchResponse) :=
  match t with
  | Dispatch.Rest => order_batch_rest req ctx
  | WsV2Auth => order_batch_ws req ctx
  | other => other_transport ctx other
  end.

End Trade.
