(* ===== verification/TradeNamespace.v ===== *)
(** * TradeNamespace: the deferred handle and the methods of [client.trade()]

    [rust/src/api/trade/{pending,mod}.rs]: a method builds a [PendingTrade]; awaiting it
    resolves the transport and runs the executor. *)

From Stdlib Require Import Ascii String.
From S2P Require Import Prelude F64 Types Events RateCounter Errors Auth Knobs Rest Dispatch TradeError WireTime OrderTypes Connection Teardowns Task RestSurface WsCompose WsSurface Trade.
Local Open Scope string_scope.
Local Open Scope N_scope.

(** ** [pending.rs] *)

Definition ExecFn (Req Resp : Type) : Type :=
  Req → Transport → WsOrderCtx → Task (TradeError + Resp).

Record PendingTrade (Req Resp : Type) := mkPending {
  pt_req : Req;
  pt_transport_override : option Transport;
  pt_knobs : Knobs;
  pt_ws : bool;
  pt_system_status : SystemStatus;
  pt_prefer_rest_for_orders : bool;
  pt_op : Op;
  pt_dispatch : DispatchTable;
  pt_exec : ExecFn Req Resp;
  pt_cl_ord_id : option string;
}.
Arguments mkPending {Req Resp} _ _ _ _ _ _ _ _ _ _.
Arguments pt_req {Req Resp} _.
Arguments pt_transport_override {Req Resp} _.
Arguments pt_knobs {Req Resp} _.
Arguments pt_ws {Req Resp} _.
Arguments pt_system_status {Req Resp} _.
Arguments pt_prefer_rest_for_orders {Req Resp} _.
Arguments pt_op {Req Resp} _.
Arguments pt_dispatch {Req Resp} _.
Arguments pt_exec {Req Resp} _.
Arguments pt_cl_ord_id {Req Resp} _.

Definition pending_new {Req Resp} (req : Req) (ws : bool) (st : SystemStatus) (knobs : Knobs)
  (op : Op) (d : DispatchTable) (cl_ord_id : option string) (exec : ExecFn Req Resp)
  : PendingTrade Req Resp :=
  mkPending req None knobs ws st (prefer_rest_for_orders knobs) op d exec cl_ord_id.

Definition via {Req Resp} (t : Transport) (p : PendingTrade Req Resp)
  : PendingTrade Req Resp :=
  mkPending (pt_req p) (Some t) (pt_knobs p) (pt_ws p) (pt_system_status p)
    (pt_prefer_rest_for_orders p) (pt_op p) (pt_dispatch p) (pt_exec p) (pt_cl_ord_id p).

(** The transport of the call. *)
Definition transport_of {Req Resp} (p : PendingTrade Req Resp) : Transport :=
  default (if pt_prefer_rest_for_orders p then Dispatch.Rest else WsV2Auth)
    (pt_transport_override p).

(** Zero milliseconds is no deadline. *)
Definition order_deadline (knobs : Knobs) : option Duration :=
  ms ← ws_order_response_deadline_ms knobs;
  if 0 <? ms then Some (from_millis ms) else None.

Definition pending_ctx {Req Resp} (p : PendingTrade Req Resp) : WsOrderCtx :=
  mkCtx (pt_ws p) (pt_system_status p) (pt_op p) (pt_dispatch p) (order_deadline (pt_knobs p)).

Definition into_future {Req Resp} (p : PendingTrade Req Resp) : Task (TradeError + Resp) :=
  let run := pt_exec p (pt_req p) (transport_of p) (pending_ctx p) in
  match pt_transport_override p with
  | Some explicit =>
      if resolves (pt_op p) explicit (pt_dispatch p) then run
      else mret (inl (unsupported_transport (pt_op p) (pt_dispatch p) explicit))
  | None => run
  end.

(** ** [TradeNamespace] *)

Record Namespace := mkNamespace { ns_ws : bool; ns_knobs : Knobs; ns_dispatch : DispatchTable }.

Section Namespace.
Context {D : Type} `{!DecimalOps D} (env : TaskEnv) (rest : RestSurface) (dec : Decoders)
  (ns : Namespace).

(** The placeholder of [system_status_snapshot]. *)
Definition system_status_snapshot : SystemStatus := mkSystemStatus "online" "".

Definition make_pending {Req Resp} (req : Req) (op : Op) (cl_ord_id : option string)
  (exec : ExecFn Req Resp) : PendingTrade Req Resp :=
  pending_new req (ns_ws ns) system_status_snapshot (ns_knobs ns) op (ns_dispatch ns)
    cl_ord_id exec.

(** [ClOrdId::allocate_v4] *)
Definition allocate_v4 : Task string := read (te_uuid env).

Definition needs_cl_ord_id (cl_ord_id : option string) (userref : option Z) (has_close : bool)
  : bool :=
  bool_decide (cl_ord_id = None) && negb (suppress_auto_cl_ord_id userref has_close).

Definition order (req : OrderRequest D) : Task (PendingTrade (OrderRequest D) AddOrderResponse) :=
  req ← (if needs_cl_ord_id (or_cl_ord_id req) (or_userref req)
            (bool_decide (is_Some (or_conditional_close req)))
         then id ← allocate_v4; mret (or_with_cl_ord_id id req)
         else mret req);
  mret (make_pending req TradeOrder (or_cl_ord_id req) (add_order_exec env rest dec)).

Definition order_amend (req : OrderAmendRequest D)
  : PendingTrade (OrderAmendRequest D) AmendOrderResponse :=
  make_pending req TradeOrderAmend (Some (am_cl_ord_id req)) (amend_order_exec env rest dec).

Definition cancel (cl_ord_id : string) : PendingTrade CancelRequest CancelOrderResponse :=
  make_pending (mkCancel cl_ord_id) TradeOrderCancel (Some cl_ord_id)
    (cancel_exec env rest dec).

Definition cancel_all : PendingTrade () CancelAllResponse :=
  make_pending tt TradeOrderCancelAll None (λ _, cancel_all_exec env rest dec).

Definition cancel_all_orders_after (timeout : N) : PendingTrade DeadmanRequest DeadmanResponse :=
  make_pending (mkDeadman timeout) TradeOrderCancelAllAfter None (deadman_exec env rest dec).

(** The ids of a batch, allocated in order. *)
Fixpoint allocate_entries (l : list (BatchOrderEntry D)) : Task (list (BatchOrderEntry D)) :=
  match l with
  | [] => mret []
  | e :: l =>
      e ← (if needs_cl_ord_id (be_cl_ord_id e) (be_userref e)
              (bool_decide (is_Some (be_conditional_close e)))
           then id ← allocate_v4; mret (be_with_cl_ord_id id e)
           else mret e);
      l ← allocate_entries l;
      mret (e :: l)
  end.

Definition order_batch (req : AddOrderBatchRequest D)
  : Task (PendingTrade (AddOrderBatchRequest D) AddOrderBatchResponse) :=
  orders ← allocate_entries (ba_orders req);
  mret (make_pending (mkBatch (ba_pair req) orders (ba_deadline req) (ba_validate req))
          TradeOrderBatch None (order_batch_exec env rest dec)).

Definition market_buy (pr : Symbol) (volume : D) :=
  order (or_with_order_type Market (order_new pr volume Buy)).
Definition market_sell (pr : Symbol) (volume : D) :=
  order (or_with_order_type Market (order_new pr volume Sell)).
Definition limit_buy (pr : Symbol) (volume price : D) :=
  order (or_with_price (Absolute price) (or_with_order_type Limit (order_new pr volume Buy))).
Definition limit_sell (pr : Symbol) (volume price : D) :=
  order (or_with_price (Absolute price) (or_with_order_type Limit (order_new pr volume Sell))).
Definition stop_loss_buy (pr : Symbol) (volume trigger_price : D) :=
  order (or_with_price (Absolute trigger_price)
           (or_with_order_type StopLoss (order_new pr volume Buy))).
Definition stop_loss_sell (pr : Symbol) (volume trigger_price : D) :=
  order (or_with_price (Absolute trigger_price)
           (or_with_order_type StopLoss (order_new pr volume Sell))).

End Namespace.
