(* ===== verification/TradeProps.v ===== *)
(** * TradeProps: what an order call reports and sends *)

From Stdlib Require Import Ascii String.
From S2P Require Import Prelude F64 Types Events RateCounter RateLimit Errors Auth Rest Dispatch TradeError WireTime OrderTypes Connection Teardowns Reactor Task TaskLogic RestSurface Sample RestSurfaceProps WsCompose WsSurface Trade.
Local Open Scope string_scope.
Local Open Scope list_scope.

(** ** Order events and sends *)

Definition is_order_event (a : Act) : bool := negb (no_order_event a).

Definition is_cancellation (a : Act) : bool :=
  match a with
  | Published e => bool_decide (event_type e = OrderCancellationAttempted)
  | _ => false
  end.

Definition quiet (a : Act) : bool := no_order_event a && negb (is_send a).

Definition order_events (seg : list Act) : list Act := List.filter is_order_event seg.

(** The event is about the order [c] and the operation. *)
Definition about (cl_ord_id : option string) (op : OrderOp) (a : Act) : Prop :=
  ∃ c e, cl_ord_id = Some c ∧ a = Published e ∧
    match payload e with
    | POrderSubmitted c' _ op' _ _ | POrderPlacementAmbiguous c' _ op' _ _
    | POrderCancellationAttempted c' op' _ => c' = c ∧ op' = op
    | _ => False
    end.

Lemma order_events_app l l' : order_events (l ++ l') = order_events l ++ order_events l'.
Proof. apply List.filter_app. Qed.

Lemma order_events_none l : forallb no_order_event l = true → order_events l = [].
Proof.
  unfold order_events. induction l as [|a l IH]; cbn; [done|].
  intros [Ha Hl]%andb_true_iff. unfold is_order_event at 1. rewrite Ha. auto.
Qed.

Lemma quiet_no_events l : forallb quiet l = true → order_events l = [] ∧ tally is_send l = 0%nat.
Proof.
  intros H. split.
  - apply order_events_none, forallb_forall. intros a Ha. eapply forallb_forall in H; [|done].
    by apply andb_true_iff in H as [? _].
  - eapply tally_none; [|exact H]. intros a [_ Ha]%andb_true_iff. by apply negb_true_iff in Ha.
Qed.

Lemma background_quiet a : background a = true → quiet a = true.
Proof. unfold quiet. destruct a; try done. intros H. by apply andb_true_iff. Qed.

Lemma only_quiet {A} (m : Task A) : only background m → only quiet m.
Proof. apply only_mono, background_quiet. Qed.

#[export] Hint Resolve only_quiet : task.

(** ** The report of a call *)

Section Report.
Context (env : TaskEnv) (rest : RestSurface) (cl_ord_id : option string) (op : OrderOp).

Definition was_dropped {A} (o : Outcome A) : bool :=
  match o with Dropped => true | _ => false end.

(** At most one event, about this order.  A call that ends reports no cancellation, and
    nothing at all if it sent nothing; one that is stopped reports at most the cancellation,
    and does report it when something was sent and the bus is there. *)
Definition reported {A} (o : Outcome A) (seg : list Act) : Prop :=
  (length (order_events seg) ≤ 1)%nat ∧
  Forall (about cl_ord_id op) (order_events seg) ∧
  match o with
  | Done _ => forallb (λ a, negb (is_cancellation a)) (order_events seg) = true ∧
              (tally is_send seg = 0%nat → order_events seg = [])
  | _ => forallb is_cancellation (order_events seg) = true
  end ∧
  (was_dropped o = true → (0 < tally is_send seg)%nat → is_Some cl_ord_id → rs_has_bus rest = true →
   (∀ n, te_bus_alive env n = true) → order_events seg ≠ []).

Lemma reported_quiet {A} (o : Outcome A) seg : forallb quiet seg = true → reported o seg.
Proof.
  intros [He Hs]%quiet_no_events. unfold reported. rewrite He, Hs. cbn.
  split_and!; [lia|done|by destruct o|lia].
Qed.

Lemma reported_before {A} (o : Outcome A) seg seg' :
  forallb quiet seg = true → reported o seg' → reported o (seg ++ seg').
Proof.
  intros [He Hs]%quiet_no_events. unfold reported.
  by rewrite order_events_app, tally_app, He, Hs.
Qed.

Lemma reported_after {A B} (a : A) (b : B) seg seg' :
  forallb quiet seg' = true → reported (Done a) seg → reported (Done b) (seg ++ seg').
Proof.
  intros [He Hs]%quiet_no_events. unfold reported.
  rewrite order_events_app, tally_app, He, Hs, app_nil_r, Nat.add_0_r. cbn. naive_solver.
Qed.

Lemma reports_after {A B} (m : Task B) (k : B → Task A) :
  only quiet m → (∀ b, emits (k b) reported) → emits (mbind k m) reported.
Proof.
  intros Hm Hk. apply emits_bind. eapply emits_mono; [exact Hm|].
  intros [b| |] seg Hs; cbn in *; [|by apply reported_quiet..].
  eapply emits_mono; [apply Hk|]. intros o seg' H. by apply reported_before.
Qed.

Lemma reports_try {E A B} (m : Task (E + A)) (k : A → Task (E + B)) :
  only quiet m → (∀ a, emits (k a) reported) → emits (try_ m k) reported.
Proof.
  intros Hm Hk. apply reports_after; [done|]. intros [e|a]; [|done].
  by apply emits_ret, reported_quiet.
Qed.

Lemma reports_only {A} (m : Task A) : only quiet m → emits m reported.
Proof. intros H. eapply emits_mono; [exact H|]. intros o seg Hs. by apply reported_quiet. Qed.

Lemma reports_then {A B} (m : Task A) (k : A → Task B) :
  emits m reported → (∀ a, only quiet (k a) ∧ completes (k a)) → emits (mbind k m) reported.
Proof.
  intros Hm Hk. apply emits_bind. eapply emits_mono; [exact Hm|].
  intros [a| |] seg Hs; cbn; [|exact Hs..].
  destruct (Hk a) as [Hq Hc]. apply emits_completes; [done|].
  eapply emits_mono; [exact Hq|]. intros o seg' Hs' b ->. by eapply reported_after.
Qed.

(** *** The guard *)

Lemma cancel_guard_drop_log c rid :
  emits (cancel_guard_drop env rest c op rid) (λ _ seg,
    tally is_send seg = 0%nat ∧ (length (order_events seg) ≤ 1)%nat ∧
    Forall (about (Some c) op) (order_events seg) ∧
    forallb is_cancellation (order_events seg) = true ∧
    (rs_has_bus rest = true → (∀ n, te_bus_alive env n = true) → order_events seg ≠ [])).
Proof.
  unfold cancel_guard_drop, publish_event. destruct (rs_has_bus rest).
  - apply emits_bind, emits_read. intros n. cbn. destruct (te_bus_alive env n) eqn:Ha.
    + apply emits_bind, emits_read. intros k. cbn. apply emits_act. cbn.
      split_and!; [done|lia| |done|done]. constructor; [|done]. by eexists c, _.
    + apply emits_ret. cbn. split_and!; [done|lia|done|done|]. intros _ Hb. by rewrite Hb in Ha.
  - apply emits_ret. cbn. split_and!; [done|lia|done..].
Qed.

Lemma emits_guarded {A} rid (m : Task A) R :
  emits m (λ o seg, match o, cl_ord_id with
    | Done _, _ | _, None => R o seg
    | _, Some c => emits (cancel_guard_drop env rest c op rid) (λ _ seg', R o (seg ++ seg'))
    end) →
  emits (guarded env rest cl_ord_id op rid m) R.
Proof.
  intros H w. destruct (H w) as (seg & Hl & Ho). unfold guarded.
  destruct (m w) as [[a| |] w'] eqn:Hm; destruct cl_ord_id as [c|]; cbn in *;
    try (by exists seg).
  all: destruct (Ho w') as (seg' & Hl' & Ho'); exists (seg ++ seg');
    by rewrite Hl', Hl, app_assoc.
Qed.

(** A guarded program that was stopped: the cancellation, if anyone can hear it. *)
Definition interrupted (seg : list Act) : Prop :=
  (length (order_events seg) ≤ 1)%nat ∧
  Forall (about cl_ord_id op) (order_events seg) ∧
  forallb is_cancellation (order_events seg) = true ∧
  (is_Some cl_ord_id → rs_has_bus rest = true → (∀ n, te_bus_alive env n = true) →
   order_events seg ≠ []).

Lemma interrupted_reported {A} (o : Outcome A) seg seg' :
  (∀ a, o ≠ Done a) → order_events seg = [] → interrupted seg' → reported o (seg ++ seg').
Proof.
  intros Ho He (Hn & Hab & Hca & Hne). unfold reported.
  rewrite order_events_app, He. cbn. split_and!; [done|done| |auto].
  destruct o; [by edestruct Ho|done..].
Qed.

(** A guarded program that publishes no order event itself. *)
Lemma guarded_reports {A} rid (m : Task A) (Q : A → list Act → Prop) :
  emits m (λ o seg, order_events seg = [] ∧ match o with Done a => Q a seg | _ => True end) →
  emits (guarded env rest cl_ord_id op rid m) (λ o seg,
    match o with Done a => order_events seg = [] ∧ Q a seg | _ => interrupted seg end).
Proof.
  intros H. apply emits_guarded. eapply emits_mono; [exact H|].
  intros o seg [He HQ]. destruct o as [a| |]; [by destruct cl_ord_id|..].
  all: destruct cl_ord_id as [c|] eqn:Hc.
  1,3: eapply emits_mono; [apply cancel_guard_drop_log|];
    intros _ seg' (Hs' & Hn & Hab & Hca & Hne);
    unfold interrupted; rewrite order_events_app, He, Hc; cbn; by auto.
  all: unfold interrupted; rewrite He, Hc; cbn; split_and!; [lia|done|done|].
  all: intros [? [=]].
Qed.

(** The event of an answer, after a guarded program that reported none. *)
Lemma report_last {A} (a : A) seg seg' :
  order_events seg = [] → tally is_send seg' = 0%nat →
  (length (order_events seg') ≤ 1)%nat → Forall (about cl_ord_id op) (order_events seg') →
  forallb (λ a, negb (is_cancellation a)) (order_events seg') = true →
  (tally is_send seg = 0%nat → order_events seg' = []) →
  reported (Done a) (seg ++ seg').
Proof.
  intros He Hs Hn Hab Hc Hnone. unfold reported.
  rewrite order_events_app, tally_app, He, Hs, Nat.add_0_r. cbn. by auto.
Qed.

End Report.

(** *** Emissions *)

Section Emissions.
Context (env : TaskEnv) (rest : RestSurface) (c : string) (op : OrderOp).

(** What an emission logs: at most one event about the order, no cancellation. *)
Definition one_event (seg : list Act) : Prop :=
  tally is_send seg = 0%nat ∧ (length (order_events seg) ≤ 1)%nat ∧
  Forall (about (Some c) op) (order_events seg) ∧
  forallb (λ a, negb (is_cancellation a)) (order_events seg) = true.

Definition speaks (m : Task ()) : Prop := completes m ∧ emits m (λ _ seg, one_event seg).

Lemma speaks_ret : speaks (mret tt).
Proof. split; [apply completes_ret|]. apply emits_ret. unfold one_event. cbn. split_and!; [done|lia|done..]. Qed.

Lemma speaks_event t p :
  (∀ at_, about (Some c) op (Published (mkEnvelope t 1 at_ None p))) →
  t ≠ OrderCancellationAttempted → order_event (mkEnvelope t 1 0%N None p) = true →
  speaks (publish_event env rest t p).
Proof.
  intros Hab Ht Ho. unfold publish_event. destruct (rs_has_bus rest); [|apply speaks_ret].
  split; [completes_tac|]. apply emits_bind, emits_read. intros n. cbn. apply emits_act.
  unfold one_event, order_events. cbn. unfold is_order_event. cbn.
  change (order_event _) with (order_event (mkEnvelope t 1 0%N None p)). rewrite Ho. cbn.
  split_and!; [done|lia|by constructor|]. by rewrite bool_decide_eq_false_2.
Qed.

Lemma emit_order_submitted_speaks amend st rid :
  speaks (emit_order_submitted env rest c amend op st rid).
Proof. apply speaks_event; [|done..]. intros at_. by eexists c, _. Qed.

Lemma emit_placement_ambiguous_speaks amend at_ rid :
  speaks (emit_placement_ambiguous env rest c amend op at_ rid).
Proof. apply speaks_event; [|done..]. intros at'. by eexists c, _. Qed.

End Emissions.

#[local] Hint Resolve speaks_ret emit_order_submitted_speaks emit_placement_ambiguous_speaks : core.

Section Outcomes.
Context (env : TaskEnv) (rest : RestSurface).
Implicit Types (c : string) (op : OrderOp).

Lemma emit_rest_speaks c op r amend at_ rid :
  speaks c op (emit_rest_submit_outcome env rest r c amend op at_ rid).
Proof. unfold emit_rest_submit_outcome. repeat case_match; auto. Qed.

Lemma emit_rest_refused c op r amend at_ rid :
  refused r = true → emit_rest_submit_outcome env rest r c amend op at_ rid = mret tt.
Proof. by destruct r as [[]|]. Qed.

Lemma speaks_after c op (m m' : Task ()) : only quiet m → completes m → speaks c op m' → speaks c op (m;; m').
Proof.
  intros Hq Hc [Hc' He']. split; [by apply completes_bind|].
  apply emits_bind, emits_completes; [done|]. eapply emits_mono; [exact Hq|].
  intros o seg [He Hs]%quiet_no_events [] ->. cbn. eapply emits_mono; [exact He'|].
  intros o' seg'. unfold one_event. by rewrite order_events_app, tally_app, He, Hs.
Qed.

Lemma emit_ws_speaks c op recv amend at_ rid index :
  speaks c op (emit_ws_outcome env rest recv c amend op at_ rid index).
Proof.
  unfold emit_ws_outcome. destruct recv as [k|resp].
  - destruct k; unfold task_when; repeat case_match; auto.
  - destruct (resp_success resp); [|unfold task_when; case_match; auto].
    apply speaks_after.
    + destruct index as [[id pr]|]; [|only_tac]. unfold index_on_accept, index_insert_now. only_tac.
    + destruct index as [[id pr]|]; [|completes_tac]. apply index_insert_completes.
    + repeat case_match; auto.
Qed.

End Outcomes.

(** ** REST *)

(** A continuation that reports the answer: at most one event, none if [silent]. *)
Definition concludes {A} (cl : option string) (op : OrderOp) (silent : bool) (m : Task A) : Prop :=
  completes m ∧ emits m (λ _ seg,
    tally is_send seg = 0%nat ∧ (length (order_events seg) ≤ 1)%nat ∧
    Forall (about cl op) (order_events seg) ∧
    forallb (λ a, negb (is_cancellation a)) (order_events seg) = true ∧
    (silent = true → order_events seg = [])).

Lemma concludes_quiet {A} cl op silent (m : Task A) :
  only quiet m → completes m → concludes cl op silent m.
Proof.
  intros Hq Hc. split; [done|]. eapply emits_mono; [exact Hq|].
  intros o seg [-> ->]%quiet_no_events. cbn. split_and!; [done|lia|done..].
Qed.

Lemma concludes_after {A B} cl op silent (m : Task B) (k : B → Task A) :
  only quiet m → completes m → (∀ b, concludes cl op silent (k b)) →
  concludes cl op silent (mbind k m).
Proof.
  intros Hq Hc Hk. split; [apply completes_bind; [done|]; intros b; apply Hk|].
  apply emits_bind, emits_completes; [done|]. eapply emits_mono; [exact Hq|].
  intros o seg [He Hs]%quiet_no_events b ->. cbn. destruct (Hk b) as [_ Hkb].
  eapply emits_mono; [exact Hkb|]. intros o' seg'. by rewrite order_events_app, tally_app, He, Hs.
Qed.

Lemma concludes_event {A} cl op (silent : bool) (event : string → Task ()) (m : Task A) :
  (∀ c, speaks c op (event c)) → (silent = true → ∀ c, event c = mret tt) →
  only quiet m → completes m → concludes cl op silent (with_id cl event;; m).
Proof.
  intros Hev Hnone Hq Hc. destruct cl as [c|]; cbn.
  2: apply concludes_after; [only_tac|completes_tac|intros _; by apply concludes_quiet].
  destruct silent.
  { rewrite Hnone by done. apply concludes_after; [only_tac|completes_tac|].
    intros _. by apply concludes_quiet. }
  destruct (Hev c) as [Hec Hee]. split; [by apply completes_bind|].
  apply emits_bind, emits_completes; [done|]. eapply emits_mono; [exact Hee|].
  intros o seg (Hs & Hn & Hab & Hca) [] ->. cbn. eapply emits_mono; [exact Hq|].
  intros o' seg' [He' Hs']%quiet_no_events.
  by rewrite order_events_app, tally_app, He', Hs', app_nil_r, Hs.
Qed.

(** A guarded program after [before], and the report of its result. *)
Lemma guarded_conclude {A B} env rest cl op rid before (m : Task B) (k : B → Task A)
    (silent : B → bool) :
  order_events before = [] → (∀ b, concludes cl op (silent b) (k b)) →
  emits m (λ o seg, order_events seg = [] ∧
    match o with
    | Done b => silent b = false → (1 ≤ tally is_send (before ++ seg))%nat
    | _ => True
    end) →
  emits (mbind k (guarded env rest cl op rid m)) (λ o seg, reported env rest cl op o (before ++ seg)).
Proof.
  intros Hb Hk Hm. apply emits_bind.
  eapply emits_mono; [exact (guarded_reports env rest cl op rid m
    (λ b seg, silent b = false → (1 ≤ tally is_send (before ++ seg))%nat) Hm)|].
  intros [b| |] seg; cbn; [|by apply interrupted_reported..].
  intros [He Hr]. destruct (Hk b) as [Hc Hkb].
  apply emits_completes; [done|]. eapply emits_mono; [exact Hkb|].
  intros ? s (Hs & Hn & Hab & Hca & Hsil) a ->. rewrite app_assoc.
  apply report_last; try done; [by rewrite order_events_app, Hb|].
  intros H0. destruct (silent b); [auto|]. specialize (Hr eq_refl). lia.
Qed.

Section RestReports.
Context {D : Type} `{!DecimalOps D} (env : TaskEnv) (rest : RestSurface) (dec : Decoders).
Context (budget_fits : (engine_max_attempts (rs_engine rest) < u32_max)%N).

(** The policies of the executors. *)
Inductive order_policy : RetryPolicy → Prop :=
  | policy_idempotent : order_policy idempotent
  | policy_never : order_policy never_retry
  | policy_nonce : order_policy never_retry_except_nonce.
Hint Constructors order_policy : core.

Lemma order_policy_fits retry : order_policy retry → (max_attempts rest retry < u32_max)%N.
Proof using budget_fits.
  unfold max_attempts, attempt_budget, u32_max in *. destruct 1; simpl; lia.
Qed.

Lemma signed_post_reports path form auth cost retry rid :
  order_policy retry →
  emits (signed_post_costed env rest path form auth cost retry rid) (λ o seg,
    order_events seg = [] ∧
    match o with Done r => refused r = false → (1 ≤ tally is_send seg)%nat | _ => True end).
Proof using budget_fits.
  intros Hp. eapply emits_mono; [by apply signed_post_log, order_policy_fits|].
  intros o seg Hlog. apply attempts_disciplined in Hlog as ([_ He] & _ & Hr).
  split; [by apply order_events_none|]. destruct o as [r| |]; [|done..].
  intros Hf. by apply (Hr r).
Qed.

Lemma post_reports {A} cl op path form auth cost retry rid (k : RestError + Json → Task A) :
  order_policy retry → (∀ r, concludes cl op (refused r) (k r)) →
  emits (mbind k (post_guarded env rest cl op path form auth cost retry rid))
    (reported env rest cl op).
Proof using budget_fits.
  intros Hp Hk. apply (guarded_conclude _ _ _ _ _ [] _ k refused); [done|done|].
  by apply signed_post_reports.
Qed.

Lemma snap_trading_quiet key pr now codes : only quiet (snap_trading env key pr now codes).
Proof. induction codes; cbn; only_tac. Qed.

Lemma snap_trading_completes key pr now codes : completes (snap_trading env key pr now codes).
Proof. induction codes; cbn; completes_tac. Qed.
Hint Resolve snap_trading_quiet snap_trading_completes : task.

Lemma snap_rest_quiet r (pair_of : Task (option Symbol)) at_ :
  only quiet pair_of → only quiet (snap_rest_result env rest r pair_of at_).
Proof. intros H. unfold snap_rest_result, snap_on_rest_rejection. only_tac. Qed.

Lemma snap_rest_completes r (pair_of : Task (option Symbol)) at_ :
  completes pair_of → completes (snap_rest_result env rest r pair_of at_).
Proof. intros H. unfold snap_rest_result, snap_on_rest_rejection. completes_tac. Qed.

Lemma index_quiet c pr at_ : only quiet (index_insert_now c pr at_).
Proof. unfold index_insert_now. only_tac. Qed.

Lemma lookup_quiet c : only quiet (index_lookup_now c).
Proof. unfold index_lookup_now. only_tac. Qed.

Lemma indexed_pair_quiet c : only quiet (indexed_pair c).
Proof. unfold indexed_pair, index_lookup_now. only_tac. Qed.

Lemma indexed_pair_completes c : completes (indexed_pair c).
Proof. unfold indexed_pair. completes_tac. Qed.
Hint Resolve snap_rest_quiet snap_rest_completes index_quiet lookup_quiet indexed_pair_quiet
  indexed_pair_completes only_ret completes_ret : task.

Lemma age_costed_reports cl age_op op path form auth retry rid :
  order_policy retry →
  emits (age_costed_post env rest cl age_op op path form auth retry rid)
    (reported env rest (Some cl) op).
Proof using budget_fits.
  intros Hp. unfold age_costed_post. apply reports_try.
  { unfold charge_pre_send_rest. only_tac. }
  intros _. apply reports_after; [only_tac|]. intros at_.
  apply post_reports; [done|]. intros r.
  apply concludes_after; [auto with task..|]. intros _.
  apply (concludes_event (Some cl) op (refused r)
           (λ c, emit_rest_submit_outcome env rest r c None op at_ rid)); [| |only_tac|completes_tac].
  - intros c. apply emit_rest_speaks.
  - intros Hr c. by apply emit_rest_refused.
Qed.

Lemma add_order_rest_reports (req : OrderRequest D) ctx :
  emits (add_order_rest env rest dec req ctx) (reported env rest (or_cl_ord_id req) AddOrderOp).
Proof using budget_fits.
  unfold add_order_rest. apply reports_try; [apply only_ret|]. intros _.
  destruct (rest_unrepresentable_field _); [apply reports_only; only_tac|].
  apply reports_try; [apply only_ret|]. intros [path auth].
  apply reports_after; [by apply only_mint|]. intros rid.
  apply reports_after; [apply only_read|]. intros at_.
  apply post_reports; [unfold placement_retry; by destruct (or_validate req)|]. intros r.
  apply concludes_after; [auto with task..|]. intros _.
  apply concludes_after.
  { destruct r, (or_cl_ord_id req); unfold with_id; auto with task. }
  { destruct r, (or_cl_ord_id req); unfold with_id; auto with task. }
  intros _. apply concludes_event; [| |only_tac|completes_tac].
  - intros c. apply emit_rest_speaks.
  - intros Hr c. by apply emit_rest_refused.
Qed.

Lemma cancel_one_reports req path auth :
  emits (cancel_one env rest dec req path auth)
    (reported env rest (Some (ca_cl_ord_id req)) CancelOrderOp).
Proof using budget_fits.
  unfold cancel_one. apply reports_after; [by apply only_mint|]. intros rid.
  apply reports_then; [by apply age_costed_reports|]. intros [e|v]; split; auto with task.
Qed.

Lemma amend_rest_reports (req : OrderAmendRequest D) ctx :
  emits (amend_order_exec env rest dec req Dispatch.Rest ctx)
    (reported env rest (Some (am_cl_ord_id req)) AmendOrderOp).
Proof using budget_fits.
  cbn. apply reports_try; [apply only_ret|]. intros _.
  apply reports_try; [apply only_ret|]. intros [path auth].
  apply reports_after; [by apply only_mint|]. intros rid.
  apply reports_then; [by apply age_costed_reports|]. intros [e|v]; split; auto with task.
Qed.

End RestReports.

(** ** The WebSocket *)

Section WsReports.
Context {D : Type} `{!DecimalOps D} (env : TaskEnv) (rest : RestSurface) (dec : Decoders).

Lemma emits_finally {A} (m : Task A) cleanup (R : LogPost A) :
  emits m (λ o seg, emits cleanup (λ _ seg', R o (seg ++ seg'))) →
  emits (finally m cleanup) R.
Proof.
  intros H w. destruct (H w) as (seg & Hl & Ho). unfold finally.
  destruct (m w) as [o w']. destruct (Ho w') as (seg' & Hl' & HR). cbn in *.
  exists (seg ++ seg'). by rewrite Hl', Hl, app_assoc.
Qed.

Lemma emits_each {A} (f : A → Act) l (R : LogPost ()) :
  R (Done tt) (f <$> l) → emits (task_each (λ a, act (f a)) l) R.
Proof.
  intros H. cut (emits (task_each (λ a, act (f a)) l) (λ o seg, o = Done tt ∧ seg = f <$> l)).
  { intros Hc. eapply emits_mono; [exact Hc|]. by intros o seg [-> ->]. }
  clear. induction l as [|a l IH]; cbn; [by apply emits_ret|].
  apply emits_bind, emits_act. cbn. eapply emits_mono; [exact IH|]. by intros o seg [-> ->].
Qed.

(** Its log is the subscriptions it takes and, as long as the bus is there, the same ones
    given back. *)
Lemma await_open_log accept :
  emits (await_open_by_url env accept) (λ o seg,
    o ≠ Panicked ∧ ∃ gone, seg = (SubscriberAdded <$> awaited_events accept) ++ gone ∧
      (gone = [] ∨ gone = SubscriberRemoved <$> awaited_events accept) ∧
      ((∀ n, te_bus_alive env n = true) → gone ≠ [])).
Proof.
  unfold await_open_by_url. apply emits_finally.
  apply emits_bind, emits_each. cbn -[awaited_events].
  apply emits_bind, emits_read. intros n. cbn -[awaited_events].
  eapply emits_mono with (R := λ o seg, o ≠ Panicked ∧ seg = []).
  - assert (∀ (k : bool → ConnectionErrorKind + ()), emits
      (opened ← await env (te_open_outcome env); mret (k opened)) (λ o seg, o ≠ Panicked ∧ seg = []))
      as Hw by (intros k; apply emits_bind, emits_await; [done|]; intros m; by apply emits_ret).
    destruct (te_conn_state env n); try (by apply emits_ret); try apply Hw.
    destruct accept; [|apply Hw]. apply emits_bind, emits_read. intros m. cbn.
    destruct (te_auth_send_ready env m); [by apply emits_ret|apply Hw].
  - intros o seg [Ho ->]. unfold unsubscribe_all_of. apply emits_bind, emits_read. intros m.
    cbn -[awaited_events]. rewrite app_nil_r. apply emits_when; intros Ha.
    + apply emits_each. split; [done|]. eexists. split_and!; [done|by right|].
      intros _. by destruct accept.
    + split; [done|]. exists []. split_and!; [done|by left|]. intros Hb. by rewrite Hb in Ha.
Qed.

Lemma await_open_quiet accept : only quiet (await_open_by_url env accept).
Proof.
  eapply emits_mono; [apply await_open_log|]. intros o seg (_ & gone & -> & [->| ->] & _);
    by destruct accept.
Qed.

Lemma ensure_sendable_quiet url : only quiet (ensure_sendable env url).
Proof. pose proof await_open_quiet. unfold ensure_sendable. only_tac. Qed.

Lemma charge_request_quiet cost : only quiet (charge_request env rest cost).
Proof. unfold charge_request. only_tac. Qed.

(** A post tells what it did: a refusal sends nothing and is one of the two kinds that say so. *)
Definition posted_as (r : RateLimitExceeded + WsRequestHandle) (seg : list Act) : Prop :=
  match r with
  | inr Posted => (1 ≤ tally is_send seg)%nat
  | inr (Refused e) => tally is_send seg = 0%nat ∧ (e = NotOpen ∨ e = CEQueueFull)
  | inl _ => tally is_send seg = 0%nat
  end.

Lemma send_request_log method req_id params cost :
  emits (send_request_costed env rest method req_id params cost) (λ o seg,
    order_events seg = [] ∧
    match o with Done r => posted_as r seg | _ => tally is_send seg = 0%nat end).
Proof.
  unfold send_request_costed. apply emits_try. eapply emits_mono; [apply charge_request_quiet|].
  intros [[e|charged]| |] seg [He Hs]%quiet_no_events; cbn; rewrite ?app_nil_r; try done.
  unfold send_request_inner. apply emits_bind, emits_bind, emits_read. intros n. cbn.
  destruct (te_queue env n) as [why|].
  - apply emits_bind, emits_act. cbn. apply emits_ret. cbn.
    destruct charged as [[[scope c] now]|].
    + apply emits_bind, emits_completes; [unfold credit_now; completes_tac|].
      eapply emits_mono; [apply only_quiet, credit_background|].
      intros ? s [He' Hs']%quiet_no_events [] ->. apply emits_ret. cbn.
      rewrite app_nil_r, !order_events_app, !tally_app, He, Hs. cbn.
      rewrite ?order_events_app, ?He', ?Hs'. destruct why; auto.
    + apply emits_ret. cbn. rewrite order_events_app, tally_app, He, Hs. destruct why; auto.
  - apply emits_bind, emits_act. cbn. apply emits_ret. cbn. apply emits_ret. cbn.
    rewrite order_events_app, tally_app, He, Hs. cbn. split; [done|lia].
Qed.

Lemma recv_reply_quiet req_id deadline h : only quiet (recv_reply env req_id deadline h).
Proof. unfold recv_reply, abandon_request. only_tac. Qed.

Lemma recv_reply_refused req_id deadline e :
  recv_reply env req_id deadline (Refused e) = mret (inl e).
Proof. done. Qed.

(** The failures after which nothing is reported. *)
Definition unsent (recv : ConnectionErrorKind + WsResponse) : bool :=
  match recv with inl (NotOpen | CEQueueFull) => true | _ => false end.

Lemma snap_ws_quiet error pr now : only quiet (snap_on_ws_rejection env rest error pr now).
Proof. unfold snap_on_ws_rejection. only_tac. Qed.

Lemma snap_ws_completes error pr now : completes (snap_on_ws_rejection env rest error pr now).
Proof. unfold snap_on_ws_rejection. completes_tac. Qed.
Hint Resolve snap_ws_quiet snap_ws_completes : task.

Lemma ws_reports {Resp} ctx op order_op cl amend params cost index snap_pair
    (decode : WsResponse → Task (TradeError + Resp)) :
  (op_emits_cancellation order_op = true ∨ cl = None) →
  (∀ resp, only quiet (decode resp) ∧ completes (decode resp)) →
  emits (ws_send_and_decode env rest ctx op order_op cl amend params cost index snap_pair decode)
    (reported env rest cl order_op).
Proof.
  intros Hop Hdec. unfold ws_send_and_decode.
  apply reports_try; [apply only_ret|]. intros _.
  destruct (negb (ctx_ws ctx)); [apply reports_only; only_tac|].
  apply reports_after; [apply only_read|]. intros failed.
  destruct failed; [apply reports_only; only_tac|].
  apply reports_after; [apply ensure_sendable_quiet|]. intros [e|_]; [apply reports_only; only_tac|].
  apply reports_after; [unfold next_req_id; only_tac|]. intros req_id.
  apply emits_bind. eapply emits_mono; [apply send_request_log|].
  intros [sent| |] seg [He Hs]; cbn.
  2,3: unfold reported; rewrite He, Hs; cbn; split_and!; [lia|done|done|lia].
  destruct sent as [e|handle]; cbn in Hs.
  { apply emits_ret. rewrite app_nil_r. unfold reported. rewrite He. cbn. split_and!; [lia|done..]. }
  apply emits_bind, emits_read. intros n. cbn -[recv_reply].
  replace (if op_emits_cancellation order_op then cl else None) with cl
    by (by destruct Hop as [->| ->]; [|destruct (op_emits_cancellation order_op)]).
  apply (guarded_conclude _ _ _ _ _ _ _ _ unsent); [done| |].
  - intros recv. apply concludes_event; [| |destruct recv as [k|resp]; [only_tac|]|destruct recv as [k|resp]; [completes_tac|]].
    + intros c. apply emit_ws_speaks.
    + intros Hu c. unfold emit_ws_outcome. by destruct recv as [[]|].
    + apply only_bind; [apply only_when; auto with task|]. intros _.
      apply only_bind; [apply Hdec|]. only_tac.
    + apply completes_bind; [apply completes_when; auto with task|]. intros _.
      apply completes_bind; [apply Hdec|]. completes_tac.
  - destruct handle as [e|].
    + rewrite recv_reply_refused. apply emits_ret. split; [done|].
      destruct Hs as [_ [->| ->]]; done.
    + eapply emits_mono; [apply recv_reply_quiet|].
      intros o s [He' Hs']%quiet_no_events. split; [done|]. destruct o; [|done..].
      intros _. rewrite tally_app. lia.
Qed.

Lemma add_order_ws_reports (req : OrderRequest D) ctx :
  emits (add_order_ws env rest dec req ctx) (reported env rest (or_cl_ord_id req) AddOrderOp).
Proof.
  unfold add_order_ws. apply reports_try; [apply only_ret|]. intros _.
  destruct (close_ws_field _ _); [apply reports_only; only_tac|].
  apply ws_reports; [by left|]. intros resp. split; [only_tac|completes_tac].
Qed.

Lemma charge_pre_send_ws_quiet ctx cl op : only quiet (charge_pre_send_ws env ctx cl op).
Proof. unfold charge_pre_send_ws, index_lookup_now. only_tac. Qed.

End WsReports.

(** C1: A call that places, amends or cancels one order, on any transport, publishes at most
    one order event, about that order and operation.  A call that comes to its end reports no
    cancellation, and reports nothing when it sent nothing; a call that is dropped or panics
    reports at most its cancellation, and a dropped one whose order had been sent always does
    while the bus lives. *)
Theorem order_calls_reported {D} `{!DecimalOps D} env rest dec t ctx
    (req : OrderRequest D) (amend : OrderAmendRequest D) (cancel : CancelRequest) :
  (engine_max_attempts (rs_engine rest) < u32_max)%N →
  emits (add_order_exec env rest dec req t ctx)
    (reported env rest (or_cl_ord_id req) AddOrderOp) ∧
  emits (amend_order_exec env rest dec amend t ctx)
    (reported env rest (Some (am_cl_ord_id amend)) AmendOrderOp) ∧
  emits (cancel_exec env rest dec cancel t ctx)
    (reported env rest (Some (ca_cl_ord_id cancel)) CancelOrderOp).
Proof.
  intros Hb. destruct t; (split_and!; [|try by apply amend_rest_reports|]);
    try (apply reports_only; unfold add_order_exec, amend_order_exec, cancel_exec, other_transport;
         solve [apply only_ret]).
  - by apply add_order_rest_reports.
  - apply reports_try; [apply only_ret|]. intros [path auth]. by apply cancel_one_reports.
  - apply add_order_ws_reports.
  - apply reports_try; [apply only_ret|]. intros _.
    destruct (bool_decide _); [apply reports_only; only_tac|].
    apply reports_after; [apply charge_pre_send_ws_quiet|]. intros [cost pr].
    apply ws_reports; [by left|]. intros resp. split; [only_tac|completes_tac].
  - apply reports_after; [apply charge_pre_send_ws_quiet|]. intros [cost pr].
    apply ws_reports; [by left|]. intros resp. split; [only_tac|completes_tac].
Qed.

(** ** How often an order is sent *)

Definition sendless (a : Act) : bool := negb (is_send a).

Lemma only_sendless {A} (m : Task A) : only quiet m → only sendless m.
Proof. apply only_mono. by intros a [_ Ha]%andb_true_iff. Qed.

Lemma sendless_none l : forallb sendless l = true → tally is_send l = 0%nat.
Proof. apply tally_none. intros a. apply negb_true_iff. Qed.

(** At most [n] order frames or posts. *)
Definition limited {A} (n : nat) (m : Task A) : Prop :=
  emits m (λ _ seg, (tally is_send seg ≤ n)%nat).

Section Limited.
Context (n : nat).

Lemma limited_only {A} (m : Task A) : only sendless m → limited n m.
Proof. intros H. eapply emits_mono; [exact H|]. intros o seg ->%sendless_none. lia. Qed.

Lemma limited_after {A B} (m : Task B) (k : B → Task A) :
  only sendless m → (∀ b, limited n (k b)) → limited n (mbind k m).
Proof.
  intros Hm Hk. apply emits_bind. eapply emits_mono; [exact Hm|].
  intros [b| |] seg Hs%sendless_none; cbn; rewrite ?Hs; [|lia..].
  eapply emits_mono; [apply Hk|]. intros o seg'. cbn. by rewrite tally_app, Hs.
Qed.

Lemma limited_then {A B} (m : Task A) (k : A → Task B) :
  limited n m → (∀ a, only sendless (k a)) → limited n (mbind k m).
Proof.
  intros Hm Hk. apply emits_bind. eapply emits_mono; [exact Hm|].
  intros [a| |] seg Hs; cbn; [|done..]. eapply emits_mono; [apply Hk|].
  intros o seg' Hs'%sendless_none. by rewrite tally_app, Hs', Nat.add_0_r.
Qed.

Lemma limited_try {E A B} (m : Task (E + A)) (k : A → Task (E + B)) :
  only sendless m → (∀ a, limited n (k a)) → limited n (try_ m k).
Proof.
  intros Hm Hk. apply limited_after; [done|]. intros [e|a]; [|done].
  apply limited_only, only_ret.
Qed.

Lemma limited_guarded {A} env rest cl op rid (m : Task A) :
  limited n m → limited n (guarded env rest cl op rid m).
Proof.
  intros H. apply emits_guarded. eapply emits_mono; [exact H|].
  intros o seg Hs. destruct o, cl; try done.
  all: eapply emits_mono; [apply cancel_guard_drop_log|]; intros _ seg' (Hs' & _);
    by rewrite tally_app, Hs', Nat.add_0_r.
Qed.
End Limited.

#[export] Hint Resolve only_sendless : task.

Section OrdersSent.
Context {D : Type} `{!DecimalOps D} (env : TaskEnv) (rest : RestSurface) (dec : Decoders).

Lemma publish_event_sendless t p : only sendless (publish_event env rest t p).
Proof. unfold publish_event. only_tac. Qed.

Lemma cancel_guard_drop_sendless c op rid : only sendless (cancel_guard_drop env rest c op rid).
Proof. pose proof publish_event_sendless. unfold cancel_guard_drop. only_tac. Qed.

Lemma emit_submitted_sendless c amend op st rid :
  only sendless (emit_order_submitted env rest c amend op st rid).
Proof. apply publish_event_sendless. Qed.

Lemma emit_ambiguous_sendless c amend op at_ rid :
  only sendless (emit_placement_ambiguous env rest c amend op at_ rid).
Proof. apply publish_event_sendless. Qed.
Hint Resolve emit_submitted_sendless emit_ambiguous_sendless snap_rest_quiet index_quiet lookup_quiet
  indexed_pair_quiet only_ret : task.

Lemma emit_rest_sendless r c amend op at_ rid :
  only sendless (emit_rest_submit_outcome env rest r c amend op at_ rid).
Proof. unfold emit_rest_submit_outcome. repeat case_match; auto with task. Qed.

Lemma index_placed_sendless pr (entries : list (BatchOrderEntry D)) rows at_ :
  only sendless (index_placed_batch_rows pr entries rows at_).
Proof.
  revert rows. induction entries as [|e entries IH]; intros [|row rows]; cbn; [only_tac..|].
  unfold with_id. only_tac; auto with task.
Qed.

Lemma emit_ws_sendless recv c amend op at_ rid index :
  only sendless (emit_ws_outcome env rest recv c amend op at_ rid index).
Proof. unfold emit_ws_outcome, index_on_accept. repeat case_match; only_tac; auto with task. Qed.
Hint Resolve emit_rest_sendless index_placed_sendless emit_ws_sendless : task.

(** One attempt, or the attempt and its fresh-nonce heal. *)
Lemma placement_limited validate path form auth cost rid :
  limited (if validate : bool then 2 else 1)
    (signed_post_costed env rest path form auth cost (placement_retry validate) rid).
Proof.
  destruct validate; cbn [placement_retry].
  - eapply emits_mono; [by apply signed_post_log|]. intros o seg Hlog.
    by apply attempts_disciplined in Hlog as (_ & Hn & _).
  - eapply emits_mono; [by apply signed_post_log|]. intros o seg Hlog.
    apply attempts_once in Hlog as (s & tail & -> & Ha & Ht); [|by apply never_retry_classify].
    apply attempt_disciplined in Ha as (_ & Hp & _).
    by rewrite tally_app, (background_no_send tail), Nat.add_0_r.
Qed.

Lemma add_order_rest_limited (req : OrderRequest D) ctx :
  limited (if or_validate req then 2 else 1) (add_order_rest env rest dec req ctx).
Proof.
  unfold add_order_rest. apply limited_try; [apply only_ret|]. intros _.
  destruct (rest_unrepresentable_field _); [apply limited_only; only_tac|].
  apply limited_try; [apply only_ret|]. intros [path auth].
  apply limited_after; [by apply only_mint|]. intros rid.
  apply limited_after; [apply only_read|]. intros at_.
  apply limited_then; [apply limited_guarded, placement_limited|]. intros r.
  unfold with_id. only_tac; auto with task.
Qed.

Lemma amend_rest_limited (req : OrderAmendRequest D) ctx :
  limited 1 (amend_order_exec env rest dec req Dispatch.Rest ctx).
Proof.
  cbn. apply limited_try; [apply only_ret|]. intros _.
  apply limited_try; [apply only_ret|]. intros [path auth].
  apply limited_after; [by apply only_mint|]. intros rid.
  apply limited_then; [|intros [e|v]; apply only_ret]. unfold age_costed_post.
  apply limited_try. { unfold charge_pre_send_rest. only_tac; auto with task. }
  intros _. apply limited_after; [apply only_read|]. intros at_.
  apply limited_then; [apply limited_guarded, (placement_limited false)|]. intros r.
  only_tac; auto with task.
Qed.

Lemma order_batch_rest_limited (req : AddOrderBatchRequest D) ctx :
  limited (if ba_validate req then 2 else 1) (order_batch_rest env rest dec req ctx).
Proof.
  unfold order_batch_rest. apply limited_try; [apply only_ret|]. intros _.
  destruct (batch_rest_blocked _); [apply limited_only; only_tac|].
  apply limited_try; [apply only_ret|]. intros [path auth].
  apply limited_after; [apply only_read|]. intros at_.
  apply limited_after; [by apply only_mint|]. intros rid.
  apply limited_then; [apply placement_limited|]. intros r.
  only_tac; auto with task.
Qed.

Lemma only_guarded_sendless {A} cl op rid (m : Task A) :
  only sendless m → only sendless (guarded env rest cl op rid m).
Proof.
  intros H. apply emits_guarded. eapply emits_mono; [exact H|].
  intros o seg Hs. destruct o, cl; try done.
  all: eapply emits_mono;
    [apply cancel_guard_drop_sendless|]; intros o' seg' Hs'; cbn in *;
    by rewrite forallb_app, Hs, Hs'.
Qed.

Lemma credit_sendless scope cost now : only sendless (credit_now scope cost now).
Proof. apply only_sendless, only_quiet, credit_background. Qed.
Hint Resolve credit_sendless ensure_sendable_quiet charge_request_quiet recv_reply_quiet
  snap_ws_quiet charge_pre_send_ws_quiet : task.

Lemma send_request_limited method req_id params cost :
  limited 1 (send_request_costed env rest method req_id params cost).
Proof.
  unfold send_request_costed. apply limited_try; [auto with task|]. intros charged.
  apply limited_then; [|intros [handle reject]; only_tac].
  unfold send_request_inner. apply limited_after; [apply only_read|]. intros [why|].
  - apply limited_only. only_tac.
  - apply limited_then; [by apply emits_act; cbn; lia|]. intros _. only_tac.
Qed.

Lemma ws_limited {Resp} ctx op order_op cl amend params cost index snap_pair
    (decode : WsResponse → Task (TradeError + Resp)) :
  (∀ resp, only sendless (decode resp)) →
  limited 1 (ws_send_and_decode env rest ctx op order_op cl amend params cost index snap_pair decode).
Proof.
  intros Hdec. unfold ws_send_and_decode. apply limited_try; [apply only_ret|]. intros _.
  destruct (negb (ctx_ws ctx)); [apply limited_only; only_tac|].
  apply limited_after; [apply only_read|]. intros [|]; [apply limited_only; only_tac|].
  apply limited_after; [auto with task|]. intros [e|_]; [apply limited_only; only_tac|].
  apply limited_after; [unfold next_req_id; only_tac|]. intros req_id.
  apply limited_then; [apply send_request_limited|]. intros [e|handle]; [only_tac|].
  apply only_bind; [apply only_read|]. intros at_.
  apply only_bind; [apply only_guarded_sendless; auto with task|].
  intros recv. unfold with_id. only_tac; auto with task.
Qed.
End OrdersSent.

(** C2: However the environment answers, an order call puts at most one order on the wire: one
    frame or one post for a placement, an amend or a batch on any transport, and one more post
    only for a REST call in validate mode, which places nothing. *)
Theorem orders_sent_once {D} `{!DecimalOps D} env rest dec t ctx
    (req : OrderRequest D) (amend : OrderAmendRequest D) (batch : AddOrderBatchRequest D) :
  limited (if or_validate req then 2 else 1) (add_order_exec env rest dec req t ctx) ∧
  limited 1 (amend_order_exec env rest dec amend t ctx) ∧
  limited (if ba_validate batch then 2 else 1) (order_batch_exec env rest dec batch t ctx).
Proof.
  assert (∀ {A} (b : bool) (m : Task A), limited 1 m → limited (if b then 2 else 1)%nat m) as Hle.
  { intros A b m H. eapply emits_mono; [exact H|]. intros o seg. destruct b; lia. }
  destruct t; (split_and!; [|try apply amend_rest_limited|]);
    try (apply limited_only; unfold add_order_exec, amend_order_exec, order_batch_exec,
           other_transport; solve [apply only_ret]).
  - apply add_order_rest_limited.
  - apply order_batch_rest_limited.
  - apply Hle. unfold add_order_exec, add_order_ws. apply limited_try; [apply only_ret|].
    intros _. destruct (close_ws_field _ _); [apply limited_only; only_tac|].
    apply ws_limited. intros resp. only_tac.
  - unfold amend_order_exec. apply limited_try; [apply only_ret|]. intros _.
    destruct (bool_decide _); [apply limited_only; only_tac|].
    apply limited_after; [apply only_sendless, charge_pre_send_ws_quiet|].
    intros [cost pr]. apply ws_limited. intros resp. only_tac.
  - apply Hle. unfold order_batch_exec, order_batch_ws. apply limited_try; [apply only_ret|].
    intros _. apply limited_try; [apply only_ret|]. intros params.
    apply limited_after; [apply only_read|]. intros at_. apply ws_limited. intros resp.
    pose proof (@index_placed_sendless D). only_tac; auto with task.
Qed.

(** A context over the default table with both transports wired, and decoders that accept. *)
Definition sample_ctx (op : Op) : WsOrderCtx :=
  mkCtx true (mkSystemStatus "online" "") op with_default_spot_table None.

Definition sample_decoders : Decoders := {|
  from_add := λ _, inr (mkRawAdd "" None ["T"]);
  from_cancel := λ _, inr (mkRawCancel 1 false);
  from_cancel_all := λ _, inr (mkRawCancelAll 1);
  from_amend := λ _, inr (mkRawAmend "A");
  from_deadman := λ _, inr (mkRawDeadman "0" "0");
  from_batch := λ _, inr [];
  uuid_parses := λ _, true;
  number_parses := λ _, true;
|}.

#[local] Existing Instance whole_decimal.

(** A REST order whose caller drops the future at the post. *)
Lemma order_calls_reported_witness :
  let env := sample_env (λ _, sample_answer) (λ _, None) (λ _, inl ResponseTimeout)
               (λ n, bool_decide (n = 8)%nat) in
  let run := add_order_exec env sample_rest sample_decoders sample_order Dispatch.Rest
               (sample_ctx TradeOrder) sample_world in
  (engine_max_attempts (rs_engine sample_rest) < u32_max)%N ∧ run.1 = Dropped ∧
  ∃ e, order_events (tw_log run.2) = [Published e] ∧ event_type e = OrderCancellationAttempted.
Proof.
  intros env run.
  assert ((engine_max_attempts (rs_engine sample_rest) < u32_max)%N) as Hb by done.
  destruct (order_calls_reported env sample_rest sample_decoders Dispatch.Rest
    (sample_ctx TradeOrder) sample_order (amend_new "cl") (mkCancel "cl") Hb) as (H & _).
  destruct (H sample_world) as (seg & Hl & Hr). clear H.
  assert (run.1 = Dropped) as Ho by (vm_compute; reflexivity).
  assert (tally is_send (tw_log run.2) = 1%nat) as Hs by (vm_compute; reflexivity).
  change (tw_log run.2 = seg) in Hl.
  change (reported env sample_rest (Some "cl") AddOrderOp run.1 seg) in Hr.
  clearbody run. rewrite Ho in Hr. rewrite Hl in *. destruct Hr as (Hn & _ & Hc & Hdrop).
  split; [done|]. split; [done|]. rewrite Hs in Hdrop.
  destruct (order_events seg) as [|a [|b l]]; [exfalso|..|cbn in Hn; lia].
  - apply Hdrop; [done|lia|by eexists|done|done|done].
  - cbn in Hc. apply andb_true_iff in Hc as [Hc _]. destruct a; try done. cbn in Hc.
    apply bool_decide_eq_true in Hc. eauto.
Defined.

(** The connection drops while the order's frame is in flight: the reply is lost, an ambiguous
    placement is reported, and still the error is declared safe to retry. *)
Definition in_flight_env : TaskEnv :=
  sample_env (λ _, sample_answer) (λ _, None) (λ _, inl RequestInFlightWhenDropped) (λ _, false).

Definition in_flight_run : Outcome (TradeError + AddOrderResponse) * TaskWorld :=
  add_order_exec in_flight_env sample_rest sample_decoders sample_order WsV2Auth
    (sample_ctx TradeOrder) sample_world.

Lemma in_flight_drop_is_retryable :
  ∃ err e, in_flight_run.1 = Done (inl err) ∧ trade_retryable err = true ∧
    tally is_send (tw_log in_flight_run.2) = 1%nat ∧
    order_events (tw_log in_flight_run.2) = [Published e] ∧
    event_type e = OrderPlacementAmbiguousEvent.
Proof. do 2 eexists. split_and!; vm_compute; reflexivity. Qed.

(** A validation's reply names no transaction, and still the id of the order, which was not
    placed, is indexed. *)
Definition validation_env : TaskEnv :=
  sample_env (λ _, PostResponse (JObject [("result", JObject [("descr", JNull)])])) (λ _, None)
    (λ _, inl ResponseTimeout) (λ _, false).

Definition validation_run : Outcome (TradeError + AddOrderResponse) * TaskWorld :=
  add_order_exec validation_env sample_rest
    (mkDecoders (λ _, inr (mkRawAdd "" None [])) (from_cancel sample_decoders)
       (from_cancel_all sample_decoders) (from_amend sample_decoders)
       (from_deadman sample_decoders) (from_batch sample_decoders) (λ _, true) (λ _, true))
    (or_with_validate true sample_order) Dispatch.Rest (sample_ctx TradeOrder) sample_world.

Lemma validated_order_is_indexed :
  ∃ r, validation_run.1 = Done (inr r) ∧ ar_txid r = None ∧
    (index_entries (sh_index (tw_shared validation_run.2))).*1 = ["cl"].
Proof. eexists. split_and!; vm_compute; reflexivity. Qed.
