(* ===== verification/TradeSafe.v ===== *)
(** * TradeSafe: the shared state under order calls

    No order call panics, the trackers and the index stay well-formed, and the charge of a
    WebSocket order is settled, provided the other tasks keep them well-formed too. *)

From Stdlib Require Import Ascii String.
From S2P Require Import Prelude F64 Types Events RateCounter RateLimit Knobs Errors Auth Rest Dispatch TradeError WireTime OrderTypes Connection Teardowns Reactor Task TaskLogic RestSurface Sample RestSurfaceProps WsCompose WsSurface Trade TradeProps.
Local Open Scope string_scope.
Local Open Scope list_scope.
Local Open Scope N_scope.

(** ** Well-formed shared state *)

Definition shared_wf (s : Shared) : Prop :=
  api_wf (sh_api s) ∧ trading_wf (sh_trading s) ∧ index_wf (sh_index s).

(** The outside keeps to its side: the others preserve the state, the clock is representable,
    and iterating a map's keys lists them. *)
Record env_ok (env : TaskEnv) : Prop := mkEnvOk {
  others_wf : ∀ n s, shared_wf s → shared_wf (te_others env n s);
  clock_ok : ∀ n, te_clock env n ≤ duration_max;
  keys_ok : ∀ l, te_hash_order env l ≡ₚ l;
}.

(** From a well-formed state the program does not panic and leaves one. *)
Definition safe {A} (m : Task A) : Prop :=
  ∀ w, shared_wf (tw_shared w) → (m w).1 ≠ Panicked ∧ shared_wf (tw_shared (m w).2).

(** The same, with a fact about the result. *)
Definition safe_with {A} (m : Task A) (Q : A → Prop) : Prop :=
  ∀ w, shared_wf (tw_shared w) →
    shared_wf (tw_shared (m w).2) ∧
    match (m w).1 with Done a => Q a | Dropped => True | Panicked => False end.

Lemma safe_weaken {A} (m : Task A) : safe m → safe_with m (λ _, True).
Proof. intros H w Hw. destruct (H w Hw). by destruct (m w) as [[]]. Qed.

Section Rules.
Context {A B E : Type}.

Lemma safe_with_bind (m : Task B) (k : B → Task A) Q :
  safe_with m Q → (∀ b, Q b → safe (k b)) → safe (mbind k m).
Proof.
  intros Hm Hk w Hw. destruct (Hm w Hw) as [Hwf HQ]. unfold mbind, Task_bind.
  destruct (m w) as [[b| |] w']; cbn in *; [by apply Hk|done..].
Qed.

Lemma safe_with_chain (m : Task B) (k : B → Task A) P Q :
  safe_with m P → (∀ b, P b → safe_with (k b) Q) → safe_with (mbind k m) Q.
Proof.
  intros Hm Hk w Hw. destruct (Hm w Hw) as [Hwf HQ]. unfold mbind, Task_bind.
  destruct (m w) as [[b| |] w']; cbn in *; [by apply Hk|done..].
Qed.

Lemma safe_with_ret (a : A) (Q : A → Prop) : Q a → safe_with (mret a) Q.
Proof. by intros HQ w Hw. Qed.

Lemma safe_bind (m : Task B) (k : B → Task A) :
  safe m → (∀ b, safe (k b)) → safe (mbind k m).
Proof. intros Hm Hk. eapply safe_with_bind; [by apply safe_weaken|auto]. Qed.

Lemma safe_ret (a : A) : safe (mret a).
Proof. by intros w Hw. Qed.
Lemma safe_read (f : nat → A) : safe (read f).
Proof. by intros w Hw. Qed.
Lemma safe_shared (f : Shared → A) : safe (shared f).
Proof. by intros w Hw. Qed.
Lemma safe_try (m : Task (E + A)) (k : A → Task (E + B)) :
  safe m → (∀ a, safe (k a)) → safe (try_ m k).
Proof.
  intros Hm Hk w Hw. destruct (Hm w Hw). unfold try_, mbind, Task_bind.
  destruct (m w) as [[[e|a]| |] w']; cbn in *; [done|by apply Hk|done..].
Qed.
End Rules.

Lemma safe_act a : safe (act a).
Proof. by intros w Hw. Qed.
Lemma safe_when b m : safe m → safe (task_when b m).
Proof. destruct b; [done|]. intros _. apply safe_ret. Qed.
Lemma safe_each {A} (f : A → Task ()) l : (∀ a, safe (f a)) → safe (task_each f l).
Proof. intros H. induction l; cbn; [apply safe_ret|]. by apply safe_bind. Qed.
Lemma safe_finally {A} (m : Task A) c : safe m → safe c → safe (finally m c).
Proof.
  intros Hm Hc w Hw. destruct (Hm w Hw) as [Hp Hs]. unfold finally.
  destruct (m w) as [o w']. cbn in *. split; [done|]. by apply Hc.
Qed.

(** What is read from the shared state is well-formed, and so must be what is written. *)
Lemma safe_get {A} (k : Shared → Task A) :
  (∀ s, shared_wf s → safe (k s)) → safe (mbind k (shared (λ s, s))).
Proof. intros Hk w Hw. by apply (Hk (tw_shared w)). Qed.

Lemma safe_set s : shared_wf s → safe (set_shared s).
Proof. by intros Hs w _. Qed.

Ltac safe_step :=
  lazymatch goal with
  | |- ∀ _, _ => intros ?
  | |- safe (mret _) => apply safe_ret
  | |- safe (read _) => apply safe_read
  | |- safe (clock _) => apply safe_read
  | |- safe (shared _) => apply safe_shared
  | |- safe (act _) => apply safe_act
  | |- safe (try_ _ _) => apply safe_try; [|intros ?]
  | |- safe (mbind _ _) => apply safe_bind; [|intros ?]
  | |- safe (task_when _ _) => apply safe_when
  | |- safe (task_each _ _) => apply safe_each; intros ?
  | |- safe (publish_each _) => apply safe_each; intros ?
  | |- safe (finally _ _) => apply safe_finally
  | |- safe (match ?x with _ => _ end) => destruct x
  end.

Create HintDb safe.
Ltac safe_tac := repeat first [safe_step | solve [eauto with safe]].

Section Safe.
Context {D : Type} `{!DecimalOps D} (env : TaskEnv) (rest : RestSurface) (dec : Decoders).
Context (ok : env_ok env).

Lemma safe_await {A} (f : nat → A) : safe (await env f).
Proof using ok.
  intros w Hw. unfold await. destruct (te_dropped env (tw_tick w)); [done|].
  split; [done|]. by apply ok.
Qed.

Lemma safe_clock : safe_with (clock env) (λ now, now ≤ duration_max).
Proof using ok. intros w Hw. split; [done|]. apply ok. Qed.

(** ** The trackers and the index *)

Lemma safe_api_consume scope cost now :
  nonneg cost → now ≤ duration_max → safe (api_consume_now env scope cost now).
Proof.
  intros Hc Hn. unfold api_consume_now. do 2 (safe_step; [safe_tac|]).
  apply safe_get. intros s (Ha & Ht & Hi).
  destruct (api_consume_accounting (te_sha256 env) b scope cost now b0 (sh_api s))
    as (r & t & es & -> & Hwf & _); [done..|].
  safe_step; [by apply safe_set|]. safe_tac.
Qed.

Lemma safe_trading_consume scope cost now :
  nonneg cost → now ≤ duration_max → safe (trading_consume_now env scope cost now).
Proof.
  intros Hc Hn. unfold trading_consume_now. do 3 (safe_step; [safe_tac|]).
  apply safe_get. intros s (Ha & Ht & Hi). destruct scope as [key|key p]; cbn [trading_consume].
  { safe_step; [by apply safe_set|]. safe_tac. }
  destruct (trading_consume_step (te_sha256 env) b key p cost now b0 b1 (sh_trading s))
    as (r & t & es & Hr & Hwf & _); [done..|].
  cbn [trading_consume] in Hr. rewrite Hr. safe_step; [by apply safe_set|]. safe_tac.
Qed.

Lemma safe_charge_account scope cost now :
  nonneg cost → safe (charge_account_wide_now scope cost now).
Proof.
  intros Hc. unfold charge_account_wide_now. apply safe_get. intros s (Ha & Ht & Hi).
  apply safe_set. split_and!; [done| |done]. by apply trading_charge_step.
Qed.

Lemma safe_credit scope cost now : nonneg cost → safe (credit_now scope cost now).
Proof.
  intros Hc. unfold credit_now. apply safe_get. intros s (Ha & Ht & Hi).
  apply safe_set. split_and!; [done| |done]. by apply trading_credit_step.
Qed.

Lemma safe_api_snap scope code now : safe (api_snap_now env scope code now).
Proof.
  unfold api_snap_now. safe_step; [safe_tac|]. apply safe_get. intros s (Ha & Ht & Hi).
  pose proof (api_snap_wf (te_sha256 env) scope code now b (sh_api s) Ha) as Hwf.
  destruct (api_snap_to_cap _ _ _ _ _ _) as [t es]. safe_step; [by apply safe_set|]. safe_tac.
Qed.

Lemma safe_trading_snap scope code now : safe (trading_snap_now env scope code now).
Proof using ok.
  unfold trading_snap_now. safe_step; [safe_tac|]. apply safe_get. intros s (Ha & Ht & Hi).
  destruct (trading_snap_step (te_sha256 env) (te_hash_order env) (keys_ok env ok) scope code now b
    (sh_trading s) Ht) as [Hwf _].
  destruct (trading_snap_to_cap _ _ _ _ _ _ _) as [t es]. safe_step; [by apply safe_set|]. safe_tac.
Qed.

Lemma safe_index_insert c pr at_ : safe (index_insert_now c pr at_).
Proof.
  unfold index_insert_now. apply safe_get. intros s (Ha & Ht & Hi). apply safe_set.
  split_and!; [done..|]. by apply index_insert_wf.
Qed.

Lemma safe_index_lookup c : safe (index_lookup_now c).
Proof.
  unfold index_lookup_now. apply safe_get. intros s (Ha & Ht & Hi).
  pose proof (lookup_and_promote_wf c (sh_index s) Hi) as Hwf.
  destruct (lookup_and_promote c (sh_index s)) as [e ix].
  safe_step; [by apply safe_set|]. safe_tac.
Qed.

Lemma safe_next_req_id : safe next_req_id.
Proof. unfold next_req_id. apply safe_get. intros s Hs. safe_step; [by apply safe_set|]. safe_tac. Qed.

Hint Resolve safe_await safe_charge_account safe_credit safe_api_snap safe_trading_snap
  safe_index_insert safe_index_lookup safe_next_req_id : safe.

(** ** The REST pipeline *)

Definition cost_ok (cost : RateLimitCost) : Prop :=
  match cost with
  | CostApi c | CostTrading c _ | CostTradingAccountWide c => nonneg c
  | CostNone => True
  end.

Lemma safe_publish t p : safe (publish_event env rest t p).
Proof. unfold publish_event. safe_tac. Qed.
Hint Resolve safe_publish : safe.

Lemma safe_charge_cost cost : cost_ok cost → safe (charge_cost env rest cost).
Proof using ok.
  intros Hc. unfold charge_cost. destruct (rest_api_key rest) as [key|]; [|safe_tac].
  eapply safe_with_bind; [apply safe_clock|]. intros now Hn.
  destruct cost; cbn in Hc; safe_tac; auto using safe_api_consume, safe_trading_consume.
Qed.

Lemma safe_sign_request profile path form : safe (sign_request env rest profile path form).
Proof. unfold sign_request. safe_step; [safe_tac|]. destruct (sign_form _ _ _ _ _ _ _). safe_tac. Qed.

Lemma safe_snap_api key now codes : safe (snap_api env key now codes).
Proof. induction codes; cbn; safe_tac. Qed.
Hint Resolve safe_charge_cost safe_sign_request safe_snap_api : safe.

Lemma safe_attempt path form profile cost :
  cost_ok cost → safe (signed_post_costed_once env rest path form profile cost).
Proof using ok.
  intros Hc. unfold signed_post_costed_once, nonce_gate, send_signed, snap_rejection. safe_tac.
Qed.

(** The loop has fuel to spare. *)
Lemma safe_request_loop endpoint cost retry rid run_once fuel a nr :
  safe run_once → a < max_attempts rest retry + nr → nr ≤ 1 →
  max_attempts rest retry < u32_max →
  (N.to_nat (max_attempts rest retry + 1 - a) ≤ fuel)%nat →
  safe (request_loop env rest endpoint cost retry rid run_once fuel a nr).
Proof using ok.
  intros Hrun Ha Hnr Hb. revert a nr Ha Hnr.
  induction fuel as [|fuel IH]; intros a nr Ha Hnr Hfuel; [lia|]. cbn [request_loop].
  replace (u32_wrapping_add a 1) with (a + 1)
    by (unfold u32_wrapping_add; rewrite N.mod_small; unfold u32_max in *; lia).
  unfold backoff_now, emit_retry_attempt, emit_poisoned.
  safe_step; [done|]. destruct b as [err|v]; [|safe_tac].
  destruct (classify err retry) as [reason| |]; [|safe_tac..].
  destruct (decide _); [destruct (1 <=? nr) eqn:Hle|destruct (_ <=? _) eqn:Hle];
    rewrite ?N.leb_le, ?N.leb_gt in Hle; safe_tac; apply IH; lia.
Qed.

Lemma safe_signed_post path form profile cost retry rid :
  cost_ok cost → max_attempts rest retry < u32_max →
  safe (signed_post_costed env rest path form profile cost retry rid).
Proof using ok.
  intros Hc Hb. pose proof (max_attempts_pos rest retry).
  unfold signed_post_costed, run_request_loop. apply safe_request_loop; [|lia|lia|done|lia].
  by apply safe_attempt.
Qed.

(** ** Costs *)

Lemma one_cost : nonneg f64_one.
Proof. by apply (f64_of_Z_nonneg 1). Qed.

Lemma age_cost_ok op now e : nonneg (order_cost op now e).
Proof.
  unfold order_cost, order_age_cost.
  destruct op; repeat case_match; by (split_and!; vm_compute).
Qed.

(** A batch that passes validation holds at most fifteen orders, if it fits 32 bits at all. *)
Lemma batch_cost_ok (req : AddOrderBatchRequest D) :
  N.of_nat (length (ba_orders req)) ≤ u32_max → batch_validate req = inr tt →
  nonneg (batch_cost req).
Proof.
  intros Hlen. unfold batch_validate, check, batch_cost, len_u32.
  destruct (reject_unsupported_deadline _); [done|].
  rewrite N.mod_small by (unfold u32_max in *; lia).
  destruct ((2 <=? _) && (_ <=? 15)) eqn:Hn; [intros _|done].
  apply andb_true_iff in Hn as [_ Hn%N.leb_le].
  set (n := N.of_nat (length (ba_orders req))) in *. clearbody n.
  assert (n = 0 ∨ n = 1 ∨ n = 2 ∨ n = 3 ∨ n = 4 ∨ n = 5 ∨ n = 6 ∨ n = 7 ∨ n = 8 ∨ n = 9 ∨ n = 10 ∨
    n = 11 ∨ n = 12 ∨ n = 13 ∨ n = 14 ∨ n = 15) as Hcases by lia.
  destruct_or! Hcases; subst n; by (split_and!; vm_compute).
Qed.

(** ** The executors *)

Context (budget_fits : engine_max_attempts (rs_engine rest) < u32_max).

Lemma safe_guarded {A} cl op rid (m : Task A) : safe m → safe (guarded env rest cl op rid m).
Proof.
  intros Hm w Hw. destruct (Hm w Hw) as [Hp Hs]. unfold guarded.
  destruct (m w) as [[a| |] w'], cl as [c|]; cbn in *; try done.
  assert (safe (cancel_guard_drop env rest c op rid)) as Hd
    by (unfold cancel_guard_drop; safe_tac).
  split; [done|]. by apply Hd.
Qed.

Lemma safe_snap_trading key pr now codes : safe (snap_trading env key pr now codes).
Proof using ok. induction codes; cbn; safe_tac. Qed.
Hint Resolve safe_guarded safe_snap_trading safe_ret : safe.

Lemma safe_snap_result r (pair_of : Task (option Symbol)) at_ :
  safe pair_of → safe (snap_rest_result env rest r pair_of at_).
Proof using ok. intros H. unfold snap_rest_result, snap_on_rest_rejection. safe_tac. Qed.

Lemma safe_emit_rest r c amend op at_ rid :
  safe (emit_rest_submit_outcome env rest r c amend op at_ rid).
Proof.
  unfold emit_rest_submit_outcome, emit_order_submitted, emit_placement_ambiguous.
  repeat case_match; safe_tac.
Qed.
Lemma safe_indexed_pair c : safe (indexed_pair c).
Proof. unfold indexed_pair. safe_tac. Qed.
Hint Resolve safe_snap_result safe_emit_rest safe_indexed_pair : safe.

Lemma safe_post path form auth cost retry rid :
  cost_ok cost → order_policy retry →
  safe (signed_post_costed env rest path form auth cost retry rid).
Proof using ok budget_fits.
  intros Hc Hp. apply safe_signed_post; [done|]. by apply order_policy_fits.
Qed.

Lemma safe_placement path form auth cost validate rid :
  cost_ok cost →
  safe (signed_post_costed env rest path form auth cost (placement_retry validate) rid).
Proof using ok budget_fits.
  intros Hc. apply safe_post; [done|]. destruct validate; constructor.
Qed.

Lemma safe_add_order_rest (req : OrderRequest D) ctx : safe (add_order_rest env rest dec req ctx).
Proof using ok budget_fits.
  unfold add_order_rest, post_guarded, with_id, mint_request_id. safe_tac.
  apply safe_guarded, safe_placement, one_cost.
Qed.

Lemma safe_age_costed cl age_op op path form auth retry rid :
  order_policy retry → safe (age_costed_post env rest cl age_op op path form auth retry rid).
Proof using ok budget_fits.
  intros Hp. unfold age_costed_post, charge_pre_send_rest, post_guarded.
  apply safe_try.
  - eapply safe_with_bind; [apply safe_clock|]. intros now Hn.
    safe_step; [safe_tac|]. destruct b as [e|]; [|safe_tac].
    destruct (rest_api_key rest) as [key|]; [|safe_tac].
    safe_step; [|safe_tac]. apply safe_trading_consume; [apply age_cost_ok|done].
  - intros _. safe_tac. apply safe_guarded, safe_post; done.
Qed.

Lemma safe_cancel_one req path auth : safe (cancel_one env rest dec req path auth).
Proof using ok budget_fits.
  unfold cancel_one, mint_request_id. safe_tac. apply safe_age_costed. constructor.
Qed.

Lemma safe_plain_post {A} ctx form cost (decode : Json → TradeError + A) :
  cost_ok cost → safe (plain_post env rest ctx form cost decode).
Proof using ok budget_fits.
  intros Hc. unfold plain_post, mint_request_id. safe_tac.
  apply safe_post; [done|constructor].
Qed.

Lemma safe_index_placed pr (entries : list (BatchOrderEntry D)) rows at_ :
  safe (index_placed_batch_rows pr entries rows at_).
Proof.
  revert rows. induction entries as [|e entries IH]; intros [|row rows]; cbn; [safe_tac..|].
  unfold with_id. safe_tac.
Qed.
Hint Resolve safe_index_placed : safe.

Lemma safe_order_batch_rest (req : AddOrderBatchRequest D) ctx :
  N.of_nat (length (ba_orders req)) ≤ u32_max → safe (order_batch_rest env rest dec req ctx).
Proof using ok budget_fits.
  intros Hlen. unfold order_batch_rest, mint_request_id.
  destruct (batch_validate req) as [e|[]] eqn:Hv; [by intros w Hw|].
  safe_tac. apply safe_placement. by apply batch_cost_ok.
Qed.

(** *** The WebSocket *)

Lemma safe_ensure_sendable url : safe (ensure_sendable env url).
Proof using ok.
  unfold ensure_sendable, await_open_by_url, unsubscribe_all_of. safe_tac.
Qed.

Lemma safe_charge_request cost :
  cost_ok cost →
  safe_with (charge_request env rest cost) (λ r,
    match r with inr (Some (_, c, _)) => nonneg c | _ => True end).
Proof using ok.
  intros Hc. unfold charge_request. destruct (rest_api_key rest) as [key|]; [|by apply safe_with_ret].
  eapply safe_with_chain; [apply safe_clock|]. intros now Hn.
  destruct cost as [c|c p|c|]; cbn in Hc; try by apply safe_with_ret.
  - eapply safe_with_chain; [apply safe_weaken; by apply safe_trading_consume|].
    intros [e|[]] _; by apply safe_with_ret.
  - eapply safe_with_chain; [apply safe_weaken; by apply safe_charge_account|].
    intros [] _. by apply safe_with_ret.
Qed.

Lemma safe_send_request method req_id params cost :
  cost_ok cost → safe (send_request_costed env rest method req_id params cost).
Proof using ok.
  intros Hc. unfold send_request_costed, try_.
  eapply safe_with_bind; [by apply safe_charge_request|]. intros [e|charged] Hr; [safe_tac|].
  unfold send_request_inner. safe_step; [safe_tac|]. destruct b as [handle reject].
  destruct reject, charged as [[[scope c] now]|]; safe_tac.
Qed.

Lemma safe_recv_reply req_id deadline h : safe (recv_reply env req_id deadline h).
Proof using ok. unfold recv_reply, abandon_request. safe_tac. Qed.

Lemma safe_snap_ws error pr now : safe (snap_on_ws_rejection env rest error pr now).
Proof using ok. unfold snap_on_ws_rejection. safe_tac. Qed.

Lemma safe_emit_ws recv c amend op at_ rid index :
  safe (emit_ws_outcome env rest recv c amend op at_ rid index).
Proof.
  unfold emit_ws_outcome, index_on_accept, emit_order_submitted, emit_placement_ambiguous.
  repeat case_match; safe_tac.
Qed.
Hint Resolve safe_recv_reply safe_snap_ws safe_emit_ws : safe.

Lemma safe_ws_send {Resp} ctx op order_op cl amend params cost index snap_pair
    (decode : WsResponse → Task (TradeError + Resp)) :
  cost_ok cost → (∀ resp, safe (decode resp)) →
  safe (ws_send_and_decode env rest ctx op order_op cl amend params cost index snap_pair decode).
Proof using ok.
  intros Hc Hd. pose proof safe_ensure_sendable. pose proof safe_send_request.
  unfold ws_send_and_decode, with_id. safe_tac.
Qed.

Lemma safe_charge_pre_send_ws ctx cl op :
  safe_with (charge_pre_send_ws env ctx cl op) (λ r, cost_ok r.1).
Proof using ok.
  unfold charge_pre_send_ws. destruct (ctx_ws ctx); [|by apply safe_with_ret].
  eapply safe_with_chain; [apply safe_weaken, safe_index_lookup|]. intros [e|] _; [|by apply safe_with_ret].
  eapply safe_with_chain; [apply safe_clock|]. intros now _. apply safe_with_ret, age_cost_ok.
Qed.
End Safe.

(** C3: Whatever the answers, the interruptions and the other tasks' well-formed changes, no
    order call panics (in particular no retry loop runs out of its bound and no charge divides
    or overflows), and each leaves the rate trackers and the order-id index well-formed, whether
    it comes to its end or is dropped. *)
Theorem order_calls_safe {D} `{!DecimalOps D} env rest dec t ctx
    (req : OrderRequest D) (amend : OrderAmendRequest D) (cancel : CancelRequest)
    (deadman : DeadmanRequest) (batch : AddOrderBatchRequest D) :
  env_ok env → engine_max_attempts (rs_engine rest) < u32_max →
  N.of_nat (length (ba_orders batch)) ≤ u32_max →
  safe (add_order_exec env rest dec req t ctx) ∧
  safe (amend_order_exec env rest dec amend t ctx) ∧
  safe (cancel_exec env rest dec cancel t ctx) ∧
  safe (cancel_all_exec env rest dec t ctx) ∧
  safe (deadman_exec env rest dec deadman t ctx) ∧
  safe (order_batch_exec env rest dec batch t ctx).
Proof.
  intros ok Hb Hlen.
  pose proof (safe_age_costed env rest ok Hb) as Hage.
  pose proof (@safe_ws_send env rest ok) as Hws. pose proof one_cost as H1.
  destruct t; split_and!; try (unfold add_order_exec, amend_order_exec, cancel_exec,
    cancel_all_exec, deadman_exec, order_batch_exec, other_transport; solve [apply safe_ret]).
  - by apply safe_add_order_rest.
  - unfold amend_order_exec, mint_request_id. safe_tac. apply Hage. constructor.
  - unfold cancel_exec. safe_tac. by apply safe_cancel_one.
  - by apply safe_plain_post.
  - by apply safe_plain_post.
  - by apply safe_order_batch_rest.
  - unfold add_order_exec, add_order_ws. safe_tac. apply Hws; [done|]. safe_tac.
  - apply safe_try; [safe_tac|]. intros _. destruct (bool_decide _); [safe_tac|].
    eapply safe_with_bind; [by apply safe_charge_pre_send_ws|].
    intros [cost pr] Hc. apply Hws; [done|]. safe_tac.
  - unfold cancel_exec. eapply safe_with_bind; [by apply safe_charge_pre_send_ws|].
    intros [cost pr] Hc. apply Hws; [done|]. safe_tac.
  - apply Hws; [done|]. safe_tac.
  - apply Hws; [done|]. safe_tac.
  - unfold order_batch_exec, order_batch_ws.
    destruct (batch_validate batch) as [e|[]] eqn:Hv; [by intros w Hw|].
    safe_tac. apply Hws; [by apply batch_cost_ok|]. intros resp.
    pose proof (@safe_index_placed D). safe_tac.
Qed.

Lemma calm_ok : env_ok calm.
Proof. split; [done| |done]. intros n. cbn -[N.min]. unfold duration_max, u64_max, nanos_per_sec. lia. Qed.

Lemma sample_shared_wf : shared_wf sample_shared.
Proof.
  split_and!; [done|apply trading_with_lru_cap_wf|]. split_and!; [by constructor|done|done].
Qed.

#[local] Existing Instance whole_decimal.

Lemma order_calls_safe_witness :
  let run := order_batch_exec calm sample_rest sample_decoders
    (batch_new "BTC/USD" []) WsV2Auth (sample_ctx TradeOrderBatch) sample_world in
  env_ok calm ∧ engine_max_attempts (rs_engine sample_rest) < u32_max ∧
  run.1 ≠ Panicked ∧ shared_wf (tw_shared run.2).
Proof.
  split; [exact calm_ok|]. split; [done|].
  destruct (order_calls_safe calm sample_rest sample_decoders WsV2Auth
    (sample_ctx TradeOrderBatch) sample_order (amend_new "cl") (mkCancel "cl") (mkDeadman 60)
    (batch_new "BTC/USD" []) calm_ok) as (_ & _ & _ & _ & _ & H); [done|cbn; lia|].
  exact (H sample_world sample_shared_wf).
Defined.

(** ** The charge of a WebSocket order *)

Section Settled.
Context (env : TaskEnv) (rest : RestSurface).

(** What the charge and the post did to the trading tracker [t] and the log. *)
Inductive settled (key : ApiKey) (c : f64) (pr : Symbol) (t : TradingTracker) (req_id : N)
  (frame : Act)
  : Outcome (RateLimitExceeded + WsRequestHandle) → TradingTracker → list Act → Prop :=
  | settled_refused e t' es now evicted warned pct :
      trading_consume (te_sha256 env) pct (ScopePair key pr) c now evicted warned t
        = Some (inl e, t', es) →
      settled key c pr t req_id frame (Done (inl e)) t' (Published <$> es)
  | settled_posted t' es now evicted warned pct :
      trading_consume (te_sha256 env) pct (ScopePair key pr) c now evicted warned t
        = Some (inr tt, t', es) →
      settled key c pr t req_id frame (Done (inr Posted)) t' ((Published <$> es) ++ [frame])
  | settled_returned t' es now evicted warned pct why :
      trading_consume (te_sha256 env) pct (ScopePair key pr) c now evicted warned t
        = Some (inr tt, t', es) →
      settled key c pr t req_id frame (Done (inr (Refused (match why with
          RejectFull => CEQueueFull | RejectClosed => NotOpen end))))
        (trading_credit (ScopePair key pr) c now t') ((Published <$> es) ++ [FrameRefused req_id why])
  | settled_panic : settled key c pr t req_id frame Panicked t [].

Lemma trading_consume_runs scope c now s log :
  runs (trading_consume_now env scope c now) (λ o s' log',
    match o with
    | Done r => ∃ pct evicted warned es,
        trading_consume (te_sha256 env) pct scope c now evicted warned (sh_trading s)
          = Some (r, sh_trading s', es) ∧
        s' = set_trading (sh_trading s') s ∧ log' = log ++ (Published <$> es)
    | Dropped => False
    | Panicked => s' = s ∧ log' = log
    end) s log.
Proof.
  unfold trading_consume_now. apply runs_bind, runs_read. intros i. cbn.
  apply runs_bind, runs_read. intros j. cbn. apply runs_bind, runs_read. intros k. cbn.
  apply runs_bind, runs_shared. cbn.
  destruct (trading_consume _ _ _ _ _ _ _ _) as [[[r t] es]|] eqn:Hc; [|by apply runs_panic].
  apply runs_bind, runs_set_shared. cbn. apply runs_bind, runs_publish_each. cbn.
  apply runs_ret. by do 4 eexists.
Qed.

End Settled.

(** C4: The charge of a WebSocket order is settled at once, with nothing between: refused by the
    tracker it leaves nothing on the queue; admitted, its frame is queued, or the queue refuses
    the frame and the same cost is credited to the same scope at the same instant.  The other
    tracker, the index and the ids are untouched. *)
Theorem ws_charge_settled env rest key c pr method req_id params s log :
  rest_api_key rest = Some key →
  runs (send_request_costed env rest method req_id params (CostTrading c pr)) (λ o s' log',
    s' = set_trading (sh_trading s') s ∧
    ∃ seg, log' = log ++ seg ∧
      settled env key c pr (sh_trading s) req_id
        (FramePosted req_id method (default OpAddOrder (from_method method)) params)
        o (sh_trading s') seg) s log.
Proof.
  intros Hkey. unfold send_request_costed. apply runs_try. unfold charge_request. rewrite Hkey.
  apply runs_bind, runs_read. intros i. cbn -[trading_consume_now].
  apply runs_bind. eapply runs_mono; [apply trading_consume_runs|].
  intros [r| |] s1 log1; cbn; [|done|].
  2: { intros [-> ->]. split; [by destruct s|]. exists []. split; [by rewrite app_nil_r|constructor]. }
  intros (pct & evicted & warned & es & Hc & Hs & ->). apply runs_ret. cbn.
  destruct r as [e|[]]; cbn.
  { split; [done|]. eexists. split; [done|]. by eapply settled_refused. }
  unfold send_request_inner. apply runs_bind, runs_bind, runs_read. intros j. cbn.
  destruct (te_queue env j) as [why|].
  - apply runs_bind, runs_act. cbn. apply runs_ret. cbn. apply runs_bind. unfold credit_now.
    apply runs_bind, runs_shared. cbn. apply runs_set_shared. cbn. apply runs_ret.
    split; [by rewrite Hs|]. eexists. split; [by rewrite <-app_assoc|].
    by eapply settled_returned.
  - apply runs_bind, runs_act. cbn. apply runs_ret. cbn. apply runs_ret.
    split; [done|]. eexists. split; [by rewrite <-app_assoc|]. by eapply settled_posted.
Qed.

Lemma ws_charge_settled_witness :
  let env := sample_env (λ _, sample_answer) (λ _, Some RejectFull) (λ _, inl ResponseTimeout)
               (λ _, false) in
  let run := send_request_costed env sample_rest "add_order" 7 JNull
               (CostTrading f64_one "BTC/USD") sample_world in
  rest_api_key sample_rest = Some "key" ∧ run.1 = Done (inr (Refused CEQueueFull)) ∧
  ∃ seg, tw_log run.2 = seg ∧
    settled env "key" f64_one "BTC/USD" (sh_trading sample_shared) 7
      (FramePosted 7 "add_order" OpAddOrder JNull) run.1 (sh_trading (tw_shared run.2)) seg.
Proof.
  intros env run. split; [done|]. split; [vm_compute; reflexivity|].
  destruct (ws_charge_settled env sample_rest "key" f64_one "BTC/USD" "add_order" 7 JNull
    sample_shared [] eq_refl sample_world eq_refl eq_refl) as (_ & seg & Hl & Hs).
  exists seg. split; [exact Hl|exact Hs].
Defined.
