(* ===== verification/ClientBuilder.v ===== *)
(** * ClientBuilder: from a configuration to a client

    [rust/src/build/client/builder.rs] and the knob calls of
    [rust/src/build/client/accessors.rs].  A client is the initial states of its components.
    Base64, SHA-256 and HMAC are third-party; an injected clock, nonce source or jitter source is
    the environment of the programs. *)

From Stdlib Require Import Ascii String.
From S2P Require Import Prelude F64 Types Events RateCounter RateLimit RateBudget Knobs Errors Auth Rest ConfigResolver Dispatch TradeError Connection TokenLifecycle EventBus Task RestSurface WsSurface Trade TradeNamespace.
Local Open Scope string_scope.
Local Open Scope N_scope.

(** ** The builder *)

(** Header names are lower-case, as the header map keeps them, in its order. *)
Record ClientBuilder := mkBuilder {
  cb_transport : bool;
  cb_credentials : option (ConfigError + (ApiKey * list ascii));
  cb_otp : option string;
  cb_tier_override : option Tier;
  cb_headers : list string;
  cb_config_resolver : ConfigResolver;
}.

Definition builder_new : ClientBuilder := mkBuilder false None None None [] resolver_new.

Definition builder_knob (name : string) (value : KnobValue) (b : ClientBuilder) : ClientBuilder :=
  mkBuilder (cb_transport b) (cb_credentials b) (cb_otp b) (cb_tier_override b) (cb_headers b)
    (with_builder_knob name value (cb_config_resolver b)).

Definition with_nonce_recovery (enable : bool) : ClientBuilder → ClientBuilder :=
  builder_knob "nonce_recovery" (KBool enable).

Definition with_prefer_rest_for_orders (enable : bool) : ClientBuilder → ClientBuilder :=
  builder_knob "prefer_rest_for_orders" (KBool enable).

Definition builder_config_file (path : string) (b : ClientBuilder) : ClientBuilder :=
  mkBuilder (cb_transport b) (cb_credentials b) (cb_otp b) (cb_tier_override b) (cb_headers b)
    (with_config_file path (cb_config_resolver b)).

Definition with_tier_override (t : Tier) (b : ClientBuilder) : ClientBuilder :=
  mkBuilder (cb_transport b) (cb_credentials b) (cb_otp b) (Some t) (cb_headers b)
    (cb_config_resolver b).

Definition with_base_url (url : string) : ClientBuilder → ClientBuilder :=
  builder_knob "rest_base_url" (KStr url).

Definition with_transport (b : ClientBuilder) : ClientBuilder :=
  mkBuilder true (cb_credentials b) (cb_otp b) (cb_tier_override b) (cb_headers b)
    (cb_config_resolver b).

(** [HeaderMap::extend]: a name already there keeps its place. *)
Definition with_headers (names : list string) (b : ClientBuilder) : ClientBuilder :=
  mkBuilder (cb_transport b) (cb_credentials b) (cb_otp b) (cb_tier_override b)
    (cb_headers b ++ filter (λ n, n ∉ cb_headers b) names) (cb_config_resolver b).

Definition with_otp (otp : string) (b : ClientBuilder) : ClientBuilder :=
  mkBuilder (cb_transport b) (cb_credentials b) (Some otp) (cb_tier_override b) (cb_headers b)
    (cb_config_resolver b).

Definition reserved_headers : list string :=
  ["api-key"; "api-sign"; "content-type"; "accept"; "host"; "x-korigin"].

(** Derived [Debug]. *)
Definition auth_profile_debug (p : AuthProfile) : string :=
  match p with
  | ProfilePublic => "Public" | SpotV1 => "SpotV1" | SpotWsV2 => "SpotWsV2"
  | L3WsV2 => "L3WsV2" | FuturesV3 => "FuturesV3"
  end.

(** [DispatchEventBusConfig::from_knobs] *)
Definition bus_from_knobs (k : Knobs) : DispatchEventBus :=
  bus_new (io_to_dispatch_capacity k) 100 (slow_callback_threshold_ms k).

(** [ConnectionSupervisor::new_with_knobs] *)
Definition budget_from_knobs (k : Knobs) : RateBudget.ConnectionRateBudget :=
  with_knobs (connection_rate_budget k) (connection_rate_window k).

(** The two envelopes about configuration. *)
Inductive ConfigEvent :=
  | ConfigResolvedEv (at_ : MonotonicInstant) (sources : SourceMap)
  | ConfigChangedEv (at_ : MonotonicInstant) (knob : KnobName) (previous current : KnobValue).

(** The components of a client: the URL and timeout of the transport it builds itself, the
    WebSocket URLs, and the initial states of the rest. *)
Record Client := mkClient {
  cl_http : option (string * Duration);
  cl_ws_public_url : string;
  cl_ws_auth_url : string;
  cl_knobs : Knobs;
  cl_rest : RestSurface;
  cl_request_timeout : Duration;
  cl_shared : Shared;
  cl_budget : RateBudget.ConnectionRateBudget;
  cl_bus : DispatchEventBus;
  cl_tokens : TokenState;
  cl_key_fingerprint : string;
  cl_trade : Namespace;
  cl_next_request_id : N;
}.

Section Build.
Context (env : ConfigEnv) (b64_decode : string → option (list ascii))
  (sha256 : list ascii → list N) (sha256_ascii : list ascii → list ascii)
  (hmac_sha512 : list ascii → option (list ascii → list ascii)) (base64 : list ascii → string).

(** [ApiSecret::from_base64]: [None] for an undecodable or empty secret. *)
Definition secret_from_base64 (b64 : string) : option (list ascii) :=
  bytes ← b64_decode b64;
  match bytes with [] => None | _ => Some bytes end.

Definition with_api_key (key : ApiKey) (secret : string) (b : ClientBuilder) : ClientBuilder :=
  mkBuilder (cb_transport b)
    (Some (match secret_from_base64 secret with
           | Some s => inr (key, s)
           | None => inl InvalidCredentials
           end))
    (cb_otp b) (cb_tier_override b) (cb_headers b) (cb_config_resolver b).

(** [credentials.transpose()?] *)
Definition take_credentials (b : ClientBuilder)
  : ConfigError + option (ApiKey * list ascii) :=
  match cb_credentials b with
  | None => inr None
  | Some (inl e) => inl e
  | Some (inr c) => inr (Some c)
  end.

Definition check_headers (b : ClientBuilder) : ConfigError + () :=
  if cb_transport b && negb (bool_decide (cb_headers b = [])) then inl HeadersRequireSdkTransport
  else
    match List.find (λ n, bool_decide (n ∈ reserved_headers)) (cb_headers b) with
    | Some name => inl (ReservedHeaderName name)
    | None => inr tt
    end.

(** The signer table: one signer, when there are credentials. *)
Definition signers_of (credentials : option (ApiKey * list ascii)) (p : AuthProfile)
  : option (N → string → string → string + SignedRequest) :=
  match credentials, p with
  | Some (key, secret), SpotV1 => Some (spot_sign sha256_ascii hmac_sha512 base64 key secret)
  | _, _ => None
  end.

(** The wiring of the components. *)
Definition assemble (b : ClientBuilder) (credentials : option (ApiKey * list ascii)) (k : Knobs)
  : Client :=
  let tier := default Starter (cb_tier_override b) in
  {| cl_http := if cb_transport b then None else Some (rest_base_url k, request_timeout k);
     cl_ws_public_url := ws_public_url k;
     cl_ws_auth_url := ws_auth_url k;
     cl_knobs := k;
     cl_rest :=
       {| rs_auth := mkAuthStack (fst <$> credentials) (cb_otp b) (signers_of credentials);
          rs_engine := engine_from_knobs k;
          rs_has_bus := true;
          rs_profile_debug := auth_profile_debug |};
     cl_request_timeout := request_timeout k;
     cl_shared :=
       mkShared (api_new tier) (trading_with_lru_cap tier (rate_limit_trading_scope_cap k))
         (index_new (cl_ord_id_index_cap k)) 1;
     cl_budget := budget_from_knobs k;
     cl_bus := bus_from_knobs k;
     cl_tokens := tokens_new;
     cl_key_fingerprint :=
       default "<no-key>" (derive_key_fingerprint sha256 ∘ fst <$> credentials);
     cl_trade := mkNamespace true k with_default_spot_table;
     cl_next_request_id := 1 |}.

Definition build (now : MonotonicInstant) (b : ClientBuilder)
  : ConfigError + (Client * ConfigEvent) :=
  match take_credentials b with
  | inl e => inl e
  | inr credentials =>
      match resolve_config env (cb_config_resolver b) with
      | inl e => inl e
      | inr (k, sources) =>
          match validate_endpoint_schemes k (negb (cb_transport b)) with
          | inl e => inl e
          | inr _ =>
              match check_headers b with
              | inl e => inl e
              | inr _ => inr (assemble b credentials k, ConfigResolvedEv now sources)
              end
          end
      end
  end.
End Build.

(** ** [Client::knob] and [Client::set_knob] *)

Definition client_knob (name : string) (c : Client) : option KnobValue := snapshot name (cl_knobs c).

Definition known_knob (p : KnobName → bool) (name : string) : bool :=
  match knob_from_str name with Some knob => p knob | None => false end.

(** The bus reads the threshold of slow callbacks when it needs it. *)
Definition set_slow_threshold (ms : N) (b : DispatchEventBus) : DispatchEventBus :=
  mkBus (io_to_dispatch b) (subscribers b) (next_subscriber_id b) (dropped_count b)
    (last_warning_at b) (sample_interval_ms b) ms (clock_reads b) (callback_calls b).

Definition set_client_knobs (k : Knobs) (c : Client) : Client :=
  mkClient (cl_http c) (cl_ws_public_url c) (cl_ws_auth_url c) k (cl_rest c)
    (cl_request_timeout c) (cl_shared c) (cl_budget c)
    (set_slow_threshold (slow_callback_threshold_ms k) (cl_bus c)) (cl_tokens c)
    (cl_key_fingerprint c) (mkNamespace (ns_ws (cl_trade c)) k (ns_dispatch (cl_trade c)))
    (cl_next_request_id c).

(** The knobs are shared: every component sees the change. *)
Definition set_knob (now : MonotonicInstant) (name : string) (value : KnobValue) (c : Client)
  : ConfigError + (Client * ConfigEvent) :=
  if known_knob is_construction_only name then inl (ImmutableKnob name)
  else if negb (known_knob is_runtime_mutable name) then
    inl (InvalidConfig ("unknown knob `" ++ name ++ "`"))
  else
    match set_runtime name value (cl_knobs c), knob_from_str name with
    | Some (previous, k), Some knob =>
        inr (set_client_knobs k c, ConfigChangedEv now knob previous value)
    | _, _ => inl (InvalidConfig ("knob `" ++ name ++ "`: value type mismatch"))
    end.
