(* ===== verification/ClientProps.v ===== *)
(** * ClientProps: what a built client is, and its runtime knobs *)

From Stdlib Require Import Ascii String.
From S2P Require Import Prelude F64 Types Events RateCounter RateLimit RateBudget Knobs Errors Auth Rest ConfigResolver ConfigProps Dispatch TradeError Connection TokenLifecycle EventBus Task RestSurface WsSurface Trade TradeNamespace TradeSafe ClientBuilder.
Local Open Scope string_scope.
Local Open Scope N_scope.






Section Built.
Context (env : ConfigEnv) (sha256 : list ascii → list N) (sha256_ascii : list ascii → list ascii)
  (hmac_sha512 : list ascii → option (list ascii → list ascii)) (base64 : list ascii → string).

Abbreviation client_of b creds k := (assemble sha256 sha256_ascii hmac_sha512 base64 b creds k).
Abbreviation built now b := (build env sha256 sha256_ascii hmac_sha512 base64 now b).


End Built.

(** *** What the components start with, read off the knobs and the builder *)





Section Started.
Context (sha256 : list ascii → list N) (sha256_ascii : list ascii → list ascii)
  (hmac_sha512 : list ascii → option (list ascii → list ascii)) (base64 : list ascii → string).

End Started.


(** ** Runtime knobs *)

Lemma known_name name knob : knob_from_str name = Some knob → name = knob_as_str knob.
Proof. intros Hf. apply find_some in Hf as [_ Hn]. by apply bool_decide_eq_true in Hn. Qed.

(** A runtime update succeeds only for a runtime-mutable knob, whose change is announced with
    the value it had and the value it has now; every component that holds the knobs sees it, and
    no other knob and no other part of the client changes.  A construction-only knob is refused as
    immutable, and an unknown name as such. *)
Theorem set_knob_announced now name value c :
  knob_value_ok value →
  (∀ c' ev, set_knob now name value c = inr (c', ev) →
     ∃ knob previous,
       name = knob_as_str knob ∧ is_runtime_mutable knob = true ∧
       ev = ConfigChangedEv now knob previous value ∧
       client_knob name c = Some previous ∧ client_knob name c' = Some value ∧
       (∀ other, other ≠ knob →
          client_knob (knob_as_str other) c' = client_knob (knob_as_str other) c) ∧
       ns_knobs (cl_trade c') = cl_knobs c' ∧
       slow_threshold_ms (cl_bus c') = slow_callback_threshold_ms (cl_knobs c') ∧
       cl_shared c' = cl_shared c ∧ cl_rest c' = cl_rest c ∧ cl_http c' = cl_http c) ∧
  (∀ knob, name = knob_as_str knob → is_runtime_mutable knob = false →
     set_knob now name value c = inl (ImmutableKnob name)) ∧
  (knob_from_str name = None → ∃ detail, set_knob now name value c = inl (InvalidConfig detail)).
Proof.
  intros Hok. unfold set_knob, known_knob. split_and!.
  - intros c' ev. destruct (knob_from_str name) as [knob|] eqn:Hn; [|done].
    unfold is_construction_only. destruct (is_runtime_mutable knob) eqn:Hm; [|done]. cbn [negb].
    destruct (set_runtime name value (cl_knobs c)) as [[previous k]|] eqn:Hs; [|done].
    intros [= <- <-]. pose proof (known_name _ _ Hn) as ->.
    destruct (set_runtime_roundtrip knob value previous (cl_knobs c) k Hok Hs)
      as (_ & -> & Hnew & Hother).
    exists knob, (snapshot_knob knob (cl_knobs c)).
    unfold client_knob, snapshot. rewrite Hn. cbn [mbind option_bind].
    split_and!; try done; [cbn; by rewrite Hnew|]. intros other Hne. rewrite knob_name_roundtrip. cbn [mbind option_bind].
    f_equal. by apply Hother.
  - intros knob -> Hm. rewrite knob_name_roundtrip. unfold is_construction_only. by rewrite Hm.
  - intros ->. by eexists.
Qed.

(** ** Concrete clients *)





Lemma set_knob_announced_witness :
  ∃ c c' ev, set_knob 7 "reconnect_attempts" (OptU32 (Some 5)) c = inr (c', ev) ∧
    client_knob "reconnect_attempts" c' = Some (OptU32 (Some 5)) ∧
    ev = ConfigChangedEv 7 ReconnectAttempts (OptU32 None) (OptU32 (Some 5)).
Proof.
  set (c := assemble (λ _, []) id (λ _, None) (λ _, "") builder_new None defaults).
  destruct (set_knob_announced 7 "reconnect_attempts" (OptU32 (Some 5)) c) as [H _].
  { vm_compute. discriminate. }
  eexists c, _, _. split; [reflexivity|].
  destruct (H _ _ eq_refl) as (knob & previous & Hn & Hm & Hev & Hp & Hv & _).
  split; [exact Hv|reflexivity].
Defined.
