(* ===== verification/FrameRouting.v ===== *)
(** * FrameRouting: what the reactor makes of an inbound frame

    [rust/src/dispatch/io_reactor/frame_routing.rs].  A text frame is first a response to a
    WebSocket request, else an ack of a subscribe, else data for the handlers; a failed
    read is a close of the connection.  The parsed JSON of a frame is given; the decoders
    of the handlers are the environment. *)

From Stdlib Require Import Ascii String.
From S2P Require Import Prelude F64 Types Events Errors Knobs RateBudget Rest Book Connection TokenLifecycle EventBus Registry Handlers Reactor.
Local Open Scope string_scope.
Local Open Scope N_scope.

(** ** Reading JSON *)

Definition json_as_bool (v : Json) : option bool :=
  match v with JBool b => Some b | _ => None end.

Definition get_str (key : string) (v : Json) : option string := json_get key v ≫= json_as_str.

Definition parse_symbol (s : string) : option Symbol :=
  match symbol_new s with inr sym => Some sym | inl _ => None end.

(** ** Classifying authentication failures *)

Definition classify_auth_class (err : string) : option AuthErrorKind :=
  if str_contains "EAPI:Invalid token" err
     || str_contains "ESession:Invalid session" err
     || (str_contains "token" err
         && (str_contains "stale" err || str_contains "expired" err
             || str_contains "expir" err || str_contains "Invalid" err
             || str_contains "invalid" err))
  then Some KTokenStale
  else if str_contains "EAPI:Permission denied" err then Some KBadCreds
  else if str_contains "Permission denied" err || str_contains "permission denied" err
          || str_contains "EGeneral:Permission" err
  then Some KPermissionDenied
  else if str_contains "EAPI:Invalid" err || str_contains "EAuth:" err
          || str_contains "EAPI:Bad" err || str_contains "Invalid key" err
          || str_contains "Invalid signature" err
  then Some KBadCreds
  else None.

Definition classify_auth_handshake_error (err : string) : AuthErrorKind :=
  default KTransient (classify_auth_class err).

Inductive OrderAckAuth :=
  | Authenticated
  | AuthFailed (kind : AuthErrorKind).

Definition classify_order_ack_auth (success : bool) (err : option string) : OrderAckAuth :=
  if success then Authenticated
  else match err ≫= classify_auth_class with
       | Some kind => AuthFailed kind
       | None => Authenticated
       end.

Definition subscribe_rejection_is_transient (err_msg : string) : bool :=
  is_kraken_rate_limit err_msg.

Definition MESSAGE_DROPPED_PERIOD : Duration := 1000000000.

(** The outcome of reading a socket; a text frame comes with its parsed JSON, if it
    parses. *)
Inductive FrameResult :=
  | TextFrame (json : option Json)
  | OtherFrame
  | FrameError (kind : TransportErrorKind) (transient : bool).

Section FrameRouting.
Context {Decimal : Type} (dcmp : Decimal → Decimal → comparison)
  (crc32 : list (string * string) → list (string * string) → N)
  (dec_from_str : string → option Decimal)
  (decode_frame : Json → option RawBookData).
Abbreviation RM := (@Reactor.RM Decimal).
Context (renv : ReactorEnv).
Let env := re_env renv.

Definition rbool (b : option bool) : bool := default false b.

(** ** Throttled warnings and drop counts *)

Definition suppress_warn_throttled (site : string) (channel : option ChannelName) : RM () :=
  now ← rclock renv;
  tracker ← rgets rx_warn_tracker;
  let should_warn :=
    match tracker !! (site, channel) with
    | None => true
    | Some last => last + MESSAGE_DROPPED_PERIOD <=? now
    end in
  rwhen should_warn (
    rmodify (set_rx_warn_tracker (<[(site, channel) := now]> tracker));;
    rlog (FxWarn site channel)).

Definition emit_message_dropped (channel : ChannelName) (now : MonotonicInstant) (count : N)
  : RM () :=
  publish MessageDroppedNoHandler 1 now
    (PMessageDropped channel count MESSAGE_DROPPED_PERIOD).

Definition record_drop_and_maybe_emit (channel : ChannelName) : RM () :=
  now ← rclock renv;
  tracker ← rgets rx_drop_tracker;
  match tracker !! channel with
  | None =>
      rmodify (set_rx_drop_tracker (<[channel := (now, 0)]> tracker));;
      emit_message_dropped channel now 1
  | Some (last_emit, pending) =>
      if last_emit + MESSAGE_DROPPED_PERIOD <=? now then
        rmodify (set_rx_drop_tracker (<[channel := (now, 0)]> tracker));;
        emit_message_dropped channel now (u32_wrapping_add pending 1)
      else
        rmodify (set_rx_drop_tracker
                   (<[channel := (last_emit, u32_wrapping_add pending 1)]> tracker))
  end.

(** ** Request responses *)

Definition resolve_if_pending (url : WsUrl) (resp : WsResponse) : RM () :=
  pending ← conn_gets url mc_pending_requests;
  rwhen (bool_decide (is_Some (pending ≫= λ p, p !! resp_req_id resp)))
    (conn url (resolve_pending_request resp)).

(** The ack of an order sent as the authentication probe. *)
Definition drive_auth_probe (url : WsUrl) (req_id : N) (ack : OrderAckAuth) : RM () :=
  reg ← rgets rx_registry;
  (match ack with
   | Authenticated =>
       if has_url_entry Auth reg then
         handle_conn_event renv url WireAuthHandshakeOk;;
         state ← conn_state url;
         rwhen (bool_decide (state = Some Resubscribing)) (
           send_remaining_signed_subscribes renv url None;;
           conn url (complete_resubscribe_if_empty env))
       else handle_conn_event renv url WireOrderAuthOk
   | AuthFailed kind =>
       handle_conn_event renv url (WireAuthHandshakeFailed kind);;
       rwhen (match kind with KTokenStale => true | _ => false end)
         (conn url (drain_one_retryable env req_id))
   end);;
  write_mirror url;;
  store_send_ready renv url;; mret tt.

(** A stale token noticed on an open connection. *)
Definition recover_stale_token (url : WsUrl) (req_id : N) : RM () :=
  handle_conn_event renv url WireOrderAckTokenStale;;
  auth_invalidate_cached_token renv;;
  conn url (modify (set_mc_awaiting_token_refresh true));;
  auth_force_refresh renv AuthHandshakeFailed;;
  conn url (drain_one_retryable env req_id);;
  write_mirror url.

Definition response_of (req_id : N) (json : Json) : WsResponse :=
  mkWsResponse req_id (rbool (json_get "success" json ≫= json_as_bool))
    (default JNull (json_get "result" json)) (get_str "error" json).

(** [true] when the frame is consumed. *)
Definition handle_request_response (url : WsUrl) (json : Json) : RM bool :=
  if negb (bool_decide (url = Auth)) then mret false
  else if negb (bool_decide (is_Some (get_str "method" json ≫= from_method))) then mret false
  else match json_get "req_id" json ≫= json_as_u64 with
  | None => suppress_warn_throttled "req-resp-no-req-id" None;; mret true
  | Some req_id =>
      let success_opt := json_get "success" json ≫= json_as_bool in
      rwhen (bool_decide (success_opt = None))
        (suppress_warn_throttled "req-resp-no-success" None);;
      let resp := response_of req_id json in
      m ← conn_gets url id;
      match m with
      | None => mret true
      | Some m =>
          let ack := classify_order_ack_auth (resp_success resp) (resp_error resp) in
          rwhen (bool_decide (mc_state m = Authenticating)) (drive_auth_probe url req_id ack);;
          state ← conn_state url;
          rwhen (bool_decide (state = Some Open)
                 && match ack with AuthFailed KTokenStale => true | _ => false end)
            (recover_stale_token url req_id);;
          resolve_if_pending url resp;;
          mret true
      end
  end.

(** ** Subscribe acks *)

Definition emit_auth_handshake_failed (url : WsUrl) (attempt : N) (kind : AuthErrorKind)
  (err_msg : string) : RM () :=
  now ← rclock renv;
  publish AuthHandshakeFailedEvent 1 now
    (PAuthHandshakeFailed url attempt
       (match kind with KTransient => true | _ => false end) (Some err_msg)).

(** Under [result] in a success, possibly at the top of a failure. *)
Definition ack_field (name : string) (json : Json) : option Json :=
  match json_get "result" json ≫= json_get name with
  | Some v => Some v
  | None => json_get name json
  end.

(** The key an ack is for: named in the frame, else known by its request id. *)
Definition ack_key (json : Json) (m : ManagedConnection) : option SubKey :=
  let echoed_pair := (ack_field "symbol" json ≫= json_as_str) ≫= parse_symbol in
  match (ack_field "channel" json ≫= json_as_str) ≫= channel_from_wire_str with
  | Some channel => Some (channel, echoed_pair)
  | None => req_id ← json_get "req_id" json ≫= json_as_u64; resolve_subscribe_req_id req_id m
  end.

(** The ack of the first signed subscribe, which is the authentication handshake. *)
Definition handshake_ack (url : WsUrl) (key : SubKey) (success : bool) (json : Json) : RM () :=
  (if success then
     handle_conn_event renv url WireAuthHandshakeOk;;
     conn url (disarm_subscribe_ack key);;
     modify_registry (note_acked key);;
     conn url (remove_deferred_open_auth_subscribe key);;
     state ← conn_state url;
     rwhen (bool_decide (state = Some Resubscribing)) (
       send_remaining_signed_subscribes renv url (Some key);;
       conn url (complete_resubscribe_if_empty env))
   else
     let err_msg := default "auth handshake rejected" (get_str "error" json) in
     let kind := classify_auth_handshake_error err_msg in
     attempt ← conn_gets url mc_attempt_count;
     emit_auth_handshake_failed url (default 0 attempt) kind err_msg;;
     handle_conn_event renv url (WireAuthHandshakeFailed kind);;
     conn url (disarm_subscribe_ack key);;
     m ← conn_gets url id;
     rwhen (match m with
            | Some m => bool_decide (mc_state m = Authenticating)
                        && mc_awaiting_token_refresh m
            | None => false
            end)
       (auth_force_refresh renv AuthHandshakeFailed));;
  write_mirror url;;
  refresh_send_ready renv url.

(** An ack no timer waits for: late or never asked for. *)
Definition unexpected_ack (url : WsUrl) (key : SubKey) (success : bool) : RM () :=
  rwhen success (
    conn url (disarm_subscribe_ack key);;
    conn url (remove_deferred_open_auth_subscribe key);;
    conn url (complete_resubscribe_if_empty env);;
    write_mirror url).

Definition rejected_ack (url : WsUrl) (key : SubKey) (err_msg : string) : RM () :=
  let transient := subscribe_rejection_is_transient err_msg in
  rwhen (negb transient) (
    modify_registry (note_terminated key NonTransientWireRejection (Some err_msg));;
    conn url (disarm_book_reseed_snapshot key));;
  handle_conn_event renv url
    (WireSubscribeFailed key.1 key.2 (SubscribeRejected err_msg transient)).

Definition handle_sub_ack (url : WsUrl) (json : Json) : RM bool :=
  match get_str "method" json with
  | Some m =>
      if String.eqb m "unsubscribe" then mret true
      else if negb (String.eqb m "subscribe") then mret false
      else
        let success_opt := json_get "success" json ≫= json_as_bool in
        rwhen (bool_decide (success_opt = None))
          (suppress_warn_throttled
             (match url with Auth => "sub-ack-no-success-auth" | _ => "sub-ack-no-success-public" end)
             None);;
        let success := rbool success_opt in
        mc ← conn_gets url id;
        match mc with
        | None => mret true
        | Some mc =>
            match ack_key json mc with
            | None => mret true
            | Some key =>
                if decide (mc_state mc = Authenticating) then
                  handshake_ack url key success json;; mret true
                else if negb (is_subscribe_ack_armed key mc) then
                  unexpected_ack url key success;; mret true
                else
                  let quirk :=
                    bool_decide (key.1 = Status) && negb success
                    && match get_str "error" json with
                       | Some e => str_contains "Symbol(s) not found" e
                       | None => false
                       end in
                  (if success || quirk then
                     let last := (pending_subscribe_ack_count mc <=? 1)%nat in
                     modify_registry (note_acked key);;
                     conn url (remove_deferred_open_auth_subscribe key);;
                     handle_conn_event renv url (WireSubscribeAck key.1 key.2 last)
                   else
                     rejected_ack url key
                       (default "subscribe rejected" (get_str "error" json)));;
                  write_mirror url;;
                  mret true
            end
        end
  | None => mret false
  end.

(** ** Data frames *)

Definition emit_book_gap_events (symbol : Symbol) : RM () :=
  now ← rclock renv;
  publish OrderBookGapEvent 2 now (POrderBookGap Types.Book symbol OrderBookCrcMismatch);;
  publish SubscriptionGapEvent 2 now
    (PSubscriptionGap Types.Book symbol 0 OrderBookCrcMismatch).

Definition emit_channel_gap_event (channel : ChannelName) (dropped_count : N) : RM () :=
  now ← rclock renv;
  publish ChannelGapEvent 1 now (PChannelGap channel dropped_count SequenceGapDetected).

(** Queue a payload for every handler, in registration order. *)
Definition deliver_to (channel : ChannelName) (payload : DataPayload)
  (handlers : list HandlerEntry) : RM () :=
  rfor_each (λ h, rlog (FxDeliver payload (he_callback h) channel (he_id h))) handlers.

Definition withholds_book (outcome : @BookDriveOutcome Decimal) : bool :=
  match outcome with
  | Gap _ _ | AwaitingSnapshot | GapBudgetExhausted => true
  | _ => false
  end.

(** Fan one entry out on [fan_channel]; [channel] is the frame's. *)
Definition fan_out (channel fan_channel : ChannelName) (msg_type : string) (data : Json)
  (symbol : option Symbol) (outcome : @BookDriveOutcome Decimal) : RM () :=
  if bool_decide (fan_channel = Types.Book) && withholds_book outcome then mret tt
  else
    handlers ← rgets rx_handlers;
    let handler_list := handlers_for fan_channel handlers in
    match handler_list with
    | [] =>
        rwhen (bool_decide (fan_channel = channel)
               && negb (bool_decide (channel = Status))
               && (negb (bool_decide (channel = Types.Book))
                   || bool_decide (handlers_for BookRaw handlers = [])))
          (record_drop_and_maybe_emit channel)
    | first :: _ =>
        match fan_channel, outcome with
        | Types.Book, Maintained update =>
            deliver_to fan_channel (TypedUpdate update) handler_list
        | _, _ =>
            match re_decode renv (he_callback first)
                    (json_object [("type", JString msg_type); ("data", data)]) with
            | HdDeliver payload =>
                deliver_to fan_channel (DecodedPayload payload) handler_list
            | HdDecodeFailed =>
                match symbol with
                | Some sym =>
                    now ← rclock renv;
                    publish SubscriptionGapEvent 2 now
                      (PSubscriptionGap fan_channel sym 0 MalformedFrame)
                | None => suppress_warn_throttled "decode-fail-no-symbol" (Some fan_channel)
                end
            | HdPanicked message =>
                now ← rclock renv;
                publish HandlerPanicWarning 1 now
                  (PHandlerPanicWarning (SourceDataChannel fan_channel) (he_id first)
                     (truncate_panic_message message))
            end
        end
    end.

(** The book gap an entry shows, if it is to be recovered. *)
Definition note_book_gap (symbol : option Symbol) (outcome : @BookDriveOutcome Decimal)
  : RM (list Symbol) :=
  match outcome with
  | Gap _ _ | GapBudgetExhausted =>
      match symbol with
      | Some sym =>
          emit_book_gap_events sym;;
          mret (match outcome with Gap _ _ => [sym] | _ => [] end)
      | None => suppress_warn_throttled "crc-gap-no-symbol" None;; mret []
      end
  | _ => mret []
  end.

Definition route_entry (channel : ChannelName) (msg_type : string) (data : Json)
  : RM (list Symbol) :=
  let symbol := get_str "symbol" data ≫= parse_symbol in
  let is_snapshot := String.eqb msg_type "snapshot" in
  outcome ← with_registry
    (handle_update dcmp crc32 dec_from_str decode_frame (channel, symbol) is_snapshot data);
  gaps ← note_book_gap symbol outcome;
  rfor_each (λ fan_channel, fan_out channel fan_channel msg_type data symbol outcome)
    (match channel with Types.Book => [Types.Book; BookRaw] | _ => [channel] end);;
  mret gaps.

Fixpoint route_entries (channel : ChannelName) (msg_type : string) (data : list Json)
  : RM (list Symbol) :=
  match data with
  | [] => mret []
  | d :: rest =>
      gaps ← route_entry channel msg_type d;
      more ← route_entries channel msg_type rest;
      mret (gaps ++ more)%list
  end.

Definition note_frame_sequence (channel : ChannelName) (msg_type : string) (json : Json)
  : RM () :=
  match channel with
  | Executions | Balances =>
      match json_get "sequence" json ≫= json_as_u64 with
      | Some seq =>
          lost ← with_registry (note_sequence channel seq (String.eqb msg_type "snapshot"));
          match lost with
          | Some dropped => emit_channel_gap_event channel dropped
          | None => mret tt
          end
      | None => mret tt
      end
  | _ => mret tt
  end.

(** The books to recover. *)
Definition route_text_frame (json : Json) : RM (list Symbol) :=
  match get_str "channel" json ≫= channel_from_wire_str, get_str "type" json with
  | Some channel, Some msg_type =>
      if String.eqb msg_type "update" || String.eqb msg_type "snapshot" then
        note_frame_sequence channel msg_type json;;
        match json_get "data" json ≫= json_as_array with
        | None => suppress_warn_throttled "non-array-data" (Some channel);; mret []
        | Some data => route_entries channel msg_type data
        end
      else mret []
  | _, _ => mret []
  end.

(** ** Recovering a book *)

Definition send_book_reseed (url : WsUrl) (symbol : Symbol) (params : SubscribeParams)
  : RM () :=
  send_single_unsubscribe renv url Types.Book (Some symbol) params;;
  send_single_subscribe renv url Types.Book (Some symbol) params;;
  due_at ← ack_due renv;
  conn url (arm_book_reseed_snapshot (Types.Book, Some symbol) due_at).

Definition recover_book_gap (url : WsUrl) (symbol : Symbol) : RM () :=
  modify_registry (begin_book_resync Types.Book symbol);;
  reg ← rgets rx_registry;
  match params_for (Types.Book, Some symbol) reg with
  | None => mret tt
  | Some params =>
      m ← conn_gets url id;
      rwhen (bool_decide (is_Some m)) (send_book_reseed url symbol params)
  end.

Definition handle_book_reseed_timeout (url : WsUrl) (pair : option Symbol) : RM () :=
  match pair with
  | None => mret tt
  | Some symbol =>
      outcome ← with_registry (note_reseed_timeout Types.Book symbol);
      match outcome with
      | StaleNoOp => mret tt
      | ReseedRetry =>
          reg ← rgets rx_registry;
          match params_for (Types.Book, Some symbol) reg with
          | None => mret tt
          | Some params => send_book_reseed url symbol params
          end
      | Exhausted => emit_book_gap_events symbol
      end
  end.

(** ** Closed sockets and the whole frame *)

Definition drive_wire_close (url : WsUrl) (event : FsmEvent) : RM () :=
  dead ← rgets (λ r, rx_sockets r !! url);
  remove_socket url;;
  m ← conn_gets url id;
  rwhen (bool_decide (is_Some m)) (
    handle_conn_event renv url event;;
    write_mirror url;;
    socket ← conn_socket url;
    match socket with
    | Some cid =>
        rwhen (negb (bool_decide (Some cid = dead))) (
          rmodify (λ r, set_rx_sockets (<[url := cid]> (rx_sockets r)) r);;
          wire_upgrade_bridge url cid)
    | None => mret tt
    end).

Definition handle_frame (url : WsUrl) (frame_result : FrameResult) : RM () :=
  match frame_result with
  | TextFrame json =>
      conn url (note_inbound_activity env);;
      match json with
      | None => mret tt
      | Some json =>
          is_response ← handle_request_response url json;
          if is_response : bool then mret tt
          else
            is_ack ← handle_sub_ack url json;
            if is_ack : bool then mret tt
            else
              gaps ← route_text_frame json;
              rfor_each (recover_book_gap url) gaps
      end
  | OtherFrame => conn url (note_inbound_activity env)
  | FrameError (CloseFrame code reason) _ =>
      drive_wire_close url (WireCloseReceived code (Some reason))
  | FrameError kind transient => drive_wire_close url (WireAbnormalClose kind transient)
  end.
End FrameRouting.
