(* ===== verification/ReactorLoop.v ===== *)
(** * ReactorLoop: callers' requests and the turns of the reactor

    [rust/src/dispatch/io_reactor/{inbound_dispatch,mod,timer}.rs].  A turn is one iteration
    of the loop: it serves one arm of the [select!] (which arm is the environment's choice,
    the model being of the arms and not of their priorities), then checks whether a client
    close is complete.  Token tasks run beside the reactor, so their steps are turns too. *)

From Stdlib Require Import Ascii String.
From S2P Require Import Prelude F64 Types Events Errors Knobs RateBudget Rest Book Connection TokenLifecycle EventBus Registry Handlers Reactor FrameRouting.
Local Open Scope string_scope.
Local Open Scope N_scope.

(** ** What callers ask for: [event_bus/inbound.rs] *)

Inductive CallerEvent :=
  | StartConnect (request_id : N)
  | Close (request_id : N)
  | ForceReconnect (request_id : N).

Definition caller_fsm_event (e : CallerEvent) : FsmEvent :=
  match e with
  | StartConnect request_id => CallStartConnect request_id
  | Close request_id => CallClose request_id
  | ForceReconnect request_id => CallForceReconnect request_id
  end.

Inductive HandlerMutationOp :=
  | HandlerRegister (id : HandlerId) (callback : N)
  | HandlerDeregister (id : HandlerId).

(** [mod.rs] *)
Inductive UpgradeOutcome :=
  | UpgradeOk (url : WsUrl) (connection_id : N)
  | UpgradeFailed (url : WsUrl) (kind : TransportErrorKind) (transient : bool).

Definition upgrade_failure_event (kind : TransportErrorKind) (transient : bool) : FsmEvent :=
  match kind with
  | HttpUpgradeRejected status => WireUpgradeFailed status
  | kind => WireConnectError kind transient
  end.

Section Loop.
Context {Decimal : Type} (dcmp : Decimal → Decimal → comparison)
  (crc32 : list (string * string) → list (string * string) → N)
  (dec_from_str : string → option Decimal)
  (decode_frame : Json → option RawBookData).
Abbreviation RM := (@Reactor.RM Decimal).
Abbreviation Reactor := (@Reactor.Reactor Decimal).

Inductive RegistryMutationOp :=
  | RegisterBatch (entries : list (@SubscriptionEntry Decimal)) (ref_id : option HandlerId)
  | Deregister (channel : ChannelName) (pair : option Symbol)
  | DeregisterBatch (channel : ChannelName) (pairs : list Symbol)
  | DeregisterAll (channel : option ChannelName).

(** The completion sender of a request is identified by the request id. *)
Inductive CallerInbound :=
  | InFsmEvent (url : WsUrl) (event : CallerEvent)
  | InClientClose (request_id : N) (initiated_at : MonotonicInstant)
  | InRegistryMutation (url : WsUrl) (mutation : RegistryMutationOp)
  | InHandlerMutation (channel : ChannelName) (op : HandlerMutationOp)
  | InSubscriptionGuardDrop (handler_id : HandlerId) (channel : ChannelName)
      (symbols : list Symbol)
  | InWsRequestFrame (req_id : N) (method : string) (op : WsOp) (params : Json)
  | InAbandonWsRequest (req_id : N).

Context (renv : ReactorEnv).
Let env := re_env renv.

(** ** Requests *)

Definition request_params (params : Json) (token : string) : Json :=
  match params with
  | JObject fields => JObject (bt_insert String.compare "token" (JString token) fields)
  | _ => JObject [("token", JString token)]
  end.

Definition request_frame (method : string) (params : Json) (token : string) (req_id : N)
  : Json :=
  json_object
    [("method", JString method); ("params", request_params params token);
     ("req_id", JNumber (decimal req_id))].

Definition request_admitted (state : ConnectionState) (op : WsOp)
  (registry : @SubscriptionRegistry Decimal) : bool :=
  match state with
  | Open => true
  | Authenticating => negb (has_url_entry Auth registry) && is_order_method op
  | _ => false
  end.

Definition handle_ws_request_frame (req_id : N) (method : string) (op : WsOp)
  (params : Json) : RM () :=
  state ← conn_state Auth;
  match state with
  | None => rlog (FxReject req_id NotOpen)
  | Some state =>
      reg ← rgets rx_registry;
      if negb (request_admitted state op reg) then rlog (FxReject req_id NotOpen)
      else
        now ← rclock renv;
        token ← auth_valid_token now;
        match token with
        | None =>
            auth_invalidate_cached_token renv;;
            conn Auth (modify (set_mc_awaiting_token_refresh true));;
            auth_force_refresh renv AuthHandshakeFailed;;
            rlog (FxReject req_id NotOpen)
        | Some token =>
            conn Auth (record_pending_request (mkPending req_id op now));;
            socket ← rgets (λ r, rx_sockets r !! Auth);
            result ←
              (match socket with
               | Some sock =>
                   result ←
                     send_frame renv Auth sock (request_frame method params token req_id);
                   mret (Some result)
               | None => mret None
               end);
            match result with
            | Some SendAccepted => mret tt
            | _ => conn Auth (fail_pending_request req_id NotOpen)
            end
        end
  end.

(** ** Deregistering *)

Definition teardown_released_key (key : SubKey) (params : option SubscribeParams)
  (was_tombstone : bool) : RM () :=
  let url := channel_ws_url key.1 in
  conn url (disarm_subscribe_ack key);;
  conn url (disarm_book_reseed_snapshot key);;
  conn url (remove_deferred_open_auth_subscribe key);;
  rwhen (negb was_tombstone) (unsubscribe_and_terminate renv key.1 key.2 params).

Definition complete_and_mirror (url : WsUrl) : RM () :=
  conn url (complete_resubscribe_if_empty env);;
  write_mirror url.

Definition deregister_one (channel : ChannelName) (pair : option Symbol) : RM () :=
  let key := (wire_channel channel, pair) in
  reg ← rgets rx_registry;
  let params := params_for key reg in
  let was_tombstone := is_terminated key reg in
  remaining ← with_registry (release key);
  rwhen ((remaining =? 0) && bool_decide (is_Some params)) (
    teardown_released_key key params was_tombstone;;
    complete_and_mirror (channel_ws_url key.1)).

Definition deregister_everything (channel : option ChannelName) : RM () :=
  removed ← with_registry (deregister_all (wire_channel <$> channel));
  rfor_each (λ x, teardown_released_key (key_of x.1) (Some (sub_params x.1))
               (match x.2 with Tombstone => true | Live => false end)) removed;;
  let touches u := existsb (λ x, bool_decide (channel_ws_url (sub_channel x.1) = u)) removed in
  rwhen (touches Public) (complete_and_mirror Public);;
  rwhen (touches Auth) (complete_and_mirror Auth).

Definition registry_deregister_handler (channel : ChannelName) (id : HandlerId) : RM () :=
  rmodify (λ r,
    let '(h, m) := deregister_handler channel id (rx_handlers r) (rx_presence r) in
    set_handlers h m r).

(** Release one target of a dropped guard; whether it was torn down. *)
Definition drop_guard_target (handler_id : HandlerId) (wire : ChannelName)
  (symbol : option Symbol) : RM bool :=
  let key := (wire, symbol) in
  reg ← rgets rx_registry;
  let params := params_for key reg in
  let was_tombstone := is_terminated key reg in
  remaining ← with_registry (release_guard_ref handler_id key);
  if bool_decide (is_Some params) && (remaining =? 0) then
    teardown_released_key key params was_tombstone;; mret true
  else mret false.

Fixpoint drop_guard_targets (handler_id : HandlerId) (wire : ChannelName)
  (targets : list (option Symbol)) : RM bool :=
  match targets with
  | [] => mret false
  | symbol :: rest =>
      torn ← drop_guard_target handler_id wire symbol;
      more ← drop_guard_targets handler_id wire rest;
      mret (torn || more)
  end.

Definition handle_guard_drop (handler_id : HandlerId) (channel : ChannelName)
  (symbols : list Symbol) : RM () :=
  registry_deregister_handler channel handler_id;;
  let wire := wire_channel channel in
  any_terminated ← drop_guard_targets handler_id wire
    (match symbols with [] => [None] | _ => map Some symbols end);
  rwhen any_terminated (complete_and_mirror (channel_ws_url wire)).

(** ** [handle_inbound] *)

Definition handle_fsm_event (url : WsUrl) (ev : FsmEvent) : RM () :=
  m ← conn_gets url id;
  rwhen (bool_decide (is_Some m)) (
    prev_cid ← conn_socket url;
    handle_conn_event renv url ev;;
    write_mirror url;;
    project_socket_and_wire_bridge url prev_cid).

Definition register_batch (url : WsUrl) (entries : list (@SubscriptionEntry Decimal))
  (ref_id : option HandlerId) : RM () :=
  rfor_each (λ e,
    register_one_and_emit renv url e ref_id;;
    m ← conn_gets url id;
    rwhen (match m with Some m => bool_decide (mc_socket m = None) | None => false end)
      (remove_socket url)) entries.

Definition handle_inbound (msg : CallerInbound) : RM () :=
  match msg with
  | InFsmEvent url event => handle_fsm_event url (caller_fsm_event event)
  | InClientClose _ _ => mret tt
  | InRegistryMutation url (RegisterBatch entries ref_id) => register_batch url entries ref_id
  | InRegistryMutation _ (Deregister channel pr) => deregister_one channel pr
  | InRegistryMutation _ (DeregisterBatch channel pairs) =>
      rfor_each (λ pr, deregister_one channel (Some pr)) pairs
  | InRegistryMutation _ (DeregisterAll channel) => deregister_everything channel
  | InHandlerMutation channel (HandlerRegister id callback) =>
      rmodify (λ r, set_handlers (register_with_id channel id callback (rx_handlers r))
                      (rx_presence r) r)
  | InHandlerMutation channel (HandlerDeregister id) => registry_deregister_handler channel id
  | InSubscriptionGuardDrop handler_id channel symbols =>
      handle_guard_drop handler_id channel symbols
  | InWsRequestFrame req_id method op params => handle_ws_request_frame req_id method op params
  | InAbandonWsRequest req_id => conn Auth (fail_pending_request req_id ResponseTimeout)
  end.

Definition refresh_auth_send_ready_hint : RM () :=
  rmodify (λ r, set_rx_auth_has_subscriptions (has_url_entry Auth (rx_registry r)) r);;
  m ← conn_gets Auth id;
  rwhen (bool_decide (is_Some m)) (refresh_send_ready renv Auth).

(** ** The arms of the loop *)

(** A caller's message; a client close closes every connection. *)
Definition inbound_arm (msg : CallerInbound) : RM () :=
  match msg with
  | InClientClose request_id initiated_at =>
      rmodify (set_rx_pending_client_close (Some (request_id, initiated_at)));;
      rfor_each (λ url,
        per_conn_id ← fresh_request_id;
        handle_inbound (InFsmEvent url (Close per_conn_id))) [Public; Auth]
  | msg => handle_inbound msg
  end.

Definition upgrade_ok_is_live (r : Reactor) (url : WsUrl) (connection_id : N) : bool :=
  bool_decide (rx_sockets r !! url = Some connection_id).

(** One frame of the replay was sent: wait for its ack and, where the book is still
    resyncing, for its snapshot. *)
Definition arm_replayed (url : WsUrl) (channel : ChannelName) (pair : option Symbol)
  (req_id : N) : RM () :=
  due_at ← ack_due renv;
  reg ← rgets rx_registry;
  conn url (record_subscribe_req_id req_id (channel, pair));;
  conn url (arm_subscribe_ack env (channel, pair) due_at);;
  rwhen (bool_decide (channel = Types.Book) && is_book_resyncing (channel, pair) reg)
    (conn url (arm_book_reseed_snapshot (channel, pair) due_at)).

Definition replay_subscriptions (url : WsUrl) : RM () :=
  reg ← rgets rx_registry;
  socket ← rgets (λ r, rx_sockets r !! url);
  (match socket with
   | Some sock =>
       send_batch renv url sock ResubscribeReplay (arm_replayed url)
         (compose_subscribe_frames_for_url url reg)
   | None => mret tt
   end);;
  conn url (complete_resubscribe_if_empty env);;
  write_mirror url;;
  cur_cid ← conn_socket url;
  project_socket_and_wire_bridge url cur_cid.

Definition upgrade_arm (outcome : UpgradeOutcome) : RM () :=
  match outcome with
  | UpgradeOk url connection_id =>
      live ← rgets (λ r, upgrade_ok_is_live r url connection_id);
      m ← conn_gets url id;
      rwhen (live && bool_decide (is_Some m)) (
        handle_conn_event renv url (WireUpgradeOk (Some connection_id));;
        write_mirror url;;
        m ← conn_gets url id;
        rwhen (match m with
               | Some m => bool_decide (mc_state m = Resubscribing) && mc_has_been_open m
               | None => false
               end)
          (replay_subscriptions url);;
        state ← conn_state url;
        rwhen (bool_decide (state = Some Authenticating)) (
          send_first_signed_subscribe renv url;;
          write_mirror url))
  | UpgradeFailed url kind transient =>
      m ← conn_gets url id;
      rwhen (bool_decide (is_Some m)) (
        handle_conn_event renv url (upgrade_failure_event kind transient);;
        write_mirror url;;
        socket ← conn_socket url;
        rwhen (bool_decide (socket = None)) (remove_socket url))
  end.

Definition drainable (state : option ConnectionState) : bool :=
  bool_decide (state = Some Open) || bool_decide (state = Some Resubscribing).

Fixpoint reissue_deferred (url : WsUrl) (deferred : list (SubKey * SubscribeParams)) : RM () :=
  match deferred with
  | [] => mret tt
  | (key, params) :: rest =>
      reg ← rgets rx_registry;
      armed ← conn_gets url (is_subscribe_ack_armed key);
      if bool_decide (params_for key reg = None) || is_terminated key reg
         || default false armed
      then reissue_deferred url rest
      else
        send_single_signed_subscribe renv url key.1 key.2 params;;
        state ← conn_state url;
        if drainable state then reissue_deferred url rest else mret tt
  end.

Definition rearm_token_refresh (url : WsUrl) : RM () :=
  token ← auth_cached_token;
  match token with
  | Some tok => conn url (arm_token_refresh (refresh_due_at tok))
  | None => conn url disarm_token_refresh
  end.

Definition refresh_event_of (o : RefreshOutcome) : FsmEvent :=
  match outcome_result o with
  | inr _ => BusTokenRefreshed (outcome_request_id o)
  | inl e => BusTokenRefreshFailed (outcome_request_id o) e
  end.

Definition refresh_arm (outcome : RefreshOutcome) : RM () :=
  let url := Auth in
  let ok := match outcome_result outcome with inr _ => true | inl _ => false end in
  m ← conn_gets url id;
  rwhen (bool_decide (is_Some m)) (
    state ← conn_state url;
    rwhen (negb (outcome_request_id outcome =? 0) || drainable state) (
      handle_conn_event renv url (refresh_event_of outcome);;
      write_mirror url;;
      idle ← conn_gets url authenticating_nothing_in_flight;
      rwhen (ok && default false idle) (
        send_first_signed_subscribe renv url;;
        write_mirror url));;
    state ← conn_state url;
    awaiting ← conn_gets url mc_awaiting_token_refresh;
    rwhen (ok && drainable state && bool_decide (awaiting = Some false)) (
      deferred ← conn url drain_deferred_open_auth_subscribes;
      reissue_deferred url deferred;;
      write_mirror url);;
    refresh_send_ready renv url;;
    token ← auth_cached_token;
    rwhen (ok || bool_decide (token = None)) (rearm_token_refresh url);;
    socket ← conn_socket url;
    match socket with
    | Some cid => rmodify (λ r, set_rx_sockets (<[url := cid]> (rx_sockets r)) r)
    | None => remove_socket url
    end).

(** ** Timers *)

(** The earliest timer of all connections; the map's order decides a tie. *)
Definition earliest_timer (r : Reactor) : option (WsUrl * FsmEvent) :=
  let consider (best : option (WsUrl * (MonotonicInstant * FsmEvent)))
               (x : WsUrl * ManagedConnection) :=
    match next_timer_due x.2 with
    | None => best
    | Some (due, ev) =>
        match best with
        | Some (_, (curr, _)) => if curr <=? due then best else Some (x.1, (due, ev))
        | None => Some (x.1, (due, ev))
        end
    end in
  (λ b, (b.1, b.2.2)) <$> fold_left consider (map_to_list (rx_conns r)) None.

Definition mirror_and_project (url : WsUrl) : RM () :=
  write_mirror url;;
  cur_cid ← conn_socket url;
  project_socket_and_wire_bridge url cur_cid.

(** [false] when the arm goes straight to the next iteration. *)
Definition timer_arm (url : WsUrl) (fsm_event : FsmEvent) : RM bool :=
  conn url (pop_timer_for_event fsm_event);;
  match fsm_event with
  | TimerSubscribeResendDue channel pr =>
      handle_subscribe_resend renv url channel pr;;
      mirror_and_project url;;
      mret false
  | TimerBookReseedSnapshot _ pr =>
      handle_book_reseed_timeout renv url pr;;
      mirror_and_project url;;
      mret false
  | TimerTokenRefreshDue =>
      state ← conn_state url;
      rwhen (negb (bool_decide (state = Some Closed) || bool_decide (state = Some Failed))) (
        auth_proactive_refresh renv;;
        now ← rclock renv;
        conn url (arm_token_refresh (now + WS_TOKEN_REFRESH_AT)));;
      mret false
  | fsm_event =>
      prev_cid ← conn_socket url;
      handle_conn_event renv url fsm_event;;
      write_mirror url;;
      project_socket_and_wire_bridge url prev_cid;;
      mret true
  end.

(** ** Turns *)

Inductive Turn :=
  | TurnInbound (msg : CallerInbound)
  | TurnCallersGone
  | TurnUpgrade (outcome : UpgradeOutcome)
  | TurnRefresh
  | TurnFrame (url : WsUrl) (result : FrameResult)
  | TurnTimer
  | TurnToken (op : TokenOp).

Definition all_closed (r : Reactor) : bool :=
  forallb (λ x : WsUrl * ManagedConnection, bool_decide (mc_state x.2 = Closed))
    (map_to_list (rx_conns r)).

(** The end of an iteration: a client close is complete once every connection is closed. *)
Definition check_client_close : RM () :=
  pending ← rgets rx_pending_client_close;
  closed ← rgets all_closed;
  match pending with
  | Some (request_id, initiated_at) =>
      rwhen closed (
        now ← rclock renv;
        let e rid := mkEnvelope ClientClosedEvent 1 now rid
                       (PClientClosed UserClose initiated_at) in
        rlog (FxResolveWaiters (e (Some request_id)));;
        rlog (FxPublish (e None));;
        rlog FxCloseDispatch;;
        rmodify (set_rx_running false))
  | None => mret tt
  end.

(** The start of an iteration: after a change of the registry the hints are recomputed. *)
Definition sync_liveness : RM () :=
  epoch ← rgets (λ r, liveness_epoch (rx_registry r));
  last ← rgets rx_last_liveness_epoch;
  rwhen (negb (epoch =? last)) (
    rmodify (set_rx_last_liveness_epoch epoch);;
    refresh_auth_send_ready_hint).

(** The first outcome of a refresh task. *)
Definition next_outcome : RM (option RefreshOutcome) := λ r,
  match outcomes (rx_tokens r) with
  | o :: rest =>
      let s := rx_tokens r in
      (Some o, set_rx_tokens (mkTokens (manager s) (tasks s) rest (credential_events s)) r)
  | [] => (None, r)
  end.

(** One arm; whether the end of the iteration is reached.  An arm that is not ready is
    not taken. *)
Definition select_arm (t : Turn) : RM bool :=
  match t with
  | TurnInbound msg => inbound_arm msg;; mret true
  | TurnCallersGone => rmodify (set_rx_running false);; mret false
  | TurnUpgrade outcome => upgrade_arm outcome;; mret true
  | TurnRefresh =>
      outcome ← next_outcome;
      match outcome with
      | Some outcome => refresh_arm outcome;; mret true
      | None => mret false
      end
  | TurnFrame url result =>
      socket ← rgets (λ r, rx_sockets r !! url);
      match socket with
      | Some _ =>
          handle_frame dcmp crc32 dec_from_str decode_frame renv url result;; mret true
      | None => mret false
      end
  | TurnTimer =>
      timer ← rgets earliest_timer;
      match timer with
      | Some (url, ev) => timer_arm url ev
      | None => mret false
      end
  | TurnToken op => auth_token_op renv op;; mret false
  end.

Definition reactor_turn (t : Turn) : RM () :=
  running ← rgets rx_running;
  rwhen running (
    (match t with TurnToken _ => mret tt | _ => sync_liveness end);;
    reached ← select_arm t;
    rwhen reached check_client_close).

Definition run_turns (ts : list Turn) : RM () := rfor_each reactor_turn ts.

(** The reactor as it is started: both connections idle, nothing registered.  The budget,
    the token state and the id allocator are the client's. *)
Definition reactor_new (budget : ConnectionRateBudget) (tokens : TokenState)
  (next_request_id : N) : Reactor :=
  mkReactor {[Public := mc_new env Public; Auth := mc_new env Auth]} registry_new ∅ ∅ ∅
    {[Public := Idle; Auth := Idle]} ∅ tokens false false ∅ ∅ next_request_id None
    (liveness_epoch (@registry_new Decimal)) true budget 0 0 0 0 [].
End Loop.
