(* ===== verification/ReactorInv.v ===== *)
(** * ReactorInv: what the reactor's programs are made of

    Every turn but the sending of an order is a sequence of primitive steps ([rstep]): a
    change that leaves connections and log alone, an effect, a subscription frame offered to
    a socket, or one of the connection operations of [ConnectionInv].  What the primitive
    steps keep, the reactor keeps; [run_ok] and its rules show that its programs are made
    of them. *)

From Stdlib Require Import Ascii String.
From stdpp Require Import relations.
From S2P Require Import Prelude F64 Types Events Errors Knobs RateBudget Rest Book Connection ConnectionWp ConnectionInv TokenLifecycle EventBus Registry Replay Handlers Reactor FrameRouting ReactorLoop.
Local Open Scope N_scope.

(** ** Subscription frames *)

Definition subscription_method (m : string) : Prop :=
  m = "subscribe"%string ∨ m = "unsubscribe"%string.

(** A subscribe or unsubscribe frame; no token travels on the public endpoint. *)
Definition plain_frame (url : WsUrl) (frame : Json) : Prop :=
  (∃ m, object_field "method" frame = Some (JString m) ∧ subscription_method m) ∧
  (url = Public → ∀ p, object_field "params" frame = Some p → object_field "token" p = None).

(** The frames composed from subscriptions. *)
Inductive composed (url : WsUrl) : Json → Prop :=
  | comp_built method ch pairs p id :
      subscription_method method →
      composed url (build_subscribe_frame method ch pairs p id)
  | comp_injected method ch pairs p id token :
      subscription_method method → url = Auth →
      composed url (inject_token (build_subscribe_frame method ch pairs p id) token).

Ltac subscription_cases m Hm p pairs :=
  assert (String.eqb m "subscribe" = false ∨ m = "subscribe"%string) as [Hs| ->]
    by (destruct Hm as [->| ->]; auto);
  destruct p as [[] []|d|d []|[]|i []| | |], pairs as [|s ss];
  unfold build_subscribe_frame, params_fields, on_subscribe; rewrite ?Hs.

Lemma composed_plain url frame : composed url frame → plain_frame url frame.
Proof.
  intros [method ch pairs p id Hm|method ch pairs p id token Hm ->]; split; try done;
    try (exists method; split; [|exact Hm]).
  1, 3: subscription_cases method Hm p pairs; reflexivity.
  intros _ params. subscription_cases method Hm p pairs; intros [= <-]; reflexivity.
Qed.

Lemma stamped_plain url frame id : composed url frame → plain_frame url (stamp_req_id frame id).
Proof.
  intros [method ch pairs p id' Hm|method ch pairs p id' token Hm ->]; split; try done;
    try (exists method; split; [|exact Hm]).
  1, 3: subscription_cases method Hm p pairs; reflexivity.
  intros _ params. subscription_cases method Hm p pairs; intros [= <-]; reflexivity.
Qed.

Section Steps.
Context {Decimal : Type} (dcmp : Decimal → Decimal → comparison)
  (crc32 : list (string * string) → list (string * string) → N)
  (dec_from_str : string → option Decimal)
  (decode_frame : Json → option RawBookData).
Abbreviation RM := (@Reactor.RM Decimal).
Abbreviation Reactor := (@Reactor.Reactor Decimal).
Abbreviation ReactorEffect := (@Reactor.ReactorEffect Decimal).
Context (renv : ReactorEnv).
Let env := re_env renv.

(** The text frames that may be answered from. *)
Context (J : Json → Prop).

(** ** Primitive steps *)

(** Effects that are neither a frame, nor a connection's, nor the refusal of a request. *)
Definition plain_effect (e : ReactorEffect) : Prop :=
  match e with FxFrame _ _ _ _ _ | FxConn _ _ | FxReject _ _ => False | _ => True end.

(** The id a response names. *)
Definition response_id (json : Json) : option N := json_get "req_id" json ≫= json_as_u64.

(** Everything but the recording of a request; a request is resolved with what a frame
    says. *)
Definition routine_op (op : ConnOp) : Prop :=
  match op with
  | OpRecordPending _ => False
  | OpResolvePending resp =>
      ∃ json, J json ∧ response_id json = Some (resp_req_id resp) ∧
              resp = response_of (resp_req_id resp) json
  | _ => True
  end.

(** The frame just offered met a full queue while the connection was closing. *)
Definition strained (url : WsUrl) (r : Reactor) : Prop :=
  ∃ sock frame, last (rx_log r) = Some (FxFrame url sock (Some Closing) frame Backpressure).

Inductive rstep (r : Reactor) : Reactor → Prop :=
  | rs_quiet r' : rx_conns r' = rx_conns r → rx_log r' = rx_log r → rstep r r'
  | rs_effect r' e :
      plain_effect e → rx_conns r' = rx_conns r → rx_log r' = rx_log r ++ [e] → rstep r r'
  | rs_frame r' url sock frame result :
      plain_frame url frame → rx_conns r' = rx_conns r →
      rx_log r' = rx_log r ++
        [FxFrame url sock (mc_state <$> rx_conns r !! url) frame result] →
      rstep r r'
  | rs_conn url mc op w :
      rx_conns r !! url = Some mc → w_mc w = mc → w_effects w = [] →
      routine_op op → op_admitted op mc ∨ strained url r →
      rstep r (set_conn url (run_op env op w).2 r).

(** The public connection is the public endpoint's, which needs no authentication. *)
Definition public_ok (r : Reactor) : Prop :=
  ∀ mc, rx_conns r !! Public = Some mc → mc_url mc = Public ∧ mc_state mc ≠ Authenticating.

Definition endpoint_ok (url : WsUrl) (mc : ManagedConnection) : Prop :=
  url = Public → mc_url mc = Public ∧ mc_state mc ≠ Authenticating.

Lemma event_endpoint ev mc effs :
  mc_url mc = Public → mc_state mc ≠ Authenticating →
  wp (reactor_step env ev) (λ _ mc' _, mc_url mc' = Public ∧ mc_state mc' ≠ Authenticating)
    mc effs.
Proof.
  intros Hu Hs. destruct (mc_state mc) eqn:E; try done; destruct ev; wp_run;
    repeat match goal with |- context [match ?x with _ => _ end] => destruct x eqn:? end;
    mc_simpl_in_goal; try (exfalso; congruence); split; congruence.
Qed.

Lemma op_endpoint op mc effs :
  mc_url mc = Public → mc_state mc ≠ Authenticating →
  wp (run_op env op) (λ _ mc' _, mc_url mc' = Public ∧ mc_state mc' ≠ Authenticating) mc effs.
Proof.
  intros Hu Hs. destruct op; [by apply event_endpoint|..]; cbn [run_op];
    destruct (mc_state mc) eqn:E; try done; wp_run;
    repeat match goal with |- context [match ?x with _ => _ end] => destruct x eqn:? end;
    mc_simpl_in_goal; try (exfalso; congruence); split; congruence.
Qed.

Lemma rstep_public r r' : rstep r r' → public_ok r → public_ok r'.
Proof.
  intros Hstep Hp. destruct Hstep as [r' Hc|r' e _ Hc|r' url sock f res _ Hc|url mc op w Hc Hw];
    try (unfold public_ok; rewrite Hc; exact Hp).
  intros mc'. cbn. destruct (decide (url = Public)) as [->|Hne].
  - rewrite lookup_insert_eq. intros [= <-].
    destruct (Hp mc Hc) as [Hu Hs]. by apply (op_endpoint op mc (w_effects w)).
  - rewrite lookup_insert_ne by done. apply Hp.
Qed.

Lemma rsteps_public r r' : rtc rstep r r' → public_ok r → public_ok r'.
Proof. induction 1; [done|]. intros. eauto using rstep_public. Qed.

(** ** Programs made of primitive steps *)

Definition run_ok {A} (m : RM A) (r : Reactor) : Prop := public_ok r → rtc rstep r (m r).2.

Definition routine {A} (m : RM A) : Prop := ∀ r, run_ok m r.

Lemma run_ok_bind {A B} (m : RM A) (k : A → RM B) r :
  run_ok m r → (public_ok r → run_ok (k (m r).1) (m r).2) → run_ok (mbind k m) r.
Proof.
  intros Hm Hk Hp. unfold mbind, RM_bind. specialize (Hm Hp). specialize (Hk Hp).
  destruct (m r) as [a r1]; cbn in *. etrans; [exact Hm|]. apply Hk.
  by eapply rsteps_public.
Qed.

Lemma routine_bind {A B} (m : RM A) (k : A → RM B) :
  routine m → (∀ a, routine (k a)) → routine (mbind k m).
Proof. intros Hm Hk r. apply run_ok_bind; [apply Hm|]. intros _. apply Hk. Qed.

Lemma routine_ret {A} (a : A) : routine (mret a : RM A).
Proof. intros r _. apply rtc_refl. Qed.

Lemma routine_gets {A} (f : Reactor → A) : routine (rgets f).
Proof. intros r _. apply rtc_refl. Qed.

(** After reading the state, the continuation runs on it. *)
Lemma run_ok_gets {A B} (f : Reactor → A) (k : A → RM B) r :
  run_ok (k (f r)) r → run_ok (mbind k (rgets f)) r.
Proof. intros Hk. apply run_ok_bind; [apply routine_gets|]. by intros _. Qed.

Lemma routine_quiet (f : Reactor → Reactor) :
  (∀ r, rx_conns (f r) = rx_conns r ∧ rx_log (f r) = rx_log r) → routine (rmodify f).
Proof. intros Hf r _. apply rtc_once. by apply rs_quiet; apply Hf. Qed.

Lemma routine_effect e : plain_effect e → routine (rlog e).
Proof. intros He r _. apply rtc_once. by apply (rs_effect _ _ e). Qed.

Lemma routine_when b m : routine m → routine (rwhen b m).
Proof. destruct b; [done|]. intros _. apply routine_ret. Qed.

Lemma routine_if {A} (b : bool) (m m' : RM A) :
  routine m → routine m' → routine (if b then m else m').
Proof. by destruct b. Qed.

Lemma routine_for_each {A} (f : A → RM ()) l :
  (∀ a, routine (f a)) → routine (rfor_each f l).
Proof.
  intros Hf. induction l as [|a l IH]; cbn; [apply routine_ret|by apply routine_bind].
Qed.

Lemma routine_clock : routine (rclock renv).
Proof. intros r _. apply rtc_once. by apply rs_quiet. Qed.

Lemma routine_registry {A} (op : @SubscriptionRegistry Decimal → A * SubscriptionRegistry) :
  routine (with_registry op).
Proof.
  intros r _. unfold with_registry. destruct (op (rx_registry r)) as [a reg].
  apply rtc_once. by apply rs_quiet.
Qed.

(** A connection's program that is one of its operations. *)
Lemma run_ok_conn {A} `{!Inhabited A} (m : M A) op url r :
  routine_op op → (∀ w, (m w).2 = (run_op env op w).2) →
  (∀ mc, rx_conns r !! url = Some mc → op_admitted op mc ∨ strained url r) →
  run_ok (conn url m) r.
Proof.
  intros Hop Hm Had _. unfold conn.
  destruct (rx_conns r !! url) as [mc|] eqn:Hc; [|apply rtc_refl].
  set (w := mkWorld mc _ _ _ _ _). specialize (Hm w).
  destruct (m w) as [a w'] eqn:E. cbn in Hm. subst w'. apply rtc_once.
  by eapply (rs_conn r url mc op w); [..|apply Had].
Qed.

Lemma routine_conn {A} `{!Inhabited A} (m : M A) op url :
  routine_op op → (∀ w, (m w).2 = (run_op env op w).2) → (∀ mc, op_admitted op mc) →
  routine (conn url m).
Proof. intros Hop Hm Had r. eapply run_ok_conn; eauto. Qed.

(** Events that are not timers have no timer to pop. *)
Definition is_timer (ev : FsmEvent) : bool :=
  match ev with
  | TimerBackoffElapsed | TimerStalenessElapsed | TimerUpgradeTimeout | TimerCloseTimeout
  | TimerSubscribeAckTimeout _ _ | TimerRateBudgetWindowAdvanced
  | TimerSubscribeResendDue _ _ | TimerBookReseedSnapshot _ _ | TimerTokenRefreshDue => true
  | _ => false
  end.

Lemma routine_event url ev : is_timer ev = false → routine (handle_conn_event renv url ev).
Proof.
  intros He. apply (routine_conn _ (OpEvent ev)); [done| |done].
  intros w. cbn. unfold reactor_step. by destruct ev.
Qed.

Lemma routine_token_op op : routine (auth_token_op renv op).
Proof. by apply routine_quiet. Qed.
End Steps.

Create HintDb routine.
#[export] Hint Resolve routine_ret routine_gets routine_clock routine_registry
  routine_token_op : routine.

(** Walk down a program, leaving what no rule or hint closes. *)
Ltac routine_step :=
  lazymatch goal with
  | |- routine _ _ (mbind _ _) => apply routine_bind; [|intros ?]
  | |- routine _ _ (rwhen _ _) => apply routine_when
  | |- routine _ _ (rfor_each _ _) => apply routine_for_each; intros ?
  | |- routine _ _ (rgets _) => apply routine_gets
  | |- routine _ _ (rmodify _) =>
      apply routine_quiet; intros ?; repeat (case_match; simplify_eq); split; reflexivity
  | |- routine _ _ (rlog _) => apply routine_effect; exact I
  | |- routine _ _ (handle_conn_event _ _ _) => apply routine_event; reflexivity
  | |- routine _ _ (let _ := _ in _) => cbv zeta
  | |- routine _ _ (match ?x with _ => _ end) => destruct x
  | |- routine _ _ _ => solve [eauto with routine]
  end.
Ltac routine_run := repeat routine_step.

(** ** The reactor's programs *)

Section Programs.
Context {Decimal : Type} (dcmp : Decimal → Decimal → comparison)
  (crc32 : list (string * string) → list (string * string) → N)
  (dec_from_str : string → option Decimal)
  (decode_frame : Json → option RawBookData).
Abbreviation Reactor := (@Reactor.Reactor Decimal).
Context (renv : ReactorEnv) (J : Json → Prop).
Let env := re_env renv.
Abbreviation routine := (routine (Decimal := Decimal) renv J).

Ltac conn_op op := apply (routine_conn _ _ _ op); [exact I|reflexivity|intros; exact I].

Lemma routine_record url id key : routine (conn url (record_subscribe_req_id id key)).
Proof. conn_op (OpRecordSubscribeReqId id key). Qed.
Lemma routine_arm_ack url key due : routine (conn url (arm_subscribe_ack env key due)).
Proof. conn_op (OpArmSubscribeAck key due). Qed.
Lemma routine_disarm_ack url key : routine (conn url (disarm_subscribe_ack key)).
Proof. conn_op (OpDisarmSubscribeAck key). Qed.
Lemma routine_arm_reseed url key due : routine (conn url (arm_book_reseed_snapshot key due)).
Proof. conn_op (OpArmBookReseed key due). Qed.
Lemma routine_disarm_reseed url key : routine (conn url (disarm_book_reseed_snapshot key)).
Proof. conn_op (OpDisarmBookReseed key). Qed.
Lemma routine_awaiting url v : routine (conn url (modify (set_mc_awaiting_token_refresh v))).
Proof. conn_op (OpSetAwaitingTokenRefresh v). Qed.
Lemma routine_take url : routine (next_subscribe_req_id url).
Proof. conn_op OpTakeSubscribeReqId. Qed.
Lemma routine_defer url key p : routine (conn url (defer_open_auth_subscribe key p)).
Proof. conn_op (OpDeferAuthSubscribe key p). Qed.
Lemma routine_complete url : routine (conn url (complete_resubscribe_if_empty env)).
Proof. conn_op OpCompleteResubscribe. Qed.
Lemma routine_remove_deferred url key :
  routine (conn url (remove_deferred_open_auth_subscribe key)).
Proof. conn_op (OpRemoveDeferred key). Qed.
Lemma routine_drain_deferred url : routine (conn url drain_deferred_open_auth_subscribes).
Proof. conn_op OpDrainDeferred. Qed.
Lemma routine_inbound url : routine (conn url (note_inbound_activity env)).
Proof. conn_op OpInboundActivity. Qed.
Lemma routine_resolve url id json :
  J json → response_id json = Some id →
  routine (conn url (resolve_pending_request (response_of id json))).
Proof.
  intros Hj Hid. apply (routine_conn _ _ _ (OpResolvePending (response_of id json)));
    [by exists json|done|done].
Qed.
Lemma routine_fail url id err : routine (conn url (fail_pending_request id err)).
Proof. conn_op (OpFailPending id err). Qed.
Lemma routine_retryable url id : routine (conn url (drain_one_retryable env id)).
Proof. conn_op (OpDrainOneRetryable id). Qed.
Lemma routine_arm_token url due : routine (conn url (arm_token_refresh due)).
Proof. conn_op (OpArmTokenRefresh due). Qed.
Lemma routine_disarm_token url : routine (conn url disarm_token_refresh).
Proof. conn_op OpDisarmTokenRefresh. Qed.

Hint Resolve routine_record routine_arm_ack routine_disarm_ack routine_arm_reseed
  routine_disarm_reseed routine_awaiting routine_take routine_defer routine_complete
  routine_remove_deferred routine_drain_deferred routine_inbound
  routine_fail routine_retryable routine_arm_token routine_disarm_token : routine.

Lemma routine_conn_gets {A} url (f : ManagedConnection → A) : routine (conn_gets url f).
Proof. apply routine_gets. Qed.
Lemma routine_conn_state url : routine (conn_state url).
Proof. apply routine_gets. Qed.
Hint Resolve routine_conn_gets routine_conn_state : routine.

Lemma routine_send_frame url sock frame :
  plain_frame url frame → routine (send_frame renv url sock frame).
Proof.
  intros Hf r _. apply rtc_once.
  by apply (rs_frame _ _ _ _ url sock frame (re_send renv (rx_sends r))).
Qed.

Lemma send_frame_result url sock frame (r : Reactor) :
  (send_frame renv url sock frame r).1 = re_send renv (rx_sends r) ∧
  rx_conns (send_frame renv url sock frame r).2 = rx_conns r ∧
  rx_log (send_frame renv url sock frame r).2 = rx_log r ++
    [FxFrame url sock (mc_state <$> rx_conns r !! url) frame (re_send renv (rx_sends r))].
Proof. done. Qed.

(** A full queue counts against the subscription's budget, which the connection takes
    unless it is closing. *)
Lemma routine_send_subscribe url sock frame ch pr send :
  plain_frame url frame → routine (send_subscribe_frame renv url sock frame ch pr send).
Proof.
  intros Hf r. unfold send_subscribe_frame. apply run_ok_bind; [by apply routine_send_frame|].
  intros _. destruct (send_frame_result url sock frame r) as (Hres & Hc & Hl).
  destruct (send_frame renv url sock frame r) as [res r1]; cbn in *. subst res.
  destruct (re_send renv (rx_sends r)) eqn:E; [apply routine_ret| |].
  - apply run_ok_bind; [|intros _; apply routine_ret].
    apply (run_ok_conn _ _ _ (OpSubscribeFailure (ch, pr) true None)); [done..|].
    intros mc Hmc. cbn. rewrite Hc in Hmc.
    destruct (decide (mc_state mc = Closing)) as [Hs|]; [|by left].
    right. unfold strained. rewrite Hl, last_snoc, Hmc; cbn. rewrite Hs. by eexists _, _.
  - apply run_ok_bind; [by apply routine_event|intros _; apply routine_ret].
Qed.

Lemma routine_ack_due : routine (ack_due renv).
Proof. unfold ack_due. routine_run. Qed.
Hint Resolve routine_ack_due : routine.

Lemma routine_arm_timer url ch pr id :
  routine (arm_subscribe_ack_timer_with_req_id renv url ch pr id).
Proof. unfold arm_subscribe_ack_timer_with_req_id. routine_run. Qed.
Hint Resolve routine_arm_timer : routine.

Lemma routine_send_and_arm url sock frame ch pr id send :
  plain_frame url frame → routine (send_and_arm renv url sock frame ch pr id send).
Proof.
  intros Hf. unfold send_and_arm. apply routine_bind; [by apply routine_send_subscribe|].
  intros ?. routine_run.
Qed.

Lemma routine_invalidate : routine (auth_invalidate_cached_token renv).
Proof. apply routine_token_op. Qed.
Lemma routine_force_refresh reason : routine (auth_force_refresh renv reason).
Proof. unfold auth_force_refresh. routine_run. Qed.
Lemma routine_proactive : routine (auth_proactive_refresh renv).
Proof. unfold auth_proactive_refresh. routine_run. Qed.
Lemma routine_cached : routine auth_cached_token.
Proof. apply routine_gets. Qed.
Hint Resolve routine_invalidate routine_force_refresh routine_proactive routine_cached : routine.
Lemma routine_valid_token now : routine (auth_valid_token now).
Proof. unfold auth_valid_token. routine_run. Qed.
Hint Resolve routine_valid_token : routine.

Lemma routine_write_mirror url : routine (write_mirror url).
Proof. unfold write_mirror. routine_run. Qed.
Lemma routine_remove_socket url : routine (remove_socket url).
Proof. unfold remove_socket. routine_run. Qed.
Lemma routine_wire_bridge url cid : routine (wire_upgrade_bridge url cid).
Proof. unfold wire_upgrade_bridge. routine_run. Qed.
Lemma routine_conn_socket url : routine (conn_socket url).
Proof. unfold conn_socket. routine_run. Qed.
Hint Resolve routine_write_mirror routine_remove_socket routine_wire_bridge
  routine_conn_socket : routine.
Lemma routine_project url cid : routine (project_socket_and_wire_bridge url cid).
Proof. unfold project_socket_and_wire_bridge. routine_run. Qed.
Hint Resolve routine_project : routine.

Lemma routine_publish et v t p : routine (publish et v t p).
Proof. by apply routine_effect. Qed.
Hint Resolve routine_publish : routine.

Lemma routine_store_ready url : routine (store_send_ready renv url).
Proof. unfold store_send_ready. routine_run. Qed.
Hint Resolve routine_store_ready : routine.
Lemma routine_refresh_ready url : routine (refresh_send_ready renv url).
Proof. unfold refresh_send_ready. routine_run. Qed.
Hint Resolve routine_refresh_ready : routine.

Lemma routine_kick url : routine (kick_refresh renv url).
Proof. unfold kick_refresh. routine_run. Qed.
Hint Resolve routine_kick : routine.

(** *** Frames *)

Lemma subscribe_method : subscription_method "subscribe".
Proof. by left. Qed.
Lemma unsubscribe_method : subscription_method "unsubscribe".
Proof. by right. Qed.

Lemma single_plain url ch pr p id token :
  (url = Public → token = None) → plain_frame url (single_subscribe_frame ch pr p id token).
Proof.
  intros Ht. apply composed_plain. unfold single_subscribe_frame. destruct token as [tok|].
  - apply comp_injected; [apply subscribe_method|]. destruct url; [|done]. by specialize (Ht eq_refl).
  - apply comp_built, subscribe_method.
Qed.

Lemma unsubscribe_plain url ch pr params token :
  (url = Public → token = None) → plain_frame url (compose_unsubscribe_frame ch pr params token).
Proof.
  intros Ht. unfold compose_unsubscribe_frame. destruct params as [p|].
  - apply composed_plain. destruct token as [tok|].
    + apply comp_injected; [apply unsubscribe_method|].
      destruct url; [|done]. by specialize (Ht eq_refl).
    + apply comp_built, unsubscribe_method.
  - split.
    + exists "unsubscribe"%string. split; [|apply unsubscribe_method].
      destruct pr, token; reflexivity.
    + intros Hu ps. rewrite (Ht Hu). destruct pr; intros [= <-]; reflexivity.
Qed.

Lemma composed_of_url url reg f :
  f ∈ compose_subscribe_frames_for_url (Decimal := Decimal) url reg → composed url f.2.
Proof.
  unfold compose_subscribe_frames_for_url. rewrite list_elem_of_In, in_map_iff.
  intros (e & <- & _). apply comp_built, subscribe_method.
Qed.

Lemma composed_of_url_authed token reg f :
  f ∈ compose_subscribe_frames_for_url_authed (Decimal := Decimal) Auth token reg →
  composed Auth f.2.
Proof.
  unfold compose_subscribe_frames_for_url_authed, compose_subscribe_frames_for_url.
  rewrite map_map, list_elem_of_In, in_map_iff. intros (e & <- & _).
  apply comp_injected; [apply subscribe_method|done].
Qed.

Lemma composed_remaining token key reg f :
  f ∈ compose_remaining_signed_subscribes_authed (Decimal := Decimal) Auth token key reg →
  composed Auth f.2.
Proof.
  unfold compose_remaining_signed_subscribes_authed. rewrite list_elem_of_filter.
  intros [_ Hf]. by eapply composed_of_url_authed.
Qed.

Lemma composed_first token reg f :
  compose_first_signed_subscribe_authed (Decimal := Decimal) Auth token reg = Some f →
  composed Auth f.2.
Proof.
  unfold compose_first_signed_subscribe_authed. destruct (head _) as [e|]; [|done].
  intros [= <-]. apply comp_injected; [apply subscribe_method|done].
Qed.

(** *** Subscribe sends *)

Lemma routine_resend url ch pr : routine (handle_subscribe_resend renv url ch pr).
Proof.
  unfold handle_subscribe_resend. apply routine_bind; [apply routine_gets|]. intros reg.
  destruct (params_for (ch, pr) reg) as [params|]; [|apply routine_ret].
  destruct (decide (url = Auth)) as [->|Hu].
  - apply routine_bind; [routine_run|]. intros token. destruct token as [token|]; [|routine_run].
    apply routine_bind; [apply routine_gets|]. intros [sock|]; [|apply routine_ret].
    apply routine_bind; [apply routine_take|]. intros id.
    by apply routine_send_and_arm, single_plain.
  - intros r. apply run_ok_bind; [apply routine_ret|]. intros _; cbn.
    apply routine_bind; [apply routine_gets|]. intros [sock|]; [|apply routine_ret].
    apply routine_bind; [apply routine_take|]. intros id.
    by apply routine_send_and_arm, (single_plain url ch pr params id None).
Qed.

Lemma routine_send_first : routine (send_first_signed_subscribe renv Auth).
Proof.
  unfold send_first_signed_subscribe. apply routine_bind; [apply routine_clock|]. intros now.
  apply routine_bind; [apply routine_valid_token|]. intros [token|]; [|routine_run].
  apply routine_bind; [apply routine_gets|]. intros [sock|]; [|apply routine_ret].
  apply routine_bind; [apply routine_gets|]. intros reg.
  destruct (compose_first_signed_subscribe_authed Auth token reg) as [[[ch pr] f]|] eqn:E;
    [|apply routine_refresh_ready].
  apply routine_bind; [apply routine_take|]. intros id.
  apply routine_send_and_arm, stamped_plain. by apply (composed_first _ _ _ E).
Qed.

Lemma routine_send_batch url sock send armed frames :
  (∀ ch pr id, routine (armed ch pr id)) → (∀ f, f ∈ frames → composed url f.2) →
  routine (send_batch renv url sock send armed frames).
Proof.
  intros Harm. induction frames as [|[[ch pr] f] frames IH]; intros Hf; cbn [send_batch].
  - apply routine_ret.
  - assert (IH' : routine (send_batch renv url sock send armed frames)).
    { apply IH. intros g Hg. apply Hf. by apply list_elem_of_further. }
    apply routine_bind; [apply routine_take|]. intros id.
    apply routine_bind.
    { apply routine_send_subscribe, stamped_plain, (Hf (ch, pr, f)), list_elem_of_here. }
    intros [| |]; [by apply routine_bind|routine_run|apply routine_ret].
Qed.

Lemma routine_send_remaining key : routine (send_remaining_signed_subscribes renv Auth key).
Proof.
  unfold send_remaining_signed_subscribes. apply routine_bind; [apply routine_clock|].
  intros now. apply routine_bind; [apply routine_valid_token|]. intros token.
  apply routine_bind; [apply routine_gets|]. intros reg. destruct token as [token|]; [|routine_run].
  apply routine_bind; [apply routine_gets|]. intros [sock|]; [|apply routine_ret].
  apply routine_send_batch; [intros; apply routine_arm_timer|].
  destruct key; [apply composed_remaining|apply composed_of_url_authed].
Qed.

Lemma routine_single url ch pr p : routine (send_single_subscribe renv url ch pr p).
Proof.
  unfold send_single_subscribe. apply routine_bind; [apply routine_gets|].
  intros [sock|]; [|apply routine_ret]. apply routine_bind; [apply routine_take|]. intros id.
  by apply routine_send_and_arm, single_plain.
Qed.

Lemma routine_single_signed ch pr p :
  routine (send_single_signed_subscribe renv Auth ch pr p).
Proof.
  unfold send_single_signed_subscribe. apply routine_bind; [apply routine_clock|]. intros now.
  apply routine_bind; [apply routine_valid_token|]. intros [token|]; [|routine_run].
  apply routine_bind; [apply routine_gets|]. intros [sock|]; [|apply routine_ret].
  apply routine_bind; [apply routine_take|]. intros id.
  by apply routine_send_and_arm, single_plain.
Qed.
Hint Resolve routine_resend routine_send_first routine_send_remaining routine_single
  routine_single_signed : routine.

Lemma routine_modify_registry op : routine (modify_registry (Decimal := Decimal) op).
Proof. unfold modify_registry. routine_run. Qed.
Lemma routine_fresh_id : routine fresh_request_id.
Proof. unfold fresh_request_id. routine_run. Qed.
Hint Resolve routine_modify_registry routine_fresh_id : routine.

Lemma routine_register_one url e ref : routine (register_one_and_emit renv url e ref).
Proof. unfold register_one_and_emit. destruct url; routine_run. Qed.
Hint Resolve routine_register_one : routine.

Lemma routine_unsubscribe ch pr params :
  routine (unsubscribe_and_terminate renv ch pr params).
Proof.
  unfold unsubscribe_and_terminate. destruct (decide (channel_ws_url ch = Auth)) as [Hu|Hu].
  - apply routine_bind; [routine_run|]. intros cached. apply routine_bind; [apply routine_gets|].
    intros [sock|]; [|routine_run]. apply routine_bind; [|intros; routine_run].
    apply routine_bind; [|intros; apply routine_ret].
    apply routine_send_frame, unsubscribe_plain. congruence.
  - intros r. apply run_ok_bind; [apply routine_ret|]. intros _. cbn.
    apply routine_bind; [apply routine_gets|].
    intros [sock|]; [|routine_run]. apply routine_bind; [|intros; routine_run].
    apply routine_bind; [|intros; apply routine_ret].
    by apply routine_send_frame, (unsubscribe_plain _ ch pr params None).
Qed.
Lemma routine_single_unsubscribe url ch pr params :
  routine (send_single_unsubscribe renv url ch pr params).
Proof.
  unfold send_single_unsubscribe. apply routine_bind; [apply routine_gets|].
  intros [sock|]; [|apply routine_ret]. apply routine_bind; [|intros; apply routine_ret].
  by apply routine_send_frame, unsubscribe_plain.
Qed.
Hint Resolve routine_unsubscribe routine_single_unsubscribe : routine.

(** *** Frames *)

Lemma routine_warn site ch : routine (suppress_warn_throttled renv site ch).
Proof. unfold suppress_warn_throttled. routine_run. Qed.
Hint Resolve routine_warn : routine.
Lemma routine_drop ch : routine (record_drop_and_maybe_emit renv ch).
Proof. unfold record_drop_and_maybe_emit, emit_message_dropped. routine_run. Qed.
Hint Resolve routine_drop : routine.

Lemma routine_run_ok {A} (m : @Reactor.RM Decimal A) r : routine m → run_ok renv J m r.
Proof. intros Hm. apply Hm. Qed.

(** A state the public connection is never in: the program need only be routine on the
    authenticated endpoint. *)
Lemma run_ok_authenticating {A} url (m : @Reactor.RM Decimal A) r mc :
  rx_conns r !! url = Some mc → mc_state mc = Authenticating →
  (url = Auth → run_ok renv J m r) → run_ok renv J m r.
Proof.
  intros Hc Hs Hm Hp. destruct url; [|by apply Hm].
  by destruct (Hp mc Hc).
Qed.

Lemma routine_probe id ack : routine (drive_auth_probe renv Auth id ack).
Proof. unfold drive_auth_probe. routine_run. Qed.
Lemma routine_stale url id : routine (recover_stale_token renv url id).
Proof. unfold recover_stale_token. routine_run. Qed.
Lemma routine_resolve_if url id json :
  J json → response_id json = Some id → routine (resolve_if_pending url (response_of id json)).
Proof.
  intros Hj Hid. unfold resolve_if_pending. apply routine_bind; [apply routine_gets|].
  intros pending. by apply routine_when, routine_resolve.
Qed.
Hint Resolve routine_probe routine_stale : routine.

Lemma routine_response url json : J json → routine (handle_request_response renv url json).
Proof.
  intros Hj. unfold handle_request_response. destruct (decide (url = Auth)) as [->|Hu].
  - do 2 (apply routine_if; [apply routine_ret|]).
    destruct (json_get "req_id" json ≫= json_as_u64) as [id|] eqn:Hid; [|routine_run].
    apply routine_bind; [routine_run|]. intros _.
    apply routine_bind; [apply routine_gets|]. intros [m|]; [|apply routine_ret].
    do 2 (apply routine_bind; [routine_run|]; intros ?).
    apply routine_bind; [routine_run|]. intros _.
    apply routine_bind; [by apply routine_resolve_if|intros; apply routine_ret].
  - rewrite bool_decide_false by done. apply routine_ret.
Qed.

Lemma routine_failed_event url attempt kind msg :
  routine (emit_auth_handshake_failed renv url attempt kind msg).
Proof. unfold emit_auth_handshake_failed. routine_run. Qed.
Hint Resolve routine_failed_event : routine.
Lemma routine_handshake key success json : routine (handshake_ack renv Auth key success json).
Proof. unfold handshake_ack. routine_run. Qed.
Lemma routine_unexpected url key success : routine (unexpected_ack renv url key success).
Proof. unfold unexpected_ack. routine_run. Qed.
Lemma routine_rejected url key msg : routine (rejected_ack renv url key msg).
Proof. unfold rejected_ack. routine_run. Qed.
Hint Resolve routine_response routine_handshake routine_unexpected routine_rejected : routine.

Lemma routine_sub_ack url json : routine (handle_sub_ack renv url json).
Proof.
  unfold handle_sub_ack. destruct (get_str "method" json) as [m|]; [|apply routine_ret].
  do 2 (apply routine_if; [apply routine_ret|]). cbv zeta.
  apply routine_bind; [routine_run|]. intros _ r. apply run_ok_gets.
  destruct (rx_conns r !! url) as [mc|] eqn:Hc; [|apply routine_ret]. cbn.
  destruct (ack_key json mc) as [key|]; [|apply routine_ret].
  destruct (decide (mc_state mc = Authenticating)) as [Hs|].
  - apply (run_ok_authenticating url _ r mc); [done..|]. intros ->.
    apply routine_bind; [apply routine_handshake|intros; apply routine_ret].
  - apply routine_run_ok. routine_run.
Qed.
Hint Resolve routine_sub_ack : routine.

Lemma routine_gap_events sym : routine (emit_book_gap_events renv sym).
Proof. unfold emit_book_gap_events. routine_run. Qed.
Lemma routine_channel_gap ch n : routine (emit_channel_gap_event renv ch n).
Proof. unfold emit_channel_gap_event. routine_run. Qed.
Lemma routine_deliver ch payload hs : routine (deliver_to ch payload hs).
Proof. unfold deliver_to. routine_run. Qed.
Hint Resolve routine_gap_events routine_channel_gap routine_deliver : routine.

Lemma routine_fan_out ch fan ty data sym outcome :
  routine (fan_out renv ch fan ty data sym outcome).
Proof. unfold fan_out. routine_run. Qed.
Lemma routine_note_gap sym outcome : routine (note_book_gap renv sym outcome).
Proof. unfold note_book_gap. routine_run. Qed.
Hint Resolve routine_fan_out routine_note_gap : routine.

Lemma routine_route_entry ch ty data :
  routine (route_entry dcmp crc32 dec_from_str decode_frame renv ch ty data).
Proof. unfold route_entry. routine_run. Qed.
Lemma routine_route_entries ch ty data :
  routine (route_entries dcmp crc32 dec_from_str decode_frame renv ch ty data).
Proof.
  induction data as [|d data IH]; cbn [route_entries]; [apply routine_ret|].
  apply routine_bind; [apply routine_route_entry|]. intros gaps. routine_run.
Qed.
Lemma routine_note_sequence ch ty json : routine (note_frame_sequence renv ch ty json).
Proof. unfold note_frame_sequence. routine_run. Qed.
Hint Resolve routine_route_entries routine_note_sequence : routine.
Lemma routine_route_frame json :
  routine (route_text_frame dcmp crc32 dec_from_str decode_frame renv json).
Proof. unfold route_text_frame. routine_run. Qed.

Lemma routine_reseed url sym params : routine (send_book_reseed renv url sym params).
Proof. unfold send_book_reseed. routine_run. Qed.
Hint Resolve routine_route_frame routine_reseed : routine.
Lemma routine_recover url sym : routine (recover_book_gap renv url sym).
Proof. unfold recover_book_gap. routine_run. Qed.
Lemma routine_reseed_timeout url pr : routine (handle_book_reseed_timeout renv url pr).
Proof. unfold handle_book_reseed_timeout. routine_run. Qed.
Hint Resolve routine_recover routine_reseed_timeout : routine.

Lemma routine_wire_close url ev : is_timer ev = false → routine (drive_wire_close renv url ev).
Proof.
  intros He. unfold drive_wire_close. apply routine_bind; [apply routine_gets|]. intros dead.
  apply routine_bind; [apply routine_remove_socket|]. intros _.
  apply routine_bind; [apply routine_gets|]. intros m. apply routine_when.
  apply routine_bind; [by apply routine_event|]. intros _. routine_run.
Qed.

Lemma routine_frame url res :
  (∀ json, res = TextFrame (Some json) → J json) →
  routine (handle_frame dcmp crc32 dec_from_str decode_frame renv url res).
Proof.
  intros Hj. unfold handle_frame. destruct res as [[json|]| |kind tr]; [|routine_run..|].
  - apply routine_bind; [routine_run|]. intros _.
    apply routine_bind; [by apply routine_response, Hj|]. intros r.
    apply routine_if; [apply routine_ret|]. routine_run.
  - destruct kind; by apply routine_wire_close.
Qed.

(** *** Callers *)

Lemma routine_teardown key params tomb : routine (teardown_released_key renv key params tomb).
Proof. unfold teardown_released_key. routine_run. Qed.
Lemma routine_complete_mirror url : routine (complete_and_mirror renv url).
Proof. unfold complete_and_mirror. routine_run. Qed.
Hint Resolve routine_teardown routine_complete_mirror : routine.
Lemma routine_deregister_one ch pr : routine (deregister_one renv ch pr).
Proof. unfold deregister_one. routine_run. Qed.
Lemma routine_deregister_all ch : routine (deregister_everything renv ch).
Proof. unfold deregister_everything. routine_run. Qed.
Lemma routine_deregister_handler ch id : routine (registry_deregister_handler ch id).
Proof.
  unfold registry_deregister_handler. apply routine_quiet. intros r.
  by destruct (deregister_handler _ _ _ _).
Qed.
Hint Resolve routine_deregister_one routine_deregister_all routine_deregister_handler : routine.
Lemma routine_drop_target h ch sym : routine (drop_guard_target renv h ch sym).
Proof. unfold drop_guard_target. routine_run. Qed.
Lemma routine_drop_targets h ch l : routine (drop_guard_targets renv h ch l).
Proof.
  induction l as [|sym l IH]; cbn [drop_guard_targets]; [apply routine_ret|].
  apply routine_bind; [apply routine_drop_target|]. intros torn. routine_run.
Qed.
Hint Resolve routine_drop_targets : routine.
Lemma routine_guard_drop h ch l : routine (handle_guard_drop renv h ch l).
Proof. unfold handle_guard_drop. routine_run. Qed.
Lemma routine_fsm_event url e : routine (handle_fsm_event renv url (caller_fsm_event e)).
Proof. unfold handle_fsm_event. destruct e; routine_run. Qed.
Lemma routine_register_batch url es ref : routine (register_batch renv url es ref).
Proof. unfold register_batch. routine_run. Qed.
Hint Resolve routine_guard_drop routine_fsm_event routine_register_batch : routine.

Definition is_request (msg : @CallerInbound Decimal) : bool :=
  match msg with InWsRequestFrame _ _ _ _ => true | _ => false end.

Lemma routine_inbound_msg msg : is_request msg = false → routine (handle_inbound renv msg).
Proof.
  intros Hm. destruct msg as [url e|id t|url mut|ch op|h ch syms|id me op ps|id]; try done;
    cbn [handle_inbound]; routine_run.
Qed.
Hint Resolve routine_inbound_msg : routine.

(** *** The arms *)

Lemma routine_hint : routine (refresh_auth_send_ready_hint renv).
Proof. unfold refresh_auth_send_ready_hint. routine_run. Qed.
Hint Resolve routine_hint : routine.
Lemma routine_sync : routine (sync_liveness renv).
Proof. unfold sync_liveness. routine_run. Qed.

Lemma routine_inbound_arm msg : is_request msg = false → routine (inbound_arm renv msg).
Proof.
  intros Hm. destruct msg; try by apply routine_inbound_msg. cbn [inbound_arm]. routine_run.
Qed.

Lemma routine_arm_replayed url ch pr id : routine (arm_replayed renv url ch pr id).
Proof. unfold arm_replayed. routine_run. Qed.

Lemma routine_replay url : routine (replay_subscriptions renv url).
Proof.
  unfold replay_subscriptions. apply routine_bind; [apply routine_gets|]. intros reg.
  apply routine_bind; [apply routine_gets|]. intros socket.
  apply routine_bind; [|intros _; routine_run].
  destruct socket as [sock|]; [|apply routine_ret].
  apply routine_send_batch; [intros; apply routine_arm_replayed|apply composed_of_url].
Qed.
Hint Resolve routine_replay : routine.

(** What depends on a state that only the authenticated connection has. *)
Lemma run_ok_when_authenticating url (m : @Reactor.RM Decimal ()) r :
  (url = Auth → routine m) →
  run_ok renv J (state ← conn_state url; rwhen (bool_decide (state = Some Authenticating)) m) r.
Proof.
  intros Hm. apply run_ok_gets. destruct (rx_conns r !! url) as [mc|] eqn:Hc; [|apply routine_ret].
  cbn. destruct (decide (mc_state mc = Authenticating)) as [Hs|Hs].
  - rewrite Hs. apply (run_ok_authenticating url _ r mc); [done..|].
    intros Hu. by apply routine_run_ok, Hm.
  - rewrite bool_decide_false by congruence. apply routine_ret.
Qed.

Lemma routine_upgrade outcome : routine (upgrade_arm renv outcome).
Proof.
  destruct outcome as [url cid|url kind tr]; unfold upgrade_arm.
  - apply routine_bind; [apply routine_gets|]. intros live.
    apply routine_bind; [apply routine_gets|]. intros m. apply routine_when.
    do 2 (apply routine_bind; [routine_run|]; intros _).
    apply routine_bind; [apply routine_gets|]. intros m'.
    apply routine_bind; [routine_run|]. intros _ r.
    apply run_ok_when_authenticating. intros ->. routine_run.
  - apply routine_bind; [apply routine_gets|]. intros m. apply routine_when.
    apply routine_bind; [apply routine_event; by destruct kind|]. intros _. routine_run.
Qed.

Lemma routine_reissue deferred : routine (reissue_deferred renv Auth deferred).
Proof.
  induction deferred as [|[key params] rest IH]; cbn [reissue_deferred]; [apply routine_ret|].
  apply routine_bind; [apply routine_gets|]. intros reg.
  apply routine_bind; [apply routine_gets|]. intros armed. apply routine_if; [done|].
  apply routine_bind; [apply routine_single_signed|]. intros _. routine_run.
Qed.
Hint Resolve routine_reissue : routine.

Lemma routine_rearm url : routine (rearm_token_refresh url).
Proof. unfold rearm_token_refresh. routine_run. Qed.
Hint Resolve routine_rearm : routine.

Lemma routine_refresh o : routine (refresh_arm renv o).
Proof.
  unfold refresh_arm. apply routine_bind; [apply routine_gets|]. intros m. apply routine_when.
  apply routine_bind; [apply routine_gets|]. intros state.
  apply routine_bind; [|intros _; routine_run]. apply routine_when.
  apply routine_bind; [|intros _; routine_run].
  apply routine_event. unfold refresh_event_of. by destruct (outcome_result o).
Qed.

(** A silent program followed by another runs as their sequence. *)
Lemma conn_seq {A B} `{!Inhabited A, !Inhabited B} (m1 : M A) (m2 : M B) url (r : Reactor) :
  (∀ w, w_effects (m1 w).2 = w_effects w) →
  (conn url m2 (conn url m1 r).2).2 = (conn url (m1;; m2) r).2.
Proof.
  intros Hm. unfold conn. destruct (rx_conns r !! url) as [mc|] eqn:Hc; [|by cbn; rewrite Hc].
  set (w := mkWorld mc _ _ _ _ _). specialize (Hm w). unfold mbind, M_bind.
  destruct (m1 w) as [a [mc1 b1 c1 j1 s1 e1]] eqn:E1. cbn in Hm. subst e1. cbn.
  rewrite lookup_insert_eq. set (w1 := mkWorld mc1 b1 c1 j1 s1 []).
  destruct (m2 w1) as [b w2]. unfold set_conn; cbn.
  by rewrite insert_insert_eq, app_nil_r.
Qed.

Lemma pop_silent ev w : w_effects (pop_timer_for_event ev w).2 = w_effects w.
Proof. by destruct ev. Qed.

Lemma pop_socket ev w : mc_socket (w_mc (pop_timer_for_event ev w).2) = mc_socket (w_mc w).
Proof. by destruct ev. Qed.

(** The timers the reactor serves itself are no events of the connection. *)
Definition reactor_timer (ev : FsmEvent) : bool :=
  match ev with
  | TimerSubscribeResendDue _ _ | TimerBookReseedSnapshot _ _ | TimerTokenRefreshDue => true
  | _ => false
  end.

Lemma routine_pop url ev :
  reactor_timer ev = true → routine (conn url (pop_timer_for_event ev)).
Proof.
  intros He. apply (routine_conn _ _ _ (OpEvent ev)); [done| |done].
  intros w. cbn. unfold reactor_step, mbind, M_bind. destruct ev; try done;
    cbn; unfold handle_event, gets, mbind, M_bind; cbn; by destruct (mc_state (w_mc w)).
Qed.

(** Popping a connection's timer, noting its socket and handling the event is one event. *)
Lemma run_ok_popped {A} url ev (k : option N → @Reactor.RM Decimal A) r :
  (∀ s, routine (k s)) →
  run_ok renv J (conn url (pop_timer_for_event ev);;
               prev ← conn_socket url;
               handle_conn_event renv url ev;; k prev) r.
Proof.
  intros Hk Hp.
  assert (Hseq := conn_seq (pop_timer_for_event ev) (handle_event env ev) url r (pop_silent ev)).
  assert (Hstep : rtc (rstep renv J) r
            (conn url (handle_event env ev) (conn url (pop_timer_for_event ev) r).2).2).
  { rewrite Hseq. apply (routine_conn _ _ (reactor_step env ev) (OpEvent ev)); done. }
  unfold conn_socket, conn_gets, rgets, mret, RM_ret, mbind, RM_bind, handle_conn_event, env in *.
  destruct (conn url (pop_timer_for_event ev) r) as [u1 r1]; cbn in *.
  destruct (conn url (handle_event (re_env renv) ev) r1) as [u2 r2]; cbn in *.
  etrans; [exact Hstep|]. apply Hk. by eapply rsteps_public.
Qed.

Lemma routine_mirror_project url : routine (mirror_and_project url).
Proof. unfold mirror_and_project. routine_run. Qed.
Hint Resolve routine_mirror_project : routine.

Lemma routine_timer url ev : routine (timer_arm renv url ev).
Proof.
  unfold timer_arm. destruct (reactor_timer ev) eqn:He.
  - apply routine_bind; [by apply routine_pop|]. intros _. destruct ev; try done; routine_run.
  - intros r. destruct ev; try done;
      apply (run_ok_popped url _ (λ prev, write_mirror url;;
               project_socket_and_wire_bridge url prev;; mret true)); intros; routine_run.
Qed.
Hint Resolve routine_timer routine_refresh routine_upgrade routine_inbound_arm routine_sync : routine.

Lemma routine_check_close : routine (check_client_close renv).
Proof. unfold check_client_close. routine_run. Qed.
Hint Resolve routine_check_close : routine.

Lemma routine_next_outcome : routine (@next_outcome Decimal).
Proof.
  intros r _. unfold next_outcome. destruct (outcomes (rx_tokens r)); [apply rtc_refl|].
  apply rtc_once. by apply rs_quiet.
Qed.
Hint Resolve routine_next_outcome : routine.

Definition is_request_turn (t : @Turn Decimal) : bool :=
  match t with TurnInbound msg => is_request msg | _ => false end.

(** Every turn but the sending of a request is made of primitive steps. *)
Lemma routine_turn t :
  is_request_turn t = false →
  (∀ url json, t = TurnFrame url (TextFrame (Some json)) → J json) →
  routine (reactor_turn dcmp crc32 dec_from_str decode_frame renv t).
Proof.
  intros Ht Hj. unfold reactor_turn, select_arm.
  apply routine_bind; [apply routine_gets|]. intros running. apply routine_when.
  apply routine_bind; [destruct t; routine_run|]. intros _.
  apply routine_bind; [|intros reached; routine_run].
  destruct t as [msg| |o| |url res| |op]; cbn in Ht;
    [| | | | |routine_run..]; [|routine_run..|].
  - apply routine_bind; [by apply routine_inbound_arm|]. intros _. routine_run.
  - apply routine_bind; [apply routine_gets|]. intros [sock|]; [|apply routine_ret].
    apply routine_bind; [|intros; apply routine_ret].
    apply routine_frame. intros json ->. by eapply Hj.
Qed.
End Programs.
