(* ===== verification/ReactorRuns.v ===== *)
(** * ReactorRuns: the reactor's turns as runs of steps

    A turn that serves a request refuses it or records it and offers its frame; everything
    else is made of the primitive steps of [ReactorInv].  A run of turns is therefore a run
    of labelled steps ([xstep]), the labels being the requests served, and what every
    labelled step keeps holds after any turns. *)

From Stdlib Require Import Ascii String.
From stdpp Require Import relations.
From S2P Require Import Prelude F64 Types Events Errors Knobs RateBudget Rest Book Connection ConnectionWp ConnectionInv TokenLifecycle EventBus Registry Replay Handlers Reactor FrameRouting ReactorLoop ReactorInv.
Local Open Scope N_scope.

Section Runs.
Context {Decimal : Type} (dcmp : Decimal → Decimal → comparison)
  (crc32 : list (string * string) → list (string * string) → N)
  (dec_from_str : string → option Decimal)
  (decode_frame : Json → option RawBookData).
Abbreviation RM := (@Reactor.RM Decimal).
Abbreviation Reactor := (@Reactor.Reactor Decimal).
Abbreviation Turn := (@ReactorLoop.Turn Decimal).
Context (renv : ReactorEnv).
Let env := re_env renv.
Abbreviation turn := (reactor_turn dcmp crc32 dec_from_str decode_frame renv).

(** The requests a turn serves, and a run of turns while the reactor runs. *)
Definition turn_requests (t : Turn) : list N :=
  match t with TurnInbound (InWsRequestFrame id _ _ _) => [id] | _ => [] end.

Fixpoint served (ts : list Turn) (r : Reactor) : list N :=
  match ts with
  | [] => []
  | t :: ts => (if rx_running r then turn_requests t else []) ++ served ts (turn t r).2
  end.

Section Steps.
Context (J : Json → Prop).

(** ** Labelled steps *)

(** What follows the recording of a request: its frame, if the endpoint has a socket. *)
Definition offered (url : WsUrl) (state : option ConnectionState) (id : N)
  (e : list (@ReactorEffect Decimal)) : Prop :=
  e = [] ∨ ∃ sock method params token result,
    e = [FxFrame url sock state (request_frame method params token id) result].

Inductive xstep (r : Reactor) : list N → Reactor → Prop :=
  | xs_routine r' : rstep renv J r r' → xstep r [] r'
  | xs_refuse r' id err :
      rx_conns r' = rx_conns r → rx_log r' = rx_log r ++ [FxReject id err] → xstep r [id] r'
  | xs_record r' mc p w e :
      rx_conns r !! Auth = Some mc → w_mc w = mc → w_effects w = [] →
      op_admitted (OpRecordPending p) mc →
      let r1 := set_conn Auth (run_op env (OpRecordPending p) w).2 r in
      rx_conns r' = rx_conns r1 →
      offered Auth (mc_state <$> rx_conns r1 !! Auth) (pr_req_id p) e →
      rx_log r' = rx_log r1 ++ e →
      xstep r [pr_req_id p] r'.

Inductive xrun : list N → Reactor → Reactor → Prop :=
  | xr_done r : xrun [] r r
  | xr_step ids ids' r r' r'' : xstep r ids r' → xrun ids' r' r'' → xrun (ids ++ ids') r r''.

Lemma xrun_trans ids ids' r r' r'' :
  xrun ids r r' → xrun ids' r' r'' → xrun (ids ++ ids') r r''.
Proof.
  induction 1 as [r|ids ids1 r r1 r2 Hs _ IH]; [done|]. intros Hr.
  rewrite <-app_assoc. econstructor; eauto.
Qed.

Lemma xrun_once ids r r' : xstep r ids r' → xrun ids r r'.
Proof. intros Hs. rewrite <-(app_nil_r ids). econstructor; [exact Hs|constructor]. Qed.

Lemma xrun_routine r r' : rtc (rstep renv J) r r' → xrun [] r r'.
Proof. induction 1 as [r|r r1 r2 Hs _ IH]; [constructor|]. by eapply (xr_step [] []); [constructor|]. Qed.

(** What every step keeps, a run keeps. *)
Lemma xrun_inv (I : list N → Reactor → Prop) :
  (∀ seen ids r r', I seen r → xstep r ids r' → I (seen ++ ids) r') →
  ∀ ids r r', xrun ids r r' → ∀ seen, I seen r → I (seen ++ ids) r'.
Proof.
  intros Hstep ids r r'. induction 1 as [r|ids ids' r r1 r2 Hs _ IH]; intros seen HI.
  - by rewrite app_nil_r.
  - rewrite app_assoc. eauto.
Qed.

Lemma xstep_public ids r r' : xstep r ids r' → public_ok r → public_ok r'.
Proof.
  destruct 1 as [r' Hs|r' id err Hc _|r' mc p w e Hc Hw He Had r1 Hc' _ _].
  - by eapply rsteps_public, rtc_once.
  - unfold public_ok. by rewrite Hc.
  - unfold public_ok. rewrite Hc'. intros Hp mc'. cbn. rewrite lookup_insert_ne by done. apply Hp.
Qed.

Lemma xrun_public ids r r' : xrun ids r r' → public_ok r → public_ok r'.
Proof. induction 1; eauto using xstep_public. Qed.

(** ** The programs of a request *)

Definition serves {A} (ids : list N) (m : RM A) (r : Reactor) : Prop :=
  public_ok r → xrun ids r (m r).2.

Lemma serves_routine {A} (m : RM A) r : routine renv J m → serves [] m r.
Proof. intros Hm Hp. by apply xrun_routine, Hm. Qed.

Lemma serves_bind {A B} (m : RM A) (k : A → RM B) ids ids' r :
  serves ids m r → serves ids' (k (m r).1) (m r).2 → serves (ids ++ ids') (mbind k m) r.
Proof.
  intros Hm Hk Hp. unfold mbind, RM_bind. specialize (Hm Hp).
  destruct (m r) as [a r1]; cbn in *. eapply xrun_trans; [exact Hm|]. apply Hk.
  by eapply xrun_public.
Qed.

(** After a routine program, and before one. *)
Lemma serves_after {A B} (m : RM A) (k : A → RM B) ids r :
  routine renv J m → (∀ a r, serves ids (k a) r) → serves ids (mbind k m) r.
Proof. intros Hm Hk. apply (serves_bind m k [] ids); [by apply serves_routine|apply Hk]. Qed.

Lemma serves_before {A B} (m : RM A) (k : A → RM B) ids r :
  serves ids m r → (∀ a, routine renv J (k a)) → serves ids (mbind k m) r.
Proof.
  intros Hm Hk. rewrite <-(app_nil_r ids). apply serves_bind; [exact Hm|].
  apply serves_routine, Hk.
Qed.

Lemma serves_gets {A B} (f : Reactor → A) (k : A → RM B) ids r :
  serves ids (k (f r)) r → serves ids (mbind k (rgets f)) r.
Proof. done. Qed.

Lemma serves_refusal id err r : serves [id] (rlog (FxReject id err)) r.
Proof. intros _. by apply xrun_once, (xs_refuse _ _ id err). Qed.

(** Recording a request and offering its frame, which is one step. *)
Lemma serves_send {A} method params token p (k : option SendResult → RM A) r mc :
  rx_conns r !! Auth = Some mc → op_admitted (OpRecordPending p) mc →
  (∀ res, routine renv J (k res)) →
  serves [pr_req_id p]
    (conn Auth (record_pending_request p);;
     socket ← rgets (λ r, rx_sockets r !! Auth);
     result ←
       (match socket with
        | Some sock =>
            result ←
              send_frame renv Auth sock (request_frame method params token (pr_req_id p));
            mret (Some result)
        | None => mret None
        end);
     k result) r.
Proof.
  intros Hc Had Hk. set (w := mkWorld mc (rx_budget r) (rx_clock_reads r) (rx_jitter_draws r)
                                (rx_next_socket r) []).
  set (r1 := set_conn Auth (run_op env (OpRecordPending p) w).2 r).
  assert (Hr : conn Auth (record_pending_request p) r = (tt, r1)).
  { unfold conn. rewrite Hc. unfold r1. cbn [run_op]. fold w.
    by destruct (record_pending_request p w) as [[] w']. }
  assert (Hx : ∀ r' e, rx_conns r' = rx_conns r1 →
            offered Auth (mc_state <$> rx_conns r1 !! Auth) (pr_req_id p) e →
            rx_log r' = rx_log r1 ++ e → xrun [pr_req_id p] r r').
  { intros r' e Hc' He Hl. apply xrun_once. apply (xs_record r r' mc p w e Hc eq_refl eq_refl Had Hc' He Hl). }
  assert (Hfin : ∀ res r' e, rx_conns r' = rx_conns r1 →
            offered Auth (mc_state <$> rx_conns r1 !! Auth) (pr_req_id p) e →
            rx_log r' = rx_log r1 ++ e → public_ok r → xrun [pr_req_id p] r (k res r').2).
  { intros res r' e Hc' He Hl Hp. specialize (Hx r' e Hc' He Hl).
    rewrite <-(app_nil_r [pr_req_id p]). eapply xrun_trans; [exact Hx|].
    apply xrun_routine, Hk. by eapply xrun_public. }
  intros Hp. unfold mbind at 1, RM_bind at 1. rewrite Hr.
  unfold mbind at 1, RM_bind at 1, rgets at 1.
  destruct (rx_sockets r1 !! Auth) as [sock|].
  - eapply Hfin; [..|exact Hp]; [reflexivity|right; by eexists _, _, _, _, _|reflexivity].
  - eapply (Hfin _ _ []); [..|exact Hp]; [done|by left|by rewrite app_nil_r].
Qed.

Lemma serves_request id method op params r :
  serves [id] (handle_ws_request_frame renv id method op params) r.
Proof.
  unfold handle_ws_request_frame. apply serves_gets.
  destruct (rx_conns r !! Auth) as [mc|] eqn:Hc; cbn; [|apply serves_refusal].
  apply serves_gets. destruct (request_admitted (mc_state mc) op (rx_registry r)) eqn:Had;
    cbn [negb]; [|apply serves_refusal].
  apply (serves_bind (rclock renv) _ [] [id]); [apply serves_routine, routine_clock|].
  cbn. apply (serves_bind (auth_valid_token _) _ [] [id]).
  { apply serves_routine, routine_valid_token. }
  destruct (auth_valid_token _ _) as [[token|] r'] eqn:E; cbn.
  - assert (rx_conns r' = rx_conns r) as Hr by (unfold auth_valid_token, auth_cached_token, rgets, mbind, RM_bind, mret, RM_ret in E; by simplify_eq/=).
    apply (serves_send method params token (mkPending id op (env_clock (re_env renv) (rx_clock_reads r)))
             (λ result, match result with Some SendAccepted => mret tt
                        | _ => conn Auth (fail_pending_request id NotOpen) end) _ mc).
    + by rewrite Hr.
    + cbn. unfold request_admitted in Had. destruct (mc_state mc); auto; done.
    + intros [[]|]; first [apply routine_ret | apply routine_fail].
  - apply serves_after; [apply routine_invalidate|]. intros _ ?.
    apply serves_after; [apply routine_awaiting|]. intros _ ?.
    apply serves_after; [apply routine_force_refresh|]. intros _ ?. apply serves_refusal.
Qed.

(** ** Turns *)

Lemma serves_turn t r :
  (∀ url json, t = TurnFrame url (TextFrame (Some json)) → J json) →
  serves (if rx_running r then turn_requests t else []) (turn t) r.
Proof.
  intros Hj. destruct (is_request_turn t) eqn:Ht.
  - destruct t as [[]| | | | | |]; try done. unfold reactor_turn. apply serves_gets.
    destruct (rx_running r); [|apply serves_routine, routine_ret]. cbn [rwhen turn_requests].
    apply serves_after; [apply routine_sync|]. intros _ r1. cbn [select_arm inbound_arm handle_inbound].
    apply serves_before; [apply serves_before; [apply serves_request|intros; apply routine_ret]|].
    intros reached. apply routine_when, routine_check_close.
  - replace (if rx_running r then turn_requests t else []) with (@nil N).
    + apply serves_routine. by apply routine_turn.
    + by destruct (rx_running r), t as [[]| | | | | |].
Qed.

Lemma served_run ts r :
  (∀ url json, TurnFrame url (TextFrame (Some json)) ∈ ts → J json) →
  public_ok r →
  xrun (served ts r) r (run_turns dcmp crc32 dec_from_str decode_frame renv ts r).2.
Proof.
  revert r. induction ts as [|t ts IH]; intros r Hj Hp; cbn [served]; [constructor|].
  assert (Ht : xrun (if rx_running r then turn_requests t else []) r (turn t r).2).
  { apply serves_turn; [|done]. intros url json ->. eapply Hj, list_elem_of_here. }
  unfold run_turns. cbn [rfor_each]. unfold mbind, RM_bind.
  destruct (turn t r) as [u r1] eqn:E; cbn in *. eapply xrun_trans; [exact Ht|].
  apply IH; [|by eapply xrun_public]. intros url json Hin. eapply Hj, list_elem_of_further, Hin.
Qed.
End Steps.
End Runs.
