(* ===== verification/ReactorProps.v ===== *)
(** * ReactorProps: what the reactor promises its callers

    Invariants of labelled steps, hence facts about any sequence of turns: the connections
    stay within the state machine of [ConnectionInv], requests are answered once, orders go
    out at most once and never after a refusal, answers are what the exchange said, and no
    token leaves on the public endpoint. *)

From Stdlib Require Import Ascii String.
From stdpp Require Import relations pretty.
From S2P Require Import Prelude F64 Types Events Errors Knobs RateBudget Rest Book Connection ConnectionWp ConnectionInv ConnectionTrace ConnectionProps TokenLifecycle EventBus Registry Replay Handlers Reactor FrameRouting ReactorLoop ReactorInv ReactorRuns.
Local Open Scope N_scope.

(** ** What a log says *)

Definition wire_id (id : N) : Json := JNumber (decimal id).

#[export] Instance wire_id_inj : Inj (=) (=) wire_id.
Proof. intros a b [= H]. by apply (inj pretty). Qed.

Section Log.
Context {Decimal : Type}.
Abbreviation ReactorEffect := (@Reactor.ReactorEffect Decimal).
Abbreviation Reactor := (@Reactor.Reactor Decimal).

(** The request a refusal, or an answer through a connection, is about. *)
Definition answered_by (e : ReactorEffect) : option N :=
  match e with
  | FxReject id _ => Some id
  | FxConn _ e => resolved_id e
  | _ => None
  end.

Definition answered (log : list ReactorEffect) : list N := omap answered_by log.

Definition refused (log : list ReactorEffect) : list N :=
  omap (λ e, match e with FxReject id _ => Some id | _ => None end) log.

(** Requests recorded with a connection and not answered yet. *)
Definition pending_on (url : WsUrl) (r : Reactor) : list N :=
  match rx_conns r !! url with Some mc => pending_ids mc | None => [] end.

Definition is_subscription (frame : Json) : bool :=
  match object_field "method" frame with
  | Some (JString m) => String.eqb m "subscribe" || String.eqb m "unsubscribe"
  | _ => false
  end.

(** The request id an order frame carries. *)
Definition order_id (e : ReactorEffect) : option Json :=
  match e with
  | FxFrame _ _ _ frame _ => if is_subscription frame then None else object_field "req_id" frame
  | _ => None
  end.

Definition orders_offered (log : list ReactorEffect) : list Json := omap order_id log.

(** No full queue was met while closing. *)
Definition gentle (log : list ReactorEffect) : Prop :=
  ∀ url sock frame, FxFrame url sock (Some Closing) frame Backpressure ∉ log.

Lemma gentle_prefix l d : gentle (l ++ d) → gentle l.
Proof. intros Hg url sock f Hin. apply (Hg url sock f), elem_of_app. by left. Qed.

Lemma answered_app l d : answered (l ++ d) = answered l ++ answered d.
Proof. apply omap_app. Qed.
Lemma refused_app l d : refused (l ++ d) = refused l ++ refused d.
Proof. apply omap_app. Qed.
Lemma orders_app l d : orders_offered (l ++ d) = orders_offered l ++ orders_offered d.
Proof. apply omap_app. Qed.

Lemma answered_conn url effs : answered (map (FxConn url) effs) = resolved_ids effs.
Proof.
  unfold answered, resolved_ids. induction effs as [|e effs IH]; [done|]. cbn.
  destruct (resolved_id e); cbn; by rewrite <-IH.
Qed.
Lemma refused_conn url effs : refused (map (FxConn url) effs) = [].
Proof. by induction effs. Qed.
Lemma orders_conn url effs : orders_offered (map (FxConn url) effs) = [].
Proof. by induction effs. Qed.

Lemma plain_not_order url sock st frame res :
  plain_frame url frame → order_id (FxFrame url sock st frame res) = None.
Proof.
  intros [(m & Hm & Hs) _]. cbn. unfold is_subscription. rewrite Hm.
  by destruct Hs as [->| ->].
Qed.

Lemma plain_effect_silent e : plain_effect (Decimal := Decimal) e →
  answered [e] = [] ∧ refused [e] = [] ∧ orders_offered [e] = [].
Proof. by destruct e. Qed.

(** Offering the frame of a request is offering an order, if it is not a subscription. *)
Lemma offered_orders url st id e :
  offered (Decimal := Decimal) url st id e →
  answered e = [] ∧ refused e = [] ∧ (orders_offered e = [] ∨ orders_offered e = [wire_id id]).
Proof.
  intros [->|(sock & method & params & token & res & ->)]; [auto|]. split_and!; [done..|].
  unfold orders_offered. cbn.
  destruct (is_subscription _); [by left|]. by right.
Qed.
End Log.

(** ** Invariants of labelled steps *)

Section Invariants.
Context {Decimal : Type}.
Abbreviation Reactor := (@Reactor.Reactor Decimal).
Context (renv : ReactorEnv) (J : Json → Prop).
Abbreviation xstep := (xstep (Decimal := Decimal) renv J).
Abbreviation xrun := (xrun (Decimal := Decimal) renv J).

(** *** Connections *)

Definition conns_ok (r : Reactor) : Prop :=
  gentle (rx_log r) → ∀ url mc, rx_conns r !! url = Some mc → reachable url mc.

Lemma set_conn_reachable url op w (r : Reactor) env' :
  (∀ u mc, rx_conns r !! u = Some mc → reachable u mc) →
  rx_conns r !! url = Some (w_mc w) → op_admitted op (w_mc w) →
  ∀ u mc, rx_conns (set_conn url (run_op env' op w).2 r) !! u = Some mc → reachable u mc.
Proof.
  intros Hr Hc Had u mc. cbn. destruct (decide (u = url)) as [->|Hne].
  - rewrite lookup_insert_eq. intros [= <-]. by apply reach_op; [apply Hr|].
  - rewrite lookup_insert_ne by done. apply Hr.
Qed.

Lemma rstep_conns_ok r r' : rstep renv J r r' → conns_ok r → conns_ok r'.
Proof.
  destruct 1 as [r' Hc Hl|r' e _ Hc Hl|r' url sock f res _ Hc Hl|url mc op w Hc <- He Hop Had];
    unfold conns_ok; try (rewrite Hc, Hl; intros Hr Hg; eauto using gentle_prefix).
  cbn [rx_log]. intros Hr Hg. pose proof (gentle_prefix _ _ Hg) as Hg'.
  apply set_conn_reachable; [by apply Hr|done|].
  destruct Had as [|(sock & frame & Hlast)]; [done|]. exfalso.
  apply last_Some in Hlast as [l Hl]. apply (Hg' url sock frame). rewrite Hl.
  apply elem_of_app. right. by apply list_elem_of_singleton.
Qed.

Lemma xstep_conns_ok ids r r' : xstep r ids r' → conns_ok r → conns_ok r'.
Proof.
  destruct 1 as [r' Hs|r' id err Hc Hl|r' mc p w e Hc <- He Had r1 Hc' Ho Hl].
  - by eapply rstep_conns_ok.
  - unfold conns_ok. rewrite Hc, Hl. eauto using gentle_prefix.
  - unfold conns_ok. rewrite Hc', Hl. intros Hr Hg. subst r1.
    apply gentle_prefix in Hg. cbn in Hg. apply gentle_prefix in Hg.
    apply set_conn_reachable; [by apply Hr|done..].
Qed.

(** *** The account of requests *)

Definition keyed (r : Reactor) : Prop :=
  ∀ url mc, rx_conns r !! url = Some mc → pending_keyed mc.

(** Every request served is answered or pending, and none is pending twice. *)
Definition accounted (seen : list N) (r : Reactor) : Prop :=
  NoDup seen →
  keyed r ∧ pending_on Public r = [] ∧ seen ≡ₚ answered (rx_log r) ++ pending_on Auth r.

Lemma pending_on_same url (r r' : Reactor) :
  rx_conns r' = rx_conns r → pending_on url r' = pending_on url r.
Proof. intros Hc. unfold pending_on. by rewrite Hc. Qed.

Lemma keyed_same (r r' : Reactor) : rx_conns r' = rx_conns r → keyed r → keyed r'.
Proof. intros Hc. unfold keyed. by rewrite Hc. Qed.

Lemma pending_on_insert url mc (r r' : Reactor) :
  rx_conns r' = <[url := mc]> (rx_conns r) →
  pending_on url r' = pending_ids mc ∧ ∀ u, u ≠ url → pending_on u r' = pending_on u r.
Proof.
  intros Hc. unfold pending_on. rewrite Hc, lookup_insert_eq. split; [done|].
  intros u Hu. by rewrite lookup_insert_ne by done.
Qed.

Lemma keyed_set_conn url op w (r : Reactor) env' :
  rx_conns r !! url = Some (w_mc w) → keyed r → keyed (set_conn url (run_op env' op w).2 r).
Proof.
  intros Hc Hk u mc. cbn. destruct (decide (u = url)) as [->|Hne].
  - rewrite lookup_insert_eq. intros [= <-].
    by apply (op_keyed env' op (w_mc w) (w_effects w)); [eapply Hk|..].
  - rewrite lookup_insert_ne by done. apply Hk.
Qed.

(** What an operation answers and leaves pending. *)
Lemma op_account env' op w seen :
  w_effects w = [] → pending_keyed (w_mc w) → op_fresh op seen →
  (∀ id, id ∈ pending_ids (w_mc w) → id ∈ seen) →
  (map_to_list (recorded op)).*1 ++ pending_ids (w_mc w) ≡ₚ
  resolved_ids (w_effects (run_op env' op w).2) ++ pending_ids (w_mc (run_op env' op w).2).
Proof.
  intros He Hk Hf Hin.
  assert (Hf' : op_fresh op (pending_ids (w_mc w))).
  { destruct op; try done. cbn in *. intros Hr. by apply Hf, Hin. }
  pose proof (op_conserves env' op (w_mc w) [] ltac:(constructor) Hk Hf' w eq_refl He)
    as Hc%conserves_perm.
  rewrite <-Hc. unfold pending_ids. rewrite (recorded_perm op seen); [done|done|].
  intros id Hid. apply Hin. unfold pending_ids. by apply elem_of_elements.
Qed.

Lemma rstep_accounted r r' seen : rstep renv J r r' → accounted seen r → accounted seen r'.
Proof.
  intros Hs HI Hnd. destruct (HI Hnd) as (Hk & Hp & Hs'). clear HI.
  destruct Hs as [r' Hc Hl|r' e He Hc Hl|r' url sock f res Hf Hc Hl|url mc op w Hc <- He Hop Had];
    try (rewrite !(pending_on_same _ r r') by done; split_and!;
         [by eapply keyed_same|done|rewrite Hl]).
  - exact Hs'.
  - rewrite answered_app. destruct (plain_effect_silent e He) as (-> & _ & _).
    by rewrite app_nil_r.
  - rewrite answered_app. by rewrite app_nil_r.
  - set (r' := set_conn url (run_op (re_env renv) op w).2 r).
    assert (Hin : ∀ id, id ∈ pending_ids (w_mc w) → id ∈ seen).
    { intros id Hid. rewrite Hs'. apply elem_of_app. right.
      destruct url; unfold pending_on in *; rewrite Hc in *; [rewrite Hp in Hid|done].
      by apply not_elem_of_nil in Hid. }
    assert (Hf : op_fresh op seen) by (by destruct op).
    pose proof (op_account (re_env renv) op w seen He (Hk _ _ Hc) Hf Hin) as Ha.
    assert ((map_to_list (recorded op)).*1 = []) as Hrec by (destruct op; done).
    rewrite Hrec in Ha. cbn [app] in Ha.
    destruct (pending_on_insert url _ r r' eq_refl) as [Hsame Hother].
    split_and!; [by apply keyed_set_conn|..].
    + destruct url; [|by rewrite Hother]. rewrite Hsame.
      unfold pending_on in Hp. rewrite Hc in Hp. rewrite Hp in Ha.
      by apply Permutation_nil, app_eq_nil in Ha as [_ ?].
    + cbn [rx_log r' set_conn]. rewrite answered_app, answered_conn, Hs'. destruct url.
      * rewrite Hother by done. unfold pending_on in Hp. rewrite Hc in Hp. rewrite Hp in Ha.
        apply Permutation_nil, app_eq_nil in Ha as [-> _]. by rewrite app_nil_r.
      * rewrite Hsame. unfold pending_on at 1. rewrite Hc, Ha. solve_Permutation.
Qed.

Lemma xstep_accounted seen ids r r' :
  accounted seen r → xstep r ids r' → accounted (seen ++ ids) r'.
Proof.
  intros HI Hx Hnd. apply NoDup_app in Hnd as Hnd'. destruct Hnd' as (Hnd1 & Hdis & _).
  destruct Hx as [r' Hs|r' id err Hc Hl|r' mc p w e Hc <- He Had r1 Hc' Ho Hl].
  - rewrite app_nil_r in *. by eapply rstep_accounted.
  - destruct (HI Hnd1) as (Hk & Hp & Hs). rewrite !(pending_on_same _ r r') by done.
    split_and!; [by eapply keyed_same|done|]. rewrite Hl, answered_app, Hs. cbn. solve_Permutation.
  - destruct (HI Hnd1) as (Hk & Hp & Hs).
    assert (Hin : ∀ id, id ∈ pending_ids (w_mc w) → id ∈ seen).
    { intros id Hid. rewrite Hs. apply elem_of_app. right. unfold pending_on. by rewrite Hc. }
    assert (Hf : op_fresh (OpRecordPending p) seen).
    { intros Hr. apply (Hdis _ Hr), list_elem_of_here. }
    pose proof (op_account (re_env renv) _ w seen He (Hk _ _ Hc) Hf Hin) as Ha.
    cbn [recorded] in Ha. rewrite map_to_list_singleton in Ha. cbn [fmap list_fmap fst] in Ha.
    destruct (pending_on_insert Auth (w_mc (run_op (re_env renv) (OpRecordPending p) w).2) r r'
                Hc') as [Hsame Hother].
    split_and!.
    + intros u mc. rewrite Hc'. by apply (keyed_set_conn Auth (OpRecordPending p) w r (re_env renv)).
    + by rewrite Hother.
    + rewrite Hl, answered_app. destruct (offered_orders _ _ _ _ Ho) as (-> & _ & _).
      subst r1. cbn [rx_log set_conn]. rewrite answered_app, answered_conn, Hsame, app_nil_r, Hs.
      unfold pending_on. rewrite Hc. rewrite <-!(assoc_L (++)), <-Ha. cbn. solve_Permutation.
Qed.

(** *** Frames *)

(** Orders go out in the order they were asked for, and none that was refused. *)
Definition orders_ok (seen : list N) (r : Reactor) : Prop :=
  ∃ sent, orders_offered (rx_log r) = wire_id <$> sent ∧ sent `sublist_of` seen ∧
          refused (rx_log r) ++ sent ⊆+ seen.

Lemma orders_ok_same seen (r r' : Reactor) d :
  rx_log r' = rx_log r ++ d → orders_offered d = [] → refused d = [] →
  orders_ok seen r → orders_ok seen r'.
Proof.
  intros Hl Ho Hr. unfold orders_ok. by rewrite Hl, orders_app, refused_app, Ho, Hr, !app_nil_r.
Qed.

Lemma rstep_orders_ok r r' seen : rstep renv J r r' → orders_ok seen r → orders_ok seen r'.
Proof.
  destruct 1 as [r' Hc Hl|r' e He Hc Hl|r' url sock f res Hf Hc Hl|url mc op w Hc <- He Hop Had].
  - apply (orders_ok_same _ _ _ []); [by rewrite app_nil_r|done..].
  - destruct (plain_effect_silent e He) as (_ & ? & ?). by apply (orders_ok_same _ _ _ [e]).
  - eapply orders_ok_same; [exact Hl| |done]. unfold orders_offered. cbn [omap list_omap].
    by rewrite plain_not_order.
  - eapply orders_ok_same; [done|apply orders_conn|apply refused_conn].
Qed.

Lemma xstep_orders_ok seen ids r r' :
  orders_ok seen r → xstep r ids r' → orders_ok (seen ++ ids) r'.
Proof.
  intros HI Hx. destruct Hx as [r' Hs|r' id err Hc Hl|r' mc p w e Hc <- He Had r1 Hc' Ho Hl].
  - rewrite app_nil_r. by eapply rstep_orders_ok.
  - destruct HI as (sent & Hs & Hsub & Hm). exists sent.
    rewrite Hl, orders_app, refused_app. cbn. rewrite app_nil_r. split_and!; [done| |].
    + by apply sublist_inserts_r.
    + rewrite <-app_assoc, (comm _ [id] sent), app_assoc. by apply submseteq_app.
  - destruct HI as (sent & Hs & Hsub & Hm). destruct (offered_orders _ _ _ _ Ho) as (_ & Hr & He').
    unfold orders_ok. subst r1. rewrite Hl. cbn [rx_log set_conn].
    rewrite !orders_app, !refused_app, orders_conn, refused_conn, Hr, !app_nil_r, Hs.
    destruct He' as [->| ->].
    + exists sent. rewrite app_nil_r. split_and!; [done|by apply sublist_inserts_r|].
      etrans; [exact Hm|]. apply submseteq_inserts_r, reflexivity.
    + exists (sent ++ [pr_req_id p]). rewrite fmap_app. split_and!; [done|by apply sublist_app|].
      rewrite app_assoc. by apply submseteq_app.
Qed.

(** A frame is a subscription's or, on an authenticated connection that is open or
    authenticating, a request's. *)
Definition frame_ok (url : WsUrl) (st : option ConnectionState) (frame : Json) : Prop :=
  plain_frame url frame ∨
  (url = Auth ∧ (st = Some Open ∨ st = Some Authenticating) ∧
   ∃ method params token id, frame = request_frame method params token id).

Definition frames_ok (r : Reactor) : Prop :=
  ∀ url sock st frame result, FxFrame url sock st frame result ∈ rx_log r → frame_ok url st frame.

Lemma frames_ok_same (r r' : Reactor) d :
  rx_log r' = rx_log r ++ d →
  (∀ url sock st frame result, FxFrame url sock st frame result ∈ d → frame_ok url st frame) →
  frames_ok r → frames_ok r'.
Proof.
  intros Hl Hd Hr url sock st f res. rewrite Hl, elem_of_app. intros [?|?]; eauto.
Qed.

Lemma no_frames url effs u sock st f res :
  FxFrame u sock st f res ∈ map (FxConn (Decimal := Decimal) url) effs → False.
Proof. rewrite list_elem_of_In, in_map_iff. by intros (? & ? & _). Qed.

Lemma rstep_frames_ok r r' : rstep renv J r r' → frames_ok r → frames_ok r'.
Proof.
  destruct 1 as [r' Hc Hl|r' e He Hc Hl|r' url sock f res Hf Hc Hl|url mc op w Hc <- He Hop Had].
  - eapply (frames_ok_same _ _ []); [by rewrite app_nil_r|]. by intros ????? ?%not_elem_of_nil.
  - eapply frames_ok_same; [done|]. by intros ????? <-%list_elem_of_singleton.
  - eapply frames_ok_same; [done|]. intros ????? [= -> -> -> -> ->]%list_elem_of_singleton. by left.
  - eapply frames_ok_same; [done|]. by intros ????? ?%no_frames.
Qed.

Lemma record_state p w :
  mc_state (w_mc (record_pending_request p w).2) = mc_state (w_mc w).
Proof.
  unfold record_pending_request, gets, modify, effect, mbind, M_bind, mret, M_ret.
  cbn. by destruct (mc_pending_requests (w_mc w) !! pr_req_id p).
Qed.

Lemma xstep_frames_ok ids r r' : xstep r ids r' → frames_ok r → frames_ok r'.
Proof.
  destruct 1 as [r' Hs|r' id err Hc Hl|r' mc p w e Hc <- He Had r1 Hc' Ho Hl].
  - by apply rstep_frames_ok.
  - eapply frames_ok_same; [done|]. by intros ????? ?%list_elem_of_singleton.
  - intros HI. eapply (frames_ok_same r1); [done| |].
    + intros url sock st f res Hin. destruct Ho as [->|(sk & me & ps & tok & rs & ->)];
        [by apply not_elem_of_nil in Hin|].
      apply list_elem_of_singleton in Hin. injection Hin as -> -> -> -> ->. right.
      split_and!; [done| |by eexists _, _, _, _]. subst r1. cbn [rx_conns set_conn].
      rewrite lookup_insert_eq. unfold fmap, option_fmap, option_map.
      rewrite record_state. destruct Had as [->| ->]; auto.
    + eapply frames_ok_same; [done| |exact HI]. by intros ????? ?%no_frames.
Qed.

(** *** Answers *)

(** A success is what some frame said about that request. *)
Definition answers_ok (r : Reactor) : Prop :=
  ∀ url id resp, FxConn url (ResolveOk id resp) ∈ rx_log r →
    ∃ json, J json ∧ response_id json = Some id ∧ resp = response_of id json.

Lemma conn_answers url env' op w id resp u :
  w_effects w = [] →
  FxConn u (ResolveOk id resp) ∈
    map (FxConn (Decimal := Decimal) url) (w_effects (run_op env' op w).2) →
  (id, resp) ∈ answers op.
Proof.
  rewrite list_elem_of_In, in_map_iff. intros He (e & [= -> ->] & Hin%list_elem_of_In).
  apply (op_oks env' op (w_mc w) [] eq_refl w eq_refl He). unfold oks.
  by apply list_elem_of_omap; eexists.
Qed.

Lemma answers_ok_same (r r' : Reactor) d :
  rx_log r' = rx_log r ++ d →
  (∀ url id resp, FxConn url (ResolveOk id resp) ∈ d →
     ∃ json, J json ∧ response_id json = Some id ∧ resp = response_of id json) →
  answers_ok r → answers_ok r'.
Proof. intros Hl Hd Hr url id resp. rewrite Hl, elem_of_app. intros [?|?]; eauto. Qed.

Lemma rstep_answers_ok r r' : rstep renv J r r' → answers_ok r → answers_ok r'.
Proof.
  destruct 1 as [r' Hc Hl|r' e He Hc Hl|r' url sock f res Hf Hc Hl|url mc op w Hc <- He Hop Had].
  - eapply (answers_ok_same _ _ []); [by rewrite app_nil_r|]. by intros ??? ?%not_elem_of_nil.
  - eapply answers_ok_same; [done|]. by intros ??? <-%list_elem_of_singleton.
  - eapply answers_ok_same; [done|]. by intros ??? ?%list_elem_of_singleton.
  - eapply answers_ok_same; [done|]. intros u id resp Hin%conn_answers; [|done].
    destruct op; try by apply not_elem_of_nil in Hin. apply list_elem_of_singleton in Hin.
    injection Hin as -> ->. exact Hop.
Qed.

Lemma xstep_answers_ok ids r r' : xstep r ids r' → answers_ok r → answers_ok r'.
Proof.
  destruct 1 as [r' Hs|r' id err Hc Hl|r' mc p w e Hc <- He Had r1 Hc' Ho Hl].
  - by apply rstep_answers_ok.
  - eapply answers_ok_same; [done|]. by intros ??? ?%list_elem_of_singleton.
  - intros HI. eapply (answers_ok_same r1); [done| |].
    + intros ??? Hin. destruct Ho as [->|(? & ? & ? & ? & ? & ->)];
        [by apply not_elem_of_nil in Hin|by apply list_elem_of_singleton in Hin].
    + eapply answers_ok_same; [done| |exact HI]. intros u id resp Hin%conn_answers; [|done].
      by apply not_elem_of_nil in Hin.
Qed.
End Invariants.

(** ** Any turns *)

Section Turns.
Context {Decimal : Type} (dcmp : Decimal → Decimal → comparison)
  (crc32 : list (string * string) → list (string * string) → N)
  (dec_from_str : string → option Decimal)
  (decode_frame : Json → option RawBookData).
Context (renv : ReactorEnv) (budget : ConnectionRateBudget) (tokens : TokenState) (id0 : N).
Abbreviation turns := (run_turns dcmp crc32 dec_from_str decode_frame renv).
Abbreviation start := (reactor_new (Decimal := Decimal) renv budget tokens id0).
Abbreviation served_from := (served dcmp crc32 dec_from_str decode_frame renv).

Lemma start_conns url mc : rx_conns start !! url = Some mc → mc = mc_new (re_env renv) url.
Proof. destruct url; by intros [= <-]. Qed.

Lemma start_public : public_ok start.
Proof. by intros mc ->%start_conns. Qed.

Definition frame_of (ts : list (@Turn Decimal)) (json : Json) : Prop :=
  ∃ url, TurnFrame url (TextFrame (Some json)) ∈ ts.

Lemma turns_run ts :
  xrun renv (frame_of ts) (served_from ts start) start (turns ts start).2.
Proof.
  apply served_run; [|apply start_public]. intros url json Hin. by exists url.
Qed.

(** What every step keeps holds after any turns. *)
Lemma turns_inv ts (I : list N → @Reactor.Reactor Decimal → Prop) :
  (∀ seen ids r r', I seen r → xstep renv (frame_of ts) r ids r' → I (seen ++ ids) r') →
  I [] start → I (served_from ts start) (turns ts start).2.
Proof. intros Hs H0. exact (xrun_inv renv _ I Hs _ _ _ (turns_run ts) [] H0). Qed.

Lemma turns_conns ts : conns_ok (turns ts start).2.
Proof.
  apply (turns_inv ts (λ _, conns_ok)); [intros; by eapply xstep_conns_ok|].
  intros _ url mc ->%start_conns. constructor.
Qed.

Lemma turns_accounted ts : accounted (served_from ts start) (turns ts start).2.
Proof.
  apply (turns_inv ts accounted); [intros; by eapply xstep_accounted|].
  intros _. split_and!; [|done..]. intros url mc ->%start_conns. apply map_Forall_empty.
Qed.

Lemma turns_orders ts : orders_ok (served_from ts start) (turns ts start).2.
Proof. apply (turns_inv ts orders_ok); [intros; by eapply xstep_orders_ok|]. by exists []. Qed.

Lemma turns_frames ts : frames_ok (turns ts start).2.
Proof.
  apply (turns_inv ts (λ _, frames_ok)); [intros; by eapply xstep_frames_ok|].
  by intros ????? ?%not_elem_of_nil.
Qed.

Lemma turns_answers ts : answers_ok (frame_of ts) (turns ts start).2.
Proof.
  apply (turns_inv ts (λ _, answers_ok (frame_of ts))); [intros; by eapply xstep_answers_ok|].
  by intros ??? ?%not_elem_of_nil.
Qed.

(** ** The properties *)

(** C9: Whatever the reactor is asked and whatever the exchange and its sockets do, its two
    connections stay within the connection state machine: each is reachable by admitted
    operations, so every property of reachable connections holds of them, as long as no
    socket reports a full queue for a frame offered while its connection is closing. *)
Theorem connections_stay_reachable ts url mc :
  gentle (rx_log (turns ts start).2) →
  rx_conns (turns ts start).2 !! url = Some mc → reachable url mc.
Proof. intros Hg. by apply turns_conns. Qed.

(** C7: With distinct request ids, every request the reactor takes is accounted for after any
    turns: it has been answered exactly once (refused, resolved, failed or dropped) or it
    awaits its response on the authenticated connection, and nothing else is answered. *)
Theorem requests_accounted ts :
  NoDup (served_from ts start) →
  served_from ts start ≡ₚ
    answered (rx_log (turns ts start).2) ++ pending_on Auth (turns ts start).2 ∧
  pending_on Public (turns ts start).2 = [].
Proof. intros Hn. by destruct (turns_accounted ts Hn) as (_ & ? & ?). Qed.

(** C8: With distinct request ids, an order is offered to a socket at most once, in the order
    the requests were taken, and never if the request was refused: a refusal is definitely
    not sent, so retrying it cannot fill twice. *)
Theorem orders_offered_once ts :
  NoDup (served_from ts start) →
  orders_offered (rx_log (turns ts start).2) `sublist_of` (wire_id <$> served_from ts start) ∧
  NoDup (orders_offered (rx_log (turns ts start).2)) ∧
  ∀ id, id ∈ refused (rx_log (turns ts start).2) →
    wire_id id ∉ orders_offered (rx_log (turns ts start).2).
Proof.
  intros Hn. destruct (turns_orders ts) as (sent & -> & Hsub & Hm).
  assert (Hd : NoDup (refused (rx_log (turns ts start).2) ++ sent)).
  { destruct (submseteq_Permutation _ _ Hm) as [rest Hp]. rewrite Hp in Hn.
    by apply NoDup_app in Hn as [? _]. }
  apply NoDup_app in Hd as (_ & Hdis & Hs). split_and!.
  - by apply (fmap_sublist wire_id).
  - apply NoDup_fmap_2; [apply _|done].
  - intros id Hr. rewrite list_elem_of_fmap. intros (id' & <-%(inj wire_id) & Hin). by eapply Hdis.
Qed.

(** C10: Every frame the reactor offers to a socket is a subscription's, which carries no token
    on the public endpoint, or a request's, offered on the authenticated connection while it
    is open or authenticating. *)
Theorem frames_guarded ts :
  Forall (λ e, match e with
               | FxFrame url _ state frame _ => frame_ok url state frame
               | _ => True
               end) (rx_log (turns ts start).2).
Proof.
  apply Forall_forall. intros [| url sock st f res | | | | | | | ] Hin; try done.
  by eapply (turns_frames ts).
Qed.

(** A request is never reported as successful on the reactor's own account: what a caller
    is told is what a frame with its request id said. *)
Theorem successes_reported ts :
  Forall (λ e, match e with
               | FxConn _ (ResolveOk id resp) =>
                   ∃ url json, TurnFrame url (TextFrame (Some json)) ∈ ts ∧
                     response_id json = Some id ∧ resp = response_of id json
               | _ => True
               end) (rx_log (turns ts start).2).
Proof.
  apply Forall_forall. intros [url []| | | | | | | | ] Hin; try done.
  destruct (turns_answers ts _ _ _ Hin) as (json & [u Hu] & ?). by exists u, json.
Qed.
End Turns.

(** ** Concrete runs *)

Lemma gentle_check {Decimal} (log : list (@ReactorEffect Decimal)) :
  forallb (λ e, match e with FxFrame _ _ (Some Closing) _ Backpressure => false | _ => true end)
    log = true → gentle log.
Proof.
  intros Hb url sock f Hin. rewrite forallb_forall in Hb.
  by apply list_elem_of_In, Hb in Hin.
Qed.

Section Concrete.
Local Open Scope string_scope.

(** A clock that advances by a millisecond per reading, and no book decoder. *)
Definition env_ms : Env :=
  mkEnv defaults (λ n, N.of_nat n * 1000000) (λ n, N.of_nat n) (λ _, f64_one) (λ b _, b)
    (λ _, EmptyString).

Definition renv_ms (send : nat → SendResult) : ReactorEnv :=
  mkReactorEnv env_ms send (λ _ _, HdDecodeFailed) "key".

(** A fresh reactor holding a token. *)
Definition token_held : TokenState :=
  mkTokens (mkManager (Some (mkToken "tok" 0)) 1 false) [] [] [].

Definition begin_with (send : nat → SendResult) : @Reactor.Reactor N :=
  reactor_new (renv_ms send) (with_knobs 100 600000000000) token_held 1.

Definition after (send : nat → SendResult) (ts : list (@Turn N)) : @Reactor.Reactor N :=
  (run_turns N.compare (λ _ _, 0) (λ _, None) (λ _, None) (renv_ms send) ts (begin_with send)).2.

Definition served_in (send : nat → SendResult) (ts : list (@Turn N)) : list N :=
  served N.compare (λ _ _, 0) (λ _, None) (λ _, None) (renv_ms send) ts (begin_with send).

Definition order (id : N) : @Turn N :=
  TurnInbound (InWsRequestFrame id "add_order" OpAddOrder (JObject [])).

Definition order_response (id : N) (rest : list (string * Json)) : @Turn N :=
  TurnFrame Auth (TextFrame (Some (json_object
    ([("method", JString "add_order"); ("req_id", JNumber (decimal id))] ++ rest)%list))).

Definition accepted (id : N) : @Turn N := order_response id [("success", JBool true)].

Definition dial (url : WsUrl) : list (@Turn N) :=
  [TurnInbound (InFsmEvent url (StartConnect 1)); TurnUpgrade (UpgradeOk url 0)].

(** An order too early, the order that authenticates, one the socket has no room for, and
    one still awaiting its response. *)
Definition trading : list (@Turn N) :=
  ([order 6] ++ dial Auth ++ [order 7; accepted 7; order 8; order 9])%list.

Definition second_full (n : nat) : SendResult :=
  match n with 1%nat => Backpressure | _ => SendAccepted end.

Lemma trading_served : served_in second_full trading = [6; 7; 8; 9].
Proof. by vm_compute. Qed.

Lemma trading_distinct : NoDup (served_in second_full trading).
Proof. rewrite trading_served. apply (bool_decide_unpack _). by vm_compute. Qed.

Lemma connections_stay_reachable_witness :
  match rx_conns (after second_full trading) !! Auth with
  | Some mc => mc_state mc = Open ∧ reachable Auth mc
  | None => False
  end.
Proof.
  assert (Hs : mc_state <$> rx_conns (after second_full trading) !! Auth = Some Open)
    by by vm_compute.
  assert (Hg : gentle (rx_log (after second_full trading)))
    by (apply gentle_check; by vm_compute).
  destruct (rx_conns (after second_full trading) !! Auth) as [mc|] eqn:E; [|discriminate Hs].
  injection Hs as Hs. split; [exact Hs|].
  exact (connections_stay_reachable N.compare (λ _ _, 0) (λ _, None) (λ _, None)
           (renv_ms second_full) (with_knobs 100 600000000000) token_held 1 trading Auth mc Hg E).
Defined.

Lemma requests_accounted_witness :
  answered (rx_log (after second_full trading)) = [6; 7; 8] ∧
  pending_on Auth (after second_full trading) = [9] ∧
  [6; 7; 8; 9] ≡ₚ [6; 7; 8] ++ [9].
Proof.
  assert (Ha : answered (rx_log (after second_full trading)) = [6; 7; 8]) by by vm_compute.
  assert (Hp : pending_on Auth (after second_full trading) = [9]) by by vm_compute.
  destruct (requests_accounted N.compare (λ _ _, 0) (λ _, None) (λ _, None)
              (renv_ms second_full) (with_knobs 100 600000000000) token_held 1 trading
              trading_distinct) as [H _].
  change (served_in second_full trading ≡ₚ
    answered (rx_log (after second_full trading)) ++ pending_on Auth (after second_full trading))
    in H.
  rewrite trading_served, Ha, Hp in H. auto.
Defined.

Lemma orders_offered_once_witness :
  orders_offered (rx_log (after second_full trading)) = [wire_id 7; wire_id 8; wire_id 9] ∧
  refused (rx_log (after second_full trading)) = [6] ∧
  wire_id 6 ∉ orders_offered (rx_log (after second_full trading)).
Proof.
  split; [by vm_compute|]. split; [by vm_compute|].
  destruct (orders_offered_once N.compare (λ _ _, 0) (λ _, None) (λ _, None)
              (renv_ms second_full) (with_knobs 100 600000000000) token_held 1 trading
              trading_distinct) as (_ & _ & H).
  apply H. apply (bool_decide_unpack _). by vm_compute.
Defined.

(** ** What the runs show *)

(** A client close, then a public subscription that meets a full queue until its budget is
    spent: the closing connection backs off and dials again, and the close, still pending,
    is not complete. *)
Definition status_entry : @SubscriptionEntry N :=
  mkEntry Public Status None PStatus 1 None None 0 SubPending 0 0.

Definition closing_full : list (@Turn N) :=
  (dial Public ++
   [TurnInbound (InClientClose 9 0);
    TurnInbound (InRegistryMutation Public (RegisterBatch [status_entry] None));
    TurnTimer; TurnTimer])%list.

Definition state_of (url : WsUrl) (r : @Reactor.Reactor N) : option ConnectionState :=
  mc_state <$> rx_conns r !! url.

Theorem closing_interrupted :
  let full := λ _ : nat, Backpressure in
  state_of Public (after full (take 3 closing_full)) = Some Closing ∧
  state_of Public (after full closing_full) = Some BackingOff ∧
  state_of Public (after full (closing_full ++ [TurnTimer])) = Some Connecting ∧
  rx_pending_client_close (after full (closing_full ++ [TurnTimer])) = Some (9, 0) ∧
  ¬ gentle (rx_log (after full closing_full)).
Proof.
  cbv zeta. split_and!; [by vm_compute..|]. intros Hg.
  assert (H : ∃ i frame, rx_log (after (λ _, Backpressure) closing_full) !! i =
            Some (FxFrame Public 0 (Some Closing) frame Backpressure)).
  { exists 3%nat. vm_compute. by eexists. }
  destruct H as (i & frame & H). by eapply Hg, list_elem_of_lookup_2.
Qed.

(** The order that authenticates is rejected for a stale token: the connection stays in
    [Authenticating], but no refresh is spawned and the token is not dropped, so the next
    order carries it again, until the connection gives up for good. *)
Definition stale (id : N) : @Turn N :=
  order_response id [("success", JBool false); ("error", JString "ESession:Invalid session")].

Definition stale_probe : list (@Turn N) :=
  (dial Auth ++ [order 7; stale 7; order 8; stale 8; order 9; stale 9])%list.

Theorem stale_probe_not_refreshed :
  let ok := λ _ : nat, SendAccepted in
  state_of Auth (after ok (take 4 stale_probe)) = Some Authenticating ∧
  rx_tokens (after ok (take 4 stale_probe)) = token_held ∧
  orders_offered (rx_log (after ok stale_probe)) = [wire_id 7; wire_id 8; wire_id 9] ∧
  rx_tokens (after ok stale_probe) = token_held ∧
  state_of Auth (after ok stale_probe) = Some Failed.
Proof. cbv zeta. split_and!; by vm_compute. Qed.
End Concrete.
