(* ===== verification/ReactorRegistry.v ===== *)
(** * ReactorRegistry: the registry of the running reactor

    Every turn changes the registry only by the operations of [RegistryInv]: most programs
    by quiet ones ([settles]), a batch of a caller by registrations and a dropped guard by
    guard drops.  If callers post what the surface posts ([well_posted]), the registry of
    the reactor therefore stays well-formed whatever the turns. *)

From Stdlib Require Import Ascii String.
From stdpp Require Import relations.
From S2P Require Import Prelude F64 Types Events Errors Knobs RateBudget Rest Book Connection TokenLifecycle EventBus Registry RegistryInv Handlers Reactor FrameRouting ReactorLoop ReactorProps.
Local Open Scope N_scope.

Section Settles.
Context {Decimal : Type} (dcmp : Decimal → Decimal → comparison)
  (crc32 : list (string * string) → list (string * string) → N)
  (dec_from_str : string → option Decimal)
  (decode_frame : Json → option RawBookData).
Abbreviation RM := (@Reactor.RM Decimal).
Abbreviation Reactor := (@Reactor.Reactor Decimal).
Abbreviation Registry := (@SubscriptionRegistry Decimal).
Abbreviation reg_op := (reg_op dcmp crc32 dec_from_str decode_frame).

(** ** Programs that change the registry by some operations only *)

Section Steps.
Context (Q : RegOp → bool).

Definition op_step (r r' : Registry) : Prop := ∃ op, Q op = true ∧ r' = reg_op op r.

Definition settles {A} (m : RM A) : Prop :=
  ∀ r, rtc op_step (rx_registry r) (rx_registry (m r).2).

Lemma settles_bind {A B} (m : RM A) (k : A → RM B) :
  settles m → (∀ a, settles (k a)) → settles (mbind k m).
Proof.
  intros Hm Hk r. unfold mbind, RM_bind. specialize (Hm r). destruct (m r) as [a r1].
  etrans; [exact Hm|apply Hk].
Qed.

Lemma settles_ret {A} (a : A) : settles (mret a : RM A).
Proof. intros r. reflexivity. Qed.

Lemma settles_gets {A} (f : Reactor → A) : settles (rgets f).
Proof. intros r. reflexivity. Qed.

Lemma settles_modify (f : Reactor → Reactor) :
  (∀ r, rx_registry (f r) = rx_registry r) → settles (rmodify f).
Proof. intros Hf r. cbn. by rewrite Hf. Qed.

Lemma settles_when b m : settles m → settles (rwhen b m).
Proof. destruct b; [done|]. intros _. apply settles_ret. Qed.

Lemma settles_for_each {A} (f : A → RM ()) l : (∀ a, settles (f a)) → settles (rfor_each f l).
Proof. intros Hf. induction l as [|a l IH]; cbn; [apply settles_ret|by apply settles_bind]. Qed.

Lemma settles_clock renv : settles (rclock renv).
Proof. intros r. reflexivity. Qed.

Lemma settles_conn {A} `{!Inhabited A} url (m : M A) : settles (conn url m).
Proof.
  intros r. unfold conn. destruct (rx_conns r !! url); [|done]. by destruct (m _).
Qed.

Lemma settles_with {A} op (f : Registry → A * Registry) :
  Q op = true → (∀ r, (f r).2 = reg_op op r) → settles (with_registry f).
Proof.
  intros Hq Hf r. unfold with_registry. specialize (Hf (rx_registry r)).
  destruct (f (rx_registry r)) as [a reg]. cbn in *. subst reg. apply rtc_once. by exists op.
Qed.

Lemma settles_apply op (f : Registry → Registry) :
  Q op = true → (∀ r, f r = reg_op op r) → settles (modify_registry f).
Proof. intros Hq Hf r. apply rtc_once. exists op. split; [done|apply Hf]. Qed.
End Steps.

Definition no_ops (op : RegOp) : bool := false.

(** A program that settles by no operation keeps the registry. *)
Lemma settles_keeps {A} (m : RM A) r : settles no_ops m → rx_registry (m r).2 = rx_registry r.
Proof.
  intros Hm. specialize (Hm r). by destruct Hm as [|? ? ? (op & Hop & _) _].
Qed.
End Settles.

Create HintDb settles.
#[export] Hint Resolve settles_ret settles_gets settles_clock settles_conn : settles.

Ltac program_head m := lazymatch m with ?f _ => program_head f | ?f => f end.

(** Walk down a program, unfolding what no rule or hint closes. *)
Ltac settle_step :=
  lazymatch goal with
  | |- settles _ _ _ _ _ (mbind _ _) => apply settles_bind; [|intros ?]
  | |- settles _ _ _ _ _ (rwhen _ _) => apply settles_when
  | |- settles _ _ _ _ _ (rfor_each _ _) => apply settles_for_each; intros ?
  | |- settles _ _ _ _ _ (rmodify _) =>
      apply settles_modify; intros ?; repeat (case_match; simplify_eq); reflexivity
  | |- settles _ _ _ _ _ (rlog _) => apply settles_modify; reflexivity
  | |- settles _ _ _ _ _ (let _ := _ in _) => cbv zeta
  | |- settles _ _ _ _ _ (match ?x with _ => _ end) => destruct x
  | |- settles _ _ _ _ _ ?m =>
      first [solve [eauto with settles]|let h := program_head m in unfold h]
  end.
Ltac settle_run := repeat settle_step.

Section Programs.
Context {Decimal : Type} (dcmp : Decimal → Decimal → comparison)
  (crc32 : list (string * string) → list (string * string) → N)
  (dec_from_str : string → option Decimal)
  (decode_frame : Json → option RawBookData).
Abbreviation reg_op := (reg_op dcmp crc32 dec_from_str decode_frame).
Context (renv : ReactorEnv) (Q : RegOp → bool).
Abbreviation settles := (settles dcmp crc32 dec_from_str decode_frame Q).

(** *** [Reactor] *)

Lemma settles_event url ev : settles (handle_conn_event renv url ev).
Proof. settle_run. Qed.
Lemma settles_send_frame url sock frame : settles (send_frame renv url sock frame).
Proof. settle_run. Qed.
Lemma settles_force_refresh reason : settles (auth_force_refresh renv reason).
Proof. settle_run. Qed.
Lemma settles_write_mirror url : settles (write_mirror url).
Proof. settle_run. Qed.
Lemma settles_project url cid : settles (project_socket_and_wire_bridge url cid).
Proof. settle_run. Qed.
Hint Resolve settles_event settles_send_frame settles_force_refresh settles_write_mirror
  settles_project : settles.
Lemma settles_unsubscribe ch pr params : settles (unsubscribe_and_terminate renv ch pr params).
Proof. settle_run. Qed.
Lemma settles_store_ready url : settles (store_send_ready renv url).
Proof. settle_run. Qed.
Hint Resolve settles_unsubscribe settles_store_ready : settles.
Lemma settles_refresh_ready url : settles (refresh_send_ready renv url).
Proof. settle_run. Qed.
Lemma settles_arm_ack url ch pr id : settles (arm_subscribe_ack_timer_with_req_id renv url ch pr id).
Proof. settle_run. Qed.
Lemma settles_send_subscribe url sock frame ch pr send :
  settles (send_subscribe_frame renv url sock frame ch pr send).
Proof. settle_run. Qed.
Hint Resolve settles_refresh_ready settles_arm_ack settles_send_subscribe : settles.
Lemma settles_send_and_arm url sock frame ch pr id send :
  settles (send_and_arm renv url sock frame ch pr id send).
Proof. settle_run. Qed.
Lemma settles_kick url : settles (kick_refresh renv url).
Proof. settle_run. Qed.
Hint Resolve settles_send_and_arm settles_kick : settles.
Lemma settles_resend url ch pr : settles (handle_subscribe_resend renv url ch pr).
Proof. settle_run. Qed.
Lemma settles_send_first url : settles (send_first_signed_subscribe renv url).
Proof. settle_run. Qed.
Lemma settles_send_batch url sock send armed frames :
  (∀ ch pr id, settles (armed ch pr id)) → settles (send_batch renv url sock send armed frames).
Proof.
  intros Harm. induction frames as [|[[ch pr] f] frames IH]; cbn [send_batch]; settle_run.
Qed.
Hint Resolve settles_resend settles_send_first settles_send_batch : settles.
Lemma settles_send_remaining url key : settles (send_remaining_signed_subscribes renv url key).
Proof. settle_run. Qed.
Lemma settles_single url ch pr p : settles (send_single_subscribe renv url ch pr p).
Proof. settle_run. Qed.
Lemma settles_single_signed url ch pr p : settles (send_single_signed_subscribe renv url ch pr p).
Proof. settle_run. Qed.
Hint Resolve settles_send_remaining settles_single settles_single_signed : settles.

Lemma settles_warn site ch : settles (suppress_warn_throttled renv site ch).
Proof. settle_run. Qed.
Lemma settles_teardown key params tomb : settles (teardown_released_key renv key params tomb).
Proof. settle_run. Qed.
Lemma settles_complete url : settles (complete_and_mirror renv url).
Proof. settle_run. Qed.
Lemma settles_inbound_event url ev : settles (handle_fsm_event renv url ev).
Proof. settle_run. Qed.
Lemma settles_request id method op params :
  settles (handle_ws_request_frame renv id method op params).
Proof. settle_run. Qed.
Lemma settles_handler ch id : settles (registry_deregister_handler ch id).
Proof. settle_run. Qed.
End Programs.
#[export] Hint Resolve settles_event settles_send_frame settles_force_refresh settles_write_mirror
  settles_project settles_unsubscribe settles_store_ready settles_refresh_ready settles_arm_ack
  settles_send_subscribe settles_send_and_arm settles_kick settles_resend settles_send_first
  settles_send_batch settles_send_remaining settles_single settles_single_signed settles_warn
  settles_teardown settles_complete settles_inbound_event settles_request settles_handler
  : settles.

(** ** What the exchange and the timers make the reactor do *)

Section Quiet.
Context {Decimal : Type} (dcmp : Decimal → Decimal → comparison)
  (crc32 : list (string * string) → list (string * string) → N)
  (dec_from_str : string → option Decimal)
  (decode_frame : Json → option RawBookData).
Context (renv : ReactorEnv).
Abbreviation settles := (settles dcmp crc32 dec_from_str decode_frame is_quiet).

Lemma settles_acked k : settles (modify_registry (note_acked k)).
Proof. by apply (settles_apply _ _ _ _ _ (RegAcked k)). Qed.
Lemma settles_terminated k cause err : settles (modify_registry (note_terminated k cause err)).
Proof. by apply (settles_apply _ _ _ _ _ (RegTerminated k cause err)). Qed.
Lemma settles_resync ch sym : settles (modify_registry (begin_book_resync ch sym)).
Proof. by apply (settles_apply _ _ _ _ _ (RegResync ch sym)). Qed.
Lemma settles_update k snap data :
  settles (with_registry (handle_update dcmp crc32 dec_from_str decode_frame k snap data)).
Proof. by apply (settles_with _ _ _ _ _ (RegFrame k snap data)). Qed.
Lemma settles_sequence ch seq snap : settles (with_registry (note_sequence ch seq snap)).
Proof. by apply (settles_with _ _ _ _ _ (RegSequence ch seq snap)). Qed.
Lemma settles_reseed_timeout ch sym : settles (with_registry (note_reseed_timeout ch sym)).
Proof. by apply (settles_with _ _ _ _ _ (RegReseedTimeout ch sym)). Qed.
Lemma settles_release k : settles (with_registry (release k)).
Proof. by apply (settles_with _ _ _ _ _ (RegRelease k)). Qed.
Lemma settles_deregister_all ch : settles (with_registry (deregister_all ch)).
Proof. by apply (settles_with _ _ _ _ _ (RegDeregisterAll ch)). Qed.
Hint Resolve settles_acked settles_terminated settles_resync settles_update settles_sequence
  settles_reseed_timeout settles_release settles_deregister_all : settles.

(** *** [FrameRouting] *)

Lemma settles_response url json : settles (handle_request_response renv url json).
Proof. settle_run. Qed.
Lemma settles_sub_ack url json : settles (handle_sub_ack renv url json).
Proof. settle_run. Qed.
Lemma settles_fan_out ch fan ty data sym outcome :
  settles (fan_out (Decimal := Decimal) renv ch fan ty data sym outcome).
Proof. settle_run. Qed.
Hint Resolve settles_response settles_sub_ack settles_fan_out : settles.
Lemma settles_route_entries ch ty data :
  settles (route_entries dcmp crc32 dec_from_str decode_frame renv ch ty data).
Proof. induction data as [|d data IH]; cbn [route_entries]; settle_run. Qed.
Lemma settles_reseed url sym params : settles (send_book_reseed renv url sym params).
Proof. settle_run. Qed.
Hint Resolve settles_route_entries settles_reseed : settles.
Lemma settles_wire_close url ev : settles (drive_wire_close renv url ev).
Proof. settle_run. Qed.
Hint Resolve settles_wire_close : settles.
Lemma settles_frame url res :
  settles (handle_frame dcmp crc32 dec_from_str decode_frame renv url res).
Proof. settle_run. Qed.
Hint Resolve settles_frame : settles.

(** *** [ReactorLoop] *)


(** A message that neither registers a subscription nor drops a guard. *)
Definition settling (msg : @CallerInbound Decimal) : bool :=
  match msg with
  | InRegistryMutation _ (RegisterBatch _ _) | InSubscriptionGuardDrop _ _ _ => false
  | _ => true
  end.

Lemma settles_inbound msg : settling msg = true → settles (handle_inbound renv msg).
Proof.
  intros Hm. destruct msg as [url e|id t|url []|ch op|h ch syms|id me op ps|id];
    try discriminate Hm; cbn [handle_inbound]; settle_run.
Qed.

Lemma settles_inbound_arm msg : settling msg = true → settles (inbound_arm renv msg).
Proof.
  intros Hm. destruct msg; try by apply settles_inbound. cbn [inbound_arm]. settle_run.
Qed.
Hint Resolve settles_inbound_arm : settles.

Lemma settles_reissue url deferred : settles (reissue_deferred renv url deferred).
Proof. induction deferred as [|[key p] l IH]; cbn [reissue_deferred]; settle_run. Qed.
Hint Resolve settles_reissue : settles.

Lemma settles_arm_replayed url ch pr id : settles (arm_replayed renv url ch pr id).
Proof. settle_run. Qed.
Hint Resolve settles_arm_replayed : settles.
Lemma settles_upgrade outcome : settles (upgrade_arm renv outcome).
Proof. settle_run. Qed.
Lemma settles_refresh outcome : settles (refresh_arm renv outcome).
Proof. settle_run. Qed.
Lemma settles_timer url ev : settles (timer_arm renv url ev).
Proof. settle_run. Qed.
Lemma settles_sync : settles (sync_liveness renv).
Proof. settle_run. Qed.
Lemma settles_check_close : settles (check_client_close renv).
Proof. settle_run. Qed.
Lemma settles_next_outcome : settles next_outcome.
Proof. intros r. unfold next_outcome. by destruct (outcomes (rx_tokens r)). Qed.
Hint Resolve settles_upgrade settles_refresh settles_timer settles_sync settles_check_close
  settles_next_outcome : settles.

Definition settling_turn (t : @Turn Decimal) : bool :=
  match t with TurnInbound msg => settling msg | _ => true end.

Lemma settles_turn t :
  settling_turn t = true →
  settles (reactor_turn dcmp crc32 dec_from_str decode_frame renv t).
Proof.
  intros Ht. unfold reactor_turn. apply settles_bind; [settle_run|]. intros running.
  apply settles_when, settles_bind; [settle_run|]. intros _.
  apply settles_bind; [|intros; settle_run]. destruct t; cbn [select_arm settling_turn] in *; settle_run.
Qed.
End Quiet.

(** ** What callers make the reactor do *)

Section Messages.
Context {Decimal : Type} (dcmp : Decimal → Decimal → comparison)
  (crc32 : list (string * string) → list (string * string) → N)
  (dec_from_str : string → option Decimal)
  (decode_frame : Json → option RawBookData).
Abbreviation RM := (@Reactor.RM Decimal).
Abbreviation Reactor := (@Reactor.Reactor Decimal).
Abbreviation Registry := (@SubscriptionRegistry Decimal).
Abbreviation Entry := (@SubscriptionEntry Decimal).
Abbreviation reg_op := (reg_op dcmp crc32 dec_from_str decode_frame).
Context (renv : ReactorEnv).
Abbreviation keeps := (settles dcmp crc32 dec_from_str decode_frame no_ops).

Definition reg_ops (ops : list RegOp) (r : Registry) : Registry := foldl (λ r op, reg_op op r) r ops.

(** Exactly these operations, in this order. *)
Definition performs {A} (ops : list RegOp) (m : RM A) (r : Reactor) : Prop :=
  rx_registry (m r).2 = reg_ops ops (rx_registry r).

Lemma performs_keeps {A} (m : RM A) r : keeps m → performs [] m r.
Proof. apply settles_keeps. Qed.

Lemma performs_bind {A B} ops ops' (m : RM A) (k : A → RM B) r :
  performs ops m r → performs ops' (k (m r).1) (m r).2 → performs (ops ++ ops') (mbind k m) r.
Proof.
  unfold performs, reg_ops, mbind, RM_bind. destruct (m r) as [a r1]; cbn.
  intros Hm Hk. by rewrite Hk, Hm, foldl_app.
Qed.

Lemma performs_after {A B} ops (m : RM A) (k : A → RM B) r :
  keeps m → (∀ a r', performs ops (k a) r') → performs ops (mbind k m) r.
Proof. intros Hm Hk. apply (performs_bind [] ops); [by apply performs_keeps|apply Hk]. Qed.

Lemma performs_before {A B} ops (m : RM A) (k : A → RM B) r :
  performs ops m r → (∀ a, keeps (k a)) → performs ops (mbind k m) r.
Proof.
  intros Hm Hk. rewrite <-(app_nil_r ops). apply performs_bind; [exact Hm|].
  by apply performs_keeps.
Qed.

Lemma performs_with {A} op (f : Registry → A * Registry) r :
  (∀ reg, (f reg).2 = reg_op op reg) → performs [op] (with_registry f) r.
Proof.
  intros Hf. unfold performs, with_registry. specialize (Hf (rx_registry r)).
  by destruct (f (rx_registry r)).
Qed.

(** The operations a message stands for; the instants of registrations are the clock's. *)
Definition registers (ref : option HandlerId) (e : Entry) (op : RegOp) : Prop :=
  ∃ now, op = RegRegister (sub_url e) (key_of e) (sub_params e) now ref.

Definition guard_targets (symbols : list Symbol) : list (option Symbol) :=
  match symbols with [] => [None] | _ => map Some symbols end.

Definition guard_keys (channel : ChannelName) (symbols : list Symbol) : list SubKey :=
  map (pair (wire_channel channel)) (guard_targets symbols).

Definition message_ops (msg : @CallerInbound Decimal) (ops : list RegOp) : Prop :=
  match msg with
  | InRegistryMutation _ (RegisterBatch entries ref) => Forall2 (registers ref) entries ops
  | InRegistryMutation _ (Deregister channel pr) => ops = [RegRelease (wire_channel channel, pr)]
  | InRegistryMutation _ (DeregisterBatch channel pairs) =>
      ops = map (λ pr, RegRelease (wire_channel channel, Some pr)) pairs
  | InRegistryMutation _ (DeregisterAll channel) => ops = [RegDeregisterAll (wire_channel <$> channel)]
  | InSubscriptionGuardDrop h channel symbols => ops = map (RegGuardDrop h) (guard_keys channel symbols)
  | _ => ops = []
  end.

(** An entry as the surface makes it, on a wire channel. *)
Definition fresh_entry (e : Entry) : Prop :=
  e = entry_new (sub_url e) (sub_channel e) (sub_pair e) (sub_params e) ∧
  wire_channel (sub_channel e) = sub_channel e.

Definition well_formed_message (msg : @CallerInbound Decimal) : Prop :=
  match msg with
  | InRegistryMutation _ (RegisterBatch entries _) => Forall fresh_entry entries
  | _ => True
  end.

Lemma registry_bind {A B} (m : RM A) (k : A → RM B) r :
  rx_registry (mbind k m r).2 = rx_registry (k (m r).1 (m r).2).2.
Proof. unfold mbind, RM_bind. by destruct (m r). Qed.

Lemma registry_before {A B} (m : RM A) (k : A → RM B) r :
  (∀ a, keeps (k a)) → rx_registry (mbind k m r).2 = rx_registry (m r).2.
Proof. intros Hk. rewrite registry_bind. by apply (settles_keeps dcmp crc32 dec_from_str decode_frame). Qed.

Lemma performs_register_one url e ref r :
  fresh_entry e →
  ∃ op, registers ref e op ∧ performs [op] (register_one_and_emit renv url e ref) r.
Proof.
  intros [He _]. set (now := env_clock (re_env renv) (rx_clock_reads r)).
  exists (RegRegister (sub_url e) (key_of e) (sub_params e) now ref). split; [by exists now|].
  unfold register_one_and_emit, performs. cbv zeta. do 2 rewrite registry_bind.
  rewrite registry_before by (intros; settle_run). cbn [fst rclock]. fold now.
  cbn [reg_ops foldl RegistryInv.reg_op key_of fst snd]. rewrite <-He.
  destruct ref as [h|]; unfold with_registry; cbn;
    change (rx_registry (tick r)) with (rx_registry r); by destruct (register e now _ (rx_registry r)).
Qed.

Lemma performs_batch url entries ref r :
  Forall fresh_entry entries →
  ∃ ops, Forall2 (registers ref) entries ops ∧
         performs ops (register_batch renv url entries ref) r.
Proof.
  unfold register_batch. intros Hf. revert r. induction Hf as [|e entries He _ IH]; intros r.
  - exists []. by split; [constructor|].
  - destruct (performs_register_one url e ref r He) as (op & Hop & Hp). cbn [rfor_each].
    set (m := register_one_and_emit renv url e ref ≫= _).
    destruct (IH (m r).2) as (ops & Hops & Hps). exists (op :: ops). split; [by constructor|].
    apply (performs_bind [op] ops); [|exact Hps].
    apply performs_before; [exact Hp|]. intros []. settle_run.
Qed.

Lemma performs_deregister ch pr r :
  performs [RegRelease (wire_channel ch, pr)] (deregister_one renv ch pr) r.
Proof.
  unfold deregister_one. apply (performs_after _ _ _ r); [settle_run|]. intros reg r'.
  apply performs_before; [by apply performs_with|]. intros. settle_run.
Qed.

Lemma performs_drops h ch targets r :
  performs (map (RegGuardDrop h) (map (pair ch) targets)) (drop_guard_targets renv h ch targets) r.
Proof.
  revert r. induction targets as [|t targets IH]; intros r; cbn [drop_guard_targets map]; [done|].
  apply (performs_bind [RegGuardDrop h (ch, t)]).
  - unfold drop_guard_target. apply performs_after; [settle_run|]. intros reg r'.
    apply performs_before; [by apply performs_with|]. intros. settle_run.
  - apply performs_before; [apply IH|]. intros. settle_run.
Qed.

(** The reactor serves a caller's message by exactly the operations it stands for. *)
Lemma message_served msg r :
  well_formed_message msg →
  ∃ ops, message_ops msg ops ∧ performs ops (inbound_arm renv msg) r.
Proof.
  intros Hm. destruct msg as [url e|id t|url [entries ref|ch pr|ch prs|ch]|ch op|h ch syms|id me op ps|id].
  - exists []. split; [done|]. apply performs_keeps. cbn [inbound_arm handle_inbound]. settle_run.
  - exists []. split; [done|]. apply performs_keeps. cbn [inbound_arm]. settle_run.
  - by apply performs_batch.
  - eexists. split; [reflexivity|]. apply performs_deregister.
  - eexists. split; [reflexivity|]. cbn. clear Hm. revert r. induction prs as [|p prs IH]; intros r; [done|].
    cbn [map rfor_each]. apply (performs_bind [RegRelease (wire_channel ch, Some p)]);
      [apply performs_deregister|apply IH].
  - eexists. split; [reflexivity|]. cbn [inbound_arm handle_inbound]. unfold deregister_everything.
    apply performs_before; [by apply performs_with|]. intros. settle_run.
  - exists []. split; [done|]. apply performs_keeps. cbn [inbound_arm handle_inbound]. settle_run.
  - eexists. split; [reflexivity|]. cbn [inbound_arm handle_inbound]. unfold handle_guard_drop.
    apply performs_after; [settle_run|]. intros [] r'. cbv zeta.
    apply performs_before; [apply performs_drops|]. intros. settle_run.
  - exists []. split; [done|]. apply performs_keeps. cbn [inbound_arm handle_inbound]. settle_run.
  - exists []. split; [done|]. apply performs_keeps. cbn [inbound_arm handle_inbound]. settle_run.
Qed.
End Messages.

(** ** The registry stays well-formed *)

Section Settled.
Context {Decimal : Type} (dcmp : Decimal → Decimal → comparison)
  (crc32 : list (string * string) → list (string * string) → N)
  (dec_from_str : string → option Decimal)
  (decode_frame : Json → option RawBookData).
Abbreviation Reactor := (@Reactor.Reactor Decimal).
Abbreviation Registry := (@SubscriptionRegistry Decimal).
Abbreviation Turn := (@ReactorLoop.Turn Decimal).
Abbreviation reg_op := (reg_op dcmp crc32 dec_from_str decode_frame).
Abbreviation reg_ops := (reg_ops dcmp crc32 dec_from_str decode_frame).
Abbreviation quiet_step := (op_step dcmp crc32 dec_from_str decode_frame is_quiet).
Context (renv : ReactorEnv).
Abbreviation turn := (reactor_turn dcmp crc32 dec_from_str decode_frame renv).

(** Guards that are registered and not dropped. *)
Abbreviation Guards := (gset (HandlerId * SubKey)).

(** [n] registrations so far; the guards alive are recorded. *)
Record settled (n : N) (live : Guards) (reg : Registry) : Prop := {
  st_wf : reg_wf n reg;
  st_wire (k : SubKey) : is_Some (entry reg k) → wire_channel k.1 = k.1;
  st_live (h : HandlerId) (k : SubKey) : (h, k) ∈ live → is_Some (guard_refs reg !! (h, k.1, k.2));
}.

Lemma settled_weaken n n' live live' reg :
  settled n live reg → n ≤ n' → live' ⊆ live → settled n' live' reg.
Proof. intros [W1 W2 W3] Hn Hl. split; [by eapply wf_weaken|done|]. intros. apply W3. set_solver. Qed.

Lemma settled_quiet n live reg reg' :
  n ≤ u32_max → rtc quiet_step reg reg' → settled n live reg → settled n live reg'.
Proof.
  intros Hn. induction 1 as [|reg reg1 reg2 (op & Hq & ->) _ IH]; [done|]. intros [W1 W2 W3].
  apply IH. destruct (quiet_op_store dcmp crc32 dec_from_str decode_frame op reg Hq) as [Hg Hd].
  split; [by apply quiet_op_wf|auto|]. intros h k. rewrite Hg. apply W3.
Qed.

Lemma register_op_store url k params now guard reg :
  let reg' := reg_op (RegRegister url k params now guard) reg in
  (∀ k', is_Some (entry reg' k') ↔ k' = k ∨ is_Some (entry reg k')) ∧
  (∀ key, is_Some (guard_refs reg !! key) → is_Some (guard_refs reg' !! key)) ∧
  (∀ h, guard = Some h → is_Some (guard_refs reg' !! (h, k.1, k.2))).
Proof.
  cbn [RegistryInv.reg_op].
  destruct (register_store (entry_new url k.1 k.2 params) now
    (match guard with Some _ => true | None => false end) reg) as (r1 & -> & He & _ & Hg & _).
  replace (key_of _) with k in * by by destruct k. set (e := registered _ _ _ _ _) in *. cbn [snd].
  set (r2 := if sub_count e =? 1 then _ else r1).
  assert (∀ k', entry r2 k' = if decide (k' = k) then Some e else entry reg k') as He2.
  { intros k'. subst r2. case_match; rewrite ?entry_mirror_write; apply He. }
  assert (guard_refs r2 = guard_refs reg) as Hg2.
  { subst r2. case_match; rewrite ?mirror_write_guard_refs; apply Hg. }
  assert (∀ k', is_Some (entry r2 k') ↔ k' = k ∨ is_Some (entry reg k')) as Hd.
  { intros k'. rewrite He2. case_decide; naive_solver. }
  destruct guard as [h|]; [|by rewrite Hg2].
  unfold record_guard_ref, entry_generation. rewrite He2, decide_True by done. cbn.
  rewrite Hg2. split_and!; [exact Hd|..].
  - intros key. rewrite lookup_insert. case_decide; [by eexists|done].
  - intros h' [= <-]. rewrite lookup_insert_eq. by eexists.
Qed.

Lemma settled_register n live url k params now guard reg :
  n < u32_max → wire_channel k.1 = k.1 → settled n live reg →
  settled (n + 1) (match guard with Some h => {[(h, k)]} ∪ live | None => live end)
    (reg_op (RegRegister url k params now guard) reg).
Proof.
  intros Hn Hw [W1 W2 W3].
  destruct (register_op_store url k params now guard reg) as (Hd & Hg & Hh). split.
  - by apply reg_op_wf.
  - intros k' [->|Hk]%Hd; auto.
  - intros h k' Hin. destruct guard as [h'|]; [|by apply Hg, W3].
    apply elem_of_union in Hin as [[= -> ->]%elem_of_singleton|Hin]; [by apply Hh|by apply Hg, W3].
Qed.

Lemma settled_drop n live (h : HandlerId) (k : SubKey) reg :
  n ≤ u32_max → (h, k) ∈ live → settled n live reg →
  settled n (live ∖ {[(h, k)]}) (reg_op (RegGuardDrop h k) reg).
Proof.
  intros Hn Hin [W1 W2 W3]. cbn [RegistryInv.reg_op].
  assert (op_ok reg (RegGuardDrop h k)) as Hok by (cbn; case_match; auto).
  assert (guard_refs (release_guard_ref h k reg).2 = delete (h, k.1, k.2) (guard_refs reg) ∧
          ∀ k', is_Some (entry (release_guard_ref h k reg).2 k') → is_Some (entry reg k')) as [Hg Hd].
  { unfold release_guard_ref, release_inner. set (r0 := set_guard_refs _ reg).
    destruct (release_slot_store k r0) as [_ Hg].
    assert (∀ k', is_Some (entry (release_slot k r0).2 k') → is_Some (entry reg k')) as Hd
      by (intros k' Hk'; by apply release_slot_dom in Hk').
    repeat case_match; done. }
  split; [by apply release_guard_ref_wf|auto|].
  intros h' k' [Hl Hne]%elem_of_difference. rewrite Hg, lookup_delete_ne; [by apply W3|].
  intros [= -> ? ?]. apply Hne, elem_of_singleton. destruct k, k'. by cbn in *; subst.
Qed.

(** ** What callers post

    A dropped guard was registered by a batch, with the same keys, and is dropped once; an
    entry of a batch is fresh.  [SubscriptionProps] shows the surface posts nothing else. *)

Definition live_after (live : Guards) (t : Turn) : Guards :=
  match t with
  | TurnInbound (InRegistryMutation _ (RegisterBatch entries (Some h))) =>
      list_to_set (map (λ e, (h, key_of e)) entries) ∪ live
  | TurnInbound (InSubscriptionGuardDrop h channel symbols) =>
      live ∖ list_to_set (map (pair h) (guard_keys channel symbols))
  | _ => live
  end.

Definition turn_posted (live : Guards) (t : Turn) : Prop :=
  match t with
  | TurnInbound (InSubscriptionGuardDrop h channel symbols) =>
      NoDup symbols ∧ Forall (λ k, (h, k) ∈ live) (guard_keys channel symbols)
  | TurnInbound msg => well_formed_message msg
  | _ => True
  end.

Fixpoint well_posted (live : Guards) (ts : list Turn) : Prop :=
  match ts with
  | [] => True
  | t :: ts => turn_posted live t ∧ well_posted (live_after live t) ts
  end.

Definition registered_by (t : Turn) : N :=
  match t with
  | TurnInbound (InRegistryMutation _ (RegisterBatch entries _)) => N.of_nat (length entries)
  | _ => 0
  end.

Fixpoint registrations (ts : list Turn) : N :=
  match ts with [] => 0 | t :: ts => registered_by t + registrations ts end.

Lemma settled_quiet_ops n live reg ops :
  n ≤ u32_max → Forall (λ op, is_quiet op = true) ops → settled n live reg →
  settled n live (reg_ops ops reg).
Proof.
  intros Hn Hops. revert reg. induction Hops as [|op ops Hq _ IH]; intros reg Hs; [done|].
  apply IH. eapply settled_quiet; [done|apply rtc_once; by exists op|done].
Qed.

Lemma settled_batch n live (entries : list (@SubscriptionEntry Decimal)) ref ops reg :
  Forall2 (registers ref) entries ops → Forall fresh_entry entries →
  n + N.of_nat (length entries) ≤ u32_max → settled n live reg →
  settled (n + N.of_nat (length entries))
    (match ref with
     | Some h => list_to_set (map (λ e, (h, key_of e)) entries) ∪ live
     | None => live
     end) (reg_ops ops reg).
Proof.
  intros Hops. revert n live reg.
  induction Hops as [|e op entries ops [now ->] _ IH]; intros n live reg Hf Hn Hs.
  { eapply settled_weaken; [exact Hs|cbn; lia|]. destruct ref; cbn; set_solver. }
  apply Forall_cons in Hf as [[_ Hw] Hf]. cbn [length] in *.
  eapply settled_weaken; [apply (IH (n + 1)); [done| |]|lia|].
  - lia.
  - apply (settled_register n live); [lia|exact Hw|exact Hs].
  - destruct ref; cbn; set_solver.
Qed.

Lemma settled_drops n live h keys reg :
  n ≤ u32_max → NoDup keys → Forall (λ k, (h, k) ∈ live) keys → settled n live reg →
  settled n (live ∖ list_to_set (map (pair h) keys)) (reg_ops (map (RegGuardDrop h) keys) reg).
Proof.
  intros Hn Hnd. revert live reg. induction Hnd as [|k keys Hk _ IH]; intros live reg Hin Hs.
  { eapply settled_weaken; [exact Hs|lia|set_solver]. }
  apply Forall_cons in Hin as [Hin Hrest].
  eapply settled_weaken; [apply (IH (live ∖ {[(h, k)]}))|lia|cbn; set_solver].
  - rewrite Forall_forall in *. intros k' Hk'. apply elem_of_difference.
    split; [by apply Hrest|]. intros [= ->]%elem_of_singleton. done.
  - by apply settled_drop.
Qed.

Lemma guard_keys_NoDup channel symbols : NoDup symbols → NoDup (guard_keys channel symbols).
Proof.
  intros Hs. unfold guard_keys, guard_targets. destruct symbols; [apply NoDup_singleton|].
  by do 2 (apply NoDup_fmap_2; [intros ? ? [=]; done|]).
Qed.

Lemma settled_message n live msg ops reg :
  turn_posted live (TurnInbound msg) → message_ops msg ops →
  n + registered_by (TurnInbound msg) ≤ u32_max → settled n live reg →
  settled (n + registered_by (TurnInbound msg)) (live_after live (TurnInbound msg))
    (reg_ops ops reg).
Proof.
  intros Hp Ho Hn Hs.
  destruct msg as [url e|id t|url [entries ref|ch pr|ch prs|ch]|ch op|h ch syms|id me op ps|id];
    cbn [turn_posted message_ops registered_by live_after] in *; rewrite ?N.add_0_r in *.
  3: { pose proof (settled_batch n live entries ref ops reg Ho Hp Hn Hs) as H. by destruct ref. }
  7: { destruct Hp as [Hnd Hall]. subst ops.
       by apply settled_drops; [|apply guard_keys_NoDup| |]. }
  all: subst ops; apply settled_quiet_ops; try done; repeat constructor.
  by apply Forall_fmap, Forall_true.
Qed.

(** ** Turns *)

Definition settled_at (n : N) (live : Guards) (r : Reactor) : Prop :=
  settled n (if rx_running r then live else ∅) (rx_registry r).

Lemma settled_turn n live t r :
  turn_posted live t → n + registered_by t ≤ u32_max → settled_at n live r →
  settled_at (n + registered_by t) (live_after live t) (turn t r).2.
Proof.
  unfold settled_at. intros Hp Hn Hs. destruct (rx_running r) eqn:Hr.
  2: { assert ((turn t r).2 = r) as ->.
       { unfold reactor_turn, mbind, RM_bind, rgets. by rewrite Hr. }
       rewrite Hr. eapply settled_weaken; [exact Hs|lia|done]. }
  enough (settled (n + registered_by t) (live_after live t) (rx_registry (turn t r).2)) as H.
  { eapply settled_weaken; [exact H|lia|]. destruct (rx_running (turn t r).2); [reflexivity|apply empty_subseteq]. }
  destruct t as [msg| | | | | |];
    try (cbn [registered_by live_after turn_posted] in *; rewrite N.add_0_r; eapply settled_quiet; [lia|by apply settles_turn|exact Hs]).
  unfold reactor_turn. rewrite registry_bind. cbn [fst snd rgets]. rewrite Hr. cbn [rwhen].
  rewrite registry_bind. set (r1 := (sync_liveness renv r).2).
  assert (settled n live (rx_registry r1)) as Hs1.
  { eapply settled_quiet; [lia|apply settles_sync|exact Hs]. }
  clearbody r1. clear Hs. rewrite registry_bind. cbn [select_arm].
  eapply settled_quiet; [lia|apply settles_when, settles_check_close|].
  rewrite registry_bind. cbn [snd mret RM_ret].
  destruct (message_served dcmp crc32 dec_from_str decode_frame renv msg r1) as (ops & Ho & Hperf).
  { destruct msg as [| |? []| | | |]; try exact I. exact Hp. }
  unfold performs in Hperf. rewrite Hperf. by apply settled_message.
Qed.

Lemma settled_turns n live ts r :
  well_posted live ts → n + registrations ts ≤ u32_max → settled_at n live r →
  ∃ live', settled_at (n + registrations ts) live'
             (run_turns dcmp crc32 dec_from_str decode_frame renv ts r).2.
Proof.
  unfold run_turns. revert n live r.
  induction ts as [|t ts IH]; intros n live r; cbn [registrations well_posted rfor_each].
  { intros _ _ Hs. exists live. by rewrite N.add_0_r. }
  intros [Hp Hps] Hn Hs.
  destruct (IH (n + registered_by t) (live_after live t) (turn t r).2) as [live' H];
    [done|lia|by apply settled_turn; [|lia|]|].
  exists live'. rewrite N.add_assoc. unfold mbind, RM_bind.
  by destruct (turn t r) as [[] r1].
Qed.

Lemma settled_start budget tokens next_request_id :
  settled_at 0 ∅ (reactor_new (Decimal := Decimal) renv budget tokens next_request_id).
Proof.
  split; cbn; [apply registry_new_wf| |set_solver]. intros [ch [sym|]] [e He]; done.
Qed.

Lemma registry_settled budget tokens next_request_id ts :
  well_posted ∅ ts → registrations ts ≤ u32_max →
  ∃ live, settled (registrations ts) live
            (rx_registry (run_turns dcmp crc32 dec_from_str decode_frame renv ts
                            (reactor_new renv budget tokens next_request_id)).2).
Proof.
  intros Hp Hn.
  destruct (settled_turns 0 ∅ ts _ Hp Hn (settled_start budget tokens next_request_id)) as [live H].
  eexists. exact H.
Qed.

(** C24: Whatever the turns of the reactor, its registry is well-formed: the mirror the readers
    see has exactly the entries with their states, an entry sits under its own key, on a wire
    channel, is counted by at least one holder and stands for every guard recorded for it.
    Callers are assumed to post what the surface posts: fresh entries, and the drop of a
    guard once, after its registration and with its keys; with fewer than 2^32
    registrations. *)
Theorem running_registry_wellformed budget tokens next_request_id ts :
  well_posted ∅ ts → registrations ts ≤ u32_max →
  let reg := rx_registry (run_turns dcmp crc32 dec_from_str decode_frame renv ts
                            (reactor_new renv budget tokens next_request_id)).2 in
  (∀ k, row_state <$> mirror reg !! k = sub_state <$> entry reg k) ∧
  (∀ k e, entry reg k = Some e →
     key_of e = k ∧ wire_channel k.1 = k.1 ∧ 1 ≤ holders e ∧
     (sub_count e = 0 ↔ is_tombstone e = true) ∧
     guard_refs_at reg k (sub_generation e) ≤ holders e).
Proof.
  intros Hp Hn reg.
  destruct (registry_settled budget tokens next_request_id ts Hp Hn) as [live [Hwf Hwire _]].
  fold reg in Hwf, Hwire. split; [apply Hwf|]. intros k e He.
  destruct (wf_entries _ _ Hwf _ _ He) as (K1 & K2 & K3 & K4 & K5).
  rewrite guard_refs_at_rows by (pose proof (wf_size _ _ Hwf); lia).
  split_and!; [done|by apply Hwire; eexists|..].
  all: unfold holders in *; destruct (is_tombstone e); try lia; split; try done; lia.
Qed.
End Settled.

(** ** A run: two tickers under a guard, a bare book, and the guard dropped *)

Definition ticker_entry (sym : Symbol) : @SubscriptionEntry N :=
  entry_new Public Ticker (Some sym) (PTicker None None).
Definition book_entry (sym : Symbol) : @SubscriptionEntry N :=
  entry_new Public Types.Book (Some sym) (PBook D10).

Definition guarded_run : list (@Turn N) :=
  (dial Public ++
   [TurnInbound (InRegistryMutation Public
      (RegisterBatch [ticker_entry "BTC/USD"; ticker_entry "ETH/USD"] (Some 7)));
    TurnInbound (InRegistryMutation Public (RegisterBatch [book_entry "BTC/USD"] None));
    TurnInbound (InSubscriptionGuardDrop 7 Ticker ["BTC/USD"; "ETH/USD"])])%list%string.

Definition registry_after (ts : list (@Turn N)) : @SubscriptionRegistry N :=
  rx_registry (after (λ _, SendAccepted) ts).

Lemma guarded_run_posted : well_posted ∅ guarded_run.
Proof.
  unfold guarded_run, dial. cbn -[guard_keys]. split_and!; try done.
  - by repeat constructor.
  - by repeat constructor.
  - apply (bool_decide_unpack _). by vm_compute.
  - apply (bool_decide_unpack _). by vm_compute.
Qed.

Lemma running_registry_wellformed_witness :
  map fst (map_to_list (mirror (registry_after guarded_run))) = [(Types.Book, Some "BTC/USD"%string)] ∧
  sub_count <$> entry (registry_after guarded_run) (Types.Book, Some "BTC/USD"%string) = Some 1 ∧
  row_state <$> mirror (registry_after guarded_run) !! (Types.Book, Some "BTC/USD"%string) =
  sub_state <$> entry (registry_after guarded_run) (Types.Book, Some "BTC/USD"%string).
Proof.
  split; [by vm_compute|]. split; [by vm_compute|].
  apply (running_registry_wellformed N.compare (λ _ _, 0) (λ _, None) (λ _, None)
    (renv_ms (λ _, SendAccepted)) (with_knobs 100 600000000000) token_held 1 guarded_run
    guarded_run_posted).
  by vm_compute.
Defined.
