(* ===== verification/SubscriptionSurface.v ===== *)
(** * SubscriptionSurface: registering, subscribing and listing

    [rust/src/api/ws_surface/mod.rs] beside the requests of [WsSurface],
    [api/subscription_namespace.rs], [api/subscription_guard.rs], the errors and read models
    of [api/subscription_types.rs], and the handlers of [api/market/ws.rs] and
    [api/account/ws.rs].  A call is a program of critical sections over what the surface
    shares with the reactor and other callers; between two of them the others do anything.
    A handler's callback is a number, a guard's bus is alive. *)

From Stdlib Require Import Ascii String.
From stdpp Require Import sorting.
From S2P Require Import Prelude F64 Types Events Errors Rest Registry Handlers Teardowns Reactor ReactorLoop.
Local Open Scope string_scope.
Local Open Scope N_scope.

(** ** [subscription_types.rs] *)

Inductive SubscriptionError :=
  | NoHandlerRegistered (channel : ChannelName)
  | SubQueueFull
  | SubClientClosed
  | SubLoopDead
  | SubNotImplemented (method : string)
  | SubUnknown (kraken_code kraken_message : string).

Definition subscription_error_code (e : SubscriptionError) : string :=
  match e with
  | NoHandlerRegistered _ => "INVALID_ARGUMENTS"
  | SubQueueFull => "QUEUE_FULL"
  | SubClientClosed => "CLIENT_CLOSED"
  | SubLoopDead => "LOOP_DEAD"
  | SubNotImplemented _ => "NOT_IMPLEMENTED"
  | SubUnknown _ _ => "UNKNOWN"
  end.

Definition subscription_error_category (e : SubscriptionError) : ErrorCategory :=
  match e with SubUnknown _ _ => CatExchange | _ => CatClient end.

Definition subscription_error_retryable (e : SubscriptionError) : bool :=
  match e with SubQueueFull => true | _ => false end.

Record SubscriptionInfo := mkInfo {
  si_channel : ChannelName;
  si_pair : option Symbol;
  si_state : SubscriptionState;
}.

Record SubscriptionRef := mkRef {
  sr_channel : ChannelName;
  sr_symbol : option Symbol;
  sr_state : SubscriptionState;
  sr_registered_at_ms : N;
}.

Record SubscriptionsSummary := mkSummary {
  ss_total : N;
  ss_active : N;
  ss_pending : N;
  ss_failed : N;
  ss_by_channel : gmap ChannelName N;
}.

(** ** Read models *)

(** Auth URL for executions and balances; public otherwise. *)
Definition ws_url_for (channel : ChannelName) : WsUrl :=
  match channel with Executions | Balances => Auth | _ => Public end.

(** A live row of a failed connection has failed; its own failure wins. *)
Definition project_with_connection (conn_failed : bool * bool) (channel : ChannelName)
  (state : SubscriptionState) : SubscriptionState :=
  match state with
  | StFailed _ => state
  | _ =>
      let failed := match ws_url_for channel with Public => conn_failed.1 | Auth => conn_failed.2 end in
      if failed : bool then StFailed FailureConnectionFailed else state
  end.

Definition row_projection (conn_failed : bool * bool) (row : SubKey * MirrorRow)
  : SubscriptionState :=
  project_with_connection conn_failed row.1.1 (project_state (row_state row.2)).

(** [sort_by(subscription_order)], which is stable. *)
Definition sort_rows {A} (key : A → SubKey) : list A → list A :=
  merge_sort (λ a b, order_le (key a) (key b)).

Definition info_key (i : SubscriptionInfo) : SubKey := (si_channel i, si_pair i).
Definition ref_key (r : SubscriptionRef) : SubKey := (sr_channel r, sr_symbol r).

Definition info_of (conn_failed : bool * bool) (row : SubKey * MirrorRow) : SubscriptionInfo :=
  mkInfo row.1.1 row.1.2 (row_projection conn_failed row).

(** [list_active] on the rows of the mirror, in the order of the map. *)
Definition active_rows (conn_failed : bool * bool) (rows : list (SubKey * MirrorRow))
  : list SubscriptionInfo :=
  sort_rows info_key (map (info_of conn_failed) rows).

Definition ref_of (conn_failed : bool * bool) (row : SubKey * MirrorRow) : SubscriptionRef :=
  mkRef row.1.1 row.1.2 (row_projection conn_failed row) (row_registered_at row.2 / 1000000).

Definition channel_rows (conn_failed : bool * bool) (channel : ChannelName)
  (rows : list (SubKey * MirrorRow)) : list SubscriptionRef :=
  sort_rows ref_key
    (map (ref_of conn_failed) (filter (λ row, row.1.1 = wire_channel channel) rows)).

Definition count_row (conn_failed : bool * bool) (s : SubscriptionsSummary)
  (row : SubKey * MirrorRow) : SubscriptionsSummary :=
  let by_channel :=
    <[row.1.1 := u32_wrapping_add (default 0 (ss_by_channel s !! row.1.1)) 1]> (ss_by_channel s) in
  let total := u32_wrapping_add (ss_total s) 1 in
  match row_projection conn_failed row with
  | StActive =>
      mkSummary total (u32_wrapping_add (ss_active s) 1) (ss_pending s) (ss_failed s) by_channel
  | StPending =>
      mkSummary total (ss_active s) (u32_wrapping_add (ss_pending s) 1) (ss_failed s) by_channel
  | StFailed _ =>
      mkSummary total (ss_active s) (ss_pending s) (u32_wrapping_add (ss_failed s) 1) by_channel
  end.

Definition summary_of (conn_failed : bool * bool) (rows : list (SubKey * MirrorRow))
  : SubscriptionsSummary :=
  fold_left (count_row conn_failed) rows (mkSummary 0 0 0 0 ∅).

(** Keep the first of equal pairs. *)
Fixpoint retain_first (seen : gset Symbol) (pairs : list Symbol) : list Symbol :=
  match pairs with
  | [] => []
  | p :: pairs =>
      if decide (p ∈ seen) then retain_first seen pairs
      else p :: retain_first ({[p]} ∪ seen) pairs
  end.

(** ** Calls *)

Section Surface.
Context {Decimal : Type} {Q : Type} `{Channel Q (@CallerInbound Decimal)}.
Abbreviation Item := (@CallerInbound Decimal).
Abbreviation Entry := (@SubscriptionEntry Decimal).

(** What a call shares with the reactor and the other callers. *)
Record Surface := mkSurface {
  sf_posts : TeardownState Q Item;
  sf_loop_failed : bool;
  sf_shutting_down : bool;
  sf_presence : PresenceMirror;
  sf_next_handler_id : N;
  sf_mirror : gmap SubKey MirrorRow;
  sf_mirror_poisoned : bool;
  sf_conn_state : WsUrl → ConnectionState;
}.

Definition set_posts (p : TeardownState Q Item) (s : Surface) : Surface :=
  mkSurface p (sf_loop_failed s) (sf_shutting_down s) (sf_presence s) (sf_next_handler_id s)
    (sf_mirror s) (sf_mirror_poisoned s) (sf_conn_state s).
Definition set_presence (m : PresenceMirror) (s : Surface) : Surface :=
  mkSurface (sf_posts s) (sf_loop_failed s) (sf_shutting_down s) m (sf_next_handler_id s)
    (sf_mirror s) (sf_mirror_poisoned s) (sf_conn_state s).
Definition set_next_handler_id (n : N) (s : Surface) : Surface :=
  mkSurface (sf_posts s) (sf_loop_failed s) (sf_shutting_down s) (sf_presence s) n
    (sf_mirror s) (sf_mirror_poisoned s) (sf_conn_state s).

(** What a call did and saw. *)
Inductive SurfaceAct :=
  | Posted (item : Item)
  | PostRefused (item : Item) (reason : PostReject)
  | TeardownGiven (item : Item)
  | SawLoopFailed (b : bool)
  | SawHandlers (channel : ChannelName) (b : bool)
  | HandlerCounted (channel : ChannelName)
  | HandlerUncounted (channel : ChannelName).

Record CallWorld := mkCall {
  cw_surface : Surface;
  cw_tick : nat;
  cw_log : list SurfaceAct;
}.

Definition Call (A : Type) : Type := CallWorld → A * CallWorld.

#[export] Instance Call_ret : MRet Call := λ A a w, (a, w).
#[export] Instance Call_bind : MBind Call := λ A B k m w, let '(a, w) := m w in k a w.

(** The steps of the others before a critical section. *)
Context (others : nat → Surface → Surface).

Definition critical {A} (f : Surface → A * list SurfaceAct * Surface) : Call A := λ w,
  let '(a, acts, s) := f (others (cw_tick w) (cw_surface w)) in
  (a, mkCall s (S (cw_tick w)) (cw_log w ++ acts)).

Definition is_loop_failed : Call bool :=
  critical (λ s, (sf_loop_failed s, [SawLoopFailed (sf_loop_failed s)], s)).

Definition has_handlers (channel : ChannelName) : Call bool :=
  critical (λ s, let b := presence_has_handlers (sf_presence s) channel in
                 (b, [SawHandlers channel b], s)).

Definition flush : Call () :=
  critical (λ s, (tt, [], set_posts (flush_pending_teardowns (sf_posts s)) s)).

(** [None] when the item is queued. *)
Definition post (item : Item) : Call (option PostReject) :=
  critical (λ s,
    let '(r, p) := try_post_caller_inbound_recovering_kind item (sf_posts s) in
    (snd <$> r,
     [match r with None => Posted item | Some (_, reason) => PostRefused item reason end],
     set_posts p s)).

Definition give_teardown (item : Item) : Call () :=
  critical (λ s, (tt, [TeardownGiven item], set_posts (post_teardown item (sf_posts s)) s)).

Definition next_handler_id : Call HandlerId :=
  critical (λ s, (sf_next_handler_id s, [],
                  set_next_handler_id (u64_wrapping_add (sf_next_handler_id s) 1) s)).

Definition count_handler (channel : ChannelName) : Call () :=
  critical (λ s, (tt, [HandlerCounted channel],
                  set_presence (mirror_increment channel (sf_presence s)) s)).

Definition uncount_handler (channel : ChannelName) : Call () :=
  critical (λ s, (tt, [HandlerUncounted channel],
                  set_presence (mirror_decrement channel (sf_presence s)) s)).

(** Loop death outranks closed. *)
Definition post_reject_to_error (reason : PostReject) : Call SubscriptionError :=
  match reason with
  | RejectFull => mret SubQueueFull
  | RejectClosed => failed ← is_loop_failed;
                    mret (if failed : bool then SubLoopDead else SubClientClosed)
  end.

(** Post, with the refusal as an error. *)
Definition post_or_error (item : Item) : Call (SubscriptionError + ()) :=
  refused ← post item;
  match refused with
  | None => mret (inr tt)
  | Some reason => e ← post_reject_to_error reason; mret (inl e)
  end.

(** ** Handlers *)

Definition register_handler_id_checked (channel : ChannelName) (cb : N)
  : Call ((HandlerId * SubscriptionError) + HandlerId) :=
  flush;;
  id ← next_handler_id;
  count_handler channel;;
  refused ← post (InHandlerMutation channel (HandlerRegister id cb));
  match refused with
  | None => mret (inr id)
  | Some reason =>
      uncount_handler channel;;
      e ← post_reject_to_error reason;
      mret (inl (id, e))
  end.

Definition register_handler_id (channel : ChannelName) (cb : N) : Call HandlerId :=
  r ← register_handler_id_checked channel cb;
  mret (match r with inl (id, _) => id | inr id => id end).

Record HandlerHandle := mkHandle { hh_id : HandlerId; hh_channel : ChannelName }.

Definition register_handler (channel : ChannelName) (cb : N) : Call HandlerHandle :=
  id ← register_handler_id channel cb; mret (mkHandle id channel).

Definition surface_deregister_handler (channel : ChannelName) (id : HandlerId) : Call () :=
  give_teardown (InHandlerMutation channel (HandlerDeregister id)).

(** [Drop] of a handle. *)
Definition handle_drop (h : HandlerHandle) : Call () :=
  give_teardown (InHandlerMutation (hh_channel h) (HandlerDeregister (hh_id h))).

(** ** Subscribing *)

Definition subscribe_entries (channel : ChannelName) (pairs : list Symbol)
  (params : SubscribeParams) : list Entry :=
  let url := ws_url_for channel in
  match pairs with
  | [] => [entry_new url channel None params]
  | _ => map (λ p, entry_new url channel (Some p) params) pairs
  end.

Definition subscribe_with_ref (channel : ChannelName) (pairs : list Symbol)
  (params : SubscribeParams) (ref_id : option HandlerId) : Call (SubscriptionError + ()) :=
  failed ← is_loop_failed;
  if failed : bool then mret (inl SubLoopDead)
  else
    flush;;
    post_or_error (InRegistryMutation (ws_url_for channel)
                     (RegisterBatch (subscribe_entries channel pairs params) ref_id)).

Definition subscribe (channel : ChannelName) (pairs : list Symbol) (params : SubscribeParams)
  : Call (SubscriptionError + ()) :=
  subscribe_with_ref channel pairs params None.

Record SubscriptionGuard := mkGuard {
  sg_handler_id : HandlerId;
  sg_channel : ChannelName;
  sg_pairs : list Symbol;
}.

Definition register_and_subscribe_guarded (channel : ChannelName) (pairs : list Symbol)
  (params : SubscribeParams) (cb : N) : Call (SubscriptionError + SubscriptionGuard) :=
  r ← register_handler_id_checked channel cb;
  match r with
  | inl (_, e) => mret (inl e)
  | inr id =>
      r ← subscribe_with_ref (wire_channel channel) pairs params (Some id);
      match r with
      | inl e => surface_deregister_handler channel id;; mret (inl e)
      | inr _ => mret (inr (mkGuard id channel pairs))
      end
  end.

(** [Drop] of a guard. *)
Definition guard_drop (g : SubscriptionGuard) : Call () :=
  give_teardown (InSubscriptionGuardDrop (sg_handler_id g) (sg_channel g) (sg_pairs g)).

(** ** Unsubscribing *)

Definition unsubscribe_one (url : WsUrl) (channel : ChannelName) (pair : option Symbol)
  : Call (SubscriptionError + ()) :=
  post_or_error (InRegistryMutation url (Deregister channel pair)).

Definition unsubscribe (channel : ChannelName) (pairs : list Symbol)
  : Call (SubscriptionError + ()) :=
  failed ← is_loop_failed;
  if failed : bool then mret (inl SubLoopDead)
  else
    flush;;
    let url := ws_url_for channel in
    match pairs with
    | [] => unsubscribe_one url channel None
    | _ => post_or_error (InRegistryMutation url (DeregisterBatch channel pairs))
    end.

Definition post_deregister_all (channel : option ChannelName) : Call (SubscriptionError + ()) :=
  post_or_error (InRegistryMutation Public (DeregisterAll channel)).

Definition unsubscribe_channel (channel : ChannelName) : Call (SubscriptionError + ()) :=
  failed ← is_loop_failed;
  if failed : bool then mret (inl SubLoopDead)
  else flush;; post_deregister_all (Some channel).

Definition unsubscribe_all : Call (SubscriptionError + ()) :=
  failed ← is_loop_failed;
  if failed : bool then mret (inl SubLoopDead)
  else flush;; post_deregister_all None.

(** ** Listing *)

Definition conn_failed (url : WsUrl) : Call bool :=
  critical (λ s, (bool_decide (sf_conn_state s url = Failed), [], s)).

Definition conn_failed_sample : Call (bool * bool) :=
  pub ← conn_failed Public; auth ← conn_failed Auth; mret (pub, auth).

(** The rows under the read lock. *)
Definition read_model_mirror : Call (SubscriptionError + list (SubKey * MirrorRow)) :=
  failed ← is_loop_failed;
  if failed : bool then mret (inl SubLoopDead)
  else
    closing ← critical (λ s, (sf_shutting_down s, [], s));
    if closing : bool then mret (inl SubClientClosed)
    else critical (λ s, (if sf_mirror_poisoned s then inl SubLoopDead
                         else inr (map_to_list (sf_mirror s)), [], s)).

Definition read_rows {A} (f : bool * bool → list (SubKey * MirrorRow) → A)
  : Call (SubscriptionError + A) :=
  sample ← conn_failed_sample;
  rows ← read_model_mirror;
  mret (match rows with inl e => inl e | inr rows => inr (f sample rows) end).

Definition list_active : Call (SubscriptionError + list SubscriptionInfo) :=
  read_rows active_rows.

Definition find_by_channel (channel : ChannelName)
  : Call (SubscriptionError + list SubscriptionRef) :=
  read_rows (λ sample, channel_rows sample channel).

Definition status_summary : Call (SubscriptionError + SubscriptionsSummary) :=
  read_rows summary_of.

(** ** [SubscriptionNamespace] *)

Definition gate (channel : ChannelName) : Call (SubscriptionError + ()) :=
  failed ← is_loop_failed;
  if failed : bool then mret (inl SubLoopDead)
  else
    registered ← has_handlers channel;
    mret (if registered : bool then inr tt else inl (NoHandlerRegistered channel)).

(** [gate(handlers)?; subscribe(channel, pairs, params)] *)
Definition gated (handlers channel : ChannelName) (pairs : list Symbol) (params : SubscribeParams)
  : Call (SubscriptionError + ()) :=
  r ← gate handlers;
  match r with
  | inl e => mret (inl e)
  | inr _ => subscribe channel pairs params
  end.

Definition subscribe_ticker (pairs : list Symbol) (snapshot : option bool)
  (event_trigger : option TickerTrigger) : Call (SubscriptionError + ()) :=
  gated Ticker Ticker pairs (PTicker snapshot event_trigger).
Definition subscribe_book (pairs : list Symbol) (depth : BookDepth)
  : Call (SubscriptionError + ()) :=
  gated Types.Book Types.Book pairs (PBook depth).
Definition subscribe_book_raw (pairs : list Symbol) (depth : BookDepth) (snapshot : option bool)
  : Call (SubscriptionError + ()) :=
  gated BookRaw Types.Book pairs (PBookRaw depth snapshot).
Definition subscribe_trade (pairs : list Symbol) (snapshot : option bool)
  : Call (SubscriptionError + ()) :=
  gated Trade Trade pairs (PTrade snapshot).
Definition subscribe_ohlc (pairs : list Symbol) (interval : OhlcInterval)
  (snapshot : option bool) : Call (SubscriptionError + ()) :=
  gated Ohlc Ohlc pairs (POhlc interval snapshot).
Definition subscribe_system_status : Call (SubscriptionError + ()) :=
  gated Status Status [] PStatus.
Definition subscribe_executions : Call (SubscriptionError + ()) :=
  gated Executions Executions [] PExecutions.
Definition subscribe_balances : Call (SubscriptionError + ()) :=
  gated Balances Balances [] PBalances.

Definition unsubscribe_ticker (pairs : list Symbol) := unsubscribe Ticker pairs.
Definition unsubscribe_book (pairs : list Symbol) := unsubscribe Types.Book pairs.
Definition unsubscribe_book_raw (pairs : list Symbol) := unsubscribe Types.Book pairs.
Definition unsubscribe_trade (pairs : list Symbol) := unsubscribe Trade pairs.
Definition unsubscribe_ohlc (pairs : list Symbol) (interval : OhlcInterval) :=
  unsubscribe Ohlc pairs.
Definition unsubscribe_system_status := unsubscribe Status [].
Definition unsubscribe_executions := unsubscribe Executions [].
Definition unsubscribe_balances := unsubscribe Balances [].

(** ** [market/ws.rs] and [account/ws.rs] *)

Definition on_ticker (cb : N) := register_handler Ticker cb.
Definition on_book (cb : N) := register_handler Types.Book cb.
Definition on_book_raw (cb : N) := register_handler BookRaw cb.
Definition on_trade (cb : N) := register_handler Trade cb.
Definition on_ohlc (cb : N) := register_handler Ohlc cb.
Definition on_system_status (cb : N) := register_handler Status cb.
Definition on_executions (cb : N) := register_handler Executions cb.
Definition on_balances (cb : N) := register_handler Balances cb.

(** The callback is wrapped to fire only for the pairs. *)
Definition register_and_subscribe (wrap : list Symbol → N) (channel : ChannelName)
  (pairs : list Symbol) (params : SubscribeParams)
  : Call (SubscriptionError + SubscriptionGuard) :=
  let pairs := retain_first ∅ pairs in
  register_and_subscribe_guarded channel pairs params (wrap pairs).

Definition on_ticker_for (pairs : list Symbol) (snapshot : option bool)
  (event_trigger : option TickerTrigger) (wrap : list Symbol → N) :=
  register_and_subscribe wrap Ticker pairs (PTicker snapshot event_trigger).
Definition on_book_for (pairs : list Symbol) (depth : BookDepth) (wrap : list Symbol → N) :=
  register_and_subscribe wrap Types.Book pairs (PBook depth).
Definition on_book_raw_for (pairs : list Symbol) (depth : BookDepth) (snapshot : option bool)
  (wrap : list Symbol → N) :=
  register_and_subscribe wrap BookRaw pairs (PBookRaw depth snapshot).
Definition on_trade_for (pairs : list Symbol) (snapshot : option bool) (wrap : list Symbol → N) :=
  register_and_subscribe wrap Trade pairs (PTrade snapshot).
Definition on_ohlc_for (pairs : list Symbol) (interval : OhlcInterval) (snapshot : option bool)
  (wrap : list Symbol → N) :=
  register_and_subscribe wrap Ohlc pairs (POhlc interval snapshot).
Definition on_executions_for (cb : N) :=
  register_and_subscribe_guarded Executions [] PExecutions cb.
Definition on_balances_for (cb : N) :=
  register_and_subscribe_guarded Balances [] PBalances cb.
End Surface.
Arguments Surface : clear implicits.
Arguments SurfaceAct : clear implicits.
Arguments CallWorld : clear implicits.
