(* ===== verification/SubscriptionProps.v ===== *)
(** * SubscriptionProps: what subscribing and listing promise

    A call posts one well-formed message or reports why it posted nothing; the read models
    show exactly the entries of the running registry. *)

From Stdlib Require Import Ascii String Sorted.
From stdpp Require Import sorting.
From S2P Require Import Prelude F64 Types Events Errors RateBudget Rest Book Connection TokenLifecycle Registry RegistryInv Replay Handlers Teardowns Reactor ReactorLoop ReactorProps ReactorRegistry SubscriptionSurface.
Local Open Scope N_scope.

(** ** Sorted rows *)

Section Sorting.
Context {A : Type} (key : A → SubKey).

Lemma sort_rows_perm l : sort_rows key l ≡ₚ l.
Proof. apply merge_sort_Permutation. Qed.

Lemma sort_rows_sorted l : StronglySorted (λ a b, order_le (key a) (key b)) (sort_rows key l).
Proof.
  apply StronglySorted_merge_sort.
  - intros a b c. apply order_le_trans.
  - intros a b. apply order_le_total.
Qed.
End Sorting.

Lemma NoDup_map_filter {A B} (f : A → B) (P : A → Prop) `{!∀ x, Decision (P x)} l :
  NoDup (map f l) → NoDup (map f (filter P l)).
Proof.
  induction l as [|a l IH]; [done|]. rewrite filter_cons. intros [Ha Hl]%NoDup_cons.
  case_decide; [|by apply IH]. cbn. constructor; [|by apply IH].
  intros (b & Hb & Hin)%list_elem_of_fmap. apply list_elem_of_filter in Hin as [_ Hin].
  apply Ha. rewrite Hb. by apply list_elem_of_fmap_2.
Qed.

(** On wire channels the order tells keys apart. *)
Lemma order_cmp_eq (a b : SubKey) :
  wire_channel a.1 = a.1 → wire_channel b.1 = b.1 → order_cmp a b = Eq → a = b.
Proof.
  destruct a as [ca sa], b as [cb sb]. cbn [fst]. intros Ha Hb. unfold order_cmp. cbn.
  destruct (bool_cmp _ _); cbn; try discriminate.
  destruct (String.compare (channel_str ca) (channel_str cb)) eqn:Ec; try discriminate. cbn.
  apply String.compare_eq_iff in Ec. intros Es. f_equal.
  - destruct ca, cb; try discriminate Ec; try discriminate Ha; try discriminate Hb; reflexivity.
  - destruct sa as [x|], sb as [y|]; try discriminate Es; [|done].
    cbn in Es. by apply String.compare_eq_iff in Es as ->.
Qed.

Definition wire_keyed {A} (key : A → SubKey) (l : list A) : Prop :=
  Forall (λ a, wire_channel (key a).1 = (key a).1) l ∧ NoDup (map key l).

Lemma wire_keyed_perm {A} (key : A → SubKey) l l' : l ≡ₚ l' → wire_keyed key l → wire_keyed key l'.
Proof. intros Hp [H1 H2]. split; by rewrite <-Hp. Qed.

Lemma wire_keyed_strict {A} (key : A → SubKey) l :
  wire_keyed key l → StronglySorted (λ a b, order_le (key a) (key b)) l →
  StronglySorted (λ a b, order_cmp (key a) (key b) = Lt) l.
Proof.
  intros [Hw Hnd]. induction 1 as [|a l _ IH Hall]; [constructor|].
  apply Forall_cons in Hw as [Ha Hw]. apply NoDup_cons in Hnd as [Hin Hnd].
  constructor; [by apply IH|]. rewrite Forall_forall in *. intros b Hb. specialize (Hall b Hb).
  unfold order_le in Hall. destruct (order_cmp (key a) (key b)) eqn:E; try done.
  apply order_cmp_eq in E; [|done|by apply Hw]. destruct Hin. rewrite E. by apply list_elem_of_fmap_2.
Qed.

(** Two sorted lists of the same wire-keyed rows are one list. *)
Lemma wire_keyed_unique {A} (key : A → SubKey) l l' :
  wire_keyed key l → l ≡ₚ l' → StronglySorted (λ a b, order_le (key a) (key b)) l →
  StronglySorted (λ a b, order_le (key a) (key b)) l' → l = l'.
Proof.
  intros Hk Hp Hs Hs'. pose proof (wire_keyed_strict _ _ Hk Hs) as H1.
  pose proof (wire_keyed_strict _ _ (wire_keyed_perm _ _ _ Hp Hk) Hs') as H2.
  eapply (StronglySorted_unique_strong (λ a b, order_cmp (key a) (key b) = Lt)); [|done..].
  intros a b _ _ Hab Hba. rewrite (cmp_swap (cmp := order_cmp)), Hab in Hba. discriminate Hba.
Qed.

(** ** Rows of the mirror *)

Section Rows.
Context (cf : bool * bool).
Implicit Types (rows : list (SubKey * MirrorRow)).

Definition wire_rows (rows : list (SubKey * MirrorRow)) : Prop := wire_keyed fst rows.

Lemma info_keys rows : map info_key (map (info_of cf) rows) = map fst rows.
Proof. rewrite map_map. apply map_ext. by intros [[] ]. Qed.

Lemma infos_wire rows : wire_rows rows → wire_keyed info_key (map (info_of cf) rows).
Proof.
  intros [Hw Hnd]. split; [|by rewrite info_keys]. apply Forall_fmap. eapply Forall_impl; [exact Hw|].
  by intros [[] ].
Qed.

Lemma active_rows_perm rows : active_rows cf rows ≡ₚ map (info_of cf) rows.
Proof. apply sort_rows_perm. Qed.

Lemma active_rows_strict rows :
  wire_rows rows →
  StronglySorted (λ a b, order_cmp (info_key a) (info_key b) = Lt) (active_rows cf rows).
Proof.
  intros Hw. apply wire_keyed_strict; [|apply sort_rows_sorted].
  eapply wire_keyed_perm; [symmetry; apply sort_rows_perm|by apply infos_wire].
Qed.

(** The order in which the map is iterated does not show. *)
Lemma active_rows_order rows rows' :
  wire_rows rows → rows ≡ₚ rows' → active_rows cf rows = active_rows cf rows'.
Proof.
  intros Hw Hp. apply (wire_keyed_unique info_key); [..|apply sort_rows_sorted|apply sort_rows_sorted].
  - eapply wire_keyed_perm; [symmetry; apply sort_rows_perm|by apply infos_wire].
  - rewrite !active_rows_perm. by rewrite Hp.
Qed.

Definition info_of_ref (r : SubscriptionRef) : SubscriptionInfo :=
  mkInfo (sr_channel r) (sr_symbol r) (sr_state r).

Lemma channel_rows_shown channel rows :
  wire_rows rows →
  map info_of_ref (channel_rows cf channel rows) =
  filter (λ i, si_channel i = wire_channel channel) (active_rows cf rows).
Proof.
  intros Hw.
  assert (map info_of_ref (channel_rows cf channel rows) ≡ₚ
          filter (λ i, si_channel i = wire_channel channel) (active_rows cf rows)) as Hp.
  { rewrite active_rows_perm. unfold channel_rows. rewrite sort_rows_perm, map_map.
    clear. induction rows as [|[[c p] row] rows IH]; [done|]. cbn [map]. rewrite !filter_cons. cbn.
    case_decide; cbn; by rewrite IH. }
  assert (StronglySorted (λ a b, order_le (info_key a) (info_key b))
            (filter (λ i, si_channel i = wire_channel channel) (active_rows cf rows))) as Hs.
  { apply StronglySorted_filter, sort_rows_sorted. }
  apply (wire_keyed_unique info_key); [|done| |done].
  - eapply wire_keyed_perm; [symmetry; exact Hp|].
    destruct (infos_wire rows Hw) as [H1 H2]. rewrite <-active_rows_perm in H1, H2. split.
    + by apply Forall_filter_weaken.
    + by apply NoDup_map_filter.
  - unfold channel_rows. eapply (StronglySorted_fmap _ (λ a b, order_le (ref_key a) (ref_key b)));
      [|apply sort_rows_sorted]. done.
Qed.

(** ** Counting *)

Definition is_active (s : SubscriptionState) : bool :=
  match s with StActive => true | _ => false end.
Definition is_pending (s : SubscriptionState) : bool :=
  match s with StPending => true | _ => false end.
Definition is_failed (s : SubscriptionState) : bool :=
  match s with StFailed _ => true | _ => false end.

Definition in_state (p : SubscriptionState → bool) (row : SubKey * MirrorRow) : bool :=
  p (row_projection cf row).
Definition on_channel (channel : ChannelName) (row : SubKey * MirrorRow) : bool :=
  bool_decide (row.1.1 = channel).

(** What is added to a summary by rows. *)
Record summed (s s' : SubscriptionsSummary) (rows : list (SubKey * MirrorRow)) : Prop := {
  sm_total : ss_total s' = ss_total s + N.of_nat (length rows);
  sm_active : ss_active s' = ss_active s + counted (in_state is_active) rows;
  sm_pending : ss_pending s' = ss_pending s + counted (in_state is_pending) rows;
  sm_failed : ss_failed s' = ss_failed s + counted (in_state is_failed) rows;
  sm_channel channel : default 0 (ss_by_channel s' !! channel) =
    default 0 (ss_by_channel s !! channel) + counted (on_channel channel) rows;
}.

Definition within (s : SubscriptionsSummary) : Prop :=
  ss_active s + ss_pending s + ss_failed s = ss_total s ∧
  ∀ channel, default 0 (ss_by_channel s !! channel) ≤ ss_total s.

Lemma count_row_summed s row :
  within s → ss_total s < u32_max →
  summed s (count_row cf s row) [row] ∧ within (count_row cf s row).
Proof.
  intros [Hs Hc] Hb.
  assert (∀ x, x ≤ ss_total s → u32_wrapping_add x 1 = x + 1) as Hadd
    by (intros; apply u32_add_small; lia).
  assert (∀ channel,
    default 0 (<[row.1.1 := u32_wrapping_add (default 0 (ss_by_channel s !! row.1.1)) 1]>
                 (ss_by_channel s) !! channel) =
    default 0 (ss_by_channel s !! channel) + counted (on_channel channel) [row]) as Hch.
  { intros channel. rewrite counted_cons, counted_nil, lookup_insert. unfold on_channel.
    case_decide as Hd.
    - subst channel. rewrite bool_decide_true by done. cbn. rewrite Hadd by apply Hc. lia.
    - rewrite bool_decide_false by done. cbn. lia. }
  assert (∀ channel, default 0
    (<[row.1.1 := u32_wrapping_add (default 0 (ss_by_channel s !! row.1.1)) 1]>
       (ss_by_channel s) !! channel) ≤ ss_total s + 1) as Hle.
  { intros channel. rewrite Hch, counted_cons, counted_nil. specialize (Hc channel).
    destruct (on_channel channel row); cbn; lia. }
  unfold count_row, within. destruct (row_projection cf row) eqn:E; rewrite !Hadd by lia.
  all: split; [split|split]; cbn [ss_total ss_active ss_pending ss_failed ss_by_channel length];
    rewrite ?counted_cons, ?counted_nil; unfold in_state; rewrite ?E; try exact Hch; try exact Hle; cbn; lia.
Qed.

Lemma fold_rows_summed rows s :
  within s → ss_total s + N.of_nat (length rows) ≤ u32_max →
  summed s (fold_left (count_row cf) rows s) rows ∧ within (fold_left (count_row cf) rows s).
Proof.
  revert s. induction rows as [|row rows IH]; intros s Hw Hb; cbn [fold_left length] in *.
  { split; [split; intros; rewrite ?counted_nil; cbn; lia|done]. }
  destruct (count_row_summed s row Hw ltac:(lia)) as [H1 Hw'].
  destruct (IH (count_row cf s row) Hw' ltac:(rewrite (sm_total _ _ _ H1); cbn; lia)) as [[T A P F C] Hw2].
  split; [|exact Hw2]. destruct H1 as [T1 A1 P1 F1 C1].
  split; intros; rewrite ?T, ?A, ?P, ?F, ?C, ?T1, ?A1, ?P1, ?F1, ?C1, ?counted_cons, ?counted_nil;
    cbn [length]; lia.
Qed.
End Rows.

(** ** The calls that list *)

Section Reads.
Context {Decimal Q : Type} `{Channel Q (@CallerInbound Decimal)}.
Context (others : nat → Surface Decimal Q → Surface Decimal Q).

(** A reading call shows the mirror at one instant, or says why it may not look. *)
Lemma read_rows_snapshot {A} (f : bool * bool → list (SubKey * MirrorRow) → A) w :
  match (read_rows others f w).1 with
  | inr x => ∃ cf n s, x = f cf (map_to_list (sf_mirror (others n s)))
  | inl e => e = SubLoopDead ∨ e = SubClientClosed
  end.
Proof.
  unfold read_rows, conn_failed_sample, conn_failed, read_model_mirror, is_loop_failed, critical,
    mbind, Call_bind, mret, Call_ret.
  cbn -[map_to_list]. repeat (case_match; simplify_eq; cbn -[map_to_list] in *; eauto).
Qed.
End Reads.

Section Listing.
Context {Decimal : Type} (dcmp : Decimal → Decimal → comparison)
  (crc32 : list (string * string) → list (string * string) → N)
  (dec_from_str : string → option Decimal)
  (decode_frame : Json → option RawBookData).
Context (renv : ReactorEnv).

Lemma mirror_wire (reg : @SubscriptionRegistry Decimal) rows :
  (∀ k, row_state <$> mirror reg !! k = sub_state <$> entry reg k) →
  (∀ k e, entry reg k = Some e → wire_channel k.1 = k.1) →
  rows ≡ₚ map_to_list (mirror reg) → wire_rows rows.
Proof.
  intros Hm Hw Hp. eapply wire_keyed_perm; [symmetry; exact Hp|]. split.
  - apply Forall_forall. intros [k row] Hin%elem_of_map_to_list. specialize (Hm k).
    rewrite Hin in Hm. destruct (entry reg k) as [e|] eqn:He; [|done]. by apply (Hw k e).
  - apply NoDup_fst_map_to_list.
Qed.

(** A failure of its own wins over the failure of the connection of its channel. *)
Lemma projected cf channel own :
  project_with_connection cf channel own =
  if is_failed own then own
  else if (if bool_decide (channel ∈ [Executions; Balances]) then cf.2 else cf.1) : bool
       then StFailed FailureConnectionFailed else own.
Proof.
  case_bool_decide as Hc; [|destruct own, channel; try done; destruct Hc; set_solver].
  rewrite !elem_of_cons, elem_of_nil in Hc. by destruct Hc as [->|[->|[]]], own.
Qed.

(** C26: Reading the subscriptions of a running client shows its registry.  Whatever turns the
    reactor took, and however the mirror is iterated, [list_active] has exactly one row per
    entry with its state, a row of a failed connection being failed, in strictly increasing
    order; [find_by_channel] has the rows of the channel; the summary counts them by state
    and channel, and its total is the sum.  The calls compute these from the mirror at one
    instant or report a closed or dead client. *)
Theorem listed_subscriptions_exact budget tokens next_request_id ts cf rows :
  well_posted ∅ ts → registrations ts ≤ u32_max →
  let reg := rx_registry (run_turns dcmp crc32 dec_from_str decode_frame renv ts
                            (reactor_new renv budget tokens next_request_id)).2 in
  rows ≡ₚ map_to_list (mirror reg) → N.of_nat (length rows) ≤ u32_max →
  let shown := active_rows cf rows in
  let summary := summary_of cf rows in
  StronglySorted (λ a b, order_cmp (info_key a) (info_key b) = Lt) shown ∧
  (∀ i, i ∈ shown ↔ ∃ e, entry reg (info_key i) = Some e ∧
     let own := project_state (sub_state e) in
     let down := if bool_decide (si_channel i ∈ [Executions; Balances]) then cf.2 else cf.1 in
     si_state i = if is_failed own then own
                  else if down : bool then StFailed FailureConnectionFailed else own) ∧
  (∀ channel, map info_of_ref (channel_rows cf channel rows) =
              filter (λ i, si_channel i = wire_channel channel) shown) ∧
  ss_total summary = N.of_nat (length shown) ∧
  ss_total summary = ss_active summary + ss_pending summary + ss_failed summary ∧
  ss_active summary = counted (λ i, is_active (si_state i)) shown ∧
  ss_pending summary = counted (λ i, is_pending (si_state i)) shown ∧
  ss_failed summary = counted (λ i, is_failed (si_state i)) shown ∧
  (∀ channel, default 0 (ss_by_channel summary !! channel) =
              counted (λ i, bool_decide (si_channel i = channel)) shown).
Proof.
  intros Hp Hn reg Hrows Hlen shown summary.
  destruct (registry_settled dcmp crc32 dec_from_str decode_frame renv budget tokens
    next_request_id ts Hp Hn) as [live' Hs]. fold reg in Hs.
  pose proof (wf_mirror _ _ (st_wf _ _ _ Hs)) as Hm.
  assert (wire_rows rows) as Hw.
  { apply (mirror_wire reg); [done| |done]. intros k e He. apply (st_wire _ _ _ Hs). by eexists. }
  destruct (fold_rows_summed cf rows (mkSummary 0 0 0 0 ∅)) as [[T A P F C] [Hsum _]]; [|exact Hlen|].
  { split; [done|]. intros. cbn. by rewrite lookup_empty. }
  split_and!.
  - by apply active_rows_strict.
  - intros i. unfold shown. rewrite active_rows_perm, list_elem_of_fmap. split.
    + intros ([[c p] row] & -> & Hin). rewrite Hrows, elem_of_map_to_list in Hin.
      specialize (Hm (c, p)). rewrite Hin in Hm. destruct (entry reg (c, p)) as [e|] eqn:He; [|done].
      exists e. injection Hm as Hm. split; [done|].
      cbv zeta. rewrite <-projected. unfold info_of, row_projection. cbn. by rewrite Hm.
    + intros (e & He & Hst). cbv zeta in Hst. rewrite <-projected in Hst. specialize (Hm (info_key i)). rewrite He in Hm.
      destruct (mirror reg !! info_key i) as [row|] eqn:Hr; [|done]. injection Hm as Hm.
      exists (info_key i, row). split; [|by rewrite Hrows, elem_of_map_to_list].
      unfold info_of, row_projection. cbn. rewrite Hm, <-Hst. by destruct i.
  - intros channel. by apply channel_rows_shown.
  - unfold shown. rewrite active_rows_perm, length_map. exact T.
  - by symmetry.
  - unfold shown. rewrite active_rows_perm, counted_map. exact A.
  - unfold shown. rewrite active_rows_perm, counted_map. exact P.
  - unfold shown. rewrite active_rows_perm, counted_map. exact F.
  - intros channel. unfold shown. rewrite active_rows_perm, counted_map, C. cbn.
    by rewrite lookup_empty.
Qed.
End Listing.

(** A running client with one book: the ticker guard has been dropped. *)
Lemma listed_subscriptions_exact_witness :
  let rows := map_to_list (mirror (registry_after guarded_run)) in
  active_rows (true, false) rows =
    [mkInfo Types.Book (Some "BTC/USD"%string) (StFailed FailureConnectionFailed)] ∧
  ss_total (summary_of (true, false) rows) = ss_active (summary_of (true, false) rows) +
    ss_pending (summary_of (true, false) rows) + ss_failed (summary_of (true, false) rows).
Proof.
  split; [by vm_compute|].
  destruct (listed_subscriptions_exact N.compare (λ _ _, 0) (λ _, None) (λ _, None)
    (renv_ms (λ _, SendAccepted)) (with_knobs 100 600000000000) token_held 1 guarded_run
    (true, false) (map_to_list (mirror (registry_after guarded_run)))) as (_ & _ & _ & _ & Hsum & _).
  - exact guarded_run_posted.
  - by vm_compute.
  - unfold registry_after, after. apply Permutation_refl.
  - by vm_compute.
  - exact Hsum.
Defined.

(** ** Distinct pairs *)

Lemma retain_first_elem seen pairs p :
  p ∈ retain_first seen pairs ↔ p ∈ pairs ∧ p ∉ seen.
Proof.
  revert seen. induction pairs as [|q pairs IH]; intros seen; cbn [retain_first]; [set_solver|].
  case_decide; rewrite ?elem_of_cons, IH; [|destruct (decide (p = q))]; set_solver.
Qed.

Lemma retain_first_NoDup seen pairs : NoDup (retain_first seen pairs).
Proof.
  revert seen. induction pairs as [|q pairs IH]; intros seen; cbn [retain_first]; [constructor|].
  case_decide; [apply IH|]. constructor; [|apply IH]. rewrite retain_first_elem. set_solver.
Qed.

(** ** What a call hands to the reactor *)

Section Traces.
Context {Decimal Q : Type} `{Channel Q (@CallerInbound Decimal)}.
Abbreviation Item := (@CallerInbound Decimal).
Abbreviation Act := (SurfaceAct Decimal).
Context (others : nat → Surface Decimal Q → Surface Decimal Q).
Implicit Types (acts : list Act).

(** Whatever the others do, the call leaves such a trace and returns such a result. *)
Definition traces {A} (m : Call A) (Φ : list Act → A → Prop) : Prop :=
  ∀ w : CallWorld Decimal Q, ∃ acts, cw_log (m w).2 = (cw_log w ++ acts)%list ∧ Φ acts (m w).1.

Lemma traces_ret {A} (a : A) (Φ : list Act → A → Prop) : Φ [] a → traces (mret a) Φ.
Proof. intros HΦ w. exists []. by rewrite app_nil_r. Qed.

Lemma traces_mono {A} (m : Call A) (Φ Ψ : list Act → A → Prop) :
  traces m Φ → (∀ acts a, Φ acts a → Ψ acts a) → traces m Ψ.
Proof. intros Hm HΨ w. destruct (Hm w) as (acts & Hl & HΦ). exists acts. auto. Qed.

Lemma traces_bind {A B} (m : Call A) (k : A → Call B) Φ (Ψ : list Act → B → Prop) :
  traces m Φ → (∀ a acts, Φ acts a → traces (k a) (λ acts', Ψ (acts ++ acts')%list)) →
  traces (mbind k m) Ψ.
Proof.
  intros Hm Hk w. destruct (Hm w) as (acts & Hl & HΦ). unfold mbind, Call_bind.
  destruct (m w) as [a w1]. destruct (Hk a acts HΦ w1) as (acts' & Hl' & HΨ).
  exists (acts ++ acts')%list. cbn [fst snd] in *. by rewrite Hl', Hl, app_assoc.
Qed.

Lemma traces_critical {A} (f : Surface Decimal Q → A * list Act * Surface Decimal Q) Φ :
  (∀ s, Φ (f s).1.2 (f s).1.1) → traces (critical others f) Φ.
Proof.
  intros HΦ w. unfold critical. set (s := others _ _). specialize (HΦ s).
  destruct (f s) as [[a acts] s1]. by exists acts.
Qed.

Lemma traces_loop_failed : traces (is_loop_failed others) (λ acts b, acts = [SawLoopFailed b]).
Proof. by apply traces_critical. Qed.
Lemma traces_handlers ch : traces (has_handlers others ch) (λ acts b, acts = [SawHandlers ch b]).
Proof. by apply traces_critical. Qed.
Lemma traces_flush : traces (flush others) (λ acts _, acts = []).
Proof. by apply traces_critical. Qed.
Lemma traces_next_id : traces (next_handler_id others) (λ acts _, acts = []).
Proof. by apply traces_critical. Qed.
Lemma traces_count ch : traces (count_handler others ch) (λ acts _, acts = [HandlerCounted ch]).
Proof. by apply traces_critical. Qed.
Lemma traces_uncount ch : traces (uncount_handler others ch) (λ acts _, acts = [HandlerUncounted ch]).
Proof. by apply traces_critical. Qed.
Lemma traces_give item : traces (give_teardown others item) (λ acts _, acts = [TeardownGiven item]).
Proof. by apply traces_critical. Qed.
Lemma traces_post item :
  traces (post others item) (λ acts r,
    acts = [match r with None => Posted item | Some reason => PostRefused item reason end]).
Proof. apply traces_critical. intros s. cbn. by destruct (try_post_caller_inbound_recovering_kind _ _) as [[[]|] ]. Qed.

(** A refused post and the error it becomes. *)
Inductive refused (item : Item) : SubscriptionError → list Act → Prop :=
  | refused_full : refused item SubQueueFull [PostRefused item RejectFull]
  | refused_dead : refused item SubLoopDead [PostRefused item RejectClosed; SawLoopFailed true]
  | refused_closed : refused item SubClientClosed [PostRefused item RejectClosed; SawLoopFailed false].

Lemma traces_refused item reason :
  traces (post_reject_to_error others reason) (λ acts e, refused item e (PostRefused item reason :: acts)).
Proof.
  destruct reason; cbn [post_reject_to_error]; [apply traces_ret; constructor|].
  eapply traces_bind; [apply traces_loop_failed|]. intros b acts ->. apply traces_ret.
  destruct b; constructor.
Qed.

Lemma traces_post_or_error item :
  traces (post_or_error others item) (λ acts r,
    match r with inr _ => acts = [Posted item] | inl e => refused item e acts end).
Proof.
  eapply traces_bind; [apply traces_post|]. intros [reason|] acts ->; [|by apply traces_ret].
  eapply traces_bind; [apply (traces_refused item)|]. intros e acts He. apply traces_ret.
  by rewrite app_nil_r.
Qed.

Lemma traces_register channel cb :
  traces (register_handler_id_checked others channel cb) (λ acts r,
    let item id := InHandlerMutation channel (HandlerRegister id cb) in
    match r with
    | inr id => acts = [HandlerCounted channel; Posted (item id)]
    | inl (id, e) => ∃ reason seen,
        acts = HandlerCounted channel :: PostRefused (item id) reason :: HandlerUncounted channel :: seen ∧
        refused (item id) e (PostRefused (item id) reason :: seen)
    end).
Proof.
  unfold register_handler_id_checked.
  eapply traces_bind; [apply traces_flush|]. intros _ acts ->.
  eapply traces_bind; [apply traces_next_id|]. intros id acts ->.
  eapply traces_bind; [apply traces_count|]. intros _ acts ->.
  eapply traces_bind; [apply traces_post|]. intros [reason|] acts ->; [|by apply traces_ret].
  eapply traces_bind; [apply traces_uncount|]. intros _ acts ->.
  eapply traces_bind; [apply (traces_refused (InHandlerMutation channel (HandlerRegister id cb)))|].
  intros e acts He. apply traces_ret. exists reason, acts. by rewrite app_nil_r.
Qed.

Lemma traces_subscribe channel pairs params ref :
  traces (subscribe_with_ref others channel pairs params ref) (λ acts r,
    let item := InRegistryMutation (ws_url_for channel)
                  (RegisterBatch (subscribe_entries channel pairs params) ref) in
    match r with
    | inr _ => acts = [SawLoopFailed false; Posted item]
    | inl e => e = SubLoopDead ∧ acts = [SawLoopFailed true] ∨
               ∃ acts', acts = SawLoopFailed false :: acts' ∧ refused item e acts'
    end).
Proof.
  unfold subscribe_with_ref.
  eapply traces_bind; [apply traces_loop_failed|]. intros [] acts ->; [apply traces_ret; by left|].
  eapply traces_bind; [apply traces_flush|]. intros _ acts ->.
  eapply traces_mono; [apply traces_post_or_error|]. intros acts [e|[]] Hr; cbn [app] in *.
  - right. by exists acts.
  - by rewrite Hr.
Qed.
End Traces.

Section Served.
Context {Decimal : Type} (dcmp : Decimal → Decimal → comparison)
  (crc32 : list (string * string) → list (string * string) → N)
  (dec_from_str : string → option Decimal)
  (decode_frame : Json → option RawBookData).
Abbreviation reg_ops := (reg_ops dcmp crc32 dec_from_str decode_frame).

(** Serving a batch makes every key of it an entry, and removes none. *)
Lemma register_keeps url k params now guard reg k' :
  k' = k ∨ is_Some (entry reg k') →
  is_Some (entry (reg_op dcmp crc32 dec_from_str decode_frame (RegRegister url k params now guard) reg) k').
Proof.
  intros Hk. cbn [reg_op]. set (b := match guard with Some _ => true | None => false end).
  destruct (register_store (entry_new url k.1 k.2 params) now b reg) as (r1 & -> & He & _).
  enough (is_Some (entry r1 k')) as Hr.
  { destruct guard; unfold record_guard_ref; repeat case_match; cbn;
      try (change (entry (set_guard_refs ?m ?r)) with (entry r)); by rewrite ?entry_mirror_write. }
  rewrite He. assert (key_of (entry_new url k.1 k.2 params) = k) as -> by by destruct k.
  case_decide; [by eexists|]. by destruct Hk.
Qed.

Lemma batch_registers ref (entries : list (@SubscriptionEntry Decimal)) ops reg k :
  Forall2 (registers ref) entries ops →
  k ∈ map key_of entries ∨ is_Some (entry reg k) → is_Some (entry (reg_ops ops reg) k).
Proof.
  intros Hops. revert reg. induction Hops as [|e op entries ops [now ->] _ IH]; intros reg Hk.
  { by destruct Hk as [?%elem_of_nil|]. }
  apply IH. cbn [map] in Hk. rewrite elem_of_cons in Hk.
  destruct Hk as [[Hk|Hk]|Hk]; [right|by left|right]; apply register_keeps; auto.
Qed.

End Served.

(** ** Registering and subscribing under a guard *)

Section Guards.
Context {Decimal Q : Type} `{Channel Q (@CallerInbound Decimal)}.
Context (renv : ReactorEnv).
Context (others : nat → Surface Decimal Q → Surface Decimal Q).
Abbreviation Item := (@CallerInbound Decimal).
Abbreviation Act := (SurfaceAct Decimal).

(** The messages handed to the reactor, in order. *)
Definition given (acts : list Act) : list Item :=
  omap (λ a, match a with Posted i | TeardownGiven i => Some i | _ => None end) acts.

(** The error says what the call saw. *)
Definition explains (acts : list Act) (e : SubscriptionError) : Prop :=
  match e with
  | SubLoopDead => SawLoopFailed true ∈ acts
  | SubQueueFull => ∃ item, PostRefused item RejectFull ∈ acts
  | SubClientClosed => (SawLoopFailed true ∉ acts) ∧ ∃ item, PostRefused item RejectClosed ∈ acts
  | NoHandlerRegistered channel => SawHandlers channel false ∈ acts
  | _ => False
  end.

Lemma subscribe_entries_fresh channel pairs params :
  wire_channel channel = channel → Forall fresh_entry (subscribe_entries (Decimal := Decimal) channel pairs params).
Proof.
  intros Hc. unfold subscribe_entries. destruct pairs as [|p pairs]; [by repeat constructor|].
  apply Forall_fmap, Forall_true. by intros.
Qed.

Lemma subscribe_entries_keys channel pairs params :
  map key_of (subscribe_entries (Decimal := Decimal) (wire_channel channel) pairs params) =
  guard_keys channel pairs.
Proof.
  unfold subscribe_entries, guard_keys, guard_targets. destruct pairs as [|p pairs]; [done|].
  by rewrite !map_map.
Qed.

(** What the call does, whole. *)
Definition guarded_trace channel pairs params cb (acts : list Act)
  (r : SubscriptionError + SubscriptionGuard) (id : HandlerId) : Prop :=
  let handler := InHandlerMutation channel (HandlerRegister id cb) in
  let batch := InRegistryMutation (ws_url_for (wire_channel channel))
                 (RegisterBatch (subscribe_entries (wire_channel channel) pairs params) (Some id)) in
  match r with
  | inr g => g = mkGuard id channel pairs ∧
      acts = [HandlerCounted channel; Posted handler; SawLoopFailed false; Posted batch]
  | inl e =>
      (∃ reason seen,
         acts = HandlerCounted channel :: PostRefused handler reason :: HandlerUncounted channel :: seen ∧
         refused handler e (PostRefused handler reason :: seen)) ∨
      (∃ seen,
         acts = (HandlerCounted channel :: Posted handler :: seen ++
                 [TeardownGiven (InHandlerMutation channel (HandlerDeregister id))])%list ∧
         (e = SubLoopDead ∧ seen = [SawLoopFailed true] ∨
          ∃ seen', seen = SawLoopFailed false :: seen' ∧ refused batch e seen'))
  end.

Lemma traces_guarded channel pairs params cb :
  traces (register_and_subscribe_guarded others channel pairs params cb) (λ acts r,
    ∃ id, guarded_trace channel pairs params cb acts r id).
Proof.
  unfold register_and_subscribe_guarded.
  eapply traces_bind; [apply traces_register|]. intros [[id e]|id] acts Hr.
  { apply traces_ret. rewrite app_nil_r. exists id. by left. }
  cbn in Hr. subst acts. eapply traces_bind; [apply traces_subscribe|]. intros [e|[]] acts Hr.
  - eapply traces_bind; [apply traces_give|]. intros _ acts' ->. apply traces_ret.
    exists id. right. exists acts. by rewrite app_nil_r.
  - apply traces_ret. exists id. cbn in Hr. by subst acts.
Qed.

Lemma guarded_error channel pairs params cb acts e id :
  guarded_trace channel pairs params cb acts (inl e) id →
  explains acts e ∧
  (given acts = [] ∧ (HandlerUncounted channel ∈ acts) ∨
   given acts = [InHandlerMutation channel (HandlerRegister id cb);
                 InHandlerMutation channel (HandlerDeregister id)]).
Proof.
  intros [(reason & seen & -> & Hr)|(seen & -> & [[-> ->]|(seen' & -> & Hr)])].
  - split; [|left]; inversion Hr; subst; cbn; repeat split; set_solver.
  - split; [cbn; set_solver|by right].
  - split; [|right]; inversion Hr; subst; cbn; repeat split; set_solver.
Qed.

Lemma batch_served channel pairs params id (reg : @Reactor.Reactor Decimal) k :
  k ∈ guard_keys channel pairs →
  is_Some (entry (rx_registry (inbound_arm renv (InRegistryMutation (ws_url_for (wire_channel channel))
    (RegisterBatch (subscribe_entries (wire_channel channel) pairs params) (Some id))) reg).2) k).
Proof.
  intros Hk. destruct (message_served (λ _ _, Eq) (λ _ _, 0) (λ _, None) (λ _, None) renv
    (InRegistryMutation (ws_url_for (wire_channel channel))
      (RegisterBatch (subscribe_entries (wire_channel channel) pairs params) (Some id))) reg)
    as (ops & Hops & ->).
  - apply subscribe_entries_fresh. by destruct channel.
  - eapply batch_registers; [exact Hops|]. left. by rewrite subscribe_entries_keys.
Qed.

Lemma guard_posted channel pairs params id url live :
  NoDup pairs →
  let batch := InRegistryMutation url
    (RegisterBatch (subscribe_entries (Decimal := Decimal) (wire_channel channel) pairs params) (Some id)) in
  turn_posted live (TurnInbound batch) ∧
  turn_posted (live_after live (TurnInbound batch))
    (TurnInbound (InSubscriptionGuardDrop (Decimal := Decimal) id channel pairs)).
Proof.
  intros Hnd batch. split; [apply subscribe_entries_fresh; by destruct channel|]. split; [done|].
  apply Forall_forall. intros k Hk. cbn [live_after batch]. apply elem_of_union_l, elem_of_list_to_set.
  rewrite <-(subscribe_entries_keys channel pairs params) in Hk.
  apply list_elem_of_fmap in Hk as (e & -> & He). apply list_elem_of_fmap. by exists e.
Qed.

(** An ungated or refused subscription posts nothing and says why; an accepted one posts its
    batch, after a handler was seen, and the batch is as the registry asks of callers. *)
Lemma gated_whole handlers channel pairs params :
  wire_channel channel = channel →
  traces (gated others handlers channel pairs params) (λ acts r,
    match r with
    | inl e => given acts = [] ∧ explains acts e
    | inr _ =>
        let batch := InRegistryMutation (ws_url_for channel)
                       (RegisterBatch (subscribe_entries channel pairs params) None) in
        acts = [SawLoopFailed false; SawHandlers handlers true; SawLoopFailed false; Posted batch] ∧
        well_formed_message batch
    end).
Proof.
  intros Hc. unfold gated, gate, subscribe.
  eapply traces_bind with (Φ := λ acts r,
    match r with
    | inr _ => acts = [SawLoopFailed false; SawHandlers handlers true]
    | inl e => given acts = [] ∧ explains acts e
    end).
  { eapply traces_bind; [apply traces_loop_failed|]. intros [] acts ->; [apply traces_ret; cbn; set_solver|].
    eapply traces_bind; [apply traces_handlers|]. intros [] acts ->; apply traces_ret; cbn; set_solver. }
  intros [e|[]] acts Hr; [apply traces_ret; by rewrite app_nil_r|]. subst acts.
  eapply traces_mono; [apply traces_subscribe|]. intros acts [e|[]] Hr; cbn [app] in *.
  - destruct Hr as [[-> ->]|(acts' & -> & Hr)]; [cbn; set_solver|].
    inversion Hr; subst; cbn; repeat split; set_solver.
  - subst acts. split; [done|]. by apply subscribe_entries_fresh.
Qed.

(** C25: A guarded subscription happens whole or not at all.  On success the reactor was
    given exactly the handler and then one batch with an entry per distinct pair; once it
    serves the batch every pair has an entry, and the message the guard gives when dropped
    releases exactly those, as the registry's invariant asks of callers.  On an error no
    subscription was posted, the error says what was seen, and the handler is undone: its
    count is taken back, or its registration is followed by its removal.  So whatever the
    reactor and other callers do meanwhile. *)
Theorem guarded_subscription_whole wrap channel pairs params w :
  let ps := retain_first ∅ pairs in
  let r := (register_and_subscribe others wrap channel pairs params w).1 in
  ∃ id acts,
    cw_log (register_and_subscribe others wrap channel pairs params w).2 = (cw_log w ++ acts)%list ∧
    let handler := InHandlerMutation channel (HandlerRegister id (wrap ps)) in
    match r with
    | inr g => ∃ entries,
        let batch := InRegistryMutation (ws_url_for (wire_channel channel))
                       (RegisterBatch entries (Some id)) in
        let drop := InSubscriptionGuardDrop id channel ps in
        given acts = [handler; batch] ∧ (HandlerUncounted channel ∉ acts) ∧
        NoDup ps ∧ (∀ p, p ∈ ps ↔ p ∈ pairs) ∧
        map key_of entries = guard_keys channel ps ∧
        (∀ (reg : @Reactor.Reactor Decimal) k, k ∈ guard_keys channel ps →
           is_Some (entry (rx_registry (inbound_arm renv batch reg).2) k)) ∧
        (∀ w', cw_log (guard_drop others g w').2 = (cw_log w' ++ [TeardownGiven drop])%list) ∧
        (∀ live, turn_posted live (TurnInbound batch) ∧
                 turn_posted (live_after live (TurnInbound batch)) (TurnInbound drop))
    | inl e =>
        explains acts e ∧
        (given acts = [] ∧ (HandlerUncounted channel ∈ acts) ∨
         given acts = [handler; InHandlerMutation channel (HandlerDeregister id)])
    end.
Proof.
  intros ps r. destruct (traces_guarded channel ps params (wrap ps) w) as (acts & Hl & id & Ht).
  exists id, acts. split; [exact Hl|]. unfold r, register_and_subscribe. fold ps.
  destruct (register_and_subscribe_guarded others channel ps params (wrap ps) w).1 as [e|g].
  - exact (guarded_error channel ps params (wrap ps) acts e id Ht).
  - destruct Ht as [-> ->]. exists (subscribe_entries (wire_channel channel) ps params).
    assert (∀ p, p ∈ ps ↔ p ∈ pairs) as Hps.
    { intros p. unfold ps. rewrite retain_first_elem. set_solver. }
    split_and!; try done.
    + rewrite !elem_of_cons, elem_of_nil. intuition discriminate.
    + apply retain_first_NoDup.
    + apply subscribe_entries_keys.
    + intros reg k Hk. by apply batch_served.
    + intros live. apply guard_posted. apply retain_first_NoDup.
Qed.
End Guards.

(** With room for two messages the call succeeds, with room for one it undoes the handler. *)
Definition calm_surface (room : N) : CallWorld N (Fifo (@CallerInbound N)) :=
  mkCall (mkSurface (mkTeardowns (mkFifo [] room false) [] false) false false ∅ 7 ∅ false (λ _, Idle)) 0 [].

Definition ticker_guard (room : N) :=
  (register_and_subscribe (λ _ s, s) (λ _, 3) Ticker ["A"; "B"; "A"]%string (PTicker None None)
     (calm_surface room)).1.

Lemma guarded_outcomes :
  ticker_guard 2 = inr (mkGuard 7 Ticker ["A"; "B"]%string) ∧ ticker_guard 1 = inl SubQueueFull.
Proof. split; vm_compute; reflexivity. Qed.
