(* ===== verification/Correlated.v ===== *)
(** * Correlated: one-shot awaits, late arms and loop deaths

    [rust/src/dispatch/event_bus/mod.rs] (the correlated registry, [subscribe_correlated],
    [deliver_correlated], [relatch_correlated], [on_loop_death]),
    [rust/src/api/await_handle.rs] and [ArmedState] of
    [rust/src/build/client/completion.rs].  Several threads run these functions at once, so
    a function is a list of tasks, one per critical section or atomic access; a task does
    its work on the shared state and returns the tasks that follow it.  A schedule
    interleaves the threads' tasks. *)

From S2P Require Import Prelude F64 Types Events EventBus.
Local Open Scope N_scope.

(** ** Handles ([types/handles.rs]) *)

Inductive ExpectedCompletionEvent :=
  | ExConnectionOpen | ExConnectionClosed | ExConnectionReopened | ExConnectionFailed
  | ExOrderAdded | ExOrderEdited | ExOrderCancelled
  | ExSubscribeAcknowledged | ExSubscribeFailed | ExSubscriptionTerminated
  | ExClientReady | ExClientClosed.

Record RequestHandle := mkRequestHandle {
  handle_id : N;
  expected_completion : ExpectedCompletionEvent;
}.

Definition to_event_type (x : ExpectedCompletionEvent) : EventType :=
  match x with
  | ExConnectionOpen => ConnectionOpenEvent
  | ExConnectionClosed => ConnectionClosedEvent
  | ExConnectionReopened => ConnectionReopenedEvent
  | ExConnectionFailed => ConnectionFailedEvent
  | ExOrderAdded | ExOrderEdited | ExOrderCancelled => ClientFailed
  | ExSubscribeAcknowledged | ExSubscribeFailed => SubscriptionTerminatedEvent
  | ExSubscriptionTerminated => SubscriptionTerminatedEvent
  | ExClientReady => ClientReady
  | ExClientClosed => ClientClosedEvent
  end.

Definition failure_event_type (x : ExpectedCompletionEvent) : option EventType :=
  match x with
  | ExClientReady => Some ClientFailed
  | _ => None
  end.

(** ** The registry *)

Abbreviation Key := (EventType * N)%type.

(** A one-shot [SubscriberRecord]: its handler is the [send_arm] closure over the cell of
    an await. *)
Record OneShotRecord := mkOneShot {
  os_handle : N;
  os_max_version : N;
  os_cell : N;
}.

Definition CORRELATED_MISS_BUFFER_CAP : N := 256.

Record CorrelatedRegistry := mkCorrelated {
  live : gmap Key (list OneShotRecord);
  missed : list (Key * EventEnvelope);
  missed_cap : N;
  death_committed : bool;
  death_purged : bool;
}.

Definition correlated_new (cap : N) : CorrelatedRegistry := mkCorrelated ∅ [] cap false false.

Definition set_live (l : gmap Key (list OneShotRecord)) (r : CorrelatedRegistry) :=
  mkCorrelated l (missed r) (missed_cap r) (death_committed r) (death_purged r).
Definition set_missed (m : list (Key * EventEnvelope)) (r : CorrelatedRegistry) :=
  mkCorrelated (live r) m (missed_cap r) (death_committed r) (death_purged r).
Definition set_death (committed purged : bool) (r : CorrelatedRegistry) :=
  mkCorrelated (live r) (missed r) (missed_cap r) committed purged.

(** The latched registry with the completion evicted. *)
Definition latch_missed (key : Key) (e : EventEnvelope) (r : CorrelatedRegistry)
  : list EventEnvelope * CorrelatedRegistry :=
  let full := missed_cap r <=? N.of_nat (length (missed r)) in
  let kept := if full then tail (missed r) else missed r in
  (if full then snd <$> take 1 (missed r) else [], set_missed (kept ++ [(key, e)]) r).

Fixpoint take_first (key : Key) (l : list (Key * EventEnvelope))
  : option (EventEnvelope * list (Key * EventEnvelope)) :=
  match l with
  | [] => None
  | (k, e) :: l =>
      if decide (k = key) then Some (e, l)
      else (λ '(e', l'), (e', (k, e) :: l')) <$> take_first key l
  end.

Definition take_missed (key : Key) (r : CorrelatedRegistry)
  : option EventEnvelope * CorrelatedRegistry :=
  match take_first key (missed r) with
  | None => (None, r)
  | Some (e, l) => (Some e, set_missed l r)
  end.

(** ** Awaits *)

(** [TxCell]: the sender both arms race to claim, with the receiver's side. *)
Record TxCell := mkCell {
  cell_tx : bool;
  cell_slot : option EventEnvelope;
  cell_rx : bool;
}.

(** [send_arm]: the cell is locked across the claim and the send. *)
Definition send_arm (e : EventEnvelope) (c : TxCell) : bool * TxCell :=
  if cell_tx c
  then (cell_rx c, mkCell false (if cell_rx c then Some e else cell_slot c) (cell_rx c))
  else (false, c).

(** Where the owner of an await is: in [arm_correlated] before the success and the failure
    arm, before it returns, done arming, in [resolve_armed] before its first and second
    step, awaiting the receiver, resolved ([None] is [LoopDead]), dropping. *)
Inductive AwaitPhase :=
  | ArmingSuccess | ArmingFailure | ArmingDone | Armed
  | Checking | Claiming | Waiting
  | Resolved (r : option EventEnvelope)
  | Dropping.

Record Await := mkAwait {
  aw_request : RequestHandle;
  aw_completion : bool;
  aw_cell : TxCell;
  aw_success : option N;
  aw_failure : option N;
  aw_handle_taken : bool;
  aw_phase : AwaitPhase;
}.

Definition await_new (h : RequestHandle) (completion : bool) : Await :=
  mkAwait h completion (mkCell true None true) None None false ArmingSuccess.

Definition set_cell (c : TxCell) (a : Await) : Await :=
  mkAwait (aw_request a) (aw_completion a) c (aw_success a) (aw_failure a)
    (aw_handle_taken a) (aw_phase a).
Definition set_phase (p : AwaitPhase) (a : Await) : Await :=
  mkAwait (aw_request a) (aw_completion a) (aw_cell a) (aw_success a) (aw_failure a)
    (aw_handle_taken a) p.
Definition set_success (h : N) (a : Await) : Await :=
  mkAwait (aw_request a) (aw_completion a) (aw_cell a) (Some h) (aw_failure a)
    (aw_handle_taken a) ArmingFailure.
Definition set_failure (h : N) (a : Await) : Await :=
  mkAwait (aw_request a) (aw_completion a) (aw_cell a) (aw_success a) (Some h)
    (aw_handle_taken a) ArmingDone.
Definition set_handle_taken (a : Await) : Await :=
  mkAwait (aw_request a) (aw_completion a) (aw_cell a) (aw_success a) (aw_failure a)
    true (aw_phase a).

(** ** The shared state *)

Inductive ReactorState := NotStarted | Running | Stopped | ReactorFailed (c : LoopFailureCause).

#[export] Instance ReactorState_eq_dec : EqDecision ReactorState.
Proof. solve_decision. Defined.

(** What happens to completions, for the theorems: passed or refused by
    [deliver_correlated], taken by an await, done with, evicted or purged from the miss
    buffer, refused by [relatch_correlated], taken back from a dropped await; and the reports
    of a dead loop, taken by an await. *)
Inductive Note :=
  | NDelivered (e : EventEnvelope) | NGated (e : EventEnvelope)
  | NAccepted (cell : N) (e : EventEnvelope) | NSettled (e : EventEnvelope)
  | NEvicted (e : EventEnvelope) | NPurged (e : EventEnvelope)
  | NOutranked (e : EventEnvelope) | NReclaimed (cell : N) (e : EventEnvelope)
  | NFailed (cell : N) (e : EventEnvelope).

Record CorrelatedBus := mkCBus {
  correlated : CorrelatedRegistry;
  next_subscriber : N;
  loop_failed : bool;
  shutting_down : bool;
  loop_death_observed : bool;
  dispatch_reactor_state : ReactorState;
  death_broadcasts : list EventEnvelope;
  awaits : gmap N Await;
  next_await : N;
  death_drained : bool;
  notes : list Note;
}.

Definition correlated_bus_new : CorrelatedBus :=
  mkCBus (correlated_new CORRELATED_MISS_BUFFER_CAP) 1 false false false NotStarted [] ∅ 0
    false [].

Definition with_registry (x : CorrelatedRegistry) (b : CorrelatedBus) : CorrelatedBus :=
  mkCBus x (next_subscriber b) (loop_failed b) (shutting_down b) (loop_death_observed b)
    (dispatch_reactor_state b) (death_broadcasts b) (awaits b) (next_await b)
    (death_drained b) (notes b).
Definition with_loop_failed (x : bool) (b : CorrelatedBus) : CorrelatedBus :=
  mkCBus (correlated b) (next_subscriber b) x (shutting_down b) (loop_death_observed b)
    (dispatch_reactor_state b) (death_broadcasts b) (awaits b) (next_await b)
    (death_drained b) (notes b).
Definition with_shutting_down (x : bool) (b : CorrelatedBus) : CorrelatedBus :=
  mkCBus (correlated b) (next_subscriber b) (loop_failed b) x (loop_death_observed b)
    (dispatch_reactor_state b) (death_broadcasts b) (awaits b) (next_await b)
    (death_drained b) (notes b).
Definition with_death_observed (x : bool) (b : CorrelatedBus) : CorrelatedBus :=
  mkCBus (correlated b) (next_subscriber b) (loop_failed b) (shutting_down b) x
    (dispatch_reactor_state b) (death_broadcasts b) (awaits b) (next_await b)
    (death_drained b) (notes b).
Definition with_dispatch_state (x : ReactorState) (b : CorrelatedBus) : CorrelatedBus :=
  mkCBus (correlated b) (next_subscriber b) (loop_failed b) (shutting_down b)
    (loop_death_observed b) x (death_broadcasts b) (awaits b) (next_await b)
    (death_drained b) (notes b).
Definition with_awaits (x : gmap N Await) (b : CorrelatedBus) : CorrelatedBus :=
  mkCBus (correlated b) (next_subscriber b) (loop_failed b) (shutting_down b)
    (loop_death_observed b) (dispatch_reactor_state b) (death_broadcasts b) x
    (next_await b) (death_drained b) (notes b).
Definition note (n : list Note) (b : CorrelatedBus) : CorrelatedBus :=
  mkCBus (correlated b) (next_subscriber b) (loop_failed b) (shutting_down b)
    (loop_death_observed b) (dispatch_reactor_state b) (death_broadcasts b) (awaits b)
    (next_await b) (death_drained b) (notes b ++ n).

(** A change of one await; the tasks of an await only run while it exists. *)
Definition on_await (c : N) (f : Await → Await) (b : CorrelatedBus) : CorrelatedBus :=
  with_awaits (alter f c (awaits b)) b.

(** ** Tasks *)

Inductive Task :=
  | TArm (c : N)
  | TFireMissed (e : EventEnvelope) (r : OneShotRecord)
  | TDeliver (e : EventEnvelope)
  | TFire (e : EventEnvelope) (rs : list OneShotRecord) (accepted : bool)
  | TRelatch (e : EventEnvelope)
  | TCheckDeath (c : N)
  | TClaim (c : N)
  | TUnsub (h : N)
  | TReclaim (c : N)
  | TDropRx (c : N)
  | TDeath (l : ReactorName) (x : LoopFailureCause)
  | TDeathStopped (l : ReactorName) (x : LoopFailureCause)
  | TCommit (shutdown : bool) (l : ReactorName) (x : LoopFailureCause)
  | TObserve
  | TObserveThen (shutdown : bool) (l : ReactorName) (x : LoopFailureCause)
  | TLatchFailed (l : ReactorName) (x : LoopFailureCause)
  | TStateFailed (x : LoopFailureCause)
  | TDrain (l : ReactorName) (x : LoopFailureCause)
  | TDeathFire (l : ReactorName) (x : LoopFailureCause) (now : MonotonicInstant)
      (rs : list (Key * OneShotRecord))
  | TBroadcast (l : ReactorName) (x : LoopFailureCause)
  | TShutdown
  | TStopDispatch.

(** The [OneShot] arm of [fire_correlated]; the closure cannot panic. *)
Definition fire_correlated (e : EventEnvelope) (r : OneShotRecord) (b : CorrelatedBus)
  : bool * CorrelatedBus :=
  if os_max_version r <? event_version e then (false, b)
  else
    match awaits b !! os_cell r with
    | None => (false, b)
    | Some a =>
        let '(accepted, cell) := send_arm e (aw_cell a) in
        let b := with_awaits (<[os_cell r := set_cell cell a]> (awaits b)) b in
        (accepted, if accepted then note [NAccepted (os_cell r) e] b else b)
    end.

(** [subscribe_correlated] up to its own firing of a latched miss. *)
Definition subscribe_correlated (t : EventType) (key : N) (c : N) (b : CorrelatedBus)
  : N * list Task * CorrelatedBus :=
  let id := next_subscriber b in
  let b := mkCBus (correlated b) (id + 1) (loop_failed b) (shutting_down b)
             (loop_death_observed b) (dispatch_reactor_state b) (death_broadcasts b)
             (awaits b) (next_await b) (death_drained b) (notes b) in
  let record := mkOneShot id 65535 c in
  let reg := correlated b in
  match take_missed (t, key) reg with
  | (Some e, reg) => (id, [TFireMissed e record], with_registry reg b)
  | (None, reg) =>
      (id, [], with_registry
         (set_live (<[(t, key) := default [] (live reg !! (t, key)) ++ [record]]> (live reg))
            reg) b)
  end.

Definition unsubscribe (h : N) (b : CorrelatedBus) : CorrelatedBus :=
  let reg := correlated b in
  let kept := (λ l, filter (λ r, os_handle r ≠ h) l) <$> live reg in
  with_registry (set_live (filter (λ p, p.2 ≠ []) kept) reg) b.

(** Removing the waiters of a completion or latching it. *)
Definition take_waiters (key : Key) (e : EventEnvelope) (b : CorrelatedBus)
  : list Task * CorrelatedBus :=
  let reg := correlated b in
  match live reg !! key with
  | Some records => ([TFire e records false], with_registry (set_live (delete key (live reg)) reg) b)
  | None =>
      let '(evicted, reg) := latch_missed key e reg in
      ([], note (NEvicted <$> evicted) (with_registry reg b))
  end.

Definition is_death_terminal (t : EventType) : bool :=
  match t with ClientFailed | LoopFailedEvent => true | _ => false end.

Definition deliver_correlated (e : EventEnvelope) (b : CorrelatedBus)
  : list Task * CorrelatedBus :=
  match request_id e with
  | None => ([], b)
  | Some key =>
      if death_committed (correlated b) && negb (is_death_terminal (event_type e))
      then ([], note [NGated e] b)
      else take_waiters (event_type e, key) e (note [NDelivered e] b)
  end.

Definition relatch_correlated (e : EventEnvelope) (b : CorrelatedBus)
  : list Task * CorrelatedBus :=
  match request_id e with
  | None => ([], b)
  | Some key =>
      if death_purged (correlated b) then ([], note [NOutranked e] b)
      else take_waiters (event_type e, key) e b
  end.

Section Tasks.
(** What the clock shows in a state. *)
Context (clock : CorrelatedBus → MonotonicInstant).

Definition loop_failed_env (l : ReactorName) (x : LoopFailureCause) (now : MonotonicInstant)
  (id : option N) : EventEnvelope :=
  mkEnvelope LoopFailedEvent 1 now id (PLoopFailed l x now).

(** What a live waiter gets when a loop dies. *)
Definition death_env (l : ReactorName) (x : LoopFailureCause) (now : MonotonicInstant)
  (key : Key) : EventEnvelope :=
  match key.1 with
  | ClientReady | ClientFailed =>
      mkEnvelope ClientFailed 1 now (Some key.2) (PClientFailed ClientLoopFailed)
  | _ => loop_failed_env l x now (Some key.2)
  end.

(** The handler of a death envelope is called directly and its answer ignored. *)
Definition fire_death (e : EventEnvelope) (r : OneShotRecord) (b : CorrelatedBus)
  : CorrelatedBus :=
  match awaits b !! os_cell r with
  | None => b
  | Some a =>
      let '(accepted, cell) := send_arm e (aw_cell a) in
      let b := with_awaits (<[os_cell r := set_cell cell a]> (awaits b)) b in
      if accepted then note [NFailed (os_cell r) e] b else b
  end.

(** [arm_correlated], an arm at a time. *)
Definition arm_step (c : N) (b : CorrelatedBus) : list Task * CorrelatedBus :=
  match awaits b !! c with
  | None => ([], b)
  | Some a =>
      let h := aw_request a in
      match aw_phase a with
      | ArmingSuccess =>
          let '(id, fire, b) :=
            subscribe_correlated (to_event_type (expected_completion h)) (handle_id h) c b in
          (fire ++ [TArm c], on_await c (set_success id) b)
      | ArmingFailure =>
          match failure_event_type (expected_completion h) with
          | Some t =>
              let '(id, fire, b) := subscribe_correlated t (handle_id h) c b in
              (fire ++ [TArm c], on_await c (set_failure id) b)
          | None => ([], on_await c (set_phase Armed) b)
          end
      | ArmingDone => ([], on_await c (set_phase Armed) b)
      | _ => ([], b)
      end
  end.

(** [resolve_armed]: the load of the flag, then the claim of the sender. *)
Definition check_death_step (c : N) (b : CorrelatedBus) : list Task * CorrelatedBus :=
  match awaits b !! c with
  | Some a =>
      match aw_phase a with
      | Checking =>
          if loop_death_observed b then ([TClaim c], on_await c (set_phase Claiming) b)
          else ([], on_await c (set_phase Waiting) b)
      | _ => ([], b)
      end
  | None => ([], b)
  end.

Definition claim_step (c : N) (b : CorrelatedBus) : CorrelatedBus :=
  match awaits b !! c with
  | Some a =>
      match aw_phase a with
      | Claiming =>
          let cell := aw_cell a in
          if cell_tx cell
          then on_await c (λ a, set_phase (Resolved None)
                 (set_cell (mkCell false (cell_slot cell) (cell_rx cell)) a)) b
          else on_await c (set_phase Waiting) b
      | _ => b
      end
  | None => b
  end.

(** The end of [ArmedState::drop] when the caller took the handle: claim the sender, else
    take a landed envelope back. *)
Definition reclaim_step (c : N) (b : CorrelatedBus) : list Task * CorrelatedBus :=
  match awaits b !! c with
  | Some a =>
      let cell := aw_cell a in
      if cell_tx cell
      then ([], on_await c (set_cell (mkCell false (cell_slot cell) (cell_rx cell))) b)
      else
        match cell_slot cell with
        | Some e => ([TRelatch e],
                     note [NReclaimed c e] (on_await c (set_cell (mkCell false None (cell_rx cell))) b))
        | None => ([], b)
        end
  | None => ([], b)
  end.

Definition flatten_live (l : gmap Key (list OneShotRecord)) : list (Key * OneShotRecord) :=
  map_to_list l ≫= λ '(key, records), (λ r, (key, r)) <$> records.

Definition task_step (t : Task) (b : CorrelatedBus) : list Task * CorrelatedBus :=
  match t with
  | TArm c => arm_step c b
  | TFireMissed e r =>
      let '(accepted, b) := fire_correlated e r b in
      if accepted then ([], note [NSettled e] b) else ([TRelatch e], b)
  | TDeliver e => deliver_correlated e b
  | TFire e [] accepted =>
      if accepted then ([], note [NSettled e] b) else ([TRelatch e], b)
  | TFire e (r :: rs) accepted =>
      let '(this, b) := fire_correlated e r b in ([TFire e rs (accepted || this)], b)
  | TRelatch e => relatch_correlated e b
  | TCheckDeath c => check_death_step c b
  | TClaim c => ([], claim_step c b)
  | TUnsub h => ([], unsubscribe h b)
  | TReclaim c => reclaim_step c b
  | TDropRx c =>
      ([], on_await c (λ a, set_cell (mkCell (cell_tx (aw_cell a)) None false) a) b)
  | TDeath l x =>
      if shutting_down b then ([TCommit true l x], b)
      else if decide (l = LoopDispatch) then ([TDeathStopped l x], b)
      else ([TCommit false l x], b)
  | TDeathStopped l x =>
      if decide (dispatch_reactor_state b = Stopped) then ([TObserve], b)
      else ([TCommit false l x], b)
  | TCommit shutdown l x =>
      let reg := correlated b in
      let b := if shutdown
               then with_registry (set_death true (death_purged reg) reg) b
               else note (NPurged <$> (snd <$> missed reg))
                      (with_registry (set_death true true (set_missed [] reg)) b) in
      ([TObserveThen shutdown l x], b)
  | TObserve => ([], with_death_observed true b)
  | TObserveThen shutdown l x =>
      (if shutdown then [TDrain l x] else [TLatchFailed l x], with_death_observed true b)
  | TLatchFailed l x =>
      if loop_failed b then ([], b)
      else ((if decide (l = LoopDispatch) then [TStateFailed x] else []) ++
            [TDrain l x; TBroadcast l x], with_loop_failed true b)
  | TStateFailed x => ([], with_dispatch_state (ReactorFailed x) b)
  | TDrain l x =>
      let reg := correlated b in
      ([TDeathFire l x (clock b) (flatten_live (live reg))],
       mkCBus (set_live ∅ reg) (next_subscriber b) (loop_failed b) (shutting_down b)
         (loop_death_observed b) (dispatch_reactor_state b) (death_broadcasts b) (awaits b)
         (next_await b) true (notes b))
  | TDeathFire l x now [] => ([], b)
  | TDeathFire l x now ((key, r) :: rs) =>
      ([TDeathFire l x now rs], fire_death (death_env l x now key) r b)
  | TBroadcast l x =>
      ([], mkCBus (correlated b) (next_subscriber b) (loop_failed b) (shutting_down b)
             (loop_death_observed b) (dispatch_reactor_state b)
             (death_broadcasts b ++ [loop_failed_env l x (clock b) None]) (awaits b)
             (next_await b) (death_drained b) (notes b))
  | TShutdown => ([], with_shutting_down true b)
  | TStopDispatch => ([], with_dispatch_state Stopped b)
  end.

(** ** Schedules *)

Record CorrelatedWorld := mkCWorld { cw_bus : CorrelatedBus; cw_threads : list (list Task) }.

Inductive Action :=
  | ActRun (i : nat)
  | ActAwait (h : RequestHandle) (completion : bool)
  | ActTakeHandle (c : N)
  | ActResolve (c : N)
  | ActReceive (c : N)
  | ActDrop (c : N)
  | ActDeliver (e : EventEnvelope)
  | ActLoopDeath (l : ReactorName) (x : LoopFailureCause)
  | ActBeginShutdown
  | ActCloseDispatch
  | ActStartDispatch.

Definition spawn (ts : list Task) (w : CorrelatedWorld) : CorrelatedWorld :=
  mkCWorld (cw_bus w) (cw_threads w ++ [ts]).

(** A change of the await by its owner, who then runs the tasks. *)
Definition owner (c : N) (f : Await → option (Await * list Task)) (w : CorrelatedWorld)
  : CorrelatedWorld :=
  match awaits (cw_bus w) !! c with
  | None => w
  | Some a =>
      match f a with
      | None => w
      | Some (a, ts) =>
          mkCWorld (with_awaits (<[c := a]> (awaits (cw_bus w))) (cw_bus w))
            (cw_threads w ++ [ts])
      end
  end.

(** [unarm_correlated], then the rest of the destructors. *)
Definition drop_tasks (c : N) (a : Await) : list Task :=
  (TUnsub <$> option_list (aw_success a)) ++ (TUnsub <$> option_list (aw_failure a)) ++
  (if aw_completion a && aw_handle_taken a then [TReclaim c] else []) ++ [TDropRx c].

Definition act (x : Action) (w : CorrelatedWorld) : CorrelatedWorld :=
  match x with
  | ActRun i =>
      match cw_threads w !! i with
      | Some (t :: rest) =>
          let '(ts, b) := task_step t (cw_bus w) in
          mkCWorld b (<[i := ts ++ rest]> (cw_threads w))
      | _ => w
      end
  | ActAwait h completion =>
      let b := cw_bus w in
      let c := next_await b in
      mkCWorld (mkCBus (correlated b) (next_subscriber b) (loop_failed b) (shutting_down b)
                  (loop_death_observed b) (dispatch_reactor_state b) (death_broadcasts b)
                  (<[c := await_new h completion]> (awaits b)) (c + 1) (death_drained b)
                  (notes b))
        (cw_threads w ++ [[TArm c]])
  | ActTakeHandle c =>
      owner c (λ a, match aw_phase a with
                    | Armed => if aw_completion a then Some (set_handle_taken a, []) else None
                    | _ => None
                    end) w
  | ActResolve c =>
      owner c (λ a, match aw_phase a with
                    | Armed => Some (set_phase Checking a, [TCheckDeath c])
                    | _ => None
                    end) w
  | ActReceive c =>
      owner c (λ a, match aw_phase a, cell_slot (aw_cell a) with
                    | Waiting, Some e =>
                        Some (set_phase (Resolved (Some e))
                          (set_cell (mkCell (cell_tx (aw_cell a)) None (cell_rx (aw_cell a))) a),
                          [])
                    | _, _ => None
                    end) w
  | ActDrop c =>
      owner c (λ a, match aw_phase a with
                    | Armed | Waiting | Resolved _ =>
                        Some (set_phase Dropping a, drop_tasks c a)
                    | _ => None
                    end) w
  | ActDeliver e => spawn [TDeliver e] w
  | ActLoopDeath l x => spawn [TDeath l x] w
  | ActBeginShutdown => spawn [TShutdown] w
  | ActCloseDispatch => spawn [TShutdown; TStopDispatch] w
  | ActStartDispatch =>
      mkCWorld (if decide (dispatch_reactor_state (cw_bus w) = NotStarted)
                then with_dispatch_state Running (cw_bus w) else cw_bus w) (cw_threads w)
  end.

Definition run_schedule (xs : list Action) : CorrelatedWorld :=
  fold_left (λ w x, act x w) xs (mkCWorld correlated_bus_new []).
End Tasks.
