(* ===== verification/CorrelatedInv.v ===== *)
(** * CorrelatedInv: the invariant of the awaits

    What every interleaving of [Correlated] keeps: where the records of an await may be,
    what a waiting await is still owed, what a drained death leaves behind, and where
    every completion went. *)

From S2P Require Import Prelude F64 Types Events EventBus Correlated.
Local Open Scope N_scope.

(** ** Flattened threads *)

Lemma run_flat (threads : list (list Task)) i t rest :
  threads !! i = Some (t :: rest) →
  ∃ R, concat threads ≡ₚ t :: R ∧
    ∀ ts, concat (<[i := ts ++ rest]> threads) ≡ₚ ts ++ R.
Proof.
  intros Hi. exists (rest ++ concat (take i threads) ++ concat (drop (S i) threads)).
  pose proof (lookup_lt_Some _ _ _ Hi) as Hlt. split.
  - rewrite <-(take_drop_middle _ _ _ Hi) at 1. rewrite concat_app. cbn.
    rewrite <-Permutation_middle. f_equiv. rewrite !app_assoc. f_equiv. apply Permutation_app_comm.
  - intros ts. rewrite insert_take_drop by done. rewrite concat_app. cbn.
    rewrite !app_assoc. f_equiv. rewrite <-!app_assoc. rewrite Permutation_app_comm.
    by rewrite <-app_assoc.
Qed.

(** ** The invariant *)

Definition env_ok (e : EventEnvelope) : Prop :=
  event_version e ≤ 65535 ∧ ∃ id, request_id e = Some id.

Definition task_ok (t : Task) : Prop :=
  match t with
  | TFire e _ _ | TFireMissed e _ | TRelatch e => env_ok e
  | TDeliver e => event_version e ≤ 65535
  | _ => True
  end.

(** The records a task is about to fire, with their keys. *)
Definition holds (t : Task) (key : Key) (r : OneShotRecord) : Prop :=
  match t with
  | TFire e rs _ => r ∈ rs ∧ event_type e = key.1 ∧ request_id e = Some key.2
  | TFireMissed e r' => r' = r ∧ event_type e = key.1 ∧ request_id e = Some key.2
  | TDeathFire _ _ _ rs => (key, r) ∈ rs
  | _ => False
  end.

Definition is_live (l : gmap Key (list OneShotRecord)) (key : Key) (r : OneShotRecord) : Prop :=
  ∃ rs, l !! key = Some rs ∧ r ∈ rs.

Definition pends (b : CorrelatedBus) (T : list Task) (key : Key) (r : OneShotRecord) : Prop :=
  is_live (live (correlated b)) key r ∨ ∃ t, t ∈ T ∧ holds t key r.

Definition arms (a : Await) : list N := option_list (aw_success a) ++ option_list (aw_failure a).

(** The arm under which an await registered a record. *)
Definition arm_at (a : Await) (key : Key) (h : N) : Prop :=
  key.2 = handle_id (aw_request a) ∧
  ((key.1 = to_event_type (expected_completion (aw_request a)) ∧ aw_success a = Some h) ∨
   (failure_event_type (expected_completion (aw_request a)) = Some key.1 ∧
    aw_failure a = Some h)).

(** An outcome an await may have. *)
Definition own (a : Await) (e : EventEnvelope) : Prop :=
  request_id e = Some (handle_id (aw_request a)) ∧
  (event_type e = to_event_type (expected_completion (aw_request a)) ∨
   failure_event_type (expected_completion (aw_request a)) = Some (event_type e) ∨
   event_type e = LoopFailedEvent).

Definition after_commit (t : Task) : bool :=
  match t with TObserveThen _ _ _ | TLatchFailed _ _ | TDrain _ _ => true | _ => false end.
Definition after_latch (t : Task) : bool :=
  match t with TDrain _ _ => true | _ => false end.
Definition after_observe (t : Task) : bool :=
  match t with TLatchFailed _ _ | TDrain _ _ => true | _ => false end.

Record reg_inv (r : CorrelatedRegistry) : Prop := mkRegInv {
  ri_missed : ∀ key e, (key, e) ∈ missed r → env_ok e ∧ request_id e = Some key.2 ∧
    event_type e = key.1;
  ri_apart : ∀ key rs, live r !! key = Some rs → rs ≠ [] ∧ ∀ e, (key, e) ∉ missed r;
  ri_cap : N.of_nat (length (missed r)) ≤ missed_cap r;
  ri_room : missed_cap r = CORRELATED_MISS_BUFFER_CAP;
}.

Record records_inv (b : CorrelatedBus) (T : list Task) : Prop := mkRecordsInv {
  rec_arm : ∀ key r, pends b T key r → os_max_version r = 65535 ∧
    ∃ a, awaits b !! os_cell r = Some a ∧ arm_at a key (os_handle r);
  rec_fresh : ∀ c a h, awaits b !! c = Some a → h ∈ arms a → h < next_subscriber b;
  rec_apart : ∀ c c' a a' h, awaits b !! c = Some a → awaits b !! c' = Some a' →
    h ∈ arms a → h ∈ arms a' → c = c';
  rec_unsub : ∀ h, TUnsub h ∈ T → ∃ c a, awaits b !! c = Some a ∧ h ∈ arms a ∧
    aw_phase a = Dropping;
  rec_phase : ∀ c a, awaits b !! c = Some a → aw_success a = None → aw_phase a = ArmingSuccess;
  rec_armed : ∀ c a, awaits b !! c = Some a → aw_failure a = None →
    failure_event_type (expected_completion (aw_request a)) ≠ None →
    aw_phase a = ArmingSuccess ∨ aw_phase a = ArmingFailure;
  rec_open : ∀ c a, awaits b !! c = Some a →
    (aw_phase a = ArmingSuccess → aw_success a = None ∧ aw_failure a = None) ∧
    (aw_phase a = ArmingFailure → aw_failure a = None);
  rec_await : ∀ c a, awaits b !! c = Some a → c < next_await b;
}.

Definition own_inv (b : CorrelatedBus) : Prop :=
  ∀ c a e, awaits b !! c = Some a →
    cell_slot (aw_cell a) = Some e ∨ aw_phase a = Resolved (Some e) → own a e ∧ env_ok e.

Definition wait_inv (b : CorrelatedBus) (T : list Task) : Prop :=
  ∀ c a key h, awaits b !! c = Some a → arm_at a key h → cell_tx (aw_cell a) = true →
    aw_phase a ≠ Dropping →
    ∃ r, os_cell r = c ∧ os_handle r = h ∧ pends b T key r.

(** Past a death: where its thread is shows in the flags. *)
Record flags_inv (b : CorrelatedBus) (T : list Task) : Prop := mkFlagsInv {
  fi_observed : death_drained b = true → loop_death_observed b = true;
  fi_tasks : ∀ t, t ∈ T → after_observe t = true → loop_death_observed b = true;
  fi_latched : loop_failed b = true → death_drained b = true ∨ ∃ t, t ∈ T ∧ after_latch t = true;
  fi_committed : death_committed (correlated b) = true →
    death_drained b = true ∨ ∃ t, t ∈ T ∧ after_commit t = true;
}.

(** Once a death was drained nobody waits on a registered record. *)
Definition drained_inv (b : CorrelatedBus) : Prop :=
  death_drained b = true → ∀ key r a, is_live (live (correlated b)) key r →
    awaits b !! os_cell r = Some a → cell_tx (aw_cell a) = true → aw_phase a ≠ Waiting.

Record corr_inv (b : CorrelatedBus) (T : list Task) : Prop := mkCorrInv {
  ci_tasks : ∀ t, t ∈ T → task_ok t;
  ci_reg : reg_inv (correlated b);
  ci_records : records_inv b T;
  ci_own : own_inv b;
  ci_wait : wait_inv b T;
  ci_flags : flags_inv b T;
  ci_drained : drained_inv b;
}.

(** ** Steps that register nothing *)

(** What such a step may do to an await. *)
Record keep (a a' : Await) : Prop := mkKeep {
  kp_request : aw_request a' = aw_request a;
  kp_success : aw_success a' = aw_success a;
  kp_failure : aw_failure a' = aw_failure a;
  kp_drop : aw_phase a = Dropping → aw_phase a' = Dropping;
  kp_new : aw_success a = None → aw_phase a' = aw_phase a;
  kp_armed : aw_failure a = None →
    failure_event_type (expected_completion (aw_request a)) ≠ None → aw_phase a' = aw_phase a;
  kp_open : aw_phase a' = ArmingSuccess ∨ aw_phase a' = ArmingFailure →
    aw_phase a' = aw_phase a;
  kp_tx : cell_tx (aw_cell a') = true → cell_tx (aw_cell a) = true;
}.

Definition keeps (m m' : gmap N Await) : Prop := ∀ c, option_Forall2 keep (m !! c) (m' !! c).

Lemma keep_refl a : keep a a.
Proof. by split. Qed.

Lemma keeps_refl m : keeps m m.
Proof. intros c. destruct (m !! c); constructor. apply keep_refl. Qed.

Lemma keeps_insert m c a a' : m !! c = Some a → keep a a' → keeps m (<[c := a']> m).
Proof.
  intros Hc Hk c'. destruct (decide (c' = c)) as [->|Hne].
  - rewrite Hc, lookup_insert_eq. by constructor.
  - rewrite lookup_insert_ne by done. apply keeps_refl.
Qed.

Lemma keeps_back m m' c a' : keeps m m' → m' !! c = Some a' → ∃ a, m !! c = Some a ∧ keep a a'.
Proof. intros Hk Hc. specialize (Hk c). rewrite Hc in Hk. inversion Hk; subst; eauto. Qed.

Lemma keeps_forth m m' c a : keeps m m' → m !! c = Some a → ∃ a', m' !! c = Some a' ∧ keep a a'.
Proof. intros Hk Hc. specialize (Hk c). rewrite Hc in Hk. inversion Hk; subst; eauto. Qed.

Lemma keep_arms a a' : keep a a' → arms a' = arms a.
Proof. intros [_ Hs Hf _ _ _ _ _]. unfold arms. by rewrite Hs, Hf. Qed.

Lemma keep_arm_at a a' key h : keep a a' → arm_at a key h → arm_at a' key h.
Proof. intros [Hr Hs Hf _ _ _ _ _]. unfold arm_at. by rewrite Hr, Hs, Hf. Qed.

Record same_ids (b b' : CorrelatedBus) : Prop := mkSameIds {
  si_subscriber : next_subscriber b' = next_subscriber b;
  si_await : next_await b' = next_await b;
}.

Lemma records_shrink b b' T T' :
  records_inv b T → same_ids b b' → keeps (awaits b) (awaits b') →
  (∀ key r, pends b' T' key r → pends b T key r) →
  (∀ h, TUnsub h ∈ T' → TUnsub h ∈ T) →
  records_inv b' T'.
Proof.
  intros [A F P U Ph Ar Op W] [Sn Sa] K Hp Hu. split.
  - intros key r H. destruct (A key r (Hp _ _ H)) as (? & a & Ha & Hat). split; [done|].
    destruct (keeps_forth _ _ _ _ K Ha) as (a' & Ha' & Hk). exists a'.
    split; [done|by eapply keep_arm_at].
  - intros c a' h Hc Hh. rewrite Sn. destruct (keeps_back _ _ _ _ K Hc) as (a & Ha & Hk).
    rewrite (keep_arms _ _ Hk) in Hh. eauto.
  - intros c c' a1 a2 h H1 H2 I1 I2.
    destruct (keeps_back _ _ _ _ K H1) as (b1 & B1 & K1).
    destruct (keeps_back _ _ _ _ K H2) as (b2 & B2 & K2).
    rewrite (keep_arms _ _ K1) in I1. rewrite (keep_arms _ _ K2) in I2. eauto.
  - intros h Hh. destruct (U h (Hu h Hh)) as (c & a & Ha & Hin & Hd).
    destruct (keeps_forth _ _ _ _ K Ha) as (a' & Ha' & Hk). exists c, a'.
    rewrite (keep_arms _ _ Hk). split_and!; [done..|by apply (kp_drop _ _ Hk)].
  - intros c a' Hc Hs. destruct (keeps_back _ _ _ _ K Hc) as (a & Ha & Hk).
    rewrite (kp_success _ _ Hk) in Hs. rewrite (kp_new _ _ Hk Hs). eauto.
  - intros c a' Hc Hf Ht. destruct (keeps_back _ _ _ _ K Hc) as (a & Ha & Hk).
    rewrite (kp_failure _ _ Hk) in Hf. rewrite (kp_request _ _ Hk) in Ht.
    rewrite (kp_armed _ _ Hk Hf Ht). eauto.
  - intros c a' Hc. destruct (keeps_back _ _ _ _ K Hc) as (a & Ha & Hk).
    rewrite (kp_success _ _ Hk), (kp_failure _ _ Hk). destruct (Op c a Ha) as [O1 O2].
    split; intros E; rewrite (kp_open _ _ Hk) in E; auto.
  - intros c a' Hc. rewrite Sa. destruct (keeps_back _ _ _ _ K Hc) as (a & Ha & _). eauto.
Qed.

Lemma wait_shrink b b' T T' :
  wait_inv b T → keeps (awaits b) (awaits b') →
  (∀ key r a', pends b T key r → awaits b' !! os_cell r = Some a' →
     cell_tx (aw_cell a') = true → aw_phase a' ≠ Dropping → pends b' T' key r) →
  wait_inv b' T'.
Proof.
  intros W K Hp c a' key h Hc Hs Ht Hd.
  destruct (keeps_back _ _ _ _ K Hc) as (a & Ha & Hk).
  destruct (W c a key h Ha) as (r & Hr & Hh & Hpend).
  - unfold arm_at in *. by rewrite (kp_request _ _ Hk), (kp_success _ _ Hk), (kp_failure _ _ Hk) in Hs.
  - by apply (kp_tx _ _ Hk).
  - intros E. apply Hd, (kp_drop _ _ Hk E).
  - exists r. split_and!; [done..|]. subst c. by eapply Hp.
Qed.

(** The flags and the death threads are untouched. *)
Record same_flags (b b' : CorrelatedBus) (T T' : list Task) : Prop := mkSameFlags {
  sf_failed : loop_failed b' = loop_failed b;
  sf_observed : loop_death_observed b' = loop_death_observed b;
  sf_drained : death_drained b' = death_drained b;
  sf_committed : death_committed (correlated b') = death_committed (correlated b);
  sf_tasks : ∀ t, after_commit t = true → t ∈ T ↔ t ∈ T';
}.

Lemma after_latch_commit t : after_latch t = true → after_commit t = true.
Proof. by destruct t. Qed.
Lemma after_observe_commit t : after_observe t = true → after_commit t = true.
Proof. by destruct t. Qed.

Lemma flags_same b b' T T' : same_flags b b' T T' → flags_inv b T → flags_inv b' T'.
Proof.
  intros [E1 E2 E3 E4 E5] [F1 F2 F3 F4]. split; rewrite ?E1, ?E2, ?E3, ?E4; auto.
  - intros t Ht Ho. apply (F2 t); [|done]. apply E5; [by apply after_observe_commit|done].
  - intros Hl. destruct (F3 Hl) as [?|(t & Ht & Hl')]; [by left|right].
    exists t. split; [|done]. apply E5; [by apply after_latch_commit|done].
  - intros Hl. destruct (F4 Hl) as [?|(t & Ht & Hl')]; [by left|right].
    exists t. split; [|done]. by apply E5.
Qed.

(** ** Firing a record *)

(** A task that neither unsubscribes nor belongs to a death. *)
Definition quiet (t : Task) : bool :=
  match t with TUnsub _ => false | t => negb (after_commit t) end.

Lemma quiet_unsub ts h R : Forall (λ t, quiet t = true) ts → TUnsub h ∈ ts ++ R → TUnsub h ∈ R.
Proof.
  intros Hq [Hin|Hin]%elem_of_app; [|done]. rewrite Forall_forall in Hq.
  by specialize (Hq _ Hin).
Qed.

Lemma quiet_commit ts t R :
  Forall (λ t, quiet t = true) ts → after_commit t = true → t ∈ ts ++ R ↔ t ∈ R.
Proof.
  intros Hq Ht. rewrite elem_of_app. split; [|by right]. intros [Hin|?]; [|done].
  rewrite Forall_forall in Hq. specialize (Hq _ Hin). destruct t; done.
Qed.

Lemma quiet_tasks t ts R u :
  quiet t = true → Forall (λ t, quiet t = true) ts → after_commit u = true →
  u ∈ t :: R ↔ u ∈ ts ++ R.
Proof.
  intros Ht Hts Hu. rewrite (quiet_commit ts u R Hts Hu), elem_of_cons.
  split; [|by right]. intros [->|?]; [|done]. by destruct t.
Qed.

(** The state after [r] was fired with [e]: its cell has no sender any more. *)
Record fired (e : EventEnvelope) (r : OneShotRecord) (b b' : CorrelatedBus) : Prop := mkFired {
  fd_cell : ∃ a, awaits b !! os_cell r = Some a ∧
    awaits b' = <[os_cell r := set_cell (send_arm e (aw_cell a)).2 a]> (awaits b);
  fd_reg : correlated b' = correlated b;
  fd_ids : same_ids b b';
  fd_failed : loop_failed b' = loop_failed b;
  fd_observed : loop_death_observed b' = loop_death_observed b;
  fd_drained : death_drained b' = death_drained b;
}.

Lemma keep_send_arm e a : keep a (set_cell (send_arm e (aw_cell a)).2 a).
Proof.
  unfold send_arm. destruct (cell_tx (aw_cell a)) eqn:E; split; cbn; try done.
Qed.

Lemma send_arm_tx e c : cell_tx (send_arm e c).2 = false.
Proof. unfold send_arm. by destruct (cell_tx c) eqn:E. Qed.

(** What a task holds and what the tasks after it hold, but for one record. *)
Record hands_over (t : Task) (ts : list Task) (r0 : option OneShotRecord) : Prop := mkHands {
  ho_back : ∀ t' key r, t' ∈ ts → holds t' key r → holds t key r;
  ho_forth : ∀ key r, holds t key r → r0 = Some r ∨ ∃ t', t' ∈ ts ∧ holds t' key r;
  ho_quiet : quiet t = true;
  ho_quiets : Forall (λ t, quiet t = true) ts;
}.

Lemma hands_pends_back t ts r0 b b' R key r :
  hands_over t ts r0 → live (correlated b') = live (correlated b) →
  pends b' (ts ++ R) key r → pends b (t :: R) key r.
Proof.
  intros [B _ _ _] Hl [Hlive|(t' & Hin & Hh)]; [left; by rewrite <-Hl|right].
  apply elem_of_app in Hin as [Hin|Hin].
  - exists t. split; [apply elem_of_cons; by left|by eapply B].
  - exists t'. split; [apply elem_of_cons; by right|done].
Qed.

Lemma hands_pends_forth t ts r0 b b' R key r :
  hands_over t ts r0 → live (correlated b') = live (correlated b) → r0 ≠ Some r →
  pends b (t :: R) key r → pends b' (ts ++ R) key r.
Proof.
  intros [_ F _ _] Hl Hne [Hlive|(t' & Hin & Hh)]; [left; by rewrite Hl|right].
  apply elem_of_cons in Hin as [->|Hin].
  - destruct (F key r Hh) as [?|(t' & Hin & Hh')]; [done|]. exists t'.
    split; [apply elem_of_app; by left|done].
  - exists t'. split; [apply elem_of_app; by right|done].
Qed.

Lemma inv_fire e r key t ts R b b' :
  corr_inv b (t :: R) → holds t key r → env_ok e →
  (∀ a, arm_at a key (os_handle r) → own a e) →
  hands_over t ts (Some r) → Forall task_ok ts → fired e r b b' →
  corr_inv b' (ts ++ R).
Proof.
  intros [It Ir Ic Io Iw If Id] Hh He Hown Hho Hts [(a & Ha & Haw) Hreg Hids E1 E2 E3].
  assert (keeps (awaits b) (awaits b')) as K
    by (rewrite Haw; eapply keeps_insert; [done|apply keep_send_arm]).
  assert (live (correlated b') = live (correlated b)) as Hl by by rewrite Hreg.
  destruct (rec_arm _ _ Ic key r) as (_ & a0 & Ha0 & Harm).
  { right. exists t. split; [apply elem_of_cons; by left|done]. }
  rewrite Ha in Ha0. injection Ha0 as <-.
  split.
  - intros u [Hu|Hu]%elem_of_app; [by eapply Forall_forall in Hu|].
    apply It, elem_of_cons. by right.
  - by rewrite Hreg.
  - apply (records_shrink b b' (t :: R)); [done..| |].
    + intros ??. by eapply hands_pends_back.
    + intros h Hin. apply elem_of_cons. right. eapply quiet_unsub; [apply Hho|done].
  - intros c a' x Hc Hx. rewrite Haw in Hc. apply lookup_insert_Some in Hc as [[<- <-]|[Hne Hc]].
    + cbn in Hx. unfold send_arm in Hx.
      destruct (cell_tx (aw_cell a)), (cell_rx (aw_cell a)); cbn in Hx;
        try (apply (Io _ _ x) in Ha; [destruct Ha; split|]; done).
      destruct Hx as [[= <-]|Hx].
      * split; [|done]. specialize (Hown a Harm). done.
      * destruct (Io _ _ x Ha) as [? ?]; [by right|]. done.
    + by eapply Io.
  - apply (wait_shrink b b' (t :: R)); [done..|].
    intros key' r' a' Hp Hc Htx _. eapply hands_pends_forth; [done|done| |done].
    intros [= <-]. rewrite Haw, lookup_insert_eq in Hc. injection Hc as <-.
    cbn in Htx. by rewrite send_arm_tx in Htx.
  - apply (flags_same b b' (t :: R)); [|done]. split; [done..|by rewrite Hreg|].
    intros u Hu. apply quiet_tasks; [apply Hho..|done].
  - intros Hd key' r' a'. rewrite E3 in Hd. rewrite Hl. intros Hlive Hc Htx.
    rewrite Haw in Hc. apply lookup_insert_Some in Hc as [[? <-]|[Hne Hc]].
    + cbn in Htx. by rewrite send_arm_tx in Htx.
    + by eapply Id.
Qed.

(** ** Steps on the registry *)

(** Neither awaits nor flags change, and no record comes or goes. *)
Record moved (b b' : CorrelatedBus) : Prop := mkMoved {
  mv_awaits : awaits b' = awaits b;
  mv_ids : same_ids b b';
  mv_failed : loop_failed b' = loop_failed b;
  mv_observed : loop_death_observed b' = loop_death_observed b;
  mv_drained : death_drained b' = death_drained b;
  mv_committed : death_committed (correlated b') = death_committed (correlated b);
  mv_live : ∀ key r, is_live (live (correlated b')) key r → is_live (live (correlated b)) key r;
}.

Lemma inv_moved b b' t ts R :
  corr_inv b (t :: R) → moved b b' → reg_inv (correlated b') → quiet t = true →
  Forall (λ t, quiet t = true) ts → Forall task_ok ts →
  (∀ key r, pends b' (ts ++ R) key r ↔ pends b (t :: R) key r) →
  corr_inv b' (ts ++ R).
Proof.
  intros [It Ir Ic Io Iw If Id] [Ea Ei E1 E2 E3 E4 El] Hr Hq Hqs Hts Hp. split.
  - intros u [Hu|Hu]%elem_of_app; [by eapply Forall_forall in Hu|].
    apply It, elem_of_cons. by right.
  - done.
  - apply (records_shrink b b' (t :: R)); [done..| | |].
    + rewrite Ea. apply keeps_refl.
    + intros ??. apply Hp.
    + intros h Hin. apply elem_of_cons. right. by eapply quiet_unsub.
  - intros c a x. rewrite Ea. apply Io.
  - apply (wait_shrink b b' (t :: R)); [done| |].
    + rewrite Ea. apply keeps_refl.
    + intros key r a' H _ _ _. by apply Hp.
  - apply (flags_same b b' (t :: R)); [|done]. split; [done..|].
    intros u Hu. by apply quiet_tasks.
  - intros Hd key r a Hlive. rewrite Ea. rewrite E3 in Hd. eapply Id; [done|]. by apply El.
Qed.

(** A task that leaves the shared state as it is. *)
Lemma inv_pass b t ts R :
  corr_inv b (t :: R) → hands_over t ts None → Forall task_ok ts → corr_inv b (ts ++ R).
Proof.
  intros I Ho Hts. apply (inv_moved b _ t); [done|by split|apply I|apply Ho..|done|].
  intros key r. split; intros H.
  - by eapply hands_pends_back in H.
  - by eapply hands_pends_forth.
Qed.

Lemma latch_spec key e r :
  reg_inv r → env_ok e → request_id e = Some key.2 → event_type e = key.1 →
  live r !! key = None →
  reg_inv (latch_missed key e r).2 ∧ live (latch_missed key e r).2 = live r ∧
  death_committed (latch_missed key e r).2 = death_committed r ∧
  death_purged (latch_missed key e r).2 = death_purged r ∧
  (snd <$> missed r) ++ [e] =
    (latch_missed key e r).1 ++ (snd <$> missed (latch_missed key e r).2).
Proof.
  intros [Hm Ha Hc Hcap] He Hid Ht Hk. unfold latch_missed. cbn [fst snd].
  assert (∀ x, x ∈ tail (missed r) → x ∈ missed r) as Htail
    by (destruct (missed r); [done|intros; apply elem_of_cons; by right]).
  destruct (N.leb_spec (missed_cap r) (N.of_nat (length (missed r)))) as [Hf|Hf].
  - split_and!; try done.
    + split; cbn.
      * intros k x [Hx|Hx]%elem_of_app; [by apply Hm, Htail|].
        apply list_elem_of_singleton in Hx. by injection Hx as -> ->.
      * intros k rs Hl. destruct (Ha k rs Hl) as [? Hn]. split; [done|].
        intros x [Hx|Hx]%elem_of_app; [by apply (Hn x), Htail|].
        apply list_elem_of_singleton in Hx. injection Hx as -> ->. congruence.
      * rewrite Hcap in *. unfold CORRELATED_MISS_BUFFER_CAP in *.
        rewrite length_app. destruct (missed r); cbn in *; lia.
      * done.
    + cbn. rewrite fmap_app. destruct (missed r) as [|[k x] m] eqn:E; [|done].
      cbn in Hf. rewrite Hcap in Hf. unfold CORRELATED_MISS_BUFFER_CAP in Hf. lia.
  - split_and!; try done.
    + split; cbn.
      * intros k x [Hx|Hx]%elem_of_app; [by apply Hm|].
        apply list_elem_of_singleton in Hx. by injection Hx as -> ->.
      * intros k rs Hl. destruct (Ha k rs Hl) as [? Hn]. split; [done|].
        intros x [Hx|Hx]%elem_of_app; [by apply (Hn x)|].
        apply list_elem_of_singleton in Hx. injection Hx as -> ->. congruence.
      * rewrite length_app. cbn. lia.
      * done.
    + cbn. by rewrite fmap_app.
Qed.

Lemma is_live_delete l key k r :
  is_live (delete key l) k r ↔ k ≠ key ∧ is_live l k r.
Proof.
  unfold is_live. split.
  - intros (rs & Hl & Hin). apply lookup_delete_Some in Hl as [? ?]. eauto.
  - intros (Hne & rs & Hl & Hin). exists rs. by rewrite lookup_delete_ne.
Qed.

Lemma inv_take_waiters key e b t R :
  corr_inv b (t :: R) → env_ok e → request_id e = Some key.2 → event_type e = key.1 →
  quiet t = true → (∀ key r, ¬ holds t key r) →
  corr_inv (take_waiters key e b).2 ((take_waiters key e b).1 ++ R).
Proof.
  intros I He Hid Ht Hq Hno. unfold take_waiters.
  pose proof (ci_reg _ _ I) as Hr. destruct (live (correlated b) !! key) as [rs|] eqn:Hl.
  - apply (inv_moved b _ t); [done| | |done|by apply Forall_singleton|
      by apply Forall_singleton|].
    + split; try done. intros k r. cbn. by intros [_ ?]%is_live_delete.
    + destruct Hr as [Hm Ha Hc Hcap]. split; try done. cbn. intros k rs'.
      intros [_ Hk]%lookup_delete_Some. eauto.
    + intros k r. unfold pends. cbn. rewrite is_live_delete. split.
      * intros [[_ ?]|(u & Hu & Hh)]; [by left|].
        apply elem_of_cons in Hu as [->|Hu].
        -- left. destruct Hh as (Hin & E1 & E2). exists rs.
           assert (k = key) as -> by (destruct k, key; cbn in *; congruence). done.
        -- right. exists u. split; [apply elem_of_cons; by right|done].
      * intros [Hlive|(u & Hu & Hh)].
        -- destruct (decide (k = key)) as [->|Hne]; [|by left].
           right. exists (TFire e rs false). split; [apply elem_of_cons; by left|].
           destruct Hlive as (rs' & Hl' & Hin). rewrite Hl in Hl'. by injection Hl' as <-.
        -- right. apply elem_of_cons in Hu as [->|Hu]; [by destruct (Hno k r)|].
           exists u. split; [apply elem_of_cons; by right|done].
  - destruct (latch_missed key e (correlated b)) as [ev reg] eqn:E.
    destruct (latch_spec key e (correlated b)) as (R1 & R2 & R3 & R4); try done.
    rewrite E in *. cbn [fst snd] in *. cbn [fst snd].
    apply (inv_moved b _ t); [done| |done|done|by constructor|by constructor|].
    + split; try done; cbn; by rewrite R2.
    + intros k r. unfold pends. cbn. rewrite R2. split.
      * intros [?|(u & Hu & Hh)]; [by left|]. right. exists u.
        split; [apply elem_of_cons; by right|done].
      * intros [?|(u & Hu & Hh)]; [by left|]. right.
        apply elem_of_cons in Hu as [->|Hu]; [by destruct (Hno k r)|]. eauto.
Qed.

Lemma corr_inv_note n b T : corr_inv b T → corr_inv (note n b) T.
Proof.
  intros [It Ir [] Io Iw [] Id]. split; try done; by split.
Qed.

Lemma holds_nothing_over t ts :
  (∀ key r, ¬ holds t key r) → Forall (λ t, quiet t = true) (t :: ts) →
  (∀ t' key r, t' ∈ ts → ¬ holds t' key r) → hands_over t ts None.
Proof.
  intros Hn [Hq Hqs]%Forall_cons Hns. split; try done.
  - intros t' key r Hin Hh. by destruct (Hns t' key r Hin).
  - intros key r Hh. by destruct (Hn key r).
Qed.

(** A task that is over without any effect. *)
Lemma inv_nothing b t R :
  corr_inv b (t :: R) → quiet t = true → (∀ key r, ¬ holds t key r) → corr_inv b R.
Proof.
  intros I Hq Hn. apply (inv_pass b t []); [done| |by constructor].
  apply holds_nothing_over; [done|by apply Forall_singleton|]. by intros ??? ?%not_elem_of_nil.
Qed.

Lemma inv_deliver e b R :
  corr_inv b (TDeliver e :: R) →
  corr_inv (deliver_correlated e b).2 ((deliver_correlated e b).1 ++ R).
Proof.
  intros I. unfold deliver_correlated.
  assert (event_version e ≤ 65535) as Hv by (apply (ci_tasks _ _ I (TDeliver e)), elem_of_cons; by left).
  destruct (request_id e) as [id|] eqn:Hid; [|by apply (inv_nothing b (TDeliver e)); [..|intros ?? []]].
  destruct (death_committed (correlated b) && negb (is_death_terminal (event_type e))).
  - apply corr_inv_note. by apply (inv_nothing b (TDeliver e)); [..|intros ?? []].
  - apply (inv_take_waiters (event_type e, id) e _ (TDeliver e)); try done; [by apply corr_inv_note|by split; eauto|].
    intros ?? [].
Qed.

Lemma inv_relatch e b R :
  corr_inv b (TRelatch e :: R) →
  corr_inv (relatch_correlated e b).2 ((relatch_correlated e b).1 ++ R).
Proof.
  intros I. unfold relatch_correlated.
  assert (env_ok e) as Hok by (apply (ci_tasks _ _ I (TRelatch e)), elem_of_cons; by left).
  destruct (request_id e) as [id|] eqn:Hid; [|by apply (inv_nothing b (TRelatch e)); [..|intros ?? []]].
  destruct (death_purged (correlated b)).
  - apply corr_inv_note. by apply (inv_nothing b (TRelatch e)); [..|intros ?? []].
  - apply (inv_take_waiters (event_type e, id) e _ (TRelatch e)); try done. intros ?? [].
Qed.

Lemma fire_correlated_fired e r b a :
  env_ok e → os_max_version r = 65535 → awaits b !! os_cell r = Some a →
  fired e r b (fire_correlated e r b).2.
Proof.
  intros [Hv _] Hm Ha. unfold fire_correlated. rewrite Hm.
  destruct (N.ltb_spec 65535 (event_version e)); [lia|]. rewrite Ha.
  destruct (send_arm e (aw_cell a)) as [acc cell] eqn:E.
  destruct acc; split; try (by split); exists a; rewrite E; done.
Qed.

Lemma fire_death_fired e r b a :
  awaits b !! os_cell r = Some a → fired e r b (fire_death e r b).
Proof.
  intros Ha. unfold fire_death. rewrite Ha.
  destruct (send_arm e (aw_cell a)) as [acc cell] eqn:E.
  destruct acc; split; try (by split); exists a; rewrite E; done.
Qed.

Lemma own_completion e key a h :
  event_type e = key.1 → request_id e = Some key.2 → arm_at a key h → own a e.
Proof.
  intros Ht Hid (Hk & [[? _]|[? _]]); (split; [congruence|]); rewrite Ht; auto.
Qed.

Lemma own_death l x now key a h : arm_at a key h → own a (death_env l x now key).
Proof.
  intros (Hk & Harm). unfold death_env, own. rewrite <-Hk.
  destruct key.1 eqn:E; cbn; auto; (split; [done|]).
  - destruct Harm as [[He _]|[He _]].
    + right; left. by destruct (expected_completion (aw_request a)).
    + by destruct (expected_completion (aw_request a)).
  - destruct Harm as [[He _]|[He _]]; auto.
Qed.

Lemma env_ok_death l x now key : env_ok (death_env l x now key).
Proof. unfold death_env, env_ok. destruct key.1; cbn; split; eauto; lia. Qed.

(** The record a task holds can be fired. *)
Lemma holds_record t key r b R :
  corr_inv b (t :: R) → holds t key r →
  os_max_version r = 65535 ∧ ∃ a, awaits b !! os_cell r = Some a.
Proof.
  intros I Hh. destruct (rec_arm _ _ (ci_records _ _ I) key r) as (? & a & ? & _); [|by eauto].
  right. exists t. split; [apply elem_of_cons; by left|done].
Qed.

Lemma head_ok t b R : corr_inv b (t :: R) → task_ok t.
Proof. intros I. apply (ci_tasks _ _ I), elem_of_cons. by left. Qed.

Lemma inv_tfire_missed clock e r b R :
  corr_inv b (TFireMissed e r :: R) →
  corr_inv (task_step clock (TFireMissed e r) b).2
    ((task_step clock (TFireMissed e r) b).1 ++ R).
Proof.
  intros I. pose proof (head_ok _ _ _ I) as Hok. pose proof Hok as (_ & id & Hid).
  set (key := (event_type e, id)). assert (holds (TFireMissed e r) key r) as Hh by done.
  destruct (holds_record _ _ _ _ _ I Hh) as (Hm & a & Ha).
  pose proof (fire_correlated_fired e r b a Hok Hm Ha) as Hf. cbn [task_step].
  destruct (fire_correlated e r b) as [[] b']; cbn [fst snd] in *.
  - apply corr_inv_note. eapply (inv_fire e r key (TFireMissed e r) []); try done.
    + intros a'. by apply own_completion.
    + split; try done; [by intros ??? ?%not_elem_of_nil|].
      intros k r' (-> & _). by left.
  - eapply (inv_fire e r key (TFireMissed e r) [TRelatch e]); try done.
    + intros a'. by apply own_completion.
    + split; try done.
      * by intros ??? ->%list_elem_of_singleton [].
      * intros k r' (-> & _). by left.
      * by apply Forall_singleton.
    + by apply Forall_singleton.
Qed.

Lemma inv_tfire clock e rs acc b R :
  corr_inv b (TFire e rs acc :: R) →
  corr_inv (task_step clock (TFire e rs acc) b).2
    ((task_step clock (TFire e rs acc) b).1 ++ R).
Proof.
  intros I. pose proof (head_ok _ _ _ I) as Hok. pose proof Hok as (_ & id & Hid).
  destruct rs as [|r rs]; cbn [task_step].
  - assert (∀ key r, ¬ holds (TFire e [] acc) key r) as Hn
      by (intros ?? (?%not_elem_of_nil & _); done).
    destruct acc.
    + apply corr_inv_note. by apply (inv_nothing b (TFire e [] true)).
    + apply (inv_pass b (TFire e [] false) [TRelatch e]); [done|..].
      * apply holds_nothing_over; [done|by repeat constructor|].
        by intros ??? ->%list_elem_of_singleton [].
      * by apply Forall_singleton.
  - set (key := (event_type e, id)).
    assert (holds (TFire e (r :: rs) acc) key r) as Hh
      by (split_and!; [apply elem_of_cons; by left|done..]).
    destruct (holds_record _ _ _ _ _ I Hh) as (Hm & a & Ha).
    pose proof (fire_correlated_fired e r b a Hok Hm Ha) as Hf.
    destruct (fire_correlated e r b) as [this b']; cbn [fst snd] in *.
    eapply (inv_fire e r key (TFire e (r :: rs) acc) [TFire e rs (acc || this)]); try done.
    + intros a'. by apply own_completion.
    + split; try done; [| |by apply Forall_singleton].
      * intros ? k r' ->%list_elem_of_singleton (Hin & ?). split; [|done].
        apply elem_of_cons. by right.
      * intros k r' ([->|Hin]%elem_of_cons & ?); [by left|right]. eexists.
        split; [by apply list_elem_of_singleton|done].
    + by apply Forall_singleton.
Qed.

Lemma inv_tdeath_fire clock l x now rs b R :
  corr_inv b (TDeathFire l x now rs :: R) →
  corr_inv (task_step clock (TDeathFire l x now rs) b).2
    ((task_step clock (TDeathFire l x now rs) b).1 ++ R).
Proof.
  intros I. destruct rs as [|[key r] rs]; cbn [task_step fst snd].
  - apply (inv_nothing b (TDeathFire l x now [])); try done. by intros ?? ?%not_elem_of_nil.
  - assert (holds (TDeathFire l x now ((key, r) :: rs)) key r) as Hh
      by (apply elem_of_cons; by left).
    destruct (holds_record _ _ _ _ _ I Hh) as (Hm & a & Ha).
    eapply (inv_fire (death_env l x now key) r key _ [TDeathFire l x now rs]); try done.
    + apply env_ok_death.
    + intros a'. apply own_death.
    + split; try done; [| |by apply Forall_singleton].
      * intros ? k r' ->%list_elem_of_singleton Hin. apply elem_of_cons. by right.
      * intros k r' [[= <- <-]|Hin]%elem_of_cons; [by left|right]. eexists.
        split; [by apply list_elem_of_singleton|done].
    + by apply Forall_singleton.
    + by eapply fire_death_fired.
Qed.

(** ** Steps on one await *)

Lemma on_await_insert c f b a :
  awaits b !! c = Some a → on_await c f b = with_awaits (<[c := f a]> (awaits b)) b.
Proof.
  intros Ha. unfold on_await. f_equal. apply map_eq. intros c'.
  destruct (decide (c' = c)) as [->|Hne].
  - by rewrite lookup_alter_eq, lookup_insert_eq, Ha.
  - by rewrite lookup_alter_ne, lookup_insert_ne.
Qed.

Lemma inv_await c a a' b T :
  corr_inv b T → awaits b !! c = Some a → keep a a' →
  (∀ e, cell_slot (aw_cell a') = Some e ∨ aw_phase a' = Resolved (Some e) →
        cell_slot (aw_cell a) = Some e ∨ aw_phase a = Resolved (Some e)) →
  (death_drained b = true → cell_tx (aw_cell a') = true → aw_phase a' = Waiting →
   aw_phase a = Waiting) →
  corr_inv (with_awaits (<[c := a']> (awaits b)) b) T.
Proof.
  intros [It Ir Ic Io Iw If Id] Ha Hk Hown Hd.
  assert (keeps (awaits b) (<[c := a']> (awaits b))) as K by by eapply keeps_insert.
  split; try done.
  - by apply (records_shrink b _ T).
  - intros c' x e Hx Hs. cbn in Hx. apply lookup_insert_Some in Hx as [[<- <-]|[_ Hx]]; [|by eapply Io].
    destruct (Io c a e Ha (Hown e Hs)) as [[Hid Ht] Hok]. split; [|done].
    unfold own. by rewrite (kp_request _ _ Hk).
  - by apply (wait_shrink b _ T).
  - destruct If. by split.
  - intros Hdr key r x Hl Hx Htx Hw. cbn in Hl, Hx, Hdr.
    apply lookup_insert_Some in Hx as [[Hc <-]|[_ Hx]]; [|by eapply Id].
    eapply (Id Hdr key r a Hl); [by rewrite <-Hc|by apply (kp_tx _ _ Hk)|by apply Hd].
Qed.

(** Away from a phase other than the first. *)
Lemma keep_phase a a' b T c :
  corr_inv b T → awaits b !! c = Some a → aw_phase a ≠ ArmingSuccess → aw_phase a ≠ Dropping →
  (aw_phase a = ArmingFailure → failure_event_type (expected_completion (aw_request a)) = None) →
  aw_request a' = aw_request a → aw_success a' = aw_success a → aw_failure a' = aw_failure a →
  (aw_phase a' = ArmingSuccess ∨ aw_phase a' = ArmingFailure → aw_phase a' = aw_phase a) →
  (cell_tx (aw_cell a') = true → cell_tx (aw_cell a) = true) → keep a a'.
Proof.
  intros I Ha Hn Hd Hnf Hr Hs Hf Ho Ht. split; try done.
  - intros E. by destruct (Hn (rec_phase _ _ (ci_records _ _ I) _ _ Ha E)).
  - intros E Hty. destruct (rec_armed _ _ (ci_records _ _ I) _ _ Ha E Hty) as [?|Hp]; [done|].
    by destruct (Hty (Hnf Hp)).
Qed.

Lemma inv_check_death c b R :
  corr_inv b (TCheckDeath c :: R) →
  corr_inv (check_death_step c b).2 ((check_death_step c b).1 ++ R).
Proof.
  intros I. unfold check_death_step.
  assert (corr_inv b R) as I' by (apply (inv_nothing b (TCheckDeath c)); [done..|intros ?? []]).
  destruct (awaits b !! c) as [a|] eqn:Ha; [|done]. destruct (aw_phase a) eqn:Hp; try done.
  assert (∀ p, p ≠ ArmingSuccess → p ≠ ArmingFailure → keep a (set_phase p a)) as Hk
    by (intros ???; eapply keep_phase; try done; cbn; [congruence..|by intros [?|?]]).
  destruct (loop_death_observed b) eqn:Ho; cbn [fst snd]; rewrite (on_await_insert c _ b a Ha).
  - eapply inv_await; try done; [|by apply Hk|by intros e [?|?]; [left|]].
    apply (inv_pass b (TCheckDeath c) [TClaim c]); [done| |by apply Forall_singleton].
    apply holds_nothing_over; [intros ?? []|by repeat constructor|].
    by intros ??? ->%list_elem_of_singleton [].
  - eapply inv_await; try done; [by apply Hk|by intros e [?|?]; [left|]|].
    intros Hd. by rewrite (fi_observed _ _ (ci_flags _ _ I) Hd) in Ho.
Qed.

Lemma inv_claim c b R : corr_inv b (TClaim c :: R) → corr_inv (claim_step c b) R.
Proof.
  intros I. unfold claim_step.
  assert (corr_inv b R) as I' by (apply (inv_nothing b (TClaim c)); [done..|intros ?? []]).
  destruct (awaits b !! c) as [a|] eqn:Ha; [|done]. destruct (aw_phase a) eqn:Hp; try done.
  destruct (cell_tx (aw_cell a)) eqn:Ht; rewrite (on_await_insert c _ b a Ha);
    (eapply inv_await; try done; [eapply keep_phase; try done; cbn; [congruence..|by intros [?|?]]|..]).
  - by intros e [?|?]; [left|].
  - by intros e [?|?]; [left|].
  - cbn. congruence.
Qed.

Lemma inv_reclaim c b R :
  corr_inv b (TReclaim c :: R) → corr_inv (reclaim_step c b).2 ((reclaim_step c b).1 ++ R).
Proof.
  intros I. unfold reclaim_step.
  assert (corr_inv b R) as I' by (apply (inv_nothing b (TReclaim c)); [done..|intros ?? []]).
  destruct (awaits b !! c) as [a|] eqn:Ha; [|done].
  destruct (cell_tx (aw_cell a)) eqn:Ht; cbn [fst snd].
  - rewrite (on_await_insert c _ b a Ha). by eapply inv_await.
  - destruct (cell_slot (aw_cell a)) as [e|] eqn:Hs; [|done]. cbn [fst snd].
    apply corr_inv_note. rewrite (on_await_insert c _ b a Ha).
    eapply inv_await; try done.
    + apply (inv_pass b (TReclaim c) [TRelatch e]); [done|..].
      * apply holds_nothing_over; [intros ?? []|by repeat constructor|].
        by intros ??? ->%list_elem_of_singleton [].
      * apply Forall_singleton. eapply (ci_own _ _ I); eauto.
    + intros e' [?|?]; [done|]. by right.
Qed.

Lemma inv_drop_rx c b R :
  corr_inv b (TDropRx c :: R) →
  corr_inv (on_await c (λ a, set_cell (mkCell (cell_tx (aw_cell a)) None false) a) b) R.
Proof.
  intros I. assert (corr_inv b R) as I' by (apply (inv_nothing b (TDropRx c)); [done..|intros ?? []]).
  destruct (awaits b !! c) as [a|] eqn:Ha.
  - rewrite (on_await_insert c _ b a Ha). eapply inv_await; try done.
    intros e [?|?]; [done|by right].
  - unfold on_await. rewrite alter_id; [by destruct b|]. intros x Hx. by rewrite Ha in Hx.
Qed.

(** ** Unsubscribing *)

Lemma unsubscribe_live h b key r :
  is_live (live (correlated (unsubscribe h b))) key r ↔
  is_live (live (correlated b)) key r ∧ os_handle r ≠ h.
Proof.
  unfold is_live, unsubscribe. cbn. split.
  - intros (rs & [Hl _]%map_lookup_filter_Some & Hin).
    rewrite lookup_fmap in Hl. apply fmap_Some in Hl as (rs0 & Hl & ->).
    apply list_elem_of_filter in Hin as [? Hin]. eauto.
  - intros [(rs & Hl & Hin) Hne].
    assert (r ∈ filter (λ r, os_handle r ≠ h) rs) as Hin' by by apply list_elem_of_filter.
    exists (filter (λ r, os_handle r ≠ h) rs). split; [|done].
    apply map_lookup_filter_Some. rewrite lookup_fmap, Hl. split; [done|].
    cbn. intros E. rewrite E in Hin'. by apply not_elem_of_nil in Hin'.
Qed.

Lemma unsubscribe_reg h b : reg_inv (correlated b) → reg_inv (correlated (unsubscribe h b)).
Proof.
  intros [Hm Ha Hc Hr]. unfold unsubscribe. split; try done. cbn.
  intros key rs [Hl Hne]%map_lookup_filter_Some. split; [done|].
  rewrite lookup_fmap in Hl. apply fmap_Some in Hl as (rs0 & Hl & _). by apply (Ha key rs0).
Qed.

Lemma inv_unsub h b R : corr_inv b (TUnsub h :: R) → corr_inv (unsubscribe h b) R.
Proof.
  intros I. pose proof I as [It Ir Ic Io Iw If Id].
  assert (∀ key r, pends (unsubscribe h b) R key r → pends b (TUnsub h :: R) key r) as Hback.
  { intros key r [Hl|(t & Hin & Hh)]; [by apply unsubscribe_live in Hl as [? _]; left|right].
    exists t. split; [apply elem_of_cons; by right|done]. }
  split.
  - intros t Ht. apply It, elem_of_cons. by right.
  - by apply unsubscribe_reg.
  - apply (records_shrink b _ (TUnsub h :: R)); try done; [apply keeps_refl|].
    intros h' ?. apply elem_of_cons. by right.
  - done.
  - apply (wait_shrink b _ (TUnsub h :: R)); [done|apply keeps_refl|].
    intros key r a' Hp Ha' _ Hnd.
    destruct (decide (os_handle r = h)) as [He|Hne].
    + exfalso. destruct (rec_unsub _ _ Ic h) as (c0 & a0 & Ha0 & Hin0 & Hd0).
      { apply elem_of_cons. by left. }
      destruct (rec_arm _ _ Ic key r Hp) as (_ & a1 & Ha1 & (_ & Harm)).
      assert (h ∈ arms a1) as Hin1.
      { unfold arms. apply elem_of_app. rewrite <-He.
        destruct Harm as [[_ ->]|[_ ->]]; [left|right]; by apply list_elem_of_singleton. }
      pose proof (rec_apart _ _ Ic _ _ _ _ _ Ha0 Ha1 Hin0 Hin1) as ->. cbn in Ha'. congruence.
    + destruct Hp as [Hl|(t & Hin & Hh)]; [left; by apply unsubscribe_live|right].
      apply elem_of_cons in Hin as [->|Hin]; [done|]. eauto.
  - apply (flags_same b _ (TUnsub h :: R)); [|done]. split; try done.
    intros t Ht. rewrite elem_of_cons. split; [by intros [->|?]|intros; by right].
  - intros Hd key r a Hl. apply unsubscribe_live in Hl as [Hl _]. exact (Id Hd key r a Hl).
Qed.

(** ** Arming *)

Lemma take_first_spec key l :
  match take_first key l with
  | Some (e, l') => (key, e) :: l' ≡ₚ l
  | None => ∀ e, (key, e) ∉ l
  end.
Proof.
  induction l as [|[k e] l IH]; cbn [take_first]; [by intros e ?%not_elem_of_nil|].
  destruct (decide (k = key)) as [->|Hne]; [done|].
  destruct (take_first key l) as [[e' l']|]; cbn.
  - rewrite <-IH. apply perm_swap.
  - intros e' [[= -> _]|Hin]%elem_of_cons; [done|by eapply IH].
Qed.

Lemma subscribe_spec t key c b :
  reg_inv (correlated b) →
  let r := mkOneShot (next_subscriber b) 65535 c in
  let '(id, fire, b') := subscribe_correlated t key c b in
  id = next_subscriber b ∧ next_subscriber b' = next_subscriber b + 1 ∧
  next_await b' = next_await b ∧ awaits b' = awaits b ∧ notes b' = notes b ∧
  loop_failed b' = loop_failed b ∧ loop_death_observed b' = loop_death_observed b ∧
  death_drained b' = death_drained b ∧
  death_committed (correlated b') = death_committed (correlated b) ∧
  reg_inv (correlated b') ∧
  ((∃ e, fire = [TFireMissed e r] ∧ env_ok e ∧ request_id e = Some key ∧ event_type e = t ∧
     live (correlated b') = live (correlated b) ∧
     ((t, key), e) :: missed (correlated b') ≡ₚ missed (correlated b)) ∨
   (fire = [] ∧ missed (correlated b') = missed (correlated b) ∧
    ∀ k x, is_live (live (correlated b')) k x ↔
      is_live (live (correlated b)) k x ∨ (k = (t, key) ∧ x = r))).
Proof.
  intros [Hm Ha Hc Hr] r. unfold subscribe_correlated, take_missed. cbn [correlated].
  pose proof (take_first_spec (t, key) (missed (correlated b))) as Ht.
  destruct (take_first (t, key) (missed (correlated b))) as [[e l]|] eqn:E; cbn.
  - assert (∀ x, x ∈ l → x ∈ missed (correlated b)) as Hsub
      by (intros x Hx; rewrite <-Ht; apply elem_of_cons; by right).
    destruct (Hm (t, key) e) as (He & Hid & Het); [rewrite <-Ht; apply elem_of_cons; by left|].
    split_and!; try done.
    + split; cbn; [eauto| |apply Permutation_length in Ht; cbn in Ht; lia|done].
      intros k rs Hl. destruct (Ha k rs Hl) as [? Hn]. split; [done|].
      intros e' Hin. by apply (Hn e'), Hsub.
    + left. eauto 10.
  - split_and!; try done.
    + split; try done. cbn. intros k rs [[<- <-]|[_ Hl]]%lookup_insert_Some; [|by eapply Ha].
      split; [|done]. by destruct (default [] _).
    + right. split_and!; [done..|]. intros k x. unfold is_live. split.
      * intros (rs & [[<- <-]|[Hne Hl]]%lookup_insert_Some & Hin); [|left; eauto].
        apply elem_of_app in Hin as [Hin|Hin%list_elem_of_singleton]; [left|by right].
        destruct (live (correlated b) !! (t, key)) as [rs|]; cbn in Hin; [eauto|].
        by apply not_elem_of_nil in Hin.
      * intros [(rs & Hl & Hin)|[-> ->]].
        -- destruct (decide (k = (t, key))) as [->|Hne].
           ++ eexists. rewrite lookup_insert_eq, Hl. split; [done|]. apply elem_of_app. by left.
           ++ exists rs. by rewrite lookup_insert_ne.
        -- eexists. rewrite lookup_insert_eq. split; [done|]. apply elem_of_app. right.
           by apply list_elem_of_singleton.
Qed.

(** What arming with record [id] at event type [t] makes of an await. *)
Record arms_with (a a' : Await) (t : EventType) (id : N) : Prop := mkArmsWith {
  aw_same : aw_request a' = aw_request a ∧ aw_cell a' = aw_cell a;
  aw_which :
    (aw_phase a = ArmingSuccess ∧ t = to_event_type (expected_completion (aw_request a)) ∧
     aw_success a' = Some id ∧ aw_failure a' = aw_failure a ∧ aw_phase a' = ArmingFailure) ∨
    (aw_phase a = ArmingFailure ∧
     failure_event_type (expected_completion (aw_request a)) = Some t ∧
     aw_success a' = aw_success a ∧ aw_failure a' = Some id ∧ aw_phase a' = ArmingDone);
}.

Lemma arms_with_arms a a' t id h b T c :
  records_inv b T → awaits b !! c = Some a → arms_with a a' t id →
  h ∈ arms a' ↔ h ∈ arms a ∨ h = id.
Proof.
  intros Hr Ha [_ W]. destruct (rec_open _ _ Hr c a Ha) as [O1 O2]. unfold arms.
  destruct W as [(Hp & _ & -> & -> & _)|(Hp & _ & -> & -> & _)].
  - destruct (O1 Hp) as [-> ->]. cbn. rewrite list_elem_of_singleton.
    split; [by right|]. by intros [?%not_elem_of_nil|?].
  - rewrite (O2 Hp). cbn. by rewrite app_nil_r, elem_of_app, list_elem_of_singleton.
Qed.

Lemma arms_with_arm_at a a' t id key h b T c :
  records_inv b T → awaits b !! c = Some a → arms_with a a' t id →
  arm_at a key h → arm_at a' key h.
Proof.
  intros Hr Ha [[Hq _] W]. destruct (rec_open _ _ Hr c a Ha) as [O1 O2]. unfold arm_at. rewrite Hq.
  intros [? H]. split; [done|].
  destruct W as [(Hp & _ & -> & -> & _)|(Hp & _ & -> & -> & _)].
  - destruct (O1 Hp) as [E1 E2]. rewrite E1, E2 in H. by destruct H as [[_ ?]|[_ ?]].
  - rewrite (O2 Hp) in H. destruct H as [?|[_ ?]]; [by left|done].
Qed.

Section Arm.
Context (c : N) (a a' : Await) (t : EventType) (b b' : CorrelatedBus) (fire R : list Task).
Context (I : corr_inv b (TArm c :: R)) (Ha : awaits b !! c = Some a)
  (W : arms_with a a' t (next_subscriber b)).
Let key : Key := (t, handle_id (aw_request a)).
Let r : OneShotRecord := mkOneShot (next_subscriber b) 65535 c.
Context (Hpends : ∀ k x, pends b' (fire ++ R) k x ↔ pends b (TArm c :: R) k x ∨ (k = key ∧ x = r))
  (Hsub : next_subscriber b' = next_subscriber b + 1) (Hnext : next_await b' = next_await b)
  (Haw : awaits b' = <[c := a']> (awaits b))
  (Hq : Forall (λ t, quiet t = true) fire).

Lemma arm_records : records_inv b' (fire ++ R).
Proof using All.
  pose proof (ci_records _ _ I) as Ic. pose proof Ic as [A F P U Ph Ar Op Wt].
  pose proof W as [[Eq Ec] Wh].
  assert (∀ h, h ∈ arms a' ↔ h ∈ arms a ∨ h = next_subscriber b) as Harms
    by (intros; by eapply arms_with_arms).
  assert (∀ d x h, awaits b' !! d = Some x → h ∈ arms x →
    (d = c ∧ h = next_subscriber b) ∨ ∃ y, awaits b !! d = Some y ∧ h ∈ arms y) as Hback.
  { intros d x h Hd Hin. rewrite Haw in Hd. apply lookup_insert_Some in Hd as [[<- <-]|[_ Hd]]; [|eauto].
    apply Harms in Hin as [?| ->]; eauto. }
  split.
  - intros k x Hp. apply Hpends in Hp as [Hp|[-> ->]].
    + destruct (A k x Hp) as (? & y & Hy & Hat). split; [done|]. rewrite Haw.
      destruct (decide (os_cell x = c)) as [E|Hne].
      * exists a'. rewrite E, lookup_insert_eq. split; [done|]. rewrite E, Ha in Hy.
        injection Hy as <-. by eapply arms_with_arm_at.
      * exists y. by rewrite lookup_insert_ne.
    + split; [done|]. exists a'. rewrite Haw. cbn [os_cell r]. rewrite lookup_insert_eq.
      split; [done|]. unfold arm_at, key. cbn. rewrite Eq. split; [done|].
      destruct Wh as [(_ & -> & -> & _)|(_ & -> & _ & -> & _)]; auto.
  - intros d x h Hd Hin. rewrite Hsub.
    destruct (Hback d x h Hd Hin) as [[_ ->]|(y & Hy & Hin')]; [lia|]. specialize (F d y h Hy Hin'). lia.
  - intros d d' x x' h Hd Hd' Hin Hin'.
    destruct (Hback d x h Hd Hin) as [[-> Hh]|(y & Hy & Hy')],
      (Hback d' x' h Hd' Hin') as [[-> Hh']|(z & Hz & Hz')]; try done.
    + subst h. specialize (F _ _ _ Hz Hz'). lia.
    + subst h. specialize (F _ _ _ Hy Hy'). lia.
    + by eapply P.
  - intros h Hin. destruct (U h) as (d & y & Hy & Hin' & Hd).
    { apply elem_of_cons. right. by eapply quiet_unsub. }
    exists d, y. rewrite Haw. split; [|done]. rewrite lookup_insert_ne; [done|].
    intros <-. rewrite Ha in Hy. injection Hy as <-.
    destruct Wh as [(E & _)|(E & _)]; by rewrite E in Hd.
  - intros d x Hd Hs. rewrite Haw in Hd. apply lookup_insert_Some in Hd as [[<- <-]|[_ Hd]]; [|eauto].
    destruct Wh as [(_ & _ & E & _)|(E & _ & Es & _)]; [by rewrite E in Hs|].
    rewrite Es in Hs. specialize (Ph _ _ Ha Hs). congruence.
  - intros d x Hd Hf Hty. rewrite Haw in Hd.
    apply lookup_insert_Some in Hd as [[<- <-]|[_ Hd]]; [|eauto].
    destruct Wh as [(_ & _ & _ & _ & ->)|(_ & _ & _ & E & _)]; [by right|by rewrite E in Hf].
  - intros d x Hd. rewrite Haw in Hd. apply lookup_insert_Some in Hd as [[<- <-]|[_ Hd]]; [|eauto].
    destruct (Op _ _ Ha) as [O1 _].
    destruct Wh as [(E & _ & _ & -> & ->)|(_ & _ & _ & _ & ->)]; (split; [done|]); [|done].
    intros _. by apply O1.
  - intros d x Hd. rewrite Hnext. rewrite Haw in Hd.
    apply lookup_insert_Some in Hd as [[<- <-]|[_ Hd]]; eauto.
Qed.

Lemma arm_wait : wait_inv b' (fire ++ R).
Proof using All.
  pose proof W as [[Eq Ec] Wh]. intros d x k h Hd Hs Ht Hnd. rewrite Haw in Hd.
  apply lookup_insert_Some in Hd as [[<- <-]|[_ Hd]].
  - assert (aw_phase a ≠ Dropping) as Hnd' by (destruct Wh as [[-> _]|[-> _]]; done).
    assert (arm_at a k h ∨ (k = key ∧ h = next_subscriber b)) as [Hold|[-> ->]].
    { unfold arm_at in *. rewrite Eq in Hs. destruct Hs as [Hk Hs]. unfold key.
      destruct k as [k1 k2]; cbn in *. subst k2.
      destruct Wh as [(_ & -> & E1 & E2 & _)|(_ & Et & E1 & E2 & _)]; rewrite E1, E2 in Hs;
        destruct Hs as [[? Hs]|[? Hs]]; auto; right; split; congruence. }
    + rewrite Ec in Ht. destruct (ci_wait _ _ I c a k h Ha Hold Ht Hnd') as (y & ? & ? & Hy).
      exists y. split_and!; [done..|]. apply Hpends. by left.
    + exists r. split_and!; [done..|]. apply Hpends. by right.
  - destruct (ci_wait _ _ I d x k h Hd Hs Ht Hnd) as (y & ? & ? & Hy). exists y.
    split_and!; [done..|]. apply Hpends. by left.
Qed.

Lemma arm_own : own_inv b'.
Proof using All.
  pose proof W as [[Eq Ec] Wh]. intros d x e Hd Hs. rewrite Haw in Hd.
  apply lookup_insert_Some in Hd as [[<- <-]|[_ Hd]]; [|by eapply (ci_own _ _ I)].
  rewrite Ec in Hs. destruct (ci_own _ _ I c a e Ha) as [Ho Hok].
  - destruct Hs as [?|Hs]; [by left|].
    destruct Wh as [(_ & _ & _ & _ & E)|(_ & _ & _ & _ & E)]; by rewrite E in Hs.
  - split; [|done]. unfold own. by rewrite Eq.
Qed.
End Arm.

Lemma inv_subscribe c a a' t b R :
  corr_inv b (TArm c :: R) → awaits b !! c = Some a →
  arms_with a a' t (next_subscriber b) →
  let '(id, fire, b') := subscribe_correlated t (handle_id (aw_request a)) c b in
  corr_inv (with_awaits (<[c := a']> (awaits b')) b') ((fire ++ [TArm c]) ++ R).
Proof.
  intros I Ha W. pose proof (subscribe_spec t (handle_id (aw_request a)) c b (ci_reg _ _ I)) as S.
  destruct (subscribe_correlated t (handle_id (aw_request a)) c b) as [[id fire] b1].
  destruct S as (-> & Sn & Sa & Saw & _ & Sf & So & Sd & Sc & Sr & Scase).
  set (r := mkOneShot (next_subscriber b) 65535 c) in *.
  set (key := (t, handle_id (aw_request a))) in *.
  set (b' := with_awaits (<[c := a']> (awaits b1)) b1).
  assert (awaits b' = <[c := a']> (awaits b)) as Haw by (cbn; by rewrite Saw).
  assert (Forall (λ t, quiet t = true) (fire ++ [TArm c]) ∧ Forall task_ok (fire ++ [TArm c]))
    as [Hq Hok].
  { destruct Scase as [(e & -> & He & _)|(-> & _)]; split; by repeat constructor; try done; apply He. }
  assert (∀ k x, pends b' ((fire ++ [TArm c]) ++ R) k x ↔
    pends b (TArm c :: R) k x ∨ (k = key ∧ x = r)) as Hp.
  { intros k x. rewrite <-app_assoc. unfold pends. cbn [app].
    destruct Scase as [(e & -> & He & Hid & Het & Hl & _)|(-> & _ & Hl)]; cbn [app correlated b' with_awaits].
    - rewrite Hl. split.
      + intros [?|(u & [->|Hu]%elem_of_cons & Hh)]; [by do 2 left| |left; right; eauto].
        destruct Hh as (-> & E1 & E2). right. split; [|done]. unfold key. destruct k; cbn in *. congruence.
      + intros [[?|(u & Hu & Hh)]|[-> ->]]; [by left|right; exists u; split; [apply elem_of_cons; by right|done]|].
        right. exists (TFireMissed e r). split; [apply elem_of_cons; by left|]. by split_and!.
    - rewrite Hl. naive_solver. }
  split.
  - intros u [Hu|Hu]%elem_of_app; [by eapply Forall_forall in Hu|].
    apply (ci_tasks _ _ I), elem_of_cons. by right.
  - done.
  - by eapply (arm_records c a a' t b b').
  - by eapply (arm_own c a a' t b b' (fire ++ [TArm c]) R).
  - by eapply (arm_wait c a a' t b b').
  - apply (flags_same b _ (TArm c :: R)); [|apply (ci_flags _ _ I)]. split; try done.
    intros u Hu. by apply quiet_tasks.
  - intros Hd k x y Hl Hy Ht. rewrite Haw in Hy. cbn in Hl, Hd. rewrite Sd in Hd.
    apply lookup_insert_Some in Hy as [[Hc <-]|[Hne Hy]].
    + destruct W as [_ [(_ & _ & _ & _ & ->)|(_ & _ & _ & _ & ->)]]; done.
    + assert (is_live (live (correlated b)) k x) as Hl'.
      { destruct Scase as [(e & _ & _ & _ & _ & El & _)|(_ & _ & El)]; [by rewrite El in Hl|].
        apply El in Hl as [?|[_ ->]]; done. }
      by apply (ci_drained _ _ I Hd k x y).
Qed.

Lemma subscribe_awaits t key c b id fire b' :
  subscribe_correlated t key c b = (id, fire, b') → awaits b' = awaits b ∧ id = next_subscriber b.
Proof.
  unfold subscribe_correlated. destruct (take_missed _ _) as [[e|] reg]; intros [= <- _ <-]; done.
Qed.

Lemma inv_arm_step c b R :
  corr_inv b (TArm c :: R) → corr_inv (arm_step c b).2 ((arm_step c b).1 ++ R).
Proof.
  intros I. unfold arm_step.
  assert (corr_inv b R) as I' by (apply (inv_nothing b (TArm c)); [done..|intros ?? []]).
  destruct (awaits b !! c) as [a|] eqn:Ha; [|done].
  assert ((aw_phase a = ArmingFailure →
      failure_event_type (expected_completion (aw_request a)) = None) →
    aw_phase a = ArmingFailure ∨ aw_phase a = ArmingDone →
    corr_inv (on_await c (set_phase Armed) b) R) as Hdone.
  { intros Hnf Hp. rewrite (on_await_insert c _ b a Ha). eapply inv_await; try done.
    - eapply keep_phase; try done; cbn; [by destruct Hp as [->| ->]..|by intros [?|?]].
    - by intros e [?|?]; [left|]. }
  destruct (aw_phase a) eqn:Hp; try done; try by (cbn; apply Hdone; auto).
  - pose proof (inv_subscribe c a (set_success (next_subscriber b) a) _ b R I Ha
      ltac:(split; [done|left; split_and!; done])) as S.
    destruct (subscribe_correlated _ _ _ _) as [[id fire] b1] eqn:E. cbn [fst snd].
    destruct (subscribe_awaits _ _ _ _ _ _ _ E) as [Ew ->].
    rewrite (on_await_insert c _ b1 a) by (by rewrite Ew). exact S.
  - destruct (failure_event_type _) as [t|] eqn:Hf; [|cbn; apply Hdone; auto].
    pose proof (inv_subscribe c a (set_failure (next_subscriber b) a) t b R I Ha
      ltac:(split; [done|right; split_and!; done])) as S.
    destruct (subscribe_correlated _ _ _ _) as [[id fire] b1] eqn:E. cbn [fst snd].
    destruct (subscribe_awaits _ _ _ _ _ _ _ E) as [Ew ->].
    rewrite (on_await_insert c _ b1 a) by (by rewrite Ew). exact S.
Qed.

(** ** Loop deaths *)

Definition idle_task (t : Task) : Prop :=
  (∀ key r, ¬ holds t key r) ∧ (∀ h, t ≠ TUnsub h) ∧ task_ok t.

Lemma inv_death b b' t ts R :
  corr_inv b (t :: R) → awaits b' = awaits b → same_ids b b' →
  live (correlated b') = live (correlated b) → death_drained b' = death_drained b →
  reg_inv (correlated b') → idle_task t → Forall idle_task ts → flags_inv b' (ts ++ R) →
  corr_inv b' (ts ++ R).
Proof.
  intros [It Ir Ic Io Iw If Id] Ea Ei El Ed Hr [Ht [Htu _]] Hts Hf.
  rewrite Forall_forall in Hts.
  assert (∀ key r, pends b' (ts ++ R) key r ↔ pends b (t :: R) key r) as Hp.
  { intros key r. unfold pends. rewrite El. split.
    - intros [?|(u & [Hu|Hu]%elem_of_app & Hh)]; [by left| |].
      + by destruct (proj1 (Hts u Hu) key r).
      + right. exists u. split; [apply elem_of_cons; by right|done].
    - intros [?|(u & [->|Hu]%elem_of_cons & Hh)]; [by left|by destruct (Ht key r)|].
      right. exists u. split; [apply elem_of_app; by right|done]. }
  split; try done.
  - intros u [Hu|Hu]%elem_of_app; [by apply Hts|]. apply It, elem_of_cons. by right.
  - apply (records_shrink b b' (t :: R)); [done..|rewrite Ea; apply keeps_refl| |].
    + intros ??. apply Hp.
    + intros h [Hu|Hu]%elem_of_app; [by destruct (proj1 (proj2 (Hts _ Hu)) h)|].
      apply elem_of_cons. by right.
  - intros c a x. rewrite Ea. apply Io.
  - apply (wait_shrink b b' (t :: R)); [done|rewrite Ea; apply keeps_refl|].
    intros key r a' H _ _ _. by apply Hp.
  - unfold drained_inv. rewrite Ed, El, Ea. apply Id.
Qed.

Ltac idle := split; [intros ?? []|split; [by intros ?|done]].

Lemma flags_move b b' t ts R :
  flags_inv b (t :: R) → loop_failed b' = loop_failed b → death_drained b' = death_drained b →
  death_committed (correlated b') = death_committed (correlated b) →
  (loop_death_observed b = true → loop_death_observed b' = true) →
  (∀ u, u ∈ ts → after_observe u = true → loop_death_observed b' = true) →
  (after_latch t = true → ∃ u, u ∈ ts ∧ after_latch u = true) →
  (after_commit t = true → loop_failed b = true ∨ ∃ u, u ∈ ts ∧ after_commit u = true) →
  flags_inv b' (ts ++ R).
Proof.
  intros [F1 F2 F3 F4] Ef Ed Ec Ho Hts Hl Hc.
  assert (loop_failed b = true → death_drained b = true ∨
    ∃ u, u ∈ ts ++ R ∧ after_latch u = true) as F3'.
  { intros H. destruct (F3 H) as [?|(u & [->|Hu]%elem_of_cons & Hu')]; [by left| |].
    - right. destruct (Hl Hu') as (u & Hu & ?). exists u. split; [apply elem_of_app; by left|done].
    - right. exists u. split; [apply elem_of_app; by right|done]. }
  split; rewrite ?Ef, ?Ed, ?Ec; auto.
  - intros u [Hu|Hu]%elem_of_app Hobs; [by eapply Hts|]. apply Ho, (F2 u); [|done].
    apply elem_of_cons. by right.
  - intros H. destruct (F4 H) as [?|(u & [->|Hu]%elem_of_cons & Hu')]; [by left| |].
    + destruct (Hc Hu') as [Hlf|(u & Hu & ?)].
      * destruct (F3' Hlf) as [?|(u & Hu & ?)]; [by left|right]. exists u.
        split; [done|by apply after_latch_commit].
      * right. exists u. split; [apply elem_of_app; by left|done].
    + right. exists u. split; [apply elem_of_app; by right|done].
Qed.

Lemma reg_inv_death x y r : reg_inv r → reg_inv (set_death x y r).
Proof. by intros []. Qed.

Lemma reg_inv_purge r : reg_inv r → reg_inv (set_missed [] r).
Proof.
  intros [Hm Ha Hc Hr]. split; cbn; try done.
  - by intros ?? ?%not_elem_of_nil.
  - intros key rs Hl. split; [by apply (Ha key rs)|]. by intros ? ?%not_elem_of_nil.
  - lia.
Qed.

(** The tasks of a death that neither commit nor drain. *)
Definition death_task (t : Task) : bool :=
  match t with
  | TDeath _ _ | TDeathStopped _ _ | TObserve | TObserveThen _ _ _ | TLatchFailed _ _
  | TStateFailed _ | TBroadcast _ _ | TShutdown | TStopDispatch => true
  | _ => false
  end.

Lemma latch_flags clock l x b R :
  flags_inv b (TLatchFailed l x :: R) →
  flags_inv (task_step clock (TLatchFailed l x) b).2
    ((task_step clock (TLatchFailed l x) b).1 ++ R).
Proof.
  intros F. cbn [task_step].
  destruct (loop_failed b) eqn:Hl; cbn [fst snd].
  - eapply flags_move; try done; [by intros ? ?%not_elem_of_nil|by left].
  - destruct F as [F1 F2 F3 F4].
    assert (loop_death_observed b = true) as Ho
      by (apply (F2 (TLatchFailed l x)); [apply elem_of_cons; by left|done]).
    set (ts := (if decide (l = LoopDispatch) then _ else _) ++ _).
    assert (TDrain l x ∈ ts ++ R) as Hd.
    { apply elem_of_app. left. unfold ts. apply elem_of_app. right. apply elem_of_cons. by left. }
    split; cbn; auto.
    + intros _. right. eauto.
    + intros _. right. eauto.
Qed.

Lemma inv_death_tasks clock t b R :
  death_task t = true → corr_inv b (t :: R) →
  corr_inv (task_step clock t b).2 ((task_step clock t b).1 ++ R).
Proof.
  intros Ht I. pose proof (ci_flags _ _ I) as F. pose proof (ci_reg _ _ I) as Hr.
  destruct t; try done.
  - cbn [task_step]. destruct (shutting_down b); [|destruct (decide _)]; cbn [fst snd];
      (eapply inv_death; try done; [idle|apply Forall_singleton; idle|]);
      eapply flags_move; try done; by intros ? ->%list_elem_of_singleton.
  - cbn [task_step]. destruct (decide _); cbn [fst snd];
      (eapply inv_death; try done; [idle|apply Forall_singleton; idle|]);
      eapply flags_move; try done; by intros ? ->%list_elem_of_singleton.
  - cbn [task_step fst snd]. eapply inv_death; try done; [idle|].
    eapply flags_move; try done; by intros ? ?%not_elem_of_nil.
  - cbn [task_step fst snd]. destruct shutdown;
      (eapply inv_death; try done; [idle|apply Forall_singleton; idle|]);
      (eapply flags_move; try done; right; eexists; split; [by apply list_elem_of_singleton|done]).
  - pose proof (latch_flags clock l x b R F) as F'. cbn [task_step] in *.
    destruct (loop_failed b) eqn:Hl; cbn [fst snd] in *.
    + eapply inv_death; try done; idle.
    + eapply inv_death; try done; [idle|].
      destruct (decide _); repeat (constructor; [idle|]); constructor.
  - cbn [task_step fst snd]. eapply inv_death; try done; [idle|].
    eapply flags_move; try done; by intros ? ?%not_elem_of_nil.
  - cbn [task_step fst snd]. eapply inv_death; try done; [idle|].
    eapply flags_move; try done; by intros ? ?%not_elem_of_nil.
  - cbn [task_step fst snd]. eapply inv_death; try done; [idle|].
    eapply flags_move; try done; by intros ? ?%not_elem_of_nil.
  - cbn [task_step fst snd]. eapply inv_death; try done; [idle|].
    eapply flags_move; try done; by intros ? ?%not_elem_of_nil.
Qed.

Lemma inv_commit clock shutdown l x b R :
  corr_inv b (TCommit shutdown l x :: R) →
  corr_inv (task_step clock (TCommit shutdown l x) b).2
    ((task_step clock (TCommit shutdown l x) b).1 ++ R).
Proof.
  intros I. pose proof (ci_flags _ _ I) as [F1 F2 F3 F4]. pose proof (ci_reg _ _ I) as Hr.
  cbn [task_step fst snd]. set (b' := if shutdown then _ else _).
  assert (flags_inv b' ([TObserveThen shutdown l x] ++ R)) as F.
  { assert (∀ u, u ∈ R → u ∈ TCommit shutdown l x :: R) as Hin
      by (intros; apply elem_of_cons; by right).
    assert (loop_failed b' = loop_failed b ∧ loop_death_observed b' = loop_death_observed b ∧
      death_drained b' = death_drained b) as (E1 & E2 & E3) by by destruct shutdown.
    split; rewrite ?E1, ?E2, ?E3; auto.
    - intros u [->|Hu]%elem_of_cons Ho; [done|]. by eapply F2; [apply Hin|].
    - intros H. destruct (F3 H) as [?|(u & [->|Hu]%elem_of_cons & Hl)]; [by left|done|right].
      exists u. split; [apply elem_of_cons; by right|done].
    - intros _. right. eexists. split; [apply elem_of_cons; by left|done]. }
  unfold b' in *. destruct shutdown.
  - eapply inv_death; try done; [by apply reg_inv_death|idle|apply Forall_singleton; idle].
  - eapply inv_death; try done; [by apply reg_inv_death, reg_inv_purge|idle|apply Forall_singleton; idle].
Qed.

Lemma elem_of_flatten_live l key r : (key, r) ∈ flatten_live l ↔ is_live l key r.
Proof.
  unfold flatten_live, is_live. rewrite list_elem_of_bind. split.
  - intros ([k rs] & Hin & Hl%elem_of_map_to_list).
    apply list_elem_of_fmap in Hin as (y & [= <- <-] & Hy). eauto.
  - intros (rs & Hl & Hin). exists (key, rs). split; [|by apply elem_of_map_to_list].
    apply list_elem_of_fmap. eauto.
Qed.

Lemma inv_drain clock l x b R :
  corr_inv b (TDrain l x :: R) →
  corr_inv (task_step clock (TDrain l x) b).2 ((task_step clock (TDrain l x) b).1 ++ R).
Proof.
  intros I. pose proof I as [It Ir Ic Io Iw [F1 F2 F3 F4] Id].
  assert (loop_death_observed b = true) as Ho
    by (apply (F2 (TDrain l x)); [apply elem_of_cons; by left|done]).
  cbn [task_step fst snd]. set (b' := mkCBus _ _ _ _ _ _ _ _ _ _ _).
  set (t := TDeathFire _ _ _ _).
  assert (∀ key r, pends b' ([t] ++ R) key r ↔ pends b (TDrain l x :: R) key r) as Hp.
  { intros key r. unfold pends. cbn. split.
    - intros [(? & ? & ?)|(u & [->|Hu]%elem_of_cons & Hh)]; [done| |].
      + left. by apply elem_of_flatten_live in Hh.
      + right. exists u. split; [apply elem_of_cons; by right|done].
    - intros [Hl|(u & [->|Hu]%elem_of_cons & Hh)]; [|done|].
      + right. exists t. split; [apply elem_of_cons; by left|]. by apply elem_of_flatten_live.
      + right. exists u. split; [apply elem_of_cons; by right|done]. }
  split.
  - intros u [->|Hu]%elem_of_cons; [done|]. apply It, elem_of_cons. by right.
  - destruct Ir as [Hm Ha Hc Hr]. by split.
  - apply (records_shrink b b' (TDrain l x :: R)); [done..|apply keeps_refl| |].
    + intros ??. apply Hp.
    + intros h [?|Hu]%elem_of_cons; [done|]. apply elem_of_cons. by right.
  - done.
  - apply (wait_shrink b b' (TDrain l x :: R)); [done|apply keeps_refl|].
    intros key r a' H _ _ _. by apply Hp.
  - split; cbn; auto.
  - by intros _ key r a (? & ? & ?).
Qed.

Lemma inv_task_step clock t b R :
  corr_inv b (t :: R) → corr_inv (task_step clock t b).2 ((task_step clock t b).1 ++ R).
Proof.
  intros I. destruct t; try by apply inv_death_tasks.
  - by apply inv_arm_step.
  - by apply inv_tfire_missed.
  - by apply inv_deliver.
  - by apply inv_tfire.
  - by apply inv_relatch.
  - by apply inv_check_death.
  - by apply inv_claim.
  - by apply inv_unsub.
  - by apply inv_reclaim.
  - by apply inv_drop_rx.
  - by apply inv_commit.
  - by apply inv_drain.
  - by apply inv_tdeath_fire.
Qed.

(** ** Schedules *)

Lemma corr_inv_mem b T T' : (∀ t, t ∈ T ↔ t ∈ T') → corr_inv b T → corr_inv b T'.
Proof.
  intros HT [It Ir Ic Io Iw If Id].
  assert (∀ key r, pends b T' key r ↔ pends b T key r) as Hp.
  { intros key r. unfold pends. split; intros [?|(t & Hin & Hh)]; auto; right; exists t;
      (split; [by apply HT|done]). }
  split; try done.
  - intros t Ht. by apply It, HT.
  - apply (records_shrink b b T); [done..|apply keeps_refl| |].
    + intros ??. apply Hp.
    + intros h. apply HT.
  - apply (wait_shrink b b T); [done|apply keeps_refl|]. intros key r a' H _ _ _. by apply Hp.
  - apply (flags_same b b T); [|done]. by split.
Qed.

(** More tasks, which hold no records. *)
Lemma inv_add b T ts :
  corr_inv b T → Forall task_ok ts → (∀ t key r, t ∈ ts → ¬ holds t key r) →
  (∀ t, t ∈ ts → after_commit t = false) →
  (∀ h, TUnsub h ∈ ts → ∃ c a, awaits b !! c = Some a ∧ h ∈ arms a ∧ aw_phase a = Dropping) →
  corr_inv b (T ++ ts).
Proof.
  intros [It Ir Ic Io Iw If Id] Hok Hn Hc Hu.
  assert (∀ key r, pends b (T ++ ts) key r ↔ pends b T key r) as Hp.
  { intros key r. unfold pends. split.
    - intros [?|(t & [Ht|Ht]%elem_of_app & Hh)]; [by left|right; eauto|by destruct (Hn t key r Ht)].
    - intros [?|(t & Ht & Hh)]; [by left|]. right. exists t. split; [apply elem_of_app; by left|done]. }
  split; try done.
  - intros t [Ht|Ht]%elem_of_app; [by apply It|]. by eapply Forall_forall in Ht.
  - destruct Ic as [A F P U Ph Ar Op Wt]. split; try done.
    + intros key r H. by apply A, Hp.
    + intros h [Hh|Hh]%elem_of_app; [by apply U|by apply Hu].
  - apply (wait_shrink b b T); [done|apply keeps_refl|]. intros key r a' H _ _ _. by apply Hp.
  - apply (flags_same b b T); [|done]. split; try done.
    intros t Ht. rewrite elem_of_app. split; [by left|]. intros [?|Hin]; [done|].
    specialize (Hc t Hin). congruence.
Qed.

(** A fresh await. *)
Lemma inv_new_await h completion b T :
  corr_inv b T →
  let b' := mkCBus (correlated b) (next_subscriber b) (loop_failed b) (shutting_down b)
              (loop_death_observed b) (dispatch_reactor_state b) (death_broadcasts b)
              (<[next_await b := await_new h completion]> (awaits b)) (next_await b + 1)
              (death_drained b) (notes b) in
  corr_inv b' (T ++ [TArm (next_await b)]).
Proof.
  intros I b'. apply inv_add; [|by apply Forall_singleton|by intros ??? ->%list_elem_of_singleton []|
    by intros ? ->%list_elem_of_singleton|by intros ? [=]%list_elem_of_singleton].
  pose proof I as [It Ir Ic Io Iw If Id]. destruct Ic as [A F P U Ph Ar Op Wt].
  assert (awaits b !! next_await b = None) as Hnew.
  { destruct (awaits b !! next_await b) eqn:E; [|done]. specialize (Wt _ _ E). lia. }
  assert (∀ c a, awaits b' !! c = Some a → (c = next_await b ∧ a = await_new h completion) ∨
    awaits b !! c = Some a) as Haw.
  { intros c a. cbn. intros [[<- <-]|[_ ?]]%lookup_insert_Some; auto. }
  assert (∀ c a, awaits b !! c = Some a → awaits b' !! c = Some a) as Haw'.
  { intros c a Hc. cbn. rewrite lookup_insert_ne; [done|congruence]. }
  split; try done.
  - split.
    + intros key r H. destruct (A key r H) as (? & a & Ha & ?). eauto.
    + intros c a x Hc Hx. destruct (Haw c a Hc) as [[-> ->]|?]; [|by eapply F].
      by apply not_elem_of_nil in Hx.
    + intros c c' a a' x Hc Hc' Hx Hx'.
      destruct (Haw c a Hc) as [[-> ->]|?]; [by apply not_elem_of_nil in Hx|].
      destruct (Haw c' a' Hc') as [[-> ->]|?]; [by apply not_elem_of_nil in Hx'|]. by eapply P.
    + intros x Hx. destruct (U x Hx) as (c & a & Ha & ?). eauto.
    + intros c a Hc Hs. destruct (Haw c a Hc) as [[-> ->]|?]; [done|eauto].
    + intros c a Hc Hf Hty. destruct (Haw c a Hc) as [[-> ->]|?]; [by left|eauto].
    + intros c a Hc. destruct (Haw c a Hc) as [[-> ->]|?]; [done|eauto].
    + intros c a Hc. cbn. destruct (Haw c a Hc) as [[-> ->]|Hc']; [lia|].
      specialize (Wt _ _ Hc'). lia.
  - intros c a e Hc Hs. destruct (Haw c a Hc) as [[-> ->]|?]; [by destruct Hs|by eapply Io].
  - intros c a k x Hc Hs Ht Hd. destruct (Haw c a Hc) as [[-> ->]|Hc'].
    + by destruct Hs as [_ [[_ ?]|[_ ?]]].
    + by apply (Iw c a k x).
  - destruct If. by split.
  - intros Hd key r a Hl Hc Ht. destruct (Haw _ a Hc) as [[_ ->]|?]; [done|by eapply Id].
Qed.

(** A change by the owner. *)
Lemma inv_owner c f w :
  corr_inv (cw_bus w) (concat (cw_threads w)) →
  (∀ a a' ts, awaits (cw_bus w) !! c = Some a → f a = Some (a', ts) →
     keep a a' ∧
     (∀ e, cell_slot (aw_cell a') = Some e ∨ aw_phase a' = Resolved (Some e) →
           cell_slot (aw_cell a) = Some e ∨ aw_phase a = Resolved (Some e)) ∧
     aw_phase a' ≠ Waiting ∧
     Forall task_ok ts ∧ (∀ t key r, t ∈ ts → ¬ holds t key r) ∧
     (∀ t, t ∈ ts → after_commit t = false) ∧
     (∀ h, TUnsub h ∈ ts → h ∈ arms a' ∧ aw_phase a' = Dropping)) →
  corr_inv (cw_bus (owner c f w)) (concat (cw_threads (owner c f w))).
Proof.
  intros I Hf. unfold owner. destruct (awaits (cw_bus w) !! c) as [a|] eqn:Ha; [|done].
  destruct (f a) as [[a' ts]|] eqn:Ef; [|done].
  destruct (Hf a a' ts eq_refl Ef) as (Hk & Ho & Hw & Hok & Hn & Hc & Hu).
  cbn [cw_bus cw_threads]. rewrite concat_app. cbn [concat]. rewrite app_nil_r.
  apply inv_add; try done; [by eapply inv_await|].
  intros h Hh. destruct (Hu h Hh) as [Hin Hd]. exists c, a'. cbn.
  by rewrite lookup_insert_eq.
Qed.

(** [event_version] is a [u16]. *)
Definition action_ok (x : Action) : Prop :=
  match x with ActDeliver e => event_version e ≤ 65535 | _ => True end.

Definition world_inv (w : CorrelatedWorld) : Prop :=
  corr_inv (cw_bus w) (concat (cw_threads w)).

Lemma inv_spawn ts w :
  world_inv w → Forall idle_task ts → (∀ t, t ∈ ts → after_commit t = false) →
  world_inv (spawn ts w).
Proof.
  intros I Hts Hc. unfold world_inv, spawn. cbn [cw_bus cw_threads].
  rewrite concat_app. cbn [concat]. rewrite app_nil_r. rewrite Forall_forall in Hts.
  apply inv_add; try done.
  - rewrite Forall_forall. intros t Ht. by apply Hts.
  - intros t key r Ht. by apply (Hts t Ht).
  - intros h Hh. by destruct (proj1 (proj2 (Hts _ Hh)) h).
Qed.

Lemma inv_run clock i w : world_inv w → world_inv (act clock (ActRun i) w).
Proof.
  intros I. cbn [act]. destruct (cw_threads w !! i) as [[|t rest]|] eqn:Hi; try done.
  destruct (run_flat _ _ _ _ Hi) as (R & HR & Hins).
  assert (corr_inv (cw_bus w) (t :: R)) as I'
    by (eapply corr_inv_mem, I; intros u; by rewrite HR).
  pose proof (inv_task_step clock t _ _ I') as S.
  destruct (task_step clock t (cw_bus w)) as [ts b]. cbn [fst snd] in S.
  unfold world_inv. cbn. eapply corr_inv_mem, S. intros u. by rewrite Hins.
Qed.

Lemma inv_drop c w : world_inv w → world_inv (act (λ _, 0) (ActDrop c) w).
Proof.
  intros I. cbn [act]. apply inv_owner; [done|]. intros a a' ts Ha Hf.
  assert (aw_phase a ≠ ArmingSuccess ∧ aw_phase a ≠ ArmingFailure ∧ aw_phase a ≠ Dropping ∧
    a' = set_phase Dropping a ∧ ts = drop_tasks c a) as (Hn & Hn' & Hd & -> & ->)
    by (destruct (aw_phase a); try done; by injection Hf as <- <-).
  assert (∀ t, t ∈ drop_tasks c a →
    (∃ h, t = TUnsub h ∧ h ∈ arms a) ∨ t = TReclaim c ∨ t = TDropRx c) as Ht.
  { unfold drop_tasks, arms. intros t.
    rewrite !elem_of_app, !list_elem_of_fmap, list_elem_of_singleton.
    intros [(h & -> & ?)|[(h & -> & ?)|[Hr| ->]]]; [..|destruct (_ && _)|by right; right].
    - left. exists h. rewrite elem_of_app. auto.
    - left. exists h. rewrite elem_of_app. auto.
    - apply list_elem_of_singleton in Hr. auto.
    - by apply not_elem_of_nil in Hr. }
  split_and!; try done.
  - eapply keep_phase; try done. by intros [?|?].
  - by intros e [?|?]; [left|].
  - rewrite Forall_forall. intros t Hin. destruct (Ht t Hin) as [(h & -> & _)|[->| ->]]; done.
  - intros t key r Hin. destruct (Ht t Hin) as [(h & -> & _)|[->| ->]]; intros [].
  - intros t Hin. destruct (Ht t Hin) as [(h & -> & _)|[->| ->]]; done.
  - intros h Hin. destruct (Ht _ Hin) as [(h' & [= <-] & ?)|[?|?]]; done.
Qed.

Lemma inv_act clock x w : action_ok x → world_inv w → world_inv (act clock x w).
Proof.
  intros Hx I. destruct x; try (apply inv_spawn; [done|..];
    [repeat (constructor; [idle|]); constructor|by intros ? Hin%list_elem_of_In;
      repeat destruct Hin as [<-|Hin]]).
  - by apply inv_run.
  - cbn [act]. unfold world_inv. cbn [cw_bus cw_threads]. rewrite concat_app. cbn [concat].
    by apply inv_new_await.
  - cbn [act]. apply inv_owner; [done|]. intros a a' ts Ha Hf.
    destruct (aw_phase a) eqn:Hp; try done. destruct (aw_completion a); [|done].
    injection Hf as <- <-. split_and!; try done; try (by intros ? ?%not_elem_of_nil);
      try (by intros ??? ?%not_elem_of_nil); cbn; rewrite Hp; [|done].
    by intros e [?|?]; [left|].
  - cbn [act]. apply inv_owner; [done|]. intros a a' ts Ha Hf.
    destruct (aw_phase a) eqn:Hp; try done. injection Hf as <- <-. split_and!; try done.
    + eapply keep_phase; try done; cbn; [congruence..|by intros [?|?]].
    + by intros e [?|?]; [left|].
    + by apply Forall_singleton.
    + by intros ??? ->%list_elem_of_singleton [].
    + by intros ? ->%list_elem_of_singleton.
    + by intros ? [=]%list_elem_of_singleton.
  - cbn [act]. apply inv_owner; [done|]. intros a a' ts Ha Hf.
    destruct (aw_phase a) eqn:Hp; try done. destruct (cell_slot (aw_cell a)) eqn:Hs; [|done].
    injection Hf as <- <-. split_and!; try done; try (by intros ? ?%not_elem_of_nil);
      try (by intros ??? ?%not_elem_of_nil).
    + eapply keep_phase; try done; cbn; [congruence..|by intros [?|?]].
    + intros e' [?|[= <-]]; [done|by left].
  - by apply inv_drop.
  - cbn [act]. destruct (decide _); [|done]. destruct I as [It Ir [] Io Iw [] Id].
    split; try done; by split.
Qed.

Lemma inv_init : world_inv (mkCWorld correlated_bus_new []).
Proof.
  split; cbn.
  - by intros ? ?%not_elem_of_nil.
  - split; cbn; try done. by intros ?? ?%not_elem_of_nil.
  - split; cbn; try done.
    + intros key r [(? & ? & _)|(t & ?%not_elem_of_nil & _)]; done.
    + by intros ? ?%not_elem_of_nil.
  - done.
  - done.
  - split; cbn; try done. by intros ? ?%not_elem_of_nil.
  - done.
Qed.

Lemma schedule_inv clock xs : Forall action_ok xs → world_inv (run_schedule clock xs).
Proof.
  unfold run_schedule. intros Hxs. generalize inv_init. generalize (mkCWorld correlated_bus_new []).
  induction Hxs as [|x xs Hx _ IH]; intros w I; cbn [fold_left]; [done|]. by apply IH, inv_act.
Qed.
