(* ===== verification/CorrelatedProps.v ===== *)
(** * CorrelatedProps: every completion is accounted for, no await is stranded

    Two more invariants of [Correlated], on the cells of the awaits and on the flow of the
    completions, and the properties with runs as witnesses. *)

From S2P Require Import Prelude F64 Types Events EventBus Correlated CorrelatedInv.
Local Open Scope N_scope.

(** ** The flow of the completions *)

Definition in_flight (t : Task) : list EventEnvelope :=
  match t with TFire e _ _ | TFireMissed e _ | TRelatch e => [e] | _ => [] end.

Definition incoming_of (n : Note) : list EventEnvelope :=
  match n with NDelivered e | NReclaimed _ e => [e] | _ => [] end.
Definition outgoing_of (n : Note) : list EventEnvelope :=
  match n with NSettled e | NEvicted e | NPurged e | NOutranked e => [e] | _ => [] end.

(** The completions that passed the death gate or were taken back from a dropped await. *)
Definition incoming (ns : list Note) : list EventEnvelope := ns ≫= incoming_of.
(** Those accepted by an await, evicted, purged by a death or outranked by it. *)
Definition outgoing (ns : list Note) : list EventEnvelope := ns ≫= outgoing_of.

Definition latched (b : CorrelatedBus) : list EventEnvelope := (missed (correlated b)).*2.

Definition flow_inv (b : CorrelatedBus) (T : list Task) : Prop :=
  incoming (notes b) ≡ₚ outgoing (notes b) ++ latched b ++ (T ≫= in_flight).

Definition flows (t : Task) (b : CorrelatedBus) (ts : list Task) (b' : CorrelatedBus) : Prop :=
  ∃ n, notes b' = notes b ++ n ∧
    incoming n ++ latched b ++ in_flight t ≡ₚ
    outgoing n ++ latched b' ++ (ts ≫= in_flight).

Lemma flow_step t b ts b' R : flows t b ts b' → flow_inv b (t :: R) → flow_inv b' (ts ++ R).
Proof.
  unfold flow_inv, incoming, outgoing. intros (n & -> & Hn) Hf. rewrite !bind_app, Hf, bind_cons.
  rewrite <-!app_assoc. f_equiv.
  rewrite (app_assoc _ _ (n ≫= incoming_of)), (app_assoc _ _ (n ≫= incoming_of)).
  rewrite (Permutation_app_comm _ (n ≫= incoming_of)). rewrite !app_assoc. f_equiv.
  rewrite <-!app_assoc. exact Hn.
Qed.

Lemma flows_none t b ts b' :
  notes b' = notes b → latched b' = latched b → in_flight t = ts ≫= in_flight → flows t b ts b'.
Proof.
  intros Hn Hl Ht. exists []. rewrite app_nil_r. split; [done|]. cbn. by rewrite Hl, Ht.
Qed.

(** Firing adds acceptances only. *)
Lemma fire_notes e r b :
  ∃ n, notes (fire_correlated e r b).2 = notes b ++ n ∧ incoming n = [] ∧ outgoing n = [] ∧
    ((fire_correlated e r b).1 = true → n = [NAccepted (os_cell r) e]) ∧
    latched (fire_correlated e r b).2 = latched b.
Proof.
  unfold fire_correlated. destruct (_ <? _); [exists []; by rewrite app_nil_r|].
  destruct (awaits b !! os_cell r); [|exists []; by rewrite app_nil_r].
  destruct (send_arm _ _) as [[] cell]; [by eexists|]. exists []. by rewrite app_nil_r.
Qed.

Lemma fire_death_notes e r b :
  ∃ n, notes (fire_death e r b) = notes b ++ n ∧ incoming n = [] ∧ outgoing n = [] ∧
    latched (fire_death e r b) = latched b.
Proof.
  unfold fire_death. destruct (awaits b !! os_cell r); [|exists []; by rewrite app_nil_r].
  destruct (send_arm _ _) as [[] cell]; [by eexists|]. exists []. by rewrite app_nil_r.
Qed.

Lemma outgoing_evicted es : outgoing (NEvicted <$> es) = es.
Proof. induction es as [|e es IH]; cbn; [done|by f_equal]. Qed.
Lemma outgoing_purged es : outgoing (NPurged <$> es) = es.
Proof. induction es as [|e es IH]; cbn; [done|by f_equal]. Qed.
Lemma incoming_evicted es : incoming (NEvicted <$> es) = [].
Proof. by induction es. Qed.
Lemma incoming_purged es : incoming (NPurged <$> es) = [].
Proof. by induction es. Qed.

Lemma latch_flow key e b :
  reg_inv (correlated b) → env_ok e → request_id e = Some key.2 → event_type e = key.1 →
  let '(ts, b') := take_waiters key e b in
  ∃ n, notes b' = notes b ++ n ∧ incoming n = [] ∧
    latched b ++ [e] ≡ₚ outgoing n ++ latched b' ++ (ts ≫= in_flight).
Proof.
  intros Hr He Hid Ht. unfold take_waiters.
  destruct (live (correlated b) !! key) as [rs|] eqn:Hl.
  - exists []. rewrite app_nil_r. by split_and!.
  - pose proof (latch_spec key e (correlated b) Hr He Hid Ht Hl) as (_ & _ & _ & _ & S).
    destruct (latch_missed key e (correlated b)) as [ev reg]. cbn in S.
    exists (NEvicted <$> ev). rewrite outgoing_evicted, incoming_evicted. split_and!; [done..|].
    cbn. rewrite app_nil_r. unfold latched. by rewrite S.
Qed.

Lemma flows_deliver e b R :
  corr_inv b (TDeliver e :: R) →
  flows (TDeliver e) b (deliver_correlated e b).1 (deliver_correlated e b).2.
Proof.
  intros I. unfold deliver_correlated. pose proof (head_ok _ _ _ I) as Hv.
  destruct (request_id e) as [id|] eqn:Hid; [|by apply flows_none].
  destruct (death_committed (correlated b) && negb (is_death_terminal (event_type e))).
  - exists [NGated e]. by split.
  - pose proof (latch_flow (event_type e, id) e (note [NDelivered e] b)) as L.
    destruct (take_waiters _ _ _) as [ts b']. cbn [fst snd].
    destruct L as (n & Hn & Hin & Hout); [apply I|split; eauto|done|done|].
    exists (NDelivered e :: n). split; [rewrite Hn; cbn; by rewrite <-app_assoc|].
    change (incoming (NDelivered e :: n)) with (e :: incoming n).
    change (outgoing (NDelivered e :: n)) with (outgoing n).
    rewrite Hin, <-Hout. cbn. by rewrite app_nil_r, Permutation_cons_append.
Qed.

Lemma flows_relatch e b R :
  corr_inv b (TRelatch e :: R) →
  flows (TRelatch e) b (relatch_correlated e b).1 (relatch_correlated e b).2.
Proof.
  intros I. unfold relatch_correlated. pose proof (head_ok _ _ _ I) as Hok.
  destruct (request_id e) as [id|] eqn:Hid; [|destruct Hok as (_ & ? & ?); congruence].
  destruct (death_purged (correlated b)).
  - exists [NOutranked e]. split; [done|]. cbn. rewrite app_nil_r.
    symmetry. apply Permutation_cons_append.
  - pose proof (latch_flow (event_type e, id) e b (ci_reg _ _ I) Hok Hid eq_refl) as L.
    destruct (take_waiters _ _ _) as [ts b']. cbn [fst snd].
    destruct L as (n & Hn & Hin & Hout). exists n. by rewrite Hin.
Qed.

Lemma flows_fires t b ts b' n :
  notes b' = notes b ++ n → incoming n = [] → outgoing n = [] → latched b' = latched b →
  in_flight t = ts ≫= in_flight → flows t b ts b'.
Proof.
  intros Hn Hi Ho Hl Ht. exists n. split; [done|]. by rewrite Hi, Ho, Hl, Ht.
Qed.

Lemma flows_settled e t b b' n :
  notes b' = notes b ++ n ++ [NSettled e] → incoming n = [] → outgoing n = [] →
  latched b' = latched b → in_flight t = [e] → flows t b [] b'.
Proof.
  intros Hn Hi Ho Hl Ht. exists (n ++ [NSettled e]). split; [done|].
  unfold incoming, outgoing in *. rewrite !bind_app, Hi, Ho, Hl, Ht. cbn.
  rewrite app_nil_r. symmetry. apply Permutation_cons_append.
Qed.

Lemma subscribe_flow t key c b :
  reg_inv (correlated b) →
  let '(_, fire, b') := subscribe_correlated t key c b in
  notes b' = notes b ∧ latched b ≡ₚ latched b' ++ (fire ≫= in_flight).
Proof.
  intros Hr. pose proof (subscribe_spec t key c b Hr) as S.
  destruct (subscribe_correlated t key c b) as [[id fire] b'].
  destruct S as (_ & _ & _ & _ & Hn & _ & _ & _ & _ & _ & [(e & -> & _ & _ & _ & _ & Hm)|(-> & Hm & _)]);
    (split; [done|]); unfold latched; cbn.
  - rewrite <-Hm. cbn. apply Permutation_cons_append.
  - by rewrite Hm, app_nil_r.
Qed.

Lemma flows_arm c b R :
  corr_inv b (TArm c :: R) → flows (TArm c) b (arm_step c b).1 (arm_step c b).2.
Proof.
  intros I. unfold arm_step. destruct (awaits b !! c) as [a|]; [|by apply flows_none].
  assert (∀ t f, let '(id, fire, b') := subscribe_correlated t (handle_id (aw_request a)) c b in
    flows (TArm c) b (fire ++ [TArm c]) (on_await c (f id) b')) as Hsub.
  { intros t f. pose proof (subscribe_flow t (handle_id (aw_request a)) c b (ci_reg _ _ I)) as S.
    destruct (subscribe_correlated t (handle_id (aw_request a)) c b) as [[id fire] b'].
    destruct S as [Hn Hl]. exists []. rewrite app_nil_r. split; [done|].
    rewrite bind_app. cbn. by rewrite !app_nil_r. }
  destruct (aw_phase a); try by apply flows_none.
  - specialize (Hsub (to_event_type (expected_completion (aw_request a))) set_success).
    by destruct (subscribe_correlated _ _ _ _) as [[id fire] b'].
  - destruct (failure_event_type _) as [t|]; [|by apply flows_none].
    specialize (Hsub t set_failure).
    by destruct (subscribe_correlated _ _ _ _) as [[id fire] b'].
Qed.

Lemma flows_reclaim c b :
  flows (TReclaim c) b (reclaim_step c b).1 (reclaim_step c b).2.
Proof.
  unfold reclaim_step. destruct (awaits b !! c) as [a|]; [|by apply flows_none].
  destruct (cell_tx (aw_cell a)); [by apply flows_none|].
  destruct (cell_slot (aw_cell a)) as [e|]; [|by apply flows_none].
  exists [NReclaimed c e]. split; [done|]. cbn. rewrite app_nil_r. apply Permutation_cons_append.
Qed.

Lemma flows_fire e rs acc clock b :
  flows (TFire e rs acc) b (task_step clock (TFire e rs acc) b).1
    (task_step clock (TFire e rs acc) b).2.
Proof.
  destruct rs as [|r rs]; cbn [task_step].
  - destruct acc; [|by apply flows_none]. by apply (flows_settled e _ _ _ []).
  - destruct (fire_notes e r b) as (n & Hn & Hi & Ho & _ & Hl).
    destruct (fire_correlated e r b) as [this b']. cbn in *. by eapply flows_fires.
Qed.

Lemma flows_fire_missed e r clock b :
  flows (TFireMissed e r) b (task_step clock (TFireMissed e r) b).1
    (task_step clock (TFireMissed e r) b).2.
Proof.
  cbn [task_step]. destruct (fire_notes e r b) as (n & Hn & Hi & Ho & _ & Hl).
  destruct (fire_correlated e r b) as [[] b']; cbn in *; [|by eapply flows_fires].
  apply (flows_settled e _ _ _ n); try done. cbn. by rewrite Hn, <-app_assoc.
Qed.

Lemma flows_task clock t b R :
  corr_inv b (t :: R) → flows t b (task_step clock t b).1 (task_step clock t b).2.
Proof.
  intros I. destruct t; try by apply flows_none.
  - by eapply flows_arm.
  - apply flows_fire_missed.
  - by eapply flows_deliver.
  - apply flows_fire.
  - by eapply flows_relatch.
  - cbn. unfold check_death_step. destruct (awaits b !! c) as [a|]; [|by apply flows_none].
    destruct (aw_phase a); try by apply flows_none.
    destruct (loop_death_observed b); by apply flows_none.
  - cbn. unfold claim_step. destruct (awaits b !! c) as [a|]; [|by apply flows_none].
    destruct (aw_phase a); try by apply flows_none.
    destruct (cell_tx (aw_cell a)); by apply flows_none.
  - apply flows_reclaim.
  - cbn. destruct (shutting_down b); [|destruct (decide _)]; by apply flows_none.
  - cbn. destruct (decide _); by apply flows_none.
  - cbn. destruct shutdown; [by apply flows_none|].
    eexists. split; [done|]. rewrite incoming_purged, outgoing_purged. cbn. by rewrite !app_nil_r.
  - cbn. destruct shutdown; by apply flows_none.
  - cbn. destruct (loop_failed b); [by apply flows_none|]. apply flows_none; [done..|].
    cbn. by destruct (decide _).
  - cbn [task_step]. destruct rs as [|[key r] rs]; [by apply flows_none|].
    destruct (fire_death_notes (death_env l x now key) r b) as (n & Hn & Hi & Ho & Hl).
    by eapply flows_fires.
Qed.

(** ** The cells *)

(** The envelopes the await accepted, completions and reports of a dead loop. *)
Definition accepted_by (c : N) (ns : list Note) : list EventEnvelope :=
  ns ≫= λ n, match n with
             | NAccepted d e | NFailed d e => if decide (d = c) then [e] else []
             | _ => []
             end.

(** An await not yet resolved or dropped listens, and a claimed sender has sent. *)
Definition good (a : Await) : Prop :=
  aw_phase a = Dropping ∨ (∃ r, aw_phase a = Resolved r) ∨
  (cell_rx (aw_cell a) = true ∧ (cell_tx (aw_cell a) = false → cell_slot (aw_cell a) ≠ None)).

Record cells_inv (b : CorrelatedBus) (T : list Task) : Prop := mkCellsInv {
  ce_good : ∀ c a, awaits b !! c = Some a → good a;
  ce_drop : ∀ c, TReclaim c ∈ T ∨ TDropRx c ∈ T →
    ∃ a, awaits b !! c = Some a ∧ aw_phase a = Dropping;
  ce_once : ∀ c a, awaits b !! c = Some a →
    (length (accepted_by c (notes b)) + Nat.b2n (cell_tx (aw_cell a)) ≤ 1)%nat;
  ce_none : ∀ c, awaits b !! c = None → accepted_by c (notes b) = [];
  ce_settled : ∀ e, NSettled e ∈ notes b → ∃ c, NAccepted c e ∈ notes b;
  ce_firing : ∀ e rs, TFire e rs true ∈ T → ∃ c, NAccepted c e ∈ notes b;
}.

Definition cell_step (c : N) (n : list Note) (a a' : Await) : Prop :=
  (aw_phase a = Dropping → aw_phase a' = Dropping) ∧ (good a → good a') ∧
  (length (accepted_by c n) + Nat.b2n (cell_tx (aw_cell a')) ≤ Nat.b2n (cell_tx (aw_cell a)))%nat.

Definition settled_ok (n : list Note) (ns : list Note) : Prop :=
  ∀ e, NSettled e ∈ n → ∃ c, NAccepted c e ∈ ns.

(** What a task does to cells and notes. *)
Record cells_step (t : Task) (b : CorrelatedBus) (ts : list Task) (b' : CorrelatedBus)
  (n : list Note) : Prop := mkCellsStep {
  cs_notes : notes b' = notes b ++ n;
  cs_cells : ∀ c, match awaits b !! c, awaits b' !! c with
                  | Some a, Some a' => cell_step c n a a'
                  | None, None => accepted_by c n = []
                  | _, _ => False
                  end;
  cs_settled : settled_ok n (notes b');
  cs_firing : ∀ e rs, TFire e rs true ∈ ts → ∃ c, NAccepted c e ∈ notes b';
  cs_drop : ∀ c, (TReclaim c ∉ ts) ∧ (TDropRx c ∉ ts);
}.

Lemma cells_inv_step t b ts b' n R :
  cells_step t b ts b' n → cells_inv b (t :: R) → cells_inv b' (ts ++ R).
Proof.
  intros [Hn Hc Hs Hf Hd] [G D O N S F].
  assert (∀ c a', awaits b' !! c = Some a' → ∃ a, awaits b !! c = Some a ∧ cell_step c n a a') as Hb.
  { intros c a' Ha'. specialize (Hc c). rewrite Ha' in Hc. destruct (awaits b !! c); eauto. done. }
  assert (∀ c, accepted_by c (notes b') = accepted_by c (notes b) ++ accepted_by c n) as Hacc.
  { intros c. unfold accepted_by. by rewrite Hn, bind_app. }
  split.
  - intros c a' Ha'. destruct (Hb c a' Ha') as (a & Ha & _ & Hg & _). eauto.
  - intros c Hin. destruct (D c) as (a & Ha & Hp).
    { destruct (Hd c) as [H1 H2]. rewrite !elem_of_app in Hin. rewrite !elem_of_cons. naive_solver. }
    specialize (Hc c). rewrite Ha in Hc. destruct (awaits b' !! c) as [a'|]; [|done].
    exists a'. split; [done|]. by apply Hc.
  - intros c a' Ha'. destruct (Hb c a' Ha') as (a & Ha & _ & _ & Hle). specialize (O c a Ha).
    rewrite Hacc, length_app. lia.
  - intros c Hno. specialize (Hc c). rewrite Hno in Hc. destruct (awaits b !! c) eqn:E; [done|].
    by rewrite Hacc, N, Hc.
  - intros e Hin. rewrite Hn in Hin. apply elem_of_app in Hin as [Hin|Hin]; [|by apply Hs].
    destruct (S e Hin) as (c & ?). exists c. rewrite Hn. apply elem_of_app. by left.
  - intros e rs [Hin|Hin]%elem_of_app; [by eapply Hf|].
    destruct (F e rs) as (c & ?); [apply elem_of_cons; by right|].
    exists c. rewrite Hn. apply elem_of_app. by left.
Qed.

Lemma cell_step_refl c n a : accepted_by c n = [] → cell_step c n a a.
Proof. intros Hn. split_and!; [done..|]. rewrite Hn. cbn. lia. Qed.

(** A task that leaves the cells alone and follows with quiet tasks. *)
Definition calm (t : Task) : bool :=
  match t with TFire _ _ true | TReclaim _ | TDropRx _ => false | _ => true end.

Lemma calm_tasks ts :
  Forall (λ t, calm t = true) ts →
  (∀ e rs, TFire e rs true ∉ ts) ∧ (∀ c, (TReclaim c ∉ ts) ∧ (TDropRx c ∉ ts)).
Proof.
  rewrite Forall_forall. intros H.
  split; [intros e rs Hin|intros c; split; intros Hin]; by specialize (H _ Hin).
Qed.

Lemma cells_same t b ts b' n :
  notes b' = notes b ++ n → awaits b' = awaits b → (∀ c, accepted_by c n = []) →
  settled_ok n (notes b') → Forall (λ t, calm t = true) ts → cells_step t b ts b' n.
Proof.
  intros Hn Ha Hno Hs [Hf Hd]%calm_tasks. split; try done.
  - intros c. rewrite Ha. destruct (awaits b !! c); [by apply cell_step_refl|done].
  - intros e rs Hin. by apply Hf in Hin.
Qed.

(** A task on the cell of one await. *)
Lemma cells_one c a a' t b ts b' n :
  notes b' = notes b ++ n → awaits b !! c = Some a → awaits b' = <[c := a']> (awaits b) →
  cell_step c n a a' → (∀ d, d ≠ c → accepted_by d n = []) → settled_ok n (notes b') →
  Forall (λ t, calm t = true) ts → cells_step t b ts b' n.
Proof.
  intros Hn Ha Haw Hc Hno Hs [Hf Hd]%calm_tasks. split; try done.
  - intros d. rewrite Haw. destruct (decide (d = c)) as [->|Hne].
    + by rewrite Ha, lookup_insert_eq.
    + rewrite lookup_insert_ne by done.
      destruct (awaits b !! d); [apply cell_step_refl|]; by apply Hno.
  - intros e rs Hin. by apply Hf in Hin.
Qed.

Lemma settled_nil ns : settled_ok [] ns.
Proof. by intros e ?%not_elem_of_nil. Qed.

Definition accept_note (failed : bool) (c : N) (e : EventEnvelope) (accepted : bool) : list Note :=
  if accepted then [if failed then NFailed c e else NAccepted c e] else [].

Lemma accepted_by_note f c d e acc :
  accepted_by d (accept_note f c e acc) = if decide (c = d) then (if acc then [e] else []) else [].
Proof. destruct acc, f; cbn; rewrite ?app_nil_r; by destruct (decide _). Qed.

Lemma send_arm_step f c e a :
  cell_step c (accept_note f c e (send_arm e (aw_cell a)).1) a
    (set_cell (send_arm e (aw_cell a)).2 a).
Proof.
  unfold cell_step. rewrite accepted_by_note, decide_True by done. unfold send_arm, good.
  destruct (aw_cell a) as [[] slot []] eqn:E; cbn; split_and!; try done; try lia;
    rewrite ?E; naive_solver.
Qed.

Lemma settled_accept f c e acc ns : settled_ok (accept_note f c e acc) ns.
Proof.
  destruct acc; [|by intros ? ?%not_elem_of_nil].
  by intros ? Hin%list_elem_of_singleton; destruct f.
Qed.

Lemma fire_cells e r t b ts :
  (∀ e' rs, TFire e' rs true ∈ ts → ∃ c, NAccepted c e' ∈ notes (fire_correlated e r b).2) →
  (∀ c, (TReclaim c ∉ ts) ∧ (TDropRx c ∉ ts)) →
  ∃ n, cells_step t b ts (fire_correlated e r b).2 n ∧
    ((fire_correlated e r b).1 = true → ∃ c, NAccepted c e ∈ notes (fire_correlated e r b).2).
Proof.
  intros Hf Hd. unfold fire_correlated in *.
  assert (cells_step t b ts b [] ∨ ((os_max_version r <? event_version e) = false ∧
    awaits b !! os_cell r ≠ None)) as Hcase.
  { destruct (_ <? _); [left|destruct (awaits b !! os_cell r); [by right|left]];
      (split; [by rewrite app_nil_r| |by apply settled_nil|done|done]);
      (intros c; destruct (awaits b !! c); [by apply cell_step_refl|done]). }
  destruct (_ <? _); [destruct Hcase as [?|[? _]]; [by exists []|done]|].
  destruct (awaits b !! os_cell r) as [a|] eqn:Ha; [|destruct Hcase as [?|[_ ?]]; [by exists []|done]].
  clear Hcase. pose proof (send_arm_step false (os_cell r) e a) as S.
  destruct (send_arm e (aw_cell a)) as [acc cell]. cbn [fst snd] in *.
  exists (accept_note false (os_cell r) e acc). split.
  - split; [by destruct acc; cbn; rewrite ?app_nil_r| |apply settled_accept|done|done].
    intros c. assert (awaits (if acc then note [NAccepted (os_cell r) e]
        (with_awaits (<[os_cell r:=set_cell cell a]> (awaits b)) b)
        else with_awaits (<[os_cell r:=set_cell cell a]> (awaits b)) b) =
        <[os_cell r:=set_cell cell a]> (awaits b)) as -> by by destruct acc.
    destruct (decide (c = os_cell r)) as [->|Hne]; [by rewrite Ha, lookup_insert_eq|].
    rewrite lookup_insert_ne by done.
    destruct (awaits b !! c); [apply cell_step_refl|]; by rewrite accepted_by_note, decide_False.
  - intros ->. exists (os_cell r). cbn. apply elem_of_app. right. by apply list_elem_of_singleton.
Qed.

Lemma fire_death_cells e r t b ts :
  Forall (λ t, calm t = true) ts → ∃ n, cells_step t b ts (fire_death e r b) n.
Proof.
  intros Hts. unfold fire_death. destruct (awaits b !! os_cell r) as [a|] eqn:Ha.
  - pose proof (send_arm_step true (os_cell r) e a) as S.
    destruct (send_arm e (aw_cell a)) as [acc cell]. cbn [fst snd] in *.
    exists (accept_note true (os_cell r) e acc). eapply (cells_one (os_cell r) a); try done.
    + by destruct acc; cbn; rewrite ?app_nil_r.
    + by destruct acc.
    + intros d Hne. by rewrite accepted_by_note, decide_False.
    + apply settled_accept.
  - exists []. apply cells_same; try done; [by rewrite app_nil_r|apply settled_nil].
Qed.

Lemma cells_note_settled e t b ts b' n :
  cells_step t b ts b' n → (∃ c, NAccepted c e ∈ notes b') →
  cells_step t b ts (note [NSettled e] b') (n ++ [NSettled e]).
Proof.
  intros [Hn Hc Hs Hf Hd] [c He].
  assert (∀ x, x ∈ notes b' → x ∈ notes (note [NSettled e] b')) as Hin
    by (intros; apply elem_of_app; by left).
  split; [cbn; by rewrite Hn, app_assoc| | | |done].
  - intros d. specialize (Hc d). cbn [awaits note].
    assert (accepted_by d (n ++ [NSettled e]) = accepted_by d n) as E
      by (unfold accepted_by; rewrite bind_app; by rewrite app_nil_r).
    unfold cell_step. by rewrite E.
  - intros x [Hx|[= ->]%list_elem_of_singleton]%elem_of_app; [|eauto].
    destruct (Hs x Hx) as [d ?]. eauto.
  - intros x rs Hx. destruct (Hf x rs Hx) as [d ?]. eauto.
Qed.

(** A change of phase by the owner's thread. *)
Lemma cells_phase c a a' t b ts b' :
  notes b' = notes b → awaits b !! c = Some a → awaits b' = <[c := a']> (awaits b) →
  aw_phase a ≠ Dropping → (∀ r, aw_phase a ≠ Resolved r) → aw_cell a' = aw_cell a →
  Forall (λ t, calm t = true) ts → cells_step t b ts b' [].
Proof.
  intros Hn Ha Haw Hd Hr Hc Hts.
  eapply (cells_one c a a'); try done; [by rewrite app_nil_r| |apply settled_nil].
  unfold cell_step, good. rewrite Hc. cbn. split_and!; [done| |lia].
  intros [?|[[r ?]|?]]; [done|by destruct (Hr r)|by right; right].
Qed.

Lemma cells_arm c b : ∃ n, cells_step (TArm c) b (arm_step c b).1 (arm_step c b).2 n.
Proof.
  exists []. unfold arm_step.
  assert (cells_step (TArm c) b [] b []) as Hnone
    by (apply cells_same; try done; [by rewrite app_nil_r|apply settled_nil]).
  destruct (awaits b !! c) as [a|] eqn:Ha; [|done].
  assert (∀ t f, (∀ id, aw_cell (f id a) = aw_cell a) → aw_phase a ≠ Dropping →
    (∀ r, aw_phase a ≠ Resolved r) →
    let '(id, fire, b') := subscribe_correlated t (handle_id (aw_request a)) c b in
    cells_step (TArm c) b (fire ++ [TArm c]) (on_await c (f id) b') []) as Hsub.
  { intros t f Hf Hd Hr. unfold subscribe_correlated.
    destruct (take_missed _ _) as [[e|] reg]; rewrite (on_await_insert c _ _ a) by done;
      (eapply (cells_phase c a); try done; by repeat constructor). }
  assert (aw_phase a ≠ Dropping → (∀ r, aw_phase a ≠ Resolved r) →
    cells_step (TArm c) b [] (on_await c (set_phase Armed) b) []) as Hdone.
  { intros Hd Hr. rewrite (on_await_insert c _ _ a) by done. by eapply (cells_phase c a). }
  destruct (aw_phase a) eqn:Hp; try done.
  - specialize (Hsub (to_event_type (expected_completion (aw_request a))) set_success).
    destruct (subscribe_correlated _ _ _ _) as [[id fire] b']. by apply Hsub.
  - destruct (failure_event_type _) as [t|]; [|by apply Hdone].
    specialize (Hsub t set_failure).
    destruct (subscribe_correlated _ _ _ _) as [[id fire] b']. by apply Hsub.
  - by apply Hdone.
Qed.

Lemma cells_take_waiters key e t b :
  ∃ n, cells_step t b (take_waiters key e b).1 (take_waiters key e b).2 n.
Proof.
  unfold take_waiters. destruct (live (correlated b) !! key).
  - exists []. apply cells_same; try done; [by rewrite app_nil_r|apply settled_nil|by repeat constructor].
  - destruct (latch_missed key e (correlated b)) as [ev reg]. exists (NEvicted <$> ev).
    apply cells_same; try done.
    + intros c. by induction ev.
    + intros x Hx. by apply list_elem_of_fmap in Hx as (? & ? & _).
Qed.

(** A note beforehand. *)
Lemma cells_note_before x t b ts b' n :
  (∀ c, accepted_by c [x] = []) → (∀ e, x ≠ NSettled e) →
  cells_step t (note [x] b) ts b' n → cells_step t b ts b' (x :: n).
Proof.
  intros Ha Hx [Hn Hc Hs Hf Hd]. split; try done.
  - rewrite Hn. cbn. by rewrite <-app_assoc.
  - intros c. specialize (Hc c). cbn [awaits note] in Hc.
    assert (accepted_by c (x :: n) = accepted_by c n) as E
      by (change (accepted_by c (x :: n)) with (accepted_by c ([x] ++ n)); unfold accepted_by in *;
          by rewrite bind_app, Ha).
    unfold cell_step in *. by rewrite E.
  - intros e [Heq|Hin]%elem_of_cons; [by destruct (Hx e)|by apply Hs].
Qed.

Lemma cells_deliver e b :
  ∃ n, cells_step (TDeliver e) b (deliver_correlated e b).1 (deliver_correlated e b).2 n.
Proof.
  unfold deliver_correlated.
  assert (cells_step (TDeliver e) b [] b []) as Hnone
    by (apply cells_same; try done; [by rewrite app_nil_r|apply settled_nil]).
  destruct (request_id e) as [id|]; [|by exists []].
  destruct (_ && _).
  - exists [NGated e]. apply cells_same; try done. by intros ? [=]%list_elem_of_singleton.
  - destruct (cells_take_waiters (event_type e, id) e (TDeliver e) (note [NDelivered e] b))
      as [n Hn]. exists (NDelivered e :: n). by apply cells_note_before.
Qed.

Lemma cells_relatch e b :
  ∃ n, cells_step (TRelatch e) b (relatch_correlated e b).1 (relatch_correlated e b).2 n.
Proof.
  unfold relatch_correlated. destruct (request_id e) as [id|].
  - destruct (death_purged (correlated b)).
    + exists [NOutranked e]. apply cells_same; try done. by intros ? [=]%list_elem_of_singleton.
    + apply cells_take_waiters.
  - exists []. apply cells_same; try done; [by rewrite app_nil_r|apply settled_nil].
Qed.

Lemma cells_dropping c b t R :
  cells_inv b (t :: R) → t = TReclaim c ∨ t = TDropRx c →
  ∃ a, awaits b !! c = Some a ∧ aw_phase a = Dropping.
Proof.
  intros I Ht. apply (ce_drop _ _ I). rewrite !elem_of_cons. naive_solver.
Qed.

Lemma cells_reclaim c b R :
  cells_inv b (TReclaim c :: R) →
  ∃ n, cells_step (TReclaim c) b (reclaim_step c b).1 (reclaim_step c b).2 n.
Proof.
  intros I. destruct (cells_dropping c b _ _ I) as (a & Ha & Hp); [by left|].
  unfold reclaim_step. rewrite Ha.
  destruct (cell_tx (aw_cell a)) eqn:Ht; [|destruct (cell_slot (aw_cell a)) as [e|]].
  - exists []. rewrite (on_await_insert c _ _ a) by done. eapply (cells_one c a); try done.
    + by rewrite app_nil_r.
    + split_and!; [done|by left|cbn; lia].
    + apply settled_nil.
  - exists [NReclaimed c e]. rewrite (on_await_insert c _ _ a) by done.
    eapply (cells_one c a); try done.
    + split_and!; [done|by left|cbn; lia].
    + by intros ? [=]%list_elem_of_singleton.
    + by apply Forall_singleton.
  - exists []. apply cells_same; try done; [by rewrite app_nil_r|apply settled_nil].
Qed.

Lemma cells_drop_rx c b R :
  cells_inv b (TDropRx c :: R) →
  cells_step (TDropRx c) b []
    (on_await c (λ a, set_cell (mkCell (cell_tx (aw_cell a)) None false) a) b) [].
Proof.
  intros I. destruct (cells_dropping c b _ _ I) as (a & Ha & Hp); [by right|].
  rewrite (on_await_insert c _ _ a) by done. eapply (cells_one c a); try done.
  - by rewrite app_nil_r.
  - split_and!; [done|by left|cbn; lia].
  - apply settled_nil.
Qed.

Lemma cells_check_death c b :
  cells_step (TCheckDeath c) b (check_death_step c b).1 (check_death_step c b).2 [].
Proof.
  assert (cells_step (TCheckDeath c) b [] b []) as Hnone
    by (apply cells_same; try done; [by rewrite app_nil_r|apply settled_nil]).
  unfold check_death_step. destruct (awaits b !! c) as [a|] eqn:Ha; [|done].
  destruct (aw_phase a) eqn:Hp; try done.
  destruct (loop_death_observed b); cbn [fst snd]; rewrite (on_await_insert c _ _ a) by done;
    (eapply (cells_phase c a); try done; try congruence; by repeat constructor).
Qed.

Lemma cells_claim c b : cells_step (TClaim c) b [] (claim_step c b) [].
Proof.
  assert (cells_step (TClaim c) b [] b []) as Hnone
    by (apply cells_same; try done; [by rewrite app_nil_r|apply settled_nil]).
  unfold claim_step. destruct (awaits b !! c) as [a|] eqn:Ha; [|done].
  destruct (aw_phase a) eqn:Hp; try done.
  destruct (cell_tx (aw_cell a)) eqn:Ht; rewrite (on_await_insert c _ _ a) by done.
  - eapply (cells_one c a); try done; [by rewrite app_nil_r| |apply settled_nil].
    split_and!; [by rewrite Hp|right; left; by eexists|cbn; lia].
  - eapply (cells_phase c a); try done; congruence.
Qed.

Lemma cells_fire clock e rs acc b R :
  cells_inv b (TFire e rs acc :: R) →
  ∃ n, cells_step (TFire e rs acc) b (task_step clock (TFire e rs acc) b).1
    (task_step clock (TFire e rs acc) b).2 n.
Proof.
  intros I. assert (acc = true → ∃ c, NAccepted c e ∈ notes b) as Hacc.
  { intros ->. apply (ce_firing _ _ I e rs), elem_of_cons. by left. }
  destruct rs as [|r rs]; cbn [task_step].
  - assert (∀ ts, Forall (λ t, calm t = true) ts → cells_step (TFire e [] acc) b ts b []) as Hnone
      by (intros; apply cells_same; try done; [by rewrite app_nil_r|apply settled_nil]).
    destruct acc; [|exists []; apply Hnone; by repeat constructor].
    exists ([] ++ [NSettled e]). apply cells_note_settled; [by apply Hnone|by apply Hacc].
  - destruct (fire_cells e r (TFire e (r :: rs) acc) b []) as (n & S & Hthis);
      [by intros ?? ?%not_elem_of_nil|by split; apply not_elem_of_nil|].
    destruct (fire_correlated e r b) as [this b']. cbn [fst snd] in *. exists n.
    destruct S as [Hn Hc Hs _ _]. split; try done.
    + intros e' rs' [= <- <- Ht]%list_elem_of_singleton.
      symmetry in Ht. apply orb_true_iff in Ht as [Ht|Ht]; [|by apply Hthis].
      destruct (Hacc Ht) as [c ?]. exists c. rewrite Hn. apply elem_of_app. by left.
    + intros c. by rewrite !list_elem_of_singleton.
Qed.

Lemma cells_fire_missed clock e r b :
  ∃ n, cells_step (TFireMissed e r) b (task_step clock (TFireMissed e r) b).1
    (task_step clock (TFireMissed e r) b).2 n.
Proof.
  cbn [task_step]. destruct (fire_cells e r (TFireMissed e r) b []) as (n & S & Hthis);
    [by intros ?? ?%not_elem_of_nil|by split; apply not_elem_of_nil|].
  destruct (fire_correlated e r b) as [[] b']; cbn [fst snd] in *.
  - exists (n ++ [NSettled e]). apply cells_note_settled; [done|by apply Hthis].
  - exists n. destruct S as [Hn Hc Hs _ _]. split; try done.
    + by intros ?? ?%list_elem_of_singleton.
    + intros c. by rewrite !list_elem_of_singleton.
Qed.

Lemma cells_task clock t b R :
  cells_inv b (t :: R) →
  ∃ n, cells_step t b (task_step clock t b).1 (task_step clock t b).2 n.
Proof.
  intros I.
  assert (∀ ts b', notes b' = notes b → awaits b' = awaits b →
    Forall (λ t, calm t = true) ts → ∃ n, cells_step t b ts b' n) as Hnone
    by (intros ts b' Hn ??; exists []; apply cells_same; try done;
        [by rewrite app_nil_r|apply settled_nil]).
  destruct t; try (cbn; apply Hnone; [done..|by constructor]).
  - apply cells_arm.
  - apply cells_fire_missed.
  - apply cells_deliver.
  - by eapply cells_fire.
  - apply cells_relatch.
  - eexists. apply cells_check_death.
  - eexists. apply cells_claim.
  - by eapply cells_reclaim.
  - eexists. by eapply cells_drop_rx.
  - cbn. destruct (shutting_down b); [|destruct (decide _)]; by apply Hnone; [..|constructor].
  - cbn. destruct (decide _); by apply Hnone; [..|constructor].
  - cbn. destruct shutdown; [by apply Hnone; [..|constructor]|].
    exists (NPurged <$> (missed (correlated b)).*2). apply cells_same; try done.
    + intros c. by induction (missed (correlated b)).
    + intros y Hy. by apply list_elem_of_fmap in Hy as (? & ? & _).
    + by constructor.
  - cbn. destruct shutdown; by apply Hnone; [..|constructor].
  - cbn. destruct (loop_failed b); [by apply Hnone; [..|constructor]|].
    apply Hnone; [done..|]. destruct (decide _); by repeat constructor.
  - cbn [task_step]. destruct rs as [|[key r] rs]; [by apply Hnone; [..|constructor]|].
    apply fire_death_cells. by constructor.
Qed.

(** ** An accepted completion is done with *)














(** ** Schedules *)

Record run_inv (w : CorrelatedWorld) : Prop := mkRunInv {
  rn_world : world_inv w;
  rn_flow : flow_inv (cw_bus w) (concat (cw_threads w));
  rn_cells : cells_inv (cw_bus w) (concat (cw_threads w));
}.

Lemma cells_mem b T T' : (∀ t, t ∈ T ↔ t ∈ T') → cells_inv b T → cells_inv b T'.
Proof.
  intros HT [G D O N S F]. split; try done.
  - intros c [H|H]; apply HT in H; eauto.
  - intros e rs H%HT. eauto.
Qed.

Lemma flow_add b T ts :
  flow_inv b T → Forall (λ t, in_flight t = []) ts → flow_inv b (T ++ ts).
Proof.
  unfold flow_inv. intros -> Hts. rewrite bind_app.
  assert (ts ≫= in_flight = []) as ->; [|by rewrite app_nil_r].
  induction Hts as [|t ts Ht _ IH]; [done|]. by rewrite bind_cons, Ht, IH.
Qed.

Lemma cells_add b T ts :
  cells_inv b T → (∀ c, (TReclaim c ∉ ts) ∧ (TDropRx c ∉ ts)) →
  (∀ e rs, TFire e rs true ∉ ts) → cells_inv b (T ++ ts).
Proof.
  intros [G D O N S F] Hd Hf. split; try done.
  - intros c. rewrite !elem_of_app. destruct (Hd c). naive_solver.
  - intros e rs. rewrite elem_of_app. intros [?|?]; [eauto|by destruct (Hf e rs)].
Qed.

Lemma run_act_run clock i w : run_inv w → run_inv (act clock (ActRun i) w).
Proof.
  intros [Iw If Ic]. split; [by apply inv_run|..]; cbn [act];
    (destruct (cw_threads w !! i) as [[|t rest]|] eqn:Hi; try done);
    destruct (run_flat _ _ _ _ Hi) as (R & HR & Hins);
    (assert (corr_inv (cw_bus w) (t :: R)) as I'
      by (eapply corr_inv_mem, Iw; intros u; by rewrite HR)).
  - assert (flow_inv (cw_bus w) (t :: R)) as If' by (unfold flow_inv in *; by rewrite <-HR).
    pose proof (flow_step _ _ _ _ R (flows_task clock t _ _ I') If') as S.
    destruct (task_step clock t (cw_bus w)) as [ts b]. unfold flow_inv in *. cbn in *.
    by rewrite Hins.
  - assert (cells_inv (cw_bus w) (t :: R)) as Ic'
      by (eapply cells_mem, Ic; intros u; by rewrite HR).
    destruct (cells_task clock t _ _ Ic') as [n S]. pose proof (cells_inv_step _ _ _ _ _ R S Ic') as S'.
    destruct (task_step clock t (cw_bus w)) as [ts b]. cbn in *.
    eapply cells_mem, S'. intros u. by rewrite Hins.
Qed.

(** New threads of tasks that carry nothing. *)
Lemma run_spawn ts w :
  run_inv w → Forall idle_task ts → (∀ t, t ∈ ts → after_commit t = false) →
  Forall (λ t, calm t = true ∧ in_flight t = []) ts → run_inv (spawn ts w).
Proof.
  intros [Iw If Ic] Hi Hc Hts.
  assert (Forall (λ t, calm t = true) ts ∧ Forall (λ t, in_flight t = []) ts) as [H1 H2]
    by (split; eapply Forall_impl; try done; by intros ? []).
  apply calm_tasks in H1 as [Hf Hd].
  assert (concat (cw_threads (spawn ts w)) = concat (cw_threads w) ++ ts) as E
    by (cbn; rewrite concat_app; cbn; by rewrite app_nil_r).
  split; [by apply inv_spawn|..]; rewrite E; cbn [cw_bus spawn].
  - by apply flow_add.
  - by apply cells_add.
Qed.

(** A step of an await's owner keeps flow and cells. *)
Lemma run_owner c f w :
  run_inv w → world_inv (owner c f w) →
  (∀ a a' ts, awaits (cw_bus w) !! c = Some a → f a = Some (a', ts) →
     cell_step c [] a a' ∧ Forall (λ t, in_flight t = []) ts ∧
     (∀ e rs, TFire e rs true ∉ ts) ∧
     (∀ d, TReclaim d ∈ ts ∨ TDropRx d ∈ ts → d = c ∧ aw_phase a' = Dropping)) →
  run_inv (owner c f w).
Proof.
  intros [Iw If Ic] Iw' Hf. split; [done|..]; unfold owner in *;
    (destruct (awaits (cw_bus w) !! c) as [a|] eqn:Ha; [|done]);
    (destruct (f a) as [[a' ts]|] eqn:Ef; [|done]);
    destruct (Hf a a' ts eq_refl Ef) as (Hs & Hi & Hfi & Hd);
    cbn [cw_bus cw_threads]; rewrite concat_app; cbn [concat]; rewrite app_nil_r.
  - apply (flow_add (with_awaits _ _) (concat (cw_threads w)) ts); done.
  - set (b' := with_awaits _ _).
    assert (cells_step TObserve (cw_bus w) [] b' []) as S.
    { eapply (cells_one c a a'); try done; [by rewrite app_nil_r|apply settled_nil]. }
    assert (cells_inv (cw_bus w) (TObserve :: concat (cw_threads w))) as Ic'.
    { destruct Ic as [G D O N S' F]. split; try done.
      - intros d. rewrite !elem_of_cons. naive_solver.
      - intros e rs. rewrite elem_of_cons. naive_solver. }
    destruct (cells_inv_step _ _ _ _ _ _ S Ic') as [G D O N S' F]. cbn [app] in *.
    split; try done.
    + intros d. rewrite !elem_of_app. intros [[?|Hd1]|[?|Hd1]]; [by apply D; left| |by apply D; right|];
        (destruct (Hd d) as [-> ?]; [auto|]; exists a'; split; [cbn; by rewrite lookup_insert_eq|done]).
    + intros e rs. rewrite elem_of_app. intros [?|?]; [eauto|by destruct (Hfi e rs)].
Qed.

Lemma in_drop_tasks c a t :
  t ∈ drop_tasks c a → (∃ h, t = TUnsub h) ∨ t = TReclaim c ∨ t = TDropRx c.
Proof.
  unfold drop_tasks. rewrite !elem_of_app, !list_elem_of_fmap, list_elem_of_singleton.
  intros [(h & -> & _)|[(h & -> & _)|[Hr| ->]]]; eauto.
  destruct (_ && _); [apply list_elem_of_singleton in Hr; auto|by apply not_elem_of_nil in Hr].
Qed.

Lemma run_act_await clock h completion w : run_inv w → run_inv (act clock (ActAwait h completion) w).
Proof.
  intros [Iw If Ic]. split; [by apply inv_act|..]; cbn [act cw_bus cw_threads];
    rewrite concat_app; cbn [concat app].
  - apply (flow_add (mkCBus _ _ _ _ _ _ _ _ _ _ _) (concat (cw_threads w))); [done|by apply Forall_singleton].
  - apply cells_add; [|intros c; by rewrite !list_elem_of_singleton|by intros ?? ?%list_elem_of_singleton].
    assert (awaits (cw_bus w) !! next_await (cw_bus w) = None) as Hnew.
    { destruct (awaits (cw_bus w) !! next_await (cw_bus w)) eqn:E; [|done].
      pose proof (rec_await _ _ (ci_records _ _ Iw) _ _ E). lia. }
    destruct Ic as [G D O N S F]. split; try done; cbn [awaits notes].
    + intros c a [[<- <-]|[_ ?]]%lookup_insert_Some; [by right; right|eauto].
    + intros c Hc. destruct (D c Hc) as (a & Ha & ?). exists a.
      rewrite lookup_insert_ne; [done|congruence].
    + intros c a [[<- <-]|[_ ?]]%lookup_insert_Some; [|eauto]. rewrite (N _ Hnew). cbn. lia.
    + intros c [Hc _]%lookup_insert_None. by apply N.
Qed.

Lemma run_act clock x w : action_ok x → run_inv w → run_inv (act clock x w).
Proof.
  intros Hx I.
  assert (∀ c f, world_inv (owner c f w) → (∀ a a' ts, awaits (cw_bus w) !! c = Some a →
     f a = Some (a', ts) → cell_step c [] a a' ∧ (ts = [] ∨ ts = [TCheckDeath c])) →
     run_inv (owner c f w)) as Hown.
  { intros c f Iw Hf. apply run_owner; [done..|]. intros a a' ts Ha Ef.
    destruct (Hf a a' ts Ha Ef) as [Hs [-> | ->]]; (split_and!; [done| | |]);
      try by intros; (intros ?%not_elem_of_nil || intros ?%list_elem_of_singleton).
    - by constructor.
    - by intros d [?%not_elem_of_nil|?%not_elem_of_nil].
    - by apply Forall_singleton.
    - by intros d [?%list_elem_of_singleton|?%list_elem_of_singleton]. }
  pose proof (inv_act clock x w Hx (rn_world _ I)) as Iw.
  destruct x; try (apply run_spawn; [done|repeat (constructor; [idle|]); constructor| |
    repeat constructor]; intros ? Hin%list_elem_of_In; by repeat destruct Hin as [<-|Hin]).
  - by apply run_act_run.
  - by apply run_act_await.
  - apply Hown; [done|]. intros a a' ts Ha Ef. destruct (aw_phase a) eqn:Hp; try done.
    destruct (aw_completion a); [|done]. injection Ef as <- <-. split; [|by left].
    unfold cell_step, good. cbn. rewrite Hp. split_and!; auto; lia.
  - apply Hown; [done|]. intros a a' ts Ha Ef. destruct (aw_phase a) eqn:Hp; try done.
    injection Ef as <- <-. split; [|by right].
    unfold cell_step, good. cbn. rewrite Hp. split_and!; [done| |lia]. naive_solver.
  - apply Hown; [done|]. intros a a' ts Ha Ef. destruct (aw_phase a) eqn:Hp; try done.
    destruct (cell_slot (aw_cell a)) as [e|]; [|done]. injection Ef as <- <-. split; [|by left].
    unfold cell_step, good. cbn. rewrite Hp. split_and!; [done| |lia]. eauto.
  - apply run_owner; [done..|]. intros a a' ts Ha Ef.
    assert (a' = set_phase Dropping a ∧ ts = drop_tasks c a) as [-> ->]
      by (destruct (aw_phase a); try done; by injection Ef as <- <-).
    split_and!.
    + unfold cell_step, good. cbn. split_and!; [done|by left|lia].
    + rewrite Forall_forall. intros t Ht. by destruct (in_drop_tasks c a t Ht) as [[? ->]|[->| ->]].
    + intros e rs Ht. by destruct (in_drop_tasks c a _ Ht) as [[? ?]|[?|?]].
    + intros d [Ht|Ht]; destruct (in_drop_tasks c a _ Ht) as [[? ?]|[[= ->]|[= ->]]]; done.
  - destruct I as [_ If Ic]. split; [done|..]; cbn [act] in *; (destruct (decide _); [|done]).
    + exact If.
    + by destruct Ic.
Qed.

Lemma schedule_run_inv clock xs : Forall action_ok xs → run_inv (run_schedule clock xs).
Proof.
  unfold run_schedule. intros Hxs.
  assert (run_inv (mkCWorld correlated_bus_new [])) as I.
  { split; [apply inv_init|apply Permutation_refl|]. split; cbn; try done.
    - by intros c [?%not_elem_of_nil|?%not_elem_of_nil].
    - by intros ? ?%not_elem_of_nil.
    - by intros ?? ?%not_elem_of_nil. }
  revert I. generalize (mkCWorld correlated_bus_new []).
  induction Hxs as [|x xs Hx _ IH]; intros w I; cbn [fold_left]; [done|]. by apply IH, run_act.
Qed.



(** ** The properties *)



(** The await can be reached under this key. *)
Definition registered (b : CorrelatedBus) (c : N) (key : Key) : Prop :=
  ∃ r, is_live (live (correlated b)) key r ∧ os_cell r = c.

Lemma waiting_await w c a :
  run_inv w →
  let b := cw_bus w in
  concat (cw_threads w) = [] → awaits b !! c = Some a → aw_phase a = Waiting →
  cell_slot (aw_cell a) ≠ None ∨
  (death_committed (correlated b) = false ∧
   ∀ t, t = to_event_type (expected_completion (aw_request a)) ∨
        failure_event_type (expected_completion (aw_request a)) = Some t →
        let key := (t, handle_id (aw_request a)) in
        registered b c key ∧ ∀ e, (key, e) ∉ missed (correlated b)).
Proof.
  intros [Iw _ Ic] b Hq Ha Hw. unfold world_inv in Iw. rewrite Hq in *. fold b in Iw, Ic.
  destruct (ce_good _ _ Ic c a Ha) as [E|[[r E]|[_ Hgood]]]; [congruence..|].
  destruct (cell_tx (aw_cell a)) eqn:Htx; [right|by left; apply Hgood].
  assert (∀ key h, arm_at a key h → ∃ r, os_cell r = c ∧ is_live (live (correlated b)) key r) as Hlive.
  { intros key h Hat. destruct (ci_wait _ _ Iw c a key h Ha Hat Htx) as (r & Hr & _ & Hp); [congruence|].
    exists r. split; [done|]. by destruct Hp as [?|(t & ?%not_elem_of_nil & _)]. }
  assert (∃ h, aw_success a = Some h) as [h Hs].
  { destruct (aw_success a) eqn:E; [eauto|].
    pose proof (rec_phase _ _ (ci_records _ _ Iw) c a Ha E). congruence. }
  split.
  - destruct (death_committed (correlated b)) eqn:Hd; [|done]. exfalso.
    destruct (fi_committed _ _ (ci_flags _ _ Iw) Hd) as [Hdr|(t & ?%not_elem_of_nil & _)]; [|done].
    destruct (Hlive (to_event_type (expected_completion (aw_request a)), handle_id (aw_request a)) h)
      as (r & <- & Hl); [split; auto|].
    by apply (ci_drained _ _ Iw Hdr _ r a Hl Ha Htx).
  - intros t Ht key. assert (∃ h, arm_at a key h) as [h' Hat].
    { destruct Ht as [->|Hf]; [exists h; split; auto|].
      destruct (aw_failure a) as [h'|] eqn:E; [exists h'; split; auto|].
      destruct (rec_armed _ _ (ci_records _ _ Iw) c a Ha E); congruence. }
    destruct (Hlive key h' Hat) as (r & Hr & Hl). split; [by exists r|].
    destruct Hl as (rs & Hl & _). by apply (ri_apart _ (ci_reg _ _ Iw) key rs).
Qed.

(** C27: No await is stranded: once all running calls have returned, an await still waiting has
    its outcome at hand, or is registered for its completion and for its failure event
    with neither latched behind it; the latter never after a committed loop death, whatever
    the order in which it armed, checked for the death and the death was drained. *)
Theorem no_await_stranded clock xs c a :
  Forall action_ok xs →
  let w := run_schedule clock xs in
  let b := cw_bus w in
  concat (cw_threads w) = [] → awaits b !! c = Some a → aw_phase a = Waiting →
  cell_slot (aw_cell a) ≠ None ∨
  (death_committed (correlated b) = false ∧
   ∀ t, t = to_event_type (expected_completion (aw_request a)) ∨
        failure_event_type (expected_completion (aw_request a)) = Some t →
        let key := (t, handle_id (aw_request a)) in
        registered b c key ∧ ∀ e, (key, e) ∉ missed (correlated b)).
Proof. intros Hxs w. apply waiting_await, schedule_run_inv, Hxs. Qed.

(** An await only ever gets an outcome of its own request: the envelope it resolves with
    carries its id and is its completion, its failure event or the report of a dead
    loop. *)
Theorem await_gets_own_outcome clock xs c a e :
  Forall action_ok xs →
  awaits (cw_bus (run_schedule clock xs)) !! c = Some a → aw_phase a = Resolved (Some e) →
  own a e.
Proof.
  intros Hxs Ha Hr. destruct (schedule_run_inv clock xs Hxs) as [Iw _ _].
  by destruct (ci_own _ _ Iw c a e Ha (or_intror Hr)).
Qed.

(** ** Concrete runs *)

Definition demo_completion (t : EventType) (id : N) : EventEnvelope :=
  mkEnvelope t 1 7 (Some id) (PClientFailed ClientLoopFailed).

(** A [ready()] handle and a [close()] handle are awaited; the completion of the first comes
    before its await is armed, that of the second between its arm and its check. *)
Definition demo_schedule : list Action :=
  [ActDeliver (demo_completion ClientReady 1); ActRun 0;
   ActAwait (mkRequestHandle 1 ExClientReady) true;
   ActRun 1; ActRun 1; ActRun 1; ActRun 1;
   ActTakeHandle 0;
   ActAwait (mkRequestHandle 2 ExClientClosed) false;
   ActRun 3; ActRun 3; ActResolve 1;
   ActDeliver (demo_completion ClientClosedEvent 2); ActRun 5; ActRun 5; ActRun 4; ActRun 5;
   ActAwait (mkRequestHandle 1 ExClientReady) true; ActRun 6;
   ActDrop 0; ActRun 7; ActRun 7; ActRun 7; ActRun 7; ActRun 7; ActRun 7; ActRun 7].

(** Then the second await takes its outcome, the third waits, and a loop dies. *)
Definition demo_death : list Action :=
  demo_schedule ++
  [ActReceive 1; ActRun 6; ActRun 6; ActResolve 2; ActRun 9; ActLoopDeath LoopIo CausePanic;
   ActRun 10; ActRun 10; ActRun 10; ActRun 10; ActRun 10; ActRun 10; ActRun 10; ActRun 10].

Lemma demo_death_ok : Forall action_ok demo_death.
Proof. unfold demo_death, demo_schedule. repeat (constructor; [cbn; lia || done|]). constructor. Qed.


(** A [ready()] await armed and waiting. *)
Definition demo_waiting : list Action :=
  [ActAwait (mkRequestHandle 5 ExClientReady) true; ActRun 0; ActRun 0; ActRun 0;
   ActResolve 0; ActRun 1].

Definition demo_await : Await :=
  mkAwait (mkRequestHandle 5 ExClientReady) true (mkCell true None true) (Some 1) (Some 2) false
    Waiting.

Lemma no_await_stranded_witness :
  let b := cw_bus (run_schedule (λ _, 0) demo_waiting) in
  awaits b !! 0 = Some demo_await ∧
  (cell_slot (aw_cell demo_await) ≠ None ∨
   (death_committed (correlated b) = false ∧
    ∀ t, t = ClientReady ∨ Some ClientFailed = Some t →
      registered b 0 (t, 5) ∧ ∀ e, ((t, 5), e) ∉ missed (correlated b))).
Proof.
  intros b. split; [vm_compute; reflexivity|].
  apply (no_await_stranded (λ _, 0) demo_waiting 0 demo_await);
    [|vm_compute; reflexivity|vm_compute; reflexivity|reflexivity].
  unfold demo_waiting. repeat (constructor; [exact I|]). constructor.
Defined.

Lemma await_gets_own_outcome_witness :
  let e := demo_completion ClientClosedEvent 2 in
  let a := mkAwait (mkRequestHandle 2 ExClientClosed) false (mkCell false None true) (Some 3) None
             false (Resolved (Some e)) in
  own a e.
Proof.
  intros e a. apply (await_gets_own_outcome (λ _, 0) demo_death 1);
    [exact demo_death_ok|vm_compute; reflexivity|reflexivity].
Defined.

(** [on_loop_death] reads the shutdown flag before the state of the dispatch loop, while a
    closing client sets the flag before the state: a death whose first read comes before
    the close and whose second comes after it is taken for an intended stop, and an await
    in flight is neither failed nor drained although the death was observed. *)
Theorem death_racing_close_strands_await :
  let w := run_schedule (λ _, 0) (demo_waiting ++
    [ActLoopDeath LoopDispatch CausePanic; ActRun 2; ActCloseDispatch; ActRun 3; ActRun 3;
     ActRun 2; ActRun 2]) in
  concat (cw_threads w) = [] ∧ loop_death_observed (cw_bus w) = true ∧
  shutting_down (cw_bus w) = true ∧ awaits (cw_bus w) !! 0 = Some demo_await.
Proof. vm_compute. done. Qed.
