(* ===== verification/ReadErrors.v ===== *)
(** * ReadErrors: the errors of the market and account namespaces

    [rust/src/api/{market,account}/error.rs] and the macros of [rust/src/error.rs] that
    build both.  The macros are written once over a class of error types with what they
    require of one; the two enums are its instances. *)

From Stdlib Require Import Ascii String.
From S2P Require Import Prelude F64 Types Events Errors Rest Dispatch TradeError.
Local Open Scope string_scope.

(** ** The macros *)

(** What [impl_with_request_id], [impl_error_common] and [impl_from_rest_error] use of an
    enum, and its [ApiError]; [ne_extra] is the optional arm of the last. *)
Class NamespaceError (E : Type) := {
  ne_transport : TransportErrorKind → bool → option string → E;
  ne_malformed_response : string → option string → E;
  ne_rate_limited : option N → option string → E;
  ne_invalid_arguments : string → option string → E;
  ne_unknown : string → string → option string → E;
  ne_extra : option (string * E);
  ne_with_request_id : string → E → E;
  ne_request_id : E → option string;
  ne_code : E → string;
  ne_category : E → ErrorCategory;
  ne_retryable : E → bool;
}.

Section Macros.
Context {E : Type} `{NamespaceError E}.

Definition ne_malformed (detail : string) : E := ne_malformed_response detail None.

Definition ne_from_dispatch (e : DispatchError) : E :=
  ne_unknown "INTERNAL" (dispatch_error_display e) None.

(** The first of Kraken's error strings decides. *)
Definition ne_classify (first : string) : E :=
  if is_kraken_rate_limit first then ne_rate_limited (error_parse_throttle_until first) None
  else
    match ne_extra with
    | Some (pattern, e) =>
        if str_contains pattern first then e
        else if str_contains "Invalid arguments" first
        then ne_invalid_arguments (trim_end_dots first) None
        else ne_unknown (kraken_eclass_code first) first None
    | None =>
        if str_contains "Invalid arguments" first
        then ne_invalid_arguments (trim_end_dots first) None
        else ne_unknown (kraken_eclass_code first) first None
    end.

Definition ne_from_rest (e : RestError) : E :=
  match e with
  | RestTransport kind transient => ne_transport kind transient None
  | RestUnexpectedShape s => ne_malformed s
  | RestRateLimit _ => ne_rate_limited None None
  | RestAuth a => ne_unknown "AUTH" (auth_error_display a) None
  | RestKraken strings => ne_classify (default "" (head strings))
  end.
End Macros.

(** ** [MarketError] *)

Inductive MarketError :=
  | MarketSymbolNotFound (symbol : string) (request_id : option string)
  | MarketInvalidArguments (detail : string) (request_id : option string)
  | MarketSystemStatusBlocked (current required : SystemStatus)
  | MarketRateLimited (retry_after_ts : option N) (request_id : option string)
  | MarketTransport (kind : TransportErrorKind) (transient : bool) (request_id : option string)
  | MarketMalformed (detail : string) (request_id : option string)
  | MarketClientClosed
  | MarketUnknown (kraken_code kraken_message : string) (request_id : option string).

Definition market_with_request_id (id : string) (e : MarketError) : MarketError :=
  match e with
  | MarketSymbolNotFound s r => MarketSymbolNotFound s (stamp id r)
  | MarketInvalidArguments d r => MarketInvalidArguments d (stamp id r)
  | MarketRateLimited t r => MarketRateLimited t (stamp id r)
  | MarketTransport k t r => MarketTransport k t (stamp id r)
  | MarketMalformed d r => MarketMalformed d (stamp id r)
  | MarketUnknown c m r => MarketUnknown c m (stamp id r)
  | MarketSystemStatusBlocked _ _ | MarketClientClosed => e
  end.

Definition market_code (e : MarketError) : string :=
  match e with
  | MarketSymbolNotFound _ _ | MarketInvalidArguments _ _ => "INVALID_ARGUMENTS"
  | MarketSystemStatusBlocked _ _ => "SYSTEM_STATUS_MAINTENANCE"
  | MarketRateLimited _ _ => "RATE_LIMIT_EXCEEDED"
  | MarketTransport _ _ _ => "CONNECTION_ERROR"
  | MarketMalformed _ _ => "MALFORMED_RESPONSE"
  | MarketClientClosed => "CLIENT_CLOSED"
  | MarketUnknown _ _ _ => "UNKNOWN"
  end.

Definition market_category (e : MarketError) : ErrorCategory :=
  match e with
  | MarketSymbolNotFound _ _ | MarketSystemStatusBlocked _ _ | MarketUnknown _ _ _ => CatExchange
  | MarketInvalidArguments _ _ | MarketMalformed _ _ | MarketClientClosed => CatClient
  | MarketRateLimited _ _ => CatRateLimit
  | MarketTransport _ _ _ => CatNetwork
  end.

Definition market_retryable (e : MarketError) : bool :=
  match e with
  | MarketRateLimited _ _ => true
  | MarketTransport _ transient _ => transient
  | _ => false
  end.

Definition market_request_id (e : MarketError) : option string :=
  match e with
  | MarketSymbolNotFound _ r | MarketInvalidArguments _ r | MarketRateLimited _ r
  | MarketTransport _ _ r | MarketMalformed _ r | MarketUnknown _ _ r => r
  | MarketSystemStatusBlocked _ _ | MarketClientClosed => None
  end.

#[export] Instance market_error : NamespaceError MarketError := {|
  ne_transport := MarketTransport;
  ne_malformed_response := MarketMalformed;
  ne_rate_limited := MarketRateLimited;
  ne_invalid_arguments := MarketInvalidArguments;
  ne_unknown := MarketUnknown;
  ne_extra := None;
  ne_with_request_id := market_with_request_id;
  ne_request_id := market_request_id;
  ne_code := market_code;
  ne_category := market_category;
  ne_retryable := market_retryable;
|}.

(** Kraken's rejection of a pair, with the pair. *)
Definition from_rest_for_symbol (symbol : string) (e : RestError) : MarketError :=
  match ne_from_rest e with
  | MarketUnknown code message r =>
      if str_contains "Unknown asset pair" message then MarketSymbolNotFound symbol r
      else MarketUnknown code message r
  | other => other
  end.

(** ** [AccountError] *)

Inductive AccountError :=
  | AccountPermissionDenied (scope : option string) (request_id : option string)
  | AccountInvalidArguments (detail : string) (request_id : option string)
  | AccountRateLimited (retry_after_ts : option N) (request_id : option string)
  | AccountTransport (kind : TransportErrorKind) (transient : bool) (request_id : option string)
  | AccountMalformed (detail : string) (request_id : option string)
  | AccountClientClosed
  | AccountUnknown (kraken_code kraken_message : string) (request_id : option string).

Definition account_with_request_id (id : string) (e : AccountError) : AccountError :=
  match e with
  | AccountPermissionDenied s r => AccountPermissionDenied s (stamp id r)
  | AccountInvalidArguments d r => AccountInvalidArguments d (stamp id r)
  | AccountRateLimited t r => AccountRateLimited t (stamp id r)
  | AccountTransport k t r => AccountTransport k t (stamp id r)
  | AccountMalformed d r => AccountMalformed d (stamp id r)
  | AccountUnknown c m r => AccountUnknown c m (stamp id r)
  | AccountClientClosed => e
  end.

Definition account_code (e : AccountError) : string :=
  match e with
  | AccountPermissionDenied _ _ => "PERMISSION_DENIED"
  | AccountInvalidArguments _ _ => "INVALID_ARGUMENTS"
  | AccountRateLimited _ _ => "RATE_LIMIT_EXCEEDED"
  | AccountTransport _ _ _ => "CONNECTION_ERROR"
  | AccountMalformed _ _ => "MALFORMED_RESPONSE"
  | AccountClientClosed => "CLIENT_CLOSED"
  | AccountUnknown _ _ _ => "UNKNOWN"
  end.

Definition account_category (e : AccountError) : ErrorCategory :=
  match e with
  | AccountPermissionDenied _ _ => CatAuth
  | AccountInvalidArguments _ _ | AccountMalformed _ _ | AccountClientClosed => CatClient
  | AccountRateLimited _ _ => CatRateLimit
  | AccountTransport _ _ _ => CatNetwork
  | AccountUnknown _ _ _ => CatExchange
  end.

Definition account_retryable (e : AccountError) : bool :=
  match e with
  | AccountRateLimited _ _ => true
  | AccountTransport _ transient _ => transient
  | _ => false
  end.

Definition account_request_id (e : AccountError) : option string :=
  match e with
  | AccountPermissionDenied _ r | AccountInvalidArguments _ r | AccountRateLimited _ r
  | AccountTransport _ _ r | AccountMalformed _ r | AccountUnknown _ _ r => r
  | AccountClientClosed => None
  end.

#[export] Instance account_error : NamespaceError AccountError := {|
  ne_transport := AccountTransport;
  ne_malformed_response := AccountMalformed;
  ne_rate_limited := AccountRateLimited;
  ne_invalid_arguments := AccountInvalidArguments;
  ne_unknown := AccountUnknown;
  ne_extra := Some ("Permission denied", AccountPermissionDenied None None);
  ne_with_request_id := account_with_request_id;
  ne_request_id := account_request_id;
  ne_code := account_code;
  ne_category := account_category;
  ne_retryable := account_retryable;
|}.

(** ** What the namespaces rely on *)

(** A request-scoped error takes the first id it is given and keeps its class; all that the
    macros make is request-scoped and unstamped. *)
Class NamespaceErrorLaws (E : Type) `{NamespaceError E} := {
  ne_scoped : E → bool;
  ne_stamped id e : ne_scoped e = true →
    ne_request_id (ne_with_request_id id e) = Some (default id (ne_request_id e));
  ne_stamp_once id id' e :
    ne_with_request_id id' (ne_with_request_id id e) = ne_with_request_id id e;
  ne_stamp_class id e :
    ne_scoped (ne_with_request_id id e) = ne_scoped e ∧
    ne_code (ne_with_request_id id e) = ne_code e ∧
    ne_category (ne_with_request_id id e) = ne_category e ∧
    ne_retryable (ne_with_request_id id e) = ne_retryable e;
  ne_transport_ok k t r : let e := ne_transport k t r in
    ne_scoped e = true ∧ ne_request_id e = r ∧ ne_retryable e = t;
  ne_malformed_ok d r : let e := ne_malformed_response d r in
    ne_scoped e = true ∧ ne_request_id e = r ∧ ne_retryable e = false;
  ne_rate_limited_ok t r : let e := ne_rate_limited t r in
    ne_scoped e = true ∧ ne_request_id e = r ∧ ne_retryable e = true;
  ne_invalid_ok d r : let e := ne_invalid_arguments d r in
    ne_scoped e = true ∧ ne_request_id e = r ∧ ne_retryable e = false;
  ne_unknown_ok c m r : let e := ne_unknown c m r in
    ne_scoped e = true ∧ ne_request_id e = r ∧ ne_retryable e = false;
  ne_extra_ok p e : ne_extra = Some (p, e) →
    ne_scoped e = true ∧ ne_request_id e = None ∧ ne_retryable e = false;
}.

Definition market_scoped (e : MarketError) : bool :=
  match e with MarketSystemStatusBlocked _ _ | MarketClientClosed => false | _ => true end.

Definition account_scoped (e : AccountError) : bool :=
  match e with AccountClientClosed => false | _ => true end.

Lemma stamp_idem id id' r : stamp id' (stamp id r) = stamp id r.
Proof. by destruct r. Qed.

Lemma stamp_some id r : stamp id r = Some (default id r).
Proof. by destruct r. Qed.

#[export] Instance market_error_laws : NamespaceErrorLaws MarketError.
Proof.
  refine {| ne_scoped := market_scoped |}; cbn; try done.
  - intros id []; try done; intros _; cbn; apply stamp_some.
  - intros id id' []; cbn; by rewrite ?stamp_idem.
  - by intros id [].
Defined.

#[export] Instance account_error_laws : NamespaceErrorLaws AccountError.
Proof.
  refine {| ne_scoped := account_scoped |}; cbn; try done.
  - intros id []; try done; intros _; cbn; apply stamp_some.
  - intros id id' []; cbn; by rewrite ?stamp_idem.
  - by intros id [].
  - by intros p e [= <- <-].
Defined.

Section Classified.
Context {E : Type} `{NamespaceErrorLaws E}.

(** Unstamped, request-scoped. *)
Definition fresh_error (e : E) : Prop := ne_scoped e = true ∧ ne_request_id e = None.

(** Whether to try again: the throttle family of the exchange, the tracker's own refusal,
    and the transport's transient failures. *)
Definition worth_retrying (e : RestError) : bool :=
  match e with
  | RestTransport _ transient => transient
  | RestRateLimit _ => true
  | RestKraken strings => is_kraken_rate_limit (default "" (head strings))
  | RestAuth _ | RestUnexpectedShape _ => false
  end.

Lemma classify_facts first :
  fresh_error (ne_classify first) ∧
  ne_retryable (ne_classify (E := E) first) = is_kraken_rate_limit first.
Proof.
  unfold ne_classify, fresh_error.
  destruct (is_kraken_rate_limit first).
  { by destruct (ne_rate_limited_ok (E := E) (error_parse_throttle_until first) None) as (? & ? & ?). }
  destruct (ne_invalid_ok (E := E) (trim_end_dots first) None) as (? & ? & ?).
  destruct (ne_unknown_ok (E := E) (kraken_eclass_code first) first None) as (? & ? & ?).
  destruct ne_extra as [[p e]|] eqn:Hx.
  - destruct (ne_extra_ok p e Hx) as (? & ? & ?). by repeat case_match.
  - by repeat case_match.
Qed.

Lemma from_rest_facts e :
  fresh_error (ne_from_rest e) ∧ ne_retryable (ne_from_rest (E := E) e) = worth_retrying e.
Proof.
  unfold fresh_error. destruct e as [k t|a|codes|s|x]; cbn [ne_from_rest worth_retrying].
  - by destruct (ne_transport_ok (E := E) k t None) as (? & ? & ?).
  - by destruct (ne_unknown_ok (E := E) "AUTH" (auth_error_display a) None) as (? & ? & ?).
  - apply classify_facts.
  - by destruct (ne_malformed_ok (E := E) s None) as (? & ? & ?).
  - by destruct (ne_rate_limited_ok (E := E) None None) as (? & ? & ?).
Qed.

Lemma malformed_fresh d : fresh_error (ne_malformed d) ∧ ne_retryable (ne_malformed (E := E) d) = false.
Proof. by destruct (ne_malformed_ok (E := E) d None) as (? & ? & ?). Qed.

Lemma stamped_id id e : fresh_error e → ne_request_id (ne_with_request_id id e) = Some id.
Proof. intros [Hs Hr]. by rewrite ne_stamped, Hr. Qed.
End Classified.

(** Lifting a rejected pair changes neither. *)
Lemma for_symbol_facts symbol e :
  fresh_error (from_rest_for_symbol symbol e) ∧
  ne_retryable (from_rest_for_symbol symbol e) = worth_retrying e.
Proof.
  destruct (from_rest_facts (E := MarketError) e) as [[Hs Hr] Ht]. unfold from_rest_for_symbol.
  unfold fresh_error. destruct (ne_from_rest e) eqn:He; try done. cbn in *. subst. destruct (str_contains _ _); done.
Qed.
