(* ===== verification/Reads.v ===== *)
(** * Reads: the reads of the market and account namespaces

    [decode_object_map] of [rust/src/api/mod.rs] and the shape the REST reads of
    [api/market/rest.rs] and [api/account/mod.rs] share: resolve the endpoint, mint an id,
    send under the idempotent policy, and stamp every later failure with the id.  Programs
    of [Task] over a class of errors. *)

From Stdlib Require Import Ascii String.
From S2P Require Import Prelude F64 Types Events Errors Rest Dispatch TradeError ReadErrors RateLimit Task RestSurface.
Local Open Scope string_scope.
Local Open Scope N_scope.

(** ** Results *)

Definition andthen {E A B} (r : E + A) (k : A → E + B) : E + B :=
  match r with inl e => inl e | inr a => k a end.

Notation "'let?' x := r 'in' k" := (andthen r (λ x, k))
  (at level 10, x pattern, r at level 100, k at level 200).

Definition ok_or {E A} (o : option A) (e : E) : E + A :=
  match o with Some a => inr a | None => inl e end.

(** [collect::<Result<Vec<_>, _>>()]: the first failure, or every value. *)
Fixpoint collect {E A B} (f : A → E + B) (l : list A) : E + list B :=
  match l with
  | [] => inr []
  | a :: l => let? b := f a in let? bs := collect f l in inr (b :: bs)
  end.

(** ** Maps *)

Section Maps.
Context {E Raw V : Type} {K : Type} `{Countable K}.
Context (from_value : Json → string + Raw) (ctx : string) (on_error : string → E)
  (from_entry : string → Raw → E + (K * V)).

(** A later entry replaces an earlier one of its key. *)
Fixpoint decode_entries (fields : list (string * Json)) (map : gmap K V) : E + gmap K V :=
  match fields with
  | [] => inr map
  | (key, raw_value) :: fields =>
      match from_value raw_value with
      | inl e => inl (on_error (ctx ++ " decode " ++ key ++ ": " ++ e))
      | inr raw =>
          let? kv := from_entry key raw in
          decode_entries fields (<[kv.1 := kv.2]> map)
      end
  end.

Definition decode_object_map (result : Json) : E + gmap K V :=
  match result with
  | JObject obj => decode_entries obj ∅
  | _ => inl (on_error (ctx ++ ": result not an object"))
  end.
End Maps.

(** ** Requests *)

(** Kraken's flag texts. *)
Definition bool_text (b : bool) : string := if b then "true" else "false".

(** [push_opt] *)
Definition push_opt (form : list (string * string)) (name : string) (opt : option string)
  : list (string * string) :=
  match opt with Some v => (form ++ [(name, v)])%list | None => form end.

Section Reads.
Context {E : Type} `{NamespaceError E}.
Context (env : TaskEnv) (rest : RestSurface) (dispatch : DispatchTable).

(** [endpoint] and [route] *)
Definition resolve_rest (op : Op) : E + AdapterEntry :=
  match resolve op Spot Rest dispatch with
  | inl e => inl (ne_from_dispatch e)
  | inr entry => inr entry
  end.

Definition endpoint (op : Op) : E + string :=
  let? entry := resolve_rest op in inr (wire_target entry).

Definition route (op : Op) : E + (string * AuthProfile) :=
  let? entry := resolve_rest op in
  inr (wire_target entry, if requires_auth entry then SpotV1 else ProfilePublic).

(** [map_err(|e| e.with_request_id(&request_id))] *)
Definition identified {A} (request_id : string) (r : E + A) : E + A :=
  match r with inl e => inl (ne_with_request_id request_id e) | inr a => inr a end.

(** A public read up to its [result], with its id; [lift] makes the namespace's error. *)
Definition public_fetch (lift : RestError → E) (path : string) (query : list (string * string))
  : Task (E + (string * Json)) :=
  request_id ← mint_request_id env;
  r ← public_get env rest path query idempotent request_id;
  mret (match r with
        | inl e => inl (ne_with_request_id request_id (lift e))
        | inr v => inr (request_id, v)
        end).

(** [signed_dispatch] *)
Definition signed_dispatch (path : string) (form : list (string * string)) (auth : AuthProfile)
  (cost : RateLimitCost) : Task (E + (string * Json)) :=
  request_id ← mint_request_id env;
  r ← signed_post_costed env rest path form auth cost idempotent request_id;
  mret (match r with
        | inl e => inl (ne_with_request_id request_id (ne_from_rest e))
        | inr v => inr (request_id, v)
        end).

(** The decoding of a read's result, with the read's id on its failure. *)
Definition decoding {A} (fetch : Task (E + (string * Json))) (decode : Json → E + A)
  : Task (E + A) :=
  try_ fetch (λ '(request_id, v), mret (identified request_id (decode v))).

Definition public_read {A} (op : Op) (lift : RestError → E) (query : list (string * string))
  (decode : Json → E + A) : Task (E + A) :=
  try_ (mret (endpoint op)) (λ path, decoding (public_fetch lift path query) decode).

Definition signed_read {A} (op : Op) (form : list (string * string)) (cost : f64)
  (decode : Json → E + A) : Task (E + A) :=
  try_ (mret (route op)) (λ '(path, auth),
    decoding (signed_dispatch path form auth (CostApi cost)) decode).

(** [serde_json::from_value(..).map_err(|e| malformed(format!(label, e)))] *)
Definition from_value_as {A} (label : string) (r : string + A) : E + A :=
  match r with inl e => inl (ne_malformed (label ++ e)) | inr a => inr a end.
End Reads.
