(* ===== verification/Market.v ===== *)
(** * Market: public market data over REST

    [rust/src/api/market/{rest,requests,types}.rs].  The decoders serde derives for the raw
    replies are parameters, and so are decimals with their parser ([rust_decimal]) and the
    [Debug] and [Display] texts of JSON values. *)

From Stdlib Require Import Ascii String.
From stdpp Require Import sorting.
From S2P Require Import Prelude F64 Types Events Errors Rest ConfigResolver Dispatch TradeError ReadErrors RateLimit Task RestSurface Reads.
Local Open Scope string_scope.
Local Open Scope N_scope.

(** [Decimal::from_str], with the error's text, and the texts of values. *)
Record Readers (D : Type) := mkReaders {
  dec_parse : string → string + D;
  json_debug : Json → string;
  json_display : Json → string;
}.
Arguments mkReaders {D}.
Arguments dec_parse {D} _.
Arguments json_debug {D} _.
Arguments json_display {D} _.

(** [ws_types.rs] *)
Definition decimal_from_value {D} (rd : Readers D) (v : Json) : string + D :=
  match v with
  | JString s => dec_parse rd s
  | JNumber n => dec_parse rd n
  | other => inl ("unexpected type " ++ json_debug rd other)
  end.

Inductive TradeSide := SideBuy | SideSell | SideUnknown.

Definition from_trades_char (s : string) : TradeSide :=
  if decide (s = "b") then SideBuy else if decide (s = "s") then SideSell else SideUnknown.

(** ** [requests.rs] *)

Record TradesRequest := mkTradesRequest {
  trq_pair : Symbol;
  trq_since : option string;
  trq_count : option N;
}.

Definition trades_request_new (pr : Symbol) : TradesRequest := mkTradesRequest pr None None.
Definition trades_since (since : string) (r : TradesRequest) : TradesRequest :=
  mkTradesRequest (trq_pair r) (Some since) (trq_count r).
Definition trades_count (count : N) (r : TradesRequest) : TradesRequest :=
  mkTradesRequest (trq_pair r) (trq_since r) (Some count).

Definition trades_params (r : TradesRequest) : list (string * string) :=
  let query := [("pair", trq_pair r)] in
  let query := push_opt query "since" (trq_since r) in
  push_opt query "count" (decimal <$> trq_count r).

Record OhlcRequest := mkOhlcRequest {
  orq_pair : Symbol;
  orq_interval : OhlcInterval;
  orq_since : option N;
}.

Definition ohlc_request_new (pr : Symbol) (interval : OhlcInterval) : OhlcRequest :=
  mkOhlcRequest pr interval None.
Definition ohlc_since (since : N) (r : OhlcRequest) : OhlcRequest :=
  mkOhlcRequest (orq_pair r) (orq_interval r) (Some since).

(** ** [types.rs]: the rows *)

Section Types.
Context {D : Type} (rd : Readers D).

Definition parse_dec (s field : string) : MarketError + D :=
  match dec_parse rd s with
  | inl e => inl (ne_malformed (field ++ ": " ++ e))
  | inr d => inr d
  end.

Definition missing (field : string) : MarketError := ne_malformed ("missing " ++ field).

Record RawTicker := mkRawTicker {
  rt_a : list string; rt_b : list string; rt_c : list string; rt_v : list string;
  rt_p : list string; rt_t : list N; rt_l : list string; rt_h : list string; rt_o : string;
}.

Record Ticker := mkTicker {
  ask_price : D; ask_whole_lot_volume : D; ask_lot_volume : D;
  bid_price : D; bid_whole_lot_volume : D; bid_lot_volume : D;
  last_price : D; last_volume : D;
  volume_today : D; volume_24h : D;
  vwap_today : D; vwap_24h : D;
  trades_today : N; trades_24h : N;
  low_today : D; low_24h : D;
  high_today : D; high_24h : D;
  open : D;
}.

(** [parse_dec(raw.x.get(i).ok_or_else(missing(slot))?, field)?] *)
Definition entry_dec (l : list string) (i : nat) (slot field : string) : MarketError + D :=
  let? s := ok_or (l !! i) (missing slot) in parse_dec s field.

Definition ticker_from_raw (raw : RawTicker) : MarketError + Ticker :=
  let? ask_price := entry_dec (rt_a raw) 0 "a[0]" "ask price" in
  let? ask_whole_lot_volume := entry_dec (rt_a raw) 1 "a[1]" "ask whole lot volume" in
  let? ask_lot_volume := entry_dec (rt_a raw) 2 "a[2]" "ask lot volume" in
  let? bid_price := entry_dec (rt_b raw) 0 "b[0]" "bid price" in
  let? bid_whole_lot_volume := entry_dec (rt_b raw) 1 "b[1]" "bid whole lot volume" in
  let? bid_lot_volume := entry_dec (rt_b raw) 2 "b[2]" "bid lot volume" in
  let? last_price := entry_dec (rt_c raw) 0 "c[0]" "last price" in
  let? last_volume := entry_dec (rt_c raw) 1 "c[1]" "last volume" in
  let? volume_today := entry_dec (rt_v raw) 0 "v[0]" "volume today" in
  let? volume_24h := entry_dec (rt_v raw) 1 "v[1]" "volume 24h" in
  let? vwap_today := entry_dec (rt_p raw) 0 "p[0]" "vwap today" in
  let? vwap_24h := entry_dec (rt_p raw) 1 "p[1]" "vwap 24h" in
  let? high_today := entry_dec (rt_h raw) 0 "h[0]" "high today" in
  let? high_24h := entry_dec (rt_h raw) 1 "h[1]" "high 24h" in
  let? low_today := entry_dec (rt_l raw) 0 "l[0]" "low today" in
  let? low_24h := entry_dec (rt_l raw) 1 "l[1]" "low 24h" in
  let? open := parse_dec (rt_o raw) "open" in
  let? trades_today := ok_or (rt_t raw !! 0%nat) (missing "t[0]") in
  let? trades_24h := ok_or (rt_t raw !! 1%nat) (missing "t[1]") in
  inr (mkTicker ask_price ask_whole_lot_volume ask_lot_volume bid_price bid_whole_lot_volume
         bid_lot_volume last_price last_volume volume_today volume_24h vwap_today vwap_24h
         trades_today trades_24h low_today low_24h high_today high_24h open).

Record OrderBookLevel := mkLevel { lv_price : D; lv_volume : D; lv_timestamp : N }.
Record OrderBookSnapshot := mkSnapshot { ob_asks : list OrderBookLevel; ob_bids : list OrderBookLevel }.
Record RawOrderBook := mkRawBook { rob_asks : list (list Json); rob_bids : list (list Json) }.

(** [u64::MAX as f64] *)
Definition u64_max_f64 : f64 := f64_of_Z (Z.of_N u64_max).

(** [Value::as_f64]: a number's text, when it reads as a finite one. *)
Definition json_as_f64 (v : Json) : option f64 :=
  match v with
  | JNumber n => f ← parse_f64 n; if f64_is_finite f then Some f else None
  | _ => None
  end.

Definition decode_level_timestamp (v : Json) : MarketError + N :=
  match json_as_u64 v with
  | Some n => inr n
  | None =>
      let as_secs := match json_as_f64 v with
                     | Some f => Some f
                     | None => json_as_str v ≫= parse_f64
                     end in
      match as_secs with
      | Some f =>
          if f64_le f64_zero f && f64_le f u64_max_f64 then inr (f64_to_u64 f)
          else inl (ne_malformed ("orderbook level timestamp not a number: " ++ json_display rd v))
      | None => inl (ne_malformed ("orderbook level timestamp not a number: " ++ json_display rd v))
      end
  end.

Definition decode_level (raw : list Json) : MarketError + OrderBookLevel :=
  match raw with
  | [p; v; t] =>
      let? price_str := ok_or (json_as_str p) (ne_malformed "orderbook level price not string") in
      let? volume_str := ok_or (json_as_str v) (ne_malformed "orderbook level volume not string") in
      let? timestamp := decode_level_timestamp t in
      let? price := parse_dec price_str "orderbook price" in
      let? volume := parse_dec volume_str "orderbook volume" in
      inr (mkLevel price volume timestamp)
  | _ => inl (ne_malformed ("orderbook level expected 3 elements, got " ++
                            decimal (N.of_nat (length raw))))
  end.

Definition book_from_raw (raw : RawOrderBook) : MarketError + OrderBookSnapshot :=
  let? asks := collect decode_level (rob_asks raw) in
  let? bids := collect decode_level (rob_bids raw) in
  inr (mkSnapshot asks bids).

Record RawTrade := mkRawTrade {
  rtr_price : string; rtr_volume : string; rtr_time : Json; rtr_side : string;
  rtr_type : string; rtr_misc : string; rtr_id : N;
}.
Record RecentTrade := mkTrade {
  tr_price : D; tr_volume : D; tr_time : string; tr_side : TradeSide; tr_order_type : string;
  tr_misc : string; tr_id : N;
}.

Definition trade_from_raw (raw : RawTrade) : MarketError + RecentTrade :=
  let? price := parse_dec (rtr_price raw) "trade price" in
  let? volume := parse_dec (rtr_volume raw) "trade volume" in
  let? time := match rtr_time raw with
               | JNumber n => inr n
               | JString s => inr s
               | other => inl (ne_malformed ("trade time: expected a JSON number, got " ++
                                             json_debug rd other))
               end in
  inr (mkTrade price volume time (from_trades_char (rtr_side raw)) (rtr_type raw) (rtr_misc raw)
         (rtr_id raw)).

Record RawCandle := mkRawCandle {
  rc_time : N; rc_open : string; rc_high : string; rc_low : string; rc_close : string;
  rc_vwap : string; rc_volume : string; rc_count : N;
}.
Record OhlcCandle := mkCandle {
  cd_time : N; cd_open : D; cd_high : D; cd_low : D; cd_close : D; cd_vwap : D; cd_volume : D;
  cd_count : N;
}.

Definition candle_from_raw (raw : RawCandle) : MarketError + OhlcCandle :=
  let? o := parse_dec (rc_open raw) "ohlc open" in
  let? h := parse_dec (rc_high raw) "ohlc high" in
  let? l := parse_dec (rc_low raw) "ohlc low" in
  let? c := parse_dec (rc_close raw) "ohlc close" in
  let? w := parse_dec (rc_vwap raw) "ohlc vwap" in
  let? v := parse_dec (rc_volume raw) "ohlc volume" in
  inr (mkCandle (rc_time raw) o h l c w v (rc_count raw)).

Record RawSpread := mkRawSpread { rs_time : N; rs_bid : string; rs_ask : string }.
Record SpreadEntry := mkSpread { sp_time : N; sp_bid : D; sp_ask : D }.

Definition spread_from_raw (raw : RawSpread) : MarketError + SpreadEntry :=
  let? bid := parse_dec (rs_bid raw) "spread bid" in
  let? ask := parse_dec (rs_ask raw) "spread ask" in
  inr (mkSpread (rs_time raw) bid ask).

Record RawServerTime := mkServerTime { unixtime : N; rfc1123 : string }.

Record RawAssetMeta := mkRawAsset {
  ra_aclass : string; ra_altname : string; ra_decimals : N; ra_display_decimals : N;
  ra_status : string; ra_collateral_value : option Json;
}.
Record AssetMeta := mkAsset {
  as_aclass : string; as_altname : string; as_decimals : N; as_display_decimals : N;
  as_status : string; as_collateral_value : option D;
}.

Definition asset_from_raw (r : RawAssetMeta) : MarketError + AssetMeta :=
  let? collateral :=
    match ra_collateral_value r with
    | None | Some JNull => inr None
    | Some v => match decimal_from_value rd v with
                | inl e => inl (ne_malformed ("collateral_value: " ++ e))
                | inr d => inr (Some d)
                end
    end in
  inr (mkAsset (ra_aclass r) (ra_altname r) (ra_decimals r) (ra_display_decimals r)
         (ra_status r) collateral).

Record FeeTier := mkTier { ft_volume : D; ft_fee_pct : D }.

Record RawAssetPair := mkRawPair {
  rp_aclass_base : string; rp_aclass_quote : string; rp_base : string; rp_quote : string;
  rp_tick_size : string; rp_pair_decimals : N; rp_cost_decimals : N; rp_lot_decimals : N;
  rp_ordermin : string; rp_costmin : string; rp_status : option string;
  rp_fees : list (list Json); rp_fees_maker : option (list (list Json));
  rp_margin_call : option N; rp_margin_stop : option N;
  rp_leverage_buy : list N; rp_leverage_sell : list N; rp_lot_multiplier : option N;
  rp_fee_volume_currency : option string;
  rp_long_position_limit : option N; rp_short_position_limit : option N;
  rp_execution_venue : option string;
}.
Record AssetPairMeta := mkPair {
  pm_aclass_base : string; pm_aclass_quote : string; pm_tick_size : D; pm_pair_decimals : N;
  pm_cost_decimals : N; pm_lot_decimals : N; pm_ordermin : D; pm_costmin : D;
  pm_status : option string; pm_fees : list FeeTier; pm_fees_maker : list FeeTier;
  pm_margin_call : option N; pm_margin_stop : option N; pm_leverage_buy : list N;
  pm_leverage_sell : list N; pm_lot_multiplier : option N;
  pm_fee_volume_currency : option string; pm_long_position_limit : option N;
  pm_short_position_limit : option N; pm_execution_venue : option string;
}.

Definition parse_elem (v : Json) (what : string) : MarketError + D :=
  match decimal_from_value rd v with
  | inr d => inr d
  | inl e => inl (ne_malformed (match v with
                                | JString _ => "fee tier " ++ what ++ ": " ++ e
                                | JNumber _ => "fee tier " ++ what ++ " parse"
                                | _ => "fee tier " ++ what ++ " type"
                                end))
  end.

Definition parse_tier (v : list Json) : MarketError + FeeTier :=
  match v with
  | [volume; fee] =>
      let? volume := parse_elem volume "volume" in
      let? fee := parse_elem fee "fee_pct" in
      inr (mkTier volume fee)
  | _ => inl (ne_malformed ("fee tier expected [volume, fee_pct], got " ++
                            decimal (N.of_nat (length v)) ++ " elements"))
  end.

Definition pair_from_raw (r : RawAssetPair) : MarketError + AssetPairMeta :=
  let? fees := collect parse_tier (rp_fees r) in
  let? fees_maker := collect parse_tier (default [] (rp_fees_maker r)) in
  let? tick_size := parse_dec (rp_tick_size r) "tick_size" in
  let? ordermin := parse_dec (rp_ordermin r) "ordermin" in
  let? costmin := parse_dec (rp_costmin r) "costmin" in
  inr (mkPair (rp_aclass_base r) (rp_aclass_quote r) tick_size (rp_pair_decimals r)
         (rp_cost_decimals r) (rp_lot_decimals r) ordermin costmin (rp_status r) fees fees_maker
         (rp_margin_call r) (rp_margin_stop r) (rp_leverage_buy r) (rp_leverage_sell r)
         (rp_lot_multiplier r) (asset_code_from_wire <$> rp_fee_volume_currency r)
         (rp_long_position_limit r) (rp_short_position_limit r) (rp_execution_venue r)).

(** The key to expose: the wire's, unless it has no slash and both legs are given. *)
Definition modern_pair_key (r : RawAssetPair) (wire_key : string) : string :=
  if str_contains "/" wire_key || String.eqb (rp_base r) "" || String.eqb (rp_quote r) ""
  then wire_key
  else asset_code_from_wire (rp_base r) ++ "/" ++ asset_code_from_wire (rp_quote r).

(** The decoders serde derives. *)
Record MarketDecoders := mkMarketDecoders {
  from_ticker : Json → string + RawTicker;
  from_asset_pair : Json → string + RawAssetPair;
  from_asset_meta : Json → string + RawAssetMeta;
  from_order_book : Json → string + RawOrderBook;
  from_trades : Json → string + list RawTrade;
  from_candles : Json → string + list RawCandle;
  from_spreads : Json → string + list RawSpread;
  from_server_time : Json → string + RawServerTime;
  from_system_status : Json → string + SystemStatus;
}.
End Types.
Arguments Ticker : clear implicits.
Arguments OrderBookSnapshot : clear implicits.
Arguments RecentTrade : clear implicits.
Arguments OhlcCandle : clear implicits.
Arguments SpreadEntry : clear implicits.
Arguments AssetMeta : clear implicits.
Arguments AssetPairMeta : clear implicits.

(** ** [rest.rs] *)

Definition symbols_csv (symbols : list Symbol) : string := join "," symbols.

(** [String]'s order. *)
Definition text_le (a b : string) : Prop := String.compare a b ≠ Gt.
#[export] Instance text_le_dec a b : Decision (text_le a b).
Proof. unfold text_le. apply _. Defined.

Abbreviation PairKeyMap := (gmap string Symbol).

(** The modern key a wire key is to be replaced by. *)
Definition rekeyed (map : PairKeyMap) (key : string) : option Symbol :=
  match map !! key with
  | Some sym => if decide (sym = key) then None else Some sym
  | None => None
  end.

(** A row whose new key is taken is dropped. *)
Definition insert_vacant {V} (out : gmap string V) (row : string * string * V) : gmap string V :=
  let '(_, new_key, t) := row in
  match out !! new_key with Some _ => out | None => <[new_key := t]> out end.

(** On the rows of the map, in the order it is iterated. *)
Definition rekey_rows {V} (map : PairKeyMap) (rows : list (string * V)) : gmap string V :=
  let native := filter (λ row, rekeyed map row.1 = None) rows in
  let moved := omap (λ row, (λ sym, (row.1, sym, row.2)) <$> rekeyed map row.1) rows in
  fold_left insert_vacant (merge_sort (λ a b, text_le a.1.1 b.1.1) moved)
    (fold_left (λ out row, <[row.1 := row.2]> out) native ∅).

Definition rekey_ticker_map {V} (tickers : gmap string V) (map : PairKeyMap) : gmap string V :=
  rekey_rows map (map_to_list tickers).

(** The first entry that is not the cursor, and the others. *)
Fixpoint split_entry (fields : list (string * Json)) : option Json * list (string * Json) :=
  match fields with
  | [] => (None, [])
  | (k, v) :: fields =>
      if decide (k = "last") then let '(p, l) := split_entry fields in (p, (k, v) :: l)
      else (Some v, fields)
  end.

Definition take_last_entry (result : Json) (ctx : string)
  : MarketError + (list (string * Json) * Json) :=
  match result with
  | JObject obj =>
      let '(pair_value, others) := split_entry obj in
      let? v := ok_or pair_value (ne_malformed (ctx ++ ": missing pair entry")) in
      inr (others, v)
  | _ => inl (ne_malformed (ctx ++ ": result not an object"))
  end.

Definition take_first_entry (result : Json) : MarketError + Json :=
  match result with
  | JObject ((_, v) :: _) => inr v
  | JObject [] => inl (ne_malformed "empty `result` object")
  | _ => inl (ne_malformed "result not an object")
  end.

Record TradesResult (D : Type) := mkTradesResult {
  trades_pair : Symbol; trades_rows : list (RecentTrade D); trades_last : string }.
Record OhlcResult (D : Type) := mkOhlcResult {
  ohlc_pair : Symbol; ohlc_candles : list (OhlcCandle D); ohlc_last : N }.
Record SpreadsResult (D : Type) := mkSpreadsResult {
  spreads_pair : Symbol; spreads_rows : list (SpreadEntry D); spreads_last : string }.
Arguments mkTradesResult {D}.
Arguments mkOhlcResult {D}.
Arguments mkSpreadsResult {D}.

Section Rest.
Context {D : Type} (rd : Readers D) (dec : MarketDecoders).
Context (env : TaskEnv) (rest : RestSurface) (dispatch : DispatchTable).

(** *** Decoding a result *)

Definition decode_tickers (result : Json) : MarketError + gmap string (Ticker D) :=
  decode_object_map (from_ticker dec) "ticker" ne_malformed
    (λ key raw, let? t := ticker_from_raw rd raw in inr (key, t)) result.

(** A row whose rebuilt key is no symbol is skipped. *)
Definition pair_keys (raw : gmap string RawAssetPair) : PairKeyMap :=
  map_imap (λ wire_key r,
    match symbol_new (modern_pair_key r wire_key) with inr sym => Some sym | inl _ => None end)
    raw.

Definition decode_pair_keys (from_pairs : Json → string + gmap string RawAssetPair)
  (result : Json) : MarketError + PairKeyMap :=
  let? raw := from_value_as "pairs decode: " (from_pairs result) in inr (pair_keys raw).

Definition decode_orderbook (result : Json) : MarketError + OrderBookSnapshot D :=
  let? pair_value := take_first_entry result in
  let? raw := from_value_as "orderbook decode: " (from_order_book dec pair_value) in
  book_from_raw rd raw.

Definition decode_trades (pr : Symbol) (result : Json) : MarketError + TradesResult D :=
  let? entry := take_last_entry result "trades" in
  let? last := ok_or (json_get "last" (JObject entry.1) ≫= json_as_str)
                 (ne_malformed "trades: missing `last`") in
  let? raw := from_value_as "trades decode: " (from_trades dec entry.2) in
  let? trades := collect (trade_from_raw rd) raw in
  inr (mkTradesResult pr trades last).

Definition decode_ohlc_result (pr : Symbol) (result : Json) : MarketError + OhlcResult D :=
  let? entry := take_last_entry result "ohlc" in
  let? last := ok_or (json_get "last" (JObject entry.1) ≫= json_as_u64)
                 (ne_malformed "ohlc: missing `last`") in
  let? raw := from_value_as "ohlc decode: " (from_candles dec entry.2) in
  let? candles := collect (candle_from_raw rd) raw in
  inr (mkOhlcResult pr candles last).

Definition decode_spreads (pr : Symbol) (result : Json) : MarketError + SpreadsResult D :=
  let? entry := take_last_entry result "spreads" in
  let? last := ok_or (json_get "last" (JObject entry.1) ≫= json_as_u64)
                 (ne_malformed "spreads: missing `last`") in
  let? raw := from_value_as "spreads decode: " (from_spreads dec entry.2) in
  let? spreads := collect (spread_from_raw rd) raw in
  inr (mkSpreadsResult pr spreads (decimal last)).

Definition decode_assets (result : Json) : MarketError + gmap string (AssetMeta D) :=
  decode_object_map (from_asset_meta dec) "assets" ne_malformed
    (λ code r, let? a := asset_from_raw rd r in inr (asset_code_from_wire code, a)) result.

Definition decode_pairs (result : Json) : MarketError + gmap string (AssetPairMeta D) :=
  decode_object_map (from_asset_pair dec) "pairs" ne_malformed
    (λ key r, let? p := pair_from_raw rd r in inr (modern_pair_key r key, p)) result.

(** *** The calls *)

(** With the queried pairs as context when there are some. *)
Definition lift_for (csv : option string) (e : RestError) : MarketError :=
  match csv with Some c => from_rest_for_symbol c e | None => ne_from_rest e end.

Definition opt_query (key : string) (csv : option string) : list (string * string) :=
  match csv with Some c => [(key, c)] | None => [] end.

(** The cell of the key map ([tokio::sync::OnceCell]): what it holds at a reading, set by
    the first fetch that succeeds.  A caller that finds it empty waits for the permit to
    initialise it and looks again. *)
Context (cell : nat → option PairKeyMap)
  (from_pairs : Json → string + gmap string RawAssetPair).

Definition fetch_pair_keys : Task (MarketError + PairKeyMap) :=
  public_read env rest dispatch MarketAssetPairs ne_from_rest [] (decode_pair_keys from_pairs).

Definition pair_key_map : Task (MarketError + PairKeyMap) :=
  held ← read cell;
  match held with
  | Some map => mret (inr map)
  | None =>
      held ← await env cell;
      match held with
      | Some map => mret (inr map)
      | None => fetch_pair_keys
      end
  end.

Definition market_ticker (pairs : option (list Symbol))
  : Task (MarketError + gmap string (Ticker D)) :=
  let csv := symbols_csv <$> pairs in
  try_ (mret (endpoint dispatch MarketTicker)) (λ path,
    try_ (public_fetch env rest (lift_for csv) path (opt_query "pair" csv)) (λ '(request_id, result),
      try_ (mret (identified request_id (decode_tickers result))) (λ tickers,
        match pairs with
        | Some _ => mret (inr tickers)
        | None =>
            map ← pair_key_map;
            mret (let? map := identified request_id map in inr (rekey_ticker_map tickers map))
        end))).

Definition market_orderbook (symbol : Symbol) (count : option N)
  : Task (MarketError + OrderBookSnapshot D) :=
  public_read env rest dispatch MarketOrderBook (from_rest_for_symbol symbol)
    [("pair", symbol); ("count", decimal (default 100 count))] decode_orderbook.

Definition market_trades (req : TradesRequest) : Task (MarketError + TradesResult D) :=
  public_read env rest dispatch MarketTrades (from_rest_for_symbol (trq_pair req))
    (trades_params req) (decode_trades (trq_pair req)).

Definition market_server_time : Task (MarketError + RawServerTime) :=
  public_read env rest dispatch MarketServerTime ne_from_rest []
    (λ result, from_value_as "server_time decode: " (from_server_time dec result)).

Definition market_assets (assets : option (list string))
  : Task (MarketError + gmap string (AssetMeta D)) :=
  public_read env rest dispatch MarketAssets ne_from_rest
    (opt_query "asset" (join "," <$> assets)) decode_assets.

Definition market_pairs (pairs : option (list Symbol))
  : Task (MarketError + gmap string (AssetPairMeta D)) :=
  let csv := symbols_csv <$> pairs in
  public_read env rest dispatch MarketAssetPairs (lift_for csv) (opt_query "pair" csv) decode_pairs.

Definition ohlc_query (req : OhlcRequest) : list (string * string) :=
  let query := [("pair", orq_pair req); ("interval", decimal (ohlc_minutes (orq_interval req)))] in
  push_opt query "since" (decimal <$> orq_since req).

Definition market_ohlc (req : OhlcRequest) : Task (MarketError + OhlcResult D) :=
  public_read env rest dispatch MarketOhlc (from_rest_for_symbol (orq_pair req)) (ohlc_query req)
    (decode_ohlc_result (orq_pair req)).

Definition market_spreads (pr : Symbol) (since : option string)
  : Task (MarketError + SpreadsResult D) :=
  public_read env rest dispatch MarketSpreads (from_rest_for_symbol pr)
    (push_opt [("pair", pr)] "since" since) (decode_spreads pr).

Definition market_status : Task (MarketError + SystemStatus) :=
  public_read env rest dispatch MarketSystemStatus ne_from_rest []
    (λ result, from_value_as "system status decode: " (from_system_status dec result)).
End Rest.
