(* ===== verification/Account.v ===== *)
(** * Account: the private account reads over REST

    [rust/src/api/account/{mod,requests,types}.rs].  The decoders serde derives for the rows
    are parameters, and so are decimals with their parser. *)

From Stdlib Require Import Ascii String.
From stdpp Require Import pretty.
From S2P Require Import Prelude F64 Types Events Errors Rest ConfigResolver Dispatch TradeError WireTime OrderTypes ReadErrors RateLimit Task RestSurface Reads Market.
Local Open Scope string_scope.
Local Open Scope N_scope.

(** ** Vocabularies *)

(** [types/channel.rs] *)
Inductive AssetClass := Forex | TokenizedAsset | SyntheticPair | FuturesContract.

#[export] Instance AssetClass_eq_dec : EqDecision AssetClass.
Proof. solve_decision. Defined.

Definition asset_class_str (a : AssetClass) : string :=
  match a with
  | Forex => "forex" | TokenizedAsset => "tokenized_asset"
  | SyntheticPair => "synthetic_pair" | FuturesContract => "futures_contract"
  end.

Definition asset_class_from_wire_str (s : string) : option AssetClass :=
  if decide (s = "forex") then Some Forex
  else if decide (s = "tokenized_asset") then Some TokenizedAsset
  else if decide (s = "synthetic_pair") then Some SyntheticPair
  else if decide (s = "futures_contract") then Some FuturesContract
  else None.

Inductive PositionStatus := PosOpen | PosClosed.

Inductive LedgerType :=
  | LtStaking | LtTransfer | LtTrade | LtDeposit | LtWithdrawal | LtMargin | LtRollover
  | LtAdjustment | LtConversion | LtReward | LtDividend | LtSale | LtUnknown.

Inductive CloseTime := CloseTimeOpen | CloseTimeClose | CloseTimeBoth.

Definition close_time_str (c : CloseTime) : string :=
  match c with CloseTimeOpen => "open" | CloseTimeClose => "close" | CloseTimeBoth => "both" end.

Inductive TradeTypeFilter :=
  | AllTrades | AnyPosition | ClosedPosition | ClosingPosition | NoPosition.

Definition trade_type_str (t : TradeTypeFilter) : string :=
  match t with
  | AllTrades => "all" | AnyPosition => "any position" | ClosedPosition => "closed position"
  | ClosingPosition => "closing position" | NoPosition => "no position"
  end.

Inductive LedgerTypeFilter :=
  | LfAll | LfTrade | LfDeposit | LfWithdrawal | LfTransfer | LfMargin | LfAdjustment
  | LfRollover | LfCredit | LfSettled | LfStaking | LfDividend | LfSale | LfNftRebate.

Definition ledger_type_str (t : LedgerTypeFilter) : string :=
  match t with
  | LfAll => "all" | LfTrade => "trade" | LfDeposit => "deposit" | LfWithdrawal => "withdrawal"
  | LfTransfer => "transfer" | LfMargin => "margin" | LfAdjustment => "adjustment"
  | LfRollover => "rollover" | LfCredit => "credit" | LfSettled => "settled"
  | LfStaking => "staking" | LfDividend => "dividend" | LfSale => "sale"
  | LfNftRebate => "nft_rebate"
  end.

(** ** [requests.rs] *)

Record OpenOrdersRequest := mkOpenOrders {
  oo_trades : bool;
  oo_userref : option Z;
  oo_cl_ord_id : option string;
}.

Definition open_orders_default : OpenOrdersRequest := mkOpenOrders false None None.

Definition oo_with_trades (v : bool) (r : OpenOrdersRequest) : OpenOrdersRequest :=
  mkOpenOrders v (oo_userref r) (oo_cl_ord_id r).
Definition oo_with_userref (v : Z) (r : OpenOrdersRequest) : OpenOrdersRequest :=
  mkOpenOrders (oo_trades r) (Some v) (oo_cl_ord_id r).
Definition oo_with_cl_ord_id (v : string) (r : OpenOrdersRequest) : OpenOrdersRequest :=
  mkOpenOrders (oo_trades r) (oo_userref r) (Some v).

Definition open_orders_params (r : OpenOrdersRequest) : list (string * string) :=
  let form := [("trades", bool_text (oo_trades r))] in
  let form := push_opt form "userref" (pretty <$> oo_userref r) in
  push_opt form "cl_ord_id" (oo_cl_ord_id r).

Record ClosedOrdersRequest := mkClosedOrders {
  co_trades : bool;
  co_userref : option Z;
  co_start : option N;
  co_end : option N;
  co_ofs : option N;
  co_closetime : option CloseTime;
  co_cl_ord_id : option string;
}.

Definition closed_orders_default : ClosedOrdersRequest :=
  mkClosedOrders false None None None None None None.

Definition co_with_trades (v : bool) (r : ClosedOrdersRequest) : ClosedOrdersRequest :=
  mkClosedOrders v (co_userref r) (co_start r) (co_end r) (co_ofs r) (co_closetime r) (co_cl_ord_id r).
Definition co_with_userref (v : Z) (r : ClosedOrdersRequest) : ClosedOrdersRequest :=
  mkClosedOrders (co_trades r) (Some v) (co_start r) (co_end r) (co_ofs r) (co_closetime r) (co_cl_ord_id r).
Definition co_with_start (v : N) (r : ClosedOrdersRequest) : ClosedOrdersRequest :=
  mkClosedOrders (co_trades r) (co_userref r) (Some v) (co_end r) (co_ofs r) (co_closetime r) (co_cl_ord_id r).
Definition co_with_end (v : N) (r : ClosedOrdersRequest) : ClosedOrdersRequest :=
  mkClosedOrders (co_trades r) (co_userref r) (co_start r) (Some v) (co_ofs r) (co_closetime r) (co_cl_ord_id r).
Definition co_with_ofs (v : N) (r : ClosedOrdersRequest) : ClosedOrdersRequest :=
  mkClosedOrders (co_trades r) (co_userref r) (co_start r) (co_end r) (Some v) (co_closetime r) (co_cl_ord_id r).
Definition co_with_closetime (v : CloseTime) (r : ClosedOrdersRequest) : ClosedOrdersRequest :=
  mkClosedOrders (co_trades r) (co_userref r) (co_start r) (co_end r) (co_ofs r) (Some v) (co_cl_ord_id r).
Definition co_with_cl_ord_id (v : string) (r : ClosedOrdersRequest) : ClosedOrdersRequest :=
  mkClosedOrders (co_trades r) (co_userref r) (co_start r) (co_end r) (co_ofs r) (co_closetime r) (Some v).

Definition closed_orders_params (r : ClosedOrdersRequest) : list (string * string) :=
  let form := [("trades", bool_text (co_trades r))] in
  let form := push_opt form "userref" (pretty <$> co_userref r) in
  let form := push_opt form "start" (decimal <$> co_start r) in
  let form := push_opt form "end" (decimal <$> co_end r) in
  let form := push_opt form "ofs" (decimal <$> co_ofs r) in
  let form := push_opt form "closetime" (close_time_str <$> co_closetime r) in
  push_opt form "cl_ord_id" (co_cl_ord_id r).

Record LedgersRequest := mkLedgersReq {
  lq_asset : option (list string);
  lq_aclass : option AssetClass;
  lq_ledger_type : option LedgerTypeFilter;
  lq_start : option N;
  lq_end : option N;
  lq_ofs : option N;
}.

Definition ledgers_default : LedgersRequest := mkLedgersReq None None None None None None.

Definition lq_with_asset (v : list string) (r : LedgersRequest) : LedgersRequest :=
  mkLedgersReq (Some v) (lq_aclass r) (lq_ledger_type r) (lq_start r) (lq_end r) (lq_ofs r).
Definition lq_with_aclass (v : AssetClass) (r : LedgersRequest) : LedgersRequest :=
  mkLedgersReq (lq_asset r) (Some v) (lq_ledger_type r) (lq_start r) (lq_end r) (lq_ofs r).
Definition lq_with_ledger_type (v : LedgerTypeFilter) (r : LedgersRequest) : LedgersRequest :=
  mkLedgersReq (lq_asset r) (lq_aclass r) (Some v) (lq_start r) (lq_end r) (lq_ofs r).
Definition lq_with_start (v : N) (r : LedgersRequest) : LedgersRequest :=
  mkLedgersReq (lq_asset r) (lq_aclass r) (lq_ledger_type r) (Some v) (lq_end r) (lq_ofs r).
Definition lq_with_end (v : N) (r : LedgersRequest) : LedgersRequest :=
  mkLedgersReq (lq_asset r) (lq_aclass r) (lq_ledger_type r) (lq_start r) (Some v) (lq_ofs r).
Definition lq_with_ofs (v : N) (r : LedgersRequest) : LedgersRequest :=
  mkLedgersReq (lq_asset r) (lq_aclass r) (lq_ledger_type r) (lq_start r) (lq_end r) (Some v).

(** Kraken calls the class [currency] on this endpoint. *)
Definition ledgers_aclass (a : AssetClass) : string :=
  match a with Forex => "currency" | other => asset_class_str other end.

Definition ledgers_params (r : LedgersRequest) : list (string * string) :=
  let form := push_opt [] "asset" (join "," <$> lq_asset r) in
  let form := push_opt form "aclass" (ledgers_aclass <$> lq_aclass r) in
  let form := push_opt form "type" (ledger_type_str <$> lq_ledger_type r) in
  let form := push_opt form "start" (decimal <$> lq_start r) in
  let form := push_opt form "end" (decimal <$> lq_end r) in
  push_opt form "ofs" (decimal <$> lq_ofs r).

Record TradesHistoryRequest := mkTradesHistory {
  th_trade_type : option TradeTypeFilter;
  th_trades : option bool;
  th_start : option N;
  th_end : option N;
  th_ofs : option N;
  th_ledgers : bool;
}.

Definition trades_history_default : TradesHistoryRequest :=
  mkTradesHistory None None None None None false.

Definition th_with_trade_type (v : TradeTypeFilter) (r : TradesHistoryRequest) : TradesHistoryRequest :=
  mkTradesHistory (Some v) (th_trades r) (th_start r) (th_end r) (th_ofs r) (th_ledgers r).
Definition th_with_trades (v : bool) (r : TradesHistoryRequest) : TradesHistoryRequest :=
  mkTradesHistory (th_trade_type r) (Some v) (th_start r) (th_end r) (th_ofs r) (th_ledgers r).
Definition th_with_start (v : N) (r : TradesHistoryRequest) : TradesHistoryRequest :=
  mkTradesHistory (th_trade_type r) (th_trades r) (Some v) (th_end r) (th_ofs r) (th_ledgers r).
Definition th_with_end (v : N) (r : TradesHistoryRequest) : TradesHistoryRequest :=
  mkTradesHistory (th_trade_type r) (th_trades r) (th_start r) (Some v) (th_ofs r) (th_ledgers r).
Definition th_with_ofs (v : N) (r : TradesHistoryRequest) : TradesHistoryRequest :=
  mkTradesHistory (th_trade_type r) (th_trades r) (th_start r) (th_end r) (Some v) (th_ledgers r).
Definition th_with_ledgers (v : bool) (r : TradesHistoryRequest) : TradesHistoryRequest :=
  mkTradesHistory (th_trade_type r) (th_trades r) (th_start r) (th_end r) (th_ofs r) v.

Definition trades_history_params (r : TradesHistoryRequest) : list (string * string) :=
  let form := push_opt [] "type" (trade_type_str <$> th_trade_type r) in
  let form := push_opt form "trades" (bool_text <$> th_trades r) in
  let form := push_opt form "start" (decimal <$> th_start r) in
  let form := push_opt form "end" (decimal <$> th_end r) in
  let form := push_opt form "ofs" (decimal <$> th_ofs r) in
  push_opt form "ledgers" (bool_text <$> (if th_ledgers r then Some true else None)).

(** ** [types.rs] *)

Definition KrakenTimestamp := string.

(** A number keeps the text it has on the wire. *)
Definition timestamp_from_value (v : Json) : string + KrakenTimestamp :=
  match v with
  | JNumber n => inr n
  | JString s => inr s
  | _ => inl "KrakenTimestamp: expected a JSON number or string"
  end.

Definition timestamp_to_f64 (t : KrakenTimestamp) : option f64 :=
  f ← parse_f64 t; if f64_is_finite f then Some f else None.

(** [de_trigger], on a field that is there. *)
Definition trigger_from_value (v : Json) : option TriggerKind :=
  json_as_str v ≫= trigger_from_wire_str.

Definition default_time_in_force : TimeInForce := Gtc.

(** [de_asset_from_wire] *)
Definition asset_from_value (v : Json) (not_string : string) : string + string :=
  match v with JString s => inr (asset_code_from_wire s) | _ => inl not_string end.

Record ExtendedBalanceEntry (D : Type) := mkExtended {
  xb_balance : D; xb_hold_trade : D; xb_credit : option D; xb_credit_used : option D;
}.
Arguments mkExtended {D}.
Arguments xb_balance {D} _.
Arguments xb_hold_trade {D} _.
Arguments xb_credit {D} _.
Arguments xb_credit_used {D} _.

(** [MaskedBalance]'s [Display]. *)
Definition masked_display {D} (e : ExtendedBalanceEntry D) : string :=
  "balance=<redacted> hold_trade=<redacted>" ++
  (match xb_credit e with Some _ => " credit=<redacted>" | None => "" end) ++
  (match xb_credit_used e with Some _ => " credit_used=<redacted>" | None => "" end).

Record TradeBalance (D : Type) := mkTradeBalance {
  tb_equivalent_balance : D; tb_trade_balance : D; tb_margin_amount : D;
  tb_unrealized_pnl : D; tb_cost_basis : D; tb_floating_valuation : D; tb_equity : D;
  tb_free_margin : D; tb_margin_level_pct : option D; tb_unrealized_value : option D;
  tb_free_margin_original : option D;
}.

Record OrderDescr (D : Type) := mkDescr {
  od_pair : string; od_aclass : string; od_side : Side; od_ordertype : OrderType;
  od_price : D; od_price2 : D; od_leverage : string; od_order : string; od_close : string;
}.

Record OrderInfo (D : Type) := mkOrderInfo {
  oi_refid : option string; oi_userref : option Z; oi_cl_ord_id : option string;
  oi_status : OrderStatus; oi_opentm : KrakenTimestamp; oi_closetm : option KrakenTimestamp;
  oi_starttm : option KrakenTimestamp; oi_expiretm : option KrakenTimestamp;
  oi_descr : OrderDescr D; oi_volume : D; oi_volume_executed : D; oi_cost : D; oi_fee : D;
  oi_price : D; oi_stopprice : option D; oi_limitprice : option D; oi_misc : string;
  oi_oflags : string; oi_trades : option (list string); oi_time_in_force : TimeInForce;
  oi_reason : option string; oi_trigger : option TriggerKind;
}.

Record LedgerEntry (D : Type) := mkLedgerEntry {
  le_refid : string; le_time : KrakenTimestamp; le_ledger_type : LedgerType;
  le_subtype : option string; le_aclass : string; le_asset : string; le_amount : D;
  le_fee : D; le_balance : D;
}.

Record TradeHistoryEntry (D : Type) := mkHistoryEntry {
  he_ordertxid : string; he_postxid : string; he_posstatus : option PositionStatus;
  he_pair : string; he_aclass : string; he_time : KrakenTimestamp; he_side : Side;
  he_ordertype : OrderType; he_tradeordertype : OrderType; he_price : D; he_cost : D;
  he_fee : D; he_vol : D; he_margin : D; he_leverage : D; he_misc : string; he_trade_id : N;
  he_maker : bool; he_ledgers : option (list string);
}.

Record OpenPositionEntry (D : Type) := mkPosition {
  op_ordertxid : string; op_posstatus : PositionStatus; op_pair : string;
  op_asset_class : string; op_time : KrakenTimestamp; op_side : Side; op_ordertype : OrderType;
  op_cost : D; op_fee : D; op_vol : D; op_vol_closed : D; op_margin : D; op_terms : string;
  op_rollovertm : string; op_misc : string; op_oflags : string; op_value : option D;
  op_net : option D;
}.

Record TradeVolume (D : Type) := mkTradeVolume { tv_currency : string; tv_volume : D }.
Arguments mkTradeVolume {D}.

Record RawTradeVolume := mkRawVolume { rv_currency : string; rv_volume : string }.

(** The decoders serde derives. *)
Record AccountDecoders (D : Type) := mkAccountDecoders {
  from_extended_entry : Json → string + ExtendedBalanceEntry D;
  from_trade_balance : Json → string + TradeBalance D;
  from_order_info : Json → string + OrderInfo D;
  from_ledger_entry : Json → string + LedgerEntry D;
  from_history_entry : Json → string + TradeHistoryEntry D;
  from_position : Json → string + OpenPositionEntry D;
  from_raw_volume : Json → string + RawTradeVolume;
}.
Arguments mkAccountDecoders {D}.
Arguments from_extended_entry {D} _.
Arguments from_trade_balance {D} _.
Arguments from_order_info {D} _.
Arguments from_ledger_entry {D} _.
Arguments from_history_entry {D} _.
Arguments from_position {D} _.
Arguments from_raw_volume {D} _.

(** ** [mod.rs] *)

Definition decode_bare_map {T} (from_value : Json → string + T) (result : Json) (ctx : string)
  : AccountError + gmap string T :=
  decode_object_map from_value ctx ne_malformed (λ id v, inr (id, v)) result.

Definition decode_named_map {T} (from_value : Json → string + T) (result : Json)
  (field ctx : string) : AccountError + gmap string T :=
  match json_get field result with
  | Some (JObject field_obj) => decode_bare_map from_value (JObject field_obj) ctx
  | _ => inl (ne_malformed (ctx ++ ": missing `" ++ field ++ "` object"))
  end.

(** The map's error comes before the count's. *)
Definition decode_named_map_with_count {T} (from_value : Json → string + T) (result : Json)
  (field ctx : string) : AccountError + (gmap string T * N) :=
  let count_opt := json_get "count" result ≫= json_as_u64 in
  let? map := decode_named_map from_value result field ctx in
  let? count := ok_or count_opt (ne_malformed (ctx ++ ": missing `count`")) in
  inr (map, count).

Section Account.
Context {D : Type} (rd : Readers D) (dec : AccountDecoders D).

(** *** Decoding a result *)

(** A later wire code of an asset replaces an earlier one. *)
Fixpoint balance_entries (obj : list (string * Json)) (assets : gmap string D)
  : AccountError + gmap string D :=
  match obj with
  | [] => inr assets
  | (asset, raw) :: obj =>
      match json_as_str raw with
      | None => inl (ne_malformed ("balance value for " ++ asset ++ " not string"))
      | Some s =>
          match dec_parse rd s with
          | inl e => inl (ne_malformed ("balance decode " ++ asset ++ ": " ++ e))
          | inr amount => balance_entries obj (<[asset_code_from_wire asset := amount]> assets)
          end
      end
  end.

Definition balance_from_value (result : Json) : AccountError + gmap string D :=
  match result with
  | JObject obj => balance_entries obj ∅
  | _ => inl (ne_malformed "result not an object")
  end.

Definition extended_from_value (result : Json)
  : AccountError + gmap string (ExtendedBalanceEntry D) :=
  decode_object_map (from_extended_entry dec) "extended_balance" ne_malformed
    (λ asset entry, inr (asset_code_from_wire asset, entry)) result.

Definition volume_from_value (result : Json) : AccountError + TradeVolume D :=
  let? raw := from_value_as "volume decode: " (from_raw_volume dec result) in
  match dec_parse rd (rv_volume raw) with
  | inl e => inl (ne_malformed ("volume.volume: " ++ e))
  | inr v => inr (mkTradeVolume (asset_code_from_wire (rv_currency raw)) v)
  end.

(** *** The calls *)

Context (env : TaskEnv) (rest : RestSurface) (dispatch : DispatchTable).

Definition balance : Task (AccountError + gmap string D) :=
  signed_read env rest dispatch AccountBalance [] f64_one balance_from_value.

Definition extended_balance : Task (AccountError + gmap string (ExtendedBalanceEntry D)) :=
  signed_read env rest dispatch AccountBalanceEx [] f64_one extended_from_value.

Definition trade_balance (asset : option string) : Task (AccountError + TradeBalance D) :=
  signed_read env rest dispatch AccountTradeBalance (push_opt [] "asset" asset) f64_one
    (λ result, from_value_as "trade_balance decode: " (from_trade_balance dec result)).

Definition open_orders (req : OpenOrdersRequest) : Task (AccountError + gmap string (OrderInfo D)) :=
  signed_read env rest dispatch AccountOpenOrders (open_orders_params req) f64_two
    (λ result, decode_named_map (from_order_info dec) result "open" "open_orders").

Definition closed_orders (req : ClosedOrdersRequest)
  : Task (AccountError + (gmap string (OrderInfo D) * N)) :=
  signed_read env rest dispatch AccountClosedOrders (closed_orders_params req) f64_two
    (λ result, decode_named_map_with_count (from_order_info dec) result "closed" "closed_orders").

Definition ledgers (req : LedgersRequest)
  : Task (AccountError + (gmap string (LedgerEntry D) * N)) :=
  signed_read env rest dispatch AccountLedgers (ledgers_params req) f64_two
    (λ result, decode_named_map_with_count (from_ledger_entry dec) result "ledger" "ledgers").

Definition trades_history (req : TradesHistoryRequest)
  : Task (AccountError + (gmap string (TradeHistoryEntry D) * N)) :=
  signed_read env rest dispatch AccountTradesHistory (trades_history_params req) f64_two
    (λ result, decode_named_map_with_count (from_history_entry dec) result "trades" "trades_history").

(** Over the walk of [RestSurface]; the id is the failing leg's. *)
Definition account_find_order (cl_ord_id : string)
  : Task (AccountError + ReconciliationOutcome) :=
  r ← find_order_by_cl_ord_id env rest cl_ord_id;
  mret (match r with
        | inl (request_id, e) => inl (ne_with_request_id request_id (ne_from_rest e))
        | inr outcome => inr outcome
        end).

Definition query_ledgers (ids : list string)
  : Task (AccountError + gmap string (LedgerEntry D)) :=
  signed_read env rest dispatch AccountQueryLedgers [("id", join "," ids)] f64_two
    (λ result, decode_bare_map (from_ledger_entry dec) result "query_ledgers").

Definition positions_form (txids : option (list string)) (docalcs : bool)
  : list (string * string) :=
  push_opt [("docalcs", bool_text docalcs)] "txid" (join "," <$> txids).

Definition positions (txids : option (list string)) (docalcs : bool)
  : Task (AccountError + gmap string (OpenPositionEntry D)) :=
  signed_read env rest dispatch AccountOpenPositions (positions_form txids docalcs) f64_one
    (λ result, decode_bare_map (from_position dec) result "positions").

Definition volume_form (pr : option Symbol) (fee_info : bool) : list (string * string) :=
  push_opt [("fee-info", bool_text fee_info)] "pair" pr.

Definition volume (pr : option Symbol) (fee_info : bool) : Task (AccountError + TradeVolume D) :=
  signed_read env rest dispatch AccountTradeVolume (volume_form pr fee_info) f64_one
    volume_from_value.
End Account.
