(* ===== verification/ReadProps.v ===== *)
(** * ReadProps: what the reads of the market and account namespaces do

    The log and the outcome of a public and of a signed read, whatever the environment
    answers, proved once over the class of namespace errors. *)

From Stdlib Require Import Ascii String.
From S2P Require Import Prelude F64 Types Events RateCounter RateLimit Errors Auth Rest Dispatch TradeError ReadErrors Connection Teardowns Task TaskLogic RestSurface Sample RestSurfaceProps Reads.
Local Open Scope string_scope.
Local Open Scope list_scope.

(** ** Rows by a key *)

Lemma row_unique {V} (rows : list (string * V)) k v v' :
  NoDup rows.*1 → (k, v) ∈ rows → (k, v') ∈ rows → v = v'.
Proof.
  intros Hd Hv Hv'. apply (elem_of_list_to_map_1 (M := gmap string)) in Hv, Hv'; congruence.
Qed.

(** ** What the others leave to a program that shares nothing *)

(** The shared state at the end is what the others made of the one at the start. *)
Definition undisturbed {A} (env : TaskEnv) (m : Task A) : Prop :=
  ∀ w, ∃ ks, tw_shared (m w).2 = fold_left (λ s k, te_others env k s) ks (tw_shared w).

Section Undisturbed.
Context (env : TaskEnv).

Lemma undisturbed_same {A} (m : Task A) :
  (∀ w, tw_shared (m w).2 = tw_shared w) → undisturbed env m.
Proof. intros H w. by exists []. Qed.

Lemma undisturbed_bind {A B} (m : Task B) (k : B → Task A) :
  undisturbed env m → (∀ b, undisturbed env (k b)) → undisturbed env (mbind k m).
Proof.
  intros H Hk w. destruct (H w) as [ks Hs]. unfold mbind, Task_bind.
  destruct (m w) as [[b| |] w']; cbn in *; [|by exists ks..].
  destruct (Hk b w') as [ks' Hs']. exists (ks ++ ks'). by rewrite fold_left_app, <-Hs.
Qed.

Lemma undisturbed_await {A} (f : nat → A) : undisturbed env (await env f).
Proof.
  intros w. unfold await. destruct (te_dropped env (tw_tick w)); [by exists []|].
  by exists [tw_tick w].
Qed.

Lemma undisturbed_try {E A B} (m : Task (E + A)) (k : A → Task (E + B)) :
  undisturbed env m → (∀ a, undisturbed env (k a)) → undisturbed env (try_ m k).
Proof.
  intros H Hk. apply undisturbed_bind; [done|]. intros [e|a]; [by apply undisturbed_same|done].
Qed.

Lemma undisturbed_when b m : undisturbed env m → undisturbed env (task_when b m).
Proof. destruct b; [done|]. intros _. by apply undisturbed_same. Qed.
End Undisturbed.

Ltac undisturbed_step :=
  lazymatch goal with
  | |- ∀ _, _ => intros ?
  | |- undisturbed _ (await _ _) => apply undisturbed_await
  | |- undisturbed _ (mret _) => by apply undisturbed_same
  | |- undisturbed _ (read _) => by apply undisturbed_same
  | |- undisturbed _ (clock _) => by apply undisturbed_same
  | |- undisturbed _ (shared _) => by apply undisturbed_same
  | |- undisturbed _ (act _) => by apply undisturbed_same
  | |- undisturbed _ panic => by apply undisturbed_same
  | |- undisturbed _ (try_ _ _) => apply undisturbed_try; [|intros ?]
  | |- undisturbed _ (mbind _ _) => apply undisturbed_bind; [|intros ?]
  | |- undisturbed _ (task_when _ _) => apply undisturbed_when
  | |- undisturbed _ (match ?x with _ => _ end) => destruct x
  end.

Ltac undisturbed_tac := repeat first [undisturbed_step | solve [eauto with task]].

Section Loop.
Context (env : TaskEnv) (rest : RestSurface).

Lemma publish_event_undisturbed t p : undisturbed env (publish_event env rest t p).
Proof. unfold publish_event. undisturbed_tac. Qed.

Lemma emit_poisoned_undisturbed endpoint : undisturbed env (emit_poisoned env rest endpoint).
Proof.
  unfold emit_poisoned. destruct (rest_api_key rest); [apply publish_event_undisturbed|].
  by apply undisturbed_same.
Qed.

Hint Resolve publish_event_undisturbed emit_poisoned_undisturbed : task.

Lemma request_loop_undisturbed endpoint cost retry request_id run_once fuel a nr :
  undisturbed env run_once →
  undisturbed env (request_loop env rest endpoint cost retry request_id run_once fuel a nr).
Proof.
  intros Hr. revert a nr. induction fuel as [|fuel IH]; intros a nr; cbn [request_loop].
  { by apply undisturbed_same. }
  unfold backoff_now, emit_retry_attempt. undisturbed_tac.
Qed.

Lemma public_get_undisturbed path query retry request_id :
  undisturbed env (public_get env rest path query retry request_id).
Proof. apply request_loop_undisturbed. unfold public_get_once. undisturbed_tac. Qed.
End Loop.

(** ** A public request *)

Definition is_get (a : Act) : bool := match a with HttpGot _ _ => true | _ => false end.

Section Gets.
Context (path : string) (query : list (string * string)).

(** The id of the read, a request for [path] with [query], its answer, or background. *)
Definition got_after (prev : option Act) (a : Act) : Prop :=
  match a with
  | IdMinted _ => True
  | HttpGot p q => p = path ∧ q = query
  | GetAnswered _ => prev = Some (HttpGot path query)
  | _ => background a = true
  end.

Definition asked : option Act → list Act → Prop := linked got_after.

Lemma got_free prev a : got_after None a → got_after prev a.
Proof. by destruct a. Qed.

Lemma asked_app seg seg' : asked None seg → asked None seg' → asked None (seg ++ seg').
Proof. apply linked_app, got_free. Qed.

Lemma background_asked seg : forallb background seg = true → asked None seg.
Proof. apply linked_background. by intros ? []. Qed.

Lemma background_no_get seg : forallb background seg = true → tally is_get seg = 0%nat.
Proof. apply tally_none. by intros []. Qed.

(** One attempt asks once and returns what the answer comes to. *)
Definition get_attempt (env : TaskEnv) : LogPost (RestError + Json) := λ o seg,
  match o with
  | Done r => ∃ answer, seg = [HttpGot path query; GetAnswered answer] ∧ r = get_result env answer
  | Dropped => seg = [HttpGot path query]
  | Panicked => False
  end.

Lemma public_get_once_log env : emits (public_get_once env path query) (get_attempt env).
Proof.
  unfold public_get_once. apply emits_bind, emits_act. cbn.
  apply emits_bind, emits_await; cbn; [done|]. intros n.
  apply emits_bind, emits_act, emits_ret. cbn. by eexists.
Qed.

Lemma get_attempt_heard env o seg :
  get_attempt env o seg →
  minted seg = [] ∧ ∀ r, o = Done r → False ∨ last (heard env seg) = Some r.
Proof.
  destruct o as [r| |]; cbn; [intros (a & -> & ->)|intros ->|done]; (split; [done|]); intros ? [=].
  right. by subst.
Qed.

Lemma get_attempts_log env retry n o seg :
  attempts_log retry (get_attempt env) n o seg →
  asked None seg ∧ (tally is_get seg ≤ n)%nat ∧ o ≠ Panicked.
Proof.
  assert (∀ o seg, get_attempt env o seg → asked None seg ∧ tally is_get seg = 1%nat ∧ o ≠ Panicked)
    as Hone by (intros [r| |] ?; cbn; [intros (a & -> & _)|intros ->|done]; by split_and!).
  induction 1 as [n o seg tail Ha Ht _|n err reason seg tail Ha _ Ht|n err reason seg tail o rest_ Ha _ Ht _ (IHs & IHn & IHo)];
    apply Hone in Ha as (Hs & Hn & Hp);
    rewrite !tally_app, Hn, (background_no_get _ Ht);
    (split_and!; [auto using asked_app, background_asked|lia|done]).
Qed.
End Gets.

Section Budget.
Context (env : TaskEnv) (rest : RestSurface).
Context (budget_fits : (max_attempts rest idempotent < u32_max)%N).

(** At most this many requests: the budget, and one for a rejected nonce. *)
Definition request_bound : nat := S (N.to_nat (max_attempts rest idempotent)).

Lemma public_get_log path query request_id :
  emits (public_get env rest path query idempotent request_id) (λ o seg,
    asked path query None seg ∧ (tally is_get seg ≤ request_bound)%nat ∧ minted seg = [] ∧
    o ≠ Panicked ∧ ∀ r, o = Done r → last (heard env seg) = Some r).
Proof using budget_fits.
  pose proof (max_attempts_pos rest idempotent).
  eapply emits_mono; [apply request_loop_log; [lia|lia|done|apply public_get_once_log|lia]|].
  intros o seg Hs.
  destruct (attempts_heard env (λ _, False) _ _ _ _ _ (get_attempt_heard path query env) Hs) as [Hm Hh].
  eapply attempts_log_mono, get_attempts_log in Hs as (Ha & Hn & Hp);
    [split_and!; [done|exact Hn|done..|naive_solver]|unfold request_bound; lia].
Qed.
End Budget.

(** ** The outcome of a read *)

Section Outcomes.
Context {E : Type} `{ne : NamespaceError E} {laws : NamespaceErrorLaws E}.

(** A lift of the REST errors that keeps what is worth retrying. *)
Definition lifting (lift : RestError → E) : Prop :=
  ∀ e, fresh_error (lift e) ∧ ne_retryable (lift e) = worth_retrying e.

(** A decoder whose failures all say that the response is malformed. *)
Definition malformed_only {A} (r : E + A) : Prop := ∀ e, r = inl e → ∃ d, e = ne_malformed d.
Definition malforming {A} (decode : Json → E + A) : Prop := ∀ v, malformed_only (decode v).

Lemma malformed_inr {A} (a : A) : malformed_only (inr a).
Proof. done. Qed.
Lemma malformed_inl {A} d : malformed_only (A := A) (inl (ne_malformed d)).
Proof. intros e [= <-]. by exists d. Qed.
Lemma malformed_ok_or {A} (o : option A) d : malformed_only (ok_or o (ne_malformed d)).
Proof. destruct o; [apply malformed_inr|apply malformed_inl]. Qed.
Lemma malformed_from_value {A} label (r : string + A) : malformed_only (from_value_as label r).
Proof. destruct r; [apply malformed_inl|apply malformed_inr]. Qed.
Lemma malformed_andthen {A B} (r : E + A) (k : A → E + B) :
  malformed_only r → (∀ a, malformed_only (k a)) → malformed_only (andthen r k).
Proof. intros Hr Hk. destruct r as [e|a]; cbn; [|done]. intros e' [= <-]. by apply Hr. Qed.
Lemma malformed_collect {A B} (f : A → E + B) l :
  (∀ a, malformed_only (f a)) → malformed_only (collect f l).
Proof.
  intros Hf. induction l as [|a l IH]; cbn; [apply malformed_inr|].
  repeat (apply malformed_andthen; [done|intros ?]). apply malformed_inr.
Qed.
Lemma malformed_entries {Raw V K} `{Countable K} (from_value : Json → string + Raw) ctx
  (from_entry : string → Raw → E + (K * V)) fields map :
  (∀ key raw, malformed_only (from_entry key raw)) →
  malformed_only (decode_entries from_value ctx ne_malformed from_entry fields map).
Proof.
  intros Hf. revert map. induction fields as [|[key raw] fields IH]; intros map; cbn.
  { apply malformed_inr. }
  destruct (from_value raw); [apply malformed_inl|]. apply malformed_andthen; auto.
Qed.
Lemma malformed_object_map {Raw V K} `{Countable K} (from_value : Json → string + Raw) ctx
  (from_entry : string → Raw → E + (K * V)) :
  (∀ key raw, malformed_only (from_entry key raw)) →
  malforming (decode_object_map from_value ctx ne_malformed from_entry).
Proof. intros Hf []; try apply malformed_inl. by apply malformed_entries. Qed.

(** The last answer heard; or, where a request can be refused before it is sent, the refusal. *)
Definition rests_on (env : TaskEnv) (refusable : bool) (seg : list Act) (err : RestError) : Prop :=
  (refusable = true ∧ not_sent err = true) ∨ last (heard env seg) = Some (inl err).

(** The result decodes the last answer heard; a failure carries the id the read minted, and is
    retryable exactly when the REST error it lifts is, and never when the answer did not
    decode. *)
Definition read_outcome {A} (env : TaskEnv) (refusable : bool) (lift : RestError → E)
  (decode : Json → E + A) : LogPost (E + A) := λ o seg,
  match o with
  | Done (inr a) => ∃ v, last (heard env seg) = Some (inr v) ∧ decode v = inr a
  | Done (inl e) => ∃ id, minted seg = [id] ∧ ne_request_id e = Some id ∧
      ((∃ err, rests_on env refusable seg err ∧ e = ne_with_request_id id (lift err) ∧
               ne_retryable e = worth_retrying err) ∨
       (∃ v d, last (heard env seg) = Some (inr v) ∧ decode v = inl (ne_malformed d) ∧
               e = ne_with_request_id id (ne_malformed d) ∧ ne_retryable e = false))
  | _ => True
  end.

(** The same before the decoding. *)
Definition fetch_outcome (env : TaskEnv) (refusable : bool) (lift : RestError → E)
  : LogPost (E + (string * Json)) := λ o seg,
  match o with
  | Done (inr (id, v)) => minted seg = [id] ∧ last (heard env seg) = Some (inr v)
  | Done (inl e) => ∃ id err, minted seg = [id] ∧ rests_on env refusable seg err ∧
      e = ne_with_request_id id (lift err)
  | _ => True
  end.

Lemma lifted_outcome {A} env refusable lift (decode : Json → E + A) id err seg :
  lifting lift → minted seg = [id] → rests_on env refusable seg err →
  read_outcome env refusable lift decode (Done (inl (ne_with_request_id id (lift err)))) seg.
Proof using laws.
  intros Hl Hid Hr. destruct (Hl err) as [Hf Ht]. exists id. split; [done|]. split; [by apply stamped_id|].
  left. exists err. split_and!; [done..|].
  destruct (ne_stamp_class id (lift err)) as (_ & _ & _ & Hs). by rewrite Hs.
Qed.

Lemma decoded_outcome {A} env refusable lift (decode : Json → E + A) id v seg :
  malforming decode → minted seg = [id] → last (heard env seg) = Some (inr v) →
  read_outcome env refusable lift decode (Done (identified id (decode v))) seg.
Proof using laws.
  intros Hm Hid Hv. destruct (decode v) as [e|a] eqn:Hd; cbn; [|by exists v].
  destruct (Hm v e Hd) as [d ->]. destruct (malformed_fresh (E := E) d) as [Hf Ht].
  exists id. split; [done|]. split; [by apply stamped_id|]. right. exists v, d. split_and!; [done..|].
  destruct (ne_stamp_class id (ne_malformed (E := E) d)) as (_ & _ & _ & Hs). by rewrite Hs.
Qed.

(** Decoding adds nothing to the log and does not panic. *)
Definition panicked {A} (o : Outcome A) : bool := match o with Panicked => true | _ => false end.

Lemma decoding_log {A} env refusable lift (decode : Json → E + A) fetch
  (S : bool → list Act → Prop) :
  lifting lift → malforming decode →
  emits fetch (λ o seg, S (panicked o) seg ∧ fetch_outcome env refusable lift o seg) →
  emits (decoding fetch decode) (λ o seg,
    S (panicked o) seg ∧ read_outcome env refusable lift decode o seg).
Proof using laws.
  intros Hl Hm Hf. unfold decoding. apply emits_try. eapply emits_mono; [exact Hf|].
  intros [[e|[id v]]| |] seg [Hs Ho]; cbn -[read_outcome]; [| |by split..].
  - rewrite app_nil_r. split; [done|]. destruct Ho as (id & err & Hid & Hr & ->).
    by apply lifted_outcome.
  - apply emits_ret. rewrite app_nil_r. destruct Ho as [Hid Hv].
    assert (panicked (Done (identified id (decode v))) = false) as -> by done.
    split; [done|]. by apply decoded_outcome.
Qed.

Context (env : TaskEnv) (rest : RestSurface) (dispatch : DispatchTable).
Context (budget_fits : (max_attempts rest idempotent < u32_max)%N).

(** *** Public *)

(** One id, and then requests for this path and query only, within the bound, each answer the
    one to the request before it. *)
Definition gets (path : string) (query : list (string * string)) (seg : list Act) : Prop :=
  asked path query None seg ∧ (tally is_get seg ≤ request_bound rest)%nat ∧ length (minted seg) = 1%nat.

Lemma public_fetch_log lift path query :
  emits (public_fetch env rest lift path query)
    (λ o seg, (gets path query seg ∧ panicked o = false) ∧ fetch_outcome env false lift o seg).
Proof using budget_fits.
  unfold public_fetch, mint_request_id. apply emits_bind, emits_bind, emits_read. intros n.
  apply emits_bind, emits_act, emits_ret. cbn -[public_get].
  apply emits_bind. eapply emits_mono; [by apply public_get_log|].
  intros o seg (Ha & Hn & Hm & Hp & Hr). set (id := te_uuid env n).
  assert (minted (IdMinted id :: seg) = [id]) as Hid.
  { change (id :: minted seg = [id]). by rewrite Hm. }
  assert (gets path query (IdMinted id :: seg)) as Hg.
  { split_and!; [|exact Hn|by rewrite Hid]. split; [done|]. apply linked_any; [apply got_free|done]. }
  destruct o as [[err|v]| |]; cbn -[gets fetch_outcome]; [apply emits_ret; rewrite app_nil_r..| |done].
  - split; [done|]. exists id, err. split_and!; [done| |done]. right. exact (Hr _ eq_refl).
  - split; [done|]. split; [done|]. exact (Hr _ eq_refl).
  - by split.
Qed.

(** A read of [op] over REST: an operation the table misses is refused at once with nothing
    done, and the requests of the others satisfy [S] and their outcome [R]. *)
Definition routed {A} (op : Op) (R : AdapterEntry → LogPost (E + A)) : LogPost (E + A) :=
  λ o seg,
    match resolve op Spot Rest dispatch with
    | inl e => seg = [] ∧ o = Done (inl (ne_from_dispatch e))
    | inr entry => R entry o seg
    end.

Definition public_contract {A} (op : Op) (query : list (string * string))
  (lift : RestError → E) (decode : Json → E + A) (m : Task (E + A)) : Prop :=
  undisturbed env m ∧
  emits m (routed op (λ entry o seg,
    (gets (wire_target entry) query seg ∧ panicked o = false) ∧
    read_outcome env false lift decode o seg)).

Lemma public_fetch_undisturbed lift path query :
  undisturbed env (public_fetch env rest lift path query).
Proof.
  unfold public_fetch, mint_request_id. undisturbed_tac. apply public_get_undisturbed.
Qed.

Lemma public_read_undisturbed {A} op lift query (decode : Json → E + A) :
  undisturbed env (public_read env rest dispatch op lift query decode).
Proof.
  unfold public_read, decoding. undisturbed_tac. apply public_fetch_undisturbed.
Qed.

Lemma public_read_contract {A} op lift query (decode : Json → E + A) :
  lifting lift → malforming decode →
  public_contract op query lift decode (public_read env rest dispatch op lift query decode).
Proof using budget_fits laws.
  intros Hl Hm. split; [apply public_read_undisturbed|]. unfold public_read, routed.
  apply emits_try_ret. unfold endpoint, resolve_rest.
  destruct (resolve op Spot Rest dispatch) as [e|entry]; cbn; [done|].
  by apply (decoding_log _ _ _ _ _ (λ p seg, gets (wire_target entry) query seg ∧ p = false));
    [..|apply public_fetch_log].
Qed.

(** *** Signed *)

(** One id, and then only posts of this form to this path, each signed with the nonce just
    taken, within the bound, each answer the one to the post before it, and no order event. *)
Definition posts (path : string) (form : list (string * string)) (profile : AuthProfile)
  (seg : list Act) : Prop :=
  signed_posts rest path form profile None seg ∧ forallb no_order_event seg = true ∧
  (tally is_send seg ≤ request_bound rest)%nat ∧ length (minted seg) = 1%nat.

Definition profile_of (entry : AdapterEntry) : AuthProfile :=
  if requires_auth entry then SpotV1 else ProfilePublic.

Definition signed_contract {A} (op : Op) (form : list (string * string))
  (decode : Json → E + A) (m : Task (E + A)) : Prop :=
  emits m (routed op (λ entry o seg,
    posts (wire_target entry) form (profile_of entry) seg ∧
    read_outcome env true ne_from_rest decode o seg)).

Lemma signed_dispatch_log path form profile cost :
  emits (signed_dispatch env rest path form profile cost) (λ o seg,
    posts path form profile seg ∧ fetch_outcome env true ne_from_rest o seg).
Proof using budget_fits.
  unfold signed_dispatch, mint_request_id. apply emits_bind, emits_bind, emits_read. intros n.
  apply emits_bind, emits_act, emits_ret. cbn -[signed_post_costed].
  apply emits_bind. eapply emits_mono; [by apply signed_post_log|].
  intros o seg Hlog. pose proof (attempts_disciplined _ _ _ _ _ _ _ _ _ Hlog) as ([Hs He] & Hn & _).
  apply signed_heard in Hlog as [Hm Hr]. set (id := te_uuid env n).
  assert (minted (IdMinted id :: seg) = [id]) as Hid.
  { change (id :: minted seg = [id]). by rewrite Hm. }
  assert (posts path form profile (IdMinted id :: seg)) as Hp.
  { split_and!; [|done|exact Hn|by rewrite Hid]. split; [done|]. by apply signed_posts_any. }
  destruct o as [[err|v]| |]; cbn -[posts fetch_outcome]; [apply emits_ret; rewrite app_nil_r..| |].
  - split; [done|]. exists id, err. split_and!; [done| |done].
    destruct (Hr _ eq_refl) as [?|?]; [by left|by right].
  - split; [done|]. split; [done|]. by destruct (Hr _ eq_refl).
  - by split.
  - by split.
Qed.

Lemma from_rest_lifting : lifting (ne_from_rest (E := E)).
Proof using laws. intros e. apply from_rest_facts. Qed.

Lemma signed_read_contract {A} op form cost (decode : Json → E + A) :
  malforming decode →
  signed_contract op form decode (signed_read env rest dispatch op form cost decode).
Proof using budget_fits laws.
  intros Hm. unfold signed_contract, signed_read, routed. apply emits_try_ret.
  unfold route, resolve_rest. destruct (resolve op Spot Rest dispatch) as [e|entry]; cbn; [done|].
  apply (decoding_log _ _ _ _ _ (λ _ seg, posts (wire_target entry) form _ seg));
    [apply from_rest_lifting|done|apply signed_dispatch_log].
Qed.
End Outcomes.

(** Takes a decoder apart. *)
Ltac malformed_step :=
  lazymatch goal with
  | |- malforming _ => intros ?
  | |- ∀ _, _ => intros ?
  | |- malformed_only (inr _) => apply malformed_inr
  | |- malformed_only (inl _) => apply malformed_inl
  | |- malformed_only (ok_or _ _) => apply malformed_ok_or
  | |- malformed_only (from_value_as _ _) => apply malformed_from_value
  | |- malformed_only (andthen _ _) => apply malformed_andthen; [|intros ?]
  | |- malformed_only (collect _ _) => apply malformed_collect; intros ?
  | |- malformed_only (decode_object_map _ _ _ _ _) => apply malformed_object_map; intros ? ?
  | |- malformed_only (match ?x with _ => _ end) => destruct x
  end.

Create HintDb malformed.

Ltac malformed_tac := repeat first [malformed_step | solve [eauto with malformed]].
