(* ===== verification/MarketProps.v ===== *)
(** * MarketProps: what the public market calls do *)

From Stdlib Require Import Ascii String OrderedTypeEx.
From stdpp Require Import sorting.
From S2P Require Import Prelude F64 Types Events RateCounter RateLimit Errors Auth Rest ConfigResolver Dispatch TradeError ReadErrors Connection Teardowns Task TaskLogic RestSurface Sample RestSurfaceProps Reads Market ReadProps.
Local Open Scope string_scope.
Local Open Scope list_scope.

(** ** Every failure to decode says the response is malformed *)

Section Decoders.
Context {D : Type} (rd : Readers D) (dec : MarketDecoders).

Lemma parse_dec_malformed s field : malformed_only (parse_dec rd s field).
Proof. unfold parse_dec. malformed_tac. Qed.
Hint Resolve parse_dec_malformed : malformed.

Lemma entry_dec_malformed l i slot field : malformed_only (entry_dec rd l i slot field).
Proof. unfold entry_dec, missing. malformed_tac. Qed.
Hint Resolve entry_dec_malformed : malformed.

Lemma ticker_malformed raw : malformed_only (ticker_from_raw rd raw).
Proof. unfold ticker_from_raw, missing. malformed_tac. Qed.

Lemma timestamp_malformed v : malformed_only (decode_level_timestamp rd v).
Proof. unfold decode_level_timestamp. malformed_tac. Qed.
Hint Resolve ticker_malformed timestamp_malformed : malformed.

Lemma level_malformed raw : malformed_only (decode_level rd raw).
Proof. unfold decode_level. malformed_tac. Qed.
Hint Resolve level_malformed : malformed.

Lemma trade_malformed raw : malformed_only (trade_from_raw rd raw).
Proof. unfold trade_from_raw. malformed_tac. Qed.

Lemma candle_malformed raw : malformed_only (candle_from_raw rd raw).
Proof. unfold candle_from_raw. malformed_tac. Qed.

Lemma spread_malformed raw : malformed_only (spread_from_raw rd raw).
Proof. unfold spread_from_raw. malformed_tac. Qed.

Lemma asset_malformed raw : malformed_only (asset_from_raw rd raw).
Proof. unfold asset_from_raw. malformed_tac. Qed.

Lemma elem_malformed v what : malformed_only (parse_elem rd v what).
Proof. unfold parse_elem. malformed_tac. Qed.
Hint Resolve trade_malformed candle_malformed spread_malformed asset_malformed elem_malformed : malformed.

Lemma tier_malformed v : malformed_only (parse_tier rd v).
Proof. unfold parse_tier. malformed_tac. Qed.
Hint Resolve tier_malformed : malformed.

Lemma pair_malformed raw : malformed_only (pair_from_raw rd raw).
Proof. unfold pair_from_raw. malformed_tac. Qed.
Hint Resolve pair_malformed : malformed.

Lemma first_entry_malformed v : malformed_only (take_first_entry v).
Proof. unfold take_first_entry. malformed_tac. Qed.

Lemma last_entry_malformed v ctx : malformed_only (take_last_entry v ctx).
Proof. unfold take_last_entry. malformed_tac. Qed.
Hint Resolve first_entry_malformed last_entry_malformed : malformed.

Lemma tickers_malforming : malforming (decode_tickers rd dec).
Proof. unfold decode_tickers. malformed_tac. Qed.

Lemma orderbook_malforming : malforming (decode_orderbook rd dec).
Proof. unfold decode_orderbook, book_from_raw. malformed_tac. Qed.

Lemma trades_malforming pr : malforming (decode_trades rd dec pr).
Proof. unfold decode_trades. malformed_tac. Qed.

Lemma ohlc_malforming pr : malforming (decode_ohlc_result rd dec pr).
Proof. unfold decode_ohlc_result. malformed_tac. Qed.

Lemma spreads_malforming pr : malforming (decode_spreads rd dec pr).
Proof. unfold decode_spreads. malformed_tac. Qed.

Lemma assets_malforming : malforming (decode_assets rd dec).
Proof. unfold decode_assets. malformed_tac. Qed.

Lemma pairs_malforming : malforming (decode_pairs rd dec).
Proof. unfold decode_pairs. malformed_tac. Qed.

Lemma pair_keys_malforming from_pairs : malforming (decode_pair_keys from_pairs).
Proof. unfold decode_pair_keys. malformed_tac. Qed.
End Decoders.

Lemma lift_for_lifting csv : lifting (lift_for csv).
Proof. intros e. destruct csv; [apply for_symbol_facts|apply from_rest_facts]. Qed.

Lemma for_symbol_lifting pr : lifting (from_rest_for_symbol pr).
Proof. intros e. apply for_symbol_facts. Qed.

(** ** The rows of a full ticker map under their modern keys *)

Lemma text_le_total a b : text_le a b ∨ text_le b a.
Proof. unfold text_le. rewrite (String.compare_antisym a b). destruct (String.compare b a); auto. Qed.

Lemma text_lt_trans a b c :
  String.compare a b = Lt → String.compare b c = Lt → String.compare a c = Lt.
Proof. change String.compare with String_as_OT.cmp. rewrite !String_as_OT.cmp_lt. apply String_as_OT.lt_trans. Qed.

Lemma text_le_trans a b c : text_le a b → text_le b c → text_le a c.
Proof.
  unfold text_le. destruct (String.compare a b) eqn:Hab; [|intros _|done].
  - apply String.compare_eq_iff in Hab as ->. auto.
  - destruct (String.compare b c) eqn:Hbc; [|intros _|done].
    + apply String.compare_eq_iff in Hbc as ->. by rewrite Hab.
    + by rewrite (text_lt_trans a b c).
Qed.

Lemma text_le_antisym a b : text_le a b → text_le b a → a = b.
Proof.
  unfold text_le. rewrite (String.compare_antisym a b).
  destruct (String.compare b a) eqn:Hb; [|done..]. intros _ _. symmetry.
  by apply String.compare_eq_iff.
Qed.

Section Rekeying.
Context {V : Type}.

(** The first row that claims [key] gets it, when it is free. *)
Lemma vacant_lookup (l : list (string * string * V)) (m : gmap string V) key :
  fold_left insert_vacant l m !! key =
  match m !! key with
  | Some v => Some v
  | None => snd <$> List.find (λ row, bool_decide (row.1.2 = key)) l
  end.
Proof.
  revert m. induction l as [|[[k new] v] l IH]; intros m; cbn; [by destruct (m !! key)|].
  rewrite IH. unfold insert_vacant. destruct (m !! new) as [v'|] eqn:Hn.
  - destruct (m !! key) eqn:Hk; [done|]. rewrite bool_decide_eq_false_2 by congruence. done.
  - destruct (decide (new = key)) as [->|Hne].
    + by rewrite lookup_insert_eq, Hn, bool_decide_eq_true_2.
    + rewrite lookup_insert_ne by done. by rewrite bool_decide_eq_false_2.
Qed.

Lemma native_lookup (l : list (string * V)) (m : gmap string V) key v :
  NoDup l.*1 →
  fold_left (λ out row, <[row.1 := row.2]> out) l m !! key = Some v ↔
  ((key, v) ∈ l ∨ ((key ∉ l.*1) ∧ m !! key = Some v)).
Proof.
  revert m. induction l as [|[k v'] l IH]; intros m Hd; cbn in *.
  { set_solver. }
  apply NoDup_cons in Hd as [Hk Hd]. rewrite IH by done. rewrite lookup_insert_Some.
  rewrite elem_of_cons, not_elem_of_cons. split.
  - intros [H|(Hn & [[-> ->]|[Hne Hm]])]; auto.
  - intros [[[= -> ->]|H]|([Hne Hn] & Hm)]; auto.
Qed.

Variable map : PairKeyMap.

Definition native_rows (rows : list (string * V)) := filter (λ row, rekeyed map row.1 = None) rows.
Definition moved_rows (rows : list (string * V)) : list (string * string * V) :=
  omap (λ row, (λ sym, (row.1, sym, row.2)) <$> rekeyed map row.1) rows.

Lemma moved_elem rows k new v :
  (k, new, v) ∈ moved_rows rows ↔ (k, v) ∈ rows ∧ rekeyed map k = Some new.
Proof.
  unfold moved_rows. rewrite list_elem_of_omap. split.
  - intros ([k' v'] & Hr & Hs). cbn in Hs. destruct (rekeyed map k') eqn:He; by simplify_eq/=.
  - intros [Hr He]. exists (k, v). cbn. by rewrite He.
Qed.

(** The row [List.find] takes from a sorted list is below every other it could have taken. *)
Lemma find_least (R : relation (string * string * V)) l key row :
  StronglySorted R l → List.find (λ row, bool_decide (row.1.2 = key)) l = Some row →
  row ∈ l ∧ row.1.2 = key ∧ ∀ row', row' ∈ l → row'.1.2 = key → row' = row ∨ R row row'.
Proof.
  induction 1 as [|x l _ IH Hx]; cbn; [done|]. case_bool_decide as Hk.
  - intros [= ->]. split_and!; [left|done|]. intros row' [->|Hr]%elem_of_cons _; [by left|].
    right. by eapply Forall_forall in Hx.
  - intros Hf. destruct (IH Hf) as (Hin & Heq & Hle). split_and!; [by right|done|].
    intros row' [->|Hr]%elem_of_cons Hk'; [done|auto].
Qed.

Lemma find_vacant (l : list (string * string * V)) key :
  List.find (λ row, bool_decide (row.1.2 = key)) l = None → ∀ row, row ∈ l → row.1.2 ≠ key.
Proof.
  intros Hf row Hr Hk. apply list_elem_of_In in Hr.
  pose proof (List.find_none _ _ Hf row Hr) as Hc. cbn in Hc.
  by apply bool_decide_eq_false in Hc.
Qed.

(** What a row must be to end under [key]. *)
Definition keyed_row (rows : list (string * V)) (key : string) (v : V) : Prop :=
  ((key, v) ∈ rows ∧ rekeyed map key = None) ∨
  ((∀ v', (key, v') ∈ rows → rekeyed map key ≠ None) ∧
   ∃ k, (k, v) ∈ rows ∧ rekeyed map k = Some key ∧
     ∀ k' v', (k', v') ∈ rows → rekeyed map k' = Some key → text_le k k').

Abbreviation by_wire_key := (λ a b : string * string * V, text_le a.1.1 b.1.1).

Lemma moved_sorted rows : StronglySorted by_wire_key (merge_sort by_wire_key (moved_rows rows)).
Proof.
  apply StronglySorted_merge_sort.
  - intros a b c. apply text_le_trans.
  - intros a b. apply text_le_total.
Qed.

Definition native_map (rows : list (string * V)) : gmap string V :=
  fold_left (λ out row, <[row.1 := row.2]> out) (native_rows rows) ∅.

Lemma native_none rows key :
  NoDup rows.*1 → native_map rows !! key = None →
  ∀ v, (key, v) ∈ rows → rekeyed map key ≠ None.
Proof.
  intros Hd Hn v Hv Hr.
  assert (native_map rows !! key = Some v) as Hs; [|congruence].
  apply native_lookup.
  - apply (sublist_NoDup _ _ Hd), fmap_sublist, sublist_filter.
  - left. by apply list_elem_of_filter.
Qed.

Lemma native_some rows key v :
  NoDup rows.*1 → native_map rows !! key = Some v ↔ (key, v) ∈ rows ∧ rekeyed map key = None.
Proof.
  intros Hd. unfold native_map. rewrite native_lookup.
  - rewrite lookup_empty. unfold native_rows. rewrite list_elem_of_filter. naive_solver.
  - apply (sublist_NoDup _ _ Hd), fmap_sublist, sublist_filter.
Qed.

Lemma rekey_lookup rows key v :
  NoDup rows.*1 → rekey_rows map rows !! key = Some v ↔ keyed_row rows key v.
Proof.
  intros Hd.
  change (rekey_rows map rows)
    with (fold_left insert_vacant (merge_sort by_wire_key (moved_rows rows)) (native_map rows)).
  rewrite vacant_lookup. unfold keyed_row.
  destruct (native_map rows !! key) as [v'|] eqn:Hn.
  - apply native_some in Hn as [Hv' Hr]; [|done]. split.
    + intros [= ->]. by left.
    + intros [[Hv _]|[Hno _]]; [|by destruct (Hno v')].
      f_equal. by eapply row_unique.
  - assert (∀ v0, (key, v0) ∈ rows → rekeyed map key ≠ None) as Hno by (intros v0; by apply native_none).
    destruct (List.find _ _) as [[[k new] w]|] eqn:Hf; cbn.
    + apply (find_least by_wire_key) in Hf as (Hin & Heq & Hle); [|apply moved_sorted].
      cbn in Heq. subst new.
      rewrite merge_sort_Permutation, moved_elem in Hin. destruct Hin as [Hin Hk].
      assert (∀ k' v', (k', v') ∈ rows → rekeyed map k' = Some key →
        (k', v') = (k, w) ∨ text_le k k') as Hleast.
      { intros k' v' Hr' Hk'. destruct (Hle (k', key, v')) as [[= -> ->]|Ht]; [|done|by left|by right].
        by rewrite merge_sort_Permutation, moved_elem. }
      split.
      * intros [= ->]. right. split; [done|]. exists k. split_and!; [done..|].
        intros k' v' Hr' Hk'. destruct (Hleast k' v' Hr' Hk') as [[= -> ->]|]; [|done].
        by destruct (text_le_total k k).
      * intros [[Hv Hr]|[_ (k' & Hv & Hk' & Hle')]]; [by destruct (Hno v Hv)|].
        assert (k = k') as ->; [|f_equal; by eapply row_unique].
        destruct (Hleast k' v Hv Hk') as [[= -> ->]|Ht]; [done|].
        apply text_le_antisym; [done|by eapply Hle'].
    + split; [done|]. intros [[Hv Hr]|[_ (k & Hv & Hk & _)]]; [by destruct (Hno v Hv)|].
      exfalso. eapply (find_vacant _ _ Hf (k, key, v)); [|done].
      by rewrite merge_sort_Permutation, moved_elem.
Qed.
End Rekeying.

Lemma rekey_rows_order {V} (map : PairKeyMap) (rows rows' : list (string * V)) :
  NoDup rows.*1 → rows' ≡ₚ rows → rekey_rows map rows' = rekey_rows map rows.
Proof.
  intros Hd Hp. apply map_eq. intros key. apply option_eq. intros v.
  rewrite !rekey_lookup; [|done|by rewrite Hp]. unfold keyed_row. by setoid_rewrite Hp.
Qed.

(** C23: The tickers of every pair are listed under their modern keys whatever the order their map is
    iterated in: a row that has no other modern key keeps its own; any other is listed under
    its modern key exactly when no native row has that key and no smaller wire key leads to
    it. *)
Theorem rekeyed_tickers_exact {V} (map : PairKeyMap) (tickers : gmap string V) :
  (∀ key v, rekey_ticker_map tickers map !! key = Some v ↔
     (tickers !! key = Some v ∧ rekeyed map key = None) ∨
     ((tickers !! key = None ∨ rekeyed map key ≠ None) ∧
      ∃ k, tickers !! k = Some v ∧ rekeyed map k = Some key ∧
        ∀ k', is_Some (tickers !! k') → rekeyed map k' = Some key → text_le k k')) ∧
  (∀ rows, rows ≡ₚ map_to_list tickers → rekey_rows map rows = rekey_ticker_map tickers map).
Proof.
  split.
  - intros key v. unfold rekey_ticker_map. rewrite rekey_lookup by apply NoDup_fst_map_to_list.
    unfold keyed_row. setoid_rewrite elem_of_map_to_list. unfold is_Some.
    destruct (tickers !! key) as [w|] eqn:Hk; [|naive_solver].
    split; intros [[H1 H2]|[H1 H2]]; [by left|right|by left|right].
    + split; [right; by eapply H1|naive_solver].
    + destruct H1 as [|H1]; [done|]. split; [by intros|naive_solver].
  - intros rows Hp. apply rekey_rows_order; [apply NoDup_fst_map_to_list|done].
Qed.

Definition sample_keys : PairKeyMap := {[ "XXBTZUSD" := "BTC/USD"; "XBTUSD" := "BTC/USD" ]}.
Definition sample_tickers : gmap string N := {[ "XXBTZUSD" := 1%N; "XBTUSD" := 2%N; "SOL/USD" := 3%N ]}.

Lemma rekeyed_tickers_exact_witness :
  rekey_rows sample_keys (rev (map_to_list sample_tickers)) =
  rekey_ticker_map sample_tickers sample_keys ∧
  rekey_ticker_map sample_tickers sample_keys !! "BTC/USD" = Some 2%N ∧
  rekey_ticker_map sample_tickers sample_keys !! "XXBTZUSD" = None.
Proof.
  split; [|by vm_compute].
  apply (rekeyed_tickers_exact sample_keys sample_tickers). symmetry. apply Permutation_rev.
Defined.

(** ** The calls *)

Section Calls.
Context {D : Type} (rd : Readers D) (dec : MarketDecoders).
Context (env : TaskEnv) (rest : RestSurface) (dispatch : DispatchTable).
Context (cell : nat → option PairKeyMap) (from_pairs : Json → string + gmap string RawAssetPair).

Context (budget_fits : (max_attempts rest idempotent < u32_max)%N).

(** The keys of the ticker call: those the cell holds, or those of a public read of its own. *)
Definition keys_call : LogPost (MarketError + PairKeyMap) := λ o seg,
  (seg = [] ∧ match o with
              | Done (inr map) => ∃ n, cell n = Some map
              | Dropped => True
              | _ => False
              end) ∨
  routed dispatch MarketAssetPairs (λ entry o seg,
    (gets rest (wire_target entry) [] seg ∧ panicked o = false) ∧
    read_outcome env false ne_from_rest (decode_pair_keys from_pairs) o seg) o seg.

Lemma pair_key_map_log : emits (pair_key_map env rest dispatch cell from_pairs) keys_call.
Proof using budget_fits.
  unfold pair_key_map. apply emits_bind, emits_read. intros n. cbn -[keys_call].
  destruct (cell n) as [map|] eqn:Hc; [apply emits_ret; left; split; [done|by exists n]|].
  apply emits_bind, emits_await; cbn -[keys_call]; [by left|]. intros m.
  destruct (cell m) as [map|] eqn:Hc'; [apply emits_ret; left; split; [done|by exists m]|].
  eapply emits_mono; [apply (public_read_contract (E := MarketError) env rest dispatch budget_fits);
    [apply from_rest_lifting|apply pair_keys_malforming]|].
  intros o seg H. by right.
Qed.

(** The failure of the keys' read is the call's, under the id of that read; a miss of the table
    comes under the call's. *)
Definition keys_failure (id : string) (e : MarketError) : MarketError :=
  match ne_request_id e with Some _ => e | None => ne_with_request_id id e end.

Lemma keys_failure_stamp id e : ne_with_request_id id e = keys_failure id e.
Proof. by destruct e as [? []|? []| |? []|? ? []|? []| |? ? []]. Qed.

(** The ticker call: a public read of the tickers, and without pairs its result under the
    modern keys. *)
Definition ticker_steps (csv : option string) (path : string)
  : LogPost (MarketError + gmap string (Ticker D)) := λ o seg,
  ∃ s1 s2 o1 id,
    seg = s1 ++ s2 ∧ gets rest path (opt_query "pair" csv) s1 ∧ minted s1 = [id] ∧
    panicked o = false ∧ read_outcome env false (lift_for csv) (decode_tickers rd dec) o1 s1 ∧
    match o1, csv with
    | Done (inr tickers), None => ∃ o2, keys_call o2 s2 ∧
        o = match o2 with
            | Done (inr map) => Done (inr (rekey_ticker_map tickers map))
            | Done (inl e) => Done (inl (keys_failure id e))
            | Dropped => Dropped
            | Panicked => Panicked
            end
    | _, _ => s2 = [] ∧ o = o1
    end.

Definition ticker_call (csv : option string)
  : LogPost (MarketError + gmap string (Ticker D)) :=
  routed dispatch MarketTicker (λ entry, ticker_steps csv (wire_target entry)).

(** A call that ends with its first read. *)
Lemma ticker_ends csv path (o : Outcome (MarketError + gmap string (Ticker D))) seg id :
  gets rest path (opt_query "pair" csv) seg → minted seg = [id] → panicked o = false →
  read_outcome env false (lift_for csv) (decode_tickers rd dec) o seg →
  match o, csv with Done (inr _), None => False | _, _ => True end →
  ticker_steps csv path o seg.
Proof.
  intros Hg Hid Hp Ho Hm. exists seg, [], o, id. rewrite app_nil_r.
  repeat (split; [done|]). by destruct o as [[|]| |], csv.
Qed.

Lemma keys_call_safe o seg : keys_call o seg → panicked o = false.
Proof.
  intros [[_ Ho]|Hr]; [by destruct o as [[]| |]|]. unfold routed in Hr.
  destruct (resolve MarketAssetPairs Spot Rest dispatch); [by destruct Hr as [_ ->]|].
  by destruct Hr as [[_ ?] _].
Qed.

Lemma market_ticker_log pairs :
  emits (market_ticker rd dec env rest dispatch cell from_pairs pairs)
    (ticker_call (symbols_csv <$> pairs)).
Proof using budget_fits.
  unfold market_ticker, ticker_call, routed. apply emits_try_ret. unfold endpoint, resolve_rest.
  destruct (resolve MarketTicker Spot Rest dispatch) as [miss|entry]; cbn -[ticker_steps]; [done|].
  apply emits_try. eapply emits_mono; [by apply public_fetch_log|].
  intros o1 s1 [[Hg Hp] Ho].
  assert (∃ id, minted s1 = [id]) as [id Hid].
  { destruct Hg as (_ & _ & Hm). destruct (minted s1) as [|id []]; [done|by exists id|done]. }
  pose proof (λ o, ticker_ends _ _ o _ _ Hg Hid) as Hend.
  destruct o1 as [[e|[id' v]]| |]; cbn -[ticker_steps decode_tickers pair_key_map];
    [| |by apply Hend|done].
  { rewrite app_nil_r. destruct Ho as (id' & err & Hid' & Hre & ->). apply Hend; [done| |done].
    apply lifted_outcome; [apply lift_for_lifting|done|done]. }
  destruct Ho as [Hid' Hv]. rewrite Hid in Hid'. injection Hid' as <-. apply emits_try_ret.
  pose proof (decoded_outcome env false (lift_for (symbols_csv <$> pairs)) (decode_tickers rd dec)
    id v s1 (tickers_malforming rd dec) Hid Hv) as Hd.
  destruct (decode_tickers rd dec v) as [e|t]; cbn -[ticker_steps pair_key_map].
  { rewrite app_nil_r. by apply Hend. }
  destruct pairs as [ps|]; cbn -[ticker_steps pair_key_map].
  { apply emits_ret. rewrite app_nil_r. by apply Hend. }
  apply emits_bind. eapply emits_mono; [apply pair_key_map_log|].
  intros o2 s2 Hk. pose proof (keys_call_safe _ _ Hk) as Hs.
  destruct o2 as [r| |]; cbn -[ticker_steps]; [apply emits_ret; rewrite app_nil_r| |done].
  - exists s1, s2, (Done (inr t)), id. repeat (split; [done|]). exists (Done r). split; [done|].
    destruct r as [e|map]; cbn; [|done]. by rewrite <-keys_failure_stamp.
  - exists s1, s2, (Done (inr t)), id. repeat (split; [done|]). by exists Dropped.
Qed.

Lemma pair_key_map_undisturbed : undisturbed env (pair_key_map env rest dispatch cell from_pairs).
Proof. unfold pair_key_map, fetch_pair_keys. undisturbed_tac. apply public_read_undisturbed. Qed.

Lemma market_ticker_undisturbed pairs :
  undisturbed env (market_ticker rd dec env rest dispatch cell from_pairs pairs).
Proof.
  unfold market_ticker. undisturbed_tac; [apply public_fetch_undisturbed|].
  apply pair_key_map_undisturbed.
Qed.
End Calls.

(** C22: A public market call is refused at once when the table misses its operation; otherwise it
    mints one id and asks only its endpoint with exactly its query, within the attempt budget,
    never panics, and never touches what requests share: no nonce, no charge, no post.  What it
    returns decodes the last answer it heard; a failure carries the id it minted and is
    retryable exactly when that answer is worth retrying, never when the answer did not decode.
    The ticker call is such a read; without pairs its rows are put under the keys the cell
    holds or a second such read decodes, whose failure it passes on under that read's id. *)
Theorem market_reads_public {D} (rd : Readers D) (dec : MarketDecoders) env rest dispatch cell
  from_pairs :
  (max_attempts rest idempotent < u32_max)%N →
  (∀ s c, public_contract env rest dispatch MarketOrderBook
     [("pair", s); ("count", decimal (default 100%N c))] (from_rest_for_symbol s)
     (decode_orderbook rd dec) (market_orderbook rd dec env rest dispatch s c)) ∧
  (∀ req, public_contract env rest dispatch MarketTrades (trades_params req)
     (from_rest_for_symbol (trq_pair req)) (decode_trades rd dec (trq_pair req))
     (market_trades rd dec env rest dispatch req)) ∧
  public_contract env rest dispatch MarketServerTime [] ne_from_rest
    (λ v, from_value_as "server_time decode: " (from_server_time dec v))
    (market_server_time dec env rest dispatch) ∧
  (∀ codes, public_contract env rest dispatch MarketAssets (opt_query "asset" (join "," <$> codes))
     ne_from_rest (decode_assets rd dec) (market_assets rd dec env rest dispatch codes)) ∧
  (∀ ps, public_contract env rest dispatch MarketAssetPairs (opt_query "pair" (symbols_csv <$> ps))
     (lift_for (symbols_csv <$> ps)) (decode_pairs rd dec) (market_pairs rd dec env rest dispatch ps)) ∧
  (∀ req, public_contract env rest dispatch MarketOhlc (ohlc_query req)
     (from_rest_for_symbol (orq_pair req)) (decode_ohlc_result rd dec (orq_pair req))
     (market_ohlc rd dec env rest dispatch req)) ∧
  (∀ s since, public_contract env rest dispatch MarketSpreads (push_opt [("pair", s)] "since" since)
     (from_rest_for_symbol s) (decode_spreads rd dec s)
     (market_spreads rd dec env rest dispatch s since)) ∧
  public_contract env rest dispatch MarketSystemStatus [] ne_from_rest
    (λ v, from_value_as "system status decode: " (from_system_status dec v))
    (market_status dec env rest dispatch) ∧
  (∀ ps, undisturbed env (market_ticker rd dec env rest dispatch cell from_pairs ps) ∧
     emits (market_ticker rd dec env rest dispatch cell from_pairs ps)
       (ticker_call rd dec env rest dispatch cell from_pairs (symbols_csv <$> ps))).
Proof.
  intros Hb. pose proof (from_rest_lifting (E := MarketError)) as Hrest.
  split_and!; intros;
    try (apply public_read_contract;
         [exact Hb|first [apply for_symbol_lifting|apply lift_for_lifting|exact Hrest]|]).
  - apply orderbook_malforming.
  - apply trades_malforming.
  - malformed_tac.
  - apply assets_malforming.
  - apply pairs_malforming.
  - apply ohlc_malforming.
  - apply spreads_malforming.
  - malformed_tac.
  - split; [apply market_ticker_undisturbed|by apply market_ticker_log].
Qed.

(** A server's clock, read as one number. *)
Definition sample_decoders : MarketDecoders := {|
  from_ticker := λ _, inl "";
  from_asset_pair := λ _, inl "";
  from_asset_meta := λ _, inl "";
  from_order_book := λ _, inl "";
  from_trades := λ _, inl "";
  from_candles := λ _, inl "";
  from_spreads := λ _, inl "";
  from_server_time := λ v, match v with JNull => inr (mkServerTime 7 "now") | _ => inl "no clock" end;
  from_system_status := λ _, inl "";
|}.

Lemma market_reads_public_witness :
  let m := market_server_time sample_decoders calm sample_rest with_default_spot_table in
  (max_attempts sample_rest idempotent < u32_max)%N ∧
  (m sample_world).1 = Done (inr (mkServerTime 7 "now")) ∧
  tw_log (m sample_world).2 = [IdMinted "id"; HttpGot "/0/public/Time" [];
    GetAnswered (inr (JObject [("result", JNull)]))] ∧
  tw_shared (m sample_world).2 = sample_shared ∧
  undisturbed calm m.
Proof.
  intros m. split; [done|]. split_and!; [by vm_compute..|].
  exact (proj1 (proj1 (proj2 (proj2 (market_reads_public (mkReaders (λ s, inr s) (λ _, "") (λ _, ""))
    sample_decoders calm sample_rest with_default_spot_table (λ _, None) (λ _, inl "") ltac:(done)))))).
Defined.
