(* ===== verification/AccountProps.v ===== *)
(** * AccountProps: what the private account calls do *)

From Stdlib Require Import Ascii String.
From stdpp Require Import pretty.
From S2P Require Import Prelude F64 Types Events RateCounter RateLimit Errors Auth Rest ConfigResolver Dispatch TradeError WireTime OrderTypes ReadErrors Connection Teardowns Task TaskLogic RestSurface Sample RestSurfaceProps Reads Market Account ReadProps.
Local Open Scope string_scope.
Local Open Scope list_scope.

(** ** Every failure to decode says the response is malformed *)

Lemma bare_map_malformed {T} (f : Json → string + T) result ctx :
  malformed_only (decode_bare_map f result ctx).
Proof. unfold decode_bare_map. malformed_tac. Qed.
#[local] Hint Resolve bare_map_malformed : malformed.

Lemma named_map_malformed {T} (f : Json → string + T) result field ctx :
  malformed_only (decode_named_map f result field ctx).
Proof. unfold decode_named_map. malformed_tac. Qed.
#[local] Hint Resolve named_map_malformed : malformed.

Lemma counted_map_malformed {T} (f : Json → string + T) result field ctx :
  malformed_only (decode_named_map_with_count f result field ctx).
Proof. unfold decode_named_map_with_count. malformed_tac. Qed.

Section Decoders.
Context {D : Type} (rd : Readers D) (dec : AccountDecoders D).

Lemma balance_entries_malformed obj assets : malformed_only (balance_entries rd obj assets).
Proof. revert assets. induction obj as [|[asset raw] obj IH]; intros assets; cbn -[ne_malformed]; malformed_tac. Qed.
Hint Resolve balance_entries_malformed : malformed.

Lemma balance_malforming : malforming (balance_from_value rd).
Proof. unfold balance_from_value. malformed_tac. Qed.

Lemma extended_malforming : malforming (extended_from_value dec).
Proof. unfold extended_from_value. malformed_tac. Qed.

Lemma volume_malforming : malforming (volume_from_value rd dec).
Proof. unfold volume_from_value. malformed_tac. Qed.
End Decoders.

(** C20: A private account call is refused at once when the table misses its operation; otherwise it
    mints one id and posts only its form to its endpoint, each post signed with the nonce just
    taken, within the attempt budget and one heal, and publishes no order event.  What it
    returns decodes the last answer it heard; a failure carries the id it minted and is
    retryable exactly when that answer, or the refusal before a request was sent, is worth
    retrying, never when the answer did not decode. *)
Theorem account_reads_signed {D} (rd : Readers D) (dec : AccountDecoders D) env rest dispatch :
  (max_attempts rest idempotent < u32_max)%N →
  signed_contract env rest dispatch AccountBalance [] (balance_from_value rd)
    (balance rd env rest dispatch) ∧
  signed_contract env rest dispatch AccountBalanceEx [] (extended_from_value dec)
    (extended_balance dec env rest dispatch) ∧
  (∀ asset, signed_contract env rest dispatch AccountTradeBalance (push_opt [] "asset" asset)
     (λ v, from_value_as "trade_balance decode: " (from_trade_balance dec v))
     (trade_balance dec env rest dispatch asset)) ∧
  (∀ req, signed_contract env rest dispatch AccountOpenOrders (open_orders_params req)
     (λ v, decode_named_map (from_order_info dec) v "open" "open_orders")
     (open_orders dec env rest dispatch req)) ∧
  (∀ req, signed_contract env rest dispatch AccountClosedOrders (closed_orders_params req)
     (λ v, decode_named_map_with_count (from_order_info dec) v "closed" "closed_orders")
     (closed_orders dec env rest dispatch req)) ∧
  (∀ req, signed_contract env rest dispatch AccountLedgers (ledgers_params req)
     (λ v, decode_named_map_with_count (from_ledger_entry dec) v "ledger" "ledgers")
     (ledgers dec env rest dispatch req)) ∧
  (∀ req, signed_contract env rest dispatch AccountTradesHistory (trades_history_params req)
     (λ v, decode_named_map_with_count (from_history_entry dec) v "trades" "trades_history")
     (trades_history dec env rest dispatch req)) ∧
  (∀ ids, signed_contract env rest dispatch AccountQueryLedgers [("id", join "," ids)]
     (λ v, decode_bare_map (from_ledger_entry dec) v "query_ledgers")
     (query_ledgers dec env rest dispatch ids)) ∧
  (∀ txids docalcs, signed_contract env rest dispatch AccountOpenPositions
     (positions_form txids docalcs) (λ v, decode_bare_map (from_position dec) v "positions")
     (positions dec env rest dispatch txids docalcs)) ∧
  (∀ pr fee_info, signed_contract env rest dispatch AccountTradeVolume (volume_form pr fee_info)
     (volume_from_value rd dec) (volume rd dec env rest dispatch pr fee_info)).
Proof.
  intros Hb. split_and!; intros; apply signed_read_contract; (exact Hb || idtac).
  - apply balance_malforming.
  - apply extended_malforming.
  - malformed_tac.
  - malformed_tac.
  - intros ?. apply counted_map_malformed.
  - intros ?. apply counted_map_malformed.
  - intros ?. apply counted_map_malformed.
  - malformed_tac.
  - malformed_tac.
  - apply volume_malforming.
Qed.

Definition sample_readers : Readers string := mkReaders (λ s, inr s) (λ _, "") (λ _, "").

Lemma account_reads_signed_witness :
  let env := sample_env (λ _, PostResponse (JObject [("result",
                 JObject [("XXBT", JString "1.5"); ("ZUSD", JString "20")])]))
               (λ _, None) (λ _, inl ResponseTimeout) (λ _, false) in
  let m := balance sample_readers env sample_rest with_default_spot_table in
  (max_attempts sample_rest idempotent < u32_max)%N ∧
  match (m sample_world).1 with Done (inr assets) => assets !! "BTC" = Some "1.5" | _ => False end ∧
  ∃ seg, tw_log (m sample_world).2 = seg ∧ posts sample_rest "/0/private/Balance" [] SpotV1 seg.
Proof.
  intros env m. split; [done|]. split.
  - vm_compute. reflexivity.
  - destruct (proj1 (account_reads_signed sample_readers
      (mkAccountDecoders (λ _, inl "") (λ _, inl "") (λ _, inl "") (λ _, inl "") (λ _, inl "")
         (λ _, inl "") (λ _, inl "")) env sample_rest with_default_spot_table ltac:(done))
      sample_world) as (seg & Hl & Hp & _).
    exists seg. split; [exact Hl|exact Hp].
Defined.

(** ** The forms say what the requests say *)

(** The fields of a form: each once, with the value it has, and those without one left out. *)
Definition form_states (form : list (string * string)) (fields : list (string * option string))
  : Prop :=
  NoDup form.*1 ∧ NoDup fields.*1 ∧ (∀ key v, (key, v) ∈ form ↔ (key, Some v) ∈ fields).

Lemma form_nil : form_states [] [].
Proof. split_and!; [constructor..|]. by intros; rewrite !elem_of_nil. Qed.

Lemma form_push form fields name o :
  form_states form fields → name ∉ fields.*1 →
  form_states (push_opt form name o) (fields ++ [(name, o)]).
Proof.
  intros (Hf & Hs & Hiff) Hn. unfold form_states. rewrite !fmap_app. cbn.
  assert (name ∉ form.*1) as Hnf.
  { intros Hin. apply list_elem_of_fmap in Hin as ([k v] & -> & Hkv). apply Hn.
    apply list_elem_of_fmap. exists (k, Some v). by rewrite <-Hiff. }
  assert (NoDup (fields.*1 ++ [name])) as Hs'.
  { apply NoDup_app. split_and!; [done| |apply NoDup_singleton]. set_solver. }
  destruct o as [w|]; cbn.
  - rewrite fmap_app. split_and!; [|done|].
    + apply NoDup_app. split_and!; [done|set_solver|apply NoDup_singleton].
    + intros k v. rewrite !elem_of_app, Hiff, !list_elem_of_singleton. naive_solver.
  - split_and!; [done..|]. intros k v. rewrite elem_of_app, Hiff, list_elem_of_singleton. naive_solver.
Qed.

Definition build_form (fields : list (string * option string)) : list (string * string) :=
  fold_left (λ form f, push_opt form f.1 f.2) fields [].

Lemma build_form_states fields :
  bool_decide (NoDup fields.*1) = true → form_states (build_form fields) fields.
Proof.
  intros Hd. apply bool_decide_eq_true in Hd. unfold build_form.
  induction fields as [|[n o] fields IH] using rev_ind; [apply form_nil|].
  rewrite fold_left_app. cbn. rewrite fmap_app in Hd. apply NoDup_app in Hd as (Hd & Hn & _).
  apply form_push; [auto|]. intros Hin. apply (Hn n Hin). cbn. left.
Qed.

(** A form determines its fields. *)
Lemma form_field form fields fields' key o o' :
  form_states form fields → form_states form fields' →
  (key, o) ∈ fields → (key, o') ∈ fields' → o = o'.
Proof.
  intros (Hf & Hs & Hi) (_ & Hs' & Hi') Ho Ho'.
  destruct o as [v|], o' as [v'|]; [| | |done].
  - apply Hi in Ho. apply Hi' in Ho'. f_equal. exact (row_unique _ _ _ _ Hf Ho Ho').
  - apply Hi, Hi' in Ho. exact (row_unique _ _ _ _ Hs' Ho Ho').
  - apply Hi', Hi in Ho'. exact (row_unique _ _ _ _ Hs Ho Ho').
Qed.

Lemma form_fields form fields fields' :
  form_states form fields → form_states form fields' → fields.*1 = fields'.*1 → fields = fields'.
Proof.
  intros H H'.
  cut (∀ l l', l ⊆ fields → l' ⊆ fields' → l.*1 = l'.*1 → l = l'); [intros Hc; by apply Hc|].
  induction l as [|[k o] l IH]; intros [|[k' o'] l'] Hl Hl' He; simplify_eq/=; [done|].
  f_equal; [f_equal|apply IH; set_solver].
  eapply (form_field _ _ _ k' _ _ H H'); set_solver.
Qed.

Definition open_orders_fields (r : OpenOrdersRequest) : list (string * option string) :=
  [("trades", Some (bool_text (oo_trades r))); ("userref", pretty <$> oo_userref r);
   ("cl_ord_id", oo_cl_ord_id r)].

Definition closed_orders_fields (r : ClosedOrdersRequest) : list (string * option string) :=
  [("trades", Some (bool_text (co_trades r))); ("userref", pretty <$> co_userref r);
   ("start", decimal <$> co_start r); ("end", decimal <$> co_end r);
   ("ofs", decimal <$> co_ofs r); ("closetime", close_time_str <$> co_closetime r);
   ("cl_ord_id", co_cl_ord_id r)].

Definition ledgers_fields (r : LedgersRequest) : list (string * option string) :=
  [("asset", join "," <$> lq_asset r); ("aclass", ledgers_aclass <$> lq_aclass r);
   ("type", ledger_type_str <$> lq_ledger_type r); ("start", decimal <$> lq_start r);
   ("end", decimal <$> lq_end r); ("ofs", decimal <$> lq_ofs r)].

Definition trades_history_fields (r : TradesHistoryRequest) : list (string * option string) :=
  [("type", trade_type_str <$> th_trade_type r); ("trades", bool_text <$> th_trades r);
   ("start", decimal <$> th_start r); ("end", decimal <$> th_end r);
   ("ofs", decimal <$> th_ofs r); ("ledgers", if th_ledgers r then Some "true" else None)].

Lemma open_orders_form r : form_states (open_orders_params r) (open_orders_fields r).
Proof. by apply (build_form_states (open_orders_fields r)). Qed.

Lemma closed_orders_form r : form_states (closed_orders_params r) (closed_orders_fields r).
Proof. by apply (build_form_states (closed_orders_fields r)). Qed.

Lemma ledgers_form r : form_states (ledgers_params r) (ledgers_fields r).
Proof. by apply (build_form_states (ledgers_fields r)). Qed.

Lemma trades_history_form r : form_states (trades_history_params r) (trades_history_fields r).
Proof.
  replace (trades_history_params r) with (build_form (trades_history_fields r))
    by (unfold trades_history_params, build_form; cbn; by destruct (th_ledgers r)).
  by apply build_form_states.
Qed.

(** *** The texts tell the values apart *)

#[local] Instance bool_text_inj : Inj (=) (=) bool_text.
Proof. by intros [] []. Qed.
#[local] Instance decimal_inj : Inj (=) (=) decimal.
Proof. unfold decimal. apply _. Qed.
#[local] Instance close_time_inj : Inj (=) (=) close_time_str.
Proof. by intros [] []. Qed.
#[local] Instance trade_type_inj : Inj (=) (=) trade_type_str.
Proof. by intros [] []. Qed.
#[local] Instance ledger_type_inj : Inj (=) (=) ledger_type_str.
Proof. by intros [] []. Qed.
#[local] Instance ledgers_aclass_inj : Inj (=) (=) ledgers_aclass.
Proof. by intros [] []. Qed.

(** C21: The form of a filtered account read names no field twice and has exactly the fields the
    request sets, each with its value's text; two requests with the same form are the same
    request, up to the text its list of assets is joined to. *)
Theorem account_requests_faithful :
  (∀ r, form_states (open_orders_params r) (open_orders_fields r)) ∧
  (∀ r, form_states (closed_orders_params r) (closed_orders_fields r)) ∧
  (∀ r, form_states (ledgers_params r) (ledgers_fields r)) ∧
  (∀ r, form_states (trades_history_params r) (trades_history_fields r)) ∧
  (∀ r r', open_orders_params r = open_orders_params r' → r = r') ∧
  (∀ r r', closed_orders_params r = closed_orders_params r' → r = r') ∧
  (∀ r r', trades_history_params r = trades_history_params r' → r = r') ∧
  (∀ r r', ledgers_params r = ledgers_params r' → lq_asset r = lq_asset r' → r = r').
Proof.
  split_and!; [apply open_orders_form|apply closed_orders_form|apply ledgers_form
    |apply trades_history_form|..]; intros r r' He.
  - pose proof (open_orders_form r) as H. rewrite He in H.
    pose proof (form_fields _ _ _ H (open_orders_form r') eq_refl) as Hf.
    destruct r, r'. injection Hf. intros. by simplify_eq.
  - pose proof (closed_orders_form r) as H. rewrite He in H.
    pose proof (form_fields _ _ _ H (closed_orders_form r') eq_refl) as Hf.
    destruct r, r'. injection Hf. intros. by simplify_eq.
  - pose proof (trades_history_form r) as H. rewrite He in H.
    pose proof (form_fields _ _ _ H (trades_history_form r') eq_refl) as Hf.
    destruct r as [? ? ? ? ? []], r' as [? ? ? ? ? []]; injection Hf; intros; by simplify_eq.
  - intros Ha. pose proof (ledgers_form r) as H. rewrite He in H.
    pose proof (form_fields _ _ _ H (ledgers_form r') eq_refl) as Hf.
    destruct r, r'. cbn in Ha. injection Hf. intros. by simplify_eq.
Qed.

Definition sample_closed : ClosedOrdersRequest :=
  co_with_closetime CloseTimeClose (co_with_ofs 50 (co_with_userref (-3) closed_orders_default)).

Lemma account_requests_faithful_witness :
  closed_orders_params sample_closed =
    [("trades", "false"); ("userref", "-3"); ("ofs", "50"); ("closetime", "close")] ∧
  mkClosedOrders false (Some (-3)%Z) None None (Some 50%N) (Some CloseTimeClose) None = sample_closed.
Proof.
  split; [by vm_compute|].
  apply (proj1 (proj2 (proj2 (proj2 (proj2 (proj2 account_requests_faithful)))))). by vm_compute.
Defined.
