(* ===== verification/Streams.v ===== *)
(** * Streams: the payloads of the data channels

    [rust/src/api/ws_decode.rs], [api/market/{ws,ws_types}.rs] and [api/account/ws_types.rs]:
    what a channel's entry decodes to, and which updates a handler is called with.
    Registering the handlers is in [SubscriptionSurface].  The decoders serde derives for the
    raw entries are parameters; a logged warning is left out. *)

From Stdlib Require Import Ascii String.
From S2P Require Import Prelude F64 Types Events Errors Rest ConfigResolver Dispatch TradeError WireTime OrderTypes Book ReadErrors Market.
Local Open Scope string_scope.
Local Open Scope N_scope.

(** ** [ws_decode.rs] *)

Definition extract_data (v : Json) : option Json :=
  match v with JObject _ => json_get "data" v | _ => None end.

(** A handler's two halves: the decoder, [None] for a decode failure, and whether the user's
    callback is called with what it decoded. *)
Record HandlerCallback (T : Type) := mkCallback {
  hc_decoder : Json → option T;
  hc_invoke : T → bool;
}.
Arguments mkCallback {T}.
Arguments hc_decoder {T} _.
Arguments hc_invoke {T} _.

Definition wrap_typed {T} (invoke : T → bool) (decode : Json → option T) : HandlerCallback T :=
  mkCallback decode invoke.

(** The update the user's callback sees for an envelope. *)
Definition seen {T} (h : HandlerCallback T) (v : Json) : option T :=
  t ← hc_decoder h v; if hc_invoke h t then Some t else None.

(** ** [market/ws_types.rs] *)

Section Streams.
Context {D : Type} (rd : Readers D) (uuid_parses : string → bool).

(** A null is absent, any other shape that is no decimal is dropped. *)
Definition parse_wire_decimal (v : Json) : option D :=
  match v with
  | JNull => None
  | _ => match decimal_from_value rd v with inr d => Some d | inl _ => None end
  end.

Definition wire_symbol (s : string) : option Symbol :=
  match symbol_new s with inr sym => Some sym | inl _ => None end.

Record RawTradeData := mkRawTradeData {
  rtd_symbol : string; rtd_side : TradeSide; rtd_price : Json; rtd_qty : Json;
  rtd_ord_type : string; rtd_trade_id : N; rtd_timestamp : string;
}.
Record TradeUpdate := mkTradeUpdate {
  tu_symbol : Symbol; tu_side : TradeSide; tu_price : D; tu_qty : D; tu_ord_type : string;
  tu_trade_id : N; tu_timestamp : string;
}.

Record RawOhlcData := mkRawOhlcData {
  rod_symbol : string; rod_open : Json; rod_high : Json; rod_low : Json; rod_close : Json;
  rod_trades : N; rod_volume : Json; rod_vwap : Json; rod_interval_begin : string;
  rod_interval : N;
}.
Record OhlcUpdate := mkOhlcUpdate {
  ou_symbol : Symbol; ou_open : D; ou_high : D; ou_low : D; ou_close : D; ou_trades : N;
  ou_volume : D; ou_vwap : D; ou_interval_begin : string; ou_interval : N;
}.

Record RawTickerUpdate := mkRawTickerUpdate {
  rtu_symbol : string; rtu_bid : Json; rtu_bid_qty : Json; rtu_ask : Json; rtu_ask_qty : Json;
  rtu_last : Json; rtu_volume : Json; rtu_vwap : Json; rtu_low : Json; rtu_high : Json;
  rtu_change : Json; rtu_change_pct : Json; rtu_timestamp : string;
}.
Record TickerUpdate := mkTickerUpdate {
  tku_symbol : Symbol; tku_bid : D; tku_bid_qty : D; tku_ask : D; tku_ask_qty : D; tku_last : D;
  tku_volume : D; tku_vwap : D; tku_low : D; tku_high : D; tku_change : D; tku_change_pct : D;
  tku_timestamp : string;
}.

(** [TickerUpdate::from_wire]; what is wrong is dropped by its one caller. *)
Definition ticker_from_wire (raw : RawTickerUpdate) : option TickerUpdate :=
  let parse_field v := match decimal_from_value rd v with inr d => Some d | inl _ => None end in
  symbol ← wire_symbol (rtu_symbol raw);
  bid ← parse_field (rtu_bid raw);
  bid_qty ← parse_field (rtu_bid_qty raw);
  ask ← parse_field (rtu_ask raw);
  ask_qty ← parse_field (rtu_ask_qty raw);
  last ← parse_field (rtu_last raw);
  volume ← parse_field (rtu_volume raw);
  vwap ← parse_field (rtu_vwap raw);
  low ← parse_field (rtu_low raw);
  high ← parse_field (rtu_high raw);
  change ← parse_field (rtu_change raw);
  change_pct ← parse_field (rtu_change_pct raw);
  Some (mkTickerUpdate symbol bid bid_qty ask ask_qty last volume vwap low high change change_pct
          (rtu_timestamp raw)).

Record RawSystemStatusUpdate := mkRawStatusUpdate {
  rsu_system : option string; rsu_version : option string; rsu_api_version : option string;
  rsu_connection_id : option Json;
}.
Record SystemStatusUpdate := mkStatusUpdate {
  su_system : option string; su_version : option string; su_api_version : option string;
  su_connection_id : option N;
}.

(** ** [account/ws_types.rs] *)

Inductive ExecType :=
  | ExPendingNew | ExNew | ExTrade | ExFilled | ExIcebergRefill | ExCanceled | ExExpired
  | ExRestated | ExStatus | ExAmended | ExUnknown.

#[export] Instance ExecType_eq_dec : EqDecision ExecType.
Proof using. solve_decision. Defined.

Inductive WsOrderStatus :=
  | WsPendingNew | WsNew | WsPartiallyFilled | WsFilled | WsCanceled | WsExpired | WsStatusUnknown.

Record RawExecution := mkRawExecution {
  rx_exec_type : ExecType; rx_order_id : option string; rx_cl_ord_id : option string;
  rx_symbol : option string; rx_side : option string; rx_order_type : option string;
  rx_order_status : option WsOrderStatus; rx_time_in_force : option string;
  rx_exec_id : option string; rx_trade_id : option Json; rx_timestamp : option string;
  rx_cancel_reason : option string; rx_reason : option string; rx_liquidity_ind : option string;
  rx_order_qty : option Json; rx_limit_price : option Json; rx_cum_qty : option Json;
  rx_cum_cost : option Json; rx_avg_price : option Json; rx_last_qty : option Json;
  rx_last_price : option Json; rx_fee_usd_equiv : option Json; rx_cost : option Json;
  rx_fees : option Json;
}.

Record ExecutionFee := mkExecutionFee { fee_asset : string; fee_qty : D }.

Record ExecutionUpdate := mkExecution {
  ex_exec_type : ExecType; ex_order_id : option string; ex_cl_ord_id : option string;
  ex_symbol : option Symbol; ex_side : option Side; ex_order_type : option string;
  ex_order_status : option WsOrderStatus; ex_time_in_force : option string;
  ex_exec_id : option string; ex_trade_id : option N; ex_timestamp : option string;
  ex_cancel_reason : option string; ex_reason : option string; ex_liquidity_ind : option string;
  ex_order_qty : option D; ex_limit_price : option D; ex_cum_qty : option D;
  ex_cum_cost : option D; ex_avg_price : option D; ex_last_qty : option D;
  ex_last_price : option D; ex_fee_usd_equiv : option D; ex_cost : option D;
  ex_fees : option (list ExecutionFee);
}.

Definition is_fill (u : ExecutionUpdate) : bool :=
  match ex_exec_type u with ExTrade | ExFilled => true | _ => false end.

Record RawWallet := mkRawWallet {
  rw_wallet_type : option string; rw_id : option string; rw_balance : option Json;
}.
Record Wallet := mkWallet {
  wl_wallet_type : option string; wl_id : option string; wl_balance : option D;
}.

Record RawBalance := mkRawBalance {
  rb_asset : option string; rb_asset_class : option string; rb_balance : option Json;
  rb_wallets : option (list RawWallet); rb_amount : option Json; rb_fee : option Json;
  rb_ledger_id : option string; rb_ref_id : option string; rb_timestamp : option string;
  rb_ledger_type : option string; rb_subtype : option string; rb_category : option string;
  rb_wallet_type : option string; rb_wallet_id : option string;
}.
Record BalanceUpdate := mkBalanceUpdate {
  bu_asset : option string; bu_asset_class : option string; bu_balance : option D;
  bu_wallets : option (list Wallet); bu_amount : option D; bu_fee : option D;
  bu_ledger_id : option string; bu_ref_id : option string; bu_timestamp : option string;
  bu_ledger_type : option string; bu_subtype : option string; bu_category : option string;
  bu_wallet_type : option string; bu_wallet_id : option string;
}.

(** The decoders serde derives, and the book entry's. *)
Record StreamDecoders := mkStreamDecoders {
  from_raw_ticker : Json → option RawTickerUpdate;
  from_raw_status : Json → option RawSystemStatusUpdate;
  from_raw_trade : Json → option RawTradeData;
  from_raw_ohlc : Json → option RawOhlcData;
  from_raw_book : Json → option RawBookData;
  from_raw_execution : Json → option RawExecution;
  from_raw_balance : Json → option RawBalance;
}.
Context (dec : StreamDecoders).

(** ** [market/ws.rs] *)

Definition decode_ticker (v : Json) : option TickerUpdate :=
  data ← extract_data v;
  raw ← from_raw_ticker dec data;
  ticker_from_wire raw.

Definition decode_system_status (v : Json) : option SystemStatusUpdate :=
  data ← extract_data v;
  raw ← from_raw_status dec data;
  Some (mkStatusUpdate (rsu_system raw) (rsu_version raw) (rsu_api_version raw)
          (rsu_connection_id raw ≫= json_as_u64)).

(** [Decimal::from_str] for the book. *)
Definition book_decimal (s : string) : option D :=
  match dec_parse rd s with inr d => Some d | inl _ => None end.

Definition parse_book_frame_owned (data : Json) : option (@ParsedBook D) :=
  from_raw_book dec data ≫= parse_raw book_decimal.

Definition book_level_from (l : @PriceLevel D) : @BookLevel D := mkBookLevel (price l) (qty l).

Definition decode_book (v : Json) : option (@OrderBookUpdate D) :=
  data ← extract_data v;
  parsed ← parse_book_frame_owned data;
  symbol ← wire_symbol (parsed_symbol parsed);
  Some (mkUpdate symbol (map book_level_from (parsed_bids parsed))
          (map book_level_from (parsed_asks parsed)) (parsed_checksum parsed) None
          (parsed_timestamp parsed)).

Record BookDelta := mkDelta {
  bd_symbol : Symbol; bd_bids : list (@PriceLevel D); bd_asks : list (@PriceLevel D);
  bd_checksum : N; bd_is_snapshot : bool; bd_timestamp : option MonotonicInstant;
  bd_exchange_timestamp : string;
}.

Definition decode_book_raw (v : Json) : option BookDelta :=
  let is_snapshot := match json_get "type" v ≫= json_as_str with
                     | Some t => String.eqb t "snapshot"
                     | None => false
                     end in
  data ← extract_data v;
  parsed ← parse_book_frame_owned data;
  symbol ← wire_symbol (parsed_symbol parsed);
  Some (mkDelta symbol (parsed_bids parsed) (parsed_asks parsed) (parsed_checksum parsed)
          is_snapshot None (parsed_timestamp parsed)).

Definition decode_trade (v : Json) : option TradeUpdate :=
  data ← extract_data v;
  raw ← from_raw_trade dec data;
  price ← parse_wire_decimal (rtd_price raw);
  qty ← parse_wire_decimal (rtd_qty raw);
  symbol ← wire_symbol (rtd_symbol raw);
  Some (mkTradeUpdate symbol (rtd_side raw) price qty (rtd_ord_type raw) (rtd_trade_id raw)
          (rtd_timestamp raw)).

Definition decode_ohlc (v : Json) : option OhlcUpdate :=
  data ← extract_data v;
  raw ← from_raw_ohlc dec data;
  o ← parse_wire_decimal (rod_open raw);
  h ← parse_wire_decimal (rod_high raw);
  l ← parse_wire_decimal (rod_low raw);
  c ← parse_wire_decimal (rod_close raw);
  volume ← parse_wire_decimal (rod_volume raw);
  vwap ← parse_wire_decimal (rod_vwap raw);
  symbol ← wire_symbol (rod_symbol raw);
  Some (mkOhlcUpdate symbol o h l c (rod_trades raw) volume vwap (rod_interval_begin raw)
          (rod_interval raw)).

(** [HasSymbol] *)
Class HasSymbol (T : Type) := symbol_of : T → Symbol.
#[export] Instance ticker_has_symbol : HasSymbol TickerUpdate := tku_symbol.
#[export] Instance book_has_symbol : HasSymbol (@OrderBookUpdate D) := update_symbol.
#[export] Instance delta_has_symbol : HasSymbol BookDelta := bd_symbol.
#[export] Instance trade_has_symbol : HasSymbol TradeUpdate := tu_symbol.
#[export] Instance ohlc_has_symbol : HasSymbol OhlcUpdate := ou_symbol.

Definition filter_by_pairs {T} `{HasSymbol T} (want : list Symbol) (update : T) : bool :=
  bool_decide (symbol_of update ∈ want).

(** The callback of [register_and_subscribe]. *)
Definition wrap_for_pairs {T} `{HasSymbol T} (decode : Json → option T) (want : list Symbol)
  : HandlerCallback T :=
  wrap_typed (filter_by_pairs want) decode.

(** ** The account channels *)

Definition parse_opt_dec (o : option Json) : option D := o ≫= parse_wire_decimal.

Definition execution_side (s : string) : option Side :=
  if decide (s = "buy") then Some Buy else if decide (s = "sell") then Some Sell else None.

Definition execution_fee (f : Json) : option ExecutionFee :=
  asset ← json_get "asset" f ≫= json_as_str;
  qty ← json_get "qty" f ≫= parse_wire_decimal;
  Some (mkExecutionFee (asset_code_from_wire asset) qty).

(** The entries that parse, if any. *)
Definition execution_fees (v : Json) : option (list ExecutionFee) :=
  match v with
  | JArray arr => match omap execution_fee arr with [] => None | parsed => Some parsed end
  | _ => None
  end.

Definition execution_of (raw : RawExecution) : ExecutionUpdate := {|
  ex_exec_type := rx_exec_type raw;
  ex_order_id := rx_order_id raw;
  ex_cl_ord_id := rx_cl_ord_id raw ≫= λ s,
    match cl_ord_id_new uuid_parses s with inr id => Some id | inl _ => None end;
  ex_symbol := rx_symbol raw ≫= wire_symbol;
  ex_side := rx_side raw ≫= execution_side;
  ex_order_type := rx_order_type raw;
  ex_order_status := rx_order_status raw;
  ex_time_in_force := rx_time_in_force raw;
  ex_exec_id := rx_exec_id raw;
  ex_trade_id := rx_trade_id raw ≫= json_as_u64;
  ex_timestamp := rx_timestamp raw;
  ex_cancel_reason := rx_cancel_reason raw;
  ex_reason := rx_reason raw;
  ex_liquidity_ind := rx_liquidity_ind raw;
  ex_order_qty := parse_opt_dec (rx_order_qty raw);
  ex_limit_price := parse_opt_dec (rx_limit_price raw);
  ex_cum_qty := parse_opt_dec (rx_cum_qty raw);
  ex_cum_cost := parse_opt_dec (rx_cum_cost raw);
  ex_avg_price := parse_opt_dec (rx_avg_price raw);
  ex_last_qty := parse_opt_dec (rx_last_qty raw);
  ex_last_price := parse_opt_dec (rx_last_price raw);
  ex_fee_usd_equiv := parse_opt_dec (rx_fee_usd_equiv raw);
  ex_cost := parse_opt_dec (rx_cost raw);
  ex_fees := rx_fees raw ≫= execution_fees;
|}.

Definition decode_executions (v : Json) : option ExecutionUpdate :=
  data ← extract_data v;
  raw ← from_raw_execution dec data;
  Some (execution_of raw).

Definition wallet_of (w : RawWallet) : Wallet :=
  mkWallet (rw_wallet_type w) (rw_id w) (parse_opt_dec (rw_balance w)).

Definition decode_balances (v : Json) : option BalanceUpdate :=
  data ← extract_data v;
  raw ← from_raw_balance dec data;
  Some (mkBalanceUpdate (asset_code_from_wire <$> rb_asset raw) (rb_asset_class raw)
          (parse_opt_dec (rb_balance raw)) (map wallet_of <$> rb_wallets raw)
          (parse_opt_dec (rb_amount raw)) (parse_opt_dec (rb_fee raw)) (rb_ledger_id raw)
          (rb_ref_id raw) (rb_timestamp raw) (rb_ledger_type raw) (rb_subtype raw)
          (rb_category raw) (rb_wallet_type raw) (rb_wallet_id raw)).
End Streams.

(** ** What is delivered *)

Section Delivery.
Context {D : Type} (rd : Readers D) (dec : StreamDecoders).

Lemma execution_fees_none v :
  execution_fees rd v = None ↔ ∀ arr f, v = JArray arr → f ∈ arr → execution_fee rd f = None.
Proof.
  destruct v as [| | | |arr|]; try (split; [congruence|done]). cbn. split.
  - intros He arr' f [= <-] Hf. destruct (execution_fee rd f) as [fee|] eqn:Hx; [|done].
    assert (fee ∈ omap (execution_fee rd) arr) as Hin by (apply list_elem_of_omap; eauto).
    destruct (omap _ arr); [by apply elem_of_nil in Hin|done].
  - intros H. destruct (omap (execution_fee rd) arr) as [|fee fees] eqn:He; [done|].
    assert (fee ∈ omap (execution_fee rd) arr) as Hin by (rewrite He; left).
    apply list_elem_of_omap in Hin as (f & Hf & Hx). by rewrite (H arr f) in Hx.
Qed.

Lemma execution_fees_some v fees :
  execution_fees rd v = Some fees →
  fees ≠ [] ∧ ∃ arr, v = JArray arr ∧ fees = omap (execution_fee rd) arr.
Proof.
  destruct v as [| | | |arr|]; try done. cbn. destruct (omap _ arr) eqn:He; [done|].
  intros [= <-]. split; [done|]. by exists arr.
Qed.

(** The raw channel and the book channel read the same frames. *)
Lemma book_of_delta v b :
  decode_book rd dec v = Some b ↔
  ∃ d, decode_book_raw rd dec v = Some d ∧
    b = mkUpdate (bd_symbol d) (map book_level_from (bd_bids d)) (map book_level_from (bd_asks d))
          (bd_checksum d) (bd_timestamp d) (bd_exchange_timestamp d).
Proof.
  unfold decode_book, decode_book_raw.
  destruct (extract_data v) as [data|]; cbn; [|naive_solver].
  destruct (parse_book_frame_owned rd dec data) as [p|]; cbn; [|naive_solver].
  destruct (wire_symbol (parsed_symbol p)) as [s|]; cbn; naive_solver.
Qed.

Lemma seen_for_pairs {T} `{HasSymbol T} (decode : Json → option T) want v t :
  seen (wrap_for_pairs decode want) v = Some t ↔ decode v = Some t ∧ symbol_of t ∈ want.
Proof.
  unfold seen, wrap_for_pairs, filter_by_pairs. cbn. destruct (decode v) as [u|]; cbn; [|naive_solver].
  case_bool_decide; naive_solver.
Qed.
End Delivery.

(** A handler subscribed for some pairs sees exactly the updates that decode and are for one
    of them; the maintained and the raw book channel decode the same frames to the same
    levels.  An execution entry is never lost to a field it does not need: it is delivered
    whenever its derived shape decodes, its fill status is that of its type, its fees are
    exactly the fee entries that parse, in order, and absent when none does, and a symbol is
    given only when it is valid. *)
Theorem stream_updates_faithful {D} (rd : Readers D) uuid_parses dec v want :
  (∀ t, seen (wrap_for_pairs (decode_ticker rd dec) want) v = Some t ↔
     decode_ticker rd dec v = Some t ∧ tku_symbol t ∈ want) ∧
  (∀ t, seen (wrap_for_pairs (decode_trade rd dec) want) v = Some t ↔
     decode_trade rd dec v = Some t ∧ tu_symbol t ∈ want) ∧
  (∀ t, seen (wrap_for_pairs (decode_ohlc rd dec) want) v = Some t ↔
     decode_ohlc rd dec v = Some t ∧ ou_symbol t ∈ want) ∧
  (∀ b, seen (wrap_for_pairs (decode_book rd dec) want) v = Some b ↔
     ∃ d, seen (wrap_for_pairs (decode_book_raw rd dec) want) v = Some d ∧
       b = mkUpdate (bd_symbol d) (map book_level_from (bd_bids d))
             (map book_level_from (bd_asks d)) (bd_checksum d) (bd_timestamp d)
             (bd_exchange_timestamp d)) ∧
  (∀ data raw, extract_data v = Some data → from_raw_execution dec data = Some raw →
     ∃ u, decode_executions rd uuid_parses dec v = Some u ∧
       is_fill u = bool_decide (rx_exec_type raw = ExTrade ∨ rx_exec_type raw = ExFilled) ∧
       (∀ s, ex_symbol u = Some s ↔ ∃ text, rx_symbol raw = Some text ∧ symbol_new text = inr s) ∧
       (∀ fees, ex_fees u = Some fees →
          fees ≠ [] ∧ ∃ arr, rx_fees raw = Some (JArray arr) ∧ fees = omap (execution_fee rd) arr) ∧
       (ex_fees u = None →
          ∀ arr f, rx_fees raw = Some (JArray arr) → f ∈ arr → execution_fee rd f = None)).
Proof.
  split_and!.
  - exact (seen_for_pairs (decode_ticker rd dec) want v).
  - exact (seen_for_pairs (decode_trade rd dec) want v).
  - exact (seen_for_pairs (decode_ohlc rd dec) want v).
  - intros b. rewrite seen_for_pairs, book_of_delta. split.
    + intros [(d & Hd & ->) Hs]. exists d. split; [by apply seen_for_pairs|done].
    + intros (d & [Hd Hs]%seen_for_pairs & ->). split; [by exists d|exact Hs].
  - intros data raw Hd Hr. eexists. unfold decode_executions. rewrite Hd. cbn. rewrite Hr. cbn. split; [done|].
    split_and!; cbn [ex_symbol ex_fees execution_of].
    + unfold is_fill. cbn. destruct (rx_exec_type raw); reflexivity.
    + intros s. destruct (rx_symbol raw) as [text|]; cbn;
        [|split; [done|by intros (? & [=] & _)]].
      unfold wire_symbol. destruct (symbol_new text) as [e|sym] eqn:Hn.
      * split; [done|]. intros (? & [= <-] & Hs). congruence.
      * split; [intros [= <-]; by exists text|]. intros (? & [= <-] & Hs). congruence.
    + intros fees. destruct (rx_fees raw) as [f|]; cbn; [|done].
      intros (Hne & arr & -> & ->)%execution_fees_some. by eauto.
    + destruct (rx_fees raw) as [f|]; cbn; [|done]. intros Hn arr f' [= ->] Hf'.
      by apply (proj1 (execution_fees_none _ _) Hn arr).
Qed.

(** A fill with two fee entries, one of which is no amount. *)
Definition sample_execution : RawExecution := {|
  rx_exec_type := ExTrade; rx_order_id := Some "O"; rx_cl_ord_id := None;
  rx_symbol := Some "BTC/USD"; rx_side := Some "hold"; rx_order_type := None;
  rx_order_status := None; rx_time_in_force := None; rx_exec_id := None;
  rx_trade_id := Some (JString "x"); rx_timestamp := None; rx_cancel_reason := None;
  rx_reason := None; rx_liquidity_ind := None; rx_order_qty := None; rx_limit_price := None;
  rx_cum_qty := None; rx_cum_cost := None; rx_avg_price := None; rx_last_qty := None;
  rx_last_price := None; rx_fee_usd_equiv := None; rx_cost := Some JNull;
  rx_fees := Some (JArray [JObject [("asset", JString "ZUSD"); ("qty", JNumber "0.5")];
                           JObject [("asset", JString "XXBT"); ("qty", JNull)]]);
|}.

Definition sample_stream_decoders : StreamDecoders :=
  mkStreamDecoders (λ _, None) (λ _, None) (λ _, None) (λ _, None) (λ _, None)
    (λ _, Some sample_execution) (λ _, None).

Lemma stream_updates_faithful_witness :
  let rd := mkReaders (λ s, inr s) (λ _, "") (λ _, "") : Readers string in
  let v := JObject [("data", JNull); ("type", JString "update")] in
  ∃ u, decode_executions rd (λ _, false) sample_stream_decoders v = Some u ∧ is_fill u = true ∧
    ex_fees u = Some [mkExecutionFee "USD" "0.5"] ∧ ex_side u = None ∧ ex_symbol u = Some "BTC/USD".
Proof.
  intros rd v.
  destruct (stream_updates_faithful rd (λ _, false) sample_stream_decoders v []) as (_ & _ & _ & _ & H).
  destruct (H JNull sample_execution eq_refl eq_refl) as (u & Hu & Hfill & _).
  exists u. split; [exact Hu|]. split; [exact Hfill|].
  revert Hu. vm_compute. intros [= <-]. by vm_compute.
Defined.
