(* ===== verification/Lifecycle.v ===== *)
(** * Lifecycle: starting and closing a client

    [rust/src/build/client/accessors.rs] ([ready], [close]), [Drop] of
    [build/client/mod.rs] and [build/client/completion.rs].  A call of [ready] or [close] is a machine whose steps are atomic
    accesses and locks of the client and actions of [Correlated]; the machine of the bus
    runs beside them, so that deliveries, loop deaths and other awaits interleave with a
    call at every step. *)

From Stdlib Require Import Ascii String.
From S2P Require Import Prelude F64 Types Events EventBus RateBudget Knobs Errors Rest Dispatch TradeError Teardowns ReactorLoop Correlated.
Local Open Scope string_scope.
Local Open Scope N_scope.

(** ** [completion.rs] *)

Inductive ReadyError := ReadySpawnFailed | ReadyLoopFailed.

Definition ready_error_code (e : ReadyError) : string :=
  match e with ReadySpawnFailed => "REACTOR_SPAWN_FAILED" | ReadyLoopFailed => "LOOP_DEAD" end.

Definition ready_error_display (e : ReadyError) : string :=
  match e with
  | ReadySpawnFailed => "The client's internal loop could not be started."
  | ReadyLoopFailed =>
      "The client's internal loop has failed; the client is not ready. Rebuild the client."
  end.

Inductive CloseError := Interrupted.

Definition close_error_code (e : CloseError) : string := "CLOSE_INTERRUPTED".

Definition close_error_display (e : CloseError) : string :=
  "The client's internal loop has failed during shutdown; the connection drain may not have completed.".

Definition lifecycle_error_category : ErrorCategory := CatClient.
Definition lifecycle_error_retryable : bool := false.

(** [ready_completion] and [close_completion]: what the awaited envelope means; [None] is
    [LoopDead]. *)
Definition classify_ready (r : option EventEnvelope) : ReadyError + () :=
  match r with
  | Some e =>
      match payload e with
      | PClientReady _ => inr tt
      | PClientFailed ReactorSpawnFailed => inl ReadySpawnFailed
      | _ => inl ReadyLoopFailed
      end
  | None => inl ReadyLoopFailed
  end.

Definition classify_close (r : option EventEnvelope) : CloseError + () :=
  match r with
  | Some e => match payload e with PClientClosed _ _ => inr tt | _ => inl Interrupted end
  | None => inl Interrupted
  end.

(** ** [accessors.rs]: the events of a call *)

Definition classify_disarm_failure (e : TradeError) : option DeadmanDisarmCause :=
  match e with
  | RateLimited _ _ => Some DisarmRateLimitExceeded
  | TradeTransport kind _ _ =>
      Some (match kind with
            | TcpConnectTimeout | RequestSentNoResponse => DisarmTimeout
            | _ => DisarmNetworkError
            end)
  | _ => None
  end.

(** What the detached disarm task publishes on a failure, with one reading of the clock. *)
Definition disarm_failure_event (now : MonotonicInstant) (e : TradeError)
  : option EventEnvelope :=
  (λ cause, mkEnvelope DeadmanDisarmFailedEvent 1 now None (PDeadmanDisarmFailed cause None now))
    <$> classify_disarm_failure e.

Definition current_capability_snapshot : CapabilitySnapshot :=
  mkCapabilities [NsMarket; NsAccount; NsTrade; NsWs] [Public; Auth].

Definition ready_env (now : MonotonicInstant) (request_id : N) : EventEnvelope :=
  mkEnvelope ClientReady 1 now (Some request_id) (PClientReady current_capability_snapshot).

Definition failed_env (now : MonotonicInstant) (request_id : N) (cause : ClientFailureCause)
  : EventEnvelope :=
  mkEnvelope ClientFailed 1 now (Some request_id) (PClientFailed cause).

(** ** The calls *)

(** Why [ready] answers: the reactor runs already, its input is gone, or it is started. *)
Inductive ReadyBranch := BrRunning | BrNoInput | BrStart.

(** Where a call is.  [c] is its await, [i] the thread of its current call on the bus. *)
Inductive Pc :=
  | PcReadyLock | PcReadyStart
  | PcReadyArm (br : ReadyBranch) | PcReadyArming (br : ReadyBranch) (c : N)
  | PcReadyObserve (c : N) | PcReadyDelivering (br : ReadyBranch) (c : N) (i : nat)
  | PcReadyDone (c : N) (br : ReadyBranch)
  | PcCloseShutdown | PcCloseShuttingDown (i : nat) | PcCloseCheck
  | PcCloseNested (k : nat) | PcCloseNestedDrop (i : nat)
  | PcCloseArm | PcCloseArming (c : N) | PcClosePost (c : N)
  | PcCloseTake (c : N) | PcCloseDying (c : N) (i : nat)
  | PcDrop (c : option N) (refused : bool) | PcDropShuttingDown (c : option N) (refused : bool) (i : nat)
  | PcDropTake (c : option N) (refused : bool) | PcDropDying (c : option N) (refused : bool) (i : nat)
  | PcGone (c : option N) (refused : bool).

(** A call has its request id, and the clock when it drew it. *)
Record ClientCall := mkClientCall { cl_id : N; cl_initiated_at : MonotonicInstant; cl_pc : Pc }.

Inductive LifeEffect :=
  | IoSpawned (request_id : N)
  | DisarmSpawned
  | MarkerPosted (request_id : N) (initiated_at : MonotonicInstant)
  | MarkerRefused (request_id : N) (reject : PostReject)
  | IoAborted.

(** [io_reactor_handle] with its lock, [caller_to_io_rx], [next_client_request_id], the
    bus, and the calls. *)
Record LifeWorld := mkLife {
  lf_world : CorrelatedWorld;
  lf_handle : bool;
  lf_lock : option nat;
  lf_input : bool;
  lf_next_request : N;
  lf_calls : list ClientCall;
  lf_effects : list LifeEffect;
}.

Definition life_new : LifeWorld := mkLife (mkCWorld correlated_bus_new []) false None true 1 [] [].

Definition lf_bus (l : LifeWorld) : CorrelatedBus := cw_bus (lf_world l).

Definition with_pc (k : nat) (pc : Pc) (l : LifeWorld) : LifeWorld :=
  mkLife (lf_world l) (lf_handle l) (lf_lock l) (lf_input l) (lf_next_request l)
    (alter (λ c, mkClientCall (cl_id c) (cl_initiated_at c) pc) k (lf_calls l)) (lf_effects l).
Definition with_handle (h : bool) (l : LifeWorld) : LifeWorld :=
  mkLife (lf_world l) h (lf_lock l) (lf_input l) (lf_next_request l) (lf_calls l) (lf_effects l).
Definition with_lock (o : option nat) (l : LifeWorld) : LifeWorld :=
  mkLife (lf_world l) (lf_handle l) o (lf_input l) (lf_next_request l) (lf_calls l) (lf_effects l).
Definition without_input (l : LifeWorld) : LifeWorld :=
  mkLife (lf_world l) (lf_handle l) (lf_lock l) false (lf_next_request l) (lf_calls l) (lf_effects l).
Definition effect (x : LifeEffect) (l : LifeWorld) : LifeWorld :=
  mkLife (lf_world l) (lf_handle l) (lf_lock l) (lf_input l) (lf_next_request l) (lf_calls l)
    (lf_effects l ++ [x]).

Definition with_calls (next : N) (cs : list ClientCall) (l : LifeWorld) : LifeWorld :=
  mkLife (lf_world l) (lf_handle l) (lf_lock l) (lf_input l) next cs (lf_effects l).

Section Life.
Context (clock : CorrelatedBus → MonotonicInstant).

Definition on_bus (x : Action) (l : LifeWorld) : LifeWorld :=
  mkLife (act clock x (lf_world l)) (lf_handle l) (lf_lock l) (lf_input l) (lf_next_request l)
    (lf_calls l) (lf_effects l).

(** [fetch_add] of the request id and the clock, then a call at [pc]. *)
Definition begin_call (pc : Pc) (l : LifeWorld) : LifeWorld :=
  with_calls (u64_wrapping_add (lf_next_request l) 1)
    (lf_calls l ++ [mkClientCall (lf_next_request l) (clock (lf_bus l)) pc]) l.

(** The destructor draws no id. *)
Definition begin_drop (l : LifeWorld) : LifeWorld :=
  with_calls (lf_next_request l) (lf_calls l ++ [mkClientCall 0 0 (PcDrop None false)]) l.

(** The thread the next call on the bus gets, and whether one has returned. *)
Definition next_thread (l : LifeWorld) : nat := length (cw_threads (lf_world l)).
Definition returned (i : nat) (l : LifeWorld) : bool :=
  match cw_threads (lf_world l) !! i with Some [] => true | _ => false end.

(** [arm_correlated] has returned. *)
Definition armed (c : N) (l : LifeWorld) : bool :=
  match awaits (lf_bus l) !! c with
  | Some a => match aw_phase a with Armed => true | _ => false end
  | None => false
  end.

Definition arm (k : nat) (h : RequestHandle) (pc : N → Pc) (l : LifeWorld) : LifeWorld :=
  with_pc k (pc (next_await (lf_bus l))) (on_bus (ActAwait h true) l).

Definition deliver (k : nat) (br : ReadyBranch) (c : N) (e : EventEnvelope) (l : LifeWorld)
  : LifeWorld :=
  with_pc k (PcReadyDelivering br c (next_thread l)) (on_bus (ActDeliver e) l).

(** [ready], a step at a time; the lock is held until it returns. *)
Definition ready_step (k : nat) (call : ClientCall) (l : LifeWorld) : LifeWorld :=
  let id := cl_id call in
  let now := clock (lf_bus l) in
  match cl_pc call with
  | PcReadyLock =>
      match lf_lock l with
      | Some _ => l
      | None =>
          let l := with_lock (Some k) l in
          if lf_handle l then with_pc k (PcReadyArm BrRunning) l
          else if lf_input l then with_pc k PcReadyStart (without_input l)
          else with_pc k (PcReadyArm BrNoInput) l
      end
  | PcReadyStart => with_pc k (PcReadyArm BrStart) (on_bus ActStartDispatch l)
  | PcReadyArm br => arm k (mkRequestHandle id ExClientReady) (PcReadyArming br) l
  | PcReadyArming br c =>
      if armed c l then
        match br with
        | BrRunning => with_pc k (PcReadyObserve c) l
        | BrNoInput => deliver k BrNoInput c (failed_env now id ReactorSpawnFailed) l
        | BrStart =>
            with_pc k (PcReadyDone c BrStart)
              (with_lock None (with_handle true (effect (IoSpawned id) l)))
        end
      else l
  | PcReadyObserve c =>
      deliver k BrRunning c (if loop_death_observed (lf_bus l) then failed_env now id ClientLoopFailed
                   else ready_env now id) l
  | PcReadyDelivering br c i =>
      if returned i l then with_pc k (PcReadyDone c br) (with_lock None l) else l
  | _ => l
  end.

(** [on_loop_death] of the I/O loop, cancelled. *)
Definition io_cancelled : Action := ActLoopDeath LoopIo CauseCancelled.

(** [close], a step at a time, and the destructor of the client it consumes; [reject] is what
    the post of the marker answers. *)
Definition close_step (k : nat) (call : ClientCall) (reject : option PostReject) (l : LifeWorld)
  : LifeWorld :=
  let id := cl_id call in
  match cl_pc call with
  | PcCloseShutdown => with_pc k (PcCloseShuttingDown (next_thread l)) (on_bus ActBeginShutdown l)
  | PcCloseShuttingDown i => if returned i l then with_pc k PcCloseCheck l else l
  | PcCloseCheck =>
      match lf_lock l with
      | Some _ => l
      | None =>
          if lf_handle l then with_pc k PcCloseArm l
          else begin_call PcReadyLock (with_pc k (PcCloseNested (length (lf_calls l))) l)
      end
  | PcCloseNested k' =>
      match cl_pc <$> lf_calls l !! k' with
      | Some (PcReadyDone c _) => with_pc k (PcCloseNestedDrop (next_thread l)) (on_bus (ActDrop c) l)
      | _ => l
      end
  | PcCloseNestedDrop i => if returned i l then with_pc k PcCloseArm l else l
  | PcCloseArm => arm k (mkRequestHandle id ExClientClosed) PcCloseArming l
  | PcCloseArming c => if armed c l then with_pc k (PcClosePost c) (effect DisarmSpawned l) else l
  | PcClosePost c =>
      match reject with
      | None => with_pc k (PcCloseTake c) (effect (MarkerPosted id (cl_initiated_at call)) l)
      | Some r =>
          with_pc k (PcCloseDying c (next_thread l)) (on_bus io_cancelled (effect (MarkerRefused id r) l))
      end
  | PcCloseTake c =>
      match lf_lock l with
      | Some _ => l
      | None => with_pc k (PcDrop (Some c) false) (with_handle false l)
      end
  | PcCloseDying c i => if returned i l then with_pc k (PcDrop (Some c) true) l else l
  | PcDrop c refused =>
      with_pc k (PcDropShuttingDown c refused (next_thread l)) (on_bus ActBeginShutdown l)
  | PcDropShuttingDown c refused i => if returned i l then with_pc k (PcDropTake c refused) l else l
  | PcDropTake c refused =>
      match lf_lock l with
      | Some _ => l
      | None =>
          if lf_handle l then
            with_pc k (PcDropDying c refused (next_thread l))
              (on_bus io_cancelled (effect IoAborted (with_handle false l)))
          else with_pc k (PcGone c refused) l
      end
  | PcDropDying c refused i => if returned i l then with_pc k (PcGone c refused) l else l
  | _ => l
  end.

Definition call_step (k : nat) (reject : option PostReject) (l : LifeWorld) : LifeWorld :=
  match lf_calls l !! k with
  | None => l
  | Some call =>
      match cl_pc call with
      | PcReadyLock | PcReadyStart | PcReadyArm _ | PcReadyArming _ _ | PcReadyObserve _
      | PcReadyDelivering _ _ _ | PcReadyDone _ _ => ready_step k call l
      | _ => close_step k call reject l
      end
  end.

Inductive LifeAction :=
  | LReady
  | LClose
  | LDrop
  | LStep (k : nat) (reject : option PostReject)
  | LBus (x : Action).

Definition life_act (x : LifeAction) (l : LifeWorld) : LifeWorld :=
  match x with
  | LReady => begin_call PcReadyLock l
  | LClose => begin_call PcCloseShutdown l
  | LDrop => begin_drop l
  | LStep k reject => call_step k reject l
  | LBus x => on_bus x l
  end.

Definition run_life (xs : list LifeAction) : LifeWorld := fold_left (λ l x, life_act x l) xs life_new.
End Life.
