(* ===== verification/LifecycleProps.v ===== *)
(** * LifecycleProps: a client's start is answered and its close told *)

From Stdlib Require Import Ascii String.
From S2P Require Import Prelude F64 Types Events EventBus RateBudget Knobs Errors Rest Dispatch TradeError Teardowns ReactorLoop Correlated CorrelatedInv CorrelatedProps Lifecycle.
Local Open Scope N_scope.

(** ** What no step of the bus takes back *)

Definition arming (p : AwaitPhase) : bool :=
  match p with ArmingSuccess | ArmingFailure | ArmingDone => true | _ => false end.

(** An await lasts with its request and is armed once; the flags of a death, a shutdown and
    the start of the dispatch loop stay; an armed await is registered nowhere anew. *)
Record progresses (b b' : CorrelatedBus) : Prop := mkProgress {
  pg_await c a : awaits b !! c = Some a →
    ∃ a', awaits b' !! c = Some a' ∧ aw_request a' = aw_request a ∧
      (arming (aw_phase a) = false → arming (aw_phase a') = false);
  pg_committed : death_committed (correlated b) = true → death_committed (correlated b') = true;
  pg_shutting : shutting_down b = true → shutting_down b' = true;
  pg_started : dispatch_reactor_state b ≠ NotStarted → dispatch_reactor_state b' ≠ NotStarted;
  pg_live c a key r : awaits b !! c = Some a → arming (aw_phase a) = false → os_cell r = c →
    is_live (live (correlated b')) key r → is_live (live (correlated b)) key r;
}.

#[local] Instance progresses_refl : Reflexive progresses.
Proof. intros b. split; eauto. Qed.

#[local] Instance progresses_trans : Transitive progresses.
Proof.
  intros b1 b2 b3 [A1 C1 S1 D1 L1] [A2 C2 S2 D2 L2]. split; auto.
  - intros c a Ha. destruct (A1 c a Ha) as (a' & Ha' & Hr & Hp).
    destruct (A2 c a' Ha') as (a'' & Ha'' & Hr' & Hp'). exists a''.
    split_and!; [done|congruence|auto].
  - intros c a key r Ha Hp Hr Hl. destruct (A1 c a Ha) as (a' & Ha' & _ & Hp').
    eapply L1; [done..|]. eapply L2; eauto.
Qed.

(** The awaits and flags stay, and nothing is registered. *)
Lemma progresses_same b b' :
  awaits b' = awaits b →
  (death_committed (correlated b) = true → death_committed (correlated b') = true) →
  (shutting_down b = true → shutting_down b' = true) →
  (dispatch_reactor_state b ≠ NotStarted → dispatch_reactor_state b' ≠ NotStarted) →
  (∀ key r, is_live (live (correlated b')) key r → is_live (live (correlated b)) key r) →
  progresses b b'.
Proof. intros Ha Hc Hs Hd Hl. split; auto. intros c a. rewrite Ha. eauto. Qed.

(** A change of one await that keeps its request and does not arm it again. *)
Lemma progresses_await c a a' b :
  awaits b !! c = Some a → aw_request a' = aw_request a →
  (arming (aw_phase a) = false → arming (aw_phase a') = false) →
  progresses b (with_awaits (<[c := a']> (awaits b)) b).
Proof.
  intros Ha Hr Hp. split; auto. intros d x Hx. cbn. destruct (decide (d = c)) as [->|Hne].
  - rewrite lookup_insert_eq. exists a'. simplify_eq. eauto.
  - rewrite lookup_insert_ne by done. eauto.
Qed.

Lemma progresses_on_await c (f : Await → Await) b :
  (∀ a, awaits b !! c = Some a → aw_request (f a) = aw_request a ∧
        (arming (aw_phase a) = false → arming (aw_phase (f a)) = false)) →
  progresses b (on_await c f b).
Proof.
  intros Hf. destruct (awaits b !! c) as [a|] eqn:Ha.
  - rewrite (on_await_insert c f b a Ha). destruct (Hf a eq_refl). by eapply progresses_await.
  - apply progresses_same; auto. unfold on_await. cbn. by rewrite alter_id; [|congruence].
Qed.

Lemma progresses_note n b : progresses b (note n b).
Proof. by apply progresses_same. Qed.

Lemma progresses_fire e r b : progresses b (fire_correlated e r b).2.
Proof.
  unfold fire_correlated. destruct (_ <? _); [done|].
  destruct (awaits b !! os_cell r) as [a|] eqn:Ha; [|done].
  destruct (send_arm e (aw_cell a)) as [[] cell]; cbn; [|by eapply progresses_await].
  etrans; [by eapply (progresses_await (os_cell r) a (set_cell cell a))|apply progresses_note].
Qed.

Lemma progresses_fire_death e r b : progresses b (fire_death e r b).
Proof.
  unfold fire_death. destruct (awaits b !! os_cell r) as [a|] eqn:Ha; [|done].
  destruct (send_arm e (aw_cell a)) as [[] cell]; cbn; [|by eapply progresses_await].
  etrans; [by eapply (progresses_await (os_cell r) a (set_cell cell a))|apply progresses_note].
Qed.

Lemma progresses_take_waiters key e b : progresses b (take_waiters key e b).2.
Proof.
  unfold take_waiters. destruct (live (correlated b) !! key) as [rs|] eqn:Hl.
  - apply progresses_same; auto. cbn. by intros k r [_ ?]%is_live_delete.
  - unfold latch_missed. cbn. by apply progresses_same.
Qed.

Lemma progresses_deliver e b : progresses b (deliver_correlated e b).2.
Proof.
  unfold deliver_correlated. destruct (request_id e); [|done].
  destruct (_ && _); [apply progresses_note|].
  etrans; [apply (progresses_note [NDelivered e])|apply progresses_take_waiters].
Qed.

Lemma progresses_relatch e b : progresses b (relatch_correlated e b).2.
Proof.
  unfold relatch_correlated. destruct (request_id e); [|done].
  destruct (death_purged _); [apply progresses_note|apply progresses_take_waiters].
Qed.

Lemma progresses_unsubscribe h b : progresses b (unsubscribe h b).
Proof. apply progresses_same; auto. intros key r. by intros [? _]%unsubscribe_live. Qed.

(** Registering an await that is still arming. *)
Lemma progresses_subscribe t key c b a :
  awaits b !! c = Some a → arming (aw_phase a) = true →
  progresses b (subscribe_correlated t key c b).2.
Proof.
  intros Ha Hp. unfold subscribe_correlated, take_missed. cbn [correlated missed].
  destruct (take_first (t, key) (missed (correlated b))) as [[e l]|]; cbn;
    [by apply progresses_same|].
  split; auto; cbn; [by eauto|].
  intros d x k r Hx Hpx Hr (rs & Hl & Hin). destruct (decide (k = (t, key))) as [->|Hne].
  - rewrite lookup_insert_eq in Hl. injection Hl as <-.
    apply elem_of_app in Hin as [Hin|Hin].
    + destruct (live (correlated b) !! (t, key)) as [rs|] eqn:E; [|by apply not_elem_of_nil in Hin].
      by exists rs.
    + apply list_elem_of_singleton in Hin as ->. cbn in Hr. subst d. simplify_eq. congruence.
  - rewrite lookup_insert_ne in Hl by done. by exists rs.
Qed.

Lemma progresses_arm_step c b : progresses b (arm_step c b).2.
Proof.
  unfold arm_step. destruct (awaits b !! c) as [a|] eqn:Ha; [|done].
  assert (∀ t (f : N → Await → Await), arming (aw_phase a) = true →
    (∀ id x, aw_request (f id x) = aw_request x) →
    progresses b (let '(id, fire, b) := subscribe_correlated t (handle_id (aw_request a)) c b in
                  (fire ++ [TArm c], on_await c (f id) b)).2) as Hsub.
  { intros t f Hp Hf. pose proof (progresses_subscribe t (handle_id (aw_request a)) c b a Ha Hp) as Hs.
    destruct (subscribe_correlated _ _ _ _) as [[id fire] b1] eqn:Es. cbn in *.
    apply subscribe_awaits in Es as [Ea _].
    etrans; [exact Hs|]. apply progresses_on_await. intros x Hx. rewrite Ea in Hx.
    simplify_eq. split; [done|congruence]. }
  destruct (aw_phase a) eqn:Hp; try done.
  - by apply (Hsub _ (λ id, set_success id)).
  - destruct (failure_event_type _) as [t|]; [by apply (Hsub _ (λ id, set_failure id))|].
    apply progresses_on_await. intros x Hx. simplify_eq. by rewrite Hp.
  - apply progresses_on_await. intros x Hx. simplify_eq. by rewrite Hp.
Qed.

Lemma progresses_check_death c b : progresses b (check_death_step c b).2.
Proof.
  unfold check_death_step. destruct (awaits b !! c) as [a|]; [|done].
  destruct (aw_phase a); try done.
  destruct (loop_death_observed b); by apply progresses_on_await.
Qed.

Lemma progresses_claim c b : progresses b (claim_step c b).
Proof.
  unfold claim_step. destruct (awaits b !! c) as [a|]; [|done].
  destruct (aw_phase a); try done. destruct (cell_tx _); by apply progresses_on_await.
Qed.

Lemma progresses_reclaim c b : progresses b (reclaim_step c b).2.
Proof.
  unfold reclaim_step. destruct (awaits b !! c) as [a|]; [|done].
  destruct (cell_tx _); [by apply progresses_on_await|].
  destruct (cell_slot _); [|done].
  etrans; [|apply progresses_note]. by apply progresses_on_await.
Qed.

Lemma progresses_task clock t b : progresses b (task_step clock t b).2.
Proof.
  destruct t; cbn [task_step].
  - apply progresses_arm_step.
  - pose proof (progresses_fire e r b) as H. destruct (fire_correlated e r b) as [[] b']; cbn in *.
    + etrans; [exact H|apply progresses_note].
    + done.
  - apply progresses_deliver.
  - destruct rs as [|r rs]; [destruct accepted; cbn; [apply progresses_note|done]|].
    pose proof (progresses_fire e r b) as H. by destruct (fire_correlated e r b).
  - apply progresses_relatch.
  - apply progresses_check_death.
  - apply progresses_claim.
  - apply progresses_unsubscribe.
  - apply progresses_reclaim.
  - by apply progresses_on_await.
  - repeat case_match; done.
  - repeat case_match; [by apply progresses_same|done].
  - destruct shutdown; by apply progresses_same.
  - by apply progresses_same.
  - destruct shutdown; by apply progresses_same.
  - destruct (loop_failed b); [done|by apply progresses_same].
  - by apply progresses_same.
  - apply progresses_same; auto. cbn. by intros key r (rs & ? & _).
  - destruct rs as [|[key r] rs]; [done|apply progresses_fire_death].
  - by apply progresses_same.
  - by apply progresses_same.
  - by apply progresses_same.
Qed.

Lemma progresses_owner c f w :
  (∀ a a' ts, awaits (cw_bus w) !! c = Some a → f a = Some (a', ts) →
     aw_request a' = aw_request a ∧ (arming (aw_phase a) = false → arming (aw_phase a') = false)) →
  progresses (cw_bus w) (cw_bus (owner c f w)).
Proof.
  intros Hf. unfold owner. destruct (awaits (cw_bus w) !! c) as [a|] eqn:Ha; [|done].
  destruct (f a) as [[a' ts]|] eqn:E; [|done]. cbn. destruct (Hf a a' ts eq_refl E).
  by eapply progresses_await.
Qed.

Lemma progresses_act clock x w : run_inv w → progresses (cw_bus w) (cw_bus (act clock x w)).
Proof.
  intros I. destruct x; cbn [act]; try done.
  - destruct (cw_threads w !! i) as [[|t rest]|]; [done| |done].
    pose proof (progresses_task clock t (cw_bus w)) as H. by destruct (task_step clock t (cw_bus w)).
  - cbn. split; auto; cbn.
    + intros c a Ha. exists a. rewrite lookup_insert_ne; [done|].
      pose proof (rec_await _ _ (ci_records _ _ (rn_world _ I)) _ _ Ha). lia.
  - apply progresses_owner. intros a a' ts _ E. destruct (aw_phase a) eqn:Hp; try done;
      repeat case_match; simplify_eq; (split; [done|cbn; by rewrite ?Hp]).
  - apply progresses_owner. intros a a' ts _ E. destruct (aw_phase a) eqn:Hp; try done;
      repeat case_match; simplify_eq; (split; [done|cbn; by rewrite ?Hp]).
  - apply progresses_owner. intros a a' ts _ E. destruct (aw_phase a) eqn:Hp; try done;
      repeat case_match; simplify_eq; (split; [done|cbn; by rewrite ?Hp]).
  - apply progresses_owner. intros a a' ts _ E. destruct (aw_phase a) eqn:Hp; try done;
      repeat case_match; simplify_eq; (split; [done|cbn; by rewrite ?Hp]).
  - destruct (decide _); [|done]. by apply progresses_same.
Qed.

(** ** What lasts under every action *)

(** A thread only moves by its own steps. *)
Lemma act_thread clock x w i ts :
  cw_threads w !! i = Some ts → x ≠ ActRun i → cw_threads (act clock x w) !! i = Some ts.
Proof.
  intros Hi Hx.
  assert (∀ ts', (cw_threads w ++ [ts']) !! i = Some ts) as Happ
    by (intros; by apply lookup_app_l_Some).
  assert (∀ c f, cw_threads (owner c f w) !! i = Some ts) as Hown.
  { intros c f. unfold owner. repeat case_match; cbn; auto. }
  destruct x; cbn [act]; try apply Hown; try apply Happ; [|done].
  destruct (cw_threads w !! i0) as [[|t rest]|] eqn:E; [done| |done].
  destruct (task_step clock t (cw_bus w)) as [ts' b']. cbn.
  rewrite list_lookup_insert_ne; [done|congruence].
Qed.

Lemma action_is_run x i : x = ActRun i ∨ x ≠ ActRun i.
Proof. destruct x as [j| | | | | | | | | |]; try (right; discriminate). destruct (decide (j = i)); [left|right]; congruence. Qed.

Lemma elem_of_threads (w : CorrelatedWorld) t :
  t ∈ concat (cw_threads w) ↔ ∃ i ts, cw_threads w !! i = Some ts ∧ t ∈ ts.
Proof.
  rewrite list_elem_of_In, in_concat. split.
  - intros (ts & Hts & Ht). apply list_elem_of_In in Hts, Ht.
    apply list_elem_of_lookup in Hts as [i Hi]. eauto.
  - intros (i & ts & Hi & Ht). exists ts. rewrite <-!list_elem_of_In.
    split; [by eapply list_elem_of_lookup_2|done].
Qed.

(** A task stays until it is run. *)
Lemma act_task clock x w t :
  t ∈ concat (cw_threads w) → t ∈ concat (cw_threads (act clock x w)) ∨
  ∃ i rest, x = ActRun i ∧ cw_threads w !! i = Some (t :: rest).
Proof.
  intros (i & ts & Hi & Ht)%elem_of_threads.
  destruct (action_is_run x i) as [->|Hx].
  2: { left. apply elem_of_threads. exists i, ts. split; [by apply act_thread|done]. }
  destruct ts as [|u rest]; [by apply not_elem_of_nil in Ht|].
  apply elem_of_cons in Ht as [->|Ht]; [right; by exists i, rest|left].
  cbn. rewrite Hi. destruct (task_step clock u (cw_bus w)) as [ts' b']. cbn.
  apply (elem_of_threads (mkCWorld b' (<[i := ts' ++ rest]> (cw_threads w)))). exists i, (ts' ++ rest). split.
  - apply list_lookup_insert_eq. by eapply lookup_lt_Some.
  - apply elem_of_app. by right.
Qed.

(** A predicate no action of the bus takes back. *)
Definition lasting (clock : CorrelatedBus → MonotonicInstant) (P : CorrelatedWorld → Prop) : Prop :=
  ∀ x w, run_inv w → P w → P (act clock x w).

Lemma lasting_and clock P Q : lasting clock P → lasting clock Q → lasting clock (λ w, P w ∧ Q w).
Proof. intros HP HQ x w I [? ?]. split; [by apply HP|by apply HQ]. Qed.

Definition requested (c : N) (h : RequestHandle) (w : CorrelatedWorld) : Prop :=
  ∃ a, awaits (cw_bus w) !! c = Some a ∧ aw_request a = h.

Definition past_arming (c : N) (w : CorrelatedWorld) : Prop :=
  ∃ a, awaits (cw_bus w) !! c = Some a ∧ arming (aw_phase a) = false.

(** The completion of [key] reached its waiters, or is about to, or a death is committed. *)
Definition key_answered (c : N) (key : Key) (w : CorrelatedWorld) : Prop :=
  past_arming c w ∧
  ((∃ e, TDeliver e ∈ concat (cw_threads w) ∧ event_type e = key.1 ∧ request_id e = Some key.2) ∨
   death_committed (correlated (cw_bus w)) = true ∨
   ∀ r, is_live (live (correlated (cw_bus w))) key r → os_cell r ≠ c).

(** [on_loop_death] of the I/O loop is running in thread [i], or has committed. *)
Definition dying (i : nat) (w : CorrelatedWorld) : Prop :=
  (∃ x, cw_threads w !! i = Some [TDeath LoopIo x]) ∨
  (∃ s x, cw_threads w !! i = Some [TCommit s LoopIo x]) ∨
  death_committed (correlated (cw_bus w)) = true.

(** [begin_shutdown] is running in thread [i], or has run. *)
Definition shutting (i : nat) (w : CorrelatedWorld) : Prop :=
  cw_threads w !! i = Some [TShutdown] ∨ shutting_down (cw_bus w) = true.

Section Lasting.
Context (clock : CorrelatedBus → MonotonicInstant).

Lemma requested_lasts c h : lasting clock (requested c h).
Proof.
  intros x w I (a & Ha & Hr). destruct (pg_await _ _ (progresses_act clock x w I) c a Ha) as (a' & ? & ? & _).
  exists a'. split; [done|congruence].
Qed.

Lemma past_arming_lasts c : lasting clock (past_arming c).
Proof.
  intros x w I (a & Ha & Hp). destruct (pg_await _ _ (progresses_act clock x w I) c a Ha) as (a' & ? & _ & ?).
  exists a'. auto.
Qed.

Lemma committed_lasts : lasting clock (λ w, death_committed (correlated (cw_bus w)) = true).
Proof. intros x w I. apply (pg_committed _ _ (progresses_act clock x w I)). Qed.

Lemma shutting_down_lasts : lasting clock (λ w, shutting_down (cw_bus w) = true).
Proof. intros x w I. apply (pg_shutting _ _ (progresses_act clock x w I)). Qed.

Lemma started_lasts : lasting clock (λ w, dispatch_reactor_state (cw_bus w) ≠ NotStarted).
Proof. intros x w I. apply (pg_started _ _ (progresses_act clock x w I)). Qed.

(** Running a delivery empties its key or finds the death committed. *)
Lemma deliver_clears e id b :
  request_id e = Some id →
  let b' := (deliver_correlated e b).2 in
  death_committed (correlated b') = true ∨
  ∀ r, ¬ is_live (live (correlated b')) (event_type e, id) r.
Proof.
  intros Hid. unfold deliver_correlated. rewrite Hid.
  destruct (death_committed (correlated b)) eqn:Hd; cbn [andb].
  { left. destruct (negb _); [done|].
    apply (pg_committed _ _ (progresses_take_waiters (event_type e, id) e (note [NDelivered e] b))). done. }
  right. unfold take_waiters, is_live. cbn [correlated note].
  destruct (live (correlated b) !! (event_type e, id)) as [rs|] eqn:Hl; cbn.
  - intros r (rs' & Hr & _). by rewrite lookup_delete_eq in Hr.
  - intros r (rs' & Hr & _). congruence.
Qed.

Lemma key_answered_lasts c key : lasting clock (key_answered c key).
Proof.
  intros x w I [Hp H]. split; [by apply past_arming_lasts|].
  pose proof (progresses_act clock x w I) as P.
  destruct H as [(e & Hin & Ht & Hid)|[Hd|Hn]].
  - destruct (act_task clock x w _ Hin) as [Hin'|(i & rest & -> & Hi)]; [left; by exists e|right].
    cbn. rewrite Hi. cbn [task_step].
    pose proof (deliver_clears e key.2 (cw_bus w) Hid) as Hc.
    destruct (deliver_correlated e (cw_bus w)) as [ts b']. cbn in *.
    destruct Hc as [Hc|Hc]; [by left|right]. intros r Hr _. apply (Hc r).
    by rewrite Ht, <-surjective_pairing.
  - right; left. by apply (pg_committed _ _ P).
  - right; right. intros r Hr Hc. destruct Hp as (a & Ha & Hpa).
    apply (Hn r); [|done]. eapply (pg_live _ _ P); [exact Ha|done..].
Qed.

Lemma dying_lasts i : lasting clock (dying i).
Proof.
  intros x w I H. destruct (action_is_run x i) as [->|Hx].
  2: { destruct H as [(x' & Hi)|[(s & x' & Hi)|Hd]].
       - left. exists x'. by apply act_thread.
       - right; left. exists s, x'. by apply act_thread.
       - right; right. by apply committed_lasts. }
  destruct H as [(x' & Hi)|[(s & x' & Hi)|Hd]].
  - right; left. cbn. rewrite Hi. cbn. pose proof (lookup_lt_Some _ _ _ Hi).
    destruct (shutting_down (cw_bus w)); cbn; do 2 eexists; by apply list_lookup_insert_eq.
  - right; right. cbn. rewrite Hi. cbn. by destruct s.
  - right; right. by apply committed_lasts.
Qed.

Lemma shutting_lasts i : lasting clock (shutting i).
Proof.
  intros x w I [Hi|Hs]; [|right; by apply shutting_down_lasts].
  destruct (action_is_run x i) as [->|Hx]; [|left; by apply act_thread].
  right. cbn. by rewrite Hi.
Qed.
End Lasting.

(** ** The calls *)

Definition ready_request (id : N) : RequestHandle := mkRequestHandle id ExClientReady.
Definition close_request (id : N) : RequestHandle := mkRequestHandle id ExClientClosed.

Definition ready_answered (c id : N) (w : CorrelatedWorld) : Prop :=
  key_answered c (ClientReady, id) w ∨ key_answered c (ClientFailed, id) w.

Definition is_committed (w : CorrelatedWorld) : Prop := death_committed (correlated (cw_bus w)) = true.
Definition is_shutting (w : CorrelatedWorld) : Prop := shutting_down (cw_bus w) = true.
Definition is_started (w : CorrelatedWorld) : Prop := dispatch_reactor_state (cw_bus w) ≠ NotStarted.

(** What a call relies on where it is. *)
Definition call_ok (id : N) (pc : Pc) (w : CorrelatedWorld) : Prop :=
  match pc with
  | PcReadyLock | PcReadyStart | PcCloseShutdown => True
  | PcReadyArm br => br = BrStart → is_started w
  | PcReadyArming br c => requested c (ready_request id) w ∧ (br = BrStart → is_started w)
  | PcReadyObserve c => requested c (ready_request id) w ∧ past_arming c w
  | PcReadyDelivering _ c _ => requested c (ready_request id) w ∧ ready_answered c id w
  | PcReadyDone c br =>
      requested c (ready_request id) w ∧ (br ≠ BrStart → ready_answered c id w)
  | PcCloseShuttingDown i => shutting i w
  | PcCloseCheck | PcCloseNested _ | PcCloseNestedDrop _ | PcCloseArm => is_shutting w
  | PcCloseArming c | PcClosePost c | PcCloseTake c =>
      is_shutting w ∧ requested c (close_request id) w
  | PcCloseDying c i => requested c (close_request id) w ∧ dying i w
  | PcDrop oc refused | PcDropShuttingDown oc refused _ | PcDropTake oc refused
  | PcDropDying oc refused _ | PcGone oc refused =>
      (∀ c, oc = Some c → requested c (close_request id) w) ∧ (refused = true → is_committed w)
  end.

Definition effect_ok (w : CorrelatedWorld) (x : LifeEffect) : Prop :=
  match x with
  | IoSpawned _ => is_started w
  | DisarmSpawned | MarkerPosted _ _ | MarkerRefused _ _ => is_shutting w
  | IoAborted => True
  end.

Record life_inv (l : LifeWorld) : Prop := mkLifeInv {
  li_run : run_inv (lf_world l);
  li_calls : Forall (λ c, call_ok (cl_id c) (cl_pc c) (lf_world l)) (lf_calls l);
  li_effects : Forall (effect_ok (lf_world l)) (lf_effects l);
}.

Section Calls.
Context (clock : CorrelatedBus → MonotonicInstant).

Lemma lasting_imp (A : Prop) P : lasting clock P → lasting clock (λ w, A → P w).
Proof. intros HP x w I H HA. by apply HP, H. Qed.

Lemma lasting_true : lasting clock (λ _, True).
Proof. done. Qed.

Lemma ready_answered_lasts c id : lasting clock (ready_answered c id).
Proof. intros x w I [H|H]; [left|right]; by apply key_answered_lasts. Qed.

Lemma call_ok_lasts id pc : lasting clock (call_ok id pc).
Proof.
  destruct pc; cbn [call_ok];
    repeat first [apply lasting_true|apply requested_lasts|apply past_arming_lasts
      |apply ready_answered_lasts|apply committed_lasts|apply shutting_down_lasts
      |apply started_lasts|apply dying_lasts|apply shutting_lasts|apply lasting_and
      |apply lasting_imp]; intros x w I Hc c' Hc'; by apply requested_lasts, Hc.
Qed.

Lemma effect_ok_lasts e : lasting clock (λ w, effect_ok w e).
Proof. destruct e; try apply lasting_true; [apply started_lasts|apply shutting_down_lasts..]. Qed.

Lemma life_on_bus x l : action_ok x → life_inv l → life_inv (on_bus clock x l).
Proof.
  intros Hx [I C E]. split; cbn.
  - by apply run_act.
  - eapply Forall_impl; [exact C|]. intros c Hc. by apply call_ok_lasts.
  - eapply Forall_impl; [exact E|]. intros e He. by apply effect_ok_lasts.
Qed.

Lemma life_with_pc k call pc l :
  lf_calls l !! k = Some call → call_ok (cl_id call) pc (lf_world l) → life_inv l →
  life_inv (with_pc k pc l).
Proof.
  intros Hk Hok [I C E]. split; [done| |done]. cbn. apply Forall_alter; [done|].
  intros c Hc _. by simplify_eq.
Qed.

Lemma life_calls_add next call l :
  call_ok (cl_id call) (cl_pc call) (lf_world l) → life_inv l →
  life_inv (with_calls next (lf_calls l ++ [call]) l).
Proof.
  intros Hok [I C E]. split; [done| |done]. cbn. apply Forall_app. split; [done|].
  by apply Forall_singleton.
Qed.

Lemma life_effect x l : effect_ok (lf_world l) x → life_inv l → life_inv (effect x l).
Proof.
  intros Hx [I C E]. split; [done..|]. cbn. apply Forall_app. split; [done|by apply Forall_singleton].
Qed.

Lemma life_lock o l : life_inv l → life_inv (with_lock o l).
Proof. by intros [I C E]. Qed.
Lemma life_handle h l : life_inv l → life_inv (with_handle h l).
Proof. by intros [I C E]. Qed.
Lemma life_input l : life_inv l → life_inv (without_input l).
Proof. by intros [I C E]. Qed.

(** The call itself, as its step finds it. *)
Lemma life_call k call l : life_inv l → lf_calls l !! k = Some call →
  call_ok (cl_id call) (cl_pc call) (lf_world l).
Proof. intros [I C E] Hk. by eapply Forall_lookup_1 in C. Qed.

Lemma life_arm k call h pc l :
  life_inv l → lf_calls l !! k = Some call →
  call_ok (cl_id call) (pc (next_await (lf_bus l))) (lf_world (on_bus clock (ActAwait h true) l)) →
  life_inv (arm clock k h pc l).
Proof. intros I Hk Hok. eapply life_with_pc; [exact Hk|exact Hok|by apply life_on_bus]. Qed.

Lemma requested_new h l :
  requested (next_await (lf_bus l)) h (lf_world (on_bus clock (ActAwait h true) l)).
Proof. exists (await_new h true). cbn. by rewrite lookup_insert_eq. Qed.

Lemma armed_past c l : armed c l = true → past_arming c (lf_world l).
Proof.
  unfold armed, past_arming, lf_bus. destruct (awaits _ !! c) as [a|]; [|done]. intros Hp.
  exists a. split; [done|]. by destruct (aw_phase a).
Qed.

Lemma delivering c id e l :
  past_arming c (lf_world l) → request_id e = Some id →
  event_type e = ClientReady ∨ event_type e = ClientFailed →
  ready_answered c id (lf_world (on_bus clock (ActDeliver e) l)).
Proof.
  intros (a & Ha & Hp) Hid Ht.
  assert (key_answered c (event_type e, id) (lf_world (on_bus clock (ActDeliver e) l))) as H.
  { split; [by exists a|]. left. exists e. split; [|done]. cbn.
    rewrite concat_app. apply elem_of_app. right. cbn. left. }
  destruct Ht as [Ht|Ht]; rewrite Ht in H; [by left|by right].
Qed.

Lemma life_deliver k br c e call l :
  life_inv l → lf_calls l !! k = Some call →
  requested c (ready_request (cl_id call)) (lf_world l) → past_arming c (lf_world l) →
  request_id e = Some (cl_id call) → event_version e = 1 →
  event_type e = ClientReady ∨ event_type e = ClientFailed →
  life_inv (deliver clock k br c e l).
Proof.
  intros I Hk Hr Hp Hid Hv Ht.
  assert (action_ok (ActDeliver e)) as Hx by (cbn; lia).
  eapply life_with_pc; [exact Hk| |by apply life_on_bus]. cbn [call_ok].
  split; [by apply requested_lasts; [apply I|]|by apply delivering].
Qed.

Lemma life_ready_step k call l :
  life_inv l → lf_calls l !! k = Some call → life_inv (ready_step clock k call l).
Proof.
  intros I Hk. pose proof (life_call k call l I Hk) as Hok. unfold ready_step.
  destruct (cl_pc call) eqn:Hpc; cbn [call_ok] in Hok; try done.
  - destruct (lf_lock l); [done|].
    destruct (lf_handle _); [|destruct (lf_input _)]; eapply life_with_pc; try exact Hk; try done;
      by repeat first [apply life_input|apply life_lock].
  - eapply life_with_pc; [exact Hk| |by apply life_on_bus]. cbn. intros _.
    unfold is_started. by case_decide.
  - eapply life_arm; [done|exact Hk|]. split; [apply requested_new|].
    intros Hb. apply started_lasts; [apply I|by apply Hok].
  - destruct (armed c l) eqn:Ha; [|done]. apply armed_past in Ha.
    destruct Hok as [Hr Hst]. destruct br.
    + by eapply life_with_pc.
    + by eapply life_deliver; auto.
    + eapply life_with_pc; [exact Hk|by split|].
      apply life_lock, life_handle, life_effect; [by apply Hst|done].
  - destruct Hok as [Hr Hp]. destruct (loop_death_observed _); by eapply life_deliver; auto.
  - destruct (returned i l); [|done]. destruct Hok as [Hr Ha].
    eapply life_with_pc; [exact Hk|by split|]. by apply life_lock.
Qed.

Lemma life_close_step k call reject l :
  life_inv l → lf_calls l !! k = Some call → life_inv (close_step clock k call reject l).
Proof.
  intros I Hk. pose proof (life_call k call l I Hk) as Hok. unfold close_step.
  assert (∀ i, shutting i (lf_world l) → returned i l = true → is_shutting (lf_world l)) as Hshut.
  { intros i [Hi|Hs]; [|done]. unfold returned. by rewrite Hi. }
  assert (∀ i, dying i (lf_world l) → returned i l = true → is_committed (lf_world l)) as Hdie.
  { intros i [(x & Hi)|[(s & x & Hi)|Hd]]; [| |done]; unfold returned; by rewrite Hi. }
  assert (∀ x l', action_ok x → life_inv l' → lf_calls l' = lf_calls l → lf_world l' = lf_world l →
    ∀ pc, call_ok (cl_id call) pc (lf_world (on_bus clock x l')) → life_inv (with_pc k pc (on_bus clock x l')))
    as Hbus.
  { intros x l' Hx I' Hc Hw pc Hp. eapply life_with_pc; [by cbn; rewrite Hc|done|by apply life_on_bus]. }
  destruct (cl_pc call) eqn:Hpc; cbn [call_ok] in Hok; try done.
  - apply Hbus; try done. left. cbn. by rewrite lookup_app_r, Nat.sub_diag.
  - destruct (returned i l) eqn:Hr; [|done]. eapply life_with_pc; [exact Hk|by eapply Hshut|done].
  - destruct (lf_lock l); [done|]. destruct (lf_handle l); [by eapply life_with_pc|].
    apply life_calls_add; [done|]. by eapply life_with_pc.
  - destruct (cl_pc <$> lf_calls l !! k0) as [[]|]; try done.
    apply Hbus; try done. by apply shutting_down_lasts; [apply I|].
  - destruct (returned i l); [|done]. by eapply life_with_pc.
  - eapply life_arm; [done|exact Hk|]. split; [by apply shutting_down_lasts; [apply I|]|apply requested_new].
  - destruct (armed c l); [|done]. destruct Hok as [Hs Hr].
    eapply life_with_pc; [exact Hk|by split|]. by apply life_effect.
  - destruct Hok as [Hs Hr]. destruct reject as [r|].
    + apply Hbus; [done|by apply life_effect|done|done|]. split.
      * by apply requested_lasts; [apply I|].
      * left. exists CauseCancelled. cbn. unfold next_thread. by rewrite lookup_app_r, Nat.sub_diag.
    + eapply life_with_pc; [exact Hk|by split|]. by apply life_effect.
  - destruct (lf_lock l); [done|]. destruct Hok as [Hs Hr].
    eapply life_with_pc; [exact Hk| |by apply life_handle]. split; [|done]. by intros c' [= <-].
  - destruct (returned i l) eqn:Hret; [|done]. destruct Hok as [Hr Hd].
    eapply life_with_pc; [exact Hk| |done]. split; [by intros c' [= <-]|]. intros _. by eapply Hdie.
  - by apply Hbus.
  - destruct (returned i l); [|done]. by eapply life_with_pc.
  - destruct (lf_lock l); [done|]. destruct (lf_handle l); [|by eapply life_with_pc].
    apply Hbus; [done|by apply life_effect, life_handle|done|done|].
    exact Hok.
  - destruct (returned i l); [|done]. by eapply life_with_pc.
Qed.

Definition life_ok (x : LifeAction) : Prop := match x with LBus x => action_ok x | _ => True end.

Lemma life_act_inv x l : life_ok x → life_inv l → life_inv (life_act clock x l).
Proof.
  intros Hx I. destruct x as [| | |k reject|x]; cbn [life_act].
  - by apply life_calls_add.
  - by apply life_calls_add.
  - by apply life_calls_add.
  - unfold call_step. destruct (lf_calls l !! k) as [call|] eqn:Hk; [|done].
    pose proof (life_ready_step k call l I Hk). pose proof (life_close_step k call reject l I Hk).
    by destruct (cl_pc call).
  - by apply life_on_bus.
Qed.

Lemma run_life_inv xs : Forall life_ok xs → life_inv (run_life clock xs).
Proof.
  unfold run_life. intros Hxs.
  assert (life_inv life_new) as I.
  { split; [apply (schedule_run_inv clock []); constructor|constructor|constructor]. }
  revert I. generalize life_new.
  induction Hxs as [|x xs Hx _ IH]; intros l I; cbn [fold_left]; [done|]. by apply IH, life_act_inv.
Qed.
End Calls.

(** ** Outcomes *)

Lemma answered_await w c a key :
  run_inv w → concat (cw_threads w) = [] → key_answered c key w →
  awaits (cw_bus w) !! c = Some a → aw_phase a = Waiting →
  key.2 = handle_id (aw_request a) →
  key.1 = to_event_type (expected_completion (aw_request a)) ∨
    failure_event_type (expected_completion (aw_request a)) = Some key.1 →
  ∃ e, cell_slot (aw_cell a) = Some e.
Proof.
  intros I Hq [_ Hk] Ha Hw Hid Ht. destruct (cell_slot (aw_cell a)) as [e|] eqn:Hs; [by exists e|].
  exfalso. destruct (waiting_await w c a I Hq Ha Hw) as [H|[Hd H]]; [done|].
  destruct Hk as [(e & Hin & _)|[Hc|Hn]].
  - rewrite Hq in Hin. by apply not_elem_of_nil in Hin.
  - congruence.
  - destruct (H key.1 Ht) as [(r & Hr & Hc) _]. apply (Hn r); [|done].
    by rewrite (surjective_pairing key), Hid.
Qed.

Lemma committed_await w c a :
  run_inv w → concat (cw_threads w) = [] → is_committed w →
  awaits (cw_bus w) !! c = Some a → aw_phase a = Waiting → ∃ e, cell_slot (aw_cell a) = Some e.
Proof.
  intros I Hq Hc Ha Hw. destruct (cell_slot (aw_cell a)) as [e|] eqn:Hs; [by exists e|].
  destruct (waiting_await w c a I Hq Ha Hw) as [H|[Hd _]]; [done|]. unfold is_committed in Hc. congruence.
Qed.

(** The outcome of an await is of its call. *)
Definition tells (id : N) (t : EventType) (failure : option EventType) (a : Await) : Prop :=
  ∀ e, cell_slot (aw_cell a) = Some e ∨ aw_phase a = Resolved (Some e) →
    request_id e = Some id ∧
    (event_type e = t ∨ failure = Some (event_type e) ∨ event_type e = LoopFailedEvent).

Lemma tells_own w c a id x :
  run_inv w → awaits (cw_bus w) !! c = Some a → aw_request a = mkRequestHandle id x →
  tells id (to_event_type x) (failure_event_type x) a.
Proof.
  intros I Ha Hr e He. destruct (ci_own _ _ (rn_world _ I) c a e Ha He) as [[Hid Ht] _].
  by rewrite Hr in Hid, Ht.
Qed.

(** C18: A start is always answered and a close always told.  Whatever deliveries, loop deaths,
    other calls and cancelled awaits come between the steps of a call: once all that runs on
    the bus has returned, a [ready] that found the reactor running or its input gone has its
    outcome, and so has a [close] whose marker was refused; an outcome is of that very call,
    its completion, its failure, or the report of a dead loop. *)
Theorem lifecycle_calls_told clock xs :
  Forall life_ok xs →
  let l := run_life clock xs in
  concat (cw_threads (lf_world l)) = [] →
  ∀ k call c a, lf_calls l !! k = Some call → awaits (lf_bus l) !! c = Some a →
  (∀ br, cl_pc call = PcReadyDone c br →
     tells (cl_id call) ClientReady (Some ClientFailed) a ∧
     (br ≠ BrStart → aw_phase a = Waiting → ∃ e, cell_slot (aw_cell a) = Some e)) ∧
  (∀ refused, cl_pc call = PcGone (Some c) refused →
     tells (cl_id call) ClientClosedEvent None a ∧
     (refused = true → aw_phase a = Waiting → ∃ e, cell_slot (aw_cell a) = Some e)).
Proof.
  intros Hxs l Hq k call c a Hk Ha. pose proof (run_life_inv clock xs Hxs) as I. fold l in I.
  pose proof (life_call k call l I Hk) as Hok. pose proof (li_run _ I) as Ir. split.
  - intros br Hpc. rewrite Hpc in Hok. destruct Hok as [(a' & Ha' & Hr) Hans].
    unfold lf_bus in Ha. rewrite Ha in Ha'. injection Ha' as <-. split.
    + exact (tells_own _ _ _ _ _ Ir Ha Hr).
    + intros Hbr Hw. destruct (Hans Hbr) as [H|H].
      * eapply (answered_await _ _ _ (ClientReady, cl_id call)); rewrite ?Hr; eauto.
      * eapply (answered_await _ _ _ (ClientFailed, cl_id call)); rewrite ?Hr; eauto.
  - intros refused Hpc. rewrite Hpc in Hok. destruct Hok as [Hreq Hc].
    destruct (Hreq c eq_refl) as (a' & Ha' & Hr). unfold lf_bus in Ha. rewrite Ha in Ha'. injection Ha' as <-.
    split; [exact (tells_own _ _ _ _ _ Ir Ha Hr)|].
    intros Href Hw. eapply committed_await; eauto.
Qed.

(** A client is started, [ready] is called again and its answer awaited. *)
Definition demo_ready_again : list LifeAction :=
  [LReady; LStep 0 None; LStep 0 None; LStep 0 None; LBus (ActRun 0); LBus (ActRun 0);
   LBus (ActRun 0); LStep 0 None;
   LReady; LStep 1 None; LStep 1 None; LBus (ActRun 1); LBus (ActRun 1); LBus (ActRun 1);
   LStep 1 None; LStep 1 None; LBus (ActRun 2); LBus (ActRun 2); LBus (ActRun 2); LStep 1 None;
   LBus (ActResolve 1); LBus (ActRun 3)].

(** Then it is closed with a marker nobody takes. *)
Definition demo_close_refused : list LifeAction :=
  demo_ready_again ++
  [LClose; LStep 2 None; LBus (ActRun 4); LStep 2 None; LStep 2 None; LStep 2 None;
   LBus (ActRun 5); LBus (ActRun 5); LStep 2 None; LStep 2 (Some RejectFull)] ++
  replicate 12 (LBus (ActRun 6)) ++
  [LStep 2 None; LStep 2 None; LBus (ActRun 7); LStep 2 None; LStep 2 None] ++
  replicate 12 (LBus (ActRun 8)) ++ [LStep 2 None; LBus (ActResolve 2); LBus (ActRun 9); LBus (ActRun 9)].

Lemma lifecycle_calls_told_witness :
  let l := run_life (λ _, 0) demo_close_refused in
  concat (cw_threads (lf_world l)) = [] ∧
  match awaits (lf_bus l) !! 1, awaits (lf_bus l) !! 2 with
  | Some a1, Some a2 =>
      (∃ e, cell_slot (aw_cell a1) = Some e) ∧ (∃ e, cell_slot (aw_cell a2) = Some e) ∧
      tells 3 ClientClosedEvent None a2
  | _, _ => False
  end.
Proof.
  intros l.
  assert (Forall life_ok demo_close_refused) as Hok by (repeat (constructor; [exact I|]); constructor).
  assert (concat (cw_threads (lf_world l)) = []) as Hq by (vm_compute; reflexivity).
  split; [exact Hq|].
  assert (∃ c1 c2 a1 a2, awaits (lf_bus l) !! 1 = Some a1 ∧ awaits (lf_bus l) !! 2 = Some a2 ∧
    aw_phase a1 = Waiting ∧ aw_phase a2 = Waiting ∧
    lf_calls l !! 1%nat = Some c1 ∧ lf_calls l !! 2%nat = Some c2 ∧
    cl_pc c1 = PcReadyDone 1 BrRunning ∧ cl_pc c2 = PcGone (Some 2) true ∧ cl_id c2 = 3)
    as (c1 & c2 & a1 & a2 & H1 & H2 & Hw1 & Hw2 & Hk1 & Hk2 & Hp1 & Hp2 & Hid).
  { do 4 eexists. split_and!; vm_compute; reflexivity. }
  rewrite H1, H2.
  destruct (proj1 (lifecycle_calls_told (λ _, 0) _ Hok Hq 1%nat c1 1 a1 Hk1 H1) _ Hp1) as [_ Ht1].
  destruct (proj2 (lifecycle_calls_told (λ _, 0) _ Hok Hq 2%nat c2 2 a2 Hk2 H2) _ Hp2) as [Hown Ht2].
  split_and!; [apply Ht1; [discriminate|exact Hw1]|by apply Ht2|by rewrite Hid in Hown].
Defined.

(** ** The reactor is spawned once *)

Definition starting (call : ClientCall) : bool :=
  match cl_pc call with
  | PcReadyStart | PcReadyArm BrStart | PcReadyArming BrStart _ => true
  | _ => false
  end.

Definition is_spawn (x : LifeEffect) : bool := match x with IoSpawned _ => true | _ => false end.

Lemma counted_one {A} (P : A → bool) x : counted P [x] = if P x then 1 else 0.
Proof. rewrite counted_cons. unfold counted. cbn. lia. Qed.

Lemma counted_alter {A} (P : A → bool) f k l x :
  l !! k = Some x →
  counted P (alter f k l) + (if P x then 1 else 0) = counted P l + (if P (f x) then 1 else 0).
Proof.
  revert k. induction l as [|y l IH]; intros [|k] Hk; simplify_eq/=.
  - change (alter f 0%nat (x :: l)) with (f x :: l). rewrite !counted_cons. lia.
  - change (alter f (S k) (y :: l)) with (y :: alter f k l). rewrite !counted_cons.
    specialize (IH k Hk). lia.
Qed.

(** The reactor's input is there, with a call that is starting it, or spent; one of them. *)
Definition tokens (l : LifeWorld) : N :=
  (if lf_input l then 1 else 0) + counted starting (lf_calls l) + counted is_spawn (lf_effects l).

Lemma tokens_with_pc k pc l call :
  lf_calls l !! k = Some call →
  tokens (with_pc k pc l) + (if starting call then 1 else 0) =
  tokens l + (if starting (mkClientCall (cl_id call) (cl_initiated_at call) pc) then 1 else 0).
Proof.
  intros Hk. unfold tokens. cbn.
  pose proof (counted_alter starting (λ c, mkClientCall (cl_id c) (cl_initiated_at c) pc) k _ _ Hk).
  lia.
Qed.

Lemma tokens_effect x l : tokens (effect x l) = tokens l + (if is_spawn x then 1 else 0).
Proof. unfold tokens. cbn. rewrite counted_app, counted_one. lia. Qed.

(** Moving a call between places that do not start leaves the tokens. *)
Lemma tokens_move k pc l l' call :
  lf_calls l' !! k = Some call → starting call = false →
  starting (mkClientCall (cl_id call) (cl_initiated_at call) pc) = false →
  tokens l' = tokens l → tokens (with_pc k pc l') = tokens l.
Proof. intros Hk H1 H2 He. pose proof (tokens_with_pc k pc l' call Hk) as H. rewrite H1, H2 in H. lia. Qed.

Lemma tokens_add next call l :
  starting call = false → tokens (with_calls next (lf_calls l ++ [call]) l) = tokens l.
Proof. intros H. unfold tokens. cbn. rewrite counted_app, counted_one, H. lia. Qed.

Lemma tokens_ready_step clock k call l :
  lf_calls l !! k = Some call → tokens (ready_step clock k call l) ≤ tokens l.
Proof.
  intros Hk. pose proof (λ pc, tokens_with_pc k pc l call Hk) as Hm.
  destruct call as [id at_ pc]. unfold ready_step, starting in *. cbn [cl_pc cl_id cl_initiated_at] in *.
  destruct pc; try lia.
  - destruct (lf_lock l); [lia|].
    cbn [lf_handle lf_input with_lock].
    destruct (lf_handle l).
    { specialize (Hm (PcReadyArm BrRunning)). unfold tokens in *. cbn in *. lia. }
    destruct (lf_input l) eqn:Hi.
    + specialize (Hm PcReadyStart). unfold tokens in *. cbn in *. rewrite Hi in Hm |- *. lia.
    + specialize (Hm (PcReadyArm BrNoInput)). unfold tokens in *. cbn in *. rewrite Hi in Hm |- *. lia.
  - specialize (Hm (PcReadyArm BrStart)). unfold tokens in *. cbn in *. lia.
  - specialize (Hm (PcReadyArming br (next_await (lf_bus l)))). unfold tokens in *. cbn in *.
    destruct br; lia.
  - destruct (armed c l); [|lia]. destruct br.
    + specialize (Hm (PcReadyObserve c)). unfold tokens in *. cbn in *. lia.
    + specialize (Hm (PcReadyDelivering BrNoInput c (next_thread l))). unfold tokens in *. cbn in *. lia.
    + specialize (Hm (PcReadyDone c BrStart)). unfold tokens in *. cbn in *.
      rewrite counted_app, counted_one. cbn. lia.
  - specialize (Hm (PcReadyDelivering BrRunning c (next_thread l))). unfold tokens in *. cbn in *. lia.
  - destruct (returned i l); [|lia]. specialize (Hm (PcReadyDone c br)). unfold tokens in *. cbn in *. lia.
Qed.

Lemma tokens_close_step clock k call reject l :
  lf_calls l !! k = Some call → starting call = false →
  tokens (close_step clock k call reject l) ≤ tokens l.
Proof.
  intros Hk Hs.
  assert (∀ pc l', lf_calls l' = lf_calls l → tokens l' = tokens l →
    starting (mkClientCall (cl_id call) (cl_initiated_at call) pc) = false →
    tokens (with_pc k pc l') ≤ tokens l) as Hm.
  { intros pc l' Hc Ht Hp. by rewrite (tokens_move k pc l l' call); [lia|rewrite Hc| | |]. }
  unfold close_step. destruct (cl_pc call) eqn:Hpc; try lia; try (by apply Hm);
    try (destruct (returned _ _); [by apply Hm|lia]).
  - destruct (lf_lock l); [lia|]. destruct (lf_handle l); [by apply Hm|].
    unfold begin_call. rewrite tokens_add by done. by apply Hm.
  - destruct (cl_pc <$> lf_calls l !! k0) as [[]|]; try lia. by apply Hm.
  - destruct (armed c l); [|lia]. apply Hm; [done|by rewrite tokens_effect, N.add_0_r|done].
  - destruct reject; apply Hm; try done.
    + change (tokens (effect (MarkerRefused (cl_id call) p) l) = tokens l). by rewrite tokens_effect, N.add_0_r.
    + by rewrite tokens_effect, N.add_0_r.
  - destruct (lf_lock l); [lia|]. by apply Hm.
  - destruct (lf_lock l); [lia|]. destruct (lf_handle l); [|by apply Hm].
    apply Hm; [done| |done].
    change (tokens (effect IoAborted (with_handle false l)) = tokens l). by rewrite tokens_effect, N.add_0_r.
Qed.

Lemma tokens_run clock xs : tokens (run_life clock xs) ≤ 1.
Proof.
  unfold run_life. assert (tokens life_new ≤ 1) as H by (by vm_compute).
  revert H. generalize life_new. induction xs as [|x xs IH]; intros l H; cbn [fold_left]; [done|].
  apply IH. destruct x as [| | |k reject|x]; cbn [life_act];
    unfold begin_call, begin_drop; try (by rewrite tokens_add by done); [|exact H].
  unfold call_step. destruct (lf_calls l !! k) as [call|] eqn:Hk; [|done].
  pose proof (tokens_ready_step clock k call l Hk). pose proof (tokens_close_step clock k call reject l Hk) as Hc.
  unfold starting in Hc. destruct (cl_pc call); try lia; specialize (Hc eq_refl); lia.
Qed.

(** Whatever the interleaving, the I/O reactor is spawned at most once in the life of a client,
    only after the dispatch loop was started, so that no completion of it finds nobody to
    deliver it; and the disarm and the close marker only go out once the shutdown is latched,
    so that a loop that ends because of them is not taken for a failure. *)
Theorem lifecycle_ordered clock xs :
  Forall life_ok xs →
  let l := run_life clock xs in
  counted is_spawn (lf_effects l) ≤ 1 ∧
  (∀ x, x ∈ lf_effects l →
     match x with
     | IoSpawned _ => lf_input l = false ∧ dispatch_reactor_state (lf_bus l) ≠ NotStarted
     | DisarmSpawned | MarkerPosted _ _ | MarkerRefused _ _ => shutting_down (lf_bus l) = true
     | IoAborted => True
     end).
Proof.
  intros Hxs l. pose proof (tokens_run clock xs) as Ht. fold l in Ht. unfold tokens in Ht.
  split; [lia|]. intros x Hx. pose proof (li_effects _ (run_life_inv clock xs Hxs)) as He.
  fold l in He. eapply Forall_forall in He; [|exact Hx].
  destruct x; try done. split; [|done]. destruct (lf_input l); [|done]. exfalso.
  assert (1 ≤ counted is_spawn (lf_effects l)) as Hc; [|lia].
  clear -Hx. induction (lf_effects l) as [|y ys IH]; [by apply not_elem_of_nil in Hx|].
  rewrite counted_cons. apply elem_of_cons in Hx as [<-|Hx]; [cbn; lia|]. specialize (IH Hx). lia.
Qed.

Lemma lifecycle_ordered_witness :
  let l := run_life (λ _, 0) demo_close_refused in
  lf_effects l = [IoSpawned 1; DisarmSpawned; MarkerRefused 3 RejectFull; IoAborted] ∧
  counted is_spawn (lf_effects l) ≤ 1 ∧ shutting_down (lf_bus l) = true.
Proof.
  intros l. assert (lf_effects l = [IoSpawned 1; DisarmSpawned; MarkerRefused 3 RejectFull; IoAborted])
    as He by (vm_compute; reflexivity).
  assert (Forall life_ok demo_close_refused) as Hok by (repeat (constructor; [exact I|]); constructor).
  destruct (lifecycle_ordered (λ _, 0) demo_close_refused Hok) as [Hc Hx].
  split; [exact He|]. split; [exact Hc|]. apply (Hx DisarmSpawned).
  fold l. rewrite He. by right; left.
Defined.
