(* ===== verification/Supervisor.v ===== *)
(** * Supervisor: connecting an endpoint, and observing events

    [rust/src/conn/supervisor.rs], the callers' side of the connections: snapshots of
    their states, read from mirrors the reactor writes, and [connect], which posts a
    request and hands out the id the reactor answers under; and [rust/src/api/events.rs],
    the namespace of long-lived event subscriptions, with its errors of [error.rs].  The
    queue to the reactor is the channel of [Teardowns]. *)

From Stdlib Require Import Ascii String.
From S2P Require Import Prelude F64 Types Events EventBus RateBudget Knobs Errors Rest Teardowns Reactor ReactorLoop Correlated.
Local Open Scope string_scope.
Local Open Scope N_scope.

(** ** [conn/supervisor.rs] *)

Record ConnectionHandle := mkConnectionHandle {
  handle_url : WsUrl;
  connection_id : N;
}.

(** The name of the queue. *)
Record QueueFullError := mkQueueFull { queue : string }.

Record ConnectionSupervisor := mkSupervisor {
  state_mirrors : gmap WsUrl N;
  rate_budget : RateBudget.ConnectionRateBudget;
  next_handle_id : N;
  auth_has_subscriptions : bool;
  auth_send_ready : bool;
}.

Definition with_rate_budget (b : RateBudget.ConnectionRateBudget) : ConnectionSupervisor :=
  mkSupervisor (<[Public := state_as_u8 Idle]> (<[Auth := state_as_u8 Idle]> ∅)) b 1
    false false.

Definition new_with_knobs (k : Knobs) : ConnectionSupervisor :=
  with_rate_budget (with_knobs (connection_rate_budget k) (connection_rate_window k)).

(** [None] is a panic. *)
Definition current_state (url : WsUrl) (s : ConnectionSupervisor) : option ConnectionState :=
  byte ← state_mirrors s !! url;
  state_from_u8 byte.

(** What the reactor stores in a mirror it was handed. *)
Definition store_mirror (url : WsUrl) (st : ConnectionState) (s : ConnectionSupervisor)
  : ConnectionSupervisor :=
  mkSupervisor
    (match state_mirrors s !! url with
     | Some _ => <[url := state_as_u8 st]> (state_mirrors s)
     | None => state_mirrors s
     end)
    (rate_budget s) (next_handle_id s) (auth_has_subscriptions s) (auth_send_ready s).

(** [fetch_add], by [connect] and, for a connection that starts on its first subscription,
    by the reactor. *)
Definition draw_handle_id (s : ConnectionSupervisor) : N * ConnectionSupervisor :=
  (next_handle_id s,
   mkSupervisor (state_mirrors s) (rate_budget s) (u64_wrapping_add (next_handle_id s) 1)
     (auth_has_subscriptions s) (auth_send_ready s)).

Section Connect.
Context {Decimal Q : Type} `{Channel Q (@CallerInbound Decimal)}.
Abbreviation Inbound := (@CallerInbound Decimal).

Record SupervisorWorld := mkSupervisorWorld {
  sv : ConnectionSupervisor;
  sv_bus : TeardownState Q Inbound;
}.

(** [connect] is two accesses, of the counter and of the channel, which those of other
    threads come between. *)
Definition connect_post (url : WsUrl) (connection_id : N) (w : SupervisorWorld)
  : (QueueFullError + ConnectionHandle) * SupervisorWorld :=
  let '(refused, bus) :=
    try_post_caller_inbound (InFsmEvent url (StartConnect connection_id)) (sv_bus w) in
  (match refused with
   | Some _ => inl (mkQueueFull "caller_to_io")
   | None => inr (mkConnectionHandle url connection_id)
   end, mkSupervisorWorld (sv w) bus).

Definition connect (url : WsUrl) (w : SupervisorWorld)
  : (QueueFullError + ConnectionHandle) * SupervisorWorld :=
  let '(connection_id, s) := draw_handle_id (sv w) in
  connect_post url connection_id (mkSupervisorWorld s (sv_bus w)).

(** *** Connects of any threads beside the reactor *)

(** [SvPost i] ends the [i]-th call. *)
Inductive SvOp :=
  | SvConnect (url : WsUrl)
  | SvPost (i : nat)
  | SvDraw
  | SvReceive
  | SvStore (url : WsUrl) (st : ConnectionState).

(** What a step tells: the id a call drew, its answer, an id the reactor drew, an item it
    took. *)
Inductive SvObs :=
  | OCalled (url : WsUrl) (id : N)
  | OConnected (url : WsUrl) (id : N) (r : QueueFullError + ConnectionHandle)
  | ODrawn (id : N)
  | OReceived (i : option Inbound)
  | OStored.

(** The supervisor with the calls begun: the endpoint and the id of each until it ends. *)
Record SvCalls := mkSvCalls {
  sv_world : SupervisorWorld;
  sv_calls : list (option (WsUrl * N));
}.

Definition set_sv_world (w : SupervisorWorld) (c : SvCalls) : SvCalls := mkSvCalls w (sv_calls c).

Definition sv_op (op : SvOp) (c : SvCalls) : SvObs * SvCalls :=
  let w := sv_world c in
  match op with
  | SvConnect url =>
      let '(id, s) := draw_handle_id (sv w) in
      (OCalled url id,
       mkSvCalls (mkSupervisorWorld s (sv_bus w)) (sv_calls c ++ [Some (url, id)])%list)
  | SvPost i =>
      match sv_calls c !! i with
      | Some (Some (url, id)) =>
          let '(r, w) := connect_post url id w in
          (OConnected url id r, mkSvCalls w (<[i := None]> (sv_calls c)))
      | _ => (OStored, c)
      end
  | SvDraw =>
      let '(id, s) := draw_handle_id (sv w) in
      (ODrawn id, set_sv_world (mkSupervisorWorld s (sv_bus w)) c)
  | SvReceive =>
      let '(i, q) := chan_recv (td_channel (sv_bus w)) in
      (OReceived i, set_sv_world (mkSupervisorWorld (sv w) (set_channel q (sv_bus w))) c)
  | SvStore url st =>
      (OStored, set_sv_world (mkSupervisorWorld (store_mirror url st (sv w)) (sv_bus w)) c)
  end.

Fixpoint sv_run (ops : list SvOp) (c : SvCalls) : list SvObs * SvCalls :=
  match ops with
  | [] => ([], c)
  | op :: ops =>
      let '(o, c) := sv_op op c in
      let '(os, c) := sv_run ops c in
      (o :: os, c)
  end.

(** The ids drawn, the calls begun and those answered, the requests accepted and the items
    taken, in order. *)
Definition drawn_id (o : SvObs) : option N :=
  match o with OCalled _ id | ODrawn id => Some id | _ => None end.

Definition called (o : SvObs) : option (WsUrl * N) :=
  match o with OCalled url id => Some (url, id) | _ => None end.

Definition answered (o : SvObs) : option (WsUrl * N) :=
  match o with OConnected url id _ => Some (url, id) | _ => None end.

Definition posted (o : SvObs) : option Inbound :=
  match o with
  | OConnected url id (inr _) => Some (InFsmEvent url (StartConnect id))
  | _ => None
  end.

Definition received (o : SvObs) : option Inbound :=
  match o with OReceived i => i | _ => None end.

(** The answer of a connect: the handle of its endpoint and its id, or a full queue. *)
Definition answer_own (o : SvObs) : Prop :=
  match o with
  | OConnected url id (inr h) => handle_url h = url ∧ connection_id h = id
  | OConnected _ _ (inl e) => queue e = "caller_to_io"
  | _ => True
  end.

(** The last state stored for an endpoint. *)
Fixpoint last_stored (url : WsUrl) (ops : list SvOp) (st : ConnectionState) : ConnectionState :=
  match ops with
  | [] => st
  | SvStore u st' :: ops => last_stored url ops (if decide (u = url) then st' else st)
  | _ :: ops => last_stored url ops st
  end.
End Connect.
Arguments SupervisorWorld : clear implicits.
Arguments SvCalls : clear implicits.
Arguments SvObs : clear implicits.

(** ** [api/events.rs] and its errors *)

Inductive EventsError :=
  | BusClosed
  | InvalidEventType (event_type : string)
  | EventsClientClosed
  | EventsLoopDead
  | EventsUnknown (kraken_code kraken_message : string).

Definition events_error_code (e : EventsError) : string :=
  match e with
  | BusClosed | EventsClientClosed => "CLIENT_CLOSED"
  | EventsLoopDead => "LOOP_DEAD"
  | InvalidEventType _ => "INVALID_ARGUMENTS"
  | EventsUnknown _ _ => "UNKNOWN"
  end.

Definition events_error_category (e : EventsError) : ErrorCategory :=
  match e with EventsUnknown _ _ => CatExchange | _ => CatClient end.

Definition events_error_retryable (e : EventsError) : bool := false.

Definition events_error_display (e : EventsError) : string :=
  match e with
  | BusClosed => "Event bus is closed."
  | InvalidEventType event_type => "Invalid event type: " ++ event_type ++ "."
  | EventsClientClosed => "Client is closed; no new operations accepted."
  | EventsLoopDead =>
      "The client's internal loop has failed; no new event subscriptions are accepted. Rebuild the client."
  | EventsUnknown _ kraken_message => kraken_message
  end.

(** The largest [u16]. *)
Definition LATEST_EVENT_VERSION : N := 65535.

(** The bus as subscribers see it: its registry, the flag of a dead loop and the state of
    the dispatch reactor. *)
Record ObservedBus := mkObserved {
  ob_bus : DispatchEventBus;
  ob_loop_failed : bool;
  ob_dispatch : ReactorState;
}.

Definition start_dispatch_reactor (s : ReactorState) : ReactorState :=
  if decide (s = NotStarted) then Running else s.

(** [DispatchEventBus::subscribe]; [on_runtime] tells that a tokio runtime is current. *)
Definition bus_subscribe (on_runtime : bool) (t : EventType) (max_version : N)
  (b : ObservedBus) : N * ObservedBus :=
  let '(id, bus) := EventBus.subscribe t max_version (ob_bus b) in
  (id, mkObserved bus (ob_loop_failed b)
         (if on_runtime then start_dispatch_reactor (ob_dispatch b) else ob_dispatch b)).

(** [EventsNamespace::on]: the handle the guard holds. *)
Definition on (on_runtime : bool) (t : EventType) (b : ObservedBus)
  : (EventsError + N) * ObservedBus :=
  if ob_loop_failed b then (inl EventsLoopDead, b)
  else
    let '(handle, b) := bus_subscribe on_runtime t LATEST_EVENT_VERSION b in
    (inr handle, b).

(** Dropping the guard; [None] is a bus already gone.  The correlated registry, which
    [unsubscribe] also goes through, holds no long-lived handle: both kinds of handles are
    minted from one counter. *)
Definition event_subscription_drop (handle : N) (b : option ObservedBus)
  : option ObservedBus :=
  (λ b, mkObserved (unsubscribe_long_lived handle (ob_bus b)) (ob_loop_failed b)
          (ob_dispatch b)) <$> b.

(** ** Lemmas and theorems *)

Local Open Scope list_scope.

Lemma store_mirror_current (url u : WsUrl) (st : ConnectionState) (s : ConnectionSupervisor) :
  is_Some (state_mirrors s !! u) →
  current_state url (store_mirror u st s)
  = if decide (u = url) then Some st else current_state url s.
Proof.
  intros [b Hb]. unfold current_state, store_mirror. cbn. rewrite Hb. case_decide as Hu.
  - subst. rewrite lookup_insert_eq. apply state_u8_roundtrip.
  - by rewrite lookup_insert_ne.
Qed.

Lemma store_mirror_dom (u : WsUrl) (st : ConnectionState) (s : ConnectionSupervisor) :
  dom (state_mirrors (store_mirror u st s)) = dom (state_mirrors s).
Proof.
  unfold store_mirror. cbn. destruct (state_mirrors s !! u) eqn:E; [|done].
  by rewrite dom_insert_lookup_L.
Qed.

Lemma wrapping_succ (a b : N) :
  u64_wrapping_add (u64_wrapping_add a b) 1 = u64_wrapping_add a (b + 1).
Proof. unfold u64_wrapping_add. rewrite N.Div0.add_mod_idemp_l. f_equal. lia. Qed.

(** The first [n] ids of the counter from [a]. *)
Definition ids_from (a : N) (n : nat) : list N :=
  (λ i, u64_wrapping_add a (N.of_nat i)) <$> seq 0 n.

Lemma ids_from_cons (a : N) (n : nat) :
  a ≤ u64_max → ids_from a (S n) = a :: ids_from (u64_wrapping_add a 1) n.
Proof.
  intros Ha. unfold ids_from. cbn. f_equal.
  - unfold u64_wrapping_add. rewrite N.add_0_r. apply N.mod_small. lia.
  - rewrite <-fmap_S_seq, <-list_fmap_compose. apply list_fmap_ext. intros i x _. cbn.
    unfold u64_wrapping_add. rewrite N.Div0.add_mod_idemp_l. f_equal. lia.
Qed.

Lemma ids_from_NoDup (a : N) (n : nat) :
  N.of_nat n ≤ u64_max + 1 → NoDup (ids_from a n).
Proof.
  intros Hn. unfold ids_from. apply NoDup_fmap_2_strong; [|apply NoDup_seq].
  intros x y Hx%elem_of_seq Hy%elem_of_seq E. unfold u64_wrapping_add in E.
  set (M := u64_max + 1) in *. assert (M ≠ 0) by (unfold M; lia).
  pose proof (N.div_mod (a + N.of_nat x) M ltac:(done)) as D1.
  pose proof (N.div_mod (a + N.of_nat y) M ltac:(done)) as D2. rewrite E in D1.
  assert ((a + N.of_nat x) / M = (a + N.of_nat y) / M); [|nia].
  destruct (N.lt_trichotomy ((a + N.of_nat x) / M) ((a + N.of_nat y) / M)) as [?|[?|?]]; nia.
Qed.

Section Supervised.
Context {Decimal Q : Type} `{HL : ChannelLaws Q (@CallerInbound Decimal)}.
Abbreviation World := (SvCalls Decimal Q).

(** Both mirrors are there, and the counter is a [u64]. *)
Definition sv_wf (c : World) : Prop :=
  (∀ url, is_Some (state_mirrors (sv (sv_world c)) !! url)) ∧
  next_handle_id (sv (sv_world c)) ≤ u64_max.

Definition items (c : World) : list CallerInbound :=
  chan_items (td_channel (sv_bus (sv_world c))).

Definition open_calls (c : World) : list (WsUrl * N) := omap id (sv_calls c).

Lemma try_send_items (i : CallerInbound) (q : Q) :
  let '(r, q') := chan_try_send i q in
  chan_items q' = chan_items q ++ match r with Sent => [i] | _ => [] end ∧
  (r ≠ Sent → q' = q ∧ (chan_closed q = true ∨ chan_room q = 0)).
Proof using HL.
  destruct (chan_closed q) eqn:Ec.
  - rewrite send_closed by done. rewrite app_nil_r. auto.
  - destruct (N.eq_0_gt_0_cases (chan_room q)) as [Er|Er].
    + rewrite send_full by done. rewrite app_nil_r. auto.
    + destruct (send_ok i q Ec Er) as (q' & -> & -> & _). done.
Qed.

Lemma omap_id_insert {A} (l : list (option A)) i a :
  l !! i = Some (Some a) → omap id l ≡ₚ a :: omap id (<[i := None]> l).
Proof.
  intros Hi. rewrite insert_take_drop by (by eapply lookup_lt_Some).
  rewrite <-(take_drop_middle l i (Some a) Hi) at 1.
  rewrite !omap_app. cbn. solve_Permutation.
Qed.

Lemma sv_op_spec (op : SvOp) (w : World) :
  sv_wf w →
  let '(o, w') := sv_op op w in
  sv_wf w' ∧ answer_own o ∧
  option_list (called o) ++ open_calls w ≡ₚ option_list (answered o) ++ open_calls w' ∧
  match drawn_id o with
  | Some id => id = next_handle_id (sv (sv_world w)) ∧
               next_handle_id (sv (sv_world w')) = u64_wrapping_add id 1
  | None => next_handle_id (sv (sv_world w')) = next_handle_id (sv (sv_world w))
  end ∧
  option_list (received o) ++ items w' = items w ++ option_list (posted o) ∧
  ∀ url st, current_state url (sv (sv_world w)) = Some st →
    current_state url (sv (sv_world w')) = Some (last_stored url [op] st).
Proof using HL.
  intros [Hm Hn].
  assert (∀ n, u64_wrapping_add n 1 ≤ u64_max) as Hw.
  { intros n. unfold u64_wrapping_add.
    pose proof (N.mod_lt (n + 1) (u64_max + 1) ltac:(lia)). lia. }
  destruct op as [url|i| | |u st]; cbn.
  - unfold sv_wf, items, open_calls. cbn. rewrite app_nil_r, omap_app. cbn.
    split_and!; try done. solve_Permutation.
  - destruct (sv_calls w !! i) as [[[url id]|]|] eqn:Hi;
      [|cbn; unfold sv_wf, items; rewrite app_nil_r; by split_and!..].
    unfold connect_post, try_post_caller_inbound.
    pose proof (try_send_items (InFsmEvent url (StartConnect id))
      (td_channel (sv_bus (sv_world w)))) as Hs.
    destruct (chan_try_send _ _) as [r q] eqn:E. destruct Hs as [Hs _].
    pose proof (omap_id_insert _ _ _ Hi) as Hp.
    unfold sv_wf, items, open_calls. destruct r; cbn; by split_and!.
  - unfold sv_wf, items. cbn. rewrite app_nil_r. by split_and!.
  - destruct (chan_items (td_channel (sv_bus (sv_world w)))) as [|i rest] eqn:E.
    + rewrite recv_none by done. unfold sv_wf, items. cbn. rewrite E. by split_and!.
    + destruct (recv_some _ _ _ E) as (q' & -> & E' & _).
      unfold sv_wf, items. cbn. rewrite E, E', app_nil_r. by split_and!.
  - unfold items. cbn. rewrite app_nil_r. split; [|split_and!; try done].
    + split; [|done]. cbn. intros url'. apply elem_of_dom. cbn.
      pose proof (store_mirror_dom u st (sv (sv_world w))) as Hd. cbn in Hd. rewrite Hd.
      by apply elem_of_dom.
    + intros url st' Hst. rewrite store_mirror_current by done. by case_decide.
Qed.

Lemma last_stored_cons (url : WsUrl) (op : SvOp) (ops : list SvOp) (st : ConnectionState) :
  last_stored url (op :: ops) st = last_stored url ops (last_stored url [op] st).
Proof. by destruct op. Qed.

Lemma sv_run_spec (ops : list SvOp) (w : World) :
  sv_wf w →
  let '(os, w') := sv_run ops w in
  Forall answer_own os ∧
  omap called os ++ open_calls w ≡ₚ omap answered os ++ open_calls w' ∧
  omap drawn_id os
    = ids_from (next_handle_id (sv (sv_world w))) (length (omap drawn_id os)) ∧
  omap received os ++ items w' = items w ++ omap posted os ∧
  ∀ url st, current_state url (sv (sv_world w)) = Some st →
    current_state url (sv (sv_world w')) = Some (last_stored url ops st).
Proof using HL.
  revert w. induction ops as [|op ops IH]; intros w W; cbn [sv_run].
  { cbn. rewrite app_nil_r. by split_and!. }
  pose proof (sv_op_spec op w W) as Hop. destruct (sv_op op w) as [o w1].
  destruct Hop as (W1 & Ho & Hc & Hid & Hq & Hst). specialize (IH w1 W1).
  destruct (sv_run ops w1) as [os w']. destruct IH as (IHo & IHc & IHid & IHq & IHst).
  assert (∀ A (f : SvObs Decimal → option A), omap f (o :: os) = option_list (f o) ++ omap f os)
    as Hom by (intros A f; cbn; by destruct (f o)).
  rewrite !Hom. split_and!.
  - by constructor.
  - rewrite <-!app_assoc, <-IHc, (Permutation_app_swap_app (option_list (answered o))), <-Hc.
    solve_Permutation.
  - destruct (drawn_id o) as [id|].
    + destruct Hid as [-> Hid]. change (option_list (Some ?x) ++ ?l) with (x :: l).
      cbn [length]. rewrite ids_from_cons by apply W. by rewrite <-Hid, <-IHid.
    + change (option_list None ++ ?l) with l. by rewrite <-Hid.
  - rewrite <-app_assoc, IHq, app_assoc, Hq, <-app_assoc. done.
  - intros url st Hs. rewrite last_stored_cons. by apply IHst, Hst.
Qed.

Lemma connect_refused (url : WsUrl) (w : SupervisorWorld Decimal Q) :
  (∃ e, (connect url w).1 = inl e) ↔
  chan_closed (td_channel (sv_bus w)) = true ∨ chan_room (td_channel (sv_bus w)) = 0.
Proof using HL.
  unfold connect, connect_post, try_post_caller_inbound. cbn.
  set (i := InFsmEvent _ _). set (q := td_channel (sv_bus w)).
  destruct (chan_closed q) eqn:Ec; [rewrite send_closed by done; cbn; naive_solver|].
  destruct (N.eq_0_gt_0_cases (chan_room q)) as [Er|Er].
  - rewrite send_full by done. cbn. naive_solver.
  - destruct (send_ok i q Ec Er) as (q' & -> & _). cbn. split; [by intros []|intros [?|?]; [done|lia]].
Qed.

(** A call nothing interrupts is [connect]. *)
Lemma connect_alone (url : WsUrl) (w : SupervisorWorld Decimal Q) (calls : list (option (WsUrl * N))) :
  let '(r, w') := connect url w in
  sv_run [SvConnect url; SvPost (length calls)] (mkSvCalls w calls) =
    ([OCalled url (next_handle_id (sv w)); OConnected url (next_handle_id (sv w)) r],
     mkSvCalls w' (calls ++ [None])).
Proof using Type.
  unfold connect. cbn. rewrite lookup_app_r, Nat.sub_diag by lia. cbn.
  destruct (connect_post _ _ _) as [r w'].
  by rewrite insert_app_r_alt, Nat.sub_diag by lia.
Qed.
End Supervised.

(** C39: what callers of the supervisor may rely on, for every sequence of connects of any
    threads, whose two accesses interleave, draws of ids by the reactor, receives and stores
    into the mirrors, over any channel with the documented behaviour.  Ids are drawn in order
    from one, so that while fewer than [2^64] are drawn no two handles or connections of the
    reactor share one.  Every call is answered at most once, and the answer is its own: the
    handle of the endpoint it asked for under the id it drew, or the full queue.  The
    requests the reactor takes, followed by those still queued, are exactly those of the
    accepted connects, each naming the endpoint and that id, in the order of their posts (a
    refused connect posts nothing, and takes its id); a call nothing interrupts is [connect],
    which is refused exactly when the queue is full or closed; and the snapshot of an endpoint never panics: it is the last state stored for it, [Idle]
    at first. *)
Theorem supervisor_sound {Decimal Q : Type} `{ChannelLaws Q (@CallerInbound Decimal)}
  (k : Knobs) (bus : TeardownState Q (@CallerInbound Decimal)) (ops : list SvOp) :
  let '(os, c) := sv_run ops (mkSvCalls (mkSupervisorWorld (new_with_knobs k) bus) []) in
  let w := sv_world c in
  omap drawn_id os = ids_from 1 (length (omap drawn_id os)) ∧
  (N.of_nat (length (omap drawn_id os)) ≤ u64_max + 1 → NoDup (omap drawn_id os)) ∧
  omap called os ≡ₚ omap answered os ++ open_calls c ∧
  Forall answer_own os ∧
  (omap received os ++ chan_items (td_channel (sv_bus w))
   = chan_items (td_channel bus) ++ omap posted os) ∧
  (∀ url, let '(r, w') := connect url w in
     sv_run [SvConnect url; SvPost (length (sv_calls c))] c =
       ([OCalled url (next_handle_id (sv w)); OConnected url (next_handle_id (sv w)) r],
        mkSvCalls w' (sv_calls c ++ [None]))) ∧
  (∀ url, (∃ e, (connect url w).1 = inl e) ↔
     chan_closed (td_channel (sv_bus w)) = true ∨ chan_room (td_channel (sv_bus w)) = 0) ∧
  ∀ url, current_state url (sv w) = Some (last_stored url ops Idle).
Proof.
  pose proof (sv_run_spec ops (mkSvCalls (mkSupervisorWorld (new_with_knobs k) bus) [])) as R.
  destruct (sv_run _ _) as [os c]. destruct R as (Ho & Hc & Hid & Hq & Hst).
  { split; [|cbn; unfold u64_max; lia]. by intros []; eexists. }
  rewrite app_nil_r in Hc.
  split_and!; [done| |done|done|done| | |].
  - intros Hn. rewrite Hid. by apply ids_from_NoDup.
  - intros url. destruct c as [w calls]. apply connect_alone.
  - intros url. apply connect_refused.
  - intros url. apply Hst. by destruct url.
Qed.

(** A full channel, and one with room; the reactor draws an id while a call is about to
    post. *)
Definition sv_demo : list SvOp :=
  [SvConnect Public; SvPost 0; SvConnect Auth; SvPost 1; SvStore Public Open; SvReceive;
   SvConnect Auth; SvDraw; SvConnect Public; SvPost 3; SvPost 2].

Lemma supervisor_sound_witness :
  let bus := mkTeardowns (mkFifo [] 1 false : Fifo (@CallerInbound N)) ([] : list (@CallerInbound N)) false in
  let os := fst (sv_run sv_demo (mkSvCalls (mkSupervisorWorld (new_with_knobs defaults) bus) [])) in
  omap (λ o, match o with OConnected _ _ _ => Some o | _ => None end) os
  = [OConnected Public 1 (inr (mkConnectionHandle Public 1));
     OConnected Auth 2 (inl (mkQueueFull "caller_to_io"));
     OConnected Public 5 (inr (mkConnectionHandle Public 5));
     OConnected Auth 3 (inl (mkQueueFull "caller_to_io"))] ∧
  omap drawn_id os = [1; 2; 3; 4; 5] ∧ NoDup (omap drawn_id os) ∧ Forall answer_own os.
Proof.
  intros bus. pose proof (supervisor_sound defaults bus sv_demo) as H.
  split; [vm_compute; reflexivity|].
  assert (omap drawn_id (fst (sv_run sv_demo (mkSvCalls (mkSupervisorWorld (new_with_knobs defaults) bus) [])))
          = [1; 2; 3; 4; 5]) as Hids by (vm_compute; reflexivity).
  destruct (sv_run _ _) as [os c]. destruct H as (_ & Hnd & _ & Ho & _).
  cbn [fst] in Hids |- *. split; [exact Hids|]. split; [|exact Ho].
  apply Hnd. rewrite Hids. vm_compute. discriminate.
Defined.
