(* ===== verification/Transport.v ===== *)
(** * Transport: the HTTP adapter and the errors of both transports

    [rust/src/transport/{mod,http}.rs].  What the HTTP client (reqwest) answers a request is
    a parameter: the phases its error reports, or a status with a body that decodes or does
    not.  A header map keeps the values of a name in order. *)

From Stdlib Require Import Ascii String.
From stdpp Require Import pretty.
From S2P Require Import Prelude F64 Types Events Errors Rest.
Local Open Scope string_scope.
Local Open Scope N_scope.

(** ** [mod.rs] *)

Record TransportError := mkTransportError {
  te_kind : TransportErrorKind;
  te_transient : bool;
}.

Definition transport_error_code : string := "CONNECTION_ERROR".
Definition transport_error_category : ErrorCategory := CatNetwork.

Definition transport_error_retryable (e : TransportError) : bool :=
  match te_kind e with
  | RequestSentNoResponse | Ssl | OtherTransport _ => false
  | HttpUpgradeRejected status => http_upgrade_status_transient status
  | HttpStatus _ => te_transient e
  | _ => true
  end.

Definition transport_error_message (e : TransportError) : string :=
  match te_kind e with
  | TcpConnectTimeout => "TCP connect timeout."
  | TcpRefused => "TCP connection refused."
  | DnsFailure => "DNS resolution failed."
  | TlsHandshakeFailure => "TLS handshake failed."
  | SocketReset => "Socket reset."
  | RequestSentNoResponse => "Request sent; no response."
  | Ssl => "SSL error."
  | CloseFrame code reason => "WS close " ++ decimal code ++ ": " ++ reason ++ "."
  | AbnormalClose context => "WS abnormal close: " ++ context ++ "."
  | HttpUpgradeRejected status => "WS upgrade rejected: HTTP " ++ decimal status ++ "."
  | HttpStatus status => "HTTP " ++ decimal status ++ "."
  | OtherTransport s => "Transport: " ++ s
  end.

(** RFC 6455 *)
Inductive WsOpcode := Continuation | Text | Binary | OpcodeClose | Ping | Pong.

Record WsFrame := mkFrame { opcode : WsOpcode; frame_payload : string }.

Record WsSocketFactory := mkFactory {
  next_connection_id : N;
  public_url : string;
  auth_url : string;
}.

Definition new_with_urls (public_url auth_url : string) : WsSocketFactory :=
  mkFactory 1 public_url auth_url.

(** The id and the endpoint of the socket [open_and_spawn] starts. *)
Definition open_socket_at (url : WsUrl) (f : WsSocketFactory) : (N * string) * WsSocketFactory :=
  ((next_connection_id f, match url with Public => public_url f | Auth => auth_url f end),
   mkFactory (u64_wrapping_add (next_connection_id f) 1) (public_url f) (auth_url f)).

(** ** [http.rs] *)

Definition SDK_USER_AGENT : string := "kraken-sdk-rust/0.1.0".
Definition SDK_KORIGIN_HEADER : string := "x-korigin".
Definition SDK_KORIGIN_REST : string := "12003".
Definition SDK_KORIGIN_WS : string := "12004".

Definition is_transient_status (status : N) : bool :=
  ((500 <=? status) && (status <=? 599))
  || match status with 408 | 425 | 429 => true | _ => false end.

(** The predicates of a [reqwest::Error] and its text. *)
Record HttpFailure := mkHttpFailure {
  is_connect : bool;
  is_timeout : bool;
  is_body : bool;
  is_request : bool;
  is_decode : bool;
  failure_text : string;
}.

Definition classify_error_flags (e : HttpFailure) : TransportError :=
  let kind :=
    if is_connect e then (if is_timeout e then TcpConnectTimeout else TcpRefused)
    else if is_timeout e || is_body e || is_request e || is_decode e
    then RequestSentNoResponse
    else OtherTransport (failure_text e) in
  mkTransportError kind (is_timeout e || is_connect e || is_body e || is_request e).

(** A header map: the values of a name, in order. *)
Abbreviation HeaderMap := (gmap string (list string)).

Definition header_get (name : string) (h : HeaderMap) : option string := h !! name ≫= head.
Definition header_insert (name value : string) (h : HeaderMap) : HeaderMap := <[name := [value]]> h.

Definition compose_user_agent (headers : HeaderMap) : string :=
  match header_get "user-agent" headers with
  | Some app => app ++ " " ++ SDK_USER_AGENT
  | None => SDK_USER_AGENT
  end.

(** [ReqwestHttpTransport::with_headers] *)
Record ReqwestHttpTransport := mkHttp {
  http_base_url : string;
  http_timeout : Duration;
  http_connect_timeout : Duration;
  http_defaults : HeaderMap;
}.

Definition http_with_headers (base_url : string) (timeout : Duration) (headers : HeaderMap)
  : ReqwestHttpTransport :=
  mkHttp base_url timeout (N.min timeout (10 * nanos_per_sec))
    (header_insert SDK_KORIGIN_HEADER SDK_KORIGIN_REST
       (header_insert "user-agent" (compose_user_agent headers) headers)).

Definition with_base_url_and_timeout (base_url : string) (timeout : Duration)
  : ReqwestHttpTransport := http_with_headers base_url timeout ∅.

Definition http_with_base_url (base_url : string) : ReqwestHttpTransport :=
  with_base_url_and_timeout base_url (30 * nanos_per_sec).

Definition http_new : ReqwestHttpTransport := http_with_base_url "https://api.kraken.com".

Inductive HttpMethod := HttpGet | HttpPost.

Record HttpRequest := mkHttpRequest {
  hr_method : HttpMethod;
  hr_url : string;
  hr_query : list (string * string);
  hr_headers : list (string * string);
  hr_body : option string;
}.

Record HttpResponse := mkHttpResponse {
  hp_status : N;
  hp_json : HttpFailure + Json;
}.

(** [StatusCode::is_success] *)
Definition is_success (status : N) : bool := (200 <=? status) && (status <=? 299).

(** What both calls make of the client's answer. *)
Definition http_result (answer : HttpFailure + HttpResponse) : TransportError + Json :=
  match answer with
  | inl e => inl (classify_error_flags e)
  | inr response =>
      if negb (is_success (hp_status response)) then
        inl (mkTransportError (HttpStatus (hp_status response))
               (is_transient_status (hp_status response)))
      else
        match hp_json response with
        | inl e => inl (classify_error_flags e)
        | inr v => inr v
        end
  end.

Section Http.
Context (client : ReqwestHttpTransport) (send : HttpRequest → HttpFailure + HttpResponse).

Definition get_request (path : string) (query_params : list (string * string)) : HttpRequest :=
  mkHttpRequest HttpGet (http_base_url client ++ path) query_params [] None.

Definition get_json (path : string) (query_params : list (string * string))
  : TransportError + Json :=
  http_result (send (get_request path query_params)).

Definition post_request (path body api_key_header api_sign_header : string) : HttpRequest :=
  mkHttpRequest HttpPost (http_base_url client ++ path) []
    [("API-Key", api_key_header); ("API-Sign", api_sign_header);
     ("Content-Type", "application/x-www-form-urlencoded")] (Some body).

Definition post_form_signed (path body api_key_header api_sign_header : string)
  : TransportError + Json :=
  http_result (send (post_request path body api_key_header api_sign_header)).
End Http.

(** ** What the classification promises *)

(** The SDK's own token is always on the wire, and its origin whatever the caller's map. *)
Lemma identity_headers base timeout headers :
  let h := http_defaults (http_with_headers base timeout headers) in
  header_get SDK_KORIGIN_HEADER h = Some SDK_KORIGIN_REST ∧
  (∃ app, header_get "user-agent" h = Some (app ++ SDK_USER_AGENT)) ∧
  ∀ name, name ≠ SDK_KORIGIN_HEADER → name ≠ "user-agent" → h !! name = headers !! name.
Proof.
  cbn. unfold header_get, header_insert. rewrite lookup_insert_eq. split; [done|]. split.
  - rewrite lookup_insert_ne, lookup_insert_eq by done. cbn. unfold compose_user_agent.
    destruct (header_get _ _) as [app|]; [|by exists ""].
    exists (app ++ " "). by rewrite <-str_app_assoc.
  - intros name H1 H2. by rewrite !lookup_insert_ne by done.
Qed.

(** Kraken's answer is handed on exactly when the status is a success and the body decodes;
    a failure that says nothing was sent comes from the connection phase alone, and one after
    it is ambiguous unless the client reports no phase. *)
Lemma http_result_facts answer :
  (∀ v, http_result answer = inr v ↔
     ∃ r, answer = inr r ∧ is_success (hp_status r) = true ∧ hp_json r = inr v) ∧
  (∀ e, http_result answer = inl e →
     (te_kind e = TcpConnectTimeout ∨ te_kind e = TcpRefused) →
     ∃ f, (answer = inl f ∨ ∃ r, answer = inr r ∧ hp_json r = inl f) ∧ is_connect f = true) ∧
  (∀ f, answer = inl f → is_connect f = false →
     (is_timeout f || is_body f || is_request f || is_decode f) = true →
     ∃ e, http_result answer = inl e ∧ is_sent_ambiguous (te_kind e) = true ∧
       transport_error_retryable e = false).
Proof.
  unfold http_result, classify_error_flags. split_and!.
  - intros v. destruct answer as [f|r]; [naive_solver|].
    destruct (is_success (hp_status r)) eqn:Hs; cbn.
    + destruct (hp_json r) as [f|v'] eqn:Hj; split; try done.
      * intros (r' & [= <-] & _ & Hj'). by rewrite Hj in Hj'.
      * intros [= <-]. by exists r.
      * intros (r' & [= <-] & _ & Hj'). rewrite Hj in Hj'. by injection Hj' as <-.
    + split; [done|]. intros (r' & [= <-] & Hs' & _). by rewrite Hs in Hs'.
  - intros e He Hk. destruct answer as [f|r].
    + exists f. split; [by left|]. injection He as <-. cbn in Hk.
      
      destruct (is_connect f); [done|]. destruct (_ || _) in Hk; naive_solver.
    + destruct (is_success (hp_status r)); cbn in He; [|injection He as <-; naive_solver].
      destruct (hp_json r) as [f|v] eqn:Hj; [|done]. exists f. split; [right; by exists r|].
      injection He as <-. cbn in Hk. 
      destruct (is_connect f); [done|]. destruct (_ || _) in Hk; naive_solver.
  - intros f -> Hc Hp. eexists. split; [done|]. by rewrite Hc, Hp.
Qed.
