(* ===== verification/Socket.v ===== *)
(** * Socket: a WebSocket and its tasks

    [rust/src/transport/ws.rs].  The owner of a socket (the reactor) and its three tasks, the
    opener, the reader and the writer, are machines whose steps are the calls on shared
    channels, handles and the bus; any of them may take the next step.  The bounded channels
    (tokio's [mpsc]) are the channels of [Teardowns], with whether their other end is still
    held kept beside them; what the network answers is the environment's choice.  A task that
    was aborted may still take the steps up to its next [await]. *)

From Stdlib Require Import Ascii String.
From S2P Require Import Prelude F64 Types Events Errors Rest Teardowns Transport.
Local Open Scope string_scope.
Local Open Scope N_scope.

(** ** Messages and errors of the protocol library (tungstenite) *)

Inductive Message :=
  | MText (s : string) | MBinary (b : string) | MPing (b : string) | MPong (b : string)
  | MClose (frame : option (N * string)) | MFrame.

Inductive IoErrorKind := IoTimedOut | IoConnectionRefused | IoConnectionReset | IoOther.

Inductive TError :=
  | TConnectionClosed | TAlreadyClosed | TIo (kind : IoErrorKind) (text : string) | TTls
  | THttp (status : N) | TUrl (text : string) | THttpFormat (text : string)
  | TOther (text : string).

Definition classify_tungstenite_error (e : TError) : TransportError :=
  let '(kind, transient) :=
    match e with
    | TConnectionClosed | TAlreadyClosed => (AbnormalClose "connection closed", true)
    | TIo io_kind text =>
        (match io_kind with
         | IoTimedOut => TcpConnectTimeout
         | IoConnectionRefused => TcpRefused
         | IoConnectionReset => SocketReset
         | IoOther => AbnormalClose ("io: " ++ text)
         end, true)
    | TTls => (TlsHandshakeFailure, true)
    | THttp status => (HttpUpgradeRejected status, http_upgrade_status_transient status)
    | TUrl text | THttpFormat text => (OtherTransport text, false)
    | TOther text => (OtherTransport text, false)
    end in
  mkTransportError kind transient.

(** ** [String::from_utf8] *)

Definition between (low high : N) (c : ascii) : bool :=
  (low <=? N_of_ascii c) && (N_of_ascii c <=? high).

Definition continues : ascii → bool := between 128 191.

Fixpoint utf8_valid (s : string) : bool :=
  match s with
  | EmptyString => true
  | String a s1 =>
      if between 0 127 a then utf8_valid s1
      else
        match s1 with
        | EmptyString => false
        | String b s2 =>
            if between 194 223 a then continues b && utf8_valid s2
            else
              match s2 with
              | EmptyString => false
              | String c s3 =>
                  if between 224 239 a then
                    between (if N_of_ascii a =? 224 then 160 else 128)
                      (if N_of_ascii a =? 237 then 159 else 191) b
                    && continues c && utf8_valid s3
                  else
                    match s3 with
                    | EmptyString => false
                    | String d s4 =>
                        between 240 244 a
                        && between (if N_of_ascii a =? 240 then 144 else 128)
                             (if N_of_ascii a =? 244 then 143 else 191) b
                        && continues c && continues d && utf8_valid s4
                    end
              end
        end
  end.

(** ** One message at a time *)

Inductive WsOutbound := OutFrame (f : WsFrame) | OutClose (code : N).

Definition DEFAULT_OUTBOUND_CAPACITY : N := 256.
Definition DEFAULT_INBOUND_CAPACITY : N := 256.

(** The message of a queued item and whether the writer ends with it; [None] is skipped. *)
Definition outbound_message (o : WsOutbound) : option (Message * bool) :=
  match o with
  | OutFrame f =>
      match opcode f with
      | Text => if utf8_valid (frame_payload f) then Some (MText (frame_payload f), false) else None
      | Binary => Some (MBinary (frame_payload f), false)
      | Ping => Some (MPing (frame_payload f), false)
      | Pong => Some (MPong (frame_payload f), false)
      | OpcodeClose => Some (MClose None, false)
      | Continuation => None
      end
  | OutClose code => Some (MClose (Some (code, "")), true)
  end.

Section Socket.
Context (kind_debug : TransportErrorKind → string).

(** What the reader makes of [stream.next()]; the close it announces, if any. *)
Inductive ReadOutcome :=
  | ReadFrame (f : WsFrame)
  | ReadSkip
  | ReadEnd (e : TransportError) (announced : option (N * string)).

Definition reader_outcome (next : option (TError + Message)) : ReadOutcome :=
  match next with
  | None => ReadEnd (mkTransportError (AbnormalClose "stream ended without close frame") false) None
  | Some (inr (MClose cf)) =>
      let '(code, reason) := default (1006, "") cf in
      ReadEnd (mkTransportError (CloseFrame code reason) false) (Some (code, reason))
  | Some (inr (MText s)) => ReadFrame (mkFrame Text s)
  | Some (inr (MBinary b)) => ReadFrame (mkFrame Binary b)
  | Some (inr (MPing b)) => ReadFrame (mkFrame Ping b)
  | Some (inr (MPong b)) => ReadFrame (mkFrame Pong b)
  | Some (inr MFrame) => ReadSkip
  | Some (inl e) =>
      let te := classify_tungstenite_error e in
      ReadEnd te (Some (1006, kind_debug (te_kind te)))
  end.

(** ** The tasks *)

Inductive Opener :=
  | OpConnecting | OpConnected | OpAccepted | OpReaderSpawned | OpWriterSpawned
  | OpReaderStored | OpStored | OpRefused (e : TError) | OpFailing (e : TError) | OpEnded.

(** [last] tells a terminal payload, with the close to announce after it. *)
Inductive Reader :=
  | RdAbsent | RdReading
  | RdOffering (p : TransportError + WsFrame) (last : option (option (N * string)))
  | RdPublishing (code : N) (reason : string) | RdEnded.

Inductive Writer := WrAbsent | WrWaiting | WrSending (m : Message) (last : bool) | WrEnded.

(** The owner, and where its destructor is. *)
Inductive Owner := Holding | AbortReader | AbortWriter | ReleaseOutbox | ReleaseInbox | Gone.

#[export] Instance Owner_eq_dec : EqDecision Owner.
Proof. solve_decision. Defined.

Inductive SocketEvent :=
  | UpgradeOk | UpgradeFailed (e : TransportError) | SocketClosed (code : N) (reason : string).

(** What happens at a socket: a result of the stream, a message the sink took, an event
    published, an item queued, and what [recv_frame] returns: the reader's payload, or that
    the reader is gone. *)
Inductive SockObs :=
  | ORead (next : option (TError + Message))
  | OWire (m : Message)
  | OPublished (e : SocketEvent)
  | OQueued (o : WsOutbound)
  | ORefused (r : SendResult WsOutbound)
  | OReceived (p : TransportError + WsFrame)
  | OReaderGone (e : TransportError).

Context {QI QO : Type} `{Channel QI (TransportError + WsFrame)} `{Channel QO WsOutbound}.

Record SocketWorld := mkSocketWorld {
  sk_owner : Owner;
  sk_inbox : QI;
  sk_outbox : QO;
  sk_opener : Opener;
  sk_reader : Reader;
  sk_writer : Writer;
  sk_reader_handle : bool;
  sk_writer_handle : bool;
  sk_reader_aborted : bool;
  sk_writer_aborted : bool;
  sk_log : list SockObs;
}.

(** [open_and_spawn], over fresh channels. *)
Definition open_and_spawn (inbox : QI) (outbox : QO) : SocketWorld :=
  mkSocketWorld Holding inbox outbox OpConnecting RdAbsent WrAbsent false false false false [].

Definition set_owner (o : Owner) (w : SocketWorld) : SocketWorld :=
  mkSocketWorld o (sk_inbox w) (sk_outbox w) (sk_opener w) (sk_reader w) (sk_writer w)
    (sk_reader_handle w) (sk_writer_handle w) (sk_reader_aborted w) (sk_writer_aborted w) (sk_log w).
Definition set_inbox (q : QI) (w : SocketWorld) : SocketWorld :=
  mkSocketWorld (sk_owner w) q (sk_outbox w) (sk_opener w) (sk_reader w) (sk_writer w)
    (sk_reader_handle w) (sk_writer_handle w) (sk_reader_aborted w) (sk_writer_aborted w) (sk_log w).
Definition set_outbox (q : QO) (w : SocketWorld) : SocketWorld :=
  mkSocketWorld (sk_owner w) (sk_inbox w) q (sk_opener w) (sk_reader w) (sk_writer w)
    (sk_reader_handle w) (sk_writer_handle w) (sk_reader_aborted w) (sk_writer_aborted w) (sk_log w).
Definition set_opener (o : Opener) (w : SocketWorld) : SocketWorld :=
  mkSocketWorld (sk_owner w) (sk_inbox w) (sk_outbox w) o (sk_reader w) (sk_writer w)
    (sk_reader_handle w) (sk_writer_handle w) (sk_reader_aborted w) (sk_writer_aborted w) (sk_log w).
Definition set_reader (r : Reader) (w : SocketWorld) : SocketWorld :=
  mkSocketWorld (sk_owner w) (sk_inbox w) (sk_outbox w) (sk_opener w) r (sk_writer w)
    (sk_reader_handle w) (sk_writer_handle w) (sk_reader_aborted w) (sk_writer_aborted w) (sk_log w).
Definition set_writer (r : Writer) (w : SocketWorld) : SocketWorld :=
  mkSocketWorld (sk_owner w) (sk_inbox w) (sk_outbox w) (sk_opener w) (sk_reader w) r
    (sk_reader_handle w) (sk_writer_handle w) (sk_reader_aborted w) (sk_writer_aborted w) (sk_log w).
Definition set_handles (r wr ra wa : bool) (w : SocketWorld) : SocketWorld :=
  mkSocketWorld (sk_owner w) (sk_inbox w) (sk_outbox w) (sk_opener w) (sk_reader w) (sk_writer w)
    r wr ra wa (sk_log w).
Definition note (o : SockObs) (w : SocketWorld) : SocketWorld :=
  mkSocketWorld (sk_owner w) (sk_inbox w) (sk_outbox w) (sk_opener w) (sk_reader w) (sk_writer w)
    (sk_reader_handle w) (sk_writer_handle w) (sk_reader_aborted w) (sk_writer_aborted w)
    (sk_log w ++ [o])%list.

(** *** The ends of the channels *)

(** [inbox_tx.is_closed()] *)
Definition inbox_closed (w : SocketWorld) : bool := bool_decide (sk_owner w = Gone).

(** No [outbox_tx] is left. *)
Definition outbox_unsent (w : SocketWorld) : bool :=
  match sk_owner w with ReleaseInbox | Gone => true | _ => false end.

(** [inbox_tx] is held by the opener until the reader has it; so is [outbox_rx], for the
    writer. *)
Definition inbox_fed (w : SocketWorld) : bool :=
  match sk_reader w with
  | RdAbsent => match sk_opener w with OpEnded => false | _ => true end
  | RdEnded => false
  | _ => true
  end.
Definition outbox_served (w : SocketWorld) : bool :=
  match sk_writer w with
  | WrAbsent => match sk_opener w with OpEnded => false | _ => true end
  | WrEnded => false
  | _ => true
  end.

(** *** The owner *)

Definition queue_outbound (o : WsOutbound) (w : SocketWorld) : SocketWorld :=
  if outbox_served w then
    let '(r, q) := chan_try_send o (sk_outbox w) in
    let w := set_outbox q w in
    match r with Sent => note (OQueued o) w | r => note (ORefused r) w end
  else note (ORefused (Closed o)) w.

Definition recv_frame (w : SocketWorld) : SocketWorld :=
  match chan_recv (sk_inbox w) with
  | (Some p, q) => note (OReceived p) (set_inbox q w)
  | (None, _) =>
      if inbox_fed w then w
      else note (OReaderGone (mkTransportError (AbnormalClose "reader task terminated") false)) w
  end.

(** [Drop], then the fields in their order. *)
Definition drop_step (w : SocketWorld) : SocketWorld :=
  match sk_owner w with
  | Holding => set_owner AbortReader w
  | AbortReader =>
      set_owner AbortWriter
        (set_handles false (sk_writer_handle w) (sk_reader_handle w || sk_reader_aborted w)
           (sk_writer_aborted w) w)
  | AbortWriter =>
      set_owner ReleaseOutbox
        (set_handles (sk_reader_handle w) false (sk_reader_aborted w)
           (sk_writer_handle w || sk_writer_aborted w) w)
  | ReleaseOutbox => set_owner ReleaseInbox w
  | ReleaseInbox => set_owner Gone w
  | Gone => w
  end.

(** *** The opener: [connected] is what the connection attempt yields; [None] is that the
    socket was dropped. *)
Definition opener_step (connected : option (TError + ())) (w : SocketWorld) : SocketWorld :=
  match sk_opener w with
  | OpConnecting =>
      match connected with
      | None => if inbox_closed w then set_opener OpEnded w else w
      | Some (inl e) => set_opener (OpRefused e) w
      | Some (inr _) => set_opener OpConnected w
      end
  | OpConnected => set_opener (if inbox_closed w then OpEnded else OpAccepted) w
  | OpAccepted => set_opener OpReaderSpawned (set_reader RdReading w)
  | OpReaderSpawned => set_opener OpWriterSpawned (set_writer WrWaiting w)
  | OpWriterSpawned =>
      set_opener OpReaderStored
        (set_handles true (sk_writer_handle w) (sk_reader_aborted w) (sk_writer_aborted w) w)
  | OpReaderStored =>
      set_opener OpStored
        (set_handles (sk_reader_handle w) true (sk_reader_aborted w) (sk_writer_aborted w) w)
  | OpStored => set_opener OpEnded (note (OPublished UpgradeOk) w)
  | OpRefused e => set_opener (if inbox_closed w then OpEnded else OpFailing e) w
  | OpFailing e =>
      set_opener OpEnded (note (OPublished (UpgradeFailed (classify_tungstenite_error e))) w)
  | OpEnded => w
  end.

(** *** The reader: [next] is what the stream yields; [None] is that the socket was dropped. *)
Definition reader_sent (last : option (option (N * string))) : Reader :=
  match last with
  | None => RdReading
  | Some (Some (code, reason)) => RdPublishing code reason
  | Some None => RdEnded
  end.

(** A frame that cannot be delivered ends the reader; a terminal payload is let go. *)
Definition reader_unsent (last : option (option (N * string))) : Reader :=
  match last with None => RdEnded | last => reader_sent last end.

Definition reader_step (stop : bool) (next : option (option (TError + Message)))
  (w : SocketWorld) : SocketWorld :=
  let stopped := stop && sk_reader_aborted w in
  match sk_reader w with
  | RdReading =>
      if stopped then set_reader RdEnded w
      else
        match next with
        | None => if inbox_closed w then set_reader RdEnded w else w
        | Some next =>
            set_reader
              (match reader_outcome next with
               | ReadFrame f => RdOffering (inr f) None
               | ReadSkip => RdReading
               | ReadEnd e announced => RdOffering (inl e) (Some announced)
               end) (note (ORead next) w)
        end
  | RdOffering p last =>
      if stopped then set_reader RdEnded w
      else if inbox_closed w then set_reader (reader_unsent last) w
      else
        let '(r, q) := chan_try_send p (sk_inbox w) in
        match r with
        | Sent => set_reader (reader_sent last) (set_inbox q w)
        | Full _ => w
        | Closed _ => set_reader (reader_unsent last) w
        end
  | RdPublishing code reason =>
      set_reader RdEnded (note (OPublished (SocketClosed code reason)) w)
  | RdAbsent | RdEnded => w
  end.

(** *** The writer: [taken] is the sink's answer. *)
Definition writer_step (stop taken : bool) (w : SocketWorld) : SocketWorld :=
  let stopped := stop && sk_writer_aborted w in
  match sk_writer w with
  | WrWaiting =>
      if stopped then set_writer WrEnded w
      else
        match chan_recv (sk_outbox w) with
        | (Some o, q) =>
            set_writer (match outbound_message o with
                        | Some (m, last) => WrSending m last
                        | None => WrWaiting
                        end) (set_outbox q w)
        | (None, _) => if outbox_unsent w then set_writer WrEnded w else w
        end
  | WrSending m last =>
      if stopped then set_writer WrEnded w
      else if taken then set_writer (if last then WrEnded else WrWaiting) (note (OWire m) w)
      else set_writer WrEnded w
  | WrAbsent | WrEnded => w
  end.

Inductive SockAct :=
  | SkSend (f : WsFrame)
  | SkClose (code : N)
  | SkRecv
  | SkDrop
  | SkOpener (connected : option (TError + ()))
  | SkReader (stop : bool) (next : option (option (TError + Message)))
  | SkWriter (stop taken : bool).

(** The owner calls only while it holds the socket. *)
Definition sock_act (x : SockAct) (w : SocketWorld) : SocketWorld :=
  match x with
  | SkSend f => if decide (sk_owner w = Holding) then queue_outbound (OutFrame f) w else w
  | SkClose code => if decide (sk_owner w = Holding) then queue_outbound (OutClose code) w else w
  | SkRecv => if decide (sk_owner w = Holding) then recv_frame w else w
  | SkDrop => drop_step w
  | SkOpener connected => opener_step connected w
  | SkReader stop next => reader_step stop next w
  | SkWriter stop taken => writer_step stop taken w
  end.

Definition run_socket (xs : list SockAct) (w : SocketWorld) : SocketWorld :=
  fold_left (λ w x, sock_act x w) xs w.
End Socket.
Arguments SocketWorld : clear implicits.
