(* ===== verification/SocketProps.v ===== *)
(** * SocketProps: what a socket promises to its owner

    The promises of [Socket] for any interleaving of the owner's calls and the steps of the
    three tasks, over any channels with the documented behaviour. *)

From Stdlib Require Import Ascii String.
From S2P Require Import Prelude F64 Types Events Errors Rest Teardowns Transport Socket.
Local Open Scope N_scope.

Section SocketProps.
Context (kind_debug : TransportErrorKind → string).
Context {QI QO : Type} `{HI : ChannelLaws QI (TransportError + WsFrame)}
  `{HO : ChannelLaws QO WsOutbound}.
Abbreviation World := (SocketWorld QI QO).
Abbreviation step x w := (sock_act kind_debug x w).
Abbreviation outcome := (reader_outcome kind_debug).

(** ** What a log tells *)

Definition reads (l : list SockObs) : list (option (TError + Message)) :=
  omap (λ o, match o with ORead n => Some n | _ => None end) l.
Definition received (l : list SockObs) : list (TransportError + WsFrame) :=
  omap (λ o, match o with OReceived p => Some p | _ => None end) l.
Definition reader_gone (l : list SockObs) : bool :=
  existsb (λ o, match o with OReaderGone _ => true | _ => false end) l.
Definition queued (l : list SockObs) : list WsOutbound :=
  omap (λ o, match o with OQueued o => Some o | _ => None end) l.
Definition wired (l : list SockObs) : list Message :=
  omap (λ o, match o with OWire m => Some m | _ => None end) l.
Definition upgrades (l : list SockObs) : list SocketEvent :=
  omap (λ o, match o with
             | OPublished (SocketClosed _ _) => None
             | OPublished e => Some e
             | _ => None
             end) l.
Definition closes (l : list SockObs) : list (N * string) :=
  omap (λ o, match o with OPublished (SocketClosed c r) => Some (c, r) | _ => None end) l.

(** What a result of the stream puts in the inbox, and whether it is the last. *)
Definition payload_of (next : option (TError + Message)) : list (TransportError + WsFrame) :=
  match outcome next with ReadFrame f => [inr f] | ReadSkip => [] | ReadEnd e _ => [inl e] end.
Definition terminal (next : option (TError + Message)) : bool :=
  match outcome next with ReadEnd _ _ => true | _ => false end.
Definition inbound (l : list (option (TError + Message))) : list (TransportError + WsFrame) :=
  l ≫= payload_of.

(** The message of an item, and whether the writer ends with it. *)
Definition message_of (o : WsOutbound) : option Message := fst <$> outbound_message o.
Definition closing_item (o : WsOutbound) : bool :=
  match o with OutClose _ => true | OutFrame _ => false end.

Definition held (r : Reader) : list (TransportError + WsFrame) :=
  match r with RdOffering p _ => [p] | _ => [] end.
Definition sending (r : Writer) : list Message :=
  match r with WrSending m _ => [m] | _ => [] end.

(** ** Inbound *)

(** Nothing more is read. *)
Definition past (r : Reader) : bool :=
  match r with RdPublishing _ _ | RdEnded => true | _ => false end.

Definition tail_ok (r : Reader) (tail : list (option (TError + Message))) : Prop :=
  match r with
  | RdAbsent | RdReading | RdOffering _ None => tail = []
  | RdOffering _ (Some c) => ∃ next e, tail = [next] ∧ outcome next = ReadEnd e c
  | RdPublishing c s => ∃ next e, tail = [next] ∧ outcome next = ReadEnd e (Some (c, s))
  | RdEnded => length tail ≤ 1
  end%nat.

Definition closes_ok (r : Reader) (rs : list (option (TError + Message)))
  (cs : list (N * string)) : Prop :=
  cs = [] ∨ (r = RdEnded ∧ ∃ next e c, last rs = Some next ∧ outcome next = ReadEnd e (Some c) ∧ cs = [c]).

Record in_inv (w : World) : Prop := {
  ii_open : chan_closed (sk_inbox w) = false;
  ii_room : chan_room (sk_inbox w) + N.of_nat (length (chan_items (sk_inbox w)))
            = DEFAULT_INBOUND_CAPACITY;
  ii_abort : sk_reader_aborted w = true → sk_owner w ≠ Holding ∧ sk_owner w ≠ AbortReader;
  ii_flow : ∃ lost, inbound (reads (sk_log w))
              = received (sk_log w) ++ chan_items (sk_inbox w) ++ held (sk_reader w) ++ lost ∧
            (lost = [] ∨ past (sk_reader w) = true ∧ sk_owner w ≠ Holding);
  ii_reads : ∃ pre tail, reads (sk_log w) = pre ++ tail ∧
             Forall (λ n, terminal n = false) pre ∧ tail_ok (sk_reader w) tail;
  ii_absent : sk_reader w = RdAbsent → reads (sk_log w) = [];
  ii_closes : closes_ok (sk_reader w) (reads (sk_log w)) (closes (sk_log w));
  ii_gone : reader_gone (sk_log w) = true →
            inbox_fed w = false ∧ chan_items (sk_inbox w) = [] ∧
            inbound (reads (sk_log w)) = received (sk_log w);
}.

Lemma reader_gone_app l l' : reader_gone (l ++ l') = reader_gone l || reader_gone l'.
Proof. apply existsb_app. Qed.

(** Steps that do not concern the reader. *)
Lemma in_frame (w w' : World) :
  in_inv w →
  sk_inbox w' = sk_inbox w → sk_reader w' = sk_reader w →
  (sk_owner w' = Holding → sk_owner w = Holding) →
  (sk_reader_aborted w' = true → sk_owner w' ≠ Holding ∧ sk_owner w' ≠ AbortReader) →
  (inbox_fed w = false → inbox_fed w' = false) →
  reads (sk_log w') = reads (sk_log w) → received (sk_log w') = received (sk_log w) →
  closes (sk_log w') = closes (sk_log w) → reader_gone (sk_log w') = reader_gone (sk_log w) →
  in_inv w'.
Proof.
  intros [] Hi Hr Ho Ha Hf E1 E2 E3 E4.
  split; rewrite ?Hi, ?Hr, ?E1, ?E2, ?E3, ?E4; auto.
  - destruct ii_flow0 as (lost & ? & Hl). exists lost. split; [done|]. naive_solver.
  - naive_solver.
Qed.

Lemma reads_snoc l o :
  reads (l ++ [o]) = reads l ++ match o with ORead n => [n] | _ => [] end.
Proof. unfold reads. rewrite omap_app. by destruct o. Qed.
Lemma received_snoc l o :
  received (l ++ [o]) = received l ++ match o with OReceived p => [p] | _ => [] end.
Proof. unfold received. rewrite omap_app. by destruct o. Qed.
Lemma queued_snoc l o :
  queued (l ++ [o]) = queued l ++ match o with OQueued p => [p] | _ => [] end.
Proof. unfold queued. rewrite omap_app. by destruct o. Qed.
Lemma wired_snoc l o :
  wired (l ++ [o]) = wired l ++ match o with OWire m => [m] | _ => [] end.
Proof. unfold wired. rewrite omap_app. by destruct o. Qed.
Lemma closes_snoc l o :
  closes (l ++ [o]) = closes l ++ match o with
                                  | OPublished (SocketClosed c r) => [(c, r)] | _ => [] end.
Proof. unfold closes. rewrite omap_app. by destruct o as [| |[]| | | |]. Qed.
Lemma upgrades_snoc l o :
  upgrades (l ++ [o]) = upgrades l ++ match o with
                                      | OPublished (SocketClosed _ _) => []
                                      | OPublished e => [e] | _ => [] end.
Proof. unfold upgrades. rewrite omap_app. by destruct o as [| |[]| | | |]. Qed.
Lemma gone_snoc l o :
  reader_gone (l ++ [o]) = reader_gone l || match o with OReaderGone _ => true | _ => false end.
Proof. rewrite reader_gone_app. cbn. by rewrite orb_false_r. Qed.

Lemma inbound_snoc l n : inbound (l ++ [n]) = inbound l ++ payload_of n.
Proof. unfold inbound. rewrite bind_app. cbn. by rewrite app_nil_r. Qed.

End SocketProps.
Arguments inbound : simpl never.
Arguments run_socket : simpl never.
Arguments reads : simpl never.
Arguments received : simpl never.
Arguments closes : simpl never.
Arguments upgrades : simpl never.
Arguments queued : simpl never.
Arguments wired : simpl never.
Arguments reader_gone : simpl never.

(** The projections of a log grown by one entry. *)
Ltac log_simpl :=
  rewrite ?reads_snoc, ?received_snoc, ?closes_snoc, ?gone_snoc, ?queued_snoc, ?wired_snoc,
    ?upgrades_snoc, ?app_nil_r, ?orb_false_r.

Section Queue.
Context {Q Item : Type} `{HL : ChannelLaws Q Item}.

Lemma send_cases (i : Item) (q : Q) :
  chan_closed q = false →
  chan_try_send i q = (Full i, q) ∨
  ∃ q', chan_try_send i q = (Sent, q') ∧ chan_items q' = chan_items q ++ [i] ∧
    chan_room q' + 1 = chan_room q ∧ chan_closed q' = false.
Proof using HL.
  intros Hc. destruct (N.eq_0_gt_0_cases (chan_room q)) as [Hr|Hr].
  - left. by apply send_full.
  - right. destruct (send_ok i q Hc Hr) as (q' & ? & ? & ? & ?). exists q'.
    split_and!; [done..|lia|done].
Qed.

Lemma recv_cases (q : Q) :
  (chan_items q = [] ∧ chan_recv q = (None, q)) ∨
  ∃ i rest q', chan_items q = i :: rest ∧ chan_recv q = (Some i, q') ∧ chan_items q' = rest ∧
    chan_room q' = chan_room q + 1 ∧ chan_closed q' = chan_closed q.
Proof using HL.
  destruct (chan_items q) as [|i rest] eqn:E; [left; split; [done|by apply recv_none]|right].
  destruct (recv_some q i rest E) as (q' & ? & ? & ? & ?). exists i, rest, q'. auto.
Qed.
End Queue.

Section Inbound.
Context (kind_debug : TransportErrorKind → string).
Context {QI QO : Type} `{HI : ChannelLaws QI (TransportError + WsFrame)}
  `{HO : ChannelLaws QO WsOutbound}.
Abbreviation World := (SocketWorld QI QO).
Abbreviation in_inv := (in_inv kind_debug).
Abbreviation outcome := (reader_outcome kind_debug).
Abbreviation tail_ok := (tail_ok kind_debug).
Abbreviation closes_ok := (closes_ok kind_debug).
Abbreviation payload_of := (payload_of kind_debug).
Abbreviation inbound := (inbound kind_debug).
Abbreviation terminal := (terminal kind_debug).

(** The reader moves on without the stream: what it held is delivered, given as [sent], or
    let go once the owner is on its way out. *)
Lemma in_reader_moves (w : World) (r : Reader) (q : QI) (sent : list (TransportError + WsFrame)) :
  in_inv w → sk_reader w ≠ RdAbsent → r ≠ RdAbsent →
  chan_closed q = false →
  chan_room q + N.of_nat (length (chan_items q)) = DEFAULT_INBOUND_CAPACITY →
  chan_items q = chan_items (sk_inbox w) ++ sent → held r = [] →
  (held (sk_reader w) = sent ∨ sent = [] ∧ sk_owner w ≠ Holding ∧ past r = true) →
  (past (sk_reader w) = true → past r = true) →
  (∀ tail, tail_ok (sk_reader w) tail → tail_ok r tail) →
  (sk_reader w = RdEnded → r = RdEnded) →
  in_inv (set_reader r (set_inbox q w)).
Proof.
  intros [] Ha Hr Hc Hroom Hq Hheld Hs Hp Ht He. split; cbn; auto.
  - rewrite Hq, Hheld. destruct ii_flow0 as (lost & -> & Hl). destruct Hs as [<-|(-> & Ho & Hpast)].
    + exists lost. rewrite <-!app_assoc. split; [done|]. naive_solver.
    + exists (held (sk_reader w) ++ lost). rewrite app_nil_r. split; [done|auto].
  - destruct ii_reads0 as (pre & tail & ? & ? & ?). eauto 10.
  - done.
  - destruct ii_closes0 as [|(? & ?)]; [by left|right; auto].
  - intros Hg. destruct (ii_gone0 Hg) as (Hf & Hi & ?). unfold inbox_fed in *. cbn.
    destruct (sk_reader w) eqn:Ew; try done. rewrite (He eq_refl). split_and!; [done| |done].
    destruct Hs as [<-|(-> & _)]; rewrite Hq, Hi; done.
Qed.

(** The reader moves on, letting go of what it held. *)
Lemma in_reader_drops (w : World) (r : Reader) :
  in_inv w → sk_reader w ≠ RdAbsent → r ≠ RdAbsent → held r = [] →
  (held (sk_reader w) = [] ∨ sk_owner w ≠ Holding ∧ past r = true) →
  (past (sk_reader w) = true → past r = true) →
  (∀ tail, tail_ok (sk_reader w) tail → tail_ok r tail) →
  (sk_reader w = RdEnded → r = RdEnded) →
  in_inv (set_reader r w).
Proof.
  intros I Ha Hr Hh Hs Hp Ht He.
  assert (set_reader r w = set_reader r (set_inbox (sk_inbox w) w)) as -> by (by destruct w).
  eapply (in_reader_moves w r _ []); try done.
  - apply I.
  - apply I.
  - by rewrite app_nil_r.
  - naive_solver.
Qed.

Lemma in_reader_reads (w : World) next :
  in_inv w → sk_reader w = RdReading →
  in_inv (set_reader
    (match outcome next with
     | ReadFrame f => RdOffering (inr f) None
     | ReadSkip => RdReading
     | ReadEnd e announced => RdOffering (inl e) (Some announced)
     end) (note (ORead next) w)).
Proof.
  intros [] Hr. set (r := match outcome next with ReadFrame f => _ | ReadSkip => _ | ReadEnd e a => _ end).
  assert (held r = payload_of next) as Hh by (unfold r, payload_of; by destruct (outcome next)).
  rewrite Hr in *. split; cbn; log_simpl; auto.
  - destruct ii_flow0 as (lost & Hf & [->|[? _]]); [|done]. exists []. rewrite Hh, inbound_snoc, Hf.
    cbn. rewrite !app_nil_r, <-app_assoc. auto.
  - destruct ii_reads0 as (pre & tail & -> & Hpre & ->). rewrite app_nil_r.
    destruct (outcome next) as [f| |e a] eqn:Ho; subst r; cbn.
    + exists (pre ++ [next]), []. rewrite app_nil_r. split_and!; [done| |done].
      apply Forall_app_2; [done|]. constructor; [|done]. unfold terminal. by rewrite Ho.
    + exists (pre ++ [next]), []. rewrite app_nil_r. split_and!; [done| |done].
      apply Forall_app_2; [done|]. constructor; [|done]. unfold terminal. by rewrite Ho.
    + exists pre, [next]. split_and!; [done..|]. eauto.
  - subst r. by destruct (outcome next).
  - destruct ii_closes0 as [->|[? _]]; [by left|done].
  - intros Hg. destruct (ii_gone0 Hg) as (Hf & _). unfold inbox_fed in Hf. by rewrite Hr in Hf.
Qed.

Lemma in_reader_publishes (w : World) c s :
  in_inv w → sk_reader w = RdPublishing c s →
  in_inv (set_reader RdEnded (note (OPublished (SocketClosed c s)) w)).
Proof.
  intros [] Hr. rewrite Hr in *. split; cbn; log_simpl; auto.
  - destruct ii_reads0 as (pre & tail & ? & ? & (next & e & -> & ?)). exists pre, [next].
    split_and!; [done..|cbn; lia].
  - done.
  - right. destruct ii_reads0 as (pre & tail & -> & ? & (next & e & -> & ?)). split; [done|].
    exists next, e, (c, s). rewrite last_snoc. split_and!; [done..|].
    destruct ii_closes0 as [->|[? _]]; done.
  - intros Hg. destruct (ii_gone0 Hg) as (Hf & _). unfold inbox_fed in Hf. by rewrite Hr in Hf.
Qed.

Lemma in_reader_step (w : World) stop next :
  in_inv w → in_inv (reader_step kind_debug stop next w).
Proof using HI.
  intros I. unfold reader_step.
  assert (stop && sk_reader_aborted w = true → sk_owner w ≠ Holding) as Hab.
  { intros [_ Ha]%andb_true_iff. by apply (ii_abort _ _ I). }
  destruct (sk_reader w) as [| |p last|c s|] eqn:Hr; try done.
  - destruct (stop && _) eqn:Hs; [|destruct next as [next|]; [by apply in_reader_reads|]].
    + apply in_reader_drops; rewrite ?Hr; try done; [by left|intros ? ->; cbn; lia].
    + destruct (inbox_closed w); [|done].
      apply in_reader_drops; rewrite ?Hr; try done; [by left|intros ? ->; cbn; lia].
  - assert (∀ tail, tail_ok (RdOffering p last) tail → tail_ok (reader_sent last) tail) as Hsent.
    { intros tail. destruct last as [[[]|]|]; cbn; try done. intros (? & ? & -> & _). cbn. lia. }
    assert (∀ tail, tail_ok (RdOffering p last) tail → tail_ok (reader_unsent last) tail) as Hun.
    { intros tail. destruct last as [[[]|]|]; cbn; try done; [|intros ->; cbn; lia].
      intros (? & ? & -> & _). cbn. lia. }
    destruct (stop && _) eqn:Hs; [|destruct (inbox_closed w) eqn:Hc].
    + apply in_reader_drops; rewrite ?Hr; try done; [by right; auto|].
      intros tail. destruct last as [c|]; cbn; [intros (? & ? & -> & _)|intros ->]; cbn; lia.
    + apply in_reader_drops; rewrite ?Hr; try done; try (by destruct last as [[[]|]|]).
      right. split; [|by destruct last as [[[]|]|]].
      unfold inbox_closed in Hc. apply bool_decide_eq_true in Hc. by rewrite Hc.
    + destruct (send_cases p (sk_inbox w) (ii_open _ _ I)) as [->|(q & -> & Hq & Hroom & Hcl)]; [done|].
      eapply (in_reader_moves w _ q [p]); rewrite ?Hr; try done; try (by destruct last as [[[]|]|]).
      * rewrite Hq, length_app. pose proof (ii_room _ _ I) as R. cbn. lia.
      * by left.
  - by apply in_reader_publishes.
Qed.

(** What the opener has done. *)
Definition up_inv (w : World) : Prop :=
  let fresh := sk_reader w = RdAbsent ∧ sk_writer w = WrAbsent in
  match sk_opener w with
  | OpConnecting | OpConnected | OpAccepted | OpRefused _ | OpFailing _ =>
      fresh ∧ upgrades (sk_log w) = []
  | OpReaderSpawned =>
      sk_reader w ≠ RdAbsent ∧ sk_writer w = WrAbsent ∧ upgrades (sk_log w) = []
  | OpWriterSpawned | OpReaderStored | OpStored =>
      sk_reader w ≠ RdAbsent ∧ sk_writer w ≠ WrAbsent ∧ upgrades (sk_log w) = []
  | OpEnded =>
      (fresh ∧ (upgrades (sk_log w) = [] ∨ ∃ e, upgrades (sk_log w) = [UpgradeFailed e])) ∨
      (sk_reader w ≠ RdAbsent ∧ sk_writer w ≠ WrAbsent ∧ upgrades (sk_log w) = [UpgradeOk])
  end.

Lemma in_spawn (w : World) (o : Opener) :
  in_inv w → sk_reader w = RdAbsent → sk_opener w ≠ OpEnded →
  in_inv (set_opener o (set_reader RdReading w)).
Proof.
  intros [] Hr Ho. pose proof (ii_absent0 Hr) as Hn. rewrite Hr in *.
  split; cbn; auto.
  - destruct ii_closes0 as [?|[? _]]; [by left|done].
  - intros Hg. destruct (ii_gone0 Hg) as [Hf _]. unfold inbox_fed in Hf. rewrite Hr in Hf.
    by destruct (sk_opener w).
Qed.

(** What leaves the inbox, the reader and what was logged of them alone. *)
Ltac frame I := eapply (in_frame _ _ _ I);
  cbn; log_simpl; try done; try (apply I); auto.

Lemma in_opener_step (w : World) connected :
  in_inv w → up_inv w → in_inv (opener_step connected w).
Proof.
  intros I U. unfold opener_step, up_inv in *.
  destruct (sk_opener w) eqn:Ho; try done;
    repeat match goal with
    | |- context [match ?c with _ => _ end] => is_var c; destruct c
    | |- context [if ?b then _ else _] => destruct b
    end; try done;
    try (apply in_spawn; [done|apply U|by rewrite Ho]);
    frame I; unfold inbox_fed; cbn; rewrite Ho; by destruct (sk_reader w).
Qed.

Lemma in_writer_step (w : World) stop taken : in_inv w → in_inv (writer_step stop taken w).
Proof.
  intros I. unfold writer_step.
  destruct (sk_writer w) as [| |m last|]; try done; destruct (stop && _); try (by frame I).
  - destruct (chan_recv _) as [[o|] q]; [by frame I|]. destruct (outbox_unsent w); [by frame I|done].
  - destruct taken; by frame I.
Qed.

Lemma in_queue (w : World) o : in_inv w → in_inv (queue_outbound o w).
Proof.
  intros I. unfold queue_outbound. destruct (outbox_served w); [|by frame I].
  destruct (chan_try_send _ _) as [r q]. destruct r; by frame I.
Qed.

Lemma in_drop (w : World) : in_inv w → in_inv (drop_step w).
Proof.
  intros I. pose proof (ii_abort _ _ I) as Ha. unfold drop_step.
  destruct (sk_owner w) eqn:Ho; [..|done]; frame I; intros Hr; specialize (Ha Hr); naive_solver.
Qed.

Lemma in_recv (w : World) : in_inv w → sk_owner w = Holding → in_inv (recv_frame w).
Proof using HI.
  intros I Ho. unfold recv_frame.
  destruct (recv_cases (sk_inbox w)) as [[Hi ->]|(p & rest & q & Hi & -> & Hq & Hroom & Hc)].
  - destruct (inbox_fed w) eqn:Hf; [done|]. destruct I. split; cbn; log_simpl; auto.
    intros _. split_and!; [by rewrite <-Hf|done|].
    destruct ii_flow0 as (lost & -> & [->|[_ ?]]); [|done]. rewrite Hi.
    unfold inbox_fed in Hf. destruct (sk_reader w); try done; by rewrite !app_nil_r.
  - destruct I. split; cbn; log_simpl; auto.
    + by rewrite Hc.
    + rewrite Hroom, Hq. rewrite Hi in ii_room0. cbn in ii_room0. lia.
    + destruct ii_flow0 as (lost & -> & Hl). exists lost. rewrite Hi, Hq, <-!app_assoc. done.
    + intros Hg. destruct (ii_gone0 Hg) as (_ & Hn & _). by rewrite Hi in Hn.
Qed.

Lemma in_act (w : World) x : in_inv w → up_inv w → in_inv (sock_act kind_debug x w).
Proof using HI.
  intros I U. destruct x; cbn; repeat case_decide; try done.
  - by apply in_queue.
  - by apply in_queue.
  - by apply in_recv.
  - by apply in_drop.
  - by apply in_opener_step.
  - by apply in_reader_step.
  - by apply in_writer_step.
Qed.

Lemma up_frame (w w' : World) :
  up_inv w → sk_opener w' = sk_opener w →
  (sk_reader w' = RdAbsent ↔ sk_reader w = RdAbsent) →
  (sk_writer w' = WrAbsent ↔ sk_writer w = WrAbsent) →
  upgrades (sk_log w') = upgrades (sk_log w) → up_inv w'.
Proof.
  unfold up_inv. intros U -> Hr Hw ->. destruct (sk_opener w); naive_solver.
Qed.

Lemma up_act (w : World) x : up_inv w → up_inv (sock_act kind_debug x w).
Proof.
  intros U. destruct x as [f|code| | |connected|stop next|stop taken]; cbn;
    repeat case_decide; try done.
  1,2: unfold queue_outbound; destruct (outbox_served w); [destruct (chan_try_send _ _) as [[] ?]|];
    by (eapply up_frame; cbn; log_simpl).
  - unfold recv_frame. destruct (chan_recv _) as [[p|] q]; [|destruct (inbox_fed w)]; try done;
      by (eapply up_frame; cbn; log_simpl).
  - unfold drop_step. destruct (sk_owner w); try done; by (eapply up_frame; cbn; log_simpl).
  - unfold opener_step, up_inv in *. destruct (sk_opener w) eqn:Ho;
      repeat match goal with
      | |- context [match ?c with _ => _ end] => is_var c; destruct c
      | |- context [if ?b then _ else _] => destruct b
      end; cbn; rewrite ?Ho; log_simpl; try done;
      destruct_and?;
      repeat match goal with E : upgrades _ = [] |- _ => rewrite E; clear E end; cbn; auto 10.
    left. eauto.
  - unfold reader_step. destruct (sk_reader w) as [| |p last|c s|] eqn:Hr; try done.
    + destruct (stop && _); [|destruct next as [next|]; [|destruct (inbox_closed w); [|done]]];
        eapply up_frame; cbn; log_simpl; try done; rewrite Hr; try done.
      by destruct (outcome next).
    + destruct (stop && _); [|destruct (inbox_closed w); [|destruct (chan_try_send _ _) as [[] ?]]];
        try done; eapply up_frame; cbn; log_simpl; try done; rewrite Hr; try done;
        by destruct last as [[[]|]|].
    + eapply up_frame; cbn; log_simpl; try done. by rewrite Hr.
  - unfold writer_step. destruct (sk_writer w) as [| |m last|] eqn:Hr; try done.
    + destruct (stop && _); [|destruct (chan_recv _) as [[o|] q]; [|destruct (outbox_unsent w); [|done]]];
        eapply up_frame; cbn; log_simpl; try done; rewrite Hr; try done.
      by destruct (outbound_message o) as [[]|].
    + destruct (stop && _); [|destruct taken]; eapply up_frame; cbn; log_simpl; try done;
        rewrite Hr; try done. by destruct last.
Qed.
End Inbound.

(** ** Outbound *)

Section Outbound.
Context (kind_debug : TransportErrorKind → string).
Context {QI QO : Type} `{HI : ChannelLaws QI (TransportError + WsFrame)}
  `{HO : ChannelLaws QO WsOutbound}.
Abbreviation World := (SocketWorld QI QO).

(** Of the items the writer took only the last may close. *)
Definition taken_ok (r : Writer) (taken : list WsOutbound) : Prop :=
  ∃ pre tail, taken = pre ++ tail ∧ Forall (λ o, closing_item o = false) pre ∧
    match r with
    | WrSending m true => ∃ code, tail = [OutClose code]
    | WrEnded => (length tail ≤ 1)%nat
    | _ => tail = []
    end.

Record out_inv (w : World) : Prop := {
  oi_open : chan_closed (sk_outbox w) = false;
  oi_room : chan_room (sk_outbox w) + N.of_nat (length (chan_items (sk_outbox w)))
            = DEFAULT_OUTBOUND_CAPACITY;
  oi_flow : ∃ taken lost, queued (sk_log w) = taken ++ chan_items (sk_outbox w) ∧
            omap message_of taken = wired (sk_log w) ++ sending (sk_writer w) ++ lost ∧
            (lost = [] ∨ sk_writer w = WrEnded) ∧ taken_ok (sk_writer w) taken;
  oi_absent : sk_writer w = WrAbsent → wired (sk_log w) = [];
}.

Lemma out_frame (w w' : World) :
  out_inv w → sk_outbox w' = sk_outbox w → sk_writer w' = sk_writer w →
  queued (sk_log w') = queued (sk_log w) → wired (sk_log w') = wired (sk_log w) → out_inv w'.
Proof. intros [] Ho Hw Eq Ew. split; rewrite ?Ho, ?Hw, ?Eq, ?Ew; auto. Qed.

Lemma out_queue (w : World) o : out_inv w → out_inv (queue_outbound o w).
Proof using HO.
  intros I. unfold queue_outbound. destruct (outbox_served w); [|by (eapply out_frame; cbn; log_simpl)].
  destruct (send_cases o (sk_outbox w) (oi_open _ I)) as [->|(q & -> & Hq & Hroom & Hc)].
  - by eapply out_frame; cbn; log_simpl.
  - destruct I. split; cbn; log_simpl; auto.
    + rewrite Hq, length_app. cbn. lia.
    + destruct oi_flow0 as (taken & lost & -> & ? & ? & ?). exists taken, lost.
      by rewrite Hq, app_assoc.
Qed.

(** The writer ends, whatever it was doing. *)
Lemma out_writer_ends (w : World) : sk_writer w ≠ WrAbsent → out_inv w → out_inv (set_writer WrEnded w).
Proof.
  intros Hw []. split; cbn; auto.
  - destruct oi_flow0 as (taken & lost & Hq & Hm & _ & pre & tail & Ht & Hpre & Htail).
    exists taken, (sending (sk_writer w) ++ lost). split_and!; [done|done|by right|].
    exists pre, tail. split_and!; [done..|].
    destruct (sk_writer w) as [| |m []|]; try (subst; cbn; lia).
    destruct Htail as [? ->]. cbn. lia.
  - done.
Qed.

Lemma out_writer_takes (w : World) o rest q :
  sk_writer w = WrWaiting → out_inv w → chan_items (sk_outbox w) = o :: rest →
  chan_items q = rest → chan_room q = chan_room (sk_outbox w) + 1 →
  chan_closed q = chan_closed (sk_outbox w) →
  out_inv (set_writer (match outbound_message o with
                       | Some (m, last) => WrSending m last
                       | None => WrWaiting
                       end) (set_outbox q w)).
Proof.
  intros Hw [] Hi Hq Hroom Hc. split; cbn; auto.
  - by rewrite Hc.
  - rewrite Hroom, Hq. rewrite Hi in oi_room0. cbn in oi_room0. lia.
  - destruct oi_flow0 as (taken & lost & Hqd & Hm & Hl & pre & tail & -> & Hpre & Htail).
    rewrite Hw in *. cbn in Hm, Htail. subst tail. destruct Hl as [->|]; [|done].
    rewrite !app_nil_r in *. exists (pre ++ [o]), [].
    rewrite Hqd, Hi, Hq, omap_app, Hm, !app_nil_r, <-app_assoc. split_and!; [done| |by left|].
    + f_equal. cbn. unfold message_of. by destruct (outbound_message o) as [[]|].
    + destruct o as [f|code].
      * exists (pre ++ [OutFrame f]), []. rewrite app_nil_r. split_and!; [done| |].
        -- apply Forall_app_2; [done|]. by constructor.
        -- cbn. by destruct (opcode f); try destruct (utf8_valid _).
      * exists pre, [OutClose code]. split_and!; [done..|]. by exists code.
  - destruct (outbound_message o) as [[]|]; done.
Qed.

Lemma out_writer_step (w : World) stop taken : out_inv w → out_inv (writer_step stop taken w).
Proof using HO.
  intros I. unfold writer_step. destruct (sk_writer w) as [| |m last|] eqn:Hw; try done.
  - destruct (stop && _); [apply out_writer_ends; [by rewrite Hw|done]|].
    destruct (recv_cases (sk_outbox w)) as [[Hi ->]|(o & rest & q & Hi & -> & Hq & Hroom & Hc)].
    + destruct (outbox_unsent w); [|done]. apply out_writer_ends; [by rewrite Hw|done].
    + by eapply out_writer_takes.
  - destruct (stop && _); [apply out_writer_ends; [by rewrite Hw|done]|].
    destruct taken; [|apply out_writer_ends; [by rewrite Hw|done]].
    destruct I. split; cbn; log_simpl; auto.
    + destruct oi_flow0 as (taken & lost & ? & Hm & Hl & pre & tail & Ht & Hpre & Htail).
      rewrite Hw in *. destruct Hl as [->|]; [|done]. exists taken, []. split_and!; [done| |by left|].
      * rewrite Hm. destruct last; cbn; by rewrite !app_nil_r.
      * exists pre, tail. split_and!; [done..|]. destruct last; cbn in *; [|done].
        destruct Htail as [? ->]. cbn. lia.
    + by destruct last.
Qed.

Lemma out_act (w : World) x : out_inv w → up_inv w → out_inv (sock_act kind_debug x w).
Proof using HO.
  intros I U. destruct x as [f|code| | |connected|stop next|stop taken]; cbn;
    repeat case_decide; try done.
  1,2: by apply out_queue.
  - unfold recv_frame. destruct (chan_recv _) as [[p|] q]; [|destruct (inbox_fed w)]; try done;
      by (eapply out_frame; cbn; log_simpl).
  - unfold drop_step. destruct (sk_owner w); try done; by (eapply out_frame; cbn; log_simpl).
  - unfold opener_step, up_inv in *. destruct (sk_opener w) eqn:Ho; try done;
      repeat match goal with
      | |- context [match ?c with _ => _ end] => is_var c; destruct c
      | |- context [if ?b then _ else _] => destruct b
      end; try done; try (by (eapply out_frame; cbn; log_simpl)).
    destruct U as (_ & Hw & _). destruct I. rewrite Hw in *. split; cbn; auto.
    destruct oi_flow0 as (taken & lost & ? & ? & Hl & Ht). exists taken, lost.
    split_and!; [done..| |done]. by destruct Hl; [left|].
  - unfold reader_step. destruct (sk_reader w) as [| |p last|c s|]; try done;
      repeat match goal with
      | |- context [match ?c with _ => _ end] => is_var c; destruct c
      | |- context [if ?b then _ else _] => destruct b
      | |- context [chan_try_send ?i ?q] => destruct (chan_try_send i q) as [[] ?]
      end; try done; by (eapply out_frame; cbn; log_simpl).
  - by apply out_writer_step.
Qed.
End Outbound.

(** ** The promises *)

Section Promises.
Context (kind_debug : TransportErrorKind → string).
Context {QI QO : Type} `{HI : ChannelLaws QI (TransportError + WsFrame)}
  `{HO : ChannelLaws QO WsOutbound}.
Abbreviation World := (SocketWorld QI QO).
Abbreviation outcome := (reader_outcome kind_debug).

Record sock_inv (w : World) : Prop := {
  si_up : up_inv w;
  si_in : in_inv kind_debug w;
  si_out : out_inv w;
}.

(** A fresh channel of a capacity. *)
Definition fresh_channel {Q Item} `{Channel Q Item} (capacity : N) (q : Q) : Prop :=
  chan_items q = [] ∧ chan_room q = capacity ∧ chan_closed q = false.

Lemma run_socket_inv xs (w : World) : sock_inv w → sock_inv (run_socket kind_debug xs w).
Proof using HI HO.
  revert w. induction xs as [|x xs IH]; intros w [U I O]; [done|]. cbn. apply IH.
  split; [by apply up_act|by apply in_act|by apply out_act].
Qed.

Lemma spawned_inv inbox outbox :
  fresh_channel DEFAULT_INBOUND_CAPACITY inbox → fresh_channel DEFAULT_OUTBOUND_CAPACITY outbox →
  sock_inv (open_and_spawn (QI := QI) (QO := QO) inbox outbox).
Proof.
  intros (Hi & Hir & Hic) (Ho & Hor & Hoc). split; [done|..].
  - split; cbn; rewrite ?Hi, ?Hir; try done.
    + exists []. auto.
    + by exists [], [].
    + by left.
  - split; cbn; rewrite ?Ho, ?Hor; try done. exists [], []. split_and!; [done..|by left|].
    by exists [], [].
Qed.

(** What only the last element of a list may satisfy is its last. *)
Lemma only_last_holds {A} (P : A → Prop) (pre tail : list A) a x b :
  Forall (λ y, ¬ P y) pre → (length tail ≤ 1)%nat → pre ++ tail = a ++ x :: b → P x → b = [].
Proof.
  intros Hpre Ht He Hx. apply app_eq_inv in He as [(k & -> & Hk)|(k & -> & ->)].
  - destruct k as [|y k]; cbn in Hk; [subst tail; by destruct b; [|cbn in Ht; lia]|].
    injection Hk as <- _. rewrite Forall_app, Forall_cons in Hpre. tauto.
  - rewrite length_app in Ht. cbn in Ht. destruct b; [done|cbn in Ht; lia].
Qed.

Lemma tail_ok_short r tail : tail_ok kind_debug r tail → (length tail ≤ 1)%nat.
Proof. destruct r as [| |p [c|]| |]; cbn; intros; naive_solver (cbn; lia). Qed.

Lemma taken_tail r (taken : list WsOutbound) :
  taken_ok r taken →
  ∃ pre tail, taken = pre ++ tail ∧ Forall (λ o, closing_item o = false) pre ∧ (length tail ≤ 1)%nat.
Proof.
  intros (pre & tail & ? & ? & Ht). exists pre, tail. split_and!; [done..|].
  destruct r as [| |m []|]; naive_solver (cbn; lia).
Qed.

Lemma frame_message_no_close pre :
  Forall (λ o, closing_item o = false) pre →
  Forall (λ m, ¬ ∃ f, m = MClose (Some f)) (omap message_of pre).
Proof.
  induction 1 as [|o pre Ho _ IH]; [constructor|]. cbn. destruct o as [f|]; [|done].
  unfold message_of at 1. cbn. destruct (opcode f); try destruct (utf8_valid _); cbn; try done;
    constructor; naive_solver.
Qed.

Lemma length_omap_le {A B} (f : A → option B) l : (length (omap f l) ≤ length l)%nat.
Proof. induction l as [|x l IH]; cbn; [done|]. destruct (f x); cbn; lia. Qed.

Lemma inbound_promises (w : World) :
  in_inv kind_debug w →
  received (sk_log w) `prefix_of` inbound kind_debug (reads (sk_log w)) ∧
  (sk_owner w = Holding → inbound kind_debug (reads (sk_log w))
     = received (sk_log w) ++ chan_items (sk_inbox w) ++ held (sk_reader w)) ∧
  (reader_gone (sk_log w) = true → received (sk_log w) = inbound kind_debug (reads (sk_log w))) ∧
  (∀ a next b, reads (sk_log w) = a ++ next :: b → terminal kind_debug next = true → b = []).
Proof.
  intros []. destruct ii_flow0 as (lost & Hf & Hl). split_and!.
  - rewrite Hf. by eexists.
  - intros Ho. destruct Hl as [->|[_ ?]]; [|done]. by rewrite Hf, app_nil_r.
  - intros Hg. by destruct (ii_gone0 Hg) as (_ & _ & ->).
  - intros a next b Hr Hn. destruct ii_reads0 as (pre & tail & He & Hpre & Ht).
    eapply (only_last_holds (λ n, terminal kind_debug n = true) pre tail); [|by eapply tail_ok_short| |done].
    + eapply Forall_impl; [exact Hpre|]. cbn. by intros ? ->.
    + by rewrite <-He.
Qed.

Lemma outbound_promises (w : World) :
  out_inv w →
  wired (sk_log w) `prefix_of` omap message_of (queued (sk_log w)) ∧
  (∀ a f b, wired (sk_log w) = a ++ MClose (Some f) :: b → b = []).
Proof.
  intros []. destruct oi_flow0 as (taken & lost & -> & Hm & _ & Ht). split.
  - rewrite omap_app, Hm, <-app_assoc. by eexists.
  - intros a f b Hw. destruct (taken_tail _ _ Ht) as (pre & tail & -> & Hpre & Hlen).
    rewrite Hw, omap_app, <-app_assoc in Hm.
    assert (b ++ sending (sk_writer w) ++ lost = []) as Hn; [|by destruct b].
    eapply (only_last_holds (λ m, ∃ f, m = MClose (Some f)) (omap message_of pre)
              (omap message_of tail)); [by apply frame_message_no_close| |exact Hm|by exists f].
    pose proof (length_omap_le message_of tail). lia.
Qed.

(** C19: A socket hands its owner the frames of the stream in order and complete, and a
    failure last, however its tasks and the owner interleave: while the owner holds it, what
    was received, then what is queued, then what the reader holds is everything read; that
    the reader is gone is told only after everything was received; nothing is read after a
    close or an error.  What goes out is a prefix of what was queued, in order, frames that
    are no messages skipped, and nothing follows a close.  An attempt has at most one
    outcome, and a failed one neither reads nor writes; at most one close is announced, that
    of the last result read.  The queues stay within their capacity. *)
Theorem socket_faithful inbox outbox xs :
  fresh_channel DEFAULT_INBOUND_CAPACITY inbox → fresh_channel DEFAULT_OUTBOUND_CAPACITY outbox →
  let w : World := run_socket kind_debug xs (open_and_spawn inbox outbox) in
  let log := sk_log w in
  (received log `prefix_of` inbound kind_debug (reads log) ∧
   (sk_owner w = Holding → inbound kind_debug (reads log)
      = received log ++ chan_items (sk_inbox w) ++ held (sk_reader w)) ∧
   (reader_gone log = true → received log = inbound kind_debug (reads log)) ∧
   (∀ a next b, reads log = a ++ next :: b → terminal kind_debug next = true → b = [])) ∧
  (wired log `prefix_of` omap message_of (queued log) ∧
   (∀ a f b, wired log = a ++ MClose (Some f) :: b → b = [])) ∧
  ((length (upgrades log) ≤ 1)%nat ∧
   (∀ e, UpgradeFailed e ∈ upgrades log → reads log = [] ∧ wired log = []) ∧
   (closes log = [] ∨ ∃ next e c, last (reads log) = Some next ∧
      outcome next = ReadEnd e (Some c) ∧ closes log = [c])) ∧
  (N.of_nat (length (chan_items (sk_inbox w))) ≤ DEFAULT_INBOUND_CAPACITY ∧
   N.of_nat (length (chan_items (sk_outbox w))) ≤ DEFAULT_OUTBOUND_CAPACITY).
Proof using HI HO.
  intros Hi Ho w log.
  destruct (run_socket_inv xs _ (spawned_inv inbox outbox Hi Ho)) as [U I O]. fold w in U, I, O.
  split; [by apply inbound_promises|]. split; [by apply outbound_promises|]. split_and!.
  - unfold up_inv in U. fold log in U. destruct (sk_opener w); destruct_and?;
      try (match goal with E : upgrades log = [] |- _ => rewrite E end; cbn; lia).
    destruct U as [[_ [->|[e ->]]]|(_ & _ & ->)]; cbn; lia.
  - intros e He. unfold up_inv in U. fold log in U.
    assert (sk_reader w = RdAbsent ∧ sk_writer w = WrAbsent) as [Hr Hw].
    { destruct (sk_opener w); destruct_and?;
        try (match goal with E : upgrades log = [] |- _ => rewrite E in He end;
             by apply not_elem_of_nil in He).
      destruct U as [[? _]|(_ & _ & E)]; [done|]. rewrite E in He. by apply list_elem_of_singleton in He. }
    split; [by apply (ii_absent _ _ I)|by apply (oi_absent _ O)].
  - destruct (ii_closes _ _ I) as [?|[_ ?]]; [by left|by right].
  - pose proof (ii_room _ _ I). lia.
  - pose proof (oi_room _ O). lia.
Qed.

(** *** A dropped socket *)

(** The tasks' own steps: nothing comes from the stream, and the sink refuses. *)
Definition settle (n : nat) : list SockAct :=
  repeat (SkOpener None) 6 ++ repeat (SkReader false None) 2 ++ repeat (SkWriter false false) n.

Lemma run_socket_app xs ys (w : World) :
  run_socket kind_debug (xs ++ ys) w = run_socket kind_debug ys (run_socket kind_debug xs w).
Proof. apply fold_left_app. Qed.

Lemma run_socket_cons x xs (w : World) :
  run_socket kind_debug (x :: xs) w = run_socket kind_debug xs (sock_act kind_debug x w).
Proof. done. Qed.

Lemma writer_settles n (w : World) :
  sk_owner w = Gone → sk_writer w ≠ WrAbsent → (length (chan_items (sk_outbox w)) + 1 < n)%nat →
  let w' := run_socket kind_debug (repeat (SkWriter false false) n) w in
  sk_writer w' = WrEnded ∧ sk_opener w' = sk_opener w ∧ sk_reader w' = sk_reader w ∧
  sk_log w' = sk_log w.
Proof using HO.
  revert w. induction n as [|n IH]; intros w Ho Hw Hn; [lia|]. cbn [repeat].
  rewrite run_socket_cons. cbn [sock_act].
  assert (∀ w : World, sk_writer w = WrEnded →
    run_socket kind_debug (repeat (SkWriter false false) n) w = w) as Hend.
  { clear. intros w Hw. induction n as [|n IH]; [done|].
    cbn [repeat]. rewrite run_socket_cons. cbn [sock_act]. unfold writer_step. by rewrite Hw. }
  unfold writer_step. destruct (sk_writer w) as [| |m last|] eqn:Hs; [done| | |].
  - destruct (recv_cases (sk_outbox w)) as [[Hi ->]|(o & rest & q & Hi & -> & Hq & _)].
    + unfold outbox_unsent. rewrite Ho. by rewrite Hend.
    + rewrite Hi in Hn. cbn in Hn.
      destruct (IH (set_writer (match outbound_message o with
                                | Some (m, last) => WrSending m last | None => WrWaiting end)
                     (set_outbox q w))) as (? & ? & ? & ?); cbn; [done| |rewrite Hq; lia|done].
      by destruct (outbound_message o) as [[]|].
  - by rewrite Hend.
  - by rewrite Hend.
Qed.

Lemma opener_settles (w : World) :
  sk_owner w = Gone → up_inv w →
  let w' := run_socket kind_debug (repeat (SkOpener None) 6) w in
  sk_opener w' = OpEnded ∧ sk_owner w' = Gone ∧ up_inv w' ∧
  reads (sk_log w') = reads (sk_log w) ∧ wired (sk_log w') = wired (sk_log w).
Proof.
  intros Ho U. cbn zeta.
  assert (sk_opener (run_socket kind_debug (repeat (SkOpener None) 6) w) = OpEnded ∧
    sk_owner (run_socket kind_debug (repeat (SkOpener None) 6) w) = Gone ∧
    reads (sk_log (run_socket kind_debug (repeat (SkOpener None) 6) w)) = reads (sk_log w) ∧
    wired (sk_log (run_socket kind_debug (repeat (SkOpener None) 6) w)) = wired (sk_log w)).
  { unfold run_socket. cbn [repeat fold_left sock_act]. destruct w as [o ib ob op r wr rh wh ra wa l].
    cbn in Ho. subst o. destruct op; cbn; log_simpl; done. }
  split_and!; try tauto. clear -U. induction (repeat (SkOpener None) 6) as [|x xs IH] in w, U |- *; [done|].
  rewrite run_socket_cons. by apply IH, up_act.
Qed.

Lemma reader_alone (w : World) :
  sk_owner w = Gone →
  reader_step kind_debug false None w =
    match sk_reader w with
    | RdReading => set_reader RdEnded w
    | RdOffering _ last => set_reader (reader_unsent last) w
    | RdPublishing c r => set_reader RdEnded (note (OPublished (SocketClosed c r)) w)
    | _ => w
    end.
Proof. intros Ho. unfold reader_step, inbox_closed. rewrite Ho. by destruct (sk_reader w). Qed.

Lemma reader_settles (w : World) :
  sk_owner w = Gone →
  let w' := run_socket kind_debug (repeat (SkReader false None) 2) w in
  (sk_reader w' = RdEnded ∨ sk_reader w' = RdAbsent) ∧ sk_owner w' = Gone ∧
  sk_opener w' = sk_opener w ∧ sk_writer w' = sk_writer w ∧ sk_outbox w' = sk_outbox w ∧
  reads (sk_log w') = reads (sk_log w) ∧ wired (sk_log w') = wired (sk_log w).
Proof.
  intros Ho w'. subst w'. cbn [repeat]. rewrite !run_socket_cons. cbn [sock_act].
  change (run_socket kind_debug [] ?w) with w. rewrite (reader_alone w Ho).
  destruct (sk_reader w) as [| |p [[[]|]|]|c r|] eqn:Hr; rewrite reader_alone by done;
    cbn; rewrite ?Hr; cbn; log_simpl; auto 10.
Qed.

(** A socket its owner dropped leaves nothing running: by steps of their own the opener and
    the reader end, and so does the writer once its sink refuses a message or the queue is
    empty; nothing more is read or written. *)
Theorem dropped_socket_ends inbox outbox xs :
  fresh_channel DEFAULT_INBOUND_CAPACITY inbox → fresh_channel DEFAULT_OUTBOUND_CAPACITY outbox →
  let w : World := run_socket kind_debug xs (open_and_spawn inbox outbox) in
  sk_owner w = Gone →
  let w' := run_socket kind_debug (settle 258) w in
  sk_opener w' = OpEnded ∧ (sk_reader w' = RdEnded ∨ sk_reader w' = RdAbsent) ∧
  (sk_writer w' = WrEnded ∨ sk_writer w' = WrAbsent) ∧
  reads (sk_log w') = reads (sk_log w) ∧ wired (sk_log w') = wired (sk_log w).
Proof using HI HO.
  intros Hi Hob w Ho w'.
  pose proof (run_socket_inv xs _ (spawned_inv inbox outbox Hi Hob)) as Iw. fold w in Iw.
  destruct Iw as [U I O]. subst w'. unfold settle. rewrite !run_socket_app.
  destruct (opener_settles w Ho U) as (Hop & Ho1 & U1 & R1 & W1).
  pose proof (run_socket_inv (repeat (SkOpener None) 6) w) as Inv1. revert Hop Ho1 U1 R1 W1 Inv1.
  generalize (run_socket kind_debug (repeat (SkOpener None) 6) w) as w1. intros w1 Hop Ho1 U1 R1 W1 Inv1.
  specialize (Inv1 (Build_sock_inv _ U I O)).
  destruct (reader_settles w1 Ho1) as (Hrd & Ho2 & Hop2 & Hw2 & Hob2 & R2 & W2). cbn zeta in *.
  revert Hrd Ho2 Hop2 Hw2 Hob2 R2 W2.
  generalize (run_socket kind_debug (repeat (SkReader false None) 2) w1) as w2.
  intros w2 Hrd Ho2 Hop2 Hw2 Hob2 R2 W2.
  assert (sk_writer w2 = WrAbsent ∨ sk_writer w2 ≠ WrAbsent) as [Ha|Ha]
    by (destruct (sk_writer w2); auto).
  - assert (∀ n, run_socket kind_debug (repeat (SkWriter false false) n) w2 = w2) as ->.
    { induction n as [|n IH]; [done|]. cbn [repeat]. rewrite run_socket_cons. cbn [sock_act].
      unfold writer_step. by rewrite Ha. }
    split_and!; [congruence|done|by right|congruence..].
  - pose proof (oi_room _ (si_out _ Inv1)) as Hroom. unfold DEFAULT_OUTBOUND_CAPACITY in Hroom.
    destruct (writer_settles 258 w2) as (-> & -> & -> & ->); [done|done|rewrite Hob2; lia|].
    split_and!; [congruence|done|by left|congruence..].
Qed.
End Promises.

(** A run: two frames are read and one received, a text and a close go out, and the peer
    closes. *)
Definition sample_socket : list SockAct :=
  let ok := SkOpener (Some (inr ())) in
  [ok; ok; ok; ok; SkSend (mkFrame Text "order"); SkClose 1000;
   SkReader false (Some (Some (inr (MText "a")))); SkReader false None;
   SkReader false (Some (Some (inr (MText "b")))); SkReader false None; SkRecv;
   SkWriter false true; SkWriter false true; SkWriter false true; SkWriter false true;
   SkReader false (Some (Some (inr (MClose (Some (1000, "bye"%string)))))); SkReader false None;
   SkReader false None; ok; ok; ok].

Lemma socket_faithful_witness :
  let inbox := mkFifo [] 256 false in
  let outbox := mkFifo [] 256 false in
  let w := run_socket (λ _, ""%string) sample_socket (open_and_spawn inbox outbox) in
  closes (sk_log w) = [(1000, "bye"%string)] ∧ upgrades (sk_log w) = [UpgradeOk] ∧
  wired (sk_log w) = [MText "order"; MClose (Some (1000, ""%string))] ∧
  received (sk_log w) `prefix_of` inbound (λ _, ""%string) (reads (sk_log w)).
Proof.
  intros inbox outbox w. split_and!; [vm_compute; reflexivity..|].
  refine (proj1 (proj1 (socket_faithful (λ _, ""%string) inbox outbox sample_socket _ _)));
    vm_compute; auto.
Defined.
